(* ===== verification/_CoqProject ===== *)
-Q . S2P
Prelude.v
Memory.v
ParserF.v
Escape.v
Codec.v
Numbers.v
Strings.v
Terminate.v
Param.v
ParamGrammar.v
ParamSafety.v
Route.v
RouteText.v
RoutePrint.v
Contact.v
Methods.v
FirstLine.v
CSeq.v
ContentLength.v
UriData.v
Uri.v
Trie.v
UriSafety.v
UriParamRun.v
UriGrammar.v
ViaParam.v
Via.v
ViaSafety.v
ViaParamRun.v
ViaMain.v
ViaGrammar.v
HName.v
HNameTree.v
HNameTheorems.v
Digest.v
To.v
ToParamSafety.v
ToSafety.v
ToParamRun.v
ToGrammar.v
Msg.v
MsgSafety.v
MsgLists.v
MsgHeaders.v
MsgText.v
MsgRun.v
UriOps.v
UriPrint.v
UriCompare.v
Stl.v
Text.v
Folly.v
AccessLog.v
PhoneList.v
Csv.v
PhoneMapping.v
PhoneRows.v
PhoneInverse.v
PhoneTheorems.v
BatchMapping.v
DncMapping.v
TollFreeMapping.v
DnoMapping.v
LergMapping.v
YoumailMapping.v
GeoMapping.v
FtcMapping.v
F404Mapping.v
F606Mapping.v
ACL.v
Control.v
Published.v
Commands.v
Server.v
ApiHandler.v
ApiTarget.v
ApiReverse.v
SipHandler.v
SipSafety.v
SipReply.v
