(* ===== verification/Prelude.v ===== *)
(** * A verification library for LNR-High-Performance

    The repository holds [callfwd], a server for number portability, and the C
    library [osips_parser], the parser of SIP messages that it uses.  The library
    is modelled by its message parser with the parsers of header names, header
    fields and URIs that it calls, and by its codecs; the server by its tables of
    numbers, its control socket, its HTTP interface and its SIP interface.

    ** The parts of the program and the files that model them

    The SIP parser (src/lib/osips_parser):
    - Memory: the block of memory that a parser gets, pointers, [str];
    - ParserF: the scanning loops of parser_f.h, parser_f.c, trim.h and ut.h;
    - Escape, Codec, Numbers: the escapes of strcommon.c and ut.h, the base 64 and
      base 32 codecs of ut.c, the conversions of numbers of ut.h;
    - Strings: comparison, search and tokens of ut.h; Terminate: none of the loops of
      Escape, Codec and Strings runs on, whatever it is given;
    - Param: [parse_params] of parse_param.c; ParamGrammar, ParamSafety: its theorems;
    - Route: parse_nameaddr.c and parse_rr.c, on top of Param; RouteText, RoutePrint:
      their theorems;
    - Contact: contact.c and parse_contact.c, on top of Param, with their theorem;
    - Digest: digest/param_parser.c, digest_parser.c and digest.c, with their theorems;
    - Methods: [parse_method] and [parse_methods] of parse_methods.c;
    - FirstLine: [parse_first_line] of parse_fline.c;
    - CSeq, ContentLength: [parse_cseq] and [parse_content_length];
    - UriData, Uri: [parse_uri] of parse_uri.c, one definition for every state of
      its switch and for every macro; Trie, UriParamRun, UriGrammar,
      UriSafety: its theorems;
    - ViaParam, Via: [parse_via_param] and [parse_via] of parse_via.c, in the same
      manner; ViaParamRun, ViaMain, ViaGrammar, ViaSafety: theorems;
    - HName: [parse_hname2] of parse_hname2.c with the macros of case_*.h;
      HNameTree (the code as a decision tree, and the table of names that it
      stands for), HNameTheorems: its theorems;
    - To: [parse_to] of parse_to.c; ToParamSafety, ToSafety, ToParamRun,
      ToGrammar: its theorems;
    - Msg: msg_parser.c, [get_hdr_field], [parse_headers] and [parse_msg] on top of
      the parsers above; MsgSafety, MsgLists (the headers, hooks and siblings of a
      message), MsgHeaders, MsgText, MsgRun: its theorems;
    - UriOps: the functions of msg_parser.c that set the URIs of a message and rewrite
      its request URI ([rewrite_ruri]), with their theorems, and [print_uri] of
      parse_uri.c, whose theorems are in UriPrint; UriCompare: [compare_uris] and
      [parse_uri_headers].  A buffer that is written is the argument of a [writer].

    The server (src/callfwd):
    - Stl, Text: vectors, algorithms, exceptions, streams and conversions of the
      C++ standard library;
    - Folly: what the server uses of the folly library, as a class of parameters
      ([Folly]) with the laws of its documentation ([FollyOk]), and an executable
      instance; the command line flags; the batches of lookups;
    - AccessLog: AccessLog.cpp, the lines of the log and the rotation of its file;
    - PhoneList: the columns and indexes of the mappings ([Data::build]);
    - Csv: the loop of [fromCSV] and of the loaders over the rows of a file;
    - PhoneMapping: PhoneMapping.cpp; PhoneRows, PhoneInverse, PhoneTheorems: its
      theorems;
    - BatchMapping: the interface that the request handlers rely on, implemented
      by DncMapping, DnoMapping, TollFreeMapping, LergMapping, YoumailMapping,
      GeoMapping, FtcMapping, F404Mapping and F606Mapping, each after its source;
    - ACL: ACL.cpp;
    - Control: Control.cpp; Published, Commands, Server: theorems;
    - ApiHandler: ApiHandler.cpp; ApiTarget, ApiReverse: theorems;
    - SipHandler: SipHandler.cpp; SipSafety, SipReply: theorems.

    ** How the parts interact

    The control thread (Control) starts a thread for every message; a command
    loads a file with a builder of one of the mappings (Csv, PhoneMapping and the
    others), builds it and exchanges the published one.  The request handlers
    (ApiHandler) read the published mappings.  [server_event] of Control is the
    labelled step relation of the process: a message arrives, a command reads the
    mappings and its files, a command publishes; commands interleave.  [server_run]
    collects the labels of a run in a trace.  The theorems of
    ApiTarget are stated over two states of such a run, the one at the beginning
    of a request and the one at its end.  The SIP server (SipHandler) hands its
    receive buffer to [parse_msg], asks ACL for the permission of the caller, looks
    the called number up in the published tables (PhoneMapping) and writes a line
    to the access log.

    ** The memory model, errors and fuel

    The result of C and C++ code is a [res]: a value, a [Fault] (memory that does
    not belong to the program, or in the server anything that ends the process or
    is undefined), or [OutOfFuel].  Return codes, error fields and exceptions are
    values ([throws] of Stl).  [wp] says that code neither faults nor runs out of
    fuel, and what holds of its result.  The fuel of a loop is always a bound
    computed from its input (the length of the buffer, of the file or of the
    column), and the theorems say that it is enough, never that a result is right
    if there is one.  Characters are signed, machine integers are [Z] with their
    wrap-around written out ([u64], the 34 and 30 bits of [PhoneList], the 16 bits
    of a port).  Numbers behind the end of a vector, null pointers and exceptions
    in functions that must not throw are [Fault]s.

    ** What the theorems show

    - The SIP server: every well-formed request gets the reply that the tables and
      the rules call for ([sip_answers]); whatever arrives, the handler terminates
      inside of its buffer and replies at most once ([sip_safe]).
    - The parsers accept every text of a grammar and yield its parts
      ([parse_msg_text], [parse_uri_text], [parse_via_text], [parse_to_text],
      [contacts_text], [routes_text], [parse_params_text], [credentials_text],
      [parse_first_line_request], [parse_first_line_reply], [parse_cseq_field],
      [parse_content_length_value], [parse_methods_list]); [parse_method_correct]
      and [parse_hname2_name] compare the optimised recognisers of methods and of
      header names with a search in their table.
    - On every input the parsers terminate and read only the memory they may read
      ([..._safe]), under conditions on what follows the text: a NUL somewhere behind
      it, 20 readable bytes behind a message, 17 readable bytes for the scheme of an
      [urn:] URI ([parse_uri_urn_overrun]); the headers of a message lie in front of
      that NUL, which may be behind the text ([parse_msg_safe]); what [parse_headers] leaves is a well-formed message
      ([parse_headers_wf]).
    - URIs are rewritten, printed and compared as their parts say
      ([rewrite_ruri_text], [print_uri_text], [compare_uris_text]).
    - Writers and readers are inverse to each other ([escape_roundtrip],
      [base_roundtrip], [decimal_roundtrip], [hex_roundtrip], [print_uri_text]); what is printed of routes
      fits into the room for it ([print_rr_fits]).
    - The string functions: orders and equality agree ([string_order]), the searches find
      the first occurrence ([search_first]), and all of them end on every input
      ([string_functions_terminate]).
    - PhoneMapping implements the table of its rows ([phone_mapping_refines]),
      its builder keeps the invariant ([addRow_invariant]), a batch of lookups is
      its lookups ([getRNs_batch]), phone numbers are read as they should
      ([fromString_number], [fromString_rejects]).
    - Commands: [reload_publishes], [verify_counts], [dump_reload] (a dump can be
      loaded again); what fails and how ([bad_line_reply], [reload_unterminated],
      [dno_reload_forgets], [stale_descriptors]).
    - The process: in every run, whatever is published was built by the loader of a
      command of the run from every line of the file that this command had read
      ([server_publishes_files]); nothing becomes unavailable
      ([server_stays_available]), a command is all or nothing
      ([command_all_or_nothing]).
    - The HTTP interface: what is answered ([target_serves], [reverse_serves]), and
      that there is one answer to every request whose Content-Length is a number;
      another one ends the process ([target_answers_once]).

    ** What is not modelled

    - In msg_parser.c the functions that copy a message, and the search for four
      headers in a text ([extract_ftc_hdrs]); the
      parsers of the other header bodies, which neither the message parser nor the
      server calls; SDP; statistics and error texts; whatever frees
      memory or prints for debugging.
    - The STIR service, CallFwd.cpp, the log sinks: input and output on top of
      OpenSSL and proxygen.
    - Hazard pointers: a mapping is an immutable value that its readers keep.
      The memory that a builder asks for is the parameter [reserve].
    - In a request handler the published mappings are read at one point, where the
      code reads one atomic pointer after the other.  A command reads its file at one
      point as well: a file that changes while it is read is not modelled. *)

From stdpp Require Export base tactics numbers list.
From Stdlib Require Export ZArith Lia.

#[global] Open Scope Z_scope.

(** ** Outcomes of running C code

    Running a piece of C code over a memory has one of three outcomes: it
    yields a value ([Ok]), it dereferences an address outside of the memory it
    was given ([Fault], carrying the address), or the fuel bounding a loop is
    used up ([OutOfFuel]).  Failures that the C code reports itself (a return
    code, a field [error] of a structure) are ordinary values: nothing the code
    decides is expressed with [Fault]. *)
Inductive res (A : Type) : Type :=
| Ok (a : A)
| Fault (p : Z)
| OutOfFuel.
Arguments Ok {A} a.
Arguments Fault {A} p.
Arguments OutOfFuel {A}.

#[export] Instance res_ret : MRet res := λ A a, Ok a.
#[export] Instance res_bind : MBind res := λ A B f r,
  match r with
  | Ok a => f a
  | Fault p => Fault p
  | OutOfFuel => OutOfFuel
  end.
#[export] Instance res_fmap : FMap res := λ A B f r, a ← r; mret (f a).

(** ** Total-correctness assertions

    [wp r Q]: the run [r] yields a value, and the value satisfies [Q].  A run
    that faults or that exhausts its fuel satisfies no assertion, so every
    theorem stated with [wp] includes memory safety and termination. *)
Definition wp {A} (r : res A) (Q : A → Prop) : Prop :=
  match r with Ok a => Q a | _ => False end.

Create HintDb wp discriminated.

Section wp.
Context {A B : Type}.

Lemma wp_ok (a : A) (Q : A → Prop) : Q a → wp (Ok a) Q.
Proof. done. Qed.

Lemma wp_ret (a : A) (Q : A → Prop) : Q a → wp (mret a) Q.
Proof. done. Qed.

Lemma wp_bind (r : res A) (f : A → res B) (Q : B → Prop) :
wp r (λ a, wp (f a) Q) → wp (r ≫= f) Q.
Proof. by destruct r. Qed.

Lemma wp_mono (r : res A) (P Q : A → Prop) :
wp r P → (∀ a, P a → Q a) → wp r Q.
Proof. destruct r; simpl; auto. Qed.

Lemma wp_and (r : res A) (P Q : A → Prop) :
wp r P → wp r Q → wp r (λ a, P a ∧ Q a).
Proof. destruct r; simpl; auto. Qed.

Lemma wp_inv (r : res A) (Q : A → Prop) : wp r Q → ∃ a, r = Ok a ∧ Q a.
Proof. destruct r; simpl; [eauto | done | done]. Qed.

Lemma wp_eq (r : res A) (a : A) : r = Ok a ↔ wp r (λ b, b = a).
Proof. destruct r; simpl; split; by try congruence. Qed.
End wp.

(** ** Loops

    [loop fuel body s] runs [body] from the loop state [s]: [inl s'] goes round
    once more from [s'], [inr a] leaves the loop (or returns from the enclosing
    C function) with [a]. *)
Section loop.
Context {S A : Type} (body : S → res (S + A)).

Fixpoint loop (fuel : nat) (s : S) : res A :=
match fuel with
| O => OutOfFuel
| Datatypes.S fuel =>
    r ← body s;
    match r with
    | inl s' => loop fuel s'
    | inr a => mret a
    end
end.

(** The rule of loops: an invariant, and a measure in [Z] that decreases in
  every round and is bounded by the fuel. *)
Lemma wp_loop (I : S → Prop) (μ : S → Z) (Q : A → Prop) (fuel : nat) (s : S) :
(∀ s, I s → 0 ≤ μ s ∧
  wp (body s) (λ r, match r with
                    | inl s' => I s' ∧ μ s' < μ s
                    | inr a => Q a
                    end)) →
I s → μ s < Z.of_nat fuel → wp (loop fuel s) Q.
Proof.
intros Hbody. revert s.
induction fuel as [|fuel IH]; intros s HI Hμ.
{ destruct (Hbody s HI). lia. }
destruct (Hbody s HI) as [Hpos Hs]. cbn [loop]. apply wp_bind.
eapply wp_mono; [exact Hs|]. intros [s'|a]; [|done].
intros [HI' Hlt]. apply IH; [done|lia].
Qed.

(** One round of a loop that has fuel left. *)
Lemma loop_step (fuel : nat) (s : S) :
loop (Datatypes.S fuel) s =
(r ← body s; match r with inl s' => loop fuel s' | inr a => mret a end).
Proof. done. Qed.

Lemma loop_inl (fuel : nat) (s s' : S) :
body s = Ok (inl s') → loop (Datatypes.S fuel) s = loop fuel s'.
Proof. intros H. cbn [loop]. by rewrite H. Qed.

Lemma loop_inr (fuel : nat) (s : S) (a : A) :
body s = Ok (inr a) → loop (Datatypes.S fuel) s = Ok a.
Proof. intros H. cbn [loop]. by rewrite H. Qed.

(** [lands μ s a]: from [s] the loop leaves with [a], whatever the fuel that is
  above the measure. *)
Definition lands (μ : S → Z) (s : S) (a : A) : Prop :=
∀ fuel, μ s < Z.of_nat fuel → loop fuel s = Ok a.

Lemma lands_next μ (s s' : S) a :
body s = Ok (inl s') → 0 ≤ μ s → μ s' < μ s → lands μ s' a → lands μ s a.
Proof.
intros H Hs Hlt Hl [|fuel] Hf; [lia|]. rewrite (loop_inl _ _ _ H). apply Hl. lia.
Qed.

Lemma lands_done μ (s : S) a : body s = Ok (inr a) → 0 ≤ μ s → lands μ s a.
Proof. intros H Hs [|fuel] Hf; [lia|]. by apply loop_inr. Qed.
End loop.

(** ** Machine integers

    C [int] is 32 bits wide, [unsigned short] 16; a pointer difference stored
    in an [int] field is truncated to 32 bits (two's complement). *)
Definition to_int (z : Z) : Z := (z + 2 ^ 31) mod 2 ^ 32 - 2 ^ 31.
Definition to_uint (z : Z) : Z := z mod 2 ^ 32.
Definition to_ushort (z : Z) : Z := z mod 2 ^ 16.

Arguments to_int z : simpl never.
Arguments to_uint z : simpl never.
Arguments to_ushort z : simpl never.

Lemma to_int_small z : - 2 ^ 31 ≤ z < 2 ^ 31 → to_int z = z.
Proof. intros H. unfold to_int. rewrite Z.mod_small; lia. Qed.

Lemma to_int_range z : - 2 ^ 31 ≤ to_int z < 2 ^ 31.
Proof.
  unfold to_int. pose proof (Z.mod_pos_bound (z + 2 ^ 31) (2 ^ 32)). lia.
Qed.

Lemma to_int_cong z : to_int z mod 2 ^ 32 = z mod 2 ^ 32.
Proof.
  unfold to_int.
  rewrite Zminus_mod_idemp_l. f_equal. lia.
Qed.

Lemma to_int_add a b : to_int (to_int a + b) = to_int (a + b).
Proof.
  unfold to_int. f_equal. replace ((a + 2 ^ 31) mod 2 ^ 32 - 2 ^ 31 + b + 2 ^ 31)
    with ((a + 2 ^ 31) mod 2 ^ 32 + b) by lia.
  rewrite Zplus_mod_idemp_l. f_equal. lia.
Qed.

Lemma to_uint_small z : 0 ≤ z < 2 ^ 32 → to_uint z = z.
Proof. apply Z.mod_small. Qed.

Lemma to_ushort_small z : 0 ≤ z < 2 ^ 16 → to_ushort z = z.
Proof. apply Z.mod_small. Qed.

(** Truncating to 16 bits forgets an earlier truncation to 32. *)
Lemma to_ushort_to_int z : to_ushort (to_int z) = to_ushort z.
Proof.
  unfold to_ushort.
  assert (Hdiv : (2 ^ 16 | 2 ^ 32)) by by exists (2 ^ 16).
  rewrite <- (Z.mod_mod_divide (to_int z) _ _ Hdiv), to_int_cong.
  by apply Z.mod_mod_divide.
Qed.

(** Bit masks stay within their width. *)
Lemma lor_bound n a b : 0 ≤ n → 0 ≤ a < 2 ^ n → 0 ≤ b < 2 ^ n → 0 ≤ Z.lor a b < 2 ^ n.
Proof.
  intros Hn Ha Hb. assert (0 ≤ Z.lor a b) by (apply Z.lor_nonneg; lia). split; [done|].
  destruct (Z.eq_dec (Z.lor a b) 0) as [->|]; [apply Z.pow_pos_nonneg; lia|].
  apply Z.log2_lt_pow2; [lia|]. rewrite Z.log2_lor by lia.
  apply Z.max_lub_lt.
  - destruct (Z.eq_dec a 0) as [->|]; [|apply Z.log2_lt_pow2; lia].
    destruct (Z.eq_dec b 0) as [->|]; [done|]. simpl.
    pose proof (proj1 (Z.log2_lt_pow2 b n ltac:(lia)) ltac:(lia)). pose proof (Z.log2_nonneg b). lia.
  - destruct (Z.eq_dec b 0) as [->|]; [|apply Z.log2_lt_pow2; lia].
    destruct (Z.eq_dec a 0) as [->|]; [done|]. simpl.
    pose proof (proj1 (Z.log2_lt_pow2 a n ltac:(lia)) ltac:(lia)). pose proof (Z.log2_nonneg a). lia.
Qed.

(** ** Automation *)

(** One step of a [wp] proof: sequencing, returns and tests.  A component adds
    the specifications of its functions to [wp_hook]. *)
Ltac wp_hook := fail.

Ltac wp_if :=
  match goal with
  | |- wp (match ?b with _ => _ end) _ =>
      match type of b with
      | bool =>
          match b with
          | ?x <? ?y => destruct (Z.ltb_spec x y)
          | ?x <=? ?y => destruct (Z.leb_spec x y)
          | ?x =? ?y => destruct (Z.eqb_spec x y)
          | _ => destruct b eqn:?
          end
      | _ => destruct b eqn:?
      end
  end.

Ltac wp_step :=
  cbn beta iota;
  lazymatch goal with
  | |- wp (mbind _ _) _ => apply wp_bind
  | |- wp (mret _) _ => apply wp_ret
  | |- wp (Ok _) _ => apply wp_ok
  | |- wp (match _ with _ => _ end) _ => wp_if
  | |- _ => wp_hook
  end.
