(* ===== verification/Memory.v ===== *)
(** * Memory, characters, pointers and strings

    The memory of the C program as far as the parser sees it: one allocated
    block of characters (the receive buffer), with the address of its first
    byte.  A pointer is an address in [Z], [NULL] is [0]. *)

From Stdlib Require Export Strings.String Strings.Ascii.
From stdpp Require Import strings.
From S2P Require Export Prelude.

(** ** Characters *)

(** The value of a C [char] (signed on the platforms the code is built for). *)
Definition schar (z : Z) : Z := if z <? 128 then z else z - 256.

Definition ch (a : ascii) : Z := schar (Z.of_N (N_of_ascii a)).
Arguments ch a%_char.

Fixpoint chars (s : string) : list Z :=
  match s with
  | EmptyString => []
  | String a s => ch a :: chars s
  end.
Arguments chars s%_string.

Definition TAB : Z := 9.
Definition LF : Z := 10.
Definition CR : Z := 13.
Definition SPC : Z := 32.
Definition NUL : Z := 0.
Definition DQUOTE : Z := 34.
Definition BSLASH : Z := 92.

(** [one_of c "aA"]: the character [c] is under [case 'a': case 'A':]. *)
Fixpoint one_of (c : Z) (s : string) : bool :=
  match s with
  | EmptyString => false
  | String a s => (c =? ch a) || one_of c s
  end.
Arguments one_of c s%_string.

(** [tolower], [isalpha], [isdigit] in the C locale. *)
Definition is_upper (c : Z) : bool := (ch "A" <=? c) && (c <=? ch "Z").
Definition is_lower (c : Z) : bool := (ch "a" <=? c) && (c <=? ch "z").
Definition is_digit (c : Z) : bool := (ch "0" <=? c) && (c <=? ch "9").
Definition tolower (c : Z) : Z := if is_upper c then c + 32 else c.

Lemma is_digit_spec d : is_digit d = true ↔ 48 ≤ d ≤ 57.
Proof.
  unfold is_digit. change (ch "0") with 48. change (ch "9") with 57.
  rewrite andb_true_iff, !Z.leb_le. done.
Qed.

(** ** The memory block *)
Record mem := Mem { mbase : Z; mdata : list Z }.

(** One past the last byte of the block. *)
Definition mlim (m : mem) : Z := mbase m + Z.of_nat (length (mdata m)).

Definition rd (m : mem) (p : Z) : res Z :=
  if p <? mbase m then Fault p
  else match mdata m !! Z.to_nat (p - mbase m) with
       | Some c => Ok c
       | None => Fault p
       end.

(** What an allocation guarantees: not at [NULL], smaller than 2 GiB, and made
    of characters. *)
Record mem_ok (m : mem) : Prop := {
  mem_base : 0 < mbase m;
  mem_size : mlim m < mbase m + 2 ^ 31;
  mem_chars : Forall (λ c, -128 ≤ c ≤ 127) (mdata m);
}.

(** [readable m a b]: the bytes of [[a, b)] are in the block. *)
Definition readable (m : mem) (a b : Z) : Prop := mbase m ≤ a ∧ b ≤ mlim m.

Lemma rd_valid m p : mbase m ≤ p < mlim m → ∃ c, rd m p = Ok c.
Proof.
  unfold rd, mlim. intros H. destruct (Z.ltb_spec p (mbase m)); [lia|].
  destruct (lookup_lt_is_Some_2 (mdata m) (Z.to_nat (p - mbase m))) as [c Hc]; [lia|].
  rewrite Hc. eauto.
Qed.

Lemma rd_Ok m p c : rd m p = Ok c → mbase m ≤ p < mlim m.
Proof.
  unfold rd, mlim. destruct (Z.ltb_spec p (mbase m)); [done|].
  destruct (mdata m !! _) eqn:E; [|done]. intros _.
  apply lookup_lt_Some in E. lia.
Qed.

Lemma rd_fault m p : ¬ (mbase m ≤ p < mlim m) → rd m p = Fault p.
Proof.
  unfold rd, mlim. intros H. destruct (Z.ltb_spec p (mbase m)); [done|].
  rewrite lookup_ge_None_2; [done|lia].
Qed.

Lemma rd_char m p c : mem_ok m → rd m p = Ok c → -128 ≤ c ≤ 127.
Proof.
  intros [_ _ Hc]. unfold rd. destruct (p <? mbase m); [done|].
  destruct (mdata m !! _) eqn:E; [|done]. intros [= <-].
  by eapply Forall_lookup_1 in Hc; [|exact E].
Qed.

Lemma wp_rd m p (Q : Z → Prop) :
  mbase m ≤ p < mlim m → (∀ c, rd m p = Ok c → Q c) → wp (rd m p) Q.
Proof.
  intros Hp HQ. destruct (rd_valid m p Hp) as [c Hc]. rewrite Hc. simpl. auto.
Qed.

(** ** Contents of memory *)

(** [bytes_at m p l]: the characters [l] are stored from address [p] on. *)
Fixpoint bytes_at (m : mem) (p : Z) (l : list Z) : Prop :=
  match l with
  | [] => True
  | c :: l => rd m p = Ok c ∧ bytes_at m (p + 1) l
  end.

Lemma bytes_at_app m p l k :
  bytes_at m p (l ++ k) ↔
  bytes_at m p l ∧ bytes_at m (p + Z.of_nat (length l)) k.
Proof.
  revert p. induction l as [|c l IH]; intros p; simpl.
  { rewrite Z.add_0_r. tauto. }
  rewrite IH. replace (p + 1 + Z.of_nat (length l)) with (p + Z.of_nat (S (length l))) by lia.
  tauto.
Qed.

Lemma bytes_at_lookup m p l i c :
  bytes_at m p l → l !! i = Some c → rd m (p + Z.of_nat i) = Ok c.
Proof.
  revert p i. induction l as [|a l IH]; intros p [|i]; simpl; try done.
  - intros [H _] [= <-]. by rewrite Z.add_0_r.
  - intros [_ H] Hi. replace (p + Z.of_nat (S i)) with (p + 1 + Z.of_nat i) by lia. eauto.
Qed.

(** The whole block, seen as contents at its base. *)
Lemma bytes_at_data m : bytes_at m (mbase m) (mdata m).
Proof.
  destruct m as [b l]. simpl.
  cut (∀ k, bytes_at (Mem b (k ++ l)) (b + Z.of_nat (length k)) l).
  { intros H. specialize (H []). simpl in H. by rewrite Z.add_0_r in H. }
  induction l as [|c l IH]; intros k; [done|]. simpl. split.
  - unfold rd. simpl. destruct (Z.ltb_spec (b + Z.of_nat (length k)) b); [lia|].
    replace (Z.to_nat _) with (length k) by lia.
    by rewrite list_lookup_middle.
  - specialize (IH (k ++ [c])). rewrite length_app, <- app_assoc in IH. simpl in IH.
    by replace (b + Z.of_nat (length k) + 1) with (b + Z.of_nat (length k + 1)) by lia.
Qed.

(** ** The structure [str] (str.h) *)
Record str := Str { str_s : Z; str_len : Z }.

#[export] Instance str_eq_dec : EqDecision str.
Proof. solve_decision. Defined.

Definition null_str : str := Str 0 0.

(** The idiom [x.s=a; x.len=b-a;]. *)
Definition slice (a b : Z) : str := Str a (to_int (b - a)).

(** [within a b x]: the string [x] lies in the addresses [[a, b)]. *)
Definition within (a b : Z) (x : str) : Prop :=
  a ≤ str_s x ∧ 0 ≤ str_len x ∧ str_s x + str_len x ≤ b.

(** [holds m x l]: the string [x] has the contents [l]. *)
Definition holds (m : mem) (x : str) (l : list Z) : Prop :=
  str_len x = Z.of_nat (length l) ∧ bytes_at m (str_s x) l.

(** [ZSTR] (str.h). *)
Definition ZSTR (x : str) : bool := (str_s x =? 0) || (str_len x =? 0).

Lemma slice_within lo hi a b :
  lo ≤ a → a ≤ b → b ≤ hi → b - a < 2 ^ 31 → within lo hi (slice a b).
Proof. intros. unfold within, slice. simpl. rewrite to_int_small by lia. lia. Qed.

Lemma slice_holds m a l :
  Z.of_nat (length l) < 2 ^ 31 → bytes_at m a l →
  holds m (slice a (a + Z.of_nat (length l))) l.
Proof.
  intros Hl H. split; simpl; [|done]. rewrite to_int_small by lia. lia.
Qed.

Lemma slice_run a (l : list Z) :
  Z.of_nat (length l) < 2 ^ 31 → slice a (a + Z.of_nat (length l)) = Str a (Z.of_nat (length l)).
Proof.
  intros Hl. unfold slice. replace (a + Z.of_nat (length l) - a) with (Z.of_nat (length l)) by lia.
  by rewrite to_int_small by (split; lia).
Qed.

Lemma within_mono a b a' b' x : within a b x → a' ≤ a → b ≤ b' → within a' b' x.
Proof. unfold within. lia. Qed.

(** ** C library functions on a string literal *)

(** [strncasecmp(p, lit, n) == 0] with [n] the length of the literal [lit]. *)
Fixpoint strncasecmp_lit (m : mem) (p : Z) (lit : list Z) : res bool :=
  match lit with
  | [] => mret true
  | a :: lit =>
      c ← rd m p;
      if tolower c =? tolower a then
        if c =? 0 then mret true else strncasecmp_lit m (p + 1) lit
      else mret false
  end.

(** [memcmp(p, lit, n) == 0]: unlike [strncasecmp], it may look at all the [n]
    bytes. *)
Fixpoint memcmp_lit (m : mem) (p : Z) (lit : list Z) : res bool :=
  match lit with
  | [] => mret true
  | a :: lit =>
      c ← rd m p;
      rest ← memcmp_lit m (p + 1) lit;
      mret ((c =? a) && rest)
  end.

(** ** Prefixes, case folding, and the part of a list before a stop character *)
Fixpoint prefixb (p l : list Z) : bool :=
  match p, l with
  | [], _ => true
  | a :: p, b :: l => (a =? b) && prefixb p l
  | _ :: _, [] => false
  end.

Fixpoint list_eqb (k l : list Z) : bool :=
  match k, l with
  | [], [] => true
  | a :: k, b :: l => (a =? b) && list_eqb k l
  | _, _ => false
  end.

Fixpoint take_while (f : Z → bool) (l : list Z) : list Z :=
  match l with
  | [] => []
  | c :: l => if f c then c :: take_while f l else []
  end.

Definition lower (l : list Z) : list Z := map tolower l.

(** Equality up to ASCII case. *)
Definition eq_nocase (k l : list Z) : bool := list_eqb (lower k) (lower l).

Lemma list_eqb_spec k l : list_eqb k l = true ↔ k = l.
Proof.
  revert l. induction k as [|a k IH]; intros [|b l]; simpl; try done.
  rewrite andb_true_iff, IH, Z.eqb_eq. split; [by intros [-> ->]|by intros [= -> ->]].
Qed.

Lemma prefixb_spec p l : prefixb p l = true ↔ p = take (length p) l.
Proof.
  revert l. induction p as [|a p IH]; intros [|b l]; simpl; try done.
  rewrite andb_true_iff, IH, Z.eqb_eq. split; [by intros [-> <-]|by intros [= -> <-]].
Qed.

Lemma prefixb_length p l : prefixb p l = true → (length p ≤ length l)%nat.
Proof.
  revert l. induction p as [|a p IH]; intros [|b l]; simpl; try done; [lia|].
  intros [_ H]%andb_prop. apply IH in H. lia.
Qed.

Lemma take_while_length f l : (length (take_while f l) ≤ length l)%nat.
Proof. induction l as [|c l IH]; simpl; [done|]. destruct (f c); simpl; lia. Qed.

Lemma take_while_all f l : Forall (λ c, f c = true) l → take_while f l = l.
Proof. induction 1 as [|c l Hc _ IH]; simpl; [done|]. by rewrite Hc, IH. Qed.

Lemma take_while_app f l c k :
  Forall (λ c, f c = true) l → f c = false → take_while f (l ++ c :: k) = l.
Proof. intros Hl Hc. induction Hl as [|a l Ha _ IH]; simpl; [by rewrite Hc|]. by rewrite Ha, IH. Qed.

Lemma length_chars s : length (chars s) = String.length s.
Proof. induction s; simpl; congruence. Qed.

Lemma length_lower l : length (lower l) = length l.
Proof. apply length_map. Qed.

(** A pair of labels [case 'x': case 'X':] is a comparison up to case. *)
Lemma case_pair c a :
  97 ≤ a ≤ 122 → (c =? a) || ((c =? a - 32) || false) = (tolower c =? a).
Proof.
  intros Ha. unfold tolower, is_upper. change (ch "A") with 65. change (ch "Z") with 90.
  destruct (Z.leb_spec 65 c), (Z.leb_spec c 90); simpl;
    destruct (Z.eqb_spec c a), (Z.eqb_spec c (a - 32)); simpl; lia.
Qed.

(** Every readable range has some contents. *)
Lemma range_bytes m a b :
  mbase m ≤ a → a ≤ b → b ≤ mlim m →
  ∃ f, bytes_at m a f ∧ a + Z.of_nat (length f) = b.
Proof.
  intros Ha Hab Hb. remember (Z.to_nat (b - a)) as n eqn:Hn.
  revert a Ha Hab Hn. induction n as [|n IH]; intros a Ha Hab Hn.
  { exists []. split; [done|]. simpl. lia. }
  destruct (rd_valid m a) as [c Hc]; [lia|].
  destruct (IH (a + 1)) as (f & Hf & Hlen); [lia..|].
  exists (c :: f). split; [done|]. simpl. lia.
Qed.

Lemma bytes_at_range m p l :
  bytes_at m p l → l ≠ [] → mbase m ≤ p ∧ p + Z.of_nat (length l) ≤ mlim m.
Proof.
  revert p. induction l as [|c l IH]; intros p Hat Hne; [done|]. destruct Hat as [Hc Hl].
  pose proof (rd_Ok _ _ _ Hc). destruct l as [|c' l]; [simpl; lia|].
  destruct (IH (p + 1)) as [_ H']; [done|done|]. cbn [length] in *. lia.
Qed.

(** Extends the automation with memory reads; the address is checked by [lia]. *)
Ltac wp_hook ::=
  match goal with
  | |- wp (rd _ _) _ => apply wp_rd; [lia|intros ? ?]
  end.

(** The comparisons with a literal read at most the bytes of the literal. *)
Lemma strncasecmp_lit_wp m p lit :
  mbase m ≤ p → p + Z.of_nat (length lit) ≤ mlim m → wp (strncasecmp_lit m p lit) (λ _, True).
Proof.
  revert p. induction lit as [|a lit IH]; intros p Hp Hl; simpl in *; [done|].
  repeat wp_step; try done. apply IH; lia.
Qed.

Lemma memcmp_lit_wp m p lit :
  mbase m ≤ p → p + Z.of_nat (length lit) ≤ mlim m → wp (memcmp_lit m p lit) (λ _, True).
Proof.
  revert p. induction lit as [|a lit IH]; intros p Hp Hl; simpl in *; [done|].
  repeat wp_step. eapply wp_mono; [apply IH; lia|]. done.
Qed.

(** On known contents the case-insensitive comparison is [prefixb] on the
    folded characters. *)
Lemma strncasecmp_lit_at m p lit f :
  bytes_at m p f → (length lit ≤ length f)%nat → Forall (λ a, a ≠ 0) lit →
  strncasecmp_lit m p lit = Ok (prefixb (lower lit) (lower f)).
Proof.
  revert p f. induction lit as [|a lit IH]; intros p f Hat Hlen Hlit; [done|].
  destruct f as [|c f]; simpl in Hlen; [lia|]. destruct Hat as [Hc Hat].
  apply Forall_cons in Hlit as [Ha Hlit].
  cbn [strncasecmp_lit lower map prefixb]. rewrite Hc. cbn [mbind res_bind].
  rewrite (Z.eqb_sym (tolower a)). destruct (Z.eqb_spec (tolower c) (tolower a)) as [E|]; [|done].
  cbn [andb]. destruct (Z.eqb_spec c 0) as [->|]; [|apply IH; [done|lia|done]].
  exfalso. revert E. unfold tolower, is_upper. change (ch "A") with 65. change (ch "Z") with 90.
  simpl. destruct (Z.leb_spec 65 a), (Z.leb_spec a 90); simpl; lia.
Qed.

(** ** Concrete memories

    A block with given contents, for evaluating the model. *)
Definition block (l : list Z) : mem := Mem 4096 l.
Definition crlf : list Z := [CR; LF].

Definition mem_okb (m : mem) : bool :=
  (0 <? mbase m) && (mlim m <? mbase m + 2 ^ 31) &&
  forallb (λ c, (-128 <=? c) && (c <=? 127)) (mdata m).

Lemma mem_okb_ok m : mem_okb m = true → mem_ok m.
Proof.
  unfold mem_okb. rewrite !andb_true_iff, !Z.ltb_lt, forallb_forall.
  intros [[Hb Hs] Hc]. split; [done|done|]. apply Forall_forall. intros c Hin.
  specialize (Hc c). rewrite andb_true_iff, !Z.leb_le in Hc. by apply Hc, list_elem_of_In.
Qed.

Lemma block_bytes l : bytes_at (block l) 4096 l.
Proof. exact (bytes_at_data (block l)). Qed.

(** ** Texts *)

(** Characters, none of them in [stop]. *)
Definition plain (stop : string) (l : list Z) : Prop :=
  Forall (λ c, -128 ≤ c ≤ 127 ∧ one_of c stop = false) l.

Lemma plain_not stop c a : one_of c stop = false → one_of a stop = true → (c =? a) = false.
Proof. intros Hc Ha. destruct (Z.eqb_spec c a) as [->|]; [congruence|done]. Qed.

Ltac plain_ok := repeat (apply Forall_cons; split; [split; [by vm_compute|done]|]); apply Forall_nil_2.

(** The length of a text, as an integer. *)
Definition len (l : list Z) : Z := Z.of_nat (length l).

Lemma slice_len a l b : b = a + len l → len l < 2 ^ 31 → slice a b = Str a (len l).
Proof. intros -> H. by apply slice_run. Qed.

Lemma len_app l k : len (l ++ k) = len l + len k.
Proof. unfold len. rewrite length_app. lia. Qed.
Lemma len_cons c l : len (c :: l) = 1 + len l.
Proof. unfold len. cbn [length]. lia. Qed.
Lemma len_nil : len [] = 0.
Proof. done. Qed.
Lemma len_nonneg l : 0 ≤ len l.
Proof. unfold len. lia. Qed.

(** What follows a text and a character. *)
Lemma bytes_at_after m p l c k : bytes_at m p (l ++ c :: k) → bytes_at m (p + len l + 1) k.
Proof. intros [_ [_ H]]%bytes_at_app. exact H. Qed.

Lemma bytes_at_upto m p l c k : bytes_at m p (l ++ c :: k) → bytes_at m p (l ++ [c]).
Proof. intros [H1 [H2 _]]%bytes_at_app. apply bytes_at_app. done. Qed.

Lemma bytes_at_from m p l k : bytes_at m p (l ++ k) → bytes_at m (p + len l) k.
Proof. by intros [_ H]%bytes_at_app. Qed.

Lemma bytes_at_first m p l k : bytes_at m p (l ++ k) → bytes_at m p l.
Proof. by intros [H _]%bytes_at_app. Qed.

Ltac len_lia :=
  rewrite ?len_app, ?len_cons, ?len_app, ?len_cons, ?len_nil in *;
  repeat match goal with |- context [len ?l] =>
    lazymatch goal with H : 0 ≤ len l |- _ => fail | _ => pose proof (len_nonneg l) end end;
  repeat match goal with H : context [len ?l] |- _ =>
    lazymatch goal with H' : 0 ≤ len l |- _ => fail | _ => pose proof (len_nonneg l) end end;
  lia.

Lemma plain_weaken (s s' : string) l :
  plain s l → (∀ c, one_of c s = false → one_of c s' = false) → plain s' l.
Proof. intros H Hs. eapply Forall_impl; [exact H|]. intros c [Hr Hc]. auto. Qed.

Lemma tolower_letter c a : 97 ≤ a ≤ 122 → tolower c = a → c = a ∨ c = a - 32.
Proof.
  intros Ha. unfold tolower, is_upper. change (ch "A") with 65. change (ch "Z") with 90.
  destruct (Z.leb_spec 65 c), (Z.leb_spec c 90); cbn; lia.
Qed.
