(* ===== verification/ParserF.v ===== *)
(** * Scanning primitives (parser_f.h, parser_f.c, trim.h, and [q_memchr],
    [str2s] of ut.h) *)

From stdpp Require Import strings.
From S2P Require Export Memory.

(** ** The loop [for (; p < pend && !stop( *p ); p++);] *)

(** [n] is the number of characters before [pend]. *)
Fixpoint scan_n (stop : Z → bool) (m : mem) (p : Z) (n : nat) : res Z :=
  match n with
  | O => mret p
  | S n =>
      c ← rd m p;
      if stop c then mret p else scan_n stop m (p + 1) n
  end.

Definition scan (stop : Z → bool) (m : mem) (p pend : Z) : res Z :=
  scan_n stop m p (Z.to_nat (pend - p)).

Definition is_sp (c : Z) : bool := (c =? SPC) || (c =? TAB).
Definition is_crlf (c : Z) : bool := (c =? CR) || (c =? LF).
(** The end of a line, with or without the carriage return. *)
Definition eol (cr : bool) : list Z := if cr then [CR; LF] else [LF].

Definition is_blank (c : Z) : bool := is_sp c || is_crlf c.

(** parser_f.h *)
Definition eat_space_end (m : mem) (p pend : Z) : res Z :=
  scan (λ c, negb (is_sp c)) m p pend.

Definition eat_token_end (m : mem) (p pend : Z) : res Z :=
  scan (λ c, (c =? SPC) || (c =? TAB) || (c =? LF) || (c =? CR)) m p pend.

Definition eat_token2_end (m : mem) (p pend delim : Z) : res Z :=
  scan (λ c, (c =? delim) || (c =? LF) || (c =? CR)) m p pend.

Definition is_empty_end (m : mem) (p pend : Z) : res bool :=
  p ← eat_space_end m p pend;
  if p <? pend then c ← rd m p; mret (is_crlf c) else mret false.

(** One round of the loop of [eat_lws_end]; [inr] leaves the loop. *)
Definition eat_lws_step (m : mem) (pend p : Z) : res (Z + Z) :=
  if p <? pend then
    c ← rd m p;
    if is_sp c then mret (inl (p + 1))
    else if (c =? LF) && (p + 1 <? pend) then
      c1 ← rd m (p + 1);
      if is_sp c1 then mret (inl (p + 2)) else mret (inr p)
    else if (c =? CR) && (p + 2 <? pend) then
      c1 ← rd m (p + 1);
      if c1 =? LF then
        c2 ← rd m (p + 2);
        if is_sp c2 then mret (inl (p + 3)) else mret (inr p)
      else mret (inr p)
    else mret (inr p)
  else mret (inr p).

Definition eat_lws_end (m : mem) (p pend : Z) : res Z :=
  loop (eat_lws_step m pend) (S (Z.to_nat (pend - p))) p.

(** ut.h: [None] is the null pointer. *)
Definition q_memchr (m : mem) (p c size : Z) : res (option Z) :=
  q ← scan (λ a, a =? c) m p (p + size);
  mret (if q <? p + size then Some q else None).

(** parser_f.c *)
Definition eat_line (m : mem) (buffer len : Z) : res Z :=
  nl ← q_memchr m buffer LF len;
  match nl with
  | Some nl =>
      let nl := if nl + 1 <? buffer + len then nl + 1 else nl in
      if nl + 1 <? buffer + len then
        c ← rd m nl;
        mret (if c =? CR then nl + 1 else nl)
      else mret nl
  | None => mret (buffer + len)
  end.

(** trim.h: [ch--; return ch < ' ' && ((1 << ch) & mask);] on an [unsigned char]. *)
Definition is_ws (c : Z) : bool :=
  let mask := Z.lor (Z.lor (Z.shiftl 1 (SPC - 1)) (Z.shiftl 1 (CR - 1)))
                    (Z.lor (Z.shiftl 1 (LF - 1)) (Z.shiftl 1 (TAB - 1))) in
  let c := (c mod 256 - 1) mod 256 in
  (c <? SPC) && negb (Z.land (Z.shiftl 1 c) mask =? 0).

(** [for (; _s->len > 0; _s->len--, _s->s++)], with [n] the value of [len]. *)
Fixpoint trim_leading_n (m : mem) (p : Z) (n : nat) : res str :=
  match n with
  | O => mret (Str p 0)
  | S n' =>
      c ← rd m p;
      if is_ws c then trim_leading_n m (p + 1) n' else mret (Str p (Z.of_nat n))
  end.

Definition trim_leading (m : mem) (x : str) : res str :=
  if str_len x <=? 0 then mret x
  else trim_leading_n m (str_s x) (Z.to_nat (str_len x)).

Fixpoint trim_trailing_n (m : mem) (p : Z) (n : nat) : res str :=
  match n with
  | O => mret (Str p 0)
  | S n' =>
      c ← rd m (p + Z.of_nat n');
      if is_ws c then trim_trailing_n m p n' else mret (Str p (Z.of_nat n))
  end.

Definition trim_trailing (m : mem) (x : str) : res str :=
  if str_len x <=? 0 then mret x
  else trim_trailing_n m (str_s x) (Z.to_nat (str_len x)).

Definition trim (m : mem) (x : str) : res str :=
  x ← trim_leading m x; trim_trailing m x.

(** ut.h [str2s]: the value (an [unsigned short]) and [*err].  [i] counts the
    digits read so far. *)
Fixpoint str2s_n (m : mem) (p : Z) (n : nat) (ret i : Z) : res (Z * Z) :=
  match n with
  | O => mret (ret, 0)
  | S n =>
      c ← rd m p;
      let c := c mod 256 in
      if (c <=? ch "9") && (ch "0" <=? c) then
        let ret := to_ushort (ret * 10 + c - ch "0") in
        if 5 <? i + 1 then mret (0, 1) else str2s_n m (p + 1) n ret (i + 1)
      else mret (0, 1)
  end.

Definition str2s (m : mem) (s len : Z) : res (Z * Z) :=
  str2s_n m s (Z.to_nat (to_uint len)) 0 0.

(** ** Facts *)

(** What [scan] finds: the first address in [[p, pend)] whose character stops
    the scan, else [pend]. *)
Record scanned (stop : Z → bool) (m : mem) (p pend q : Z) : Prop := {
  scanned_ge : p ≤ q;
  scanned_le : q ≤ Z.max p pend;
  scanned_skip : ∀ i, p ≤ i < q → ∃ c, rd m i = Ok c ∧ stop c = false;
  scanned_stop : q < pend → ∃ c, rd m q = Ok c ∧ stop c = true;
}.

Lemma scan_spec stop m p pend :
  mbase m ≤ p → pend ≤ mlim m → wp (scan stop m p pend) (scanned stop m p pend).
Proof.
  unfold scan. remember (Z.to_nat (pend - p)) as n eqn:Hn. revert p Hn.
  induction n as [|n IH]; intros p Hn Hp Hend; simpl.
  { split; intros; lia. }
  apply wp_bind, wp_rd; [lia|]. intros c Hc.
  destruct (stop c) eqn:Hstop.
  { split; intros; try lia. eauto. }
  eapply wp_mono; [apply IH; lia|]. intros q [Hge Hle Hskip Hst]. split; try lia.
  - intros i Hi. destruct (decide (i = p)) as [->|]; [eauto|apply Hskip; lia].
  - exact Hst.
Qed.

(** A scan over known contents. *)
Lemma scan_at stop m p pend l :
  bytes_at m p l → Forall (λ c, stop c = false) l →
  p + Z.of_nat (length l) ≤ pend →
  (p + Z.of_nat (length l) < pend →
   ∃ c, rd m (p + Z.of_nat (length l)) = Ok c ∧ stop c = true) →
  scan stop m p pend = Ok (p + Z.of_nat (length l)).
Proof.
  unfold scan. revert p. induction l as [|c l IH]; intros p Hat Hl Hle Hstop.
  - simpl in *. rewrite Z.add_0_r in *.
    destruct (Z.to_nat (pend - p)) eqn:E; [done|]. simpl.
    destruct Hstop as (c & Hc & Hs); [lia|]. rewrite Hc. simpl. by rewrite Hs.
  - destruct Hat as [Hc Hat]. apply Forall_cons in Hl as [Hf Hl].
    simpl length in *.
    replace (Z.to_nat (pend - p)) with (S (Z.to_nat (pend - (p + 1)))) by lia.
    simpl. rewrite Hc. simpl. rewrite Hf.
    replace (p + Z.of_nat (S (length l))) with (p + 1 + Z.of_nat (length l)) in * by lia.
    apply IH; auto with lia.
Qed.

Lemma mem_char_cases (P : Z → Prop) :
  Forall P (seqZ (-128) 256) → ∀ c, -128 ≤ c ≤ 127 → P c.
Proof.
  intros H c Hc. rewrite Forall_forall in H. apply H, elem_of_seqZ. lia.
Qed.

(** The bit trick of [is_ws] is membership in the four white characters. *)
Lemma is_ws_spec c :
  -128 ≤ c ≤ 127 → is_ws c = is_sp c || is_crlf c.
Proof.
  revert c. apply mem_char_cases. refine (bool_decide_unpack _ _). by vm_compute.
Qed.

Lemma trim_leading_at m p ws rest :
  Forall (λ c, is_ws c = true) ws → bytes_at m p (ws ++ rest) →
  (match rest with c :: _ => is_ws c = false | [] => True end) →
  trim_leading_n m p (length (ws ++ rest)) =
  Ok (Str (p + Z.of_nat (length ws)) (Z.of_nat (length rest))).
Proof.
  intros Hws. revert p. induction Hws as [|c ws Hc _ IH]; intros p Hat Hrest.
  - simpl. rewrite Z.add_0_r. destruct rest as [|c rest]; [done|].
    destruct Hat as [Hr _]. simpl. rewrite Hr. cbn [mbind res_bind]. by rewrite Hrest.
  - destruct Hat as [Hr Hat]. simpl. rewrite Hr. cbn [mbind res_bind]. rewrite Hc.
    rewrite IH by done. by replace (p + 1 + Z.of_nat (length ws)) with (p + Z.of_nat (S (length ws))) by lia.
Qed.

(** [trim_leading] drops a prefix of white characters, and stops. *)
Lemma trim_leading_spec m x :
  mbase m ≤ str_s x → str_s x + str_len x ≤ mlim m → 0 ≤ str_len x →
  wp (trim_leading m x) (λ y, str_s x ≤ str_s y ∧ 0 ≤ str_len y ∧
    str_s y + str_len y = str_s x + str_len x ∧
    (str_len y ≠ 0 → ∃ c, rd m (str_s y) = Ok c ∧ is_ws c = false)).
Proof.
  intros Hb Hl Hp. unfold trim_leading. destruct (Z.leb_spec (str_len x) 0).
  { apply wp_ret. split_and!; lia. }
  remember (Z.to_nat (str_len x)) as n eqn:Hn.
  replace (str_len x) with (Z.of_nat n) in * by lia. clear Hn H Hp.
  destruct x as [p l]. cbn [str_s str_len] in *. revert p Hb Hl.
  induction n as [|n IH]; intros p Hb Hl; simpl.
  { split_and!; lia. }
  apply wp_bind, wp_rd; [lia|]. intros c Hc. destruct (is_ws c) eqn:E.
  - eapply wp_mono; [apply IH; lia|]. intros y (H1 & H2 & H3 & H4).
    split_and!; [lia..|done].
  - apply wp_ret. cbn [str_s str_len]. split_and!; [lia..|]. intros _. eauto.
Qed.

(** ** Specifications of the scanning functions *)
Lemma eat_space_end_spec m p pend :
  mbase m ≤ p → pend ≤ mlim m →
  wp (eat_space_end m p pend) (scanned (λ c, negb (is_sp c)) m p pend).
Proof. apply scan_spec. Qed.

Lemma eat_token_end_spec m p pend :
  mbase m ≤ p → pend ≤ mlim m →
  wp (eat_token_end m p pend)
    (scanned (λ c, (c =? SPC) || (c =? TAB) || (c =? LF) || (c =? CR)) m p pend).
Proof. apply scan_spec. Qed.

Lemma eat_token2_end_spec m p pend delim :
  mbase m ≤ p → pend ≤ mlim m →
  wp (eat_token2_end m p pend delim)
    (scanned (λ c, (c =? delim) || (c =? LF) || (c =? CR)) m p pend).
Proof. apply scan_spec. Qed.

Lemma is_empty_end_spec m p pend :
  mbase m ≤ p → pend ≤ mlim m → wp (is_empty_end m p pend) (λ _, True).
Proof.
  intros Hp He. unfold is_empty_end. wp_step.
  eapply wp_mono; [by apply eat_space_end_spec|]. intros q [Hge Hle _ _].
  repeat wp_step; done.
Qed.

Lemma q_memchr_spec m p c size :
  mbase m ≤ p → 0 ≤ size → p + size ≤ mlim m →
  wp (q_memchr m p c size) (λ r,
    match r with
    | Some q => p ≤ q < p + size ∧ rd m q = Ok c ∧
        ∀ i, p ≤ i < q → ∃ a, rd m i = Ok a ∧ a ≠ c
    | None => ∀ i, p ≤ i < p + size → ∃ a, rd m i = Ok a ∧ a ≠ c
    end).
Proof.
  intros Hp Hs He. unfold q_memchr. wp_step.
  eapply wp_mono; [by apply scan_spec|]. intros q [Hge Hle Hskip Hstop].
  assert (Hs' : ∀ i, p ≤ i < q → ∃ a, rd m i = Ok a ∧ a ≠ c).
  { intros i Hi. destruct (Hskip i Hi) as (a & Ha & E%Z.eqb_neq). eauto. }
  wp_step. destruct (Z.ltb_spec q (p + size)) as [Hlt|].
  - destruct (Hstop Hlt) as (a & Ha & ->%Z.eqb_eq). split_and!; [lia..|done|done].
  - intros i Hi. apply Hs'. lia.
Qed.

(** [eat_line] stays in the buffer, and ends beyond a line feed or at the end
    of the buffer. *)
Lemma eat_line_spec m buffer len :
  mbase m ≤ buffer → 0 ≤ len → buffer + len ≤ mlim m →
  wp (eat_line m buffer len) (λ nl, buffer ≤ nl ≤ buffer + len).
Proof.
  intros Hb Hl He. unfold eat_line. wp_step.
  eapply wp_mono; [by apply q_memchr_spec|]. intros [q|].
  - intros (Hq & _ & _).
    destruct (Z.ltb_spec (q + 1) (buffer + len)); repeat wp_step; [|lia..].
    destruct (_ =? CR); lia.
  - intros _. wp_step. lia.
Qed.

(** [eat_lws_end] moves over white space only, and stays in the buffer. *)
Lemma eat_lws_end_spec m p pend :
  mbase m ≤ p → pend ≤ mlim m →
  wp (eat_lws_end m p pend) (λ q, p ≤ q ≤ Z.max p pend ∧
    ∀ i, p ≤ i < q → ∃ c, rd m i = Ok c ∧ is_ws c = true).
Proof.
  intros Hp He. unfold eat_lws_end.
  apply (wp_loop _ (λ q, p ≤ q ≤ Z.max p pend ∧
    ∀ i, p ≤ i < q → ∃ c, rd m i = Ok c ∧ is_ws c = true) (λ q, Z.max 0 (pend - q))).
  2: { split; [lia|]. intros i Hi. lia. }
  2: { lia. }
  assert (Hws : ∀ c, is_sp c || is_crlf c = true → is_ws c = true).
  { intros c. unfold is_sp, is_crlf. rewrite !orb_true_iff, !Z.eqb_eq. by intros [[-> | ->]|[-> | ->]]. }
  assert (Hext : ∀ q k c, (∀ i, p ≤ i < q → ∃ c, rd m i = Ok c ∧ is_ws c = true) →
    rd m q = Ok c → is_sp c || is_crlf c = true → k = q + 1 →
    ∀ i, p ≤ i < k → ∃ c, rd m i = Ok c ∧ is_ws c = true).
  { intros q k c Hq Hc Hw -> i Hi. destruct (Z.eq_dec i q) as [->|]; [eauto|]. apply Hq. lia. }
  intros q [Hq Hskip]. split; [lia|]. unfold eat_lws_step.
  wp_step; [|by wp_step]. wp_step. wp_step.
  match goal with H : rd m q = Ok ?c |- _ => rename c into c0, H into Hc0 end.
  wp_step.
  { wp_step. split; [|lia]. split; [lia|]. eapply Hext; [done|done| |done]. by apply orb_true_intro; left. }
  wp_step.
  { match goal with H : _ && _ = true |- _ => apply andb_prop in H as [->%Z.eqb_eq H%Z.ltb_lt] end.
    do 3 wp_step; [|by wp_step]. wp_step. split; [|lia]. split; [lia|].
    eapply Hext; [eapply (Hext q); [done|done|done|done]|done|by apply orb_true_intro; left|lia]. }
  wp_step; [|by wp_step].
  match goal with H : (_ =? CR) && _ = true |- _ => apply andb_prop in H as [->%Z.eqb_eq H%Z.ltb_lt] end.
  do 3 wp_step; [|by wp_step]. subst. do 3 wp_step; [|by wp_step]. wp_step.
  split; [|lia]. split; [lia|].
  eapply (Hext (q + 2)); [eapply (Hext (q + 1)); [eapply (Hext q); done|done|done|lia]|done| |lia].
  by apply orb_true_intro; left.
Qed.

(** Calls are replaced by their specification. *)
Ltac wp_call lem := eapply wp_mono; [apply lem; lia|cbn beta].

Ltac wp_hook ::=
  match goal with
  | |- wp (rd _ _) _ => apply wp_rd; [lia|intros ? ?]
  | |- wp (eat_space_end _ _ _) _ => wp_call eat_space_end_spec; intros ? [? ? ? ?]
  | |- wp (eat_token_end _ _ _) _ => wp_call eat_token_end_spec; intros ? [? ? ? ?]
  | |- wp (eat_token2_end _ _ _ _) _ => wp_call eat_token2_end_spec; intros ? [? ? ? ?]
  | |- wp (is_empty_end _ _ _) _ => wp_call is_empty_end_spec; intros ? _
  | |- wp (eat_line _ _ _) _ => wp_call eat_line_spec; intros ? ?
  | |- wp (eat_lws_end _ _ _) _ => wp_call eat_lws_end_spec; intros ? [? ?]
  end.

(** ** Scans over known contents *)

(** The head of the contents that follow a scanned run, if any, stops it. *)
Definition head_is (P : Z → bool) (l : list Z) : Prop :=
  match l with c :: _ => P c = true | [] => True end.

Lemma scan_run stop m p pend l rest :
  bytes_at m p (l ++ rest) → pend = p + Z.of_nat (length (l ++ rest)) →
  Forall (λ c, stop c = false) l → head_is stop rest →
  scan stop m p pend = Ok (p + Z.of_nat (length l)).
Proof.
  intros Hat -> Hl Hrest. apply bytes_at_app in Hat as [Hat Hr]. rewrite length_app.
  apply scan_at; [done|done|lia|]. intros Hlt. destruct rest as [|c rest]; [simpl in Hlt; lia|].
  destruct Hr as [Hc _]. eauto.
Qed.

(** How far beyond a line feed [eat_line] goes, given what follows it. *)
Definition after_lf (rest : list Z) : Z :=
  match rest with
  | [] => 0
  | [_] => 1
  | c :: _ :: _ => if c =? CR then 2 else 1
  end.

Lemma eat_line_at m p l rest len :
  bytes_at m p (l ++ LF :: rest) → len = Z.of_nat (length (l ++ LF :: rest)) →
  Forall (λ c, c ≠ LF) l → eat_line m p len = Ok (p + Z.of_nat (length l) + after_lf rest).
Proof.
  intros Hat -> Hl. unfold eat_line, q_memchr.
  rewrite (scan_run _ m p _ l (LF :: rest)); [|done|done| |done].
  2: { eapply Forall_impl; [exact Hl|]. intros c Hc. by apply Z.eqb_neq. }
  cbn [mbind res_bind]. rewrite length_app. cbn [length].
  destruct (Z.ltb_spec (p + Z.of_nat (length l)) (p + Z.of_nat (length l + S (length rest)))); [|lia].
  cbn [mbind res_bind mret res_ret]. apply bytes_at_app in Hat as [_ [_ Hrest]].
  destruct rest as [|c [|d rest]]; cbn [length after_lf] in *.
  - destruct (Z.ltb_spec (p + Z.of_nat (length l) + 1) (p + Z.of_nat (length l + 1))); [lia|].
    destruct (Z.ltb_spec (p + Z.of_nat (length l) + 1) (p + Z.of_nat (length l + 1))); [lia|].
    f_equal. lia.
  - destruct (Z.ltb_spec (p + Z.of_nat (length l) + 1) (p + Z.of_nat (length l + 2))); [|lia].
    destruct (Z.ltb_spec (p + Z.of_nat (length l) + 1 + 1) (p + Z.of_nat (length l + 2))); [lia|done].
  - destruct (Z.ltb_spec (p + Z.of_nat (length l) + 1) (p + Z.of_nat (length l + S (S (S (length rest)))))); [|lia].
    destruct (Z.ltb_spec (p + Z.of_nat (length l) + 1 + 1) (p + Z.of_nat (length l + S (S (S (length rest)))))); [|lia].
    destruct Hrest as [-> _]. cbn [mbind res_bind]. destruct (c =? CR); unfold mret, res_ret; f_equal; lia.
Qed.

(** Characters that do not end a token. *)
Definition solid (c : Z) : bool := negb (is_blank c).
Definition spaces (l : list Z) : Prop := Forall (λ c, is_sp c = true) l.

Lemma solid_token c :
  solid c = true → (c =? SPC) || (c =? TAB) || (c =? LF) || (c =? CR) = false.
Proof.
  unfold solid, is_blank, is_sp, is_crlf.
  destruct (c =? SPC), (c =? TAB), (c =? LF), (c =? CR); done.
Qed.

Lemma solid_not_sp c : solid c = true → negb (is_sp c) = true.
Proof. unfold solid, is_blank. by destruct (is_sp c). Qed.

Lemma sp_ends_token c :
  is_sp c = true → (c =? SPC) || (c =? TAB) || (c =? LF) || (c =? CR) = true.
Proof. unfold is_sp. destruct (c =? SPC), (c =? TAB); simpl; rewrite ?orb_true_r; done. Qed.

(** [eat_token_end] and [eat_space_end] over known contents. *)
Lemma eat_token_run m p pend l rest :
  bytes_at m p (l ++ rest) → pend = p + Z.of_nat (length (l ++ rest)) →
  Forall (λ c, solid c = true) l → head_is is_blank rest →
  eat_token_end m p pend = Ok (p + Z.of_nat (length l)).
Proof.
  intros Hat Hend Hl Hrest. eapply scan_run; [done|done| |].
  - eapply Forall_impl; [exact Hl|]. apply solid_token.
  - destruct rest as [|c rest]; [done|]. cbn in *. destruct (_ || _) eqn:E; [done|].
    rewrite !orb_false_iff in E. destruct E as [[[E1 E2] E3] E4].
    unfold is_blank, is_sp, is_crlf in Hrest. by rewrite E1, E2, E3, E4 in Hrest.
Qed.

Lemma eat_space_run m p pend l rest :
  bytes_at m p (l ++ rest) → pend = p + Z.of_nat (length (l ++ rest)) →
  spaces l → head_is (λ c, negb (is_sp c)) rest →
  eat_space_end m p pend = Ok (p + Z.of_nat (length l)).
Proof.
  intros Hat Hend Hl Hrest. eapply scan_run; [done|done| |done].
  eapply Forall_impl; [exact Hl|]. by intros c ->.
Qed.


(** [eat_lws_end] over spaces up to an end of line that is not folded. *)
Lemma eat_lws_run m p pend l rest :
  bytes_at m p (l ++ rest) → pend = p + Z.of_nat (length (l ++ rest)) → spaces l →
  match rest with
  | 10 :: c :: _ => is_sp c = false
  | 13 :: 10 :: c :: _ => is_sp c = false
  | c :: _ => is_sp c = false
  | [] => True
  end →
  eat_lws_end m p pend = Ok (p + Z.of_nat (length l)).
Proof.
  intros Hat Hend Hl Hrest. unfold eat_lws_end.
  assert (Hfuel : (length l < S (Z.to_nat (pend - p)))%nat) by (rewrite Hend, length_app; lia).
  revert Hfuel. generalize (S (Z.to_nat (pend - p))). intros fuel Hfuel.
  revert p fuel Hat Hend Hfuel. induction Hl as [|c l Hc _ IH]; intros p fuel Hat Hend Hfuel.
  - destruct fuel as [|fuel]; [lia|]. apply loop_inr. cbn [length app] in *. rewrite Z.add_0_r.
    unfold eat_lws_step. destruct (Z.ltb_spec p pend) as [Hlt|]; [|done].
    destruct rest as [|c rest]; [cbn in Hend; lia|]. cbn [length] in Hend.
    destruct Hat as [Hc Hat]. rewrite Hc. cbn [mbind res_bind].
    destruct (is_sp c) eqn:Hsp.
    { exfalso. unfold is_sp, SPC, TAB in Hsp.
      destruct (Z.eqb_spec c 32) as [->|]; [done|]. by destruct (Z.eqb_spec c 9) as [->|]. }
    destruct (Z.eqb_spec c LF) as [->|].
    { cbn [andb]. destruct (Z.ltb_spec (p + 1) pend); [|done].
      destruct rest as [|c1 rest]; [cbn in Hend; lia|]. destruct Hat as [Hc1 _].
      rewrite Hc1. cbn. cbn in Hrest. by rewrite Hrest. }
    cbn [andb]. destruct (Z.eqb_spec c CR) as [->|]; [|done].
    cbn [andb]. destruct (Z.ltb_spec (p + 2) pend); [|done].
    destruct rest as [|c1 [|c2 rest]]; [cbn in Hend; lia..|]. destruct Hat as (Hc1 & Hc2 & _).
    rewrite Hc1. cbn [mbind res_bind]. destruct (Z.eqb_spec c1 LF) as [->|]; [|done].
    replace (p + 2) with (p + 1 + 1) by lia. rewrite Hc2. cbn. cbn in Hrest. by rewrite Hrest.
  - destruct fuel as [|fuel]; [cbn in Hfuel; lia|]. destruct Hat as [Hr Hat].
    cbn [length app] in *. rewrite (loop_inl _ fuel p (p + 1)).
    + rewrite (IH (p + 1) fuel Hat); [f_equal; lia|lia|lia].
    + unfold eat_lws_step. rewrite Hr, length_app in *. destruct (Z.ltb_spec p pend); [|lia].
      cbn. by rewrite Hc.
Qed.

(** ** Decimal numbers *)

(** The number that digits denote. *)
Definition decimal (ds : list Z) : Z := fold_left (λ n d, n * 10 + (d - 48)) ds 0.

Definition digits (ds : list Z) : Prop := Forall (λ d, 48 ≤ d ≤ 57) ds.

Lemma decimal_snoc ds d : decimal (ds ++ [d]) = decimal ds * 10 + (d - 48).
Proof. unfold decimal. by rewrite fold_left_app. Qed.

Lemma decimal_from ds n :
  digits ds → fold_left (λ n d, n * 10 + (d - 48)) ds n = n * 10 ^ Z.of_nat (length ds) + decimal ds ∧
  0 ≤ decimal ds.
Proof.
  intros Hds. induction ds as [|d ds IH] using rev_ind; [cbn; lia|].
  apply Forall_app in Hds as [Hds Hd]. apply Forall_cons in Hd as [Hd _].
  destruct (IH Hds) as [E Hpos]. rewrite fold_left_app, E, decimal_snoc, length_app. cbn [length fold_left].
  split; [|lia]. rewrite Nat2Z.inj_add, Z.pow_add_r by lia. change (10 ^ Z.of_nat 1) with 10. lia.
Qed.

(** One digit, with the wrap-around of [int]. *)
Lemma int_digit_step n d : to_int (to_int (to_int (n * 10) + d) - 48) = to_int (n * 10 + (d - 48)).
Proof.
  unfold Z.sub. rewrite to_int_add, <- Z.add_assoc, to_int_add. done.
Qed.

(** A number read digit by digit into an [int]. *)
Lemma int_digit_next D d :
  to_int (to_int (to_int (to_int D * 10) + d) - 48) = to_int (D * 10 + (d - 48)).
Proof.
  rewrite int_digit_step. unfold to_int. f_equal.
  replace (((D + 2 ^ 31) mod 2 ^ 32 - 2 ^ 31) * 10 + (d - 48) + 2 ^ 31)
    with ((D + 2 ^ 31) mod 2 ^ 32 * 10 + (d - 48 - 9 * 2 ^ 31)) by lia.
  rewrite <- Zplus_mod_idemp_l, <- Zmult_mod_idemp_l, Z.mod_mod, Zmult_mod_idemp_l,
    Zplus_mod_idemp_l by done.
  f_equal. lia.
Qed.

(** [str2s] accepts exactly the decimal numbers of at most five digits. *)
Definition str2s_spec (l : list Z) : Z * Z :=
  if forallb is_digit l && (length l <=? 5)%nat then (to_ushort (decimal l), 0) else (0, 1).

Lemma is_digit_mod c : -128 ≤ c ≤ 127 →
  (c mod 256 <=? ch "9") && (ch "0" <=? c mod 256) = is_digit c.
Proof.
  revert c. apply mem_char_cases. refine (bool_decide_unpack _ _). by vm_compute.
Qed.

Lemma str2s_n_at m p l D i :
  bytes_at m p l → Forall (λ c, -128 ≤ c ≤ 127) l → (i ≤ 5)%nat →
  str2s_n m p (length l) (to_ushort D) (Z.of_nat i) =
    Ok (if forallb is_digit l && (length l + i <=? 5)%nat
        then (to_ushort (fold_left (λ n d, n * 10 + (d - 48)) l D), 0) else (0, 1)).
Proof.
  revert p D i. induction l as [|c l IH]; intros p D i Hat Hl Hi.
  { cbn. by destruct (Nat.leb_spec i 5); [|lia]. }
  destruct Hat as [Hc Hat]. apply Forall_cons in Hl as [Hr Hl].
  cbn [length str2s_n forallb fold_left]. rewrite Hc. cbn [mbind res_bind]. rewrite is_digit_mod by done.
  destruct (is_digit c) eqn:Hd; [|done]. cbn [andb]. apply is_digit_spec in Hd.
  destruct (Z.ltb_spec 5 (Z.of_nat i + 1)) as [H5|H5].
  { destruct (Nat.leb_spec (S (length l) + i) 5); [lia|]. by rewrite andb_false_r. }
  assert (E : to_ushort (to_ushort D * 10 + c mod 256 - ch "0") = to_ushort (D * 10 + (c - 48))).
  { rewrite (Z.mod_small c) by lia. change (ch "0") with 48. unfold to_ushort.
    replace (D mod 2 ^ 16 * 10 + c - 48) with (D mod 2 ^ 16 * 10 + (c - 48)) by lia.
    by rewrite <- Zplus_mod_idemp_l, Zmult_mod_idemp_l, Zplus_mod_idemp_l. }
  rewrite E. replace (Z.of_nat i + 1) with (Z.of_nat (S i)) by lia. rewrite IH by (done || lia).
  by replace (length l + S i)%nat with (S (length l) + i)%nat by lia.
Qed.

Lemma str2s_at m p l :
  bytes_at m p l → Forall (λ c, -128 ≤ c ≤ 127) l → Z.of_nat (length l) < 2 ^ 31 →
  str2s m p (Z.of_nat (length l)) = Ok (str2s_spec l).
Proof.
  intros Hat Hl Hlen. unfold str2s, str2s_spec. rewrite to_uint_small by lia. rewrite Nat2Z.id.
  change (str2s_n m p (length l) 0 0) with (str2s_n m p (length l) (to_ushort 0) (Z.of_nat 0)).
  rewrite (str2s_n_at m p l 0 0 Hat Hl ltac:(lia)). by rewrite Nat.add_0_r.
Qed.

Lemma str2s_digits ds : digits ds → (length ds ≤ 5)%nat → str2s_spec ds = (to_ushort (decimal ds), 0).
Proof.
  intros Hds Hd5. unfold str2s_spec. destruct (Nat.leb_spec (length ds) 5); [|lia].
  replace (forallb is_digit ds) with true; [done|].
  symmetry. apply forallb_forall. intros d Hd. apply is_digit_spec.
  unfold digits in Hds. rewrite Forall_forall in Hds. by apply Hds, list_elem_of_In.
Qed.
