(* ===== verification/Escape.v ===== *)
(** * Escaping (strcommon.c, and the converters of ut.h that undo it)

    The functions that look at no character beyond the source take its characters
    as a list; [unescape_user], which does, and [un_escape] read them from memory.  The
    result is the return value and the characters that were stored in the
    destination, which is another buffer. *)

From stdpp Require Import strings.
From S2P Require Export Memory.

(** ** Backslashes *)

Definition escape_common_char (c : Z) : list Z :=
  if c =? ch "'" then [BSLASH; c]
  else if c =? DQUOTE then [BSLASH; c]
  else if c =? BSLASH then [BSLASH; c]
  else if c =? 0 then [BSLASH; ch "0"]
  else [c].

(** [src] is [None] where [dst], [src] or the length is null. *)
Definition escape_common (src : option (list Z)) : Z * list Z :=
  match src with
  | None | Some [] => (0, [])
  | Some l => let dst := flat_map escape_common_char l in (len dst, dst)
  end.

Fixpoint unescape_common_loop (l : list Z) : list Z :=
  match l with
  | [] => []
  | [c] => [c]
  | c :: (d :: r) as l' =>
      if c =? BSLASH then
        if d =? ch "'" then d :: unescape_common_loop r
        else if d =? DQUOTE then d :: unescape_common_loop r
        else if d =? BSLASH then d :: unescape_common_loop r
        else if d =? ch "0" then 0 :: unescape_common_loop r
        else c :: unescape_common_loop l'
      else c :: unescape_common_loop l'
  end.

Definition unescape_common (src : option (list Z)) : Z * list Z :=
  match src with
  | None | Some [] => (0, [])
  | Some l => let dst := unescape_common_loop l in (len dst, dst)
  end.

(** *** [&#xx;] *)
Fixpoint unescape_xml_loop (l : list Z) : list Z :=
  match l with
  | [] => []
  | c0 :: l0 =>
      match l0 with
      | c1 :: c2 :: c3 :: c4 :: r =>
          if (c0 =? ch "&") && (c1 =? ch "#") && (c4 =? ch ";") && is_digit c2 && is_digit c3
          then ((c2 - 48) * 10 + c3 - 48) :: unescape_xml_loop r
          else c0 :: unescape_xml_loop l0
      | _ => c0 :: unescape_xml_loop l0
      end
  end.

Definition unescape_xml (src : option (list Z)) : Z * list Z :=
  match src with
  | None | Some [] => (0, [])
  | Some l => let dst := unescape_xml_loop l in (len dst, dst)
  end.

(** ** Percent signs *)
Definition isalnum (c : Z) : bool :=
  is_digit c || ((65 <=? c) && (c <=? 90)) || ((97 <=? c) && (c <=? 122)).

Definition mark (c : Z) : bool := one_of c "-_.!~*'()".
Definition user_unreserved (c : Z) : bool := one_of c "&=+$,;?/".
Definition param_unreserved (c : Z) : bool := one_of c "[]/:&+$".

Definition escape_digit (x : Z) : Z := if x <? 10 then x + ch "0" else x - 10 + ch "a".

Definition percent (c : Z) : list Z :=
  [ch "%"; escape_digit (Z.shiftr c 4); escape_digit (Z.land c 15)].

(** [None] for a character that is not printable.  What was stored before it is
    not kept in the result. *)
Fixpoint escape_loop (keep : Z → bool) (l : list Z) : option (list Z) :=
  match l with
  | [] => Some []
  | c :: l =>
      if (c <? 32) || (126 <? c) then None else
      match escape_loop keep l with
      | Some r => Some ((if isalnum c then [c] else if keep c then [c] else percent c) ++ r)
      | None => None
      end
  end.

(** The return value and, for success, the characters of [sout], behind which a NUL is
    stored; [out_len] is [sout->len] before the call. *)
Definition escape_into (keep : Z → bool) (sin : list Z) (out_len : Z) : Z * list Z :=
  if out_len <? 3 * len sin + 1 then (-1, []) else
  match escape_loop keep sin with Some r => (0, r) | None => (-1, []) end.

Definition escape_user (sin : list Z) (out_len : Z) : Z * list Z :=
  escape_into (λ c, mark c || user_unreserved c) sin out_len.

Definition escape_param (sin : list Z) (out_len : Z) : Z * list Z :=
  escape_into (λ c, mark c || param_unreserved c) sin out_len.

(** [hex2int]; the cases of [unescape_user] are the same. *)
Definition hex2int (c : Z) : option Z :=
  if (ch "0" <=? c) && (c <=? ch "9") then Some (c - ch "0")
  else if (ch "a" <=? c) && (c <=? ch "f") then Some (c - ch "a" + 10)
  else if (ch "A" <=? c) && (c <=? ch "F") then Some (c - ch "A" + 10)
  else None.

(** [while(p < sin->s+sin->len)] of [unescape_user], from [p] with [out] stored. *)
Definition unescape_user_round (m : mem) (e : Z) (s : Z * list Z) : res (Z * list Z + Z * list Z) :=
  let '(p, out) := s in
  if p <? e then
    c ← rd m p;
    if c =? ch "%" then
      d ← rd m (p + 1);
      match hex2int d with
      | None => mret (inr (-1, out))
      | Some hi =>
          let c := schar (Z.shiftl hi 4 mod 256) in
          d ← rd m (p + 2);
          match hex2int d with
          | None => mret (inr (-1, out))
          | Some lo =>
              let c := schar ((c + lo) mod 256) in
              if (c <? 32) || (126 <? c) then mret (inr (-1, out))
              else mret (inl (p + 3, out ++ [c]))
          end
      end
    else mret (inl (p + 1, out ++ [c]))
  else mret (inr (0, out)).

(** For a success the characters of [sout], behind which a NUL is stored. *)
Definition unescape_user (m : mem) (sin : str) (out_len : Z) : res (Z * list Z) :=
  if (str_len sin <? 0) || (out_len <? str_len sin + 1) then mret (-1, [])
  else if (str_s sin =? 0) || (str_len sin =? 0) then mret (0, [])
  else loop (unescape_user_round m (str_s sin + str_len sin)) (S (Z.to_nat (str_len sin))) (str_s sin, []).

Definition unescape_param (m : mem) (sin : str) (out_len : Z) : res (Z * list Z) :=
  unescape_user m sin out_len.

(** [un_escape]: the same with a test for the end. *)
Definition un_escape_round (m : mem) (s n : Z) (x : Z * list Z) : res (Z * list Z + Z * list Z) :=
  let '(i, out) := x in
  if i <? n then
    c ← rd m (s + i);
    if c =? ch "%" then
      if n <=? i + 2 then mret (inr (-1, out)) else
      d ← rd m (s + i + 1);
      match hex2int d with
      | None => mret (inr (-1, out))
      | Some hi =>
          d ← rd m (s + i + 2);
          match hex2int d with
          | None => mret (inr (-1, out))
          | Some lo =>
              let value := Z.shiftl hi 4 + lo in
              if (value <? 32) || (126 <? value) then mret (inr (-1, out))
              else mret (inl (i + 3, out ++ [value]))
          end
      end
    else mret (inl (i + 1, out ++ [c]))
  else mret (inr (len out, out)).

Definition un_escape (m : mem) (user : str) : res (Z * list Z) :=
  loop (un_escape_round m (str_s user) (str_len user)) (S (Z.to_nat (str_len user))) (0, []).

(** ** Round trips *)
Lemma unescape_common_char c r :
  unescape_common_loop (escape_common_char c ++ r) = c :: unescape_common_loop r.
Proof.
  unfold escape_common_char.
  destruct (Z.eqb_spec c (ch "'")) as [->|]; [done|]. destruct (Z.eqb_spec c DQUOTE) as [->|]; [done|].
  destruct (Z.eqb_spec c BSLASH) as [->|Hb]; [done|]. destruct (Z.eqb_spec c 0) as [->|]; [done|].
  destruct r as [|d r]; [done|]. cbn [app unescape_common_loop]. by destruct (Z.eqb_spec c BSLASH).
Qed.

Lemma unescape_common_loop_escape l : unescape_common_loop (flat_map escape_common_char l) = l.
Proof. induction l as [|c l IH]; [done|]. cbn [flat_map]. by rewrite unescape_common_char, IH. Qed.

Lemma escape_common_length l : len l ≤ len (flat_map escape_common_char l) ≤ 2 * len l.
Proof.
  induction l as [|c l IH]; [done|]. cbn [flat_map]. rewrite len_app, len_cons.
  assert (1 ≤ len (escape_common_char c) ≤ 2); [|lia]. unfold escape_common_char.
  repeat (destruct (_ =? _); [done|]). done.
Qed.

(** The characters that are kept as they are, and the triples. *)
Definition piece (c : Z) (k : list Z) : Prop :=
  32 ≤ c ≤ 126 ∧ (k = [c] ∧ c ≠ ch "%" ∨ k = percent c).

Lemma escape_loop_spec keep l r : keep (ch "%") = false → escape_loop keep l = Some r →
  ∃ ks, Forall2 piece l ks ∧ r = concat ks.
Proof.
  intros Hkeep. revert r. induction l as [|c l IH]; intros r; cbn [escape_loop].
  { intros [= <-]. by exists []. }
  destruct (Z.ltb_spec c 32); [done|]. destruct (Z.ltb_spec 126 c); [done|]. cbn [orb].
  destruct (escape_loop keep l) as [r'|]; [|done]. destruct (IH r' eq_refl) as (ks & Hks & ->). intros [= <-].
  set (k := if isalnum c then _ else _). exists (k :: ks). split; [|done]. constructor; [|done].
  split; [lia|]. subst k. destruct (isalnum c) eqn:Ha.
  - left. split; [done|]. intros ->. by vm_compute in Ha.
  - destruct (keep c) eqn:Hk; [|by right]. left. split; [done|]. intros ->. congruence.
Qed.

Lemma escape_loop_total keep l : Forall (λ c, 32 ≤ c ≤ 126) l → is_Some (escape_loop keep l).
Proof.
  induction 1 as [|c l Hc _ [r IH]]; [done|]. cbn [escape_loop]. rewrite IH.
  destruct (Z.ltb_spec c 32); [lia|]. destruct (Z.ltb_spec 126 c); [lia|]. done.
Qed.

Lemma escape_loop_bad keep l : ¬ Forall (λ c, 32 ≤ c ≤ 126) l → escape_loop keep l = None.
Proof.
  induction l as [|c l IH]; [by intros []|]. intros Hn. cbn [escape_loop].
  destruct (Z.ltb_spec c 32); [done|]. destruct (Z.ltb_spec 126 c); [done|]. cbn [orb].
  rewrite IH; [done|]. intros Hl. apply Hn. by constructor.
Qed.

Lemma piece_length c k : piece c k → 1 ≤ len k ≤ 3.
Proof. by intros [_ [[-> _]| ->]]. Qed.

Lemma pieces_length l ks : Forall2 piece l ks → len l ≤ len (concat ks) ≤ 3 * len l.
Proof.
  induction 1 as [|c k l ks Hc _ IH]; [done|]. cbn [concat]. rewrite len_app, len_cons.
  pose proof (piece_length _ _ Hc). lia.
Qed.

(** A triple stands for its character: all of them are tried. *)
Definition all_printable : list Z := map Z.of_nat (seq 32 95).

Lemma printable_in c : 32 ≤ c ≤ 126 → c ∈ all_printable.
Proof.
  intros Hc. apply list_elem_of_In, in_map_iff. exists (Z.to_nat c). split; [lia|]. apply in_seq. lia.
Qed.

Definition triple_ok (c : Z) : bool :=
  match percent c with
  | [a; b; d] =>
      (a =? ch "%") && match hex2int b, hex2int d with
      | Some hi, Some lo =>
          (schar ((schar (Z.shiftl hi 4 mod 256) + lo) mod 256) =? c) && (Z.shiftl hi 4 + lo =? c)
      | _, _ => false
      end
  | _ => false
  end.

Lemma percent_spec c : 32 ≤ c ≤ 126 → ∃ hi lo,
  percent c = [ch "%"; escape_digit (Z.shiftr c 4); escape_digit (Z.land c 15)] ∧
  hex2int (escape_digit (Z.shiftr c 4)) = Some hi ∧ hex2int (escape_digit (Z.land c 15)) = Some lo ∧
  schar ((schar (Z.shiftl hi 4 mod 256) + lo) mod 256) = c ∧ Z.shiftl hi 4 + lo = c.
Proof.
  intros Hc%printable_in.
  assert (Hall : forallb triple_ok all_printable = true) by by vm_compute.
  rewrite forallb_forall in Hall. specialize (Hall c (proj1 (list_elem_of_In _ _) Hc)).
  unfold triple_ok, percent in *. cbn [Z.eqb] in Hall.
  destruct (hex2int _) as [hi|], (hex2int (escape_digit (Z.land c 15))) as [lo|]; try (by rewrite andb_false_r in Hall).
  rewrite !andb_true_iff, !Z.eqb_eq in Hall. destruct Hall as (_ & H1 & H2). by exists hi, lo.
Qed.

Section runs.
Context (m : mem).

Lemma unescape_piece e p out c k : piece c k → bytes_at m p k → p + len k ≤ e →
  unescape_user_round m e (p, out) = Ok (inl (p + len k, out ++ [c])).
Proof.
  intros [Hr [[-> Hc]| ->]] Hat He; unfold unescape_user_round.
  - change (len [c]) with 1 in *. destruct Hat as [Hat _]. destruct (Z.ltb_spec p e); [|lia]. rewrite Hat. cbn [mbind res_bind].
    by destruct (Z.eqb_spec c (ch "%")).
  - change (len (percent c)) with 3 in *. destruct (percent_spec c Hr) as (hi & lo & E & Hhi & Hlo & Hc & _). rewrite E in *.
    destruct Hat as (H1 & H2 & H3 & _). replace (p + 1 + 1) with (p + 2) in H3 by lia.
    destruct (Z.ltb_spec p e); [|lia]. rewrite H1. cbn [mbind res_bind]. rewrite Z.eqb_refl, H2.
    cbn [mbind res_bind]. rewrite Hhi, H3. cbn [mbind res_bind]. rewrite Hlo, Hc.
    destruct (Z.ltb_spec c 32); [lia|]. destruct (Z.ltb_spec 126 c); [lia|]. done.
Qed.

Lemma un_escape_piece s n i out c k : piece c k → bytes_at m (s + i) k → i + len k ≤ n →
  un_escape_round m s n (i, out) = Ok (inl (i + len k, out ++ [c])).
Proof.
  intros [Hr [[-> Hc]| ->]] Hat He; unfold un_escape_round.
  - change (len [c]) with 1 in *. destruct Hat as [Hat _]. destruct (Z.ltb_spec i n); [|lia]. rewrite Hat. cbn [mbind res_bind].
    by destruct (Z.eqb_spec c (ch "%")).
  - change (len (percent c)) with 3 in *. destruct (percent_spec c Hr) as (hi & lo & E & Hhi & Hlo & _ & Hc). rewrite E in *.
    destruct Hat as (H1 & H2 & H3 & _). replace (s + i + 1 + 1) with (s + i + 2) in H3 by lia.
    destruct (Z.ltb_spec i n); [|lia]. rewrite H1. cbn [mbind res_bind]. rewrite Z.eqb_refl.
    destruct (Z.leb_spec n (i + 2)); [lia|]. rewrite H2.
    cbn [mbind res_bind]. rewrite Hhi, H3. cbn [mbind res_bind]. rewrite Hlo, Hc.
    destruct (Z.ltb_spec c 32); [lia|]. destruct (Z.ltb_spec 126 c); [lia|]. done.
Qed.

Lemma unescape_pieces l ks : Forall2 piece l ks → ∀ p out, bytes_at m p (concat ks) →
  lands (unescape_user_round m (p + len (concat ks))) (λ s, p + len (concat ks) - s.1) (p, out) (0, out ++ l).
Proof.
  induction 1 as [|c k l ks Hc _ IH]; intros p out Hat; cbn [concat] in *.
  - rewrite app_nil_r. apply lands_done; [|cbn [fst]; change (len []) with 0; lia]. unfold unescape_user_round.
    change (len []) with 0. rewrite Z.add_0_r, Z.ltb_irrefl. done.
  - apply bytes_at_app in Hat as [Hk Hat]. fold (len k) in Hat. pose proof (piece_length _ _ Hc).
    pose proof (len_nonneg (concat ks)). rewrite len_app.
    eapply lands_next; [apply (unescape_piece _ _ _ c k); [done|done|lia]|cbn [fst]; lia|cbn [fst]; lia|].
    replace (out ++ c :: l) with ((out ++ [c]) ++ l) by (by rewrite <- app_assoc).
    rewrite Z.add_assoc. by apply IH.
Qed.

Lemma un_escape_pieces s l ks : Forall2 piece l ks → ∀ i out, bytes_at m (s + i) (concat ks) →
  lands (un_escape_round m s (i + len (concat ks))) (λ x, i + len (concat ks) - x.1) (i, out)
    (len (out ++ l), out ++ l).
Proof.
  induction 1 as [|c k l ks Hc _ IH]; intros i out Hat; cbn [concat] in *.
  - rewrite app_nil_r. apply lands_done; [|cbn [fst]; change (len []) with 0; lia]. unfold un_escape_round.
    change (len []) with 0. rewrite Z.add_0_r, Z.ltb_irrefl. done.
  - apply bytes_at_app in Hat as [Hk Hat]. fold (len k) in Hat. pose proof (piece_length _ _ Hc).
    pose proof (len_nonneg (concat ks)). rewrite len_app.
    eapply lands_next; [apply (un_escape_piece _ _ _ _ c k); [done|done|lia]|cbn [fst]; lia|cbn [fst]; lia|].
    replace (out ++ c :: l) with ((out ++ [c]) ++ l) by (by rewrite <- app_assoc).
    rewrite Z.add_assoc. apply IH. by rewrite Z.add_assoc.
Qed.

Lemma unescape_user_pieces l ks s out_len : Forall2 piece l ks → 0 < s → bytes_at m s (concat ks) →
  len (concat ks) < out_len → unescape_user m (Str s (len (concat ks))) out_len = Ok (0, l).
Proof.
  intros Hl Hs Hat Hout. unfold unescape_user. cbn [str_s str_len]. pose proof (len_nonneg (concat ks)).
  destruct (Z.ltb_spec (len (concat ks)) 0); [lia|]. destruct (Z.ltb_spec out_len (len (concat ks) + 1)); [lia|]. cbn [orb].
  destruct (Z.eqb_spec s 0); [lia|]. cbn [orb]. destruct (Z.eqb_spec (len (concat ks)) 0) as [E|].
  - pose proof (pieces_length _ _ Hl). destruct l; [done|]. rewrite len_cons in *. pose proof (len_nonneg l). lia.
  - apply (unescape_pieces l ks Hl s [] Hat). cbn [fst]. lia.
Qed.

Lemma un_escape_pieces_all l ks s : Forall2 piece l ks → bytes_at m s (concat ks) →
  un_escape m (Str s (len (concat ks))) = Ok (len l, l).
Proof.
  intros Hl Hat. unfold un_escape. cbn [str_s str_len]. pose proof (len_nonneg (concat ks)).
  pose proof (un_escape_pieces s l ks Hl 0 []) as H'. rewrite Z.add_0_r in H'. apply H'; [done|cbn [fst]; lia].
Qed.
End runs.

(** ** The two readers of escapes *)
Lemma hex2int_range d v : hex2int d = Some v → 0 ≤ v < 16.
Proof.
  unfold hex2int. change (ch "0") with 48. change (ch "9") with 57. change (ch "a") with 97. change (ch "f") with 102.
  change (ch "A") with 65. change (ch "F") with 70.
  destruct (Z.leb_spec 48 d), (Z.leb_spec d 57); cbn [andb]; [intros [= <-]; lia|..];
  destruct (Z.leb_spec 97 d), (Z.leb_spec d 102); cbn [andb]; try (intros [= <-]; lia);
  destruct (Z.leb_spec 65 d), (Z.leb_spec d 70); cbn [andb]; try (intros [= <-]; lia); done.
Qed.

Definition printable (c : Z) : bool := negb ((c <? 32) || (126 <? c)).

(** The signed character and the integer that two digits make. *)
Lemma two_digits hi lo : 0 ≤ hi < 16 → 0 ≤ lo < 16 →
  let c := schar ((schar (Z.shiftl hi 4 mod 256) + lo) mod 256) in let v := Z.shiftl hi 4 + lo in
  ((c <? 32) || (126 <? c)) = ((v <? 32) || (126 <? v)) ∧ (((v <? 32) || (126 <? v)) = false → c = v).
Proof.
  intros Hh Hl.
  assert (Hc : ∀ x, 0 ≤ x < 16 → x ∈ map Z.of_nat (seq 0 16)).
  { intros x Hx. apply list_elem_of_In. apply in_map_iff with (f := Z.of_nat). exists (Z.to_nat x). split; [lia|]. apply in_seq. lia. }
  assert (Hall : forallb (λ h, forallb (λ l,
    let c := schar ((schar (Z.shiftl h 4 mod 256) + l) mod 256) in let v := Z.shiftl h 4 + l in
    eqb ((c <? 32) || (126 <? c)) ((v <? 32) || (126 <? v)) && (((v <? 32) || (126 <? v)) || (c =? v)))
    (map Z.of_nat (seq 0 16))) (map Z.of_nat (seq 0 16)) = true) by by vm_compute.
  rewrite forallb_forall in Hall. specialize (Hall hi (proj1 (list_elem_of_In _ _) (Hc _ Hh))).
  rewrite forallb_forall in Hall. specialize (Hall lo (proj1 (list_elem_of_In _ _) (Hc _ Hl))).
  cbn zeta in *. apply andb_true_iff in Hall as [Ha Hb]. apply eqb_prop in Ha. split; [exact Ha|].
  intros E. rewrite E in Hb. by apply Z.eqb_eq in Hb.
Qed.

(** In a round with two characters behind a percent sign they do the same. *)
Definition as_user (s : Z) (r : Z * list Z + Z * list Z) : Z * list Z + Z * list Z :=
  match r with
  | inl (i, out) => inl (s + i, out)
  | inr (r, out) => inr (if r <? 0 then -1 else 0, out)
  end.

Lemma rounds_agree m s n i out : (i < n → rd m (s + i) = Ok (ch "%") → i + 2 < n) →
  unescape_user_round m (s + n) (s + i, out) = as_user s <$> un_escape_round m s n (i, out).
Proof.
  intros Hpct. unfold unescape_user_round, un_escape_round.
  destruct (Z.ltb_spec (s + i) (s + n)), (Z.ltb_spec i n) as [Hin|]; try lia.
  2: { cbn. destruct (Z.ltb_spec (len out) 0); [pose proof (len_nonneg out); lia|done]. }
  destruct (rd m (s + i)) as [c|p|] eqn:Hc; [|done..]. cbn [mbind res_bind].
  destruct (Z.eqb_spec c (ch "%")) as [->|]; [|cbn; do 3 f_equal; lia].
  destruct (Z.leb_spec n (i + 2)); [specialize (Hpct Hin eq_refl); lia|].
  destruct (rd m (s + i + 1)) as [d| |]; [|done..]. cbn [mbind res_bind].
  destruct (hex2int d) as [hi|] eqn:Hhi; [|done].
  destruct (rd m (s + i + 2)) as [d2| |]; [|done..]. cbn [mbind res_bind].
  destruct (hex2int d2) as [lo|] eqn:Hlo; [|done].
  destruct (two_digits hi lo (hex2int_range _ _ Hhi) (hex2int_range _ _ Hlo)) as [E1 E2]. rewrite E1.
  destruct ((Z.shiftl hi 4 + lo <? 32) || (126 <? Z.shiftl hi 4 + lo)); [reflexivity|]. rewrite (E2 eq_refl).
  cbn -[Z.shiftl Z.add]. do 3 f_equal. lia.
Qed.

(** Every percent sign has two more characters of the text behind it. *)
Definition escapes_complete (m : mem) (s n : Z) : Prop :=
  ∀ i, 0 ≤ i < n → rd m (s + i) = Ok (ch "%") → i + 2 < n.

Lemma un_escape_round_next m s n i out i' out' : un_escape_round m s n (i, out) = Ok (inl (i', out')) → i < i' ∧ i < n.
Proof.
  unfold un_escape_round. destruct (Z.ltb_spec i n); [|done]. destruct (rd m (s + i)) as [c| |]; [|done..].
  cbn [mbind res_bind]. destruct (_ =? _); [|intros [= <- _]; lia]. destruct (_ <=? _); [done|].
  destruct (rd m (s + i + 1)) as [d| |]; [|done..]. cbn [mbind res_bind]. destruct (hex2int d); [|done].
  destruct (rd m (s + i + 2)) as [d2| |]; [|done..]. cbn [mbind res_bind]. destruct (hex2int d2); [|done].
  destruct (_ || _); [done|]. intros [= <- _]. lia.
Qed.

Lemma loops_agree m s n fuel : escapes_complete m s n → ∀ i out, 0 ≤ i →
  loop (unescape_user_round m (s + n)) fuel (s + i, out) =
  (λ x, (if x.1 <? 0 then -1 else 0, x.2)) <$> loop (un_escape_round m s n) fuel (i, out).
Proof.
  intros Hc. induction fuel as [|fuel IH]; intros i out Hi; [done|]. cbn [loop].
  rewrite rounds_agree by (intros; by apply Hc).
  destruct (un_escape_round m s n (i, out)) as [[[i' out']|[r out']]| |] eqn:E; [|done..].
  apply un_escape_round_next in E. cbn. apply IH. lia.
Qed.

Lemma unescape_user_as_un_escape_at m s n out_len : 0 < s → 0 ≤ n < out_len → escapes_complete m s n →
  unescape_user m (Str s n) out_len =
  (λ x, (if x.1 <? 0 then -1 else 0, x.2)) <$> un_escape m (Str s n).
Proof.
  intros Hs Hn Hc. unfold unescape_user, un_escape. cbn [str_s str_len].
  destruct (Z.ltb_spec n 0); [lia|]. destruct (Z.ltb_spec out_len (n + 1)); [lia|]. cbn [orb].
  destruct (Z.eqb_spec s 0); [lia|]. cbn [orb]. destruct (Z.eqb_spec n 0) as [->|]; [done|].
  rewrite <- (loops_agree m s n _ Hc 0 []) by lia. by rewrite Z.add_0_r.
Qed.

(** ** Properties *)

(** C29: what [escape_common] writes is unescaped to the same characters, whatever they
    are, and is at most twice as long; what [escape_user] and [escape_param] write of
    printable characters fits into the room that they ask for, together with the NUL, and
    [unescape_user], [unescape_param] and [un_escape] read the same characters from it;
    other characters are rejected. *)
Theorem escape_roundtrip l out_len :
  unescape_common (Some (escape_common (Some l)).2) = (len l, l) ∧
  (escape_common (Some l)).1 = len (escape_common (Some l)).2 ∧ len (escape_common (Some l)).2 ≤ 2 * len l ∧
  Forall (λ esc : list Z → Z → Z * list Z,
    if bool_decide (Forall (λ c, 32 ≤ c ≤ 126) l ∧ 3 * len l < out_len) then
      ∃ r, esc l out_len = (0, r) ∧ len r < out_len ∧
        ∀ m s room, 0 < s → bytes_at m s r → len r < room →
          unescape_user m (Str s (len r)) room = Ok (0, l) ∧ unescape_param m (Str s (len r)) room = Ok (0, l) ∧
          un_escape m (Str s (len r)) = Ok (len l, l)
    else esc l out_len = (-1, []))
  [escape_user; escape_param].
Proof.
  split_and!.
  - destruct l as [|c l]; [done|]. unfold escape_common. cbn [snd]. unfold unescape_common.
    pose proof (escape_common_length (c :: l)) as Hlen. pose proof (len_nonneg l). rewrite len_cons in Hlen at 1.
    destruct (flat_map escape_common_char (c :: l)) as [|d r] eqn:E; [change (len []) with 0 in Hlen; lia|].
    by rewrite <- E, unescape_common_loop_escape.
  - by destruct l.
  - destruct l as [|c l]; [done|]. apply escape_common_length.
  - assert (Hesc : ∀ keep, keep (ch "%") = false →
      if bool_decide (Forall (λ c, 32 ≤ c ≤ 126) l ∧ 3 * len l < out_len) then
        ∃ r, escape_into keep l out_len = (0, r) ∧ len r < out_len ∧
          ∀ m s room, 0 < s → bytes_at m s r → len r < room →
            unescape_user m (Str s (len r)) room = Ok (0, l) ∧ unescape_param m (Str s (len r)) room = Ok (0, l) ∧
            un_escape m (Str s (len r)) = Ok (len l, l)
      else escape_into keep l out_len = (-1, [])).
    { intros keep Hk. unfold escape_into. case_bool_decide as Hl.
      - destruct Hl as [Hl Hroom]. destruct (Z.ltb_spec out_len (3 * len l + 1)); [lia|].
        destruct (escape_loop_total keep l Hl) as [r Hr]. rewrite Hr.
        destruct (escape_loop_spec keep l r Hk Hr) as (ks & Hks & ->). pose proof (pieces_length _ _ Hks).
        exists (concat ks). split; [done|]. split; [lia|]. intros m s room Hs Hat Hlt.
        split; [by apply unescape_user_pieces|]. split; [by apply unescape_user_pieces|by apply un_escape_pieces_all].
      - destruct (Z.ltb_spec out_len (3 * len l + 1)); [done|].
        rewrite escape_loop_bad; [done|]. intros Hf. apply Hl. split; [done|lia]. }
    repeat constructor; by apply Hesc.
Qed.

(** On texts in which every percent sign has two more characters behind it the two
    readers of escapes agree on all inputs, good and bad: the same characters are
    stored and the same texts are rejected. *)
Lemma unescape_user_as_un_escape m s n out_len : 0 < s → 0 ≤ n < out_len → escapes_complete m s n →
  unescape_user m (Str s n) out_len =
  (λ x, (if x.1 <? 0 then -1 else 0, x.2)) <$> un_escape m (Str s n).
Proof. apply unescape_user_as_un_escape_at. Qed.

Lemma unescape_user_as_un_escape_witness :
  unescape_user (block (chars "a%4b%zz")) (Str 4096 7) 8 =
  (λ x, (if x.1 <? 0 then -1 else 0, x.2)) <$> un_escape (block (chars "a%4b%zz")) (Str 4096 7).
Proof.
  apply (unescape_user_as_un_escape (block (chars "a%4b%zz")) 4096 7 8); [lia|lia|].
  intros i Hi. assert (Hc : i = 0 ∨ i = 1 ∨ i = 2 ∨ i = 3 ∨ i = 4 ∨ i = 5 ∨ i = 6) by lia.
  repeat (destruct Hc as [-> |Hc]; [by vm_compute|]). by subst.
Defined.

(** Without them [unescape_user] reads behind the text: a percent sign at its end takes
    the characters that follow, or faults. *)
Lemma unescape_user_overrun :
  unescape_user (block (chars "%41")) (Str 4096 1) 2 = Ok (0, chars "A") ∧
  unescape_user (block (chars "%")) (Str 4096 1) 2 = Fault 4097 ∧
  un_escape (block (chars "%41")) (Str 4096 1) = Ok (-1, []).
Proof. by vm_compute. Qed.
