(* ===== verification/Codec.v ===== *)
(** * Base 64 and base 32 (ut.c)

    The three base 64 codecs differ in their digits, their table of values and the
    character that pads; their code is the same.  The blocks hold unsigned
    characters; the result of a function is what it stores in the buffer [out]. *)

From stdpp Require Import strings.
From Stdlib Require Import Btauto.
From S2P Require Export Memory.

(** ** Tables *)
Definition base64digits : list Z := chars "ABCDEFGHIJKLMNOPQRSTUVWXYZabcdefghijklmnopqrstuvwxyz0123456789+/".
Definition base64urldigits : list Z := chars "ABCDEFGHIJKLMNOPQRSTUVWXYZabcdefghijklmnopqrstuvwxyz0123456789-_".
Definition word64digits : list Z := chars "ABCDEFGHIJKLMNOPQRSTUVWXYZabcdefghijklmnopqrstuvwxyz0123456789+.".
Definition base32digits : list Z := chars "ABCDEFGHIJKLMNOPQRSTUVWXYZ234567".

Definition BAD : Z := 255.

Definition base64val : list Z :=
  [BAD; BAD; BAD; BAD; BAD; BAD; BAD; BAD; BAD; BAD; BAD; BAD; BAD; BAD; BAD; BAD;
   BAD; BAD; BAD; BAD; BAD; BAD; BAD; BAD; BAD; BAD; BAD; BAD; BAD; BAD; BAD; BAD;
   BAD; BAD; BAD; BAD; BAD; BAD; BAD; BAD; BAD; BAD; BAD; 62; BAD; BAD; BAD; 63;
   52; 53; 54; 55; 56; 57; 58; 59; 60; 61; BAD; BAD; BAD; BAD; BAD; BAD;
   BAD; 0; 1; 2; 3; 4; 5; 6; 7; 8; 9; 10; 11; 12; 13; 14;
   15; 16; 17; 18; 19; 20; 21; 22; 23; 24; 25; BAD; BAD; BAD; BAD; BAD;
   BAD; 26; 27; 28; 29; 30; 31; 32; 33; 34; 35; 36; 37; 38; 39; 40;
   41; 42; 43; 44; 45; 46; 47; 48; 49; 50; 51; BAD; BAD; BAD; BAD; BAD;
   BAD; BAD; BAD; BAD; BAD; BAD; BAD; BAD; BAD; BAD; BAD; BAD; BAD; BAD; BAD; BAD;
   BAD; BAD; BAD; BAD; BAD; BAD; BAD; BAD; BAD; BAD; BAD; BAD; BAD; BAD; BAD; BAD;
   BAD; BAD; BAD; BAD; BAD; BAD; BAD; BAD; BAD; BAD; BAD; BAD; BAD; BAD; BAD; BAD;
   BAD; BAD; BAD; BAD; BAD; BAD; BAD; BAD; BAD; BAD; BAD; BAD; BAD; BAD; BAD; BAD;
   BAD; BAD; BAD; BAD; BAD; BAD; BAD; BAD; BAD; BAD; BAD; BAD; BAD; BAD; BAD; BAD;
   BAD; BAD; BAD; BAD; BAD; BAD; BAD; BAD; BAD; BAD; BAD; BAD; BAD; BAD; BAD; BAD;
   BAD; BAD; BAD; BAD; BAD; BAD; BAD; BAD; BAD; BAD; BAD; BAD; BAD; BAD; BAD; BAD;
   BAD; BAD; BAD; BAD; BAD; BAD; BAD; BAD; BAD; BAD; BAD; BAD; BAD; BAD; BAD; BAD].

Definition base64urlval : list Z :=
  [BAD; BAD; BAD; BAD; BAD; BAD; BAD; BAD; BAD; BAD; BAD; BAD; BAD; BAD; BAD; BAD;
   BAD; BAD; BAD; BAD; BAD; BAD; BAD; BAD; BAD; BAD; BAD; BAD; BAD; BAD; BAD; BAD;
   BAD; BAD; BAD; BAD; BAD; BAD; BAD; BAD; BAD; BAD; BAD; BAD; BAD; 62; BAD; BAD;
   52; 53; 54; 55; 56; 57; 58; 59; 60; 61; BAD; BAD; BAD; BAD; BAD; BAD;
   BAD; 0; 1; 2; 3; 4; 5; 6; 7; 8; 9; 10; 11; 12; 13; 14;
   15; 16; 17; 18; 19; 20; 21; 22; 23; 24; 25; BAD; BAD; BAD; BAD; 63;
   BAD; 26; 27; 28; 29; 30; 31; 32; 33; 34; 35; 36; 37; 38; 39; 40;
   41; 42; 43; 44; 45; 46; 47; 48; 49; 50; 51; BAD; BAD; BAD; BAD; BAD;
   BAD; BAD; BAD; BAD; BAD; BAD; BAD; BAD; BAD; BAD; BAD; BAD; BAD; BAD; BAD; BAD;
   BAD; BAD; BAD; BAD; BAD; BAD; BAD; BAD; BAD; BAD; BAD; BAD; BAD; BAD; BAD; BAD;
   BAD; BAD; BAD; BAD; BAD; BAD; BAD; BAD; BAD; BAD; BAD; BAD; BAD; BAD; BAD; BAD;
   BAD; BAD; BAD; BAD; BAD; BAD; BAD; BAD; BAD; BAD; BAD; BAD; BAD; BAD; BAD; BAD;
   BAD; BAD; BAD; BAD; BAD; BAD; BAD; BAD; BAD; BAD; BAD; BAD; BAD; BAD; BAD; BAD;
   BAD; BAD; BAD; BAD; BAD; BAD; BAD; BAD; BAD; BAD; BAD; BAD; BAD; BAD; BAD; BAD;
   BAD; BAD; BAD; BAD; BAD; BAD; BAD; BAD; BAD; BAD; BAD; BAD; BAD; BAD; BAD; BAD;
   BAD; BAD; BAD; BAD; BAD; BAD; BAD; BAD; BAD; BAD; BAD; BAD; BAD; BAD; BAD; BAD].

Definition word64val : list Z :=
  [BAD; BAD; BAD; BAD; BAD; BAD; BAD; BAD; BAD; BAD; BAD; BAD; BAD; BAD; BAD; BAD;
   BAD; BAD; BAD; BAD; BAD; BAD; BAD; BAD; BAD; BAD; BAD; BAD; BAD; BAD; BAD; BAD;
   BAD; BAD; BAD; BAD; BAD; BAD; BAD; BAD; BAD; BAD; BAD; 62; BAD; BAD; 63; BAD;
   52; 53; 54; 55; 56; 57; 58; 59; 60; 61; BAD; BAD; BAD; BAD; BAD; BAD;
   BAD; 0; 1; 2; 3; 4; 5; 6; 7; 8; 9; 10; 11; 12; 13; 14;
   15; 16; 17; 18; 19; 20; 21; 22; 23; 24; 25; BAD; BAD; BAD; BAD; BAD;
   BAD; 26; 27; 28; 29; 30; 31; 32; 33; 34; 35; 36; 37; 38; 39; 40;
   41; 42; 43; 44; 45; 46; 47; 48; 49; 50; 51; BAD; BAD; BAD; BAD; BAD;
   BAD; BAD; BAD; BAD; BAD; BAD; BAD; BAD; BAD; BAD; BAD; BAD; BAD; BAD; BAD; BAD;
   BAD; BAD; BAD; BAD; BAD; BAD; BAD; BAD; BAD; BAD; BAD; BAD; BAD; BAD; BAD; BAD;
   BAD; BAD; BAD; BAD; BAD; BAD; BAD; BAD; BAD; BAD; BAD; BAD; BAD; BAD; BAD; BAD;
   BAD; BAD; BAD; BAD; BAD; BAD; BAD; BAD; BAD; BAD; BAD; BAD; BAD; BAD; BAD; BAD;
   BAD; BAD; BAD; BAD; BAD; BAD; BAD; BAD; BAD; BAD; BAD; BAD; BAD; BAD; BAD; BAD;
   BAD; BAD; BAD; BAD; BAD; BAD; BAD; BAD; BAD; BAD; BAD; BAD; BAD; BAD; BAD; BAD;
   BAD; BAD; BAD; BAD; BAD; BAD; BAD; BAD; BAD; BAD; BAD; BAD; BAD; BAD; BAD; BAD;
   BAD; BAD; BAD; BAD; BAD; BAD; BAD; BAD; BAD; BAD; BAD; BAD; BAD; BAD; BAD; BAD].

Definition base32val : list Z :=
  [BAD; BAD; BAD; BAD; BAD; BAD; BAD; BAD; BAD; BAD; BAD; BAD; BAD; BAD; BAD; BAD;
   BAD; BAD; BAD; BAD; BAD; BAD; BAD; BAD; BAD; BAD; BAD; BAD; BAD; BAD; BAD; BAD;
   BAD; BAD; BAD; BAD; BAD; BAD; BAD; BAD; BAD; BAD; BAD; BAD; BAD; BAD; BAD; BAD;
   BAD; BAD; 26; 27; 28; 29; 30; 31; BAD; BAD; BAD; BAD; BAD; BAD; BAD; BAD;
   BAD; 0; 1; 2; 3; 4; 5; 6; 7; 8; 9; 10; 11; 12; 13; 14;
   15; 16; 17; 18; 19; 20; 21; 22; 23; 24; 25; BAD; BAD; BAD; BAD; BAD;
   BAD; 0; 1; 2; 3; 4; 5; 6; 7; 8; 9; 10; 11; 12; 13; 14;
   15; 16; 17; 18; 19; 20; 21; 22; 23; 24; 25; BAD; BAD; BAD; BAD; BAD;
   BAD; BAD; BAD; BAD; BAD; BAD; BAD; BAD; BAD; BAD; BAD; BAD; BAD; BAD; BAD; BAD;
   BAD; BAD; BAD; BAD; BAD; BAD; BAD; BAD; BAD; BAD; BAD; BAD; BAD; BAD; BAD; BAD;
   BAD; BAD; BAD; BAD; BAD; BAD; BAD; BAD; BAD; BAD; BAD; BAD; BAD; BAD; BAD; BAD;
   BAD; BAD; BAD; BAD; BAD; BAD; BAD; BAD; BAD; BAD; BAD; BAD; BAD; BAD; BAD; BAD;
   BAD; BAD; BAD; BAD; BAD; BAD; BAD; BAD; BAD; BAD; BAD; BAD; BAD; BAD; BAD; BAD;
   BAD; BAD; BAD; BAD; BAD; BAD; BAD; BAD; BAD; BAD; BAD; BAD; BAD; BAD; BAD; BAD;
   BAD; BAD; BAD; BAD; BAD; BAD; BAD; BAD; BAD; BAD; BAD; BAD; BAD; BAD; BAD; BAD;
   BAD; BAD; BAD; BAD; BAD; BAD; BAD; BAD; BAD; BAD; BAD; BAD; BAD; BAD; BAD; BAD].

(** An unsigned char. *)
Definition u8 (z : Z) : Z := z mod 256.

(** [table[i]]; the index is in range. *)
Definition at_ (table : list Z) (i : Z) : Z := nth (Z.to_nat i) table 0.

(** ** Encoding *)
Section encode64.
Context (digits : list Z) (pad : Z) (m : mem).

Fixpoint encode64 (fuel : nat) (p inlen : Z) : res (list Z) :=
match fuel with
| O => OutOfFuel
| S fuel =>
    if 3 <=? inlen then
      a ← rd m p; b ← rd m (p + 1); c ← rd m (p + 2);
      rest ← encode64 fuel (p + 3) (inlen - 3);
      mret ([at_ digits (Z.shiftr a 2);
             at_ digits (Z.lor (Z.land (Z.shiftl a 4) 0x30) (Z.shiftr b 4));
             at_ digits (Z.lor (Z.land (Z.shiftl b 2) 0x3c) (Z.shiftr c 6));
             at_ digits (Z.land c 0x3f)] ++ rest)
    else if 0 <? inlen then
      a ← rd m p;
      let fragment := u8 (Z.land (Z.shiftl a 4) 0x30) in
      b ← (if 1 <? inlen then rd m (p + 1) else mret 0);
      let fragment := if 1 <? inlen then Z.lor fragment (Z.shiftr b 4) else fragment in
      mret [at_ digits (Z.shiftr a 2); at_ digits fragment;
            (if inlen <? 2 then pad else at_ digits (Z.land (Z.shiftl b 2) 0x3c)); pad]
    else mret []
end.
End encode64.

Definition base64encode (m : mem) (in_ inlen : Z) : res (list Z) :=
  encode64 base64digits (ch "=") m (S (Z.to_nat inlen)) in_ inlen.
Definition base64urlencode (m : mem) (in_ inlen : Z) : res (list Z) :=
  encode64 base64urldigits (ch "=") m (S (Z.to_nat inlen)) in_ inlen.
Definition word64encode (m : mem) (in_ inlen : Z) : res (list Z) :=
  encode64 word64digits (ch "-") m (S (Z.to_nat inlen)) in_ inlen.

(** ** Decoding *)

(** How the search for the next digit ends: a digit, the character that pads, or the
    end of the text. *)
Inductive digit := Digit (c i : Z) | Padding | Bad.

Section decode.
Context (val : list Z) (m : mem) (in_ len : Z).

(** [do { c = val[in[i++]]; } while (i<len && c == BAD); if (c == BAD) break;]; with
  [pad] [if (c == pad) return out_len;] comes first. *)
Fixpoint next_digit (fuel : nat) (pad : option Z) (i : Z) : res digit :=
match fuel with
| O => OutOfFuel
| S fuel =>
    c ← rd m (in_ + i);
    if bool_decide (Some c = pad) then mret Padding else
    let v := at_ val c in
    if v =? BAD then if i + 1 <? len then next_digit fuel pad (i + 1) else mret Bad
    else mret (Digit v (i + 1))
end.

Definition digit_at (pad : option Z) (i : Z) : res digit := next_digit (S (Z.to_nat (len - i))) pad i.

(** One round of [while (len > i)]: the index and the output, or the output at
  the return. *)
Definition decode64_round (s : Z * list Z) : res (Z * list Z + list Z) :=
let '(i, out) := s in
if negb (i <? len) then mret (inr out) else
d ← digit_at None i;
match d with Padding | Bad => mret (inr out) | Digit c1 i =>
d ← digit_at None i;
match d with Padding | Bad => mret (inr out) | Digit c2 i =>
let out := out ++ [u8 (Z.lor (Z.shiftl c1 2) (Z.shiftr (Z.land c2 0x30) 4))] in
d ← digit_at (Some 61) i;
match d with Padding | Bad => mret (inr out) | Digit c3 i =>
let out := out ++ [u8 (Z.lor (Z.shiftl (Z.land c2 0x0f) 4) (Z.shiftr (Z.land c3 0x3c) 2))] in
d ← digit_at (Some 61) i;
match d with Padding | Bad => mret (inr out) | Digit c4 i =>
mret (inl (i, out ++ [u8 (Z.lor (Z.shiftl (Z.land c3 0x03) 6) c4)]))
end end end end.

Definition decode64 : res (list Z) := loop decode64_round (S (Z.to_nat len)) (0, []).
End decode.

Definition base64decode (m : mem) (in_ len : Z) : res (list Z) := decode64 base64val m in_ len.
Definition base64urldecode (m : mem) (in_ len : Z) : res (list Z) := decode64 base64urlval m in_ len.
Definition word64decode (m : mem) (in_ len : Z) : res (list Z) := decode64 word64val m in_ len.

(** ** Bits *)
Definition byte (c : Z) : Prop := 0 ≤ c < 256.

Lemma byte_high a n : byte a → 8 ≤ n → Z.testbit a n = false.
Proof.
  intros Ha Hn. destruct (Z.eq_dec a 0) as [->|]; [apply Z.testbit_0_l|].
  apply Z.bits_above_log2; [unfold byte in *; lia|]. assert (Z.log2 a < 8); [|lia].
  apply Z.log2_lt_pow2; unfold byte in *; lia.
Qed.

Lemma u8_spec z n : 0 ≤ n → Z.testbit (u8 z) n = (n <? 8) && Z.testbit z n.
Proof.
  intros Hn. unfold u8. change 256 with (2 ^ 8). destruct (Z.ltb_spec n 8).
  - by rewrite Z.mod_pow2_bits_low by lia.
  - by rewrite Z.mod_pow2_bits_high by lia.
Qed.

(** Equations between bytes, bit by bit: the eight bits are compared one after the
    other, and the others are zero. *)
Ltac literal_index :=
  repeat match goal with
  | |- context [Z.testbit ?a ?k] =>
      lazymatch k with Z0 => fail | Zpos _ => fail | Zneg _ => fail | _ => idtac end;
      let v := eval vm_compute in k in change (Z.testbit a k) with (Z.testbit a v)
  | |- context [Z.testbit ?a (Zneg ?p)] => rewrite (Z.testbit_neg_r a (Zneg p)) by lia
  end.
Ltac literal_bits :=
  repeat match goal with
  | |- context [Z.testbit (Zpos ?p) ?k] =>
      let b := eval vm_compute in (Z.testbit (Zpos p) k) in change (Z.testbit (Zpos p) k) with b
  | |- context [?x <? ?y] => let b := eval vm_compute in (x <? y) in change (x <? y) with b
  end.
Ltac bit_specs := progress rewrite ?u8_spec, ?Z.lor_spec, ?Z.land_spec, ?Z.shiftl_spec, ?Z.shiftr_spec, ?Z.testbit_0_l by lia.
Ltac high_bits :=
  repeat match goal with |- context [Z.testbit ?a ?k] => rewrite (byte_high a k) by first [assumption | unfold byte; lia] end.
Ltac bitwise :=
  apply Z.bits_inj'; let n := fresh "n" in let Hn := fresh "Hn" in intros n Hn;
  destruct (Z.ltb_spec n 8);
  [ let Hc := fresh in
    assert (Hc : n = 0 ∨ n = 1 ∨ n = 2 ∨ n = 3 ∨ n = 4 ∨ n = 5 ∨ n = 6 ∨ n = 7) by lia; clear Hn;
    destruct Hc as [->|[->|[->|[->|[->|[->|[->| ->]]]]]]];
    repeat (bit_specs; literal_index); literal_bits; high_bits; btauto
  | repeat bit_specs; rewrite ?(proj2 (Z.ltb_ge n 8)) by lia; high_bits; btauto ].

Lemma land_range k x : 0 ≤ k → Z.land x (Z.ones k) = x → 0 ≤ x < 2 ^ k.
Proof. intros Hk <-. rewrite Z.land_ones by done. apply Z.mod_pos_bound. lia. Qed.

Definition bytes (l : list Z) : Prop := Forall byte l.

(** ** Round trips of base 64 *)

(** The digits of three bytes, and what they are put together to. *)
Definition dig1 (a : Z) : Z := Z.shiftr a 2.
Definition dig2 (a b : Z) : Z := Z.lor (Z.land (Z.shiftl a 4) 0x30) (Z.shiftr b 4).
Definition dig3 (b c : Z) : Z := Z.lor (Z.land (Z.shiftl b 2) 0x3c) (Z.shiftr c 6).
Definition dig4 (c : Z) : Z := Z.land c 0x3f.

Ltac digits64 := unfold dig1, dig2, dig3, dig4; bitwise.

Lemma digits_range a b c : byte a → byte b → byte c →
  0 ≤ dig1 a < 64 ∧ 0 ≤ dig2 a b < 64 ∧ 0 ≤ dig3 b c < 64 ∧ 0 ≤ dig4 c < 64.
Proof.
  intros Ha Hb Hc. change 64 with (2 ^ 6). split_and!; apply (land_range 6); try done; change (Z.ones 6) with 63; digits64.
Qed.

Lemma first_byte a b : byte a → byte b →
  u8 (Z.lor (Z.shiftl (dig1 a) 2) (Z.shiftr (Z.land (dig2 a b) 0x30) 4)) = a.
Proof. intros Ha Hb. digits64. Qed.

Lemma second_byte a b c : byte a → byte b → byte c →
  u8 (Z.lor (Z.shiftl (Z.land (dig2 a b) 0x0f) 4) (Z.shiftr (Z.land (dig3 b c) 0x3c) 2)) = b.
Proof. intros Ha Hb Hc. digits64. Qed.

Lemma third_byte b c : byte b → byte c →
  u8 (Z.lor (Z.shiftl (Z.land (dig3 b c) 0x03) 6) (dig4 c)) = c.
Proof. intros Hb Hc. digits64. Qed.

(** What the two tables of a codec have to be. *)
Record codec (digits val : list Z) (pad : Z) : Prop := {
  cd_digit : ∀ d, 0 ≤ d < 64 → at_ val (at_ digits d) = d ∧ at_ digits d ≠ 61;
  cd_pad : pad = 61 ∨ at_ val pad = BAD;
}.

Lemma codec_check digits val pad :
  forallb (λ d, (at_ val (at_ digits d) =? d) && negb (at_ digits d =? 61)) (map Z.of_nat (seq 0 64)) = true →
  (pad =? 61) || (at_ val pad =? BAD) = true → codec digits val pad.
Proof.
  intros Hd Hp. split.
  - intros d Hr. rewrite forallb_forall in Hd. specialize (Hd d). rewrite andb_true_iff, negb_true_iff, Z.eqb_eq, Z.eqb_neq in Hd.
    apply Hd. apply in_map_iff with (f := Z.of_nat). exists (Z.to_nat d). split; [lia|]. apply in_seq. lia.
  - apply orb_true_iff in Hp as [->%Z.eqb_eq|Hp%Z.eqb_eq]; auto.
Qed.

Lemma base64_codec : codec base64digits base64val (ch "=").
Proof. by apply codec_check; vm_compute. Qed.
Lemma base64url_codec : codec base64urldigits base64urlval (ch "=").
Proof. by apply codec_check; vm_compute. Qed.
Lemma word64_codec : codec word64digits word64val (ch "-").
Proof. by apply codec_check; vm_compute. Qed.

Section codec64.
Context (digits val : list Z) (pad : Z).
Hypothesis Hcodec : codec digits val pad.

(** The text of a list of bytes. *)
Fixpoint text64 (l : list Z) : list Z :=
match l with
| a :: b :: c :: l =>
    [at_ digits (dig1 a); at_ digits (dig2 a b); at_ digits (dig3 b c); at_ digits (dig4 c)] ++ text64 l
| [a; b] => [at_ digits (dig1 a); at_ digits (dig2 a b); at_ digits (dig3 b 0); pad]
| [a] => [at_ digits (dig1 a); at_ digits (dig2 a 0); pad; pad]
| [] => []
end.

(** Lists by threes. *)
Lemma list_ind3 (P : list Z → Prop) : P [] → (∀ a, P [a]) → (∀ a b, P [a; b]) →
  (∀ a b c l, P l → P (a :: b :: c :: l)) → ∀ l, P l.
Proof.
  intros P0 P1 P2 P3. assert (Hn : ∀ n l, (length l ≤ n)%nat → P l).
  { induction n as [|n IH]; intros l Hl; [by destruct l; [|cbn in Hl; lia]|].
    destruct l as [|a [|b [|c l]]]; [done|done|done|]. apply P3, IH. cbn in Hl. lia. }
  intros l. by apply (Hn (length l)).
Qed.

Lemma text64_length l : len (text64 l) = 4 * ((len l + 2) / 3).
Proof.
  induction l as [| | |a b c l IH] using list_ind3; [done|done|done|]. cbn [text64]. rewrite len_app, !len_cons, len_nil, IH.
  replace (1 + (1 + (1 + len l)) + 2) with (len l + 2 + 1 * 3) by lia. rewrite Z.div_add by lia. lia.
Qed.

Lemma encode64_at m l : bytes l → ∀ p fuel, bytes_at m p l → (length l < fuel)%nat →
  encode64 digits pad m fuel p (len l) = Ok (text64 l).
Proof.
  induction l as [|a|a b|a b c l IH] using list_ind3; intros Hb p fuel Hat Hf; (destruct fuel as [|fuel]; [lia|]).
  - done.
  - destruct Hat as [Ha _]. cbn [encode64 text64]. change (len [a]) with 1. cbn [Z.leb Z.ltb Z.compare Pos.compare Pos.compare_cont].
    rewrite Ha. cbn [mbind res_bind]. do 3 f_equal.
    apply Forall_cons in Hb as [Hb _]. assert (E : u8 (Z.land (Z.shiftl a 4) 0x30) = dig2 a 0) by digits64. by rewrite E.
  - destruct Hat as (Ha & Hb' & _). cbn [encode64 text64]. change (len [a; b]) with 2.
    cbn [Z.leb Z.ltb Z.compare Pos.compare Pos.compare_cont]. rewrite Ha. cbn [mbind res_bind]. rewrite Hb'. cbn [mbind res_bind].
    do 3 f_equal; [|].
    + apply Forall_cons in Hb as [Hb _]. assert (E : u8 (Z.land (Z.shiftl a 4) 0x30) = Z.land (Z.shiftl a 4) 0x30) by bitwise.
      by rewrite E.
    + f_equal. unfold dig3. change (Z.shiftr 0 6) with 0. by rewrite Z.lor_0_r.
  - destruct Hat as (Ha & Hb' & Hc & Hat). do 3 apply Forall_cons in Hb as [_ Hb].
    cbn [encode64 text64]. rewrite !len_cons. pose proof (len_nonneg l).
    destruct (Z.leb_spec 3 (1 + (1 + (1 + len l)))); [|lia]. rewrite Ha. cbn [mbind res_bind]. rewrite Hb'. cbn [mbind res_bind].
    replace (p + 1 + 1) with (p + 2) in Hc by lia. rewrite Hc. cbn [mbind res_bind].
    replace (1 + (1 + (1 + len l)) - 3) with (len l) by lia. replace (p + 1 + 1 + 1) with (p + 3) in Hat by lia.
    rewrite (IH Hb (p + 3) fuel Hat) by (cbn in Hf; lia). done.
Qed.

(** Reading the digits back. *)
Section decode.
Context (m : mem) (in_ size : Z).

Lemma digit_at_digit o i d : 0 ≤ d < 64 → o = None ∨ o = Some 61 → rd m (in_ + i) = Ok (at_ digits d) →
  digit_at val m in_ size o i = Ok (Digit d (i + 1)).
Proof.
  intros Hd Ho Hr. destruct (cd_digit _ _ _ Hcodec d Hd) as [Hv Hn]. unfold digit_at. cbn [next_digit]. rewrite Hr.
  cbn [mbind res_bind]. rewrite bool_decide_eq_false_2 by (destruct Ho as [->| ->]; congruence). rewrite Hv.
  destruct (Z.eqb_spec d BAD); [unfold BAD in *; lia|done].
Qed.

Lemma round_three i out a b c : bytes [a; b; c] → i < size →
  bytes_at m (in_ + i) [at_ digits (dig1 a); at_ digits (dig2 a b); at_ digits (dig3 b c); at_ digits (dig4 c)] →
  decode64_round val m in_ size (i, out) = Ok (inl (i + 4, out ++ [a; b; c])).
Proof.
  intros Hb Hi (H1 & H2 & H3 & H4 & _). apply Forall_cons in Hb as [Ha Hb]. apply Forall_cons in Hb as [Hb Hc].
  apply Forall_cons in Hc as [Hc _]. destruct (digits_range a b c Ha Hb Hc) as (D1 & D2 & D3 & D4).
  unfold decode64_round. destruct (Z.ltb_spec i size); [|lia]. cbn [negb].
  rewrite (digit_at_digit None i (dig1 a)) by auto. cbn [mbind res_bind].
  rewrite (digit_at_digit None (i + 1) (dig2 a b)) by (auto; by replace (in_ + (i + 1)) with (in_ + i + 1) by lia). cbn [mbind res_bind].
  rewrite first_byte by done.
  rewrite (digit_at_digit (Some 61) (i + 1 + 1) (dig3 b c)) by (auto; by replace (in_ + (i + 1 + 1)) with (in_ + i + 1 + 1) by lia).
  cbn [mbind res_bind]. rewrite second_byte by done.
  rewrite (digit_at_digit (Some 61) (i + 1 + 1 + 1) (dig4 c)) by (auto; by replace (in_ + (i + 1 + 1 + 1)) with (in_ + i + 1 + 1 + 1) by lia).
  cbn [mbind res_bind]. rewrite third_byte by done. rewrite <- !app_assoc. do 3 f_equal. lia.
Qed.

(** The padding at the end is the end. *)
Lemma digit_at_pads i : i < size → (∀ j, i ≤ j < size → rd m (in_ + j) = Ok pad) →
  digit_at val m in_ size (Some 61) i = Ok Padding ∨ digit_at val m in_ size (Some 61) i = Ok Bad.
Proof.
  intros Hi Hp. unfold digit_at. remember (Z.to_nat (size - i)) as n eqn:En. revert i Hi Hp En.
  induction n as [|n IH]; intros i Hi Hp En; [lia|]. cbn [next_digit]. rewrite (Hp i) by lia. cbn [mbind res_bind].
  case_bool_decide as E; [by left|]. destruct (cd_pad _ _ _ Hcodec) as [->|Hpad]; [done|]. rewrite Hpad, Z.eqb_refl.
  destruct (Z.ltb_spec (i + 1) size); [|by right]. apply IH; [done|intros j Hj; apply Hp; lia|lia].
Qed.

Lemma round_two i out a b : bytes [a; b] → size = i + 4 →
  bytes_at m (in_ + i) [at_ digits (dig1 a); at_ digits (dig2 a b); at_ digits (dig3 b 0); pad] →
  decode64_round val m in_ size (i, out) = Ok (inr (out ++ [a; b])).
Proof.
  intros Hb Hi (H1 & H2 & H3 & H4 & _). apply Forall_cons in Hb as [Ha Hb]. apply Forall_cons in Hb as [Hb _].
  destruct (digits_range a b 0 Ha Hb ltac:(done)) as (D1 & D2 & D3 & _).
  unfold decode64_round. destruct (Z.ltb_spec i size); [|lia]. cbn [negb].
  rewrite (digit_at_digit None i (dig1 a)) by auto. cbn [mbind res_bind].
  rewrite (digit_at_digit None (i + 1) (dig2 a b)) by (auto; by replace (in_ + (i + 1)) with (in_ + i + 1) by lia). cbn [mbind res_bind].
  rewrite first_byte by done.
  rewrite (digit_at_digit (Some 61) (i + 1 + 1) (dig3 b 0)) by (auto; by replace (in_ + (i + 1 + 1)) with (in_ + i + 1 + 1) by lia).
  cbn [mbind res_bind]. rewrite second_byte by (done || lia). rewrite <- app_assoc.
  destruct (digit_at_pads (i + 1 + 1 + 1)) as [-> | ->]; try done; [lia|].
  intros j Hj. replace j with (i + 3) by lia. by replace (in_ + (i + 3)) with (in_ + i + 1 + 1 + 1) by lia.
Qed.

Lemma round_one i out a : bytes [a] → size = i + 4 →
  bytes_at m (in_ + i) [at_ digits (dig1 a); at_ digits (dig2 a 0); pad; pad] →
  decode64_round val m in_ size (i, out) = Ok (inr (out ++ [a])).
Proof.
  intros Hb Hi (H1 & H2 & H3 & H4 & _). apply Forall_cons in Hb as [Ha _].
  destruct (digits_range a 0 0 Ha ltac:(done) ltac:(done)) as (D1 & D2 & _).
  unfold decode64_round. destruct (Z.ltb_spec i size); [|lia]. cbn [negb].
  rewrite (digit_at_digit None i (dig1 a)) by auto. cbn [mbind res_bind].
  rewrite (digit_at_digit None (i + 1) (dig2 a 0)) by (auto; by replace (in_ + (i + 1)) with (in_ + i + 1) by lia). cbn [mbind res_bind].
  rewrite first_byte by (done || lia).
  destruct (digit_at_pads (i + 1 + 1)) as [-> | ->]; try done; [lia|].
  intros j Hj. assert (Hc : j = i + 2 ∨ j = i + 3) by lia. destruct Hc as [-> | ->].
  - by replace (in_ + (i + 2)) with (in_ + i + 1 + 1) by lia.
  - by replace (in_ + (i + 3)) with (in_ + i + 1 + 1 + 1) by lia.
Qed.

Lemma decode64_run l : bytes l → ∀ i out, 0 ≤ i → bytes_at m (in_ + i) (text64 l) → size = i + len (text64 l) →
  lands (decode64_round val m in_ size) (λ s, size - s.1) (i, out) (out ++ l).
Proof.
  induction l as [|a|a b|a b c l IH] using list_ind3; intros Hb i out Hi Hat Hs.
  - change (len (text64 [])) with 0 in Hs. rewrite app_nil_r. apply lands_done; [|cbn [fst]; lia].
    unfold decode64_round. destruct (Z.ltb_spec i size); [lia|done].
  - apply lands_done; [|cbn [fst]; change (len (text64 [a])) with 4 in Hs; lia]. by apply round_one.
  - apply lands_done; [|cbn [fst]; change (len (text64 [a; b])) with 4 in Hs; lia]. by apply round_two.
  - cbn [text64] in *. rewrite len_app in Hs. pose proof (len_nonneg (text64 l)).
    change (len [at_ digits (dig1 a); at_ digits (dig2 a b); at_ digits (dig3 b c); at_ digits (dig4 c)]) with 4 in Hs.
    pose proof Hat as Hat4. apply bytes_at_app in Hat as [H4 _]. apply bytes_at_from in Hat4.
    change (len [at_ digits (dig1 a); at_ digits (dig2 a b); at_ digits (dig3 b c); at_ digits (dig4 c)]) with 4 in Hat4.
    change (a :: b :: c :: l) with ([a; b; c] ++ l) in Hb |- *. apply Forall_app in Hb as [Hb3 Hb].
    eapply lands_next; [apply round_three; [exact Hb3|lia|exact H4]|cbn [fst]; lia|cbn [fst]; lia|].
    rewrite app_assoc. apply IH; [done|lia|by rewrite Z.add_assoc|lia].
Qed.

Lemma decode64_at l : bytes l → bytes_at m in_ (text64 l) → size = len (text64 l) → decode64 val m in_ size = Ok l.
Proof.
  intros Hb Hat Hs. unfold decode64. apply (decode64_run l Hb 0 []); [lia|by rewrite Z.add_0_r|lia|cbn [fst]; lia].
Qed.
End decode.
End codec64.

(** ** Base 32 *)
Section encode32.
Context (m : mem) (pad_char : Z).

Let dg (i : Z) : Z := at_ base32digits i.

(** The digits of the last bytes, without the padding; a byte that is not there does
  not count. *)
Definition tail32 (inlen a b c d : Z) : list Z :=
let fragment := u8 (Z.land (Z.shiftl a 2) 0x1c) in
let fragment := if 1 <? inlen then Z.lor fragment (Z.shiftr b 6) else fragment in
[dg (Z.shiftr a 3); dg fragment] ++
if inlen <? 2 then [] else
let fragment := u8 (Z.land (Z.shiftl b 4) 0x10) in
let fragment := if 2 <? inlen then Z.lor fragment (Z.shiftr c 4) else fragment in
[dg (Z.land (Z.shiftr b 1) 0x1f); dg fragment] ++
if inlen <? 3 then [] else
let fragment := u8 (Z.land (Z.shiftl c 1) 0x1e) in
let fragment := if 3 <? inlen then Z.lor fragment (Z.shiftr d 7) else fragment in
[dg fragment] ++
if inlen <? 4 then [] else
[dg (Z.land (Z.shiftr d 2) 0x1f); dg (Z.land (Z.shiftl d 3) 0x18)].

(** [switch (inlen)], every case falling through. *)
Definition pads32 (inlen : Z) : list Z :=
(if inlen =? 1 then [pad_char; pad_char] else []) ++
(if (inlen =? 1) || (inlen =? 2) then [pad_char] else []) ++
(if (inlen =? 1) || (inlen =? 2) || (inlen =? 3) then [pad_char; pad_char] else []) ++
[pad_char].

Fixpoint encode32 (fuel : nat) (p inlen : Z) : res (list Z) :=
match fuel with
| O => OutOfFuel
| S fuel =>
    if 5 <=? inlen then
      a ← rd m p; b ← rd m (p + 1); c ← rd m (p + 2); d ← rd m (p + 3); e ← rd m (p + 4);
      rest ← encode32 fuel (p + 5) (inlen - 5);
      mret ([dg (Z.shiftr a 3);
             dg (Z.lor (Z.land (Z.shiftl a 2) 0x1c) (Z.shiftr b 6));
             dg (Z.land (Z.shiftr b 1) 0x1f);
             dg (Z.lor (Z.land (Z.shiftl b 4) 0x10) (Z.shiftr c 4));
             dg (Z.lor (Z.land (Z.shiftl c 1) 0x1e) (Z.shiftr d 7));
             dg (Z.land (Z.shiftr d 2) 0x1f);
             dg (Z.lor (Z.land (Z.shiftl d 3) 0x18) (Z.shiftr e 5));
             dg (Z.land e 0x1f)] ++ rest)
    else if 0 <? inlen then
      a ← rd m p;
      b ← (if 1 <? inlen then rd m (p + 1) else mret 0);
      c ← (if 2 <? inlen then rd m (p + 2) else mret 0);
      d ← (if 3 <? inlen then rd m (p + 3) else mret 0);
      mret (tail32 inlen a b c d ++ pads32 inlen)
    else mret []
end.
End encode32.

Definition _base32encode (m : mem) (in_ inlen pad_char : Z) : res (list Z) :=
  encode32 m pad_char (S (Z.to_nat inlen)) in_ inlen.

Section decode32.
Context (m : mem) (in_ len pad_char : Z).

(** The next digit, or the return. *)
Definition with_digit (pad : option Z) (i : Z) (out : list Z) (k : Z → Z → res (Z * list Z + list Z)) :
  res (Z * list Z + list Z) :=
d ← digit_at base32val m in_ len pad i;
match d with Digit c i => k c i | Padding | Bad => mret (inr out) end.

Definition decode32_round (s : Z * list Z) : res (Z * list Z + list Z) :=
let '(i, out) := s in
if negb (i <? len) then mret (inr out) else
with_digit None i out (λ c1 i,
with_digit None i out (λ c2 i,
let out := out ++ [u8 (Z.lor (Z.shiftl c1 3) (Z.shiftr (Z.land c2 0x1c) 2))] in
with_digit (Some pad_char) i out (λ c3 i,
with_digit (Some pad_char) i out (λ c4 i,
let out := out ++ [u8 (Z.lor (Z.lor (Z.shiftl (Z.land c2 0x03) 6) (Z.shiftl c3 1)) (Z.shiftr (Z.land c4 0x10) 4))] in
with_digit (Some pad_char) i out (λ c5 i,
let out := out ++ [u8 (Z.lor (Z.shiftl (Z.land c4 0x0f) 4) (Z.shiftr (Z.land c5 0x1e) 1))] in
with_digit (Some pad_char) i out (λ c6 i,
with_digit (Some pad_char) i out (λ c7 i,
let out := out ++ [u8 (Z.lor (Z.lor (Z.shiftl (Z.land c5 0x01) 7) (Z.shiftl c6 2)) (Z.shiftr (Z.land c7 0x18) 3))] in
with_digit (Some pad_char) i out (λ c8 i,
mret (inl (i, out ++ [u8 (Z.lor (Z.shiftl (Z.land c7 0x07) 5) c8)]))
)))))))).
End decode32.

Definition _base32decode (m : mem) (in_ len pad_char : Z) : res (list Z) :=
  loop (decode32_round m in_ len pad_char) (S (Z.to_nat len)) (0, []).

(** ** Round trips of base 32 *)
Definition e1 (a : Z) : Z := Z.shiftr a 3.
Definition e2 (a b : Z) : Z := Z.lor (Z.land (Z.shiftl a 2) 0x1c) (Z.shiftr b 6).
Definition e3 (b : Z) : Z := Z.land (Z.shiftr b 1) 0x1f.
Definition e4 (b c : Z) : Z := Z.lor (Z.land (Z.shiftl b 4) 0x10) (Z.shiftr c 4).
Definition e5 (c d : Z) : Z := Z.lor (Z.land (Z.shiftl c 1) 0x1e) (Z.shiftr d 7).
Definition e7 (d e : Z) : Z := Z.lor (Z.land (Z.shiftl d 3) 0x18) (Z.shiftr e 5).
Definition e6 (d : Z) : Z := Z.land (Z.shiftr d 2) 0x1f.
Definition e8 (e : Z) : Z := Z.land e 0x1f.

Ltac digits32 := unfold e1, e2, e3, e4, e5, e6, e7, e8; bitwise.

Lemma digits_range32 a b : byte a → byte b →
  0 ≤ e1 a < 32 ∧ 0 ≤ e2 a b < 32 ∧ 0 ≤ e3 a < 32 ∧ 0 ≤ e4 a b < 32 ∧
  0 ≤ e5 a b < 32 ∧ 0 ≤ e6 a < 32 ∧ 0 ≤ e7 a b < 32 ∧ 0 ≤ e8 a < 32.
Proof.
  intros Ha Hb. change 32 with (2 ^ 5). split_and!; apply (land_range 5); try done; change (Z.ones 5) with 31; digits32.
Qed.

Section bytes32.
Context (a b c d e : Z).
Hypothesis Ha : byte a.
Hypothesis Hb : byte b.
Hypothesis Hc : byte c.
Hypothesis Hd : byte d.
Hypothesis He : byte e.

Lemma byte32_1 : u8 (Z.lor (Z.shiftl (e1 a) 3) (Z.shiftr (Z.land (e2 a b) 0x1c) 2)) = a.
Proof. digits32. Qed.

Lemma byte32_2 : u8 (Z.lor (Z.lor (Z.shiftl (Z.land (e2 a b) 0x03) 6) (Z.shiftl (e3 b) 1)) (Z.shiftr (Z.land (e4 b c) 0x10) 4)) = b.
Proof. digits32. Qed.

Lemma byte32_3 : u8 (Z.lor (Z.shiftl (Z.land (e4 b c) 0x0f) 4) (Z.shiftr (Z.land (e5 c d) 0x1e) 1)) = c.
Proof. digits32. Qed.

Lemma byte32_4 : u8 (Z.lor (Z.lor (Z.shiftl (Z.land (e5 c d) 0x01) 7) (Z.shiftl (e6 d) 2)) (Z.shiftr (Z.land (e7 d e) 0x18) 3)) = d.
Proof. digits32. Qed.

Lemma byte32_5 : u8 (Z.lor (Z.shiftl (Z.land (e7 d e) 0x07) 5) (e8 e)) = e.
Proof. digits32. Qed.
End bytes32.

Section codec32.
Context (pad : Z).
Hypothesis Hpad : at_ base32val pad = BAD.

Definition dg32 (i : Z) : Z := at_ base32digits i.

Lemma digit32 i : 0 ≤ i < 32 → at_ base32val (dg32 i) = i ∧ dg32 i ≠ pad.
Proof.
  intros Hi.
  assert (Hall : forallb (λ d, at_ base32val (dg32 d) =? d) (map Z.of_nat (seq 0 32)) = true) by by vm_compute.
  rewrite forallb_forall in Hall. specialize (Hall i). rewrite Z.eqb_eq in Hall.
  assert (E : at_ base32val (dg32 i) = i).
  { apply Hall. apply in_map_iff with (f := Z.of_nat). exists (Z.to_nat i). split; [lia|]. apply in_seq. lia. }
  split; [done|]. intros Ep. rewrite Ep, Hpad in E. unfold BAD in E. lia.
Qed.

(** The text of a list of bytes. *)
Fixpoint text32 (l : list Z) : list Z :=
match l with
| a :: b :: c :: d :: e :: l =>
    map dg32 [e1 a; e2 a b; e3 b; e4 b c; e5 c d; e6 d; e7 d e; e8 e] ++ text32 l
| [a; b; c; d] => map dg32 [e1 a; e2 a b; e3 b; e4 b c; e5 c d; e6 d; e7 d 0] ++ [pad]
| [a; b; c] => map dg32 [e1 a; e2 a b; e3 b; e4 b c; e5 c 0] ++ replicate 3 pad
| [a; b] => map dg32 [e1 a; e2 a b; e3 b; e4 b 0] ++ replicate 4 pad
| [a] => map dg32 [e1 a; e2 a 0] ++ replicate 6 pad
| [] => []
end.

(** Lists by fives. *)
Lemma list_ind5 (P : list Z → Prop) : P [] → (∀ a, P [a]) → (∀ a b, P [a; b]) → (∀ a b c, P [a; b; c]) →
  (∀ a b c d, P [a; b; c; d]) → (∀ a b c d e l, P l → P (a :: b :: c :: d :: e :: l)) → ∀ l, P l.
Proof.
  intros P0 P1 P2 P3 P4 P5. assert (Hn : ∀ n l, (length l ≤ n)%nat → P l).
  { induction n as [|n IH]; intros l Hl; [by destruct l; [|cbn in Hl; lia]|].
    destruct l as [|a [|b [|c [|d [|e l]]]]]; [done|done|done|done|done|]. apply P5, IH. cbn in Hl. lia. }
  intros l. by apply (Hn (length l)).
Qed.

Lemma text32_length l : len (text32 l) = 8 * ((len l + 4) / 5).
Proof.
  induction l as [| | | | |a b c d e l IH] using list_ind5; [done..|]. cbn [text32]. rewrite len_app, !len_cons, IH.
  change (len (map dg32 _)) with 8.
  replace (1 + (1 + (1 + (1 + (1 + len l)))) + 4) with (len l + 4 + 1 * 5) by lia. rewrite Z.div_add by lia. lia.
Qed.

Lemma fragment32 a : byte a →
  u8 (Z.land (Z.shiftl a 2) 0x1c) = e2 a 0 ∧ u8 (Z.land (Z.shiftl a 4) 0x10) = e4 a 0 ∧ u8 (Z.land (Z.shiftl a 1) 0x1e) = e5 a 0 ∧
  Z.land (Z.shiftl a 3) 0x18 = e7 a 0.
Proof. intros Ha. split_and!; digits32. Qed.

Lemma fragment32_or a b :
  Z.lor (e2 a 0) (Z.shiftr b 6) = e2 a b ∧ Z.lor (e4 a 0) (Z.shiftr b 4) = e4 a b ∧ Z.lor (e5 a 0) (Z.shiftr b 7) = e5 a b.
Proof.
  unfold e2, e4, e5. change (Z.shiftr 0 6) with 0. change (Z.shiftr 0 4) with 0. change (Z.shiftr 0 7) with 0.
  by rewrite !Z.lor_0_r.
Qed.

(** The last bytes, and the text of their digits. *)
Lemma tail32_1 a : byte a → tail32 1 a 0 0 0 ++ pads32 pad 1 = text32 [a].
Proof. intros Ha. unfold tail32. cbn -[Z.land Z.lor Z.shiftl Z.shiftr]. destruct (fragment32 a Ha) as (-> & _). done. Qed.

Lemma tail32_2 a b : byte a → byte b → tail32 2 a b 0 0 ++ pads32 pad 2 = text32 [a; b].
Proof.
  intros Ha Hb. unfold tail32. cbn -[Z.land Z.lor Z.shiftl Z.shiftr]. destruct (fragment32 a Ha) as (-> & _).
  destruct (fragment32 b Hb) as (_ & -> & _). destruct (fragment32_or a b) as (-> & _). done.
Qed.

Lemma tail32_3 a b c : byte a → byte b → byte c → tail32 3 a b c 0 ++ pads32 pad 3 = text32 [a; b; c].
Proof.
  intros Ha Hb Hc. unfold tail32. cbn -[Z.land Z.lor Z.shiftl Z.shiftr]. destruct (fragment32 a Ha) as (-> & _).
  destruct (fragment32 b Hb) as (_ & -> & _). destruct (fragment32 c Hc) as (_ & _ & -> & _).
  destruct (fragment32_or a b) as (-> & _). destruct (fragment32_or b c) as (_ & -> & _). done.
Qed.

Lemma tail32_4 a b c d : byte a → byte b → byte c → byte d → tail32 4 a b c d ++ pads32 pad 4 = text32 [a; b; c; d].
Proof.
  intros Ha Hb Hc Hd. unfold tail32. cbn -[Z.land Z.lor Z.shiftl Z.shiftr]. destruct (fragment32 a Ha) as (-> & _).
  destruct (fragment32 b Hb) as (_ & -> & _). destruct (fragment32 c Hc) as (_ & _ & -> & _). destruct (fragment32 d Hd) as (_ & _ & _ & ->).
  destruct (fragment32_or a b) as (-> & _). destruct (fragment32_or b c) as (_ & -> & _). destruct (fragment32_or c d) as (_ & _ & ->). done.
Qed.

Lemma encode32_at m l : bytes l → ∀ p fuel, bytes_at m p l → (length l < fuel)%nat →
  encode32 m pad fuel p (len l) = Ok (text32 l).
Proof.
  induction l as [|a|a b|a b c|a b c d|a b c d e l IH] using list_ind5; intros Hl p fuel Hat Hf;
    (destruct fuel as [|fuel]; [lia|]); unfold bytes in Hl; rewrite ?Forall_cons in Hl;
    cbn [bytes_at] in Hat;
    replace (p + 1 + 1) with (p + 2) in Hat by lia; replace (p + 2 + 1) with (p + 3) in Hat by lia;
    replace (p + 3 + 1) with (p + 4) in Hat by lia; replace (p + 4 + 1) with (p + 5) in Hat by lia;
    cbn [encode32].
  - done.
  - destruct Hat as (-> & _). change (len [a]) with 1. cbn [mbind res_bind Z.leb Z.ltb Z.compare Pos.compare Pos.compare_cont].
    destruct Hl as (Ha & _). rewrite <- tail32_1 by done. done.
  - destruct Hat as (-> & Hb & _). change (len [a; b]) with 2. cbn [mbind res_bind Z.leb Z.ltb Z.compare Pos.compare Pos.compare_cont].
    rewrite Hb. destruct Hl as (Ha & Hb' & _). rewrite <- tail32_2 by done. done.
  - destruct Hat as (-> & Hb & Hc & _). change (len [a; b; c]) with 3.
    cbn [mbind res_bind Z.leb Z.ltb Z.compare Pos.compare Pos.compare_cont]. rewrite Hb. cbn [mbind res_bind]. rewrite Hc.
    destruct Hl as (Ha & Hb' & Hc' & _). rewrite <- tail32_3 by done. done.
  - destruct Hat as (-> & Hb & Hc & Hd & _). change (len [a; b; c; d]) with 4.
    cbn [mbind res_bind Z.leb Z.ltb Z.compare Pos.compare Pos.compare_cont]. rewrite Hb. cbn [mbind res_bind]. rewrite Hc.
    cbn [mbind res_bind]. rewrite Hd. destruct Hl as (Ha & Hb' & Hc' & Hd' & _). rewrite <- tail32_4 by done. done.
  - destruct Hat as (-> & Hb & Hc & Hd & He & Hat). rewrite !len_cons. pose proof (len_nonneg l).
    destruct (Z.leb_spec 5 (1 + (1 + (1 + (1 + (1 + len l)))))); [|lia]. cbn [mbind res_bind]. rewrite Hb. cbn [mbind res_bind]. rewrite Hc.
    cbn [mbind res_bind]. rewrite Hd. cbn [mbind res_bind]. rewrite He. cbn [mbind res_bind].
    replace (1 + (1 + (1 + (1 + (1 + len l)))) - 5) with (len l) by lia.
    destruct Hl as (_ & _ & _ & _ & _ & Hl). rewrite (IH Hl (p + 5) fuel Hat) by (cbn in Hf; lia). done.
Qed.

(** Reading the digits back. *)
Section decode.
Context (m : mem) (in_ size : Z).

Lemma with_digit_at o i j out d k : 0 ≤ d < 32 → o = None ∨ o = Some pad → rd m (in_ + i) = Ok (dg32 d) → j = i + 1 →
  with_digit m in_ size o i out k = k d j.
Proof.
  intros Hd Ho Hr ->. destruct (digit32 d Hd) as [Hv Hn]. unfold with_digit, digit_at. cbn [next_digit]. rewrite Hr.
  cbn [mbind res_bind]. rewrite bool_decide_eq_false_2 by (destruct Ho as [->| ->]; congruence). rewrite Hv.
  destruct (Z.eqb_spec d BAD); [unfold BAD in *; lia|done].
Qed.

Lemma with_digit_pad i out k : rd m (in_ + i) = Ok pad → with_digit m in_ size (Some pad) i out k = Ok (inr out).
Proof.
  intros Hr. unfold with_digit, digit_at. cbn [next_digit]. rewrite Hr. cbn [mbind res_bind].
  by rewrite bool_decide_eq_true_2.
Qed.

(** The next digit is [d], and lies at [i + n]. *)
Ltac a_digit n d :=
  rewrite (with_digit_at _ _ (n + 1) _ d) by
    (auto; match goal with
           | |- rd _ _ = _ => match goal with Hat : rd m ?q = Ok (dg32 d) |- _ => replace (in_ + n) with q by lia; exact Hat end
           | |- _ => lia end).

Ltac a_pad n := rewrite (with_digit_pad n) by
  (match goal with Hat : rd m ?q = Ok pad |- _ => replace (in_ + n) with q by lia; exact Hat end).

Lemma round32_five i out a b c d e : bytes [a; b; c; d; e] → i < size →
  bytes_at m (in_ + i) (map dg32 [e1 a; e2 a b; e3 b; e4 b c; e5 c d; e6 d; e7 d e; e8 e]) →
  decode32_round m in_ size pad (i, out) = Ok (inl (i + 8, out ++ [a; b; c; d; e])).
Proof.
  unfold bytes. rewrite !Forall_cons. intros (Ha & Hb & Hc & Hd & He & _) Hi (H1 & H2 & H3 & H4 & H5 & H6 & H7 & H8 & _).
  destruct (digits_range32 a b Ha Hb) as (D1 & D2 & _). destruct (digits_range32 b c Hb Hc) as (_ & _ & D3 & D4 & _).
  destruct (digits_range32 c d Hc Hd) as (_ & _ & _ & _ & D5 & _). destruct (digits_range32 d e Hd He) as (_ & _ & _ & _ & _ & D6 & D7 & _).
  destruct (digits_range32 e e He He) as (_ & _ & _ & _ & _ & _ & _ & D8).
  unfold decode32_round. destruct (Z.ltb_spec i size); [|lia]. cbn [negb].
  a_digit i (e1 a). a_digit (i + 1) (e2 a b). cbv zeta. rewrite byte32_1 by done.
  a_digit (i + 1 + 1) (e3 b). a_digit (i + 1 + 1 + 1) (e4 b c). cbv zeta. rewrite byte32_2 by done.
  a_digit (i + 1 + 1 + 1 + 1) (e5 c d). cbv zeta. rewrite byte32_3 by done.
  a_digit (i + 1 + 1 + 1 + 1 + 1) (e6 d). a_digit (i + 1 + 1 + 1 + 1 + 1 + 1) (e7 d e). cbv zeta. rewrite byte32_4 by done.
  a_digit (i + 1 + 1 + 1 + 1 + 1 + 1 + 1) (e8 e). rewrite byte32_5 by done. rewrite <- !app_assoc. do 3 f_equal. lia.
Qed.

(** The last bytes: the first padding is the end. *)
Lemma round32_tail i out l : bytes l → (0 < length l < 5)%nat → i < size → bytes_at m (in_ + i) (text32 l) →
  decode32_round m in_ size pad (i, out) = Ok (inr (out ++ l)).
Proof.
  unfold bytes. intros Hl Hn Hi Hat. assert (H0 : byte 0) by done.
  destruct l as [|a [|b [|c [|d [|]]]]]; cbn in Hn; try lia; rewrite ?Forall_cons in Hl; cbn [text32 map app replicate bytes_at] in Hat;
    unfold decode32_round; (destruct (Z.ltb_spec i size); [|lia]); cbn [negb].
  - destruct Hl as (Ha & _). destruct Hat as (H1 & H2 & H3 & _). destruct (digits_range32 a 0 Ha H0) as (D1 & D2 & _).
    a_digit i (e1 a). a_digit (i + 1) (e2 a 0). cbv zeta. rewrite byte32_1 by done. by a_pad (i + 1 + 1).
  - destruct Hl as (Ha & Hb & _). destruct Hat as (H1 & H2 & H3 & H4 & H5 & _).
    destruct (digits_range32 a b Ha Hb) as (D1 & D2 & _). destruct (digits_range32 b 0 Hb H0) as (_ & _ & D3 & D4 & _).
    a_digit i (e1 a). a_digit (i + 1) (e2 a b). cbv zeta. rewrite byte32_1 by done.
    a_digit (i + 1 + 1) (e3 b). a_digit (i + 1 + 1 + 1) (e4 b 0). cbv zeta. rewrite byte32_2 by done.
    a_pad (i + 1 + 1 + 1 + 1). by rewrite <- !app_assoc.
  - destruct Hl as (Ha & Hb & Hc & _). destruct Hat as (H1 & H2 & H3 & H4 & H5 & H6 & _).
    destruct (digits_range32 a b Ha Hb) as (D1 & D2 & _). destruct (digits_range32 b c Hb Hc) as (_ & _ & D3 & D4 & _).
    destruct (digits_range32 c 0 Hc H0) as (_ & _ & _ & _ & D5 & _).
    a_digit i (e1 a). a_digit (i + 1) (e2 a b). cbv zeta. rewrite byte32_1 by done.
    a_digit (i + 1 + 1) (e3 b). a_digit (i + 1 + 1 + 1) (e4 b c). cbv zeta. rewrite byte32_2 by done.
    a_digit (i + 1 + 1 + 1 + 1) (e5 c 0). cbv zeta. rewrite byte32_3 by done.
    a_pad (i + 1 + 1 + 1 + 1 + 1). by rewrite <- !app_assoc.
  - destruct Hl as (Ha & Hb & Hc & Hd & _). destruct Hat as (H1 & H2 & H3 & H4 & H5 & H6 & H7 & H8 & _).
    destruct (digits_range32 a b Ha Hb) as (D1 & D2 & _). destruct (digits_range32 b c Hb Hc) as (_ & _ & D3 & D4 & _).
    destruct (digits_range32 c d Hc Hd) as (_ & _ & _ & _ & D5 & _). destruct (digits_range32 d 0 Hd H0) as (_ & _ & _ & _ & _ & D6 & D7 & _).
    a_digit i (e1 a). a_digit (i + 1) (e2 a b). cbv zeta. rewrite byte32_1 by done.
    a_digit (i + 1 + 1) (e3 b). a_digit (i + 1 + 1 + 1) (e4 b c). cbv zeta. rewrite byte32_2 by done.
    a_digit (i + 1 + 1 + 1 + 1) (e5 c d). cbv zeta. rewrite byte32_3 by done.
    a_digit (i + 1 + 1 + 1 + 1 + 1) (e6 d). a_digit (i + 1 + 1 + 1 + 1 + 1 + 1) (e7 d 0). cbv zeta. rewrite byte32_4 by done.
    a_pad (i + 1 + 1 + 1 + 1 + 1 + 1 + 1). by rewrite <- !app_assoc.
Qed.

Lemma decode32_run l : bytes l → ∀ i out, 0 ≤ i → bytes_at m (in_ + i) (text32 l) → size = i + len (text32 l) →
  lands (decode32_round m in_ size pad) (λ s, size - s.1) (i, out) (out ++ l).
Proof.
  assert (Htail : ∀ k i out, bytes k → (0 < length k < 5)%nat → 0 ≤ i → bytes_at m (in_ + i) (text32 k) → i + 8 = size →
    lands (decode32_round m in_ size pad) (λ s, size - s.1) (i, out) (out ++ k)).
  { intros k i out Hk Hn Hi Hat Hs. apply lands_done; [|cbn [fst]; lia]. apply round32_tail; [done|done|lia|done]. }
  induction l as [|a|a b|a b c|a b c d|a b c d e l IH] using list_ind5; intros Hb i out Hi Hat Hs;
    try (apply Htail; [done|cbn; lia|done|done|rewrite Hs; done]).
  - change (len (text32 [])) with 0 in Hs. rewrite app_nil_r. apply lands_done; [|cbn [fst]; lia].
    unfold decode32_round. destruct (Z.ltb_spec i size); [lia|done].
  - cbn [text32] in *. rewrite len_app in Hs. pose proof (len_nonneg (text32 l)). change (len (map dg32 _)) with 8 in Hs.
    pose proof Hat as Hat8. apply bytes_at_app in Hat as [H8 _]. apply bytes_at_from in Hat8. change (len (map dg32 _)) with 8 in Hat8.
    change (a :: b :: c :: d :: e :: l) with ([a; b; c; d; e] ++ l) in Hb |- *. apply Forall_app in Hb as [Hb5 Hb].
    eapply lands_next; [apply round32_five; [exact Hb5|lia|exact H8]|cbn [fst]; lia|cbn [fst]; lia|].
    rewrite app_assoc. apply IH; [done|lia|by rewrite Z.add_assoc|lia].
Qed.

Lemma decode32_at l : bytes l → bytes_at m in_ (text32 l) → size = len (text32 l) → _base32decode m in_ size pad = Ok l.
Proof.
  intros Hb Hat Hs. unfold _base32decode. apply (decode32_run l Hb 0 []); [lia|by rewrite Z.add_0_r|lia|cbn [fst]; lia].
Qed.
End decode.
End codec32.

(** ** Properties *)

(** C30: each of the four codecs decodes what it encodes, for every sequence of bytes,
    wherever the two texts lie in memory: the decoder yields the same bytes, and
    the text has four digits for every three bytes begun (eight for every five), so
    that the buffer of the right length is filled and no character behind the text is read. *)
Theorem base_roundtrip l m p :
  bytes l → bytes_at m p l →
  Forall (λ codec : (mem → Z → Z → res (list Z)) * (mem → Z → Z → res (list Z)) * (Z → Z),
    let '(encode, decode, size) := codec in
    ∃ text, encode m p (len l) = Ok text ∧ len text = size (len l) ∧
      ∀ m' q, bytes_at m' q text → decode m' q (len text) = Ok l)
  ([(base64encode, base64decode, λ n, 4 * ((n + 2) / 3));
    (base64urlencode, base64urldecode, λ n, 4 * ((n + 2) / 3));
    (word64encode, word64decode, λ n, 4 * ((n + 2) / 3))] ++
   map (λ pad, (λ m p n, _base32encode m p n pad, λ m p n, _base32decode m p n pad, λ n, 8 * ((n + 4) / 5)))
     (List.filter (λ pad, at_ base32val pad =? BAD) (map Z.of_nat (seq 0 256)))).
Proof.
  intros Hl Hat. assert (Hfuel : ∀ k : list Z, (length k < S (Z.to_nat (len k)))%nat) by (intros k; unfold len; lia).
  apply Forall_app. split.
  - assert (H64 : ∀ digits val pad, codec digits val pad → ∃ text,
      encode64 digits pad m (S (Z.to_nat (len l))) p (len l) = Ok text ∧ len text = 4 * ((len l + 2) / 3) ∧
      ∀ m' q, bytes_at m' q text → decode64 val m' q (len text) = Ok l).
    { intros digits val pad Hc. exists (text64 digits pad l). split; [by apply encode64_at|]. split; [apply text64_length|].
      intros m' q Hq. by apply (decode64_at digits val pad Hc). }
    repeat constructor; [apply (H64 _ _ _ base64_codec)|apply (H64 _ _ _ base64url_codec)|apply (H64 _ _ _ word64_codec)].
  - apply List.Forall_forall. intros x (pad & <- & [_ Hpad%Z.eqb_eq]%filter_In)%in_map_iff. exists (text32 pad l).
    split; [by apply encode32_at|]. split; [apply text32_length|]. intros m' q Hq. by apply decode32_at.
Qed.

Lemma base_roundtrip_witness :
  let l := [0; 255; 16; 131] in
  Forall (λ codec : (mem → Z → Z → res (list Z)) * (mem → Z → Z → res (list Z)) * (Z → Z),
    let '(encode, decode, size) := codec in
    ∃ text, encode (block l) 4096 (len l) = Ok text ∧ len text = size (len l) ∧
      ∀ m' q, bytes_at m' q text → decode m' q (len text) = Ok l)
  ([(base64encode, base64decode, λ n, 4 * ((n + 2) / 3));
    (base64urlencode, base64urldecode, λ n, 4 * ((n + 2) / 3));
    (word64encode, word64decode, λ n, 4 * ((n + 2) / 3))] ++
   map (λ pad, (λ m p n, _base32encode m p n pad, λ m p n, _base32decode m p n pad, λ n, 8 * ((n + 4) / 5)))
     (List.filter (λ pad, at_ base32val pad =? BAD) (map Z.of_nat (seq 0 256)))).
Proof. apply (base_roundtrip [0; 255; 16; 131]); [|apply block_bytes]. by repeat constructor. Defined.

(** A text that is cut off is read beyond its end: of the digits that are missing up to
    three are taken from what follows. *)
Lemma base64_overrun :
  base64decode (block (chars "QUJD")) 4096 1 = Ok (chars "ABC") ∧
  base64decode (block (chars "Q")) 4096 1 = Fault 4097.
Proof. by vm_compute. Qed.
