(* ===== verification/Numbers.v ===== *)
(** * Numbers and strings (ut.h)

    The conversions between numbers and texts, and the comparisons and searches
    of strings.  Functions that look at no character beyond their strings take the
    characters as lists; a null pointer is [None]. *)

From stdpp Require Import strings.
From S2P Require Export ParserF.

(** ** Decimal *)

(** [btostr]: the characters written. *)
Definition btostr (val : Z) : list Z :=
  let a := val / 100 in
  let b := val mod 100 / 10 in
  (if a =? 0 then [] else [a + ch "0"]) ++
  (if negb (b =? 0) || negb (a =? 0) then [b + ch "0"] else []) ++
  [ch "0" + val mod 10].

Definition INT2STR_MAX_LEN : Z := 1 + 19 + 1 + 1.

(** [do { s[i]=l%10+'0'; i--; l/=10; } while (l && (i>=0))]: the index and the
    characters behind it. *)
Fixpoint int2bstr_loop (fuel : nat) (i l : Z) (s : list Z) : Z * list Z :=
  match fuel with
  | O => (i, s)
  | S fuel =>
      let s := (l mod 10 + ch "0") :: s in
      let i := i - 1 in
      let l := l / 10 in
      if negb (l =? 0) && (0 <=? i) then int2bstr_loop fuel i l s else (i, s)
  end.

(** The index of the first character in the buffer, the characters before the NUL,
    and [*len]. *)
Definition int2bstr (l : Z) : Z * list Z * Z :=
  let '(i, s) := int2bstr_loop (Z.to_nat (INT2STR_MAX_LEN - 1)) (INT2STR_MAX_LEN - 2) l [] in
  (i + 1, s, INT2STR_MAX_LEN - 2 - i).

Definition INT2STR_BUF_NO : Z := 7.

(** [int2str]: the static counter and the buffers are the state; the number of the
    buffer, the index in it, and [*len]. *)
Record int2str_state := Int2str { it : Z; int2str_buf : Z → list Z }.

Definition set_buf (i : Z) (s : list Z) (b : Z → list Z) : Z → list Z := λ j, if j =? i then s else b j.

Definition int2str (st : int2str_state) (l : Z) : int2str_state * (Z * Z * Z) :=
  let n := if it st + 1 =? INT2STR_BUF_NO then 0 else it st + 1 in
  let '(p, s, n') := int2bstr l in
  (Int2str n (set_buf n s (int2str_buf st)), (n, p, n')).

(** [sint2str]: a minus sign is written before the digits. *)
Definition sint2str (st : int2str_state) (l : Z) : int2str_state * (Z * Z * Z) :=
  let sign := l <? 0 in
  let l := if sign then - l else l in
  let '(st, (n, p, n')) := int2str st (l mod 2 ^ 64) in
  if sign then (Int2str (it st) (set_buf n (ch "-" :: int2str_buf st n) (int2str_buf st)), (n, p - 1, n' + 1))
  else (st, (n, p, n')).

(** [str2short], [str2int] and [str2int64] differ in the type of the result, that is
    in [wrap]: the return value and [*_r]. *)
Section str2num.
Context (wrap : Z → Z).

Fixpoint str2num_loop (l : list Z) (r : Z) : Z * Z :=
match l with
| [] => (0, r)
| c :: l =>
    if is_digit c then str2num_loop l (wrap (wrap (r * 10) + (c - ch "0"))) else (-1, r)
end.

Definition str2num (s : option (list Z)) : option (Z * Z) :=
match s with
| None | Some [] => None
| Some l => Some (str2num_loop l 0)
end.
End str2num.

(** [None]: -1, and [*_r] is not touched. *)
Definition str2short (s : option (list Z)) : option (Z * Z) := str2num to_ushort s.
Definition str2int (s : option (list Z)) : option (Z * Z) := str2num to_uint s.
Definition str2int64 (s : option (list Z)) : option (Z * Z) := str2num (λ z, z mod 2 ^ 64) s.

(** [str2sint]: signed arithmetic wraps. *)
Fixpoint str2sint_loop (l : list Z) (s r : Z) : Z * Z :=
  match l with
  | [] => (0, to_int (r * s))
  | c :: l =>
      if is_digit c then str2sint_loop l s (to_int (to_int (r * 10) + (c - ch "0")))
      else (-1, to_int (r * s))
  end.

Definition str2sint (s : option (list Z)) : option (Z * Z) :=
  match s with
  | None | Some [] => None
  | Some (c :: l) =>
      if c =? ch "-" then Some (str2sint_loop l (-1) 0)
      else if c =? ch "+" then Some (str2sint_loop l 1 0)
      else Some (str2sint_loop (c :: l) 1 0)
  end.

(** ** Hexadecimal *)
Definition hex_value (c : Z) : option Z :=
  if is_digit c then Some (c - ch "0")
  else if (ch "a" <=? c) && (c <=? ch "f") then Some (c - ch "a" + 10)
  else if (ch "A" <=? c) && (c <=? ch "F") then Some (c - ch "A" + 10)
  else None.

(** From the last character to the first one; [unsafe]: another character ends the
    number. *)
Fixpoint hex_digits (wrap : Z → Z) (unsafe : bool) (l : list Z) (r : Z) : Z * Z :=
  match l with
  | [] => (0, r)
  | c :: l =>
      let r := wrap (Z.shiftl r 4) in
      match hex_value c with
      | Some d => hex_digits wrap unsafe l (wrap (r + d))
      | None => (if unsafe then 0 else -1, r)
      end
  end.

Definition reverse_hex2int (c : list Z) : Z * Z := hex_digits to_uint false (rev c) 0.
Definition reverse_hex2int64 (c : list Z) (unsafe : bool) : Z * Z :=
  hex_digits (λ z, z mod 2 ^ 64) unsafe (rev c) 0.
(** [None]: -1, and [*val] is not touched. *)
Definition hexstr2int (c : list Z) : option (Z * Z) :=
  let '(r, v) := hex_digits to_int false c 0 in if r =? 0 then Some (0, to_uint v) else None.

Definition hex_digit (d : Z) : Z := if 10 <=? d then d + ch "a" - 10 else d + ch "0".

(** [while ( *size && nr )]: the characters, the size and the number left. *)
Fixpoint reverse_hex_loop (fuel : nat) (size nr : Z) : list Z * Z * Z :=
  match fuel with
  | O => ([], size, nr)
  | S fuel =>
      if negb (size =? 0) && negb (nr =? 0) then
        let '(s, size, nr') := reverse_hex_loop fuel (size - 1) (Z.shiftr nr 4) in
        (hex_digit (Z.land nr 0xf) :: s, size, nr')
      else ([], size, nr)
  end.

(** The return value, the characters written and the size left; 16 digits are
    enough for both widths. *)
Definition int2reverse_hex (size nr : Z) : Z * list Z * Z :=
  if negb (size =? 0) && (nr =? 0) then (1, [ch "0"], size - 1)
  else let '(s, size, nr) := reverse_hex_loop 16 size nr in (if nr =? 0 then 1 else -1, s, size).

Definition int64_2reverse_hex (size nr : Z) : Z * list Z * Z := int2reverse_hex size nr.

Definition fourbits2char : list Z := chars "0123456789abcdef".

(** [string2hex]: the return value and the characters written. *)
Definition string2hex (str : list Z) : Z * list Z :=
  match str with
  | [] => (1, [ch "0"])
  | _ => (len str * 2,
          flat_map (λ c, [nth (Z.to_nat (Z.land (Z.shiftr c 4) 0x0f)) fourbits2char 0;
                          nth (Z.to_nat (Z.land c 0x0f)) fourbits2char 0]) str)
  end.

(** [strno2int]: base 16 after [0x], base 10 otherwise. *)
Definition strno2int (val : list Z) : option (Z * Z) :=
  match val with
  | c0 :: c1 :: c2 :: r =>
      if (c0 =? ch "0") && (c1 =? ch "x") then hexstr2int (c2 :: r) else str2int (Some val)
  | _ => str2int (Some val)
  end.

(** ** What the decimal readers compute *)
Section str2num_facts.
Context (wrap : Z → Z) (M : Z).
Hypothesis HM : 0 < M.
Hypothesis Hwrap : ∀ z, wrap z = z mod M.

Lemma str2num_digits ds R : digits ds → str2num_loop wrap ds (R mod M) =
  (0, fold_left (λ n d, n * 10 + (d - 48)) ds R mod M).
Proof.
  intros Hds. revert R. induction Hds as [|d ds Hd Hds IH]; intros R; [done|]. cbn [str2num_loop fold_left].
  rewrite (proj2 (is_digit_spec d) Hd). change (ch "0") with 48. rewrite !Hwrap.
  rewrite Zplus_mod_idemp_l, <- (Zplus_mod_idemp_l (R mod M * 10)), Zmult_mod_idemp_l, Zplus_mod_idemp_l. apply IH.
Qed.

Lemma str2num_bad l R c : c ∈ l → is_digit c = false → (str2num_loop wrap l R).1 = -1.
Proof.
  intros Hc Hd. revert R. induction l as [|a l IH]; intros R; [by apply elem_of_nil in Hc|]. cbn [str2num_loop].
  destruct (is_digit a) eqn:Ha; [|done]. apply elem_of_cons in Hc as [->|Hc]; [congruence|by apply IH].
Qed.

Lemma str2num_value ds : digits ds → ds ≠ [] → str2num wrap (Some ds) = Some (0, decimal ds mod M).
Proof.
  intros Hds Hne. destruct ds as [|d ds]; [done|]. cbn [str2num]. f_equal.
  rewrite <- (Z.mod_0_l M) at 1 by lia. by apply str2num_digits.
Qed.
End str2num_facts.

Lemma digits_dec l : digits l ∨ ∃ c, c ∈ l ∧ is_digit c = false.
Proof.
  induction l as [|a l [IH|(c & Hc & Hd)]].
  - left. constructor.
  - destruct (is_digit a) eqn:Ha.
    + left. constructor; [by apply is_digit_spec|done].
    + right. exists a. split; [apply list_elem_of_here|done].
  - right. exists c. split; [by apply list_elem_of_further|done].
Qed.

(** ** What the decimal writers write *)

(** The digits of [l] are put before [acc]. *)
Lemma int2bstr_loop_spec fuel i l acc : 0 ≤ l < 10 ^ Z.of_nat fuel → (0 < fuel)%nat → Z.of_nat fuel ≤ i + 1 →
  ∃ ds, int2bstr_loop fuel i l acc = (i - len ds, ds ++ acc) ∧ digits ds ∧ ds ≠ [] ∧ decimal ds = l ∧
    (length ds ≤ fuel)%nat ∧ (ds = [48] ∨ head ds ≠ Some 48).
Proof.
  revert i l acc. induction fuel as [|fuel IH]; intros i l acc Hl Hf Hi; [lia|]. cbn [int2bstr_loop]. change (ch "0") with 48.
  pose proof (Z.mod_pos_bound l 10 ltac:(lia)) as Hm. pose proof (Z.div_mod l 10 ltac:(lia)) as Hdm.
  destruct (Z.eqb_spec (l / 10) 0) as [E|E]; cbn [negb andb].
  - exists [l mod 10 + 48]. split_and!; [done|by constructor; [lia|]|done|cbn; lia|cbn; lia|].
    destruct (Z.eq_dec (l mod 10) 0) as [->|]; [by left|right]. cbn. intros [= ?]. lia.
  - assert (Hfuel : (0 < fuel)%nat).
    { destruct fuel; [|lia]. change (10 ^ Z.of_nat 1) with 10 in Hl. rewrite Z.div_small in E by lia. done. }
    destruct (Z.leb_spec 0 (i - 1)); [|lia].
    assert (Hd : 0 ≤ l / 10 < 10 ^ Z.of_nat fuel).
    { rewrite Nat2Z.inj_succ, Z.pow_succ_r in Hl by lia. split; [apply Z.div_pos; lia|apply Z.div_lt_upper_bound; lia]. }
    destruct (IH (i - 1) (l / 10) ((l mod 10 + 48) :: acc) Hd Hfuel ltac:(lia)) as (ds & Hr & Hds & Hne & Hv & Hn & Hh).
    exists (ds ++ [l mod 10 + 48]). split_and!.
    + rewrite Hr, <- app_assoc, len_app. change (len [l mod 10 + 48]) with 1. f_equal. lia.
    + apply Forall_app. split; [done|]. by constructor; [lia|].
    + by destruct ds.
    + rewrite decimal_snoc, Hv. lia.
    + rewrite length_app. cbn. lia.
    + right. destruct ds as [|d ds]; [done|]. cbn. destruct Hh as [Hh|Hh]; [|done]. injection Hh as -> ->.
      cbn in Hv. lia.
Qed.

Lemma int2bstr_spec l : 0 ≤ l < 2 ^ 64 → ∃ p ds n, int2bstr l = (p, ds, n) ∧ digits ds ∧ decimal ds = l ∧
  (ds = [48] ∨ head ds ≠ Some 48) ∧ n = len ds ∧ p = 21 - n ∧ 1 ≤ n ≤ 20.
Proof.
  intros Hl. unfold int2bstr. change (Z.to_nat (INT2STR_MAX_LEN - 1)) with 21%nat. change (INT2STR_MAX_LEN - 2) with 20.
  destruct (int2bstr_loop_spec 21 20 l []) as (ds & -> & Hds & Hne & Hv & Hn & Hh); [|lia|lia|].
  { change (10 ^ Z.of_nat 21) with 1000000000000000000000. lia. }
  rewrite app_nil_r. exists (20 - len ds + 1), ds, (20 - (20 - len ds)). split_and!; try done; try lia.
  - destruct ds; [done|]. rewrite len_cons. pose proof (len_nonneg ds). lia.
  - assert (Hne21 : len ds ≠ 21); [|unfold len in *; lia]. intros E21. destruct ds as [|d ds]; [done|].
    rewrite len_cons in E21. apply Forall_cons in Hds as [Hd Hds]. cbn in Hh.
    destruct (decimal_from ds (d - 48) Hds) as [Hf Hpos]. unfold decimal in Hv. cbn [fold_left] in Hv.
    rewrite Z.mul_0_l, Z.add_0_l, Hf in Hv. replace (Z.of_nat (length ds)) with 20 in Hv by (unfold len in E21; lia).
    change (10 ^ 20) with 100000000000000000000 in Hv.
    assert (d ≠ 48) by (destruct Hh as [[= -> ->]|Hh]; [done|congruence]). lia.
Qed.

(** The signed reader: the value wraps, whatever the number of digits. *)
Lemma to_int_mul_l a b : to_int (to_int a * b) = to_int (a * b).
Proof.
  unfold to_int. f_equal. rewrite <- (Zplus_mod_idemp_l (_ * b)), <- (Zplus_mod_idemp_l (a * b)). f_equal. f_equal.
  rewrite <- (Zmult_mod_idemp_l _ b), <- (Zmult_mod_idemp_l a b). f_equal. f_equal. apply to_int_cong.
Qed.

Lemma str2sint_digits ds s R : digits ds → str2sint_loop ds s (to_int R) =
  (0, to_int (fold_left (λ n d, n * 10 + (d - 48)) ds R * s)).
Proof.
  intros Hds. revert R. induction Hds as [|d ds Hd Hds IH]; intros R; cbn [str2sint_loop fold_left].
  { by rewrite to_int_mul_l. }
  rewrite (proj2 (is_digit_spec d) Hd). change (ch "0") with 48. rewrite to_int_add, <- IH. f_equal.
  rewrite <- (to_int_add (to_int R * 10)), to_int_mul_l. by rewrite to_int_add.
Qed.

Lemma str2sint_value ds s : digits ds → str2sint_loop ds s 0 = (0, to_int (decimal ds * s)).
Proof. intros Hds. exact (str2sint_digits ds s 0 Hds). Qed.

(** ** Hexadecimal round trips *)
Section hex.
Context (wrap : Z → Z) (M : Z) (unsafe : bool).
Hypothesis HM : 0 < M.
Hypothesis Hwrap : ∀ z, wrap z = z mod M.

Lemma hex_digit_value d : 0 ≤ d < 16 → hex_value (hex_digit d) = Some d.
Proof.
  intros Hd. assert (Hall : forallb (λ d, bool_decide (hex_value (hex_digit d) = Some d)) (map Z.of_nat (seq 0 16)) = true)
    by by vm_compute.
  rewrite forallb_forall in Hall. apply (bool_decide_unpack _). apply Is_true_true, Hall.
  apply in_map_iff with (f := Z.of_nat). exists (Z.to_nat d). split; [lia|]. apply in_seq. lia.
Qed.

Lemma hex_digits_snoc l r v d : hex_digits wrap unsafe l r = (0, v) → Forall (λ c, is_Some (hex_value c)) l → 0 ≤ d < 16 →
  hex_digits wrap unsafe (l ++ [hex_digit d]) r = (0, wrap (wrap (Z.shiftl v 4) + d)).
Proof.
  intros Hv Hl Hd. revert r Hv. induction Hl as [|c l [x Hx] _ IH]; intros r; cbn [app hex_digits].
  - intros [= ->]. by rewrite hex_digit_value.
  - rewrite Hx. apply IH.
Qed.

Lemma nibble nr : 0 ≤ nr → nr = Z.shiftr nr 4 * 16 + Z.land nr 0xf ∧ 0 ≤ Z.land nr 0xf < 16 ∧ 0 ≤ Z.shiftr nr 4.
Proof.
  intros Hn. change 0xf with (Z.ones 4). rewrite Z.land_ones, Z.shiftr_div_pow2 by lia. change (2 ^ 4) with 16.
  pose proof (Z.div_mod nr 16 ltac:(lia)). pose proof (Z.mod_pos_bound nr 16 ltac:(lia)).
  pose proof (Z.div_pos nr 16 Hn ltac:(lia)). lia.
Qed.

(** What the loop writes, when the number is used up, is read back. *)
Lemma reverse_hex_read fuel : ∀ size nr s size', 0 ≤ nr < M → reverse_hex_loop fuel size nr = (s, size', 0) →
  hex_digits wrap unsafe (rev s) 0 = (0, nr) ∧ Forall (λ c, is_Some (hex_value c)) (rev s).
Proof.
  induction fuel as [|fuel IH]; intros size nr s size' Hn; cbn [reverse_hex_loop].
  { by intros [= <- _ ->]. }
  destruct (negb (size =? 0) && negb (nr =? 0)) eqn:Hc.
  2: { by intros [= <- _ ->]. }
  destruct (reverse_hex_loop fuel (size - 1) (Z.shiftr nr 4)) as [[s' sz] nr'] eqn:E. intros [= <- <- ->].
  destruct (nibble nr ltac:(lia)) as (Hnr & Hlow & Hhigh).
  destruct (IH (size - 1) (Z.shiftr nr 4) s' sz ltac:(lia) E) as [Hr Hs]. cbn [rev]. split.
  - rewrite (hex_digits_snoc _ _ _ _ Hr Hs Hlow). f_equal. rewrite !Hwrap.
    rewrite Z.shiftl_mul_pow2 by lia. change (2 ^ 4) with 16. rewrite Zplus_mod_idemp_l, <- Hnr. by apply Z.mod_small.
  - apply Forall_app. split; [done|]. constructor; [|constructor]. rewrite hex_digit_value by done. by eexists.
Qed.
End hex.

Lemma reverse_hex_done fuel : ∀ size nr, 0 ≤ size → 0 ≤ nr < 16 ^ Z.of_nat fuel →
  ∃ s nr', reverse_hex_loop fuel size nr = (s, size - len s, nr') ∧ len s ≤ size ∧ (nr' = 0 ↔ nr < 16 ^ size).
Proof.
  induction fuel as [|fuel IH]; intros size nr Hs Hn; cbn [reverse_hex_loop].
  - exists [], nr. rewrite len_nil, Z.sub_0_r. split_and!; [done|done|]. change (16 ^ Z.of_nat 0) with 1 in Hn.
    pose proof (Z.pow_pos_nonneg 16 size). lia.
  - destruct (Z.eqb_spec size 0) as [->|Hs0]; cbn [negb andb].
    { exists [], nr. rewrite len_nil. change (16 ^ 0) with 1. split_and!; [done|done|lia]. }
    destruct (Z.eqb_spec nr 0) as [->|Hn0]; cbn [negb andb].
    { exists [], 0. rewrite len_nil, Z.sub_0_r. pose proof (Z.pow_pos_nonneg 16 size). split_and!; [done|done|lia]. }
    destruct (nibble nr ltac:(lia)) as (Hnr & Hlow & Hhigh).
    assert (Hp : 16 ^ size = 16 * 16 ^ (size - 1)).
    { replace size with (Z.succ (size - 1)) at 1 by lia. by rewrite Z.pow_succ_r by lia. }
    rewrite Nat2Z.inj_succ, Z.pow_succ_r in Hn by lia.
    destruct (IH (size - 1) (Z.shiftr nr 4)) as (s & nr' & -> & Hlen & Hdone); [lia|lia|].
    exists (hex_digit (Z.land nr 15) :: s), nr'. rewrite len_cons. split_and!; [|lia|].
    + do 2 f_equal. lia.
    + rewrite Hdone. lia.
Qed.

Lemma reverse_hex_at wrap M unsafe size nr : 0 < M → (∀ z, wrap z = z mod M) → M ≤ 16 ^ 16 → 0 ≤ size → 0 ≤ nr < M →
  ∃ rc s, int2reverse_hex size nr = (rc, s, size - len s) ∧ len s ≤ size ∧
    (rc = 1 ∧ nr < 16 ^ size ∧ hex_digits wrap unsafe (rev s) 0 = (0, nr) ∨ rc = -1 ∧ 16 ^ size ≤ nr).
Proof.
  intros HM Hwrap Hle Hs Hn. unfold int2reverse_hex.
  destruct (negb (size =? 0) && (nr =? 0)) eqn:E.
  - apply andb_true_iff in E as [E1%negb_true_iff%Z.eqb_neq ->%Z.eqb_eq]. exists 1, [ch "0"].
    change (len [ch "0"]) with 1. split_and!; [done|lia|left]. pose proof (Z.pow_pos_nonneg 16 size).
    split_and!; [done|lia|]. cbn [rev app hex_digits]. change (hex_value (ch "0")) with (Some 0). cbn [Z.shiftl].
    rewrite !Hwrap. rewrite Zmod_0_l. f_equal.
  - destruct (reverse_hex_done 16 size nr Hs) as (s & nr' & Hl & Hlen & Hdone); [lia|]. rewrite Hl.
    exists (if nr' =? 0 then 1 else -1), s. split_and!; [done|done|].
    destruct (Z.eqb_spec nr' 0) as [->|Hne]; [left|right].
    + split_and!; [done|by apply Hdone|]. by eapply reverse_hex_read.
    + split; [done|]. destruct (Z.lt_ge_cases nr (16 ^ size)) as [Hlt|]; [|done]. by apply Hdone in Hlt.
Qed.

(** ** Properties *)

(** C31: the decimal writers and readers of ut.h are inverse to each other.  A number of
    64 bits is written with its digits, without leading zeros, at the end of a buffer
    that is long enough, and is read back by every reader whose type holds it; a signed
    number of 32 bits is read back with its sign, from a string that still fits into its
    buffer; so is a byte. *)
Theorem decimal_roundtrip st n z v :
  0 ≤ n < 2 ^ 64 → - 2 ^ 31 ≤ z < 2 ^ 31 → 0 ≤ v < 256 →
  (let '(p, s, k) := int2bstr n in
   k = len s ∧ 1 ≤ p ∧ p + k = INT2STR_MAX_LEN - 1 ∧ (s = [ch "0"] ∨ head s ≠ Some (ch "0")) ∧
   str2int64 (Some s) = Some (0, n) ∧ (n < 2 ^ 32 → str2int (Some s) = Some (0, n)) ∧
   (n < 2 ^ 16 → str2short (Some s) = Some (0, n))) ∧
  (let '(st', (b, p, k)) := sint2str st z in
   k = len (int2str_buf st' b) ∧ 0 ≤ p ∧ p + k = INT2STR_MAX_LEN - 1 ∧
   str2sint (Some (int2str_buf st' b)) = Some (0, z)) ∧
  str2short (Some (btostr v)) = Some (0, v).
Proof.
  intros Hn Hz Hv. split_and!.
  - destruct (int2bstr_spec n Hn) as (p & s & k & -> & Hs & Hd & Hh & -> & -> & Hk).
    assert (Hne : s ≠ []) by (intros ->; rewrite len_nil in Hk; lia).
    change INT2STR_MAX_LEN with 22. split_and!; try done; try lia.
    + unfold str2int64. rewrite (str2num_value _ (2 ^ 64)) by done. by rewrite Hd, Z.mod_small.
    + intros H32. unfold str2int. rewrite (str2num_value _ (2 ^ 32)) by done. by rewrite Hd, Z.mod_small by lia.
    + intros H16. unfold str2short. rewrite (str2num_value _ (2 ^ 16)) by done. by rewrite Hd, Z.mod_small by lia.
  - unfold sint2str, int2str. change INT2STR_MAX_LEN with 22.
    set (b := if it st + 1 =? INT2STR_BUF_NO then 0 else it st + 1).
    destruct (Z.ltb_spec z 0) as [Hneg|Hpos].
    + rewrite (Z.mod_small (- z)) by lia. destruct (int2bstr_spec (- z)) as (p & s & k & -> & Hs & Hd & Hh & -> & -> & Hk); [lia|].
      cbn [it int2str_buf]. unfold set_buf. rewrite Z.eqb_refl, len_cons. split_and!; [lia|lia|lia|].
      cbn [str2sint]. rewrite Z.eqb_refl, str2sint_value by done. rewrite Hd. rewrite to_int_small by lia. do 2 f_equal. lia.
    + rewrite (Z.mod_small z) by lia. destruct (int2bstr_spec z) as (p & s & k & -> & Hs & Hd & Hh & -> & -> & Hk); [lia|].
      cbn [it int2str_buf]. unfold set_buf. rewrite Z.eqb_refl. split_and!; [lia|lia|lia|].
      destruct s as [|c s]; [rewrite len_nil in Hk; lia|]. cbn [str2sint]. pose proof Hs as Hs'. apply Forall_cons in Hs' as [Hc _].
      destruct (Z.eqb_spec c (ch "-")) as [->|]; [change (ch "-") with 45 in Hc; lia|]. destruct (Z.eqb_spec c (ch "+")) as [->|]; [change (ch "+") with 43 in Hc; lia|].
      rewrite str2sint_value by done. rewrite Hd, Z.mul_1_r, to_int_small by lia. done.
  - assert (Hall : forallb (λ v, bool_decide (str2short (Some (btostr v)) = Some (0, v))) (map Z.of_nat (seq 0 256)) = true)
      by by vm_compute.
    rewrite forallb_forall in Hall. apply (bool_decide_unpack _). apply Is_true_true, Hall.
    apply in_map_iff with (f := Z.of_nat). exists (Z.to_nat v). split; [lia|]. apply in_seq. lia.
Qed.

Lemma decimal_roundtrip_witness :
  (let '(p, s, k) := int2bstr (2 ^ 64 - 1) in
   k = len s ∧ 1 ≤ p ∧ p + k = INT2STR_MAX_LEN - 1 ∧ (s = [ch "0"] ∨ head s ≠ Some (ch "0")) ∧
   str2int64 (Some s) = Some (0, 2 ^ 64 - 1) ∧ (2 ^ 64 - 1 < 2 ^ 32 → str2int (Some s) = Some (0, 2 ^ 64 - 1)) ∧
   (2 ^ 64 - 1 < 2 ^ 16 → str2short (Some s) = Some (0, 2 ^ 64 - 1))) ∧
  (let '(st', (b, p, k)) := sint2str (Int2str 6 (λ _, [])) (- 2 ^ 31) in
   k = len (int2str_buf st' b) ∧ 0 ≤ p ∧ p + k = INT2STR_MAX_LEN - 1 ∧
   str2sint (Some (int2str_buf st' b)) = Some (0, - 2 ^ 31)) ∧
  str2short (Some (btostr 7)) = Some (0, 7).
Proof. apply (decimal_roundtrip (Int2str 6 (λ _, [])) (2 ^ 64 - 1) (- 2 ^ 31) 7); lia. Defined.

(** What the readers of numbers return for every string: 0 exactly for a string of
    digits, and then the decimal value modulo the width of the type; an overflow is not
    noticed. *)
Lemma str2int_value l : l ≠ [] →
  (digits l → str2short (Some l) = Some (0, decimal l mod 2 ^ 16) ∧ str2int (Some l) = Some (0, decimal l mod 2 ^ 32) ∧
    str2int64 (Some l) = Some (0, decimal l mod 2 ^ 64)) ∧
  (¬ digits l → fst <$> str2short (Some l) = Some (-1) ∧ fst <$> str2int (Some l) = Some (-1) ∧
    fst <$> str2int64 (Some l) = Some (-1)).
Proof.
  intros Hne. split.
  - intros Hd. split_and!; [apply (str2num_value to_ushort (2 ^ 16))|apply (str2num_value to_uint (2 ^ 32))|
      apply (str2num_value (λ z, z mod 2 ^ 64) (2 ^ 64))]; done.
  - intros Hd. destruct (digits_dec l) as [|(c & Hc & Hb)]; [done|].
    destruct l as [|a l]; [done|]. unfold str2short, str2int, str2int64, str2num. cbn [fmap option_fmap option_map].
    split_and!; f_equal; by apply (str2num_bad _ _ _ c).
Qed.

Lemma str2int_value_witness :
  (digits (chars "65536") → str2short (Some (chars "65536")) = Some (0, decimal (chars "65536") mod 2 ^ 16) ∧
    str2int (Some (chars "65536")) = Some (0, decimal (chars "65536") mod 2 ^ 32) ∧
    str2int64 (Some (chars "65536")) = Some (0, decimal (chars "65536") mod 2 ^ 64)) ∧
  (¬ digits (chars "65536") → fst <$> str2short (Some (chars "65536")) = Some (-1) ∧
    fst <$> str2int (Some (chars "65536")) = Some (-1) ∧ fst <$> str2int64 (Some (chars "65536")) = Some (-1)).
Proof. apply str2int_value. done. Defined.

(** The hexadecimal writers and readers, of 32 and of 64 bits: a number is
    written exactly if it has no more digits than there is room, the room is never
    exceeded, and what was written is read back. *)
Lemma hex_roundtrip size n : 0 ≤ size → 0 ≤ n < 2 ^ 64 →
  Forall (λ '(limit, writer, reader),
    n < limit → ∃ rc s, (writer size n : Z * list Z * Z) = (rc, s, size - len s) ∧ len s ≤ size ∧
      (rc = 1 ∧ n < 16 ^ size ∧ (reader s : Z * Z) = (0, n) ∨ rc = -1 ∧ 16 ^ size ≤ n))
  [(2 ^ 32, int2reverse_hex, reverse_hex2int);
   (2 ^ 64, int64_2reverse_hex, λ c, reverse_hex2int64 c true);
   (2 ^ 64, int64_2reverse_hex, λ c, reverse_hex2int64 c false)].
Proof.
  intros Hs Hn. repeat constructor; intros Hlim.
  - apply (reverse_hex_at to_uint (2 ^ 32)); (done || lia).
  - apply (reverse_hex_at (λ z, z mod 2 ^ 64) (2 ^ 64)); (done || lia).
  - apply (reverse_hex_at (λ z, z mod 2 ^ 64) (2 ^ 64)); (done || lia).
Qed.

Lemma hex_roundtrip_witness :
  Forall (λ '(limit, writer, reader),
    48879 < limit → ∃ rc s, (writer 4 48879 : Z * list Z * Z) = (rc, s, 4 - len s) ∧ len s ≤ 4 ∧
      (rc = 1 ∧ 48879 < 16 ^ 4 ∧ (reader s : Z * Z) = (0, 48879) ∨ rc = -1 ∧ 16 ^ 4 ≤ 48879))
  [(2 ^ 32, int2reverse_hex, reverse_hex2int);
   (2 ^ 64, int64_2reverse_hex, λ c, reverse_hex2int64 c true);
   (2 ^ 64, int64_2reverse_hex, λ c, reverse_hex2int64 c false)].
Proof. by apply (hex_roundtrip 4 48879). Defined.

(** A sign alone is the number zero. *)
Lemma str2sint_sign : str2sint (Some (chars "-")) = Some (0, 0) ∧ str2sint (Some (chars "+")) = Some (0, 0).
Proof. by vm_compute. Qed.
