(* ===== verification/Strings.v ===== *)
(** * Strings (ut.h): comparison, search, and changes in place

    Both strings of a comparison lie in the same block.  A pointer to a [str] that
    may be null is an option. *)

From stdpp Require Import strings.
From S2P Require Export ParserF.

(** ** Characters *)

(** [q_memrchr]: the last [c] among [size] characters. *)
Fixpoint q_memrchr_n (m : mem) (p c : Z) (n : nat) : res (option Z) :=
  match n with
  | O => mret None
  | S n =>
      a ← rd m (p + Z.of_nat n);
      if a =? c mod 256 then mret (Some (p + Z.of_nat n)) else q_memrchr_n m p c n
  end.

Definition q_memrchr (m : mem) (p c size : Z) : res (option Z) := q_memrchr_n m p c (Z.to_nat size).

(** [is_e164]: 1 for a plus sign and 2 to 15 digits. *)
Definition is_e164 (user : list Z) : Z :=
  if (2 <? len user) && (len user <? 17) && (nth 0 user 0 =? ch "+") then
    if forallb (λ c, negb ((c <? ch "0") || (ch "9" <? c))) (tail user) then 1 else -1
  else -1.

(** [strlower], in place. *)
Definition strlower (s : list Z) : list Z := map tolower s.

Definition token_char (c : Z) : bool :=
  ((ch "a" <=? c) && (c <=? ch "z")) || ((ch "A" <=? c) && (c <=? ch "Z")) || ((ch "0" <=? c) && (c <=? ch "9")) ||
  one_of c "-.!%*_+`'~".

(** [while (p > in->s)], from the last character. *)
Fixpoint check_token_loop (m : mem) (s : Z) (n : nat) : res Z :=
  match n with
  | O => mret 1
  | S n =>
      c ← rd m (s + Z.of_nat n);
      if negb (token_char c) then mret 0 else check_token_loop m s n
  end.

Definition str_check_token (m : mem) (in_ : option str) : res Z :=
  match in_ with
  | None => mret (-1)
  | Some x => if (str_s x =? 0) || (str_len x =? 0) then mret (-1)
              else check_token_loop m (str_s x) (Z.to_nat (str_len x))
  end.

(** ** Comparison *)

(** [memcmp(p, q, n) == 0]; all of the characters may be looked at. *)
Fixpoint memcmp_eq (m : mem) (p q : Z) (n : nat) : res bool :=
  match n with
  | O => mret true
  | S n => a ← rd m p; b ← rd m q; rest ← memcmp_eq m (p + 1) (q + 1) n; mret ((a =? b) && rest)
  end.

Definition str_match (m : mem) (a b : str) : res bool :=
  if str_len a =? str_len b then memcmp_eq m (str_s a) (str_s b) (Z.to_nat (str_len a)) else mret false.

(** [do ... while (++p < end)]. *)
Definition casematch_round (m : mem) (end_ : Z) (s : Z * Z) : res (Z * Z + bool) :=
  let '(p, q) := s in
  a ← rd m p; b ← rd m q;
  if negb (tolower a =? tolower b) then mret (inr false)
  else if p + 1 <? end_ then mret (inl (p + 1, q + 1)) else mret (inr true).

Definition str_casematch (m : mem) (a b : str) : res bool :=
  if negb (str_len a =? str_len b) then mret false
  else if str_s a =? str_s b then mret true
  else loop (casematch_round m (str_s a + str_len a)) (S (Z.to_nat (str_len a))) (str_s a, str_s b).

(** The loops of the three comparisons, [f] being applied to each character. *)
Fixpoint cmp_n (f : Z → Z) (m : mem) (p q : Z) (n : nat) : res (option Z) :=
  match n with
  | O => mret None
  | S n =>
      a ← rd m p; b ← rd m q;
      if f a <? f b then mret (Some (-1))
      else if f b <? f a then mret (Some 1)
      else cmp_n f m (p + 1) (q + 1) n
  end.

(** [stra==NULL || ... || strb->len<0]. *)
Definition bad_strs (a b : option str) : option (str * str) :=
  match a, b with
  | Some a, Some b =>
      if (str_s a =? 0) || (str_s b =? 0) || (str_len a <? 0) || (str_len b <? 0) then None else Some (a, b)
  | _, _ => None
  end.

Definition cmp_strs (f : Z → Z) (m : mem) (stra strb : option str) : res Z :=
  match bad_strs stra strb with
  | None => mret (-2)
  | Some (a, b) =>
      let alen := str_len a in
      let blen := str_len b in
      let minlen := if alen <? blen then alen else blen in
      r ← cmp_n f m (str_s a) (str_s b) (Z.to_nat minlen);
      match r with
      | Some r => mret r
      | None => mret (if alen <? blen then -1 else if blen <? alen then 1 else 0)
      end
  end.

Definition str_strcmp (m : mem) (stra strb : option str) : res Z := cmp_strs id m stra strb.
Definition str_strcasecmp (m : mem) (stra strb : option str) : res Z := cmp_strs tolower m stra strb.

Definition str_strncasecmp (m : mem) (stra strb : option str) (n : Z) : res Z :=
  match bad_strs stra strb with
  | None => mret (-2)
  | Some (a, b) =>
      if (str_len a <? n) || (str_len b <? n) then mret (-2) else
      r ← cmp_n tolower m (str_s a) (str_s b) (Z.to_nat n);
      mret (default 0 r)
  end.

(** With a string that ends with a NUL. *)
Definition strlen (m : mem) (b : Z) : res Z :=
  q ← scan (λ c, c =? 0) m b (mlim m);
  if q <? mlim m then mret (q - b) else Fault q.

(** [strncasecmp(p, q, n) == 0]. *)
Fixpoint strncasecmp_eq (m : mem) (p q : Z) (n : nat) : res bool :=
  match n with
  | O => mret true
  | S n =>
      a ← rd m p; b ← rd m q;
      if negb (tolower a =? tolower b) then mret false
      else if a =? 0 then mret true else strncasecmp_eq m (p + 1) (q + 1) n
  end.

Definition str_match_nt (m : mem) (a : str) (b : Z) : res bool :=
  n ← strlen m b;
  if str_len a =? to_int n then memcmp_eq m (str_s a) b (Z.to_nat (str_len a)) else mret false.

Definition str_casematch_nt (m : mem) (a : str) (b : Z) : res bool :=
  n ← strlen m b;
  if str_len a =? to_int n then strncasecmp_eq m (str_s a) b (Z.to_nat (str_len a)) else mret false.

(** ** Search *)

(** [for (i=1; i<strb->len; i++) if (...) break;]: the value of [i]. *)
Fixpoint strstr_for (m : mem) (p q : Z) (i : Z) (n : nat) : res Z :=
  match n with
  | O => mret i
  | S n =>
      a ← rd m (p + i); b ← rd m (q + i);
      if negb (a =? b) then mret i else strstr_for m p q (i + 1) n
  end.

Definition strstr_round (m : mem) (a b : str) (n : Z) : res (Z + option Z) :=
  if str_len b <=? str_len a - n then
    c ← rd m (str_s a + n); d ← rd m (str_s b);
    if negb (c =? d) then mret (inl (n + 1)) else
    i ← strstr_for m (str_s a + n) (str_s b) 1 (Z.to_nat (str_len b - 1));
    if negb (i =? str_len b) then mret (inl (n + 1)) else mret (inr (Some (str_s a + n)))
  else mret (inr None).

Definition str_strstr (m : mem) (stra strb : option str) : res (option Z) :=
  match stra, strb with
  | Some a, Some b =>
      if (str_s a =? 0) || (str_s b =? 0) || (str_len a <=? 0) || (str_len b <=? 0) then mret None
      else if str_len a <? str_len b then mret None
      else loop (strstr_round m a b) (S (Z.to_nat (str_len a))) 0
  | _, _ => mret None
  end.

Definition memmem_round (m : mem) (pp len2 eos sp : Z) : res (Z + option Z) :=
  if sp <=? eos then
    a ← rd m sp; b ← rd m pp;
    if a =? b then
      e ← memcmp_eq m sp pp (Z.to_nat len2);
      if e : bool then mret (inr (Some sp)) else mret (inl (sp + 1))
    else mret (inl (sp + 1))
  else mret (inr None).

Definition l_memmem (m : mem) (b1 b2 len1 len2 : Z) : res (option Z) :=
  let eos := b1 + len1 - len2 in
  if negb (negb (b1 =? 0) && negb (b2 =? 0) && negb (len1 =? 0) && negb (len2 =? 0)) then mret None
  else loop (memmem_round m b2 len2 eos) (S (Z.to_nat len1)) b1.

(** ** Escapes in place *)

(** [memmove(p + 1, p + 2, lim - (p + 2))] on a buffer that ends at [lim]: its last
    character stays where it is. *)
Definition close_gap (buf : list Z) (p : nat) : list Z :=
  take (p + 1) buf ++ drop (p + 2) buf ++ drop (length buf - 1) buf.

(** One round of the loop of [unescape_crlf]: the buffer, up to the end that [lim]
    keeps, and the length of the string. *)
Definition unescape_crlf_round (s : list Z * Z) (p : nat) : list Z * Z :=
  let '(buf, n) := s in
  let put c := (close_gap (<[p := c]> buf) p, n - 1) in
  if (nth p buf 0 =? BSLASH) && (p + 1 <? length buf)%nat then
    if nth (p + 1) buf 0 =? ch "r" then put CR
    else if nth (p + 1) buf 0 =? ch "n" then put LF
    else s
  else s.

Definition unescape_crlf (buf : list Z) : list Z * Z :=
  fold_left unescape_crlf_round (seq 0 (length buf)) (buf, len buf).

(** ** The order of strings *)
Fixpoint cmp_list (k l : list Z) : Z :=
  match k, l with
  | [], [] => 0
  | [], _ :: _ => -1
  | _ :: _, [] => 1
  | a :: k, b :: l => if a <? b then -1 else if b <? a then 1 else cmp_list k l
  end.

Lemma cmp_list_eq k l : cmp_list k l = 0 ↔ k = l.
Proof.
  revert l. induction k as [|a k IH]; intros [|b l]; cbn [cmp_list]; try done.
  destruct (Z.ltb_spec a b); [split; [done|intros [= ]; lia]|].
  destruct (Z.ltb_spec b a); [split; [done|intros [= ]; lia]|].
  rewrite IH. assert (a = b) as -> by lia. split; [by intros ->|by intros [= ->]].
Qed.

Lemma cmp_list_antisym k l : cmp_list l k = - cmp_list k l.
Proof.
  revert l. induction k as [|a k IH]; intros [|b l]; cbn [cmp_list]; try done.
  destruct (Z.ltb_spec a b), (Z.ltb_spec b a); try done; lia.
Qed.

Lemma cmp_list_trans k l n : cmp_list k l ≤ 0 → cmp_list l n ≤ 0 → cmp_list k n ≤ 0.
Proof.
  revert l n. induction k as [|a k IH]; intros [|b l] [|c n]; cbn [cmp_list]; try lia.
  destruct (Z.ltb_spec a b), (Z.ltb_spec b a), (Z.ltb_spec b c), (Z.ltb_spec c b), (Z.ltb_spec a c), (Z.ltb_spec c a);
    try lia. apply IH.
Qed.

Lemma cmp_n_at f m p q k l n : bytes_at m p k → bytes_at m q l → (n ≤ length k)%nat → (n ≤ length l)%nat →
  ∃ r, cmp_n f m p q n = Ok r ∧
    default (cmp_list (map f (drop n k)) (map f (drop n l))) r = cmp_list (map f k) (map f l) ∧
    default 0 r = cmp_list (map f (take n k)) (map f (take n l)).
Proof.
  revert p q k l. induction n as [|n IH]; intros p q k l Hk Hl Hnk Hnl; [by exists None|].
  destruct k as [|a k]; [simpl in *; lia|]. destruct l as [|b l]; [simpl in *; lia|].
  destruct Hk as [Ha Hk], Hl as [Hb Hl]. cbn [length] in *. cbn [cmp_n drop take map cmp_list]. rewrite Ha, Hb.
  cbn [mbind res_bind]. destruct (f a <? f b); [by exists (Some (-1))|].
  destruct (f b <? f a); [by exists (Some 1)|]. apply IH; try done; lia.
Qed.

(** A string whose pointer is not null. *)
Definition text (m : mem) (x : str) (l : list Z) : Prop := str_s x ≠ 0 ∧ holds m x l.

Lemma bad_strs_text m a b k l : text m a k → text m b l → bad_strs (Some a) (Some b) = Some (a, b).
Proof.
  intros (Ha & Hka & _) (Hb & Hlb & _). unfold bad_strs.
  destruct (Z.eqb_spec (str_s a) 0), (Z.eqb_spec (str_s b) 0), (Z.ltb_spec (str_len a) 0), (Z.ltb_spec (str_len b) 0);
    try done; lia.
Qed.

Lemma cmp_strs_at f m a b k l : text m a k → text m b l →
  cmp_strs f m (Some a) (Some b) = Ok (cmp_list (map f k) (map f l)).
Proof.
  intros Ha Hb. unfold cmp_strs. rewrite (bad_strs_text m a b k l) by done.
  destruct Ha as (_ & Hla & Hka), Hb as (_ & Hlb & Hkb).
  set (n := Z.to_nat _). assert (Hn : n = Nat.min (length k) (length l)).
  { unfold n. rewrite Hla, Hlb. destruct (Z.ltb_spec (Z.of_nat (length k)) (Z.of_nat (length l))); lia. }
  destruct (cmp_n_at f m (str_s a) (str_s b) k l n Hka Hkb) as (r & -> & Hr & _); [lia|lia|].
  cbn [mbind res_bind]. rewrite <- Hr. destruct r as [r|]; [done|]. cbn [default]. f_equal.
  rewrite Hla, Hlb. destruct (Z.ltb_spec (Z.of_nat (length k)) (Z.of_nat (length l))).
  - rewrite (drop_ge k) by lia. destruct (drop n l) eqn:E; [|done].
    apply (f_equal length) in E. rewrite length_drop in E. simpl in E. lia.
  - rewrite (drop_ge l) by lia. destruct (Z.ltb_spec (Z.of_nat (length l)) (Z.of_nat (length k))).
    + destruct (drop n k) eqn:E; [|done]. apply (f_equal length) in E. rewrite length_drop in E. simpl in E. lia.
    + by rewrite drop_ge by lia.
Qed.

Lemma memcmp_eq_at m p q k l : bytes_at m p k → bytes_at m q l → length k = length l →
  memcmp_eq m p q (length k) = Ok (list_eqb k l).
Proof.
  revert p q l. induction k as [|a k IH]; intros p q [|b l]; try done.
  intros [Ha Hk] [Hb Hl] [= Hn]. cbn [memcmp_eq length]. rewrite Ha, Hb. cbn [mbind res_bind].
  by rewrite (IH (p + 1) (q + 1) l Hk Hl Hn).
Qed.

Lemma str_match_at m a b k l : holds m a k → holds m b l → str_match m a b = Ok (list_eqb k l).
Proof.
  intros [Ha Hk] [Hb Hl]. unfold str_match. rewrite Ha, Hb. destruct (Z.eqb_spec (Z.of_nat (length k)) (Z.of_nat (length l))).
  - rewrite Nat2Z.id. apply memcmp_eq_at; [done|done|lia].
  - destruct (list_eqb k l) eqn:E; [|done]. apply list_eqb_spec in E. by subst.
Qed.

Lemma casematch_at m end_ p q k l : k ≠ [] → length k = length l → end_ = p + len k →
  bytes_at m p k → bytes_at m q l →
  lands (casematch_round m end_) (λ s, end_ - s.1) (p, q) (eq_nocase k l).
Proof.
  intros Hk. revert p q l. induction k as [|a k IH]; [done|]. intros p q [|b l] Hn He; [done|].
  intros [Ha Hka] [Hb Hlb]. rewrite len_cons in He. pose proof (len_nonneg k).
  assert (Hr : casematch_round m end_ (p, q) =
    if negb (tolower a =? tolower b) then mret (inr false)
    else if p + 1 <? end_ then mret (inl (p + 1, q + 1)) else mret (inr true)).
  { unfold casematch_round. by rewrite Ha, Hb. }
  unfold eq_nocase. cbn [lower map list_eqb].
  destruct (tolower a =? tolower b) eqn:E; cbn [negb andb] in *; [|apply lands_done; cbn [fst]; [done|lia]].
  destruct (Z.ltb_spec (p + 1) end_) as [Hlt|Hge].
  - apply (lands_next _ _ _ (p + 1, q + 1)); [done|cbn [fst]; lia|cbn [fst]; lia|].
    apply IH; try done; [|cbn [length] in Hn; lia|lia].
    intros ->. rewrite len_nil in He. lia.
  - assert (k = []) as -> by (destruct k; [done|rewrite len_cons in He; pose proof (len_nonneg k); lia]).
    destruct l; [|done]. apply lands_done; cbn [fst]; [done|lia].
Qed.

Lemma bytes_at_fun m p k l : bytes_at m p k → bytes_at m p l → length k = length l → k = l.
Proof.
  revert p l. induction k as [|a k IH]; intros p [|b l]; try done. intros [Ha Hk] [Hb Hl] [= Hn].
  f_equal; [congruence|by eapply IH].
Qed.

Lemma str_casematch_at m a b k l : k ≠ [] → holds m a k → holds m b l →
  str_casematch m a b = Ok (eq_nocase k l).
Proof.
  intros Hne [Ha Hk] [Hb Hl]. unfold str_casematch. rewrite Ha, Hb.
  destruct (Z.eqb_spec (Z.of_nat (length k)) (Z.of_nat (length l))) as [Hn|Hn]; cbn [negb].
  - apply Nat2Z.inj in Hn. destruct (Z.eqb_spec (str_s a) (str_s b)) as [Hs|Hs].
    + rewrite Hs in Hk. rewrite (bytes_at_fun m _ k l Hk Hl Hn). unfold eq_nocase. f_equal. symmetry. by apply list_eqb_spec.
    + apply (casematch_at m _ _ _ k l Hne Hn); [done|done|done|cbn [fst]; unfold len; lia].
  - destruct (eq_nocase k l) eqn:E; [|done]. apply list_eqb_spec, (f_equal length) in E. rewrite !length_lower in E. lia.
Qed.

Lemma str_strncasecmp_at m a b k l n : text m a k → text m b l → 0 ≤ n →
  str_strncasecmp m (Some a) (Some b) n =
  Ok (if bool_decide (n ≤ len k ∧ n ≤ len l) then cmp_list (lower (take (Z.to_nat n) k)) (lower (take (Z.to_nat n) l))
      else -2).
Proof.
  intros Ha Hb Hn. unfold str_strncasecmp. rewrite (bad_strs_text m a b k l) by done.
  destruct Ha as (_ & Hla & Hka), Hb as (_ & Hlb & Hkb). rewrite Hla, Hlb. fold (len k) (len l).
  destruct (Z.ltb_spec (len k) n); [by rewrite bool_decide_eq_false_2 by lia|].
  destruct (Z.ltb_spec (len l) n); [by rewrite bool_decide_eq_false_2 by lia|]. cbn [orb].
  rewrite bool_decide_eq_true_2 by lia. unfold len in *.
  destruct (cmp_n_at tolower m (str_s a) (str_s b) k l (Z.to_nat n) Hka Hkb) as (r & -> & _ & Hr); [lia|lia|].
  cbn [mbind res_bind]. unfold lower. by rewrite Hr.
Qed.

(** ** Search *)

(** The offset of the first place where [w] occurs in [l]. *)
Fixpoint first_at (w l : list Z) : option Z :=
  if prefixb w l then Some 0 else
  match l with [] => None | _ :: l => Z.add 1 <$> first_at w l end.

Lemma prefixb_app w v : prefixb w (w ++ v) = true.
Proof. apply prefixb_spec. by rewrite take_app_length. Qed.

Lemma first_at_spec w l :
  match first_at w l with
  | Some i => ∃ u v, l = u ++ w ++ v ∧ len u = i ∧ ∀ u' v', l = u' ++ w ++ v' → len u ≤ len u'
  | None => ∀ u v, l ≠ u ++ w ++ v
  end.
Proof.
  induction l as [|a l IH]; cbn [first_at].
  - destruct (prefixb w []) eqn:E.
    + apply prefixb_spec in E. exists [], []. rewrite take_nil in E. subst w.
      split_and!; [done|done|]. intros u' v' _. apply len_nonneg.
    + intros u v Hu. symmetry in Hu. apply app_eq_nil in Hu as [-> Hu]. by rewrite Hu in E || (apply app_eq_nil in Hu as [-> ->]; done).
  - destruct (prefixb w (a :: l)) eqn:E.
    + apply prefixb_spec in E. exists [], (drop (length w) (a :: l)). cbn [app].
      split_and!; [by rewrite E at 1; rewrite take_drop|done|]. intros u' v' _. apply len_nonneg.
    + destruct (first_at w l) as [i|]; cbn [fmap option_fmap option_map].
      * destruct IH as (u & v & -> & Hi & Hmin). exists (a :: u), v. rewrite len_cons.
        split_and!; [done|lia|]. intros [|b u'] v' Hu.
        -- cbn [app] in Hu. exfalso. rewrite Hu, prefixb_app in E. done.
        -- injection Hu as _ Hu. specialize (Hmin u' v' Hu). rewrite len_cons. lia.
      * intros [|b u] v Hu; [cbn [app] in Hu; rewrite Hu, prefixb_app in E; done|]. injection Hu as _ Hu. by apply (IH u v).
Qed.

Lemma first_at_short w l : len l < len w → first_at w l = None.
Proof.
  intros Hl. assert (Hp : ∀ t, len t ≤ len l → prefixb w t = false).
  { intros t Ht. destruct (prefixb w t) eqn:E; [|done]. apply prefixb_length in E. unfold len in *. lia. }
  induction l as [|a l IH]; cbn [first_at]; rewrite Hp by lia; [done|].
  rewrite len_cons in *. rewrite IH; [done|lia|]. intros t Ht. apply Hp. lia.
Qed.

Lemma search_run (round : Z → res (Z + option Z)) (base s : Z) (w l : list Z) :
  (∀ pre suf, l = pre ++ suf → round (base + len pre) =
     Ok (if len w <=? len suf then if prefixb w suf then inr (Some (s + len pre)) else inl (base + len pre + 1)
         else inr None)) →
  w ≠ [] → lands round (λ n, base + len l - n) base (Z.add s <$> first_at w l).
Proof.
  intros Hround Hw. enough (Hall : ∀ suf pre, l = pre ++ suf →
    lands round (λ n, base + len l - n) (base + len pre) (Z.add (s + len pre) <$> first_at w suf)).
  { specialize (Hall l [] eq_refl). rewrite len_nil, !Z.add_0_r in Hall. done. }
  intros suf. induction suf as [|c suf IH]; intros pre Hl; pose proof (Hround pre _ Hl) as Hr; cbn [first_at].
  - destruct w as [|d w]; [done|]. cbn [prefixb]. rewrite len_cons, len_nil in Hr. pose proof (len_nonneg w).
    destruct (Z.leb_spec (1 + len w) 0); [lia|]. apply lands_done; [done|]. subst l. rewrite len_app, len_nil. lia.
  - assert (Hn : 0 ≤ base + len l - (base + len pre)) by (subst l; rewrite len_app; pose proof (len_nonneg (c :: suf)); lia).
    destruct (Z.leb_spec (len w) (len (c :: suf))) as [Hle|Hgt].
    + destruct (prefixb w (c :: suf)); [apply lands_done; [rewrite Hr; cbn [fmap option_fmap option_map]; by rewrite Z.add_0_r|done]|].
      apply (lands_next _ _ _ _ _ Hr); [done|lia|].
      specialize (IH (pre ++ [c])). rewrite len_app in IH. change (len [c]) with 1 in IH.
      replace (base + len pre + 1) with (base + (len pre + 1)) by lia.
      assert (E : Z.add (s + len pre) <$> (Z.add 1 <$> first_at w suf) = Z.add (s + (len pre + 1)) <$> first_at w suf).
      { destruct (first_at w suf); cbn; [f_equal; lia|done]. }
      rewrite E. apply IH. subst l. by rewrite <- app_assoc.
    + pose proof (first_at_short w (c :: suf) Hgt) as Hnone. cbn [first_at] in Hnone. rewrite Hnone. by apply lands_done.
Qed.

Lemma strstr_for_at m p q i k l : bytes_at m (p + i) k → bytes_at m (q + i) l → length k = length l →
  ∃ j, strstr_for m p q i (length k) = Ok j ∧ (j =? i + len k) = list_eqb k l.
Proof.
  revert i l. induction k as [|a k IH]; intros i [|b l] Hk Hl Hn; try done.
  { exists i. split; [done|]. rewrite len_nil, Z.add_0_r. apply Z.eqb_refl. }
  destruct Hk as [Ha Hk], Hl as [Hb Hl]. cbn [length strstr_for]. rewrite Ha, Hb. cbn [mbind res_bind].
  pose proof (len_nonneg k). rewrite len_cons. cbn [list_eqb].
  destruct (Z.eqb_spec a b) as [->|]; cbn [negb andb]; [|exists i; split; [done|lia]].
  rewrite <- !Z.add_assoc in Hk, Hl. destruct (IH (i + 1) l Hk Hl ltac:(simpl in Hn; lia)) as (j & -> & Hj).
  exists j. split; [done|]. rewrite <- Hj. f_equal. lia.
Qed.

Lemma prefixb_take w l : (length w ≤ length l)%nat → prefixb w l = list_eqb (take (length w) l) w.
Proof.
  intros H. apply eq_true_iff_eq. rewrite prefixb_spec, list_eqb_spec. split; intros; by symmetry.
Qed.

Section search.
Context (m : mem) (s t : Z) (l w : list Z).
Hypothesis Hl : bytes_at m s l.
Hypothesis Hw : bytes_at m t w.
Hypothesis Hne : w ≠ [].

Lemma str_strstr_at : s ≠ 0 → t ≠ 0 → str_strstr m (Some (Str s (len l))) (Some (Str t (len w))) = Ok (Z.add s <$> first_at w l).
Proof.
intros Hs Ht. assert (Hwl : 0 < len w) by (destruct w; [done|rewrite len_cons; pose proof (len_nonneg l0); lia]).
assert (Hrun : lands (strstr_round m (Str s (len l)) (Str t (len w))) (λ n, 0 + len l - n) 0 (Z.add s <$> first_at w l)).
{ apply search_run; [|done]. intros pre suf ->. rewrite Z.add_0_l. apply bytes_at_app in Hl as [_ Hsuf]. fold (len pre) in Hsuf.
  unfold strstr_round. cbn [str_s str_len]. rewrite len_app. replace (len pre + len suf - len pre) with (len suf) by lia.
  destruct (Z.leb_spec (len w) (len suf)) as [Hle|]; [|done].
  destruct w as [|d w']; [done|]. destruct suf as [|c suf]; [rewrite len_nil in Hle; lia|].
  destruct Hsuf as [Hc Hsuf], Hw as [Hd Hw']. rewrite Hc, Hd. cbn [mbind res_bind prefixb]. rewrite !len_cons in *.
  rewrite (Z.eqb_sym d c). destruct (Z.eqb_spec c d) as [->|]; cbn [negb andb]; [|done].
  assert (Hlen : (length w' ≤ length suf)%nat) by (unfold len in *; lia).
  destruct (strstr_for_at m (s + len pre) t 1 (take (length w') suf) w') as (j & Hj & Hjw).
  { rewrite <- (take_drop (length w') suf) in Hsuf. by apply bytes_at_app in Hsuf as [? _]. }
  { done. } { rewrite length_take. lia. }
  rewrite length_take, Nat.min_l in Hj by lia. replace (Z.to_nat (1 + len w' - 1)) with (length w') by (unfold len; lia).
  rewrite Hj. cbn [mbind res_bind]. unfold len in Hjw at 1. rewrite length_take, Nat.min_l in Hjw by lia. fold (len w') in Hjw.
  rewrite Hjw, prefixb_take by lia. by destruct (list_eqb _ _). }
unfold str_strstr. cbn [str_s str_len]. destruct (Z.eqb_spec s 0); [done|]. destruct (Z.eqb_spec t 0); [done|].
destruct (Z.leb_spec (len w) 0); [lia|]. pose proof (len_nonneg l).
destruct (Z.leb_spec (len l) 0); cbn [orb]; [by rewrite first_at_short by lia|].
destruct (Z.ltb_spec (len l) (len w)); [by rewrite first_at_short by lia|]. apply Hrun. lia.
Qed.

Lemma l_memmem_at : s ≠ 0 → t ≠ 0 → l_memmem m s t (len l) (len w) = Ok (Z.add s <$> first_at w l).
Proof.
intros Hs Ht. assert (Hwl : 0 < len w) by (destruct w; [done|rewrite len_cons; pose proof (len_nonneg l0); lia]).
assert (Hrun : lands (memmem_round m t (len w) (s + len l - len w)) (λ n, s + len l - n) s (Z.add s <$> first_at w l)).
{ apply search_run; [|done]. intros pre suf ->. apply bytes_at_app in Hl as [_ Hsuf]. fold (len pre) in Hsuf.
  unfold memmem_round. rewrite len_app.
  destruct (Z.leb_spec (len w) (len suf)) as [Hle|].
  - destruct (Z.leb_spec (s + len pre) (s + (len pre + len suf) - len w)); [|lia].
    destruct w as [|d w']; [done|]. destruct suf as [|c suf]; [rewrite len_nil in Hle; lia|].
    pose proof Hsuf as [Hc _]. pose proof Hw as [Hd _]. rewrite Hc, Hd. cbn [mbind res_bind].
    assert (Hlen : (length (d :: w') ≤ length (c :: suf))%nat) by (unfold len in *; lia).
    destruct (Z.eqb_spec c d) as [->|Hcd].
    + replace (Z.to_nat (len (d :: w'))) with (length (take (length (d :: w')) (d :: suf))) by (rewrite length_take; unfold len; lia).
      rewrite (memcmp_eq_at m _ _ _ (d :: w')).
      * cbn [mbind res_bind]. rewrite <- prefixb_take by lia. by destruct (prefixb _ _).
      * rewrite <- (take_drop (length (d :: w')) (d :: suf)) in Hsuf. by apply bytes_at_app in Hsuf as [? _].
      * done.
      * rewrite length_take. lia.
    + cbn [prefixb]. destruct (Z.eqb_spec d c); [congruence|]. done.
  - destruct (Z.leb_spec (s + len pre) (s + (len pre + len suf) - len w)); [lia|done]. }
unfold l_memmem. destruct (Z.eqb_spec s 0); [done|]. destruct (Z.eqb_spec t 0); [done|].
destruct (Z.eqb_spec (len w) 0); [lia|]. pose proof (len_nonneg l). destruct (Z.eqb_spec (len l) 0); cbn [negb andb]; [by rewrite first_at_short by lia|].
apply Hrun. lia.
Qed.
End search.

(** ** Escapes in place *)

(** What [unescape_crlf] should compute. *)
Fixpoint crlf_of (l : list Z) : list Z :=
  match l with
  | [] => []
  | c :: l' =>
      match l' with
      | [] => [c]
      | d :: r =>
          if (c =? BSLASH) && (d =? ch "r") then CR :: crlf_of r
          else if (c =? BSLASH) && (d =? ch "n") then LF :: crlf_of r
          else c :: crlf_of l'
      end
  end.

Lemma nth_done (done : list Z) c rest : nth (length done) (done ++ c :: rest) 0 = c.
Proof. by rewrite app_nth2, Nat.sub_diag by lia. Qed.

Lemma nth_done_next (done : list Z) c d rest : nth (length done + 1) (done ++ c :: d :: rest) 0 = d.
Proof. rewrite app_nth2 by lia. by replace (length done + 1 - length done)%nat with 1%nat by lia. Qed.

(** The gap is closed, and the buffer ends with one more copy of its last character. *)
Lemma close_gap_at done c d r x k e : last (d :: r) = Some x →
  close_gap (<[length done := e]> (done ++ c :: d :: r ++ replicate k x)) (length done) =
  (done ++ [e]) ++ r ++ replicate (S k) x.
Proof.
  intros Hx. rewrite insert_app_r_alt by lia. rewrite Nat.sub_diag. cbn [insert list_insert].
  unfold close_gap. set (tail := replicate k x).
  assert (Hd : drop (length (done ++ e :: d :: r ++ tail) - 1) (done ++ e :: d :: r ++ tail) = [x]).
  { assert (Hl : last (done ++ e :: d :: r ++ tail) = Some x).
    { change (done ++ e :: d :: r ++ tail) with (done ++ [e] ++ (d :: r) ++ tail). rewrite !app_assoc.
      unfold tail. destruct k as [|k]; [by rewrite app_nil_r, last_app, Hx|].
      by rewrite replicate_S_end, app_assoc, last_snoc. }
    apply last_Some in Hl as [l Hl]. rewrite Hl, length_app. cbn [length].
    replace (length l + 1 - 1)%nat with (length l) by lia. by rewrite drop_app_length. }
  rewrite Hd, take_app_ge, drop_app_ge by lia.
  replace (length done + 1 - length done)%nat with 1%nat by lia.
  replace (length done + 2 - length done)%nat with 2%nat by lia. cbn [take drop].
  rewrite drop_0, <- !app_assoc. unfold tail. by rewrite replicate_S_end.
Qed.

(** Among the copies of the last character nothing is an escape. *)
Lemma crlf_idle done k x n ps : Forall (λ p, length done ≤ p)%nat ps →
  fold_left unescape_crlf_round ps (done ++ replicate k x, n) = (done ++ replicate k x, n).
Proof.
  induction 1 as [|p ps Hp _ IH]; [by cbn|]. cbn [fold_left]. rewrite <- IH at 2. f_equal.
  assert (Hnth : ∀ q, (length done ≤ q)%nat → nth q (done ++ replicate k x) 0 = if (q - length done <? k)%nat then x else 0).
  { intros q Hq. rewrite nth_lookup, lookup_app_r by lia.
    destruct (Nat.ltb_spec (q - length done) k); [by rewrite lookup_replicate_2|].
    rewrite lookup_ge_None_2; [done|rewrite length_replicate; lia]. }
  unfold unescape_crlf_round. rewrite !Hnth by lia. rewrite length_app, length_replicate.
  destruct (Nat.ltb_spec (p - length done) k); [|done].
  destruct (Z.eqb_spec x BSLASH) as [->|]; [|done]. destruct (Nat.ltb_spec (p + 1) (length done + k)); [|done].
  cbn [andb]. destruct (Nat.ltb_spec (p + 1 - length done) k); [done|lia].
Qed.

Lemma crlf_fold N j done rest k x :
  (length done + j = N)%nat → (length done + length rest + k = N)%nat → (rest ≠ [] → last rest = Some x) →
  let '(buf, n) := fold_left unescape_crlf_round (seq (length done) j)
                     (done ++ rest ++ replicate k x, Z.of_nat (N - k)) in
  n = len (done ++ crlf_of rest) ∧ take (Z.to_nat n) buf = done ++ crlf_of rest ∧ length buf = N.
Proof.
  revert done rest k. induction j as [|j IH]; intros done rest k Hj Hlen Hx; destruct rest as [|c [|d r]].
  2,3: simpl in Hlen; lia.
  - assert (k = O) as -> by (simpl in Hlen; lia). cbn [seq fold_left crlf_of replicate app].
    rewrite !app_nil_r, Nat2Z.id, take_ge by lia. unfold len. split_and!; [lia|done|lia].
  - cbn [app crlf_of]. rewrite crlf_idle by (apply Forall_forall; intros p Hp; apply elem_of_seq in Hp; lia).
    rewrite app_nil_r, Nat2Z.id. simpl in Hlen. rewrite take_app_ge by lia.
    replace (N - k - length done)%nat with O by lia. rewrite app_nil_r, length_app, length_replicate. unfold len. split_and!; [lia|done|lia].
  - specialize (Hx ltac:(done)). injection Hx as ->. simpl in Hlen. cbn [crlf_of].
    change ([x] ++ replicate k x) with (replicate (S k) x).
    rewrite crlf_idle by (apply Forall_forall; intros p Hp; apply elem_of_seq in Hp; lia).
    rewrite Nat2Z.id, length_app, length_replicate. rewrite take_app_ge by lia.
    replace (N - k - length done)%nat with 1%nat by lia. rewrite len_app. change (len [x]) with 1. unfold len. split_and!; [lia|done|lia].
  - specialize (Hx ltac:(done)). cbn [length] in Hlen. cbn [seq fold_left].
    assert (Hput : ∀ e, (let '(buf, n) := fold_left unescape_crlf_round (seq (S (length done)) j)
        (close_gap (<[length done := e]> (done ++ (c :: d :: r) ++ replicate k x)) (length done), Z.of_nat (N - k) - 1) in
        n = len (done ++ e :: crlf_of r) ∧ take (Z.to_nat n) buf = done ++ e :: crlf_of r ∧ length buf = N)).
    { intros e. cbn [app]. rewrite (close_gap_at done c d r x k e Hx), <- app_assoc. cbn [app].
      specialize (IH (done ++ [e]) r (S k)). rewrite length_app in IH. cbn [length] in IH.
      replace (length done + 1)%nat with (S (length done)) in IH by lia. rewrite <- !app_assoc in IH. cbn [app] in IH.
      replace (Z.of_nat (N - k) - 1) with (Z.of_nat (N - S k)) by lia. apply IH; [lia|lia|].
      intros Hr. destruct r; [done|exact Hx]. }
    assert (Hkeep : crlf_of (c :: d :: r) = c :: crlf_of (d :: r) →
        let '(buf, n) := fold_left unescape_crlf_round (seq (S (length done)) j)
          (done ++ (c :: d :: r) ++ replicate k x, Z.of_nat (N - k)) in
        n = len (done ++ crlf_of (c :: d :: r)) ∧ take (Z.to_nat n) buf = done ++ crlf_of (c :: d :: r) ∧ length buf = N).
    { intros ->. specialize (IH (done ++ [c]) (d :: r) k). rewrite length_app in IH. cbn [length] in IH.
      replace (length done + 1)%nat with (S (length done)) in IH by lia. rewrite <- !app_assoc in IH. cbn [app] in IH.
      apply IH; [lia|lia|intros _; exact Hx]. }
    revert Hput Hkeep. unfold unescape_crlf_round at 2 4. cbn [app]. rewrite nth_done, nth_done_next, length_app. cbn [length].
    rewrite length_app, length_replicate. rewrite (proj2 (Nat.ltb_lt _ _)) by lia. rewrite andb_true_r.
    cbn [crlf_of]. intros Hput Hkeep.
    destruct (c =? BSLASH); cbn [andb] in *; [|by apply Hkeep].
    destruct (d =? ch "r"); [apply Hput|]. destruct (d =? ch "n"); [apply Hput|by apply Hkeep].
Qed.

(** ** Properties *)

(** The comparisons of ut.h agree with each other.  Both orders are lexicographic,
    of the characters and of the characters in lower case, and total: the opposite
    comparison has the opposite sign, and they are transitive.  Equality is what
    [str_match] and, unless the strings are empty, [str_casematch] decide, and the
    comparison of [i] characters is the comparison of the prefixes. *)
Lemma string_order m a b c k l n : text m a k → text m b l → text m c n →
  str_strcmp m (Some a) (Some b) = Ok (cmp_list k l) ∧
  str_strcasecmp m (Some a) (Some b) = Ok (cmp_list (lower k) (lower l)) ∧
  str_match m a b = (λ r, r =? 0) <$> str_strcmp m (Some a) (Some b) ∧
  (k ≠ [] → str_casematch m a b = (λ r, r =? 0) <$> str_strcasecmp m (Some a) (Some b)) ∧
  (∀ i, 0 ≤ i → str_strncasecmp m (Some a) (Some b) i =
    if bool_decide (i ≤ len k ∧ i ≤ len l) then str_strcasecmp m (Some (Str (str_s a) i)) (Some (Str (str_s b) i)) else Ok (-2)) ∧
  Forall (λ cmp : mem → option str → option str → res Z, ∃ ab bc ac,
    cmp m (Some a) (Some b) = Ok ab ∧ cmp m (Some b) (Some c) = Ok bc ∧ cmp m (Some a) (Some c) = Ok ac ∧
    cmp m (Some b) (Some a) = Ok (- ab) ∧ (ab ≤ 0 → bc ≤ 0 → ac ≤ 0))
  [str_strcmp; str_strcasecmp].
Proof.
  intros Ha Hb Hc.
  assert (Hcmp : ∀ x y kx ky, text m x kx → text m y ky → str_strcmp m (Some x) (Some y) = Ok (cmp_list kx ky)).
  { intros x y kx ky Hx Hy. unfold str_strcmp. rewrite (cmp_strs_at id m x y kx ky Hx Hy). by rewrite !map_id. }
  assert (Hcase : ∀ x y kx ky, text m x kx → text m y ky → str_strcasecmp m (Some x) (Some y) = Ok (cmp_list (lower kx) (lower ky))).
  { intros x y kx ky. apply cmp_strs_at. }
  assert (Hzero : ∀ u v, list_eqb u v = (cmp_list u v =? 0)).
  { intros u v. apply eq_true_iff_eq. by rewrite list_eqb_spec, Z.eqb_eq, cmp_list_eq. }
  split_and!; [by apply Hcmp|by apply Hcase| | | |].
  - rewrite (Hcmp a b k l Ha Hb), (str_match_at m a b k l (proj2 Ha) (proj2 Hb)). by rewrite Hzero.
  - intros Hk. rewrite (Hcase a b k l Ha Hb), (str_casematch_at m a b k l Hk (proj2 Ha) (proj2 Hb)).
    unfold eq_nocase. by rewrite Hzero.
  - intros i Hi. rewrite (str_strncasecmp_at m a b k l i Ha Hb Hi). case_bool_decide as Hlen; [|done]. symmetry.
    assert (Htake : ∀ x kx, text m x kx → i ≤ len kx → text m (Str (str_s x) i) (take (Z.to_nat i) kx)).
    { intros x kx (Hs & Hl & Hat) Hle. split; [done|]. split; cbn [str_s str_len].
      - rewrite length_take. unfold len in Hle. lia.
      - rewrite <- (take_drop (Z.to_nat i) kx) in Hat. by apply bytes_at_app in Hat as [? _]. }
    apply Hcase; apply Htake; (done || lia).
  - apply Forall_cons; split; [|apply Forall_singleton].
    + exists (cmp_list k l), (cmp_list l n), (cmp_list k n).
      split_and!; [by apply Hcmp|by apply Hcmp|by apply Hcmp| |apply cmp_list_trans].
      rewrite (Hcmp b a l k Hb Ha). f_equal. apply cmp_list_antisym.
    + exists (cmp_list (lower k) (lower l)), (cmp_list (lower l) (lower n)), (cmp_list (lower k) (lower n)).
      split_and!; [by apply Hcase|by apply Hcase|by apply Hcase| |apply cmp_list_trans].
      rewrite (Hcase b a l k Hb Ha). f_equal. apply cmp_list_antisym.
Qed.

Lemma string_order_witness :
  let m := block (chars "aBabb") in let a := Str 4096 2 in let b := Str 4098 2 in let c := Str 4100 1 in
  let k := chars "aB" in let l := chars "ab" in
  str_strcmp m (Some a) (Some b) = Ok (cmp_list k l) ∧
  str_strcasecmp m (Some a) (Some b) = Ok (cmp_list (lower k) (lower l)) ∧
  str_match m a b = (λ r, r =? 0) <$> str_strcmp m (Some a) (Some b) ∧
  (k ≠ [] → str_casematch m a b = (λ r, r =? 0) <$> str_strcasecmp m (Some a) (Some b)) ∧
  (∀ i, 0 ≤ i → str_strncasecmp m (Some a) (Some b) i =
    if bool_decide (i ≤ len k ∧ i ≤ len l) then str_strcasecmp m (Some (Str (str_s a) i)) (Some (Str (str_s b) i)) else Ok (-2)) ∧
  Forall (λ cmp : mem → option str → option str → res Z, ∃ ab bc ac,
    cmp m (Some a) (Some b) = Ok ab ∧ cmp m (Some b) (Some c) = Ok bc ∧ cmp m (Some a) (Some c) = Ok ac ∧
    cmp m (Some b) (Some a) = Ok (- ab) ∧ (ab ≤ 0 → bc ≤ 0 → ac ≤ 0))
  [str_strcmp; str_strcasecmp].
Proof. apply (string_order _ _ _ _ (chars "aB") (chars "ab") (chars "b")); by vm_compute. Defined.

(** [str_strstr] and [l_memmem] find the first occurrence of a string that is not
    empty, or a null pointer if there is none. *)
Lemma search_first m s t l w : s ≠ 0 → t ≠ 0 → w ≠ [] → bytes_at m s l → bytes_at m t w →
  ∃ r, str_strstr m (Some (Str s (len l))) (Some (Str t (len w))) = Ok r ∧ l_memmem m s t (len l) (len w) = Ok r ∧
  match r with
  | Some p => ∃ u v, l = u ++ w ++ v ∧ p = s + len u ∧ ∀ u' v', l = u' ++ w ++ v' → len u ≤ len u'
  | None => ∀ u v, l ≠ u ++ w ++ v
  end.
Proof.
  intros Hs Ht Hne Hl Hw. exists (Z.add s <$> first_at w l).
  split; [by apply str_strstr_at|]. split; [by apply l_memmem_at|].
  pose proof (first_at_spec w l) as Hf. destruct (first_at w l) as [i|]; cbn; [|done].
  destruct Hf as (u & v & -> & <- & Hmin). by exists u, v.
Qed.

Lemma search_first_witness :
  ∃ r, str_strstr (block (chars "aabab")) (Some (Str 4096 (len (chars "aab")))) (Some (Str 4099 (len (chars "ab")))) = Ok r ∧
  l_memmem (block (chars "aabab")) 4096 4099 (len (chars "aab")) (len (chars "ab")) = Ok r ∧
  match r with
  | Some p => ∃ u v, chars "aab" = u ++ chars "ab" ++ v ∧ p = 4096 + len u ∧
      ∀ u' v', chars "aab" = u' ++ chars "ab" ++ v' → len u ≤ len u'
  | None => ∀ u v, chars "aab" ≠ u ++ chars "ab" ++ v
  end.
Proof. by apply (search_first (block (chars "aabab")) 4096 4099 (chars "aab") (chars "ab")); vm_compute. Defined.

(** [unescape_crlf], which closes a gap in the buffer for each escape and goes on to
    the end that the string had before, replaces the two escapes from left to right,
    and nothing else. *)
Lemma unescape_crlf_value l :
  let '(buf, n) := unescape_crlf l in
  n = len (crlf_of l) ∧ take (Z.to_nat n) buf = crlf_of l ∧ length buf = length l.
Proof.
  unfold unescape_crlf. pose proof (crlf_fold (length l) (length l) [] l 0 (default 0 (last l))) as H.
  cbn [replicate app length] in H. rewrite app_nil_r, Nat.sub_0_r in H. apply H; [done|lia|].
  intros Hl. destruct (last l) eqn:E; [done|]. by apply last_None in E.
Qed.

(** Two empty strings at different addresses: the characters behind them decide. *)
Lemma casematch_empty :
  str_casematch (block (chars "ab")) (Str 4096 0) (Str 4097 0) = Ok false ∧
  str_casematch (block (chars "aA")) (Str 4096 0) (Str 4097 0) = Ok true ∧
  str_casematch (block (chars "a")) (Str 4096 0) (Str 4097 0) = Fault 4097.
Proof. by vm_compute. Qed.
