(* ===== verification/Terminate.v ===== *)
(** * Termination of the string functions, whatever the memory holds

    The functions of Escape, Codec and Strings that walk through memory stop on every
    input: lengths that are negative or too long, texts that are cut off, memory that
    is not theirs.  They may be stopped by a [Fault], but no loop runs on. *)

From stdpp Require Import strings.
From S2P Require Escape.
From S2P Require Codec.
From S2P Require Export Strings.

Definition halts {A} (r : res A) : Prop := r ≠ OutOfFuel.

Lemma halts_bind {A B} (r : res A) (f : A → res B) : halts r → (∀ a, r = Ok a → halts (f a)) → halts (r ≫= f).
Proof. unfold halts. destruct r; cbn; auto; discriminate. Qed.

Lemma halts_rd m p : halts (rd m p).
Proof. unfold halts, rd. destruct (_ <? _); [done|]. by destruct (_ !! _). Qed.

Lemma halts_ret {A} (a : A) : halts (mret a).
Proof. done. Qed.

(** The rounds do not run on, and each that goes on decreases a measure that stays in
    the natural numbers. *)
Lemma halts_loop {A B} (body : A → res (A + B)) (μ : A → Z) fuel s :
  (∀ s, halts (body s) ∧ ∀ s', body s = Ok (inl s') → 0 ≤ μ s' < μ s) →
  μ s < Z.of_nat fuel → (0 < fuel)%nat → halts (loop body fuel s).
Proof.
  intros Hbody. revert s. induction fuel as [|fuel IH]; intros s Hlt Hpos; [lia|]. cbn [loop].
  destruct (Hbody s) as [Hs Hnext]. apply (halts_bind (body s)); [done|]. intros [s'|b] Hb; [|done].
  specialize (Hnext s' Hb). apply IH; lia.
Qed.

(** Decides [halts] of straight-line code. *)
Ltac halt :=
  repeat first
    [ apply halts_rd | apply halts_ret | apply halts_bind; [|intros ? ?]
    | match goal with |- halts (match ?x with _ => _ end) => destruct x eqn:? end | done ].

(** Inverts a run that goes round. *)
Ltac unrun H :=
  repeat first
    [ match type of H with
      | mret _ = _ => cbn [mret res_ret] in H; first [discriminate H|injection H as <-]
      | (rd ?m ?p ≫= _) = _ => destruct (rd m p) eqn:?; try discriminate H; cbn [mbind res_bind] in H
      | match ?x with _ => _ end = _ => destruct x eqn:?; try discriminate H
      end ].

(** ** Escape *)
Section escape.
Import Escape.

Lemma unescape_user_halts m x n : halts (unescape_user m x n).
Proof.
unfold unescape_user. destruct (_ || _); [done|]. destruct (_ || _); [done|].
apply (halts_loop _ (λ s, Z.max 0 (str_s x + str_len x - s.1))); [|cbn [fst]; lia|lia].
intros [p out]. split; [unfold unescape_user_round; halt|]. intros s' H. unfold unescape_user_round in H.
destruct (Z.ltb_spec p (str_s x + str_len x)); [|discriminate H]. unrun H; cbn [fst]; lia.
Qed.

Lemma un_escape_halts m x : halts (un_escape m x).
Proof.
unfold un_escape. apply (halts_loop _ (λ s, Z.max 0 (str_len x - s.1))); [|cbn [fst]; lia|lia].
intros [i out]. split; [unfold un_escape_round; halt|]. intros s' H. unfold un_escape_round in H.
destruct (Z.ltb_spec i (str_len x)); [|discriminate H]. unrun H; cbn [fst]; lia.
Qed.
End escape.

(** ** Codec *)
Section codec.
Import Codec.

Lemma encode64_halts digits pad m fuel p n : n < Z.of_nat fuel → (0 < fuel)%nat → halts (encode64 digits pad m fuel p n).
Proof.
revert p n. induction fuel as [|fuel IH]; intros p n Hf Hpos; [lia|]. cbn [encode64].
destruct (Z.leb_spec 3 n); [|halt]. halt. apply IH; lia.
Qed.

Lemma encode32_halts pad m fuel p n : n < Z.of_nat fuel → (0 < fuel)%nat → halts (encode32 m pad fuel p n).
Proof.
revert p n. induction fuel as [|fuel IH]; intros p n Hf Hpos; [lia|]. cbn [encode32].
destruct (Z.leb_spec 5 n); [|halt]. halt. apply IH; lia.
Qed.

Lemma digit_at_halts val m in_ n pad i :
halts (digit_at val m in_ n pad i) ∧ ∀ c i', digit_at val m in_ n pad i = Ok (Digit c i') → i < i'.
Proof.
unfold digit_at. assert (Hf : n - i < Z.of_nat (S (Z.to_nat (n - i)))) by lia.
assert (Hpos : (0 < S (Z.to_nat (n - i)))%nat) by lia. revert Hf Hpos. generalize (S (Z.to_nat (n - i))) as fuel.
intros fuel. revert i. induction fuel as [|fuel IH]; intros i Hf Hpos; [lia|]. cbn [next_digit].
destruct (rd m (in_ + i)) as [c| |] eqn:E; cbn [mbind res_bind]; [|done|by apply halts_rd in E].
case_bool_decide; [done|]. destruct (at_ val c =? BAD).
- destruct (Z.ltb_spec (i + 1) n); [|done]. destruct (IH (i + 1)) as [Hh Hn]; [lia|lia|].
  split; [done|]. intros c' i' H'. apply Hn in H'. lia.
- split; [done|]. intros c' i' [= <- <-]. lia.
Qed.

(** One digit more: the code that follows halts, and goes on from a later place. *)
Definition advances (n i : Z) (r : res (Z * list Z + list Z)) : Prop :=
halts r ∧ ∀ s', r = Ok (inl s') → i < s'.1.

Lemma advances_digit val m in_ n pad i (k : digit → res (Z * list Z + list Z)) i0 :
i0 ≤ i → advances n i0 (k Padding) → advances n i0 (k Bad) → (∀ c i', i < i' → advances n i0 (k (Digit c i'))) →
advances n i0 (d ← digit_at val m in_ n pad i; k d).
Proof.
intros Hi Hp Hb Hk. destruct (digit_at_halts val m in_ n pad i) as [Hh Hn].
destruct (digit_at val m in_ n pad i) as [[c i'| |]| |]; cbn [mbind res_bind]; [apply Hk; eauto|done|done| |done].
split; [done|by intros s'].
Qed.

Lemma advances_done n i out : advances n i (mret (inr out)).
Proof. split; [done|by intros s' [=]]. Qed.

Lemma advances_next n i i' out : i < i' → advances n i (mret (inl (i', out))).
Proof. intros Hi. split; [done|]. by intros s' [= <-]. Qed.

Lemma decode_halts round n : (∀ i out, i < n → advances n i (round (i, out))) →
(∀ i out, n ≤ i → round (i, out) = Ok (inr out)) → halts (loop round (S (Z.to_nat n)) (0, [])).
Proof.
intros Hr Hstop. apply (halts_loop _ (λ s, Z.max 0 (n - s.1))); [|cbn [fst]; lia|lia]. intros [i out].
destruct (Z.lt_ge_cases i n) as [Hlt|Hge].
- destruct (Hr i out Hlt) as [Hh Hn]. split; [done|]. intros s' H. apply Hn in H. cbn [fst]. lia.
- rewrite Hstop by done. split; [done|by intros s' [=]].
Qed.

Ltac advance := repeat first [ apply advances_done | apply advances_next; lia | apply advances_digit; [lia| | |intros ? ? ?] ].

Lemma decode64_halts val m p n : halts (decode64 val m p n).
Proof.
unfold decode64. apply decode_halts; intros i out Hi; unfold decode64_round;
  destruct (Z.ltb_spec i n); try lia; cbn [negb]; [advance|done].
Qed.

Lemma decode32_halts m p n pad : halts (_base32decode m p n pad).
Proof.
unfold _base32decode. apply decode_halts; intros i out Hi; unfold decode32_round;
  destruct (Z.ltb_spec i n); try lia; cbn [negb]; [unfold with_digit; advance|done].
Qed.
End codec.

(** ** Strings *)
Lemma memcmp_eq_halts m p q n : halts (memcmp_eq m p q n).
Proof. revert p q. induction n as [|n IH]; intros p q; cbn [memcmp_eq]; halt. Qed.

Lemma cmp_n_halts f m p q n : halts (cmp_n f m p q n).
Proof. revert p q. induction n as [|n IH]; intros p q; cbn [cmp_n]; halt. Qed.

Lemma str_casematch_halts m a b : halts (str_casematch m a b).
Proof.
unfold str_casematch. destruct (negb _); [done|]. destruct (_ =? _); [done|].
apply (halts_loop _ (λ s, Z.max 0 (str_s a + str_len a - s.1))); [|cbn [fst]; lia|lia].
intros [p q]. split; [unfold casematch_round; halt|]. intros s' H. unfold casematch_round in H.
unrun H. cbn [fst]. apply Z.ltb_lt in Heqb1. lia.
Qed.

Lemma cmp_strs_halts f m a b : halts (cmp_strs f m a b).
Proof. unfold cmp_strs. halt. apply cmp_n_halts. Qed.

Lemma str_strncasecmp_halts m a b n : halts (str_strncasecmp m a b n).
Proof. unfold str_strncasecmp. halt. apply cmp_n_halts. Qed.

Lemma strstr_for_halts m p q i n : halts (strstr_for m p q i n).
Proof. revert i. induction n as [|n IH]; intros i; cbn [strstr_for]; halt. Qed.

Lemma str_strstr_halts m a b : halts (str_strstr m a b).
Proof.
unfold str_strstr. destruct a as [a|]; [|done]. destruct b as [b|]; [|done].
destruct (Z.eqb_spec (str_s a) 0), (Z.eqb_spec (str_s b) 0), (Z.leb_spec (str_len a) 0), (Z.leb_spec (str_len b) 0);
  try done. cbn [orb]. destruct (_ <? _); [done|].
apply (halts_loop _ (λ n, Z.max 0 (str_len a - n))); [|lia|lia].
intros n'. unfold strstr_round. destruct (Z.leb_spec (str_len b) (str_len a - n')); [|by split; [done|intros s' [=]]].
split; [halt; apply strstr_for_halts|]. intros s' H'. unrun H'; [lia|].
destruct (strstr_for _ _ _ _ _); try discriminate H'. cbn [mbind res_bind] in H'. unrun H'. lia.
Qed.

Lemma l_memmem_halts m b1 b2 n1 n2 : 0 ≤ n1 → 0 ≤ n2 → halts (l_memmem m b1 b2 n1 n2).
Proof.
intros H1 H2. unfold l_memmem. destruct (negb _) eqn:E; [done|].
apply (halts_loop _ (λ sp, Z.max 0 (b1 + n1 - sp))); [|lia|lia].
intros sp. unfold memmem_round. destruct (Z.leb_spec sp (b1 + n1 - n2)); [|by split; [done|intros s' [=]]].
apply negb_false_iff in E. rewrite !andb_true_iff, !negb_true_iff, !Z.eqb_neq in E.
split; [halt; apply memcmp_eq_halts|]. intros s' H'. unrun H'; [|lia].
destruct (memcmp_eq _ _ _ _) as [[]| |]; try discriminate H'. cbn [mbind res_bind] in H'. unrun H'. lia.
Qed.

(** ** Property *)

(** C40: the functions that unescape, encode, decode, compare and search end on every
    memory and for all addresses and lengths, negative ones and texts that are cut off
    included: the bound of each loop is never reached. *)
Theorem string_functions_terminate m x y (sx sy : option str) p q n (n1 n2 : nat) pad :
  (halts (Escape.unescape_user m x n) ∧ halts (Escape.unescape_param m x n) ∧ halts (Escape.un_escape m x)) ∧
  (halts (Codec.base64encode m p n) ∧ halts (Codec.base64urlencode m p n) ∧ halts (Codec.word64encode m p n) ∧
   halts (Codec._base32encode m p n pad)) ∧
  (halts (Codec.base64decode m p n) ∧ halts (Codec.base64urldecode m p n) ∧ halts (Codec.word64decode m p n) ∧
   halts (Codec._base32decode m p n pad)) ∧
  (halts (str_match m x y) ∧ halts (str_casematch m x y) ∧ halts (str_strcmp m sx sy) ∧ halts (str_strcasecmp m sx sy) ∧
   halts (str_strncasecmp m sx sy n)) ∧
  (halts (str_strstr m sx sy) ∧ halts (l_memmem m p q (Z.of_nat n1) (Z.of_nat n2))).
Proof.
  split_and!.
  - apply unescape_user_halts.
  - apply unescape_user_halts.
  - apply un_escape_halts.
  - apply encode64_halts; lia.
  - apply encode64_halts; lia.
  - apply encode64_halts; lia.
  - apply encode32_halts; lia.
  - apply decode64_halts.
  - apply decode64_halts.
  - apply decode64_halts.
  - apply decode32_halts.
  - unfold str_match. halt. apply memcmp_eq_halts.
  - apply str_casematch_halts.
  - apply cmp_strs_halts.
  - apply cmp_strs_halts.
  - apply str_strncasecmp_halts.
  - apply str_strstr_halts.
  - apply l_memmem_halts; lia.
Qed.
