(* ===== verification/Param.v ===== *)
(** * Parameters (parse_param.c, parse_param.h)

    The parser moves a string descriptor over the text.  The list of the parameters is
    in the order of its [next] pointers; a hook is the number of its parameter in that
    list. *)

From stdpp Require Import strings.
From S2P Require Export ParserF.

(** ** Data *)
Inductive pclass := CLASS_ANY | CLASS_CONTACT | CLASS_URI.

Inductive ptype :=
| P_OTHER | P_Q | P_EXPIRES | P_METHODS | P_RECEIVED | P_INSTANCE
| P_TRANSPORT | P_LR | P_R2 | P_MADDR | P_TTL | P_DSTIP | P_DSTPORT.

#[export] Instance ptype_eq_dec : EqDecision ptype.
Proof. solve_decision. Defined.

Record param := MkParam { p_type : ptype; p_name : str; p_body : str; p_len : Z }.

(** A new parameter, cleared by [memset]. *)
Definition param_zero : param := MkParam P_OTHER null_str null_str 0.

Definition set_type (t : ptype) (p : param) : param := MkParam t (p_name p) (p_body p) (p_len p).
Definition set_name (n : str) (p : param) : param := MkParam (p_type p) n (p_body p) (p_len p).
Definition set_pbody (b : str) (p : param) : param := MkParam (p_type p) (p_name p) b (p_len p).
Definition set_plen (l : Z) (p : param) : param := MkParam (p_type p) (p_name p) (p_body p) l.

(** The union of the hooks of both classes: the place of a member in the union. *)
Definition hook_slot (t : ptype) : nat :=
  match t with
  | P_OTHER => 0 (* [last_param] *)
  | P_EXPIRES => 1 | P_Q => 2 | P_METHODS => 3 | P_RECEIVED => 4 | P_INSTANCE => 5
  | P_TRANSPORT => 1 | P_LR => 2 | P_R2 => 3 | P_MADDR => 4 | P_TTL => 5 | P_DSTIP => 6 | P_DSTPORT => 7
  end.

Definition hooks := list (option nat).
Definition hooks_zero : hooks := replicate 8 None.
Definition hook (t : ptype) (h : hooks) : option nat := default None (h !! hook_slot t).
Definition last_param (h : hooks) : option nat := default None (h !! 0%nat).
Definition set_hook (t : ptype) (i : nat) (h : hooks) : hooks := <[hook_slot t := Some i]> h.
Definition set_last_param (i : nat) (h : hooks) : hooks := <[0%nat := Some i]> h.

Section parse.
Context (m : mem).

(** ** Names *)

(** [name.len == n && !strncasecmp(name.s + 1, rest, n - 1)]. *)
Definition is_name (x : str) (rest : string) : res bool :=
if str_len x =? 1 + len (chars rest) then strncasecmp_lit m (str_s x + 1) (chars rest) else mret false.

(** [_p->type = t; _h->... = _p], for the parameter number [i]. *)
Definition found (t : ptype) (i : nat) (x : hooks * param) : hooks * param :=
(set_hook t i x.1, set_type t x.2).

Definition found_if (b : bool) (t : ptype) (i : nat) (x : hooks * param) : hooks * param :=
if b then found t i x else x.

Definition parse_contact_class (i : nat) (x : hooks * param) : res (hooks * param) :=
let name := p_name x.2 in
if str_s name =? 0 then mret x else
c ← rd m (str_s name);
if one_of c "qQ" then mret (found_if (str_len name =? 1) P_Q i x)
else if one_of c "eE" then b ← is_name name "xpires"; mret (found_if b P_EXPIRES i x)
else if one_of c "mM" then b ← is_name name "ethods"; mret (found_if b P_METHODS i x)
else if one_of c "rR" then b ← is_name name "eceived"; mret (found_if b P_RECEIVED i x)
else if one_of c "+" then b ← is_name name "sip.instance"; mret (found_if b P_INSTANCE i x)
else mret x.

(** For [ttl] two letters are asked for, and a third one is looked at. *)
Definition parse_uri_class (i : nat) (x : hooks * param) : res (hooks * param) :=
let name := p_name x.2 in
if str_s name =? 0 then mret x else
c ← rd m (str_s name);
if one_of c "tT" then
  b ← is_name name "ransport";
  if b : bool then mret (found P_TRANSPORT i x)
  else if str_len name =? 2 then
    c1 ← rd m (str_s name + 1);
    if one_of c1 "tT" then
      c2 ← rd m (str_s name + 2);
      mret (found_if (one_of c2 "lL") P_TTL i x)
    else mret x
  else mret x
else if one_of c "lL" then
  if str_len name =? 2 then c1 ← rd m (str_s name + 1); mret (found_if (one_of c1 "rR") P_LR i x) else mret x
else if one_of c "rR" then
  if str_len name =? 2 then c1 ← rd m (str_s name + 1); mret (found_if (one_of c1 "2") P_R2 i x) else mret x
else if one_of c "mM" then b ← is_name name "addr"; mret (found_if b P_MADDR i x)
else if one_of c "dD" then
  b ← is_name name "stip";
  if b : bool then mret (found P_DSTIP i x)
  else b ← is_name name "stport"; mret (found_if b P_DSTPORT i x)
else mret x.

Definition name_stop (c : Z) : bool :=
one_of c " ;,=" || (c =? TAB) || (c =? CR) || (c =? LF).

(** [while(_s->len)]: [_s] at the first character that cannot be in a name. *)
Definition param_name_round (s : str) : res (str + str) :=
if str_len s =? 0 then mret (inr s) else
c ← rd m (str_s s);
if name_stop c then mret (inr s) else mret (inl (Str (str_s s + 1) (str_len s - 1))).

Definition parse_param_name (s : str) (cls : pclass) (i : nat) (x : hooks * param) : res (str * (hooks * param)) :=
if str_s s =? 0 then mret (s, x) else
s' ← loop param_name_round (S (Z.to_nat (mlim m - str_s s))) s;
let x := (x.1, set_name (slice (str_s s) (str_s s')) x.2) in
x ← match cls with
    | CLASS_CONTACT => parse_contact_class i x
    | CLASS_URI => parse_uri_class i x
    | CLASS_ANY => mret x
    end;
mret (s', x).

(** ** Bodies.  [None] is an error; the descriptor is not used after it. *)
Definition parse_quoted_param (s : str) : res (option (str * str)) :=
if str_len s <? 2 then mret None else
let s := Str (str_s s + 1) (str_len s - 1) in
end_quote ← q_memchr m (str_s s) DQUOTE (str_len s);
match end_quote with
| None => mret None
| Some e =>
    let r := slice (str_s s) e in
    mret (Some (Str (e + 1) (str_len s - (e - str_s s + 1)), r))
end.

Definition token_stop (c : Z) : bool := one_of c " ,;" || (c =? TAB) || (c =? CR) || (c =? LF).

Definition parse_token_param (s : str) : res (option (str * str)) :=
if str_len s =? 0 then mret None else
q ← scan token_stop m (str_s s) (str_s s + str_len s);
let i := q - str_s s in
if i =? 0 then mret None
else mret (Some (Str (str_s s + i) (str_len s - i), Str (str_s s) i)).

Definition parse_param_body (s : str) : res (option (str * str)) :=
c ← rd m (str_s s);
if c =? DQUOTE then parse_quoted_param s else parse_token_param s.

(** ** The list *)

(** [if (last) {last->next=t;} else {*_p = t;}]. *)
Definition append (t : param) (ps : list param) : list param := ps ++ [t].

(** What follows a parameter: [ok], another parameter, or an error. *)
Definition param_ok (s : str) (h : hooks) (t : param) (ps : list param) :
  res (str * hooks * list param + option (str * list param * hooks)) :=
mret (inr (Some (s, append t ps, set_last_param (length ps) h))).

Definition param_sep (s : str) (h : hooks) (t : param) (ps : list param) :
  res (str * hooks * list param + option (str * list param * hooks)) :=
c ← rd m (str_s s);
if c =? ch "," then param_ok s h t ps
else if c =? ch ">" then param_ok s h t ps
else if negb (c =? ch ";") then mret (inr None)
else
  s ← trim_leading m (Str (str_s s + 1) (str_len s - 1));
  if str_len s =? 0 then mret (inr None) else mret (inl (s, h, append t ps)).

Context (malloc : nat → bool).

(** One round of [while(1)]. *)
Definition params_round (cls : pclass) (st : str * hooks * list param) :
  res (str * hooks * list param + option (str * list param * hooks)) :=
let '(s, h, ps) := st in
let i := length ps in
if negb (malloc i) then mret (inr None) else
x ← parse_param_name s cls i (h, param_zero);
let '(s, (h, t)) := x in
s ← trim_leading m s;
if str_len s =? 0 then param_ok s h (set_plen (str_len (p_name t)) t) ps else
c ← rd m (str_s s);
if c =? ch "=" then
  s ← trim_leading m (Str (str_s s + 1) (str_len s - 1));
  if str_len s =? 0 then mret (inr None) else
  b ← parse_param_body s;
  match b with
  | None => mret (inr None)
  | Some (s, body) =>
      let t := set_plen (to_int (str_s s - str_s (p_name t))) (set_pbody body t) in
      s ← trim_leading m s;
      if str_len s =? 0 then param_ok s h t ps else param_sep s h t ps
  end
else param_sep s h (set_plen (str_len (p_name t)) t) ps.

(** [None]: -2, and the list is freed.  Otherwise [*_s], the list and the hooks. *)
Definition parse_params (s : str) (cls : pclass) : res (option (str * list param * hooks)) :=
if str_s s =? 0 then mret (Some (s, [], hooks_zero))
else loop (params_round cls) (S (S (Z.to_nat (mlim m - str_s s)))) (s, hooks_zero, []).
End parse.

(** [duplicate_params], [shm_duplicate_params]: a copy of every parameter that points
    to the same text, or -2. *)
Fixpoint do_duplicate_params (malloc : nat → bool) (n : nat) (ps : list param) : option (list param) :=
  match ps with
  | [] => Some []
  | p :: ps =>
      if negb (malloc n) then None else
      match do_duplicate_params malloc (S n) ps with Some qs => Some (p :: qs) | None => None end
  end.

