(* ===== verification/ParamGrammar.v ===== *)
(** * Parameters: every well-formed list of parameters is parsed into its parts *)

From stdpp Require Import strings.
From S2P Require Export Param.

(** ** Parameters: the parser of parameters on known contents

    The types of the names are a search in a table; every function on a text is an
    equation between the text before and behind it. *)

(** ** Types of names *)
Fixpoint lookup_type (tbl : list (string * ptype)) (n : list Z) : ptype :=
  match tbl with
  | [] => P_OTHER
  | (s, t) :: tbl => if eq_nocase (chars s) n then t else lookup_type tbl n
  end.

Definition contact_names : list (string * ptype) :=
  [("q", P_Q); ("expires", P_EXPIRES); ("methods", P_METHODS); ("received", P_RECEIVED); ("+sip.instance", P_INSTANCE)]%string.

Definition uri_names : list (string * ptype) :=
  [("transport", P_TRANSPORT); ("lr", P_LR); ("r2", P_R2); ("maddr", P_MADDR); ("dstip", P_DSTIP); ("dstport", P_DSTPORT)]%string.

(** The type that a name gets when [c'] is the character behind it. *)
Definition class_type (cls : pclass) (n : list Z) (c' : Z) : ptype :=
  match cls with
  | CLASS_ANY => P_OTHER
  | CLASS_CONTACT => lookup_type contact_names n
  | CLASS_URI => if eq_nocase (chars "tt") n then if one_of c' "lL" then P_TTL else P_OTHER
                 else lookup_type uri_names n
  end.

(** The hook of a type, if it has one. *)
Definition add_hook (t : ptype) (i : nat) (h : hooks) : hooks :=
  if decide (t = P_OTHER) then h else set_hook t i h.

Lemma one_of_letter c a b : 97 ≤ a ≤ 122 → b = a - 32 → (c =? a) || ((c =? b) || false) = (tolower c =? a).
Proof. intros Ha ->. by apply case_pair. Qed.

Lemma tolower_other c a : a < 65 → (c =? a) || false = (tolower c =? a).
Proof.
  intros Ha. rewrite orb_false_r. unfold tolower, is_upper. change (ch "A") with 65. change (ch "Z") with 90.
  destruct (Z.leb_spec 65 c), (Z.leb_spec c 90), (Z.eqb_spec c a); cbn; try done; symmetry; apply Z.eqb_neq || apply Z.eqb_eq; lia.
Qed.

(** Reduces a comparison of names to one of their first letters. *)
Lemma eq_nocase_cons a l c n : eq_nocase (a :: l) (c :: n) = (tolower c =? tolower a) && eq_nocase l n.
Proof. unfold eq_nocase. cbn [lower map list_eqb]. by rewrite Z.eqb_sym. Qed.

(** The letters of a goal as numbers, and the first letter [c] up to case as [d]. *)
Tactic Notation "letters" constr(c) "as" ident(d) :=
  cbn [one_of chars mbind res_bind];
  rewrite ?one_of_letter by done; rewrite ?tolower_other by done; rewrite ?eq_nocase_cons;
  repeat match goal with |- context [ch ?a] => let v := eval vm_compute in (ch a) in change (ch a) with v end;
  repeat match goal with |- context [tolower (Zpos ?k)] =>
    let v := eval vm_compute in (tolower (Zpos k)) in change (tolower (Zpos k)) with v end;
  generalize (tolower c); intros d.

Lemma len_one c n : (len (c :: n) =? 1) = eq_nocase [] n.
Proof. rewrite len_cons. destruct n; [done|]. rewrite len_cons. pose proof (len_nonneg n). by destruct (Z.eqb_spec (1 + (1 + len n)) 1); [lia|]. Qed.

Lemma len_two c c1 n : (len (c :: c1 :: n) =? 2) = eq_nocase [] n.
Proof. rewrite <- (len_one c1 n), !len_cons. destruct (Z.eqb_spec (1 + (1 + len n)) 2), (Z.eqb_spec (1 + len n) 1); lia. Qed.

Section text.
Context (m : mem).

Lemma is_name_at p c n rest : bytes_at m p (c :: n) → Forall (λ a, a ≠ 0) (chars rest) →
is_name m (Str p (len (c :: n))) rest = Ok (eq_nocase (chars rest) n).
Proof.
intros [_ Hn] Hr. unfold is_name. cbn [str_s str_len]. rewrite len_cons.
destruct (Z.eqb_spec (1 + len n) (1 + len (chars rest))) as [E|E].
- assert (Hl : length n = length (chars rest)) by (unfold len in E; lia).
  rewrite (strncasecmp_lit_at m (p + 1) (chars rest) n Hn) by (done || lia). f_equal.
  unfold eq_nocase. apply eq_true_iff_eq. rewrite prefixb_spec, list_eqb_spec.
  by rewrite take_ge by (rewrite !length_lower; lia).
- destruct (eq_nocase (chars rest) n) eqn:En; [|done]. apply list_eqb_spec, (f_equal length) in En.
  rewrite !length_lower in En. unfold len in E. lia.
Qed.

Lemma found_if_false t i x : found_if false t i x = x.
Proof. done. Qed.

Definition typed (t : ptype) (i : nat) (x : hooks * param) : hooks * param :=
(add_hook t i x.1, set_type t x.2).

Lemma typed_other i h t : p_type t = P_OTHER → typed P_OTHER i (h, t) = (h, t).
Proof. destruct t; cbn. by intros ->. Qed.

Lemma typed_found b t t' i x : t ≠ P_OTHER → p_type x.2 = P_OTHER → typed t' i x = x →
typed (if b : bool then t else t') i x = found_if b t i x.
Proof. intros Ht Hx Hx'. destruct b; [|done]. unfold typed, add_hook. by rewrite decide_False. Qed.

Ltac alternative :=
  cbn [Z.eqb Pos.eqb andb]; (rewrite typed_found; [done|done|done|by apply typed_other]) || by rewrite typed_other.

Lemma contact_class_at p n c' i h t : p ≠ 0 → bytes_at m p (n ++ [c']) → p_name t = Str p (len n) → p_type t = P_OTHER →
parse_contact_class m i (h, t) = Ok (typed (class_type CLASS_CONTACT n c') i (h, t)).
Proof.
intros Hp Hat Hn Ht. unfold parse_contact_class. cbn [snd]. rewrite Hn. cbn [str_s str_len].
destruct (Z.eqb_spec p 0); [done|]. cbn [class_type contact_names lookup_type].
destruct n as [|c n].
{ destruct Hat as [Hc _]. rewrite Hc. cbn [mbind res_bind]. unfold is_name. cbn [str_len].
  rewrite len_nil. rewrite typed_other by done. repeat case_match; done. }
pose proof Hat as [Hc _]. rewrite Hc. cbn [mbind res_bind].
apply bytes_at_first in Hat. rewrite !(is_name_at p c n) by first [done|refine (bool_decide_unpack _ _); by vm_compute].
letters c as d. rewrite len_one.
destruct (Z.eqb_spec d 113) as [->|]; [by alternative|]. destruct (Z.eqb_spec d 101) as [->|]; [by alternative|].
destruct (Z.eqb_spec d 109) as [->|]; [by alternative|]. destruct (Z.eqb_spec d 114) as [->|]; [by alternative|].
destruct (Z.eqb_spec d 43) as [->|]; [by alternative|]. cbn [andb]. by rewrite typed_other.
Qed.

Lemma uri_class_at p n c' i h t : p ≠ 0 → bytes_at m p (n ++ [c']) → p_name t = Str p (len n) → p_type t = P_OTHER →
parse_uri_class m i (h, t) = Ok (typed (class_type CLASS_URI n c') i (h, t)).
Proof.
intros Hp Hat Hn Ht. unfold parse_uri_class. cbn [snd]. rewrite Hn. cbn [str_s str_len].
destruct (Z.eqb_spec p 0); [done|]. cbn [class_type uri_names lookup_type].
destruct n as [|c n].
{ destruct Hat as [Hc _]. rewrite Hc. cbn [mbind res_bind]. unfold is_name. cbn [str_len].
  rewrite len_nil. rewrite typed_other by done. repeat case_match; done. }
pose proof Hat as [Hc Hat']. rewrite Hc. cbn [mbind res_bind].
apply bytes_at_first in Hat. rewrite !(is_name_at p c n) by first [done|refine (bool_decide_unpack _ _); by vm_compute].
destruct n as [|c1 n].
{ cbn [len length Z.of_nat Z.eqb Pos.of_succ_nat Pos.eqb]. letters c as d.
  replace (len [c] =? 2) with false by done. unfold eq_nocase. cbn [lower map list_eqb]. rewrite !andb_false_r.
  rewrite typed_other by done. by repeat case_match. }
pose proof Hat' as [Hc1 Hat'']. rewrite Hc1, !len_two. letters c as d. letters c1 as e.
assert (Hc2 : eq_nocase [] n = true → rd m (p + 2) = Ok c').
{ intros E. destruct n; [|done]. replace (p + 2) with (p + 1 + 1) by lia. apply Hat''. }
destruct (Z.eqb_spec d 116) as [->|].
{ cbn [Z.eqb Pos.eqb andb]. destruct (eq_nocase [] n) eqn:E.
  - rewrite Hc2 by done. cbn [mbind res_bind]. rewrite one_of_letter by done.
    destruct (Z.eqb_spec e 116) as [->|]; cbn [Z.eqb Pos.eqb andb].
    + rewrite typed_found; [done|done|done|by apply typed_other].
    + rewrite (typed_found _ P_TRANSPORT P_OTHER); [|done|done|by apply typed_other]. by destruct (_ && _).
  - rewrite !andb_false_r. rewrite (typed_found _ P_TRANSPORT P_OTHER); [|done|done|by apply typed_other]. by destruct (_ && _). }
cbn [andb].
destruct (Z.eqb_spec d 108) as [->|]; [destruct (eq_nocase [] n); rewrite ?andb_true_r, ?andb_false_r; by alternative|].
destruct (Z.eqb_spec d 114) as [->|]; [destruct (eq_nocase [] n); rewrite ?andb_true_r, ?andb_false_r; by alternative|].
destruct (Z.eqb_spec d 109) as [->|]; [by alternative|].
destruct (Z.eqb_spec d 100) as [->|]; [|by alternative].
cbn [Z.eqb Pos.eqb andb]. destruct ((e =? 115) && eq_nocase [116; 105; 112] n); [done|by alternative].
Qed.

(** ** Names *)
Lemma param_name_run p n r : Forall (λ c, name_stop c = false) n → bytes_at m p (n ++ r) → head_is name_stop r →
p + len (n ++ r) ≤ mlim m →
lands (param_name_round m) (λ s, mlim m - str_s s) (Str p (len (n ++ r))) (Str (p + len n) (len r)).
Proof.
intros Hn. revert p. induction Hn as [|c n Hc _ IH]; intros p Hat Hr Hlim; cbn [app] in *.
- rewrite len_nil, Z.add_0_r. pose proof (len_nonneg r). apply lands_done; [|cbn [str_s]; lia].
  unfold param_name_round. cbn [str_s str_len]. destruct r as [|c r]; [done|].
  rewrite len_cons. pose proof (len_nonneg r). destruct (Z.eqb_spec (1 + len r) 0); [lia|].
  destruct Hat as [-> _]. cbn [mbind res_bind]. by rewrite (Hr : name_stop c = true).
- destruct Hat as [Hrd Hat]. rewrite !len_cons in *. pose proof (len_nonneg (n ++ r)).
  apply (lands_next _ _ _ (Str (p + 1) (len (n ++ r)))); cbn [str_s]; [|lia|lia|].
  + unfold param_name_round. cbn [str_s str_len]. destruct (Z.eqb_spec (1 + len (n ++ r)) 0); [lia|].
    rewrite Hrd. cbn [mbind res_bind]. rewrite Hc. do 4 f_equal. lia.
  + replace (p + (1 + len n)) with (p + 1 + len n) by lia. apply IH; [done|done|lia].
Qed.

Lemma parse_class_at cls p n c' i h t : p ≠ 0 → bytes_at m p (n ++ [c']) → p_name t = Str p (len n) → p_type t = P_OTHER →
match cls with
| CLASS_CONTACT => parse_contact_class m i (h, t)
| CLASS_URI => parse_uri_class m i (h, t)
| CLASS_ANY => mret (h, t)
end = Ok (typed (class_type cls n c') i (h, t)).
Proof.
intros. destruct cls; [by rewrite typed_other|by apply (contact_class_at p)|by apply (uri_class_at p)].
Qed.

Lemma parse_param_name_at cls p n r c' i h : 0 < p → len n < 2 ^ 31 → Forall (λ c, name_stop c = false) n → head_is name_stop r →
bytes_at m p (n ++ r ++ [c']) →
parse_param_name m (Str p (len (n ++ r))) cls i (h, param_zero) =
Ok (Str (p + len n) (len r),
    typed (class_type cls n (default c' (head r))) i (h, set_name (Str p (len n)) param_zero)).
Proof.
intros Hp Hlen Hn Hr Hat. assert (Hlim : p + len (n ++ r) + 1 ≤ mlim m).
{ apply bytes_at_range in Hat as [_ H]; [|by destruct n, r]. rewrite app_assoc, length_app in H. cbn [length] in H. unfold len. lia. }
unfold parse_param_name. cbn [str_s]. destruct (Z.eqb_spec p 0); [lia|].
rewrite (param_name_run p n r Hn) with (fuel := S (Z.to_nat (mlim m - p)));
  [|rewrite app_assoc in Hat; by apply bytes_at_first in Hat|done|lia|cbn [str_s]; lia].
cbn [mbind res_bind str_s]. rewrite (slice_len p n) by lia.
rewrite (parse_class_at cls p n (default c' (head r))); [done|lia| |done|done].
destruct r as [|a r]; cbn [head default] in *; [done|].
change (n ++ (a :: r) ++ [c']) with (n ++ [a] ++ r ++ [c']) in Hat. rewrite app_assoc in Hat. by apply bytes_at_first in Hat.
Qed.

(** ** White space and bodies *)
Definition white (l : list Z) : Prop := Forall (λ c, c = SPC ∨ c = TAB ∨ c = CR ∨ c = LF) l.

Lemma white_is_ws l : white l → Forall (λ c, is_ws c = true) l.
Proof. intros H. eapply Forall_impl; [exact H|]. by intros c [->|[->|[->| ->]]]. Qed.

(** White space ends a name and a token. *)
Lemma white_stops (stop : Z → bool) l r : Forall (λ c, stop c = true) [SPC; TAB; CR; LF] → white l → head_is stop r →
head_is stop (l ++ r).
Proof.
intros Hs Hl Hr. destruct Hl as [|c l Hc _]; [done|]. cbn. rewrite !Forall_cons in Hs. destruct Hs as (? & ? & ? & ? & _).
by destruct Hc as [->|[->|[->| ->]]].
Qed.

Definition no_ws (l : list Z) : Prop := head_is (λ c, negb (is_ws c)) l.

Lemma trim_leading_run p ws r : white ws → bytes_at m p (ws ++ r) → no_ws r →
trim_leading m (Str p (len (ws ++ r))) = Ok (Str (p + len ws) (len r)).
Proof.
intros Hws Hat Hr. unfold trim_leading. cbn [str_s str_len]. destruct (Z.leb_spec (len (ws ++ r)) 0) as [H|H].
- rewrite len_app in *. pose proof (len_nonneg ws). pose proof (len_nonneg r).
  cbn [mret res_ret]. f_equal. f_equal; lia.
- unfold len in *. rewrite Nat2Z.id. apply trim_leading_at; [by apply white_is_ws|done|].
  destruct r as [|c r]; [done|]. apply negb_true_iff in Hr. exact Hr.
Qed.

Lemma trim_trailing_run p l ws : white ws → no_ws (rev l) → bytes_at m p (l ++ ws) →
trim_trailing m (Str p (len (l ++ ws))) = Ok (Str p (len l)).
Proof.
intros Hws Hl Hat. unfold trim_trailing. cbn [str_s str_len]. pose proof (len_nonneg l). pose proof (len_nonneg ws).
destruct (Z.leb_spec (len (l ++ ws)) 0) as [H1|H1]; [rewrite len_app in *; cbn [mret res_ret]; do 2 f_equal; lia|].
unfold len at 1. rewrite Nat2Z.id. clear H1. induction ws as [|c ws IH] using rev_ind.
- rewrite app_nil_r in *. destruct l as [|c l _] using rev_ind; [done|]. rewrite rev_app_distr in Hl. cbn in Hl.
  apply negb_true_iff in Hl. apply bytes_at_from in Hat. destruct Hat as [Hc _]. rewrite length_app, Nat.add_1_r. cbn [trim_trailing_n].
  fold (len l). rewrite Hc. cbn [mbind res_bind]. rewrite Hl, len_app. change (len [c]) with 1. unfold len. do 2 f_equal. lia.
- apply Forall_app in Hws as [Hws Hc]. apply Forall_cons in Hc as [Hc _]. rewrite app_assoc, length_app, Nat.add_1_r.
  cbn [trim_trailing_n]. rewrite app_assoc in Hat. pose proof Hat as Hat'. apply bytes_at_from in Hat' as [Hr _].
  fold (len (l ++ ws)). rewrite Hr. cbn [mbind res_bind].
  assert (Hw : is_ws c = true) by (by destruct Hc as [->|[->|[->| ->]]]). rewrite Hw.
  apply IH; [done|by apply bytes_at_first in Hat|apply len_nonneg].
Qed.

Lemma parse_quoted_at p v r : Forall (λ c, c ≠ DQUOTE) v → bytes_at m p (DQUOTE :: v ++ DQUOTE :: r) → len v < 2 ^ 31 →
parse_quoted_param m (Str p (len (DQUOTE :: v ++ DQUOTE :: r))) =
Ok (Some (Str (p + len v + 2) (len r), Str (p + 1) (len v))).
Proof.
intros Hv [_ Hat] Hlen. unfold parse_quoted_param. cbn [str_s str_len].
pose proof (len_nonneg v). pose proof (len_nonneg r). rewrite len_cons, len_app, len_cons.
destruct (Z.ltb_spec (1 + (len v + (1 + len r))) 2); [lia|]. unfold q_memchr.
rewrite (scan_run _ m (p + 1) _ v (DQUOTE :: r)); [|done|rewrite length_app; cbn [length]; unfold len; lia| |done].
- fold (len v). cbn [mbind res_bind].
  destruct (Z.ltb_spec (p + 1 + len v) (p + 1 + (1 + (len v + (1 + len r)) - 1))); [|lia].
  cbn [mbind res_bind mret res_ret]. rewrite (slice_len (p + 1) v) by lia. do 4 f_equal; lia.
- eapply Forall_impl; [exact Hv|]. intros c Hc. by apply Z.eqb_neq.
Qed.

Lemma parse_token_at p v r : v ≠ [] → Forall (λ c, token_stop c = false) v → head_is token_stop r → bytes_at m p (v ++ r) →
parse_token_param m (Str p (len (v ++ r))) = Ok (Some (Str (p + len v) (len r), Str p (len v))).
Proof.
intros Hne Hv Hr Hat. unfold parse_token_param. cbn [str_s str_len].
assert (Hl : 0 < len v) by (destruct v; [done|rewrite len_cons; pose proof (len_nonneg v); lia]).
pose proof (len_nonneg r). rewrite len_app. destruct (Z.eqb_spec (len v + len r) 0); [lia|].
rewrite (scan_run _ m p _ v r Hat); [|rewrite length_app; unfold len; lia|done|done]. fold (len v). cbn [mbind res_bind].
destruct (Z.eqb_spec (p + len v - p) 0); [lia|]. do 4 f_equal; [f_equal; lia|f_equal; lia|lia].
Qed.
End text.

(** ** The grammar *)
Inductive pvalue := Token (v : list Z) | Quoted (v : list Z).

Definition value_chars (v : pvalue) : list Z :=
  match v with Token v => v | Quoted v => DQUOTE :: v ++ [DQUOTE] end.

Definition value_ok (v : pvalue) : Prop :=
  match v with
  | Token v => v ≠ [] ∧ Forall (λ c, token_stop c = false ∧ is_ws c = false) v ∧ head v ≠ Some DQUOTE
  | Quoted v => Forall (λ c, c ≠ DQUOTE) v
  end.

(** A parameter: its name, white space, and a value between white space. *)
Record param_text := PText { t_name : list Z; t_sp : list Z; t_value : option (list Z * pvalue * list Z) }.

Definition assign_chars (x : option (list Z * pvalue * list Z)) : list Z :=
  match x with Some (sp1, v, sp2) => ch "=" :: sp1 ++ value_chars v ++ sp2 | None => [] end.

Definition param_chars (t : param_text) : list Z := t_name t ++ t_sp t ++ assign_chars (t_value t).

Definition param_text_ok (t : param_text) : Prop :=
  t_name t ≠ [] ∧ Forall (λ c, name_stop c = false ∧ is_ws c = false) (t_name t) ∧ white (t_sp t) ∧
  match t_value t with Some (sp1, v, sp2) => white sp1 ∧ value_ok v ∧ white sp2 | None => True end.

(** The parameter that the parser makes of it at [p]. *)
Definition param_at (cls : pclass) (p : Z) (t : param_text) : param :=
  let name := Str p (len (t_name t)) in
  let ty := class_type cls (t_name t) 0 in
  match t_value t with
  | None => MkParam ty name null_str (len (t_name t))
  | Some (sp1, v, _) =>
      let q := p + len (t_name t) + len (t_sp t) + 1 + len sp1 in
      MkParam ty name
        (match v with Token v => Str q (len v) | Quoted v => Str (q + 1) (len v) end)
        (q + len (value_chars v) - p)
  end.

(** A list: a parameter, and those behind a semicolon and white space. *)
Fixpoint list_chars (t : param_text) (ts : list (list Z * param_text)) : list Z :=
  param_chars t ++
  match ts with [] => [] | (sp, t') :: ts => ch ";" :: sp ++ list_chars t' ts end.

Fixpoint params_at (cls : pclass) (p : Z) (t : param_text) (ts : list (list Z * param_text)) : list param :=
  param_at cls p t ::
  match ts with [] => [] | (sp, t') :: ts => params_at cls (p + len (param_chars t) + 1 + len sp) t' ts end.

Definition list_ok (t : param_text) (ts : list (list Z * param_text)) : Prop :=
  param_text_ok t ∧ Forall (λ x, white x.1 ∧ param_text_ok x.2) ts.

(** The hooks of a list. *)
Fixpoint hooks_from (i : nat) (h : hooks) (ps : list param) : hooks :=
  match ps with [] => h | p :: ps => hooks_from (S i) (add_hook (p_type p) i h) ps end.

Definition hooks_of (ps : list param) : hooks := set_last_param (length ps - 1) (hooks_from 0 hooks_zero ps).

(** What ends a list: the end of the text, a comma, or a bracket. *)
Definition list_end (e : list Z) : Prop := match e with [] => True | c :: _ => c = ch "," end.

(** ** Runs *)
Lemma class_type_stop cls n c : one_of c "lL" = false → class_type cls n c = class_type cls n 0.
Proof. intros H. destruct cls; [done|done|]. cbn [class_type]. by rewrite H. Qed.

Lemma stop_not_l c : name_stop c = true → one_of c "lL" = false.
Proof.
  unfold name_stop. cbn [one_of]. rewrite !orb_true_iff, !Z.eqb_eq.
  intros H. repeat (destruct H as [H|H]; [try (by subst c)|]); try by subst c. all: naive_solver.
Qed.

Lemma value_no_ws v r : value_ok v → no_ws (value_chars v ++ r).
Proof.
  destruct v as [v|v]; [|done]. intros (Hne & Hv & _). destruct v as [|c v]; [done|]. cbn.
  apply Forall_cons in Hv as [[_ ->] _]. done.
Qed.

Lemma value_pos v : value_ok v → 0 < len (value_chars v).
Proof.
  destruct v as [v|v]; cbn [value_chars value_ok].
  - intros (Hne & _). destruct v; [done|]. rewrite len_cons. pose proof (len_nonneg v). lia.
  - intros _. rewrite len_cons. pose proof (len_nonneg (v ++ [DQUOTE])). lia.
Qed.

Lemma list_no_ws t ts r : param_text_ok t → no_ws (list_chars t ts ++ r).
Proof.
  intros (Hne & Hn & _). destruct ts as [|[sp t'] ts]; cbn [list_chars]; unfold param_chars; destruct (t_name t) as [|c n]; try done;
    apply Forall_cons in Hn as [[_ Hc] _]; cbn; by rewrite Hc.
Qed.

Lemma list_pos t ts : param_text_ok t → 0 < len (list_chars t ts).
Proof.
  intros (Hne & _). destruct ts as [|[sp t'] ts]; cbn [list_chars]; unfold param_chars; destruct (t_name t) as [|c n]; try done;
    cbn [app]; rewrite len_cons; match goal with |- context [len ?l] => pose proof (len_nonneg l) end; lia.
Qed.

Section run.
Context (m : mem) (malloc : nat → bool) (cls : pclass).
Hypothesis Hmalloc : ∀ n, malloc n = true.

Lemma parse_body_at p v r : value_ok v → len (value_chars v) < 2 ^ 31 → head_is token_stop r →
bytes_at m p (value_chars v ++ r) →
parse_param_body m (Str p (len (value_chars v ++ r))) =
Ok (Some (Str (p + len (value_chars v)) (len r),
          match v with Token v => Str p (len v) | Quoted v => Str (p + 1) (len v) end)).
Proof.
intros Hv Hlen Hr Hat. unfold parse_param_body. cbn [str_s]. destruct v as [v|v]; cbn [value_chars value_ok] in *.
- destruct Hv as (Hne & Hv & Hq). destruct v as [|c v]; [done|]. pose proof Hat as [Hc _]. rewrite Hc. cbn [mbind res_bind].
  destruct (Z.eqb_spec c DQUOTE) as [->|]; [done|]. apply parse_token_at; [done| |done|done].
  eapply Forall_impl; [exact Hv|]. by intros ? [? _].
- cbn [app] in *. rewrite <- app_assoc in *. cbn [app] in *. pose proof Hat as [Hc _]. rewrite Hc. cbn [mbind res_bind].
  rewrite Z.eqb_refl. rewrite parse_quoted_at; [|done|done|rewrite len_cons, len_app in Hlen; pose proof (len_nonneg v); change (len [DQUOTE]) with 1 in Hlen; lia].
  do 4 f_equal. rewrite len_cons, len_app. change (len [DQUOTE]) with 1. lia.
Qed.
(** What follows a parameter of a list. *)
Definition next_ok (r : list Z) : Prop := match r with [] => True | c :: _ => c = ch "," ∨ c = ch ";" end.

Lemma next_stop (stop : Z → bool) r : stop (ch ",") = true → stop (ch ";") = true → next_ok r → head_is stop r.
Proof. destruct r as [|c r]; [done|]. by intros H1 H2 [->| ->]. Qed.

(** One round up to the character behind the parameter. *)
Lemma params_round_at p t r c' h ps : 0 < p → len (param_chars t) < 2 ^ 31 → param_text_ok t → next_ok r →
one_of c' "lL" = false → bytes_at m p (param_chars t ++ r ++ [c']) →
params_round m malloc cls (Str p (len (param_chars t ++ r)), h, ps) =
let q := param_at cls p t in
let s := Str (p + len (param_chars t)) (len r) in
let h := add_hook (p_type q) (length ps) h in
match r with [] => param_ok s h q ps | _ :: _ => param_sep m s h q ps end.
Proof.
intros Hp Hlen (Hne & Hname & Hsp & Hv) Hr Hc' Hat. unfold params_round. rewrite Hmalloc. cbn [negb].
assert (Hnstop : Forall (λ c, name_stop c = false) (t_name t)) by (eapply Forall_impl; [exact Hname|]; by intros ? [? _]).
set (r1 := t_sp t ++ assign_chars (t_value t) ++ r).
assert (Hch : param_chars t ++ r = t_name t ++ r1) by (unfold param_chars, r1; by rewrite <- !app_assoc).
assert (Hhead1 : head_is name_stop (assign_chars (t_value t) ++ r)).
{ destruct (t_value t) as [[[sp1 v] sp2]|]; [done|]. by apply next_stop. }
assert (Hlenn : len (t_name t) < 2 ^ 31).
{ unfold param_chars in Hlen. rewrite !len_app in Hlen. pose proof (len_nonneg (t_sp t)).
  pose proof (len_nonneg (assign_chars (t_value t))). lia. }
rewrite Hch. rewrite app_assoc, Hch, <- app_assoc in Hat.
rewrite (parse_param_name_at m cls p (t_name t) r1 c'); [|done|done|done|apply white_stops; [by repeat constructor|done|done]|done].
assert (Hty : class_type cls (t_name t) (default c' (head r1)) = class_type cls (t_name t) 0).
{ apply class_type_stop. destruct r1 as [|c r1'] eqn:E; [done|]. apply stop_not_l.
  change (head_is name_stop (c :: r1')). rewrite <- E. apply white_stops; [by repeat constructor|done|done]. }
rewrite Hty. unfold typed. cbn [mbind res_bind fst snd set_name set_type param_zero p_name p_body p_len].
pose proof (bytes_at_from _ _ _ _ Hat) as Hat1. unfold r1 in *.
assert (Hnows : no_ws (assign_chars (t_value t) ++ r)).
{ destruct (t_value t) as [[[sp1 v] sp2]|]; [done|]. apply next_stop; [by vm_compute|by vm_compute|done]. }
rewrite <- !app_assoc in Hat1.
rewrite trim_leading_run; [|done|rewrite app_assoc in Hat1; rewrite app_assoc in Hat1; apply bytes_at_first in Hat1; by rewrite <- app_assoc in Hat1|done].
cbn [mbind res_bind str_len str_s]. apply bytes_at_from in Hat1. unfold param_at, param_chars in *.
destruct (t_value t) as [[[sp1 v] sp2]|]; cbn [assign_chars app] in *.
- destruct Hv as (Hsp1 & Hv & Hsp2), Hat1 as [He Hat1]. set (q := p + len (t_name t) + len (t_sp t)) in *.
  rewrite He. cbn [mbind res_bind]. rewrite Z.eqb_refl, len_cons.
  set (tail := sp2 ++ r). assert (Hassoc : (sp1 ++ value_chars v ++ sp2) ++ r = sp1 ++ value_chars v ++ tail)
    by (unfold tail; by rewrite <- !app_assoc).
  rewrite Hassoc. destruct (Z.eqb_spec (1 + len (sp1 ++ value_chars v ++ tail)) 0) as [E|_];
    [pose proof (len_nonneg (sp1 ++ value_chars v ++ tail)); lia|].
  replace (1 + len (sp1 ++ value_chars v ++ tail) - 1) with (len (sp1 ++ value_chars v ++ tail)) by lia.
  assert (Hat2 : bytes_at m (q + 1) (sp1 ++ value_chars v ++ tail)).
  { rewrite app_assoc, Hassoc in Hat1. by apply bytes_at_first in Hat1. }
  assert (Hlenv : len (value_chars v) < 2 ^ 31 ∧ q + 1 + len sp1 + len (value_chars v) - p < 2 ^ 31 ∧ 0 ≤ q - p).
  { unfold q. rewrite !len_app, len_cons, !len_app in Hlen. pose proof (len_nonneg (t_name t)). pose proof (len_nonneg (t_sp t)).
    pose proof (len_nonneg sp1). pose proof (len_nonneg sp2). lia. }
  rewrite trim_leading_run; [|done|done|by apply value_no_ws].
  cbn [mbind res_bind str_len str_s]. pose proof (value_pos v Hv) as Hpos. rewrite len_app. pose proof (len_nonneg tail).
  destruct (Z.eqb_spec (len (value_chars v) + len tail) 0) as [E|_]; [lia|]. rewrite <- len_app. apply bytes_at_from in Hat2.
  rewrite parse_body_at; [|done|lia|apply white_stops; [by repeat constructor|done|by apply next_stop]|done].
  cbn [mbind res_bind str_s]. apply bytes_at_from in Hat2. unfold tail.
  rewrite trim_leading_run; [|done|done|apply next_stop; [by vm_compute|by vm_compute|done]].
  cbn [mbind res_bind str_len str_s]. pose proof (len_nonneg sp1). rewrite to_int_small by lia.
  rewrite !len_app, len_cons, !len_app.
  replace (p + (len (t_name t) + (len (t_sp t) + (1 + (len sp1 + (len (value_chars v) + len sp2))))))
    with (q + 1 + len sp1 + len (value_chars v) + len sp2) by (unfold q; lia).
  destruct r as [|c r]; [done|]. rewrite len_cons. pose proof (len_nonneg r). destruct (Z.eqb_spec (1 + len r) 0); [lia|done].
- rewrite app_nil_r, len_app, Z.add_assoc. destruct r as [|c r]; [done|]. rewrite len_cons. pose proof (len_nonneg r).
  destruct (Z.eqb_spec (1 + len r) 0); [lia|]. destruct Hat1 as [Hc _]. rewrite Hc. cbn [mbind res_bind].
  destruct (Z.eqb_spec c (ch "=")) as [->|_]; [by destruct Hr|done].
Qed.
Lemma param_list_run t ts e c' p h ps : 0 < p → len (list_chars t ts) < 2 ^ 31 → list_ok t ts → list_end e →
one_of c' "lL" = false → bytes_at m p (list_chars t ts ++ e ++ [c']) →
lands (params_round m malloc cls) (λ st, mlim m - str_s st.1.1) (Str p (len (list_chars t ts ++ e)), h, ps)
  (Some (Str (p + len (list_chars t ts)) (len e), ps ++ params_at cls p t ts,
         set_last_param (length ps + length ts) (hooks_from (length ps) h (params_at cls p t ts)))).
Proof.
intros Hp Hlen [Ht Hts] He Hc'. revert p t Ht h ps Hp Hlen. induction Hts as [|[sp t'] ts [Hsp Ht'] _ IH]; intros p t Ht h ps Hp Hlen Hat.
all: assert (Hlim : p < mlim m) by (apply bytes_at_range in Hat as [_ H]; [rewrite !length_app in H; cbn [length] in H; lia|by destruct (list_chars _ _), e]).
- cbn [list_chars params_at hooks_from] in *. rewrite app_nil_r in *.
  apply lands_done; [|cbn [fst str_s]; lia]. rewrite (params_round_at p t e c') by (done || by destruct e; [|left]).
  cbn zeta. rewrite Nat.add_0_r. destruct e as [|c e]; [done|].
  apply bytes_at_from in Hat. destruct Hat as [Hc _]. unfold param_sep. cbn [str_s]. rewrite Hc. cbn [mbind res_bind].
  by rewrite (He : c = ch ",").
- cbn [list_chars params_at hooks_from fst snd] in *. rewrite <- !app_assoc in *. cbn [app] in *.
  pose proof (len_nonneg (param_chars t)). rewrite len_app, len_cons, len_app in Hlen. pose proof (len_nonneg sp).
  pose proof (len_nonneg (list_chars t' ts)).
  assert (Hround : params_round m malloc cls (Str p (len (param_chars t ++ ch ";" :: (sp ++ list_chars t' ts) ++ e)), h, ps) =
    Ok (inl (Str (p + len (param_chars t) + 1 + len sp) (len (list_chars t' ts ++ e)),
             add_hook (p_type (param_at cls p t)) (length ps) h, ps ++ [param_at cls p t]))).
  { rewrite (params_round_at p t _ c'); [|done|lia|done|by right|done|cbn [app]; by rewrite <- !app_assoc in *]. cbn zeta. unfold param_sep. cbn [str_s str_len].
    apply bytes_at_from in Hat. destruct Hat as [-> Hat]. cbn [mbind res_bind].
    replace (ch ";" =? ch ",") with false by done. replace (ch ";" =? ch ">") with false by done. rewrite Z.eqb_refl. cbn [negb].
    rewrite len_cons, <- app_assoc. replace (1 + len (sp ++ list_chars t' ts ++ e) - 1) with (len (sp ++ list_chars t' ts ++ e)) by lia.
    rewrite trim_leading_run; [|done|rewrite <- !app_assoc in Hat; rewrite !app_assoc in Hat; apply bytes_at_first in Hat; by rewrite <- !app_assoc in Hat|by apply list_no_ws].
    cbn [mbind res_bind str_len]. pose proof (list_pos t' ts Ht'). rewrite len_app. pose proof (len_nonneg e).
    destruct (Z.eqb_spec (len (list_chars t' ts) + len e) 0); [lia|done]. }
  apply (lands_next _ _ _ _ _ Hround); cbn [fst str_s]; [lia|lia|].
  pose proof (IH (p + len (param_chars t) + 1 + len sp) t' Ht' (add_hook (p_type (param_at cls p t)) (length ps) h) (ps ++ [param_at cls p t])) as Hn.
  rewrite !length_app in Hn. cbn [length] in Hn. rewrite <- app_assoc in Hn. cbn [app] in Hn.
  replace (length ps + 1)%nat with (S (length ps)) in Hn by lia.
  cbn [length]. rewrite (len_app (param_chars t)), len_cons, (len_app sp). replace (length ps + S (length ts))%nat with (S (length ps) + length ts)%nat by lia.
  replace (p + (len (param_chars t) + (1 + (len sp + len (list_chars t' ts))))) with
    (p + len (param_chars t) + 1 + len sp + len (list_chars t' ts)) by lia.
  apply Hn; [lia|lia|]. apply bytes_at_from in Hat. destruct Hat as [_ Hat]. rewrite <- !app_assoc in Hat. by apply bytes_at_from in Hat.
Qed.
End run.

(** ** Hooks *)
Definition of_class (cls : pclass) (ty : ptype) : bool :=
  match cls, ty with
  | CLASS_CONTACT, (P_Q | P_EXPIRES | P_METHODS | P_RECEIVED | P_INSTANCE) => true
  | CLASS_URI, (P_TRANSPORT | P_LR | P_R2 | P_MADDR | P_TTL | P_DSTIP | P_DSTPORT) => true
  | _, _ => false
  end.

Lemma class_type_class cls n c : class_type cls n c = P_OTHER ∨ of_class cls (class_type cls n c) = true.
Proof.
  destruct cls; cbn [class_type]; [by left| |]; unfold contact_names, uri_names; cbn [lookup_type];
    repeat case_match; by (left + right).
Qed.

Lemma hook_add cls ty ty' i h : length h = 8%nat → of_class cls ty = true → ty' = P_OTHER ∨ of_class cls ty' = true →
  hook ty (add_hook ty' i h) = if decide (ty' = ty) then Some i else hook ty h.
Proof.
  intros Hh Hty Hty'. destruct h as [|h0 [|h1 [|h2 [|h3 [|h4 [|h5 [|h6 [|h7 [|]]]]]]]]]; try done.
  destruct cls, ty; try done; destruct Hty' as [-> |Hty']; try done; destruct ty'; done.
Qed.

Lemma add_hook_length ty i h : length (add_hook ty i h) = length h.
Proof. unfold add_hook. destruct (decide _); [done|]. apply (length_insert h). Qed.

Lemma hooks_from_snoc i h ps q : hooks_from i h (ps ++ [q]) = add_hook (p_type q) (i + length ps) (hooks_from i h ps).
Proof.
  revert i h. induction ps as [|p ps IH]; intros i h; cbn [app hooks_from length]; [by rewrite Nat.add_0_r|].
  rewrite IH. f_equal. lia.
Qed.

(** A hook is the last parameter of its type. *)
Definition hook_last (ty : ptype) (o : option nat) (ps : list param) : Prop :=
  match o with
  | Some k => (∃ q, ps !! k = Some q ∧ p_type q = ty) ∧ ∀ j q, (k < j)%nat → ps !! j = Some q → p_type q ≠ ty
  | None => Forall (λ q, p_type q ≠ ty) ps
  end.

Lemma hook_last_snoc ty o ps q : hook_last ty o ps →
  hook_last ty (if decide (p_type q = ty) then Some (length ps) else o) (ps ++ [q]).
Proof.
  intros H. destruct (decide (p_type q = ty)) as [Hq|Hq]; cbn [hook_last].
  - split; [exists q; by rewrite lookup_app_r, Nat.sub_diag by lia|]. intros j q' Hj Hl.
    apply lookup_lt_Some in Hl. rewrite length_app in Hl. simpl in Hl. lia.
  - destruct o as [k|]; cbn [hook_last] in *.
    + destruct H as [(q' & Hk & Hq') Hlast]. split; [exists q'; by rewrite lookup_app_l by (by eapply lookup_lt_Some)|].
      intros j q'' Hj Hl. apply lookup_app_Some in Hl as [Hl|[_ Hl]]; [by eapply Hlast|].
      apply list_elem_of_lookup_2, list_elem_of_singleton in Hl. by subst.
    + apply Forall_app. split; [done|]. by apply Forall_singleton.
Qed.

Lemma hooks_from_last cls ty ps : of_class cls ty = true →
  Forall (λ q, p_type q = P_OTHER ∨ of_class cls (p_type q) = true) ps →
  hook_last ty (hook ty (hooks_from 0 hooks_zero ps)) ps ∧ length (hooks_from 0 hooks_zero ps) = 8%nat.
Proof.
  intros Hty. induction ps as [|q ps IH] using rev_ind; intros Hps; [split; [|done]; destruct ty; constructor|].
  apply Forall_app in Hps as [Hps Hq]. apply Forall_cons in Hq as [Hq _]. destruct (IH Hps) as [Hl H8].
  rewrite hooks_from_snoc, add_hook_length. split; [|done]. cbn [Nat.add].
  rewrite (hook_add cls) by done. by apply hook_last_snoc.
Qed.

(** ** Properties *)
Lemma params_at_types cls p t ts :
  Forall (λ q, p_type q = P_OTHER ∨ of_class cls (p_type q) = true) (params_at cls p t ts).
Proof.
  assert (Ht : ∀ p t, p_type (param_at cls p t) = class_type cls (t_name t) 0).
  { intros p' t'. unfold param_at. by destruct (t_value t') as [[[sp1 v] sp2]|]. }
  revert p t. induction ts as [|[sp t'] ts IH]; intros p t; cbn [params_at]; constructor;
    rewrite ?Ht; try apply class_type_class; [constructor|apply IH].
Qed.

Lemma params_at_length cls p t ts : length (params_at cls p t ts) = S (length ts).
Proof. revert p t. induction ts as [|[sp t'] ts IH]; intros p t; cbn [params_at length]; [done|]. by rewrite IH. Qed.

Lemma hooks_from_length i h ps : length (hooks_from i h ps) = length h.
Proof. revert i h. induction ps as [|q ps IH]; intros i h; [done|]. cbn [hooks_from]. by rewrite IH, add_hook_length. Qed.

Lemma last_param_set i h : length h = 8%nat → last_param (set_last_param i h) = Some i.
Proof. by destruct h. Qed.

Lemma hook_last_param cls ty i h : of_class cls ty = true → hook ty (set_last_param i h) = hook ty h.
Proof. intros Hty. destruct h as [|o h]; [done|]. by destruct cls, ty. Qed.

Lemma parse_params_eq m malloc cls p t ts e c' : (∀ n, malloc n = true) → 0 < p → len (list_chars t ts) < 2 ^ 31 →
  list_ok t ts → list_end e → one_of c' "lL" = false → bytes_at m p (list_chars t ts ++ e ++ [c']) →
  parse_params m malloc (Str p (len (list_chars t ts ++ e))) cls =
    Ok (Some (Str (p + len (list_chars t ts)) (len e), params_at cls p t ts, hooks_of (params_at cls p t ts))).
Proof.
  intros Hm Hp Hlen Hok He Hc' Hat. unfold parse_params, hooks_of. cbn [str_s]. destruct (Z.eqb_spec p 0); [lia|].
  rewrite params_at_length. cbn [Nat.sub]. rewrite Nat.sub_0_r.
  apply (param_list_run m malloc cls Hm t ts e c' p hooks_zero []); try done. cbn [fst str_s]. lia.
Qed.

Lemma hooks_of_last cls p t ts : last_param (hooks_of (params_at cls p t ts)) = Some (length ts) ∧
  ∀ ty, of_class cls ty = true → hook_last ty (hook ty (hooks_of (params_at cls p t ts))) (params_at cls p t ts).
Proof.
  unfold hooks_of. rewrite params_at_length. cbn [Nat.sub]. rewrite Nat.sub_0_r. split.
  - apply last_param_set. by rewrite hooks_from_length.
  - intros ty Hty. destruct (hooks_from_last cls ty (params_at cls p t ts) Hty (params_at_types cls p t ts)) as [Hl _].
    by rewrite (hook_last_param cls).
Qed.

Lemma parse_params_at m malloc cls p t ts e c' : (∀ n, malloc n = true) → 0 < p → len (list_chars t ts) < 2 ^ 31 →
  list_ok t ts → list_end e → one_of c' "lL" = false → bytes_at m p (list_chars t ts ++ e ++ [c']) →
  ∃ h, parse_params m malloc (Str p (len (list_chars t ts ++ e))) cls =
    Ok (Some (Str (p + len (list_chars t ts)) (len e), params_at cls p t ts, h)) ∧
  last_param h = Some (length ts) ∧
  ∀ ty, of_class cls ty = true → hook_last ty (hook ty h) (params_at cls p t ts).
Proof. intros. eexists. split; [by apply (parse_params_eq m malloc cls p t ts e c')|apply hooks_of_last]. Qed.

(** C35: every well-formed list of parameters is parsed into its parameters, in
    order, each with its name, its value without quotes, its length, and the type that
    the table of its class gives to its name up to case; the hook of a type is the last
    parameter of that type.  The descriptor is left at the comma, or at the end. *)
Theorem parse_params_text m malloc cls p t ts e c' : (∀ n, malloc n = true) → 0 < p → len (list_chars t ts) < 2 ^ 31 →
  list_ok t ts → list_end e → one_of c' "lL" = false → bytes_at m p (list_chars t ts ++ e ++ [c']) →
  ∃ h, parse_params m malloc (Str p (len (list_chars t ts ++ e))) cls =
    Ok (Some (Str (p + len (list_chars t ts)) (len e), params_at cls p t ts, h)) ∧
  last_param h = Some (length ts) ∧
  ∀ ty, of_class cls ty = true → hook_last ty (hook ty h) (params_at cls p t ts).
Proof. apply parse_params_at. Qed.

Definition sample_param : param_text := PText (chars "q") [] (Some ([], Token (chars "0.5"), chars " ")).
Definition sample_params : list (list Z * param_text) :=
  [(chars " ", PText (chars "Expires") (chars " ") (Some (chars " ", Quoted (chars "6;0"), [])));
   ([], PText (chars "x") [] None)].

Lemma sample_params_ok : list_ok sample_param sample_params.
Proof.
  unfold list_ok, param_text_ok, sample_param, sample_params. rewrite !Forall_cons, Forall_nil.
  cbn [fst snd t_name t_sp t_value value_ok]. unfold white. split_and!; try done; refine (bool_decide_unpack _ _); by vm_compute.
Qed.

Lemma parse_params_text_witness :
  let text := list_chars sample_param sample_params in
  ∃ h, parse_params (block (text ++ chars ", y")) (λ _, true) (Str 4096 (len (text ++ chars ", "))) CLASS_CONTACT =
    Ok (Some (Str (4096 + len text) (len (chars ", ")), params_at CLASS_CONTACT 4096 sample_param sample_params, h)) ∧
  last_param h = Some (length sample_params) ∧
  ∀ ty, of_class CLASS_CONTACT ty = true → hook_last ty (hook ty h) (params_at CLASS_CONTACT 4096 sample_param sample_params).
Proof.
  apply (parse_params_text _ _ CLASS_CONTACT 4096 sample_param sample_params (chars ", ") (ch "y"));
    [done|done|by vm_compute|apply sample_params_ok|done|done|].
  by vm_compute.
Defined.

(** The type of [ttl] is never recognised, and the character behind the text is read. *)
Lemma ttl_not_recognised :
  (λ r, match r with Some (_, q :: _, _) => bool_decide (p_type q = P_OTHER) | _ => false end) <$>
    parse_params (block (chars "ttl=5 ")) (λ _, true) (Str 4096 5) CLASS_URI = Ok true ∧
  (λ r, match r with Some (_, q :: _, _) => bool_decide (p_type q = P_TTL) | _ => false end) <$>
    parse_params (block (chars "ttl")) (λ _, true) (Str 4096 2) CLASS_URI = Ok true ∧
  (∃ a, parse_params (block (chars "tt")) (λ _, true) (Str 4096 2) CLASS_URI = Fault a).
Proof. split_and!; [by vm_compute|by vm_compute|by eexists; vm_compute]. Qed.
