(* ===== verification/ParamSafety.v ===== *)
(** * Parameters: the parser of parameters on every text

    It terminates, reads at most one character behind the text, and leaves parameters
    that lie in the text, with hooks that point to the last parameter of their type. *)

From stdpp Require Import strings.
From S2P Require Export ParamGrammar.

Section safe.
Context (m : mem) (malloc : nat → bool) (cls : pclass) (a e : Z).
Hypothesis Hm : mem_ok m.
Hypothesis Ha : mbase m ≤ a.
Hypothesis He : e < mlim m.

(** A descriptor of the rest of the text. *)
Definition rest (s : str) : Prop := a ≤ str_s s ∧ 0 ≤ str_len s ∧ str_s s + str_len s = e.

Lemma small x y : a ≤ x → y ≤ e → x ≤ y → slice x y = Str x (y - x).
Proof. intros. unfold slice. rewrite to_int_small; [done|]. pose proof (mem_size m Hm). lia. Qed.

Lemma trim_leading_rest s : rest s → wp (trim_leading m s) (λ s', rest s' ∧ str_s s ≤ str_s s').
Proof.
intros (H1 & H2 & H3). eapply wp_mono; [apply trim_leading_spec; lia|]. intros s' (? & ? & ? & _).
unfold rest. split_and!; lia.
Qed.

(** A parameter that lies in the text. *)
Definition param_in (q : param) : Prop :=
within a e (p_name q) ∧ (p_body q = null_str ∨ within a e (p_body q)) ∧
0 ≤ p_len q ∧ str_s (p_name q) + p_len q ≤ e ∧
(p_type q = P_OTHER ∨ of_class cls (p_type q) = true).

Lemma parse_param_name_safe s i h : rest s →
wp (parse_param_name m s cls i (h, param_zero)) (λ x, let '(s', (h', t)) := x in
  rest s' ∧ str_s s ≤ str_s s' ∧ t = MkParam (p_type t) (Str (str_s s) (str_s s' - str_s s)) null_str 0 ∧
  h' = add_hook (p_type t) i h ∧ (p_type t = P_OTHER ∨ of_class cls (p_type t) = true)).
Proof.
intros Hs. pose proof (mem_base m Hm). unfold parse_param_name. destruct Hs as (Hs1 & Hs2 & Hs3).
destruct (Z.eqb_spec (str_s s) 0) as [|_]; [lia|]. apply wp_bind.
apply (wp_mono _ (λ s', rest s' ∧ str_s s ≤ str_s s')).
{ apply (wp_loop _ (λ s', rest s' ∧ str_s s ≤ str_s s') (λ s', mlim m - str_s s')); [|split; [split_and!|]; lia|lia].
  intros [p l] [(H1 & H2 & H3) H4]. cbn [str_s str_len] in *. split; [lia|]. unfold param_name_round. cbn [str_s str_len].
  destruct (Z.eqb_spec l 0); [by apply wp_ret|]. repeat wp_step; [done|].
  unfold rest. cbn [str_s str_len]. split; [split; [split_and!|]|]; lia. }
intros s' [(H1 & H2 & H3) H4]. rewrite small by lia.
destruct (range_bytes m (str_s s) (str_s s' + 1)) as (f & Hf & Hlen); [lia|lia|lia|].
destruct f as [|c n _] using rev_ind; [cbn in Hlen; lia|]. rewrite length_app in Hlen. cbn [length] in Hlen.
assert (Hn : len n = str_s s' - str_s s) by (unfold len; lia). rewrite <- Hn. apply wp_bind.
rewrite (parse_class_at m cls (str_s s) n c); [|lia|done|done|done]. apply wp_ok, wp_ret. unfold typed. cbn.
split; [done|]. split; [done|]. split; [by rewrite <- Hn|]. split; [done|]. apply class_type_class.
Qed.

Lemma parse_param_body_safe s : rest s → 0 < str_len s →
wp (parse_param_body m s) (λ o, match o with
  | Some (s', b) => rest s' ∧ str_s s ≤ str_s s' ∧ within a e b
  | None => True end).
Proof.
intros (H1 & H2 & H3) Hpos. unfold parse_param_body. wp_step. wp_step. wp_step.
- unfold parse_quoted_param. wp_step; [done|]. cbn [str_s str_len]. wp_step.
  eapply wp_mono; [apply q_memchr_spec; lia|]. intros [q|] Hq; [|done].
  destruct Hq as (Hq & _). wp_step. rewrite small by lia. unfold rest, within. cbn [str_s str_len]. lia.
- unfold parse_token_param. wp_step; [lia|]. wp_step. eapply wp_mono; [apply scan_spec; lia|].
  intros q [Hge Hle _ _]. wp_step; [done|]. wp_step. unfold rest, within. cbn [str_s str_len]. lia.
Qed.

(** What the rounds maintain. *)
Definition params_inv (st : str * hooks * list param) : Prop :=
let '(s, h, ps) := st in rest s ∧ h = hooks_from 0 hooks_zero ps ∧ Forall param_in ps.

(** What a success leaves: the end of the text, a comma or a bracket. *)
Definition params_post (o : option (str * list param * hooks)) : Prop :=
match o with
| None => True
| Some (s, ps, h) =>
    rest s ∧ (str_len s = 0 ∨ ∃ c, rd m (str_s s) = Ok c ∧ (c = ch "," ∨ c = ch ">")) ∧
    ps ≠ [] ∧ h = hooks_of ps ∧ Forall param_in ps
end.

Definition round_post (p : Z) (x : str * hooks * list param + option (str * list param * hooks)) : Prop :=
match x with
| inl st => params_inv st ∧ p < str_s st.1.1
| inr o => params_post o
end.

Lemma param_ok_safe p s h ty t ps : ty = p_type t → rest s → h = hooks_from 0 hooks_zero ps → Forall param_in ps → param_in t →
(str_len s = 0 ∨ ∃ c, rd m (str_s s) = Ok c ∧ (c = ch "," ∨ c = ch ">")) →
wp (param_ok s (add_hook ty (length ps) h) t ps) (round_post p).
Proof.
intros -> Hs -> Hps Ht Hend. cbn. split_and!; [done|done|by destruct ps| |by apply Forall_app; split; [|apply Forall_singleton]].
unfold hooks_of, append. rewrite length_app, hooks_from_snoc. cbn [length Nat.add]. do 2 f_equal. lia.
Qed.

Lemma param_sep_safe p s h ty t ps : ty = p_type t → rest s → p ≤ str_s s → 0 < str_len s → h = hooks_from 0 hooks_zero ps → Forall param_in ps →
param_in t → wp (param_sep m s (add_hook ty (length ps) h) t ps) (round_post p).
Proof.
intros -> Hs Hp Hpos -> Hps Ht. unfold param_sep. pose proof Hs as (H1 & H2 & H3). wp_step. wp_step.
destruct (Z.eqb_spec c (ch ",")) as [->|]; [apply param_ok_safe; try done; right; eauto|].
destruct (Z.eqb_spec c (ch ">")) as [->|]; [apply param_ok_safe; try done; right; eauto|].
wp_step; [done|]. wp_step. eapply wp_mono; [apply trim_leading_rest; unfold rest; cbn [str_s str_len]; lia|].
intros s' [Hs' Hle]. cbn [str_s] in Hle. wp_step; [done|]. wp_step. cbn [round_post params_inv fst].
unfold append. rewrite hooks_from_snoc. split; [|lia]. split_and!; [done|done|]. by apply Forall_app; split; [|apply Forall_singleton].
Qed.

Lemma params_round_safe st : params_inv st →
wp (params_round m malloc cls st) (round_post (str_s st.1.1)).
Proof.
destruct st as [[s h] ps]. intros (Hs & Hh & Hps). unfold params_round. destruct (malloc _); [|done]. cbn [negb fst].
wp_step. eapply wp_mono; [by apply parse_param_name_safe|]. intros [s1 [h1 t]] (Hs1 & Hle1 & Ht & -> & Hty).
destruct t as [ty n b l]. cbn [p_type] in *. injection Ht as -> -> ->. cbn [p_name str_len str_s].
pose proof Hs as (Ha1 & Ha2 & Ha3). pose proof Hs1 as (Hb1 & Hb2 & Hb3).
assert (Hplain : param_in (set_plen (str_s s1 - str_s s) (MkParam ty (Str (str_s s) (str_s s1 - str_s s)) null_str 0))).
{ unfold param_in, within. cbn. split_and!; try lia; [by left|done]. }
wp_step. eapply wp_mono; [by apply trim_leading_rest|]. intros s2 [Hs2 Hle2]. pose proof Hs2 as (Hc1 & Hc2 & Hc3).
destruct (Z.eqb_spec (str_len s2) 0) as [E2|E2]; [apply (param_ok_safe _ s2 h ty); (done || by left)|].
wp_step. wp_step. wp_step; [|apply (param_sep_safe _ s2 h ty); (done || lia)].
wp_step. eapply wp_mono; [apply trim_leading_rest; unfold rest; cbn [str_s str_len]; lia|].
intros s3 [Hs3 Hle3]. pose proof Hs3 as (Hd1 & Hd2 & Hd3). cbn [str_s] in Hle3. wp_step; [done|]. wp_step.
eapply wp_mono; [apply parse_param_body_safe; [done|lia]|]. intros [[s4 body]|] Hb; [|done].
destruct Hb as (Hs4 & Hle4 & Hbody). pose proof Hs4 as (Hf1 & Hf2 & Hf3). pose proof (mem_size m Hm).
rewrite to_int_small by lia.
assert (Hval : param_in (set_plen (str_s s4 - str_s s) (set_pbody body (MkParam ty (Str (str_s s) (str_s s1 - str_s s)) null_str 0)))).
{ unfold param_in. split_and!; cbn; [unfold within; cbn; lia|by right|lia|lia|done]. }
wp_step. eapply wp_mono; [by apply trim_leading_rest|]. intros s5 [Hs5 Hle5]. pose proof Hs5 as (Hg1 & Hg2 & Hg3).
destruct (Z.eqb_spec (str_len s5) 0) as [E5|E5]; [apply (param_ok_safe _ s5 h ty); (done || by left)|].
apply (param_sep_safe _ s5 h ty); (done || lia).
Qed.

Lemma parse_params_wp s : rest s → wp (parse_params m malloc s cls) params_post.
Proof.
intros Hs. pose proof (mem_base m Hm). pose proof Hs as (H1 & H2 & H3). unfold parse_params.
destruct (Z.eqb_spec (str_s s) 0); [lia|].
apply (wp_loop _ params_inv (λ st, e + 1 - str_s st.1.1)); [|by split_and!|cbn [fst]; lia].
intros [[s' h'] ps'] Hinv. split; [destruct Hinv as ((?&?&?)&_); cbn [fst]; lia|].
eapply wp_mono; [by apply params_round_safe|]. intros [st|o] H'; [|done]. destruct H' as [H' Hlt]. split; [done|]. cbn [fst] in *. lia.
Qed.
End safe.
