(* ===== verification/Route.v ===== *)
(** * Name-addr and routes (parse_nameaddr.c, [find_not_quoted] of parser_f.h, parse_rr.c)

    The list of the routes is in the order of its [next] pointers.  [malloc i 0] tells if
    the allocation of the route number [i] succeeds, [malloc i (S j)] that of its
    parameter number [j]. *)

From stdpp Require Import strings.
From S2P Require Export Param.

(** ** Name-addr *)
Record name_addr := NameAddr { na_name : str; na_uri : str; na_len : Z }.

Section parse.
Context (m : mem).

(** [for(i = 0; i < _s->len; i++)], with [n] characters left. *)
Fixpoint find_not_quoted_n (p c : Z) (quoted : bool) (n : nat) : res (option Z) :=
match n with
| O => mret None
| S n =>
    a ← rd m p;
    if negb quoted then
      if a =? DQUOTE then find_not_quoted_n (p + 1) c true n
      else if a =? c then mret (Some p)
      else find_not_quoted_n (p + 1) c quoted n
    else if a =? DQUOTE then
      b ← rd m (p - 1);
      find_not_quoted_n (p + 1) c (b =? BSLASH) n
    else find_not_quoted_n (p + 1) c quoted n
end.

(** [None] is the null pointer. *)
Definition find_not_quoted (s : str) (c : Z) : res (option Z) :=
find_not_quoted_n (str_s s) c false (Z.to_nat (str_len s)).

(** [None] for -3 and -4. *)
Definition parse_nameaddr (s : str) : res (option name_addr) :=
p ← find_not_quoted s (ch "<");
match p with
| None => mret None
| Some p =>
    let name := slice (str_s s) p in
    let uri_s := p + 1 in
    let uri_len := to_int (str_len s - str_len name - 1) in
    uri_end ← find_not_quoted (Str uri_s uri_len) (ch ">");
    match uri_end with
    | None => mret None
    | Some e => mret (Some (NameAddr name (slice uri_s e) (to_int (e - str_s name + 1))))
    end
end.

(** ** Routes *)
Record rr := Rr { r_nameaddr : name_addr; r_params : list param; r_len : Z }.

Context (malloc : nat → nat → bool).

(** [ok:]: the route is the last one. *)
Definition rr_ok (r : rr) (rs : list rr) : res (str * list rr + option (list rr)) := mret (inr (Some (rs ++ [r]))).

(** A comma, white space, and the next route. *)
Definition rr_comma (s : str) (r : rr) (rs : list rr) : res (str * list rr + option (list rr)) :=
c ← rd m (str_s s);
if negb (c =? ch ",") then mret (inr None) else
s ← trim_leading m (Str (str_s s + 1) (str_len s - 1));
if str_len s =? 0 then mret (inr None) else mret (inl (s, rs ++ [r])).

(** One round of [while(1)]. *)
Definition rr_round (st : str * list rr) : res (str * list rr + option (list rr)) :=
let '(s, rs) := st in
let i := length rs in
if negb (malloc i 0%nat) then mret (inr None) else
na ← parse_nameaddr s;
match na with
| None => mret (inr None)
| Some na =>
    let r := Rr na [] (na_len na) in
    s ← trim_leading m (Str (str_s (na_name na) + na_len na) (str_len s - na_len na));
    if str_len s =? 0 then rr_ok r rs else
    c ← rd m (str_s s);
    if c =? ch ";" then
      s ← trim_leading m (Str (str_s s + 1) (str_len s - 1));
      if str_len s =? 0 then mret (inr None) else
      ps ← parse_params m (λ j, malloc i (S j)) s CLASS_ANY;
      match ps with
      | None => mret (inr None)
      | Some (s, ps, h) =>
          match last_param h ≫= λ k, ps !! k with
          | None => Fault 0 (* [hooks.last_param] is null *)
          | Some q =>
              let r := Rr na ps (to_int (str_s (p_name q) + p_len q - str_s (na_name na))) in
              s ← trim_leading m s;
              if str_len s =? 0 then rr_ok r rs else rr_comma s r rs
          end
      end
    else rr_comma s r rs
end.

(** [do_parse_rr_body] with [*head] null, [parse_rr_body]; [None] is -1. *)
Definition parse_rr_body (buf len : Z) : res (option (list rr)) :=
if (buf =? 0) || (len <=? 0) then mret None else
s ← trim_leading m (Str buf len);
loop rr_round (S (S (Z.to_nat (mlim m - buf)))) (s, []).

(** The body of a header and what it was parsed into: the return value and [parsed]. *)
Definition parse_rr (body : str) (parsed : option (list rr)) : res (Z * option (list rr)) :=
match parsed with
| Some _ => mret (0, parsed)
| None =>
    r ← parse_rr_body (str_s body) (str_len body);
    match r with None => mret (-1, None) | Some rs => mret (0, Some rs) end
end.

(** [get_path_dst_uri]: the URI of the first route. *)
Definition get_path_dst_uri (p : str) : res (option str) :=
r ← parse_rr_body (str_s p) (str_len p);
match r with
| Some (r :: _) => mret (Some (na_uri (r_nameaddr r)))
| _ => mret None
end.

(** ** Copies *)

(** How many characters are copied: up to the end of the first parameter. *)
Definition rr_copy_len (r : rr) : Z :=
match r_params r with
| q :: _ => to_int (str_s (p_name q) + p_len q - str_s (na_name (r_nameaddr r)))
| [] => na_len (r_nameaddr r)
end.

Definition translate_pointer (new_buf org_buf p : Z) : Z := if p =? 0 then 0 else new_buf + (p - org_buf).

Definition xlate_str (new_buf org_buf : Z) (x : str) : str := Str (translate_pointer new_buf org_buf (str_s x)) (str_len x).

(** [xlate_pointers], with the copied text at [new_buf]. *)
Definition xlate_pointers (new_buf : Z) (r : rr) : rr :=
let na := r_nameaddr r in
let org_buf := str_s (na_name na) in
Rr (NameAddr (Str new_buf (str_len (na_name na))) (xlate_str new_buf org_buf (na_uri na)) (na_len na))
  (map (λ q, MkParam (p_type q) (xlate_str new_buf org_buf (p_name q)) (xlate_str new_buf org_buf (p_body q)) (p_len q))
     (r_params r))
  (r_len r).

(** [n] characters from [p] on. *)
Fixpoint memcpy (p : Z) (n : nat) : res (list Z) :=
match n with
| O => mret []
| S n => c ← rd m p; l ← memcpy (p + 1) n; mret (c :: l)
end.

(** [duplicate_rr]: [new i] is the address of the copied text of the route number [i].
  Each copy comes with the text that was copied. *)
Fixpoint do_duplicate_rr (new : nat → Z) (first : bool) (i : nat) (rs : list rr) : res (option (list (rr * list Z))) :=
match rs with
| [] => mret (Some [])
| r :: rs =>
    if negb (malloc i 0%nat) then mret None else
    text ← memcpy (str_s (na_name (r_nameaddr r))) (Z.to_nat (rr_copy_len r));
    match do_duplicate_params (λ j, malloc i (S j)) 0 (r_params r) with
    | None => mret None
    | Some ps =>
        let res := xlate_pointers (new i) (Rr (r_nameaddr r) ps (r_len r)) in
        if first then mret (Some [(res, text)]) else
        rest ← do_duplicate_rr new first (S i) rs;
        match rest with None => mret None | Some l => mret (Some ((res, text) :: l)) end
    end
end.

(** ** Printing *)
Definition MAX_RR_HDRS : nat := 64.

(** The loop over the headers: the table of the routes.  [bodies] are the headers of the
  [sibling] chain, with what they were parsed into before. *)
Fixpoint collect_routes (bodies : list (str * option (list rr))) (route : list str) : res (option (list str)) :=
match bodies with
| [] => mret (Some route)
| (body, parsed) :: bodies =>
    r ← parse_rr body parsed;
    match r with
    | (rc, parsed) =>
        if rc <? 0 then mret None else
        let route := route ++ map (λ p, Str (str_s (na_name (r_nameaddr p))) (r_len p)) (default [] parsed) in
        if (MAX_RR_HDRS <=? length route)%nat then mret None else collect_routes bodies route
    end
end.

(** [!nb_recs || (nb_recs && (...))], compared as unsigned numbers. *)
Definition counted (order : bool) (nb_recs : option Z) (n i : Z) : bool :=
match nb_recs with
| None => true
| Some k => if order then to_uint i <=? to_uint (n - k) else k <=? to_uint i
end.

(** [for(i=0;i<n;i++)]: the sum of the lengths and the number of the routes counted. *)
Fixpoint count_routes (order : bool) (nb_recs : option Z) (n i : Z) (route : list str) : Z * Z :=
match route with
| [] => (0, 0)
| r :: route =>
    let '(route_len, nr) := count_routes order nb_recs n (i + 1) route in
    if counted order nb_recs n i then (str_len r + route_len, nr + 1) else (route_len, nr)
end.

(** The size that is allocated, with a comma between the routes. *)
Definition rr_print_size (route : list str) (order : bool) (nb_recs : option Z) : Z :=
let '(route_len, nr) := count_routes order nb_recs (Z.of_nat (length route)) 0 route in
route_len + (nr - 1).

(** [while (i<n)]: [f] routes from [i] on. *)
Fixpoint print_up (route : list str) (i : Z) (fuel : nat) : res (list Z) :=
match fuel with
| O => OutOfFuel
| S fuel =>
    if i <? Z.of_nat (length route) then
      if i <? 0 then Fault i else
      match route !! Z.to_nat i with
      | None => Fault i
      | Some r =>
          t ← memcpy (str_s r) (Z.to_nat (str_len r));
          l ← print_up route (i + 1) fuel;
          mret (t ++ (if i + 1 <? Z.of_nat (length route) then [ch ","] else []) ++ l)
      end
    else mret []
end.

(** [while (i>=0)]. *)
Fixpoint print_down (route : list str) (i : Z) (fuel : nat) : res (list Z) :=
match fuel with
| O => OutOfFuel
| S fuel =>
    if 0 <=? i then
      match route !! Z.to_nat i with
      | None => Fault i
      | Some r =>
          t ← memcpy (str_s r) (Z.to_nat (str_len r));
          l ← print_down route (i - 1) fuel;
          mret (t ++ (if 0 <? i then [ch ","] else []) ++ l)
      end
    else mret []
end.

(** [print_rr_body]: the text and the number of records, or -1.  [pkg_malloc n] tells if
  [n] bytes can be allocated.  Without headers nothing is done. *)
Definition print_rr_body (pkg_malloc : Z → bool) (bodies : list (str * option (list rr))) (order : bool) (nb_recs : option Z) :
  res (option (list Z * Z)) :=
route ← collect_routes bodies [];
match route with
| None => mret None
| Some route =>
    let n := Z.of_nat (length route) in
    let route_len := to_int (rr_print_size route order nb_recs) in
    if negb (pkg_malloc (route_len mod 2 ^ 64)) then mret None else
    text ← (if negb order then
              print_up route (to_int (default 0 nb_recs)) (S (S (length route)))
            else
              print_down route (match nb_recs with None => n - 1 | Some k => to_int (n - k - 1) end) (S (S (length route))));
    mret (Some (text, n))
end.
End parse.
