(* ===== verification/RouteText.v ===== *)
(** * Routes: well-formed routes are parsed into their parts, and what is printed of them *)

From stdpp Require Import strings.
From S2P Require Export ParamSafety.
From S2P Require Export Route.

(** ** Routes on every text: termination, memory safety, and where the parts lie *)

Section safe.
Context (m : mem) (malloc : nat → nat → bool) (a e : Z).
Hypothesis Hm : mem_ok m.
Hypothesis Ha : mbase m ≤ a.
Hypothesis He : e < mlim m.

Lemma find_not_quoted_n_safe p c quoted n : a ≤ p → p + Z.of_nat n ≤ e → (quoted = true → a < p) →
wp (find_not_quoted_n m p c quoted n) (λ o, match o with
  | Some q => p ≤ q < p + Z.of_nat n ∧ rd m q = Ok c
  | None => True end).
Proof.
revert p quoted. induction n as [|n IH]; intros p quoted Hp Hn Hq; [done|]. cbn [find_not_quoted_n].
assert (Hnext : ∀ q', wp (find_not_quoted_n m (p + 1) c q' n) (λ o, match o with
  | Some q => p ≤ q < p + Z.of_nat (S n) ∧ rd m q = Ok c | None => True end)).
{ intros q'. eapply wp_mono; [apply IH; lia|]. intros [q|]; [|done]. intros [? ?]. split; [lia|done]. }
wp_step. wp_step. destruct quoted; cbn [negb].
- wp_step; [|apply Hnext]. specialize (Hq eq_refl). wp_step. wp_step. apply Hnext.
- wp_step; [apply Hnext|]. destruct (Z.eqb_spec c0 c) as [->|]; [|apply Hnext]. wp_step. split; [lia|done].
Qed.

(** A name-addr that lies in the text. *)
Definition name_addr_in (x : name_addr) : Prop :=
within a e (na_name x) ∧ within a e (na_uri x) ∧
str_s (na_uri x) = str_s (na_name x) + str_len (na_name x) + 1 ∧
na_len x = str_len (na_name x) + str_len (na_uri x) + 2 ∧ str_s (na_name x) + na_len x ≤ e.

Lemma parse_nameaddr_safe s : rest a e s →
wp (parse_nameaddr m s) (λ o, match o with Some x => name_addr_in x ∧ na_name x = Str (str_s s) (str_len (na_name x)) | None => True end).
Proof.
intros (H1 & H2 & H3). pose proof (mem_size m Hm). unfold parse_nameaddr. wp_step. unfold find_not_quoted at 1.
eapply wp_mono; [apply find_not_quoted_n_safe; (done || lia)|]. intros [p|]; [|done]. intros [Hp _].
rewrite (small m a e) by (done || lia). cbn [str_len]. rewrite to_int_small by lia. wp_step. unfold find_not_quoted. cbn [str_s str_len].
eapply wp_mono; [apply find_not_quoted_n_safe; (done || lia)|]. intros [q|]; [|done]. intros [Hq _]. wp_step.
rewrite (small m a e) by (done || lia). cbn [str_s]. rewrite to_int_small by lia.
unfold name_addr_in, within. cbn. split; [|f_equal; lia]. split_and!; lia.
Qed.

(** A route that lies in the text. *)
Definition rr_in (r : rr) : Prop :=
name_addr_in (r_nameaddr r) ∧ Forall (param_in CLASS_ANY a e) (r_params r) ∧
na_len (r_nameaddr r) ≤ r_len r ∧ str_s (na_name (r_nameaddr r)) + r_len r ≤ e.

Definition rr_post (p : Z) (x : str * list rr + option (list rr)) : Prop :=
match x with
| inl (s, rs) => rest a e s ∧ Forall rr_in rs ∧ p < str_s s
| inr (Some rs) => rs ≠ [] ∧ Forall rr_in rs
| inr None => True
end.

Lemma rr_ok_safe p r rs : rr_in r → Forall rr_in rs → wp (rr_ok r rs) (rr_post p).
Proof. intros Hr Hrs. cbn. split; [by destruct rs|]. by apply Forall_app; split; [|apply Forall_singleton]. Qed.

Lemma rr_comma_safe p s r rs : rest a e s → 0 < str_len s → p ≤ str_s s → rr_in r → Forall rr_in rs →
wp (rr_comma m s r rs) (rr_post p).
Proof.
intros (H1 & H2 & H3) Hpos Hp Hr Hrs. unfold rr_comma. wp_step. wp_step. wp_step; [done|]. wp_step.
eapply wp_mono; [apply (trim_leading_rest m a e); [done|lia|unfold rest; cbn [str_s str_len]; lia]|].
intros s' [Hs' Hle]. cbn [str_s] in Hle. wp_step; [done|]. wp_step. cbn.
split; [done|]. split; [by apply Forall_app; split; [|apply Forall_singleton]|lia].
Qed.
Lemma param_in_wider x q : a ≤ x → param_in CLASS_ANY x e q → param_in CLASS_ANY a e q.
Proof.
intros Hx (H1 & H2 & H3). split; [by eapply within_mono; [exact H1|lia|lia]|]. split; [|done].
destruct H2 as [|H2]; [by left|right; by eapply within_mono; [exact H2|lia|lia]].
Qed.

Lemma rr_round_safe st : rest a e st.1 ∧ Forall rr_in st.2 → wp (rr_round m malloc st) (rr_post (str_s st.1)).
Proof.
destruct st as [s rs]. cbn [fst snd]. intros [Hs Hrs]. pose proof (mem_size m Hm). unfold rr_round.
destruct (malloc _ 0%nat); [|done]. cbn [negb]. wp_step. eapply wp_mono; [by apply parse_nameaddr_safe|].
intros [na|]; [|done]. intros [Hna Hname]. pose proof Hna as (Hn1 & Hn2 & Hn3 & Hn4 & Hn5). unfold within in *.
assert (Hns : str_s (na_name na) = str_s s) by (rewrite Hname; done).
assert (Hlen : 2 ≤ na_len na) by lia. pose proof Hs as (Hs1 & Hs2 & Hs3).
assert (Hr : rr_in (Rr na [] (na_len na))) by (split_and!; [done|constructor|cbn; lia|cbn; lia]).
wp_step. eapply wp_mono; [apply (trim_leading_rest m a e); [done|lia|unfold rest; cbn [str_s str_len]; lia]|].
intros s1 [Hr1 Hle1]. cbn [str_s] in Hle1. pose proof Hr1 as (? & ? & ?).
destruct (Z.eqb_spec (str_len s1) 0); [by apply rr_ok_safe|]. wp_step. wp_step.
destruct (Z.eqb_spec c (ch ";")) as [_|_]; [|apply rr_comma_safe; (done || lia)].
wp_step. eapply wp_mono; [apply (trim_leading_rest m a e); [done|lia|unfold rest; cbn [str_s str_len]; lia]|].
intros s2 [Hr2 Hle2]. cbn [str_s] in Hle2. pose proof Hr2 as (? & ? & ?). wp_step; [done|]. wp_step.
eapply wp_mono; [apply (parse_params_wp m _ CLASS_ANY (str_s s2) e); [done|lia|lia|unfold rest; lia]|].
intros [[[s3 ps] h]|]; [|done]. intros (Hr3 & _ & Hne & -> & Hps). pose proof Hr3 as (? & ? & ?).
destruct (exists_last Hne) as (ps' & q & ->). unfold hooks_of. rewrite last_param_set by (by rewrite hooks_from_length).
rewrite length_app. cbn [length mbind option_bind]. replace (length ps' + 1 - 1)%nat with (length ps') by lia.
rewrite list_lookup_middle by done. pose proof Hps as Hq. apply Forall_app in Hq as [_ Hq]. apply Forall_cons in Hq as [Hq _].
destruct Hq as (Hq1 & _ & Hq3 & Hq4 & _). unfold within in Hq1. rewrite to_int_small by lia.
assert (Hr' : rr_in (Rr na (ps' ++ [q]) (str_s (p_name q) + p_len q - str_s (na_name na)))).
{ split_and!; [done| |cbn; lia|cbn; lia]. eapply Forall_impl; [exact Hps|]. intros q'. apply param_in_wider. lia. }
wp_step. eapply wp_mono; [apply (trim_leading_rest m (str_s s2) e); [lia|lia|done]|].
intros s4 [Hr4 Hle4]. pose proof Hr4 as (? & ? & ?).
destruct (Z.eqb_spec (str_len s4) 0); [by apply rr_ok_safe|]. apply rr_comma_safe; (done || (unfold rest; lia) || lia).
Qed.

(** [parse_rr_body] of a text that ends at [e]. *)
Lemma parse_rr_body_wp n : a + n = e → wp (parse_rr_body m malloc a n) (λ o, match o with
  | Some rs => rs ≠ [] ∧ Forall rr_in rs
  | None => True end).
Proof.
intros Hn. unfold parse_rr_body. destruct (Z.eqb_spec a 0), (Z.leb_spec n 0); try done. cbn [orb]. wp_step.
eapply wp_mono; [apply (trim_leading_rest m a e); [done|lia|unfold rest; cbn [str_s str_len]; lia]|].
intros s [Hs Hle]. cbn [str_s] in Hle. pose proof Hs as (? & ? & ?).
apply (wp_loop _ (λ st, rest a e st.1 ∧ Forall rr_in st.2) (λ st, mlim m - str_s st.1)); [|by split|cbn [fst]; lia].
intros [s' rs] [Hs' Hrs]. split; [destruct Hs' as (?&?&?); cbn [fst] in *; lia|].
eapply wp_mono; [by apply rr_round_safe|]. intros [[s'' rs']|[rs'|]] Hp; cbn [rr_post fst snd] in *; [|done|done].
destruct Hp as (? & ? & ?). split; [done|lia].
Qed.
End safe.

(** ** The grammar *)

(** A display name: characters, and quoted strings. *)
Inductive piece := Plain (c : Z) | InQuotes (l : list Z).

Definition piece_chars (x : piece) : list Z :=
  match x with Plain c => [c] | InQuotes l => DQUOTE :: l ++ [DQUOTE] end.

(** The pieces without the character [c] outside of quotes. *)
Definition piece_ok (c : Z) (x : piece) : Prop :=
  match x with
  | Plain a => a ≠ DQUOTE ∧ a ≠ c
  | InQuotes l => Forall (λ a, a ≠ DQUOTE ∧ a ≠ BSLASH) l
  end.

Definition pieces_chars (xs : list piece) : list Z := concat (map piece_chars xs).

Record route_text := RText {
  rt_name : list piece; rt_uri : list Z; rt_sp : list Z;
  rt_params : option (list Z * param_text * list (list Z * param_text)) }.

Definition addr_chars (t : route_text) : list Z := pieces_chars (rt_name t) ++ ch "<" :: rt_uri t ++ [ch ">"].

Definition rparams_chars (x : option (list Z * param_text * list (list Z * param_text))) : list Z :=
  match x with Some (sp, t, ts) => ch ";" :: sp ++ list_chars t ts | None => [] end.

Definition route_chars (t : route_text) : list Z := addr_chars t ++ rt_sp t ++ rparams_chars (rt_params t).

Definition route_ok (t : route_text) : Prop :=
  Forall (piece_ok (ch "<")) (rt_name t) ∧ Forall (λ c, c ≠ DQUOTE ∧ c ≠ ch ">") (rt_uri t) ∧ white (rt_sp t) ∧
  no_ws (addr_chars t) ∧
  match rt_params t with Some (sp, t, ts) => white sp ∧ list_ok t ts | None => True end.

Definition rr_at (p : Z) (t : route_text) : rr :=
  let n := len (pieces_chars (rt_name t)) in
  let na := NameAddr (Str p n) (Str (p + n + 1) (len (rt_uri t))) (n + len (rt_uri t) + 2) in
  match rt_params t with
  | None => Rr na [] (na_len na)
  | Some (sp, x, xs) =>
      let ps := params_at CLASS_ANY (p + na_len na + len (rt_sp t) + 1 + len sp) x xs in
      Rr na ps (match last ps with Some q => str_s (p_name q) + p_len q - p | None => 0 end)
  end.

(** Routes behind commas and white space. *)
Fixpoint routes_chars (t : route_text) (ts : list (list Z * route_text)) : list Z :=
  route_chars t ++ match ts with [] => [] | (sp, t') :: ts => ch "," :: sp ++ routes_chars t' ts end.

Fixpoint rrs_at (p : Z) (t : route_text) (ts : list (list Z * route_text)) : list rr :=
  rr_at p t :: match ts with [] => [] | (sp, t') :: ts => rrs_at (p + len (route_chars t) + 1 + len sp) t' ts end.

Definition routes_ok (t : route_text) (ts : list (list Z * route_text)) : Prop :=
  route_ok t ∧ Forall (λ x, white x.1 ∧ route_ok x.2) ts.

Section run.
Context (m : mem).

(** ** Quoted text *)
Lemma find_quoted p c l n : Forall (λ a, a ≠ DQUOTE ∧ a ≠ BSLASH) l → bytes_at m p (l ++ [DQUOTE]) →
(∃ b, rd m (p - 1) = Ok b ∧ b ≠ BSLASH) →
find_not_quoted_n m p c true (length l + S n) = find_not_quoted_n m (p + len l + 1) c false n.
Proof.
intros Hl. revert p. induction Hl as [|a l [Ha Hb] _ IH]; intros p Hat Hprev.
- destruct Hat as [Hq _], Hprev as (b & Hb & Hne). rewrite len_nil, Z.add_0_r. cbn [length Nat.add find_not_quoted_n].
  rewrite Hq. cbn [mbind res_bind negb]. rewrite Z.eqb_refl, Hb. cbn [mbind res_bind]. by rewrite (proj2 (Z.eqb_neq _ _) Hne).
- destruct Hat as [Hra Hat]. cbn [length Nat.add find_not_quoted_n]. rewrite Hra. cbn [mbind res_bind negb].
  rewrite (proj2 (Z.eqb_neq _ _) Ha). rewrite IH; [|done|].
  + rewrite len_cons. f_equal. lia.
  + exists a. by replace (p + 1 - 1) with p by lia.
Qed.

Lemma find_pieces p c xs n : Forall (piece_ok c) xs → bytes_at m p (pieces_chars xs) →
find_not_quoted_n m p c false (length (pieces_chars xs) + n) = find_not_quoted_n m (p + len (pieces_chars xs)) c false n.
Proof.
intros Hxs. revert p. induction Hxs as [|x xs Hx _ IH]; intros p Hat; [by change (len (pieces_chars [])) with 0; rewrite Z.add_0_r|].
unfold pieces_chars in *. cbn [map concat] in *. pose proof (bytes_at_from _ _ _ _ Hat) as Hat2. rewrite len_app, Z.add_assoc.
rewrite <- IH by done. rewrite length_app, <- Nat.add_assoc. apply bytes_at_first in Hat. destruct x as [a|l]; cbn [piece_chars piece_ok] in *.
- destruct Hx as [Ha Hc], Hat as [Hr _]. cbn [length Nat.add find_not_quoted_n]. rewrite Hr. cbn [mbind res_bind negb].
  by rewrite (proj2 (Z.eqb_neq _ _) Ha), (proj2 (Z.eqb_neq _ _) Hc).
- destruct Hat as [Hr Hat]. cbn [length Nat.add find_not_quoted_n]. rewrite Hr. cbn [mbind res_bind negb]. rewrite Z.eqb_refl.
  rewrite length_app. cbn [length]. set (k := (length (concat (map piece_chars xs)) + n)%nat).
  replace (length l + 1 + k)%nat with (length l + S k)%nat by lia. rewrite find_quoted; [|done|done|].
  + f_equal. rewrite len_cons, len_app. change (len [DQUOTE]) with 1. lia.
  + exists DQUOTE. split; [by replace (p + 1 - 1) with p by lia|done].
Qed.

Lemma find_not_quoted_at p c xs r : c ≠ DQUOTE → Forall (piece_ok c) xs → bytes_at m p (pieces_chars xs ++ c :: r) →
find_not_quoted m (Str p (len (pieces_chars xs ++ c :: r))) c = Ok (Some (p + len (pieces_chars xs))).
Proof.
intros Hc Hxs Hat. unfold find_not_quoted. cbn [str_s str_len]. unfold len at 1. rewrite Nat2Z.id, length_app.
rewrite find_pieces; [|done|by apply bytes_at_first in Hat]. apply bytes_at_from in Hat. destruct Hat as [Hr _].
cbn [length find_not_quoted_n]. rewrite Hr. cbn [mbind res_bind negb]. by rewrite (proj2 (Z.eqb_neq _ _) Hc), Z.eqb_refl.
Qed.

Lemma plain_pieces c l : Forall (λ a, a ≠ DQUOTE ∧ a ≠ c) l → Forall (piece_ok c) (map Plain l) ∧ pieces_chars (map Plain l) = l.
Proof.
induction 1 as [|a l Ha _ [IH1 IH2]]; [by split; constructor|]. split; [by constructor|].
unfold pieces_chars in *. cbn [map concat piece_chars app]. by rewrite IH2.
Qed.

Lemma parse_nameaddr_at p t r : len (addr_chars t) < 2 ^ 31 → len (addr_chars t ++ r) < 2 ^ 31 →
Forall (piece_ok (ch "<")) (rt_name t) → Forall (λ c, c ≠ DQUOTE ∧ c ≠ ch ">") (rt_uri t) →
bytes_at m p (addr_chars t ++ r) →
parse_nameaddr m (Str p (len (addr_chars t ++ r))) =
Ok (Some (NameAddr (Str p (len (pieces_chars (rt_name t)))) (Str (p + len (pieces_chars (rt_name t)) + 1) (len (rt_uri t)))
            (len (addr_chars t)))).
Proof.
intros Hl1 Hl2 Hn Hu Hat. unfold parse_nameaddr, addr_chars in *. rewrite <- app_assoc in *. cbn [app] in *.
rewrite find_not_quoted_at by done. cbn [mbind res_bind str_s]. rewrite !len_app, !len_cons, !len_app in *. change (len [ch ">"]) with 1 in *.
pose proof (len_nonneg (pieces_chars (rt_name t))). pose proof (len_nonneg (rt_uri t)). pose proof (len_nonneg r).
rewrite (slice_len p (pieces_chars (rt_name t))) by lia. cbn [str_len str_s]. rewrite to_int_small by lia.
destruct (plain_pieces (ch ">") (rt_uri t) Hu) as [Hok Hch]. apply bytes_at_from in Hat. destruct Hat as [_ Hat].
replace (len (pieces_chars (rt_name t)) + (1 + (len (rt_uri t) + 1 + len r)) - len (pieces_chars (rt_name t)) - 1)
  with (len (pieces_chars (map Plain (rt_uri t)) ++ ch ">" :: r)) by (rewrite Hch, len_app, len_cons; lia).
rewrite find_not_quoted_at; [|done|done|by rewrite Hch; rewrite <- app_assoc in Hat]. rewrite Hch. cbn [mbind res_bind].
rewrite (slice_len _ (rt_uri t)) by lia. rewrite to_int_small by lia. cbn [mret res_ret]. do 3 f_equal. lia.
Qed.
Lemma params_at_in cls p t ts : Forall (λ q, p ≤ str_s (p_name q) ∧ 0 ≤ p_len q ∧
  str_s (p_name q) + p_len q ≤ p + len (list_chars t ts)) (params_at cls p t ts).
Proof.
assert (Hone : ∀ p t r, p ≤ str_s (p_name (param_at cls p t)) ∧ 0 ≤ p_len (param_at cls p t) ∧
  str_s (p_name (param_at cls p t)) + p_len (param_at cls p t) ≤ p + len (param_chars t ++ r)).
{ intros p' t' r. unfold param_at, param_chars. rewrite !len_app. pose proof (len_nonneg (t_name t')).
  pose proof (len_nonneg (t_sp t')). pose proof (len_nonneg r). destruct (t_value t') as [[[sp1 v] sp2]|]; cbn [assign_chars p_name p_len str_s].
  - rewrite len_cons, !len_app. pose proof (len_nonneg sp1). pose proof (len_nonneg sp2). pose proof (len_nonneg (value_chars v)). lia.
  - rewrite len_nil. lia. }
revert p t. induction ts as [|[sp t'] ts IH]; intros p t; cbn [params_at list_chars]; (constructor; [apply Hone|]); [constructor|].
eapply Forall_impl; [apply IH|]. intros q (H1 & H2 & H3). rewrite len_app, len_cons, len_app.
pose proof (len_nonneg (param_chars t)). pose proof (len_nonneg sp). lia.
Qed.

Lemma trim_leading_nil p r c' : no_ws r → bytes_at m p (r ++ [c']) → trim_leading m (Str p (len r)) = Ok (Str p (len r)).
Proof.
intros Hr Hat. pose proof (trim_leading_run m p [] r) as H. cbn [app] in H. rewrite len_nil, Z.add_0_r in H.
apply H; [constructor|by apply bytes_at_first in Hat|done].
Qed.

(** ** Runs over routes *)
Definition route_end (r : list Z) : Prop := match r with [] => True | c :: _ => c = ch "," end.

Lemma rr_round_at malloc p t r c' rs : (∀ i j, malloc i j = true) → 0 < p → len (route_chars t ++ r) < 2 ^ 31 → route_ok t →
route_end r → one_of c' "lL" = false → bytes_at m p (route_chars t ++ r ++ [c']) →
rr_round m malloc (Str p (len (route_chars t ++ r)), rs) =
let s := Str (p + len (route_chars t)) (len r) in
match r with [] => rr_ok (rr_at p t) rs | _ :: _ => rr_comma m s (rr_at p t) rs end.
Proof.
intros Hm Hp Hlen (Hn & Hu & Hsp & Hws & Hps) Hr Hc' Hat. unfold rr_round. rewrite Hm. cbn [negb].
unfold route_chars in *. rewrite <- !app_assoc in *. pose proof (len_nonneg (addr_chars t)). pose proof (len_nonneg (rt_sp t)).
pose proof (len_nonneg r). pose proof Hlen as Hlen'. rewrite !len_app in Hlen'. pose proof (len_nonneg (rparams_chars (rt_params t))).
assert (Hat1 : bytes_at m p (addr_chars t ++ rt_sp t ++ rparams_chars (rt_params t) ++ r)) by (apply (bytes_at_first _ _ _ [c']); by rewrite <- !app_assoc).
rewrite parse_nameaddr_at by (done || lia). cbn [mbind res_bind na_name na_len str_s str_len].
replace (len (addr_chars t ++ rt_sp t ++ rparams_chars (rt_params t) ++ r) - len (addr_chars t))
  with (len (rt_sp t ++ rparams_chars (rt_params t) ++ r)) by (rewrite (len_app (addr_chars t)); lia).
apply bytes_at_from in Hat. apply bytes_at_from in Hat1.
assert (Hnr : no_ws r) by (destruct r as [|c r]; [done|]; by rewrite (Hr : c = ch ",")).
rewrite trim_leading_run; [|done|done|destruct (rt_params t) as [[[sp x] xs]|]; done].
cbn [mbind res_bind str_len str_s]. apply bytes_at_from in Hat. apply bytes_at_from in Hat1. unfold rr_at.
assert (Ha : len (addr_chars t) = len (pieces_chars (rt_name t)) + len (rt_uri t) + 2).
{ unfold addr_chars. rewrite len_app, len_cons, len_app. change (len [ch ">"]) with 1. lia. }
destruct (rt_params t) as [[[sp x] xs]|]; cbn [rparams_chars app] in *.
- destruct Hps as [Hsp2 Hok], Hat as [Hsemi Hat]. rewrite len_cons. pose proof (len_nonneg ((sp ++ list_chars x xs) ++ r)).
  destruct (Z.eqb_spec (1 + len ((sp ++ list_chars x xs) ++ r)) 0); [lia|]. rewrite Hsemi. cbn [mbind res_bind].
  rewrite Z.eqb_refl. rewrite <- app_assoc in *.
  replace (1 + len (sp ++ list_chars x xs ++ r) - 1) with (len (sp ++ list_chars x xs ++ r)) by lia.
  destruct Hat1 as [_ Hat1]. rewrite trim_leading_run; [|done|done|apply list_no_ws, Hok].
  cbn [mbind res_bind str_len str_s]. pose proof (list_pos x xs (proj1 Hok)) as Hpos. rewrite len_app.
  destruct (Z.eqb_spec (len (list_chars x xs) + len r) 0); [lia|]. rewrite <- len_app. apply bytes_at_from in Hat.
  rewrite len_cons, len_app in Hlen'. pose proof (len_nonneg sp).
  set (q := p + len (addr_chars t) + len (rt_sp t) + 1 + len sp).
  destruct (parse_params_at m (λ j, malloc (length rs) (S j)) CLASS_ANY q x xs r c') as (h & -> & Hlast & _);
    [intros; apply Hm|unfold q; lia|lia|done|by destruct r|done|done|].
  cbn [mbind res_bind]. rewrite Hlast. cbn [mbind option_bind na_len]. rewrite <- Ha. fold q.
  rewrite last_lookup, params_at_length. cbn [Nat.pred].
  destruct (params_at CLASS_ANY q x xs !! length xs) as [o|] eqn:Ho; [|apply lookup_ge_None in Ho; rewrite params_at_length in Ho; lia].
  pose proof (params_at_in CLASS_ANY q x xs) as Hin. eapply Forall_lookup_1 in Hin; [|exact Ho]. destruct Hin as (Ho1 & Ho2 & Ho3).
  rewrite to_int_small by (unfold q in *; lia). rewrite (trim_leading_nil _ r c') by (done || by apply bytes_at_from in Hat). cbn [mbind res_bind str_len].
  replace (p + len (addr_chars t ++ rt_sp t ++ ch ";" :: sp ++ list_chars x xs)) with (q + len (list_chars x xs))
    by (unfold q; rewrite !len_app, len_cons, len_app; lia).
  destruct r as [|c r]; [done|]. rewrite len_cons. pose proof (len_nonneg r). by destruct (Z.eqb_spec (1 + len r) 0); [lia|].
- destruct r as [|c r]; [by rewrite Ha|]. rewrite len_cons. pose proof (len_nonneg r). destruct (Z.eqb_spec (1 + len r) 0); [lia|].
  destruct Hat as [Hc _]. rewrite Hc. cbn [mbind res_bind]. rewrite (Hr : c = ch ","). replace (ch "," =? ch ";") with false by done.
  rewrite app_nil_r, (len_app (addr_chars t)), Ha, !Z.add_assoc. done.
Qed.
Lemma route_no_ws t r : route_ok t → no_ws (route_chars t ++ r).
Proof.
intros (_ & _ & _ & H & _). unfold route_chars. rewrite <- app_assoc. unfold addr_chars in *.
destruct (pieces_chars (rt_name t)); done.
Qed.

Lemma route_pos t : 2 ≤ len (route_chars t).
Proof.
unfold route_chars, addr_chars. rewrite !len_app, len_cons, len_app. change (len [ch ">"]) with 1.
pose proof (len_nonneg (pieces_chars (rt_name t))). pose proof (len_nonneg (rt_uri t)). pose proof (len_nonneg (rt_sp t)).
pose proof (len_nonneg (rparams_chars (rt_params t))). lia.
Qed.

Lemma routes_head t ts : ∃ r, routes_chars t ts = route_chars t ++ r.
Proof. destruct ts as [|[sp t'] ts]; cbn [routes_chars]; eauto. Qed.

Lemma routes_run malloc p t ts c' rs : (∀ i j, malloc i j = true) → 0 < p → len (routes_chars t ts) < 2 ^ 31 → routes_ok t ts →
one_of c' "lL" = false → bytes_at m p (routes_chars t ts ++ [c']) →
lands (rr_round m malloc) (λ st, mlim m - str_s st.1) (Str p (len (routes_chars t ts)), rs) (Some (rs ++ rrs_at p t ts)).
Proof.
intros Hm Hp Hlen [Ht Hts] Hc'. revert p t Ht rs Hp Hlen.
induction Hts as [|[sp t'] ts [Hsp Ht'] _ IH]; intros p t Ht rs Hp Hlen Hat; cbn [routes_chars rrs_at fst snd] in *.
all: assert (Hlim : p < mlim m) by (apply bytes_at_range in Hat as [_ H]; [rewrite !length_app in H; cbn [length] in H; lia|
  by match goal with |- ?l ++ _ ≠ [] => destruct l end]).
- apply lands_done; [|cbn [fst str_s]; lia]. rewrite <- app_assoc in Hat. cbn [app] in Hat.
  by rewrite (rr_round_at malloc p t [] c') by done.
- pose proof (route_pos t). pose proof Hlen as Hlen'. rewrite len_app, len_cons, len_app in Hlen'. pose proof (len_nonneg sp).
  destruct (routes_head t' ts) as [r0 Hr0]. pose proof (len_nonneg (routes_chars t' ts)).
  assert (Hround : rr_round m malloc (Str p (len (route_chars t ++ ch "," :: sp ++ routes_chars t' ts)), rs) =
    Ok (inl (Str (p + len (route_chars t) + 1 + len sp) (len (routes_chars t' ts)), rs ++ [rr_at p t]))).
  { rewrite (rr_round_at malloc p t _ c') by (done || by rewrite <- app_assoc in Hat). cbn zeta. unfold rr_comma. cbn [str_s str_len].
    rewrite <- app_assoc in Hat. apply bytes_at_from in Hat. destruct Hat as [-> Hat]. cbn [mbind res_bind].
    rewrite Z.eqb_refl, len_cons. cbn [negb].
    replace (1 + len (sp ++ routes_chars t' ts) - 1) with (len (sp ++ routes_chars t' ts)) by lia.
    rewrite trim_leading_run; [|done|by apply bytes_at_first in Hat|rewrite Hr0; by apply route_no_ws].
    cbn [mbind res_bind str_len]. rewrite Hr0, len_app. pose proof (route_pos t'). pose proof (len_nonneg r0).
    destruct (Z.eqb_spec (len (route_chars t') + len r0) 0); [lia|done]. }
  apply (lands_next _ _ _ _ _ Hround); cbn [fst str_s]; [lia|lia|].
  pose proof (IH (p + len (route_chars t) + 1 + len sp) t' Ht' (rs ++ [rr_at p t])) as Hn. rewrite <- app_assoc in Hn. apply Hn; [lia|lia|].
  rewrite <- app_assoc in Hat. apply bytes_at_from in Hat. destruct Hat as [_ Hat]. rewrite <- app_assoc in Hat. by apply bytes_at_from in Hat.
Qed.

Lemma parse_rr_body_at malloc p lead t ts c' : (∀ i j, malloc i j = true) → 0 < p → len (lead ++ routes_chars t ts) < 2 ^ 31 →
white lead → routes_ok t ts → one_of c' "lL" = false → bytes_at m p (lead ++ routes_chars t ts ++ [c']) →
parse_rr_body m malloc p (len (lead ++ routes_chars t ts)) = Ok (Some (rrs_at (p + len lead) t ts)).
Proof.
intros Hm Hp Hlen Hlead Hok Hc' Hat. unfold parse_rr_body. destruct (routes_head t ts) as [r Hr]. pose proof (route_pos t).
pose proof (len_nonneg lead). pose proof (len_nonneg r). pose proof Hlen as Hlen'. rewrite len_app in Hlen'.
assert (Hpos : 0 < len (routes_chars t ts)) by (rewrite Hr, len_app; lia).
destruct (Z.eqb_spec p 0); [lia|]. destruct (Z.leb_spec (len (lead ++ routes_chars t ts)) 0); [rewrite len_app in *; lia|]. cbn [orb].
rewrite trim_leading_run; [|done|rewrite app_assoc in Hat; by apply bytes_at_first in Hat|rewrite Hr; apply route_no_ws, Hok].
cbn [mbind res_bind]. apply bytes_at_from in Hat.
apply (routes_run malloc (p + len lead) t ts c' []); try done; [lia|lia|]. cbn [fst str_s]. lia.
Qed.
End run.

(** ** Properties *)

(** C34: every well-formed body of a Route or Record-Route header, of any number of
    routes with display names, quoted or not, and parameters, is parsed into its routes, in
    order, each with its name, URI, parameters and length; the destination of a path is
    the URI of the first route. *)
Theorem routes_text m malloc p lead t ts c' : (∀ i j, malloc i j = true) → 0 < p → len (lead ++ routes_chars t ts) < 2 ^ 31 →
  white lead → routes_ok t ts → one_of c' "lL" = false → bytes_at m p (lead ++ routes_chars t ts ++ [c']) →
  parse_rr_body m malloc p (len (lead ++ routes_chars t ts)) = Ok (Some (rrs_at (p + len lead) t ts)) ∧
  get_path_dst_uri m malloc (Str p (len (lead ++ routes_chars t ts))) =
    Ok (Some (Str (p + len lead + len (pieces_chars (rt_name t)) + 1) (len (rt_uri t)))).
Proof.
  intros. assert (H' := parse_rr_body_at m malloc p lead t ts c'). split; [by apply H'|].
  unfold get_path_dst_uri. cbn [str_s str_len]. rewrite H' by done. cbn [mbind res_bind].
  destruct ts as [|[sp t'] ts]; cbn [rrs_at]; unfold rr_at; by destruct (rt_params t) as [[[sp0 x] xs]|].
Qed.

Definition sample_route : route_text :=
  RText [InQuotes (chars "a, <b>"); Plain (ch " ")] (chars "sip:h;lr") (chars " ") (Some (chars " ", sample_param, sample_params)).
Definition sample_routes : list (list Z * route_text) := [(chars " ", RText [] (chars "sip:g") [] None)].

Lemma sample_routes_ok : routes_ok sample_route sample_routes.
Proof.
  unfold routes_ok, route_ok, sample_routes, sample_route. cbn [fst snd rt_name rt_uri rt_sp rt_params]. unfold white.
  repeat match goal with
  | |- list_ok _ _ => exact sample_params_ok
  | |- _ ∧ _ => split
  | |- Forall (piece_ok _) (_ :: _) => apply Forall_cons; split
  | |- Forall (piece_ok _) [] => apply Forall_nil_2
  | |- Forall _ [(_, RText _ _ _ _)] => apply Forall_singleton; cbn [fst snd rt_name rt_uri rt_sp rt_params]
  | |- piece_ok _ _ => cbn [piece_ok]
  | |- _ => done || (refine (bool_decide_unpack _ _); by vm_compute)
  end.
Qed.

Lemma routes_text_witness :
  let text := chars " " ++ routes_chars sample_route sample_routes in let m := block (text ++ [CR]) in
  parse_rr_body m (λ _ _, true) 4096 (len text) = Ok (Some (rrs_at (4096 + len (chars " ")) sample_route sample_routes)) ∧
  get_path_dst_uri m (λ _ _, true) (Str 4096 (len text)) =
    Ok (Some (Str (4096 + len (chars " ") + len (pieces_chars (rt_name sample_route)) + 1) (len (rt_uri sample_route)))).
Proof.
  apply (routes_text _ _ 4096 (chars " ") sample_route sample_routes CR);
    [done|done|by vm_compute|apply Forall_singleton; by left|apply sample_routes_ok|done|by vm_compute].
Defined.

(** Only the text up to the end of the first parameter is copied: the copy of the second one
    points behind the copied text. *)
Lemma copy_too_short :
  let text := chars "<sip:a>;x;yy" in
  (λ r, match r with
        | Some [(Rr _ [_; q] _, copied)] => bool_decide (str_s (p_name q) = 8192 + len copied + 1)
        | _ => false end) <$>
    (rs ← parse_rr_body (block text) (λ _ _, true) 4096 (len text);
     do_duplicate_rr (block text) (λ _ _, true) (λ _, 8192) false 0 (default [] rs)) = Ok true.
Proof. by vm_compute. Qed.
