(* ===== verification/RoutePrint.v ===== *)
(** * Printing routes: what [print_rr_body] writes, and that it fits into what it allocates *)

From stdpp Require Import strings.
From S2P Require Export RouteText.

(** The texts with a comma between them. *)
Fixpoint join (ts : list (list Z)) : list Z :=
  match ts with [] => [] | [t] => t | t :: ts => t ++ ch "," :: join ts end.

(** The records that are printed, and in which order. *)
Definition selected (order : bool) (nb_recs : option Z) (ts : list (list Z)) : list (list Z) :=
  let k := default 0 nb_recs in
  if order then rev (take (Z.to_nat (Z.of_nat (length ts) - k)) ts) else drop (Z.to_nat k) ts.

Lemma join_cons t ts : ts ≠ [] → join (t :: ts) = t ++ ch "," :: join ts.
Proof. by destruct ts. Qed.

(** The room for the texts with a comma behind each. *)
Fixpoint room (ts : list (list Z)) : Z := match ts with [] => 0 | t :: ts => len t + 1 + room ts end.

Lemma room_nonneg ts : 0 ≤ room ts.
Proof. induction ts as [|t ts IH]; cbn [room]; [done|]. pose proof (len_nonneg t). lia. Qed.

Lemma room_app ts us : room (ts ++ us) = room ts + room us.
Proof. induction ts as [|t ts IH]; cbn [app room]; lia. Qed.

Lemma room_rev ts : room (rev ts) = room ts.
Proof. induction ts as [|t ts IH]; [done|]. cbn [rev room]. rewrite room_app, IH. cbn [room]. lia. Qed.

Lemma room_join ts : ts ≠ [] → len (join ts) + 1 = room ts.
Proof.
  induction ts as [|t ts IH]; [done|]. intros _. destruct ts as [|u ts]; [cbn [join room]; lia|].
  rewrite join_cons by done. cbn [room] in *. rewrite len_app, len_cons. specialize (IH ltac:(done)). lia.
Qed.

Section print.
Context (m : mem).

Lemma memcpy_at p t : bytes_at m p t → memcpy m p (length t) = Ok t.
Proof.
revert p. induction t as [|c t IH]; intros p; [done|]. intros [Hc Ht]. cbn [length memcpy]. rewrite Hc.
cbn [mbind res_bind]. by rewrite IH.
Qed.

Context (route : list str) (ts : list (list Z)).
Hypothesis Hts : Forall2 (holds m) route ts.

Lemma copy_route i t : ts !! i = Some t → ∃ r, route !! i = Some r ∧ memcpy m (str_s r) (Z.to_nat (str_len r)) = Ok t.
Proof.
intros Ht. destruct (Forall2_lookup_r _ _ _ _ _ Hts Ht) as (r & Hr & Hl & Hat). exists r. split; [done|].
rewrite Hl, Nat2Z.id. by apply memcpy_at.
Qed.

Lemma same_length : length route = length ts.
Proof. by eapply Forall2_length. Qed.

Lemma print_up_at i fuel : (length ts - i < fuel)%nat → print_up m route (Z.of_nat i) fuel = Ok (join (drop i ts)).
Proof.
revert i. induction fuel as [|fuel IH]; intros i Hf; [lia|]. cbn [print_up]. rewrite same_length.
destruct (Z.ltb_spec (Z.of_nat i) (Z.of_nat (length ts))) as [Hi|Hi]; [|by rewrite drop_ge by lia].
destruct (Z.ltb_spec (Z.of_nat i) 0); [lia|]. rewrite Nat2Z.id.
destruct (lookup_lt_is_Some_2 ts i ltac:(lia)) as [t Ht]. destruct (copy_route i t Ht) as (r & -> & ->). cbn [mbind res_bind].
replace (Z.of_nat i + 1) with (Z.of_nat (S i)) by lia. rewrite IH by lia. cbn [mbind res_bind].
rewrite (drop_S ts t i Ht). destruct (Z.ltb_spec (Z.of_nat (S i)) (Z.of_nat (length ts))).
- rewrite join_cons; [done|]. intros E. apply (f_equal length) in E. rewrite length_drop in E. cbn [length] in E. lia.
- rewrite (drop_ge ts (S i)) by lia. cbn [join app]. by rewrite app_nil_r.
Qed.

Lemma print_down_at k fuel : (k ≤ length ts)%nat → (k < fuel)%nat →
print_down m route (Z.of_nat k - 1) fuel = Ok (join (rev (take k ts))).
Proof.
revert k. induction fuel as [|fuel IH]; intros k Hk Hf; [lia|]. cbn [print_down].
destruct k as [|k]; [done|]. destruct (Z.leb_spec 0 (Z.of_nat (S k) - 1)); [|lia].
replace (Z.of_nat (S k) - 1) with (Z.of_nat k) by lia. rewrite Nat2Z.id.
destruct (lookup_lt_is_Some_2 ts k ltac:(lia)) as [t Ht]. destruct (copy_route k t Ht) as (r & -> & ->). cbn [mbind res_bind].
rewrite IH by lia. cbn [mbind res_bind]. rewrite (take_S_r ts k t Ht), rev_app_distr. cbn [rev app].
destruct (Z.ltb_spec 0 (Z.of_nat k)).
- rewrite join_cons; [done|]. intros E. apply (f_equal length) in E. rewrite length_rev, length_take in E. cbn [length] in E. lia.
- replace k with O by lia. cbn [take rev join app]. by rewrite app_nil_r.
Qed.

(** ** The size *)
Lemma count_bounds order nb_recs n M i l : Forall (λ r, 0 ≤ str_len r ≤ M) l →
let '(a, b) := count_routes order nb_recs n i l in 0 ≤ a ≤ M * Z.of_nat (length l) ∧ 0 ≤ b ≤ Z.of_nat (length l).
Proof.
revert i. induction l as [|r l IH]; intros i Hl; [cbn; lia|]. apply Forall_cons in Hl as [Hr Hl]. cbn [count_routes].
specialize (IH (i + 1) Hl). destruct (count_routes _ _ _ _ _) as [a b]. cbn [length]. destruct (counted _ _ _ _); lia.
Qed.

(** Every route that is printed is counted. *)
Lemma count_up k n i l us : 0 ≤ k → 0 ≤ i → i + Z.of_nat (length l) < 2 ^ 32 → Forall2 (holds m) l us →
let '(a, b) := count_routes false (Some k) n i l in room (drop (Z.to_nat (k - i)) us) ≤ a + b.
Proof.
intros Hk Hi Hlt H. revert i Hi Hlt. induction H as [|r u l us [Hr _] H IH]; intros i Hi Hlt; [by rewrite drop_nil|]. cbn [count_routes length] in *.
specialize (IH (i + 1) ltac:(lia) ltac:(lia)). destruct (count_routes _ _ _ _ _) as [a b]. cbn [counted]. unfold to_uint.
rewrite Z.mod_small by lia. destruct (Z.leb_spec k i).
- replace (Z.to_nat (k - i)) with O by lia. replace (Z.to_nat (k - (i + 1))) with O in IH by lia. rewrite drop_0 in *.
  cbn [room]. unfold len. lia.
- replace (Z.to_nat (k - i)) with (S (Z.to_nat (k - (i + 1)))) by lia. cbn [drop]. lia.
Qed.

Lemma count_down k n i l us : 0 ≤ k < 2 ^ 31 → 0 ≤ i → i + Z.of_nat (length l) ≤ n → n < 2 ^ 31 → Forall2 (holds m) l us →
let '(a, b) := count_routes true (Some k) n i l in room (take (Z.to_nat (n - k - i)) us) ≤ a + b.
Proof.
intros Hk Hi Hlt Hn H. revert i Hi Hlt. induction H as [|r u l us [Hr _] H IH]; intros i Hi Hlt; [by rewrite take_nil|]. cbn [count_routes length] in *.
specialize (IH (i + 1) ltac:(lia) ltac:(lia)). destruct (count_routes _ _ _ _ _) as [a b]. cbn [counted]. unfold to_uint. rewrite (Z.mod_small i) by lia.
pose proof (room_nonneg us). 
destruct (Z.leb_spec i ((n - k) mod 2 ^ 32)) as [Hc|Hc].
- destruct (Z.to_nat (n - k - i)) as [|d] eqn:E; cbn [take room].
  + cbn. pose proof (IH : room _ ≤ _). pose proof (room_nonneg (take (Z.to_nat (n - k - (i + 1))) us)). lia.
  + replace (Z.to_nat (n - k - (i + 1))) with d in IH by lia. unfold len. lia.
- destruct (Z.lt_ge_cases (n - k) 0) as [Hneg|Hpos].
  + exfalso. assert (n - k + 2 ^ 32 = (n - k) mod 2 ^ 32); [|lia]. apply (Z.mod_unique_pos _ _ (-1)); lia.
  + rewrite Z.mod_small in Hc by lia. replace (Z.to_nat (n - k - i)) with O by lia. replace (Z.to_nat (n - k - (i + 1))) with O in IH by lia.
    exact IH.
Qed.

Lemma count_all order n i l us : Forall2 (holds m) l us →
let '(a, b) := count_routes order None n i l in room us ≤ a + b.
Proof.
intros H. revert i. induction H as [|r u l us [Hr _] H IH]; intros i; [done|]. cbn [count_routes].
specialize (IH (i + 1)). destruct (count_routes _ _ _ _ _) as [a b]. cbn [counted room]. unfold len. lia.
Qed.
End print.

(** ** All headers *)
Section collect.
Context (m : mem) (malloc : nat → nat → bool).
Hypothesis Hm : mem_ok m.

(** A body of a header, with a character behind it. *)
Definition body_in (x : str * option (list rr)) : Prop :=
mbase m ≤ str_s x.1 ∧ 0 ≤ str_len x.1 ∧ str_s x.1 + str_len x.1 < mlim m ∧ x.2 = None.

Lemma collect_routes_safe bodies route : Forall body_in bodies → Forall (within (mbase m) (mlim m)) route →
(length route < MAX_RR_HDRS)%nat →
wp (collect_routes m malloc bodies route) (λ o, match o with
  | Some route => Forall (within (mbase m) (mlim m)) route ∧ (length route < MAX_RR_HDRS)%nat
  | None => True end).
Proof.
intros Hb. revert route. induction Hb as [|[body parsed] bodies (Hb1 & Hb2 & Hb3 & Hp) _ IH]; intros route Hr Hn; [done|].
cbn [collect_routes fst snd] in *. subst parsed. wp_step. unfold parse_rr. wp_step.
eapply wp_mono; [apply (parse_rr_body_wp m malloc (str_s body) (str_s body + str_len body)); (done || lia)|].
intros [rs|]; [|done]. intros [_ Hrs]. wp_step. replace (0 <? 0) with false by done. cbn [default].
wp_step; [done|]. match goal with H : (MAX_RR_HDRS <=? _)%nat = false |- _ => apply Nat.leb_gt in H end. apply IH; [|lia].
apply Forall_app. split; [done|]. apply Forall_map. eapply Forall_impl; [exact Hrs|].
intros r ((Hn1 & Hn2 & Hn3 & Hn4 & Hn5) & _ & Hr1 & Hr2). unfold within in *. cbn. lia.
Qed.

Lemma route_texts route : Forall (within (mbase m) (mlim m)) route → ∃ ts, Forall2 (holds m) route ts.
Proof.
induction 1 as [|r route (H1 & H2 & H3) _ (ts & IH)]; [by exists []|].
destruct (range_bytes m (str_s r) (str_s r + str_len r)) as (t & Ht & Hl); [lia|lia|lia|].
exists (t :: ts). constructor; [|done]. split; [lia|done].
Qed.

Context (pkg_malloc : Z → bool).
Hypothesis Hpkg : ∀ n, pkg_malloc n = true → n < 2 ^ 63.
Hypothesis Hsize : (mlim m - mbase m + 1) * Z.of_nat MAX_RR_HDRS < 2 ^ 31.

Lemma print_rr_body_wp bodies order nb_recs : Forall body_in bodies →
match nb_recs with Some k => 0 ≤ k < 2 ^ 31 | None => True end →
wp (print_rr_body m malloc pkg_malloc bodies order nb_recs) (λ o, match o with
  | Some (text, n) => ∃ route ts size, collect_routes m malloc bodies [] = Ok (Some route) ∧ n = Z.of_nat (length route) ∧
      Forall2 (holds m) route ts ∧ text = join (selected order nb_recs ts) ∧ pkg_malloc size = true ∧ len text ≤ size
  | None => True end).
Proof.
intros Hb Hk. assert (Hk0 : 0 ≤ default 0 nb_recs < 2 ^ 31) by (destruct nb_recs; [exact Hk|done]). unfold print_rr_body. wp_step.
assert (Hpos : (0 < MAX_RR_HDRS)%nat) by (unfold MAX_RR_HDRS; lia).
pose proof (collect_routes_safe bodies [] Hb (Forall_nil_2 _) Hpos) as Hc.
destruct (collect_routes m malloc bodies []) as [[route|]| |]; try done. cbn [wp] in *. destruct Hc as [Hw Hn].
destruct (route_texts route Hw) as [ts Hts]. pose proof (same_length m route ts Hts) as Hlen.
set (size := rr_print_size route order nb_recs).
assert (Hroom : room (selected order nb_recs ts) - 1 ≤ size ∧ -1 ≤ size < 2 ^ 31).
{ assert (HM : Forall (λ r, 0 ≤ str_len r ≤ mlim m - mbase m) route) by (eapply Forall_impl; [exact Hw|]; intros r (?&?&?); lia).
  unfold size, rr_print_size. pose proof (count_bounds order nb_recs (Z.of_nat (length route)) _ 0 route HM) as Hbd.
  assert (Hcount : let '(a, b) := count_routes order nb_recs (Z.of_nat (length route)) 0 route in room (selected order nb_recs ts) ≤ a + b).
  { unfold selected, MAX_RR_HDRS in *. destruct nb_recs as [k|], order; cbn [default].
    - pose proof (count_down m k (Z.of_nat (length route)) 0 route ts) as H. rewrite Z.sub_0_r in H. rewrite room_rev, <- Hlen. apply H; (done || lia).
    - pose proof (count_up m k (Z.of_nat (length route)) 0 route ts) as H. rewrite Z.sub_0_r in H. apply H; (done || lia).
    - rewrite room_rev, Z.sub_0_r, Nat2Z.id, take_ge by lia. by apply (count_all m).
    - apply (count_all m). by rewrite drop_0. }
  destruct (count_routes _ _ _ _ _) as [a b]. unfold MAX_RR_HDRS in *. split; [lia|]. nia. }
rewrite (to_int_small size) by lia. destruct (pkg_malloc (size mod 2 ^ 64)) eqn:Hp; cbn [negb]; [|done].
assert (Hs0 : 0 ≤ size).
{ destruct (decide (size = -1)) as [E|]; [|lia]. apply Hpkg in Hp. rewrite E in Hp. done. }
rewrite Z.mod_small in Hp by lia.
assert (Htext : (if negb order then print_up m route (to_int (default 0 nb_recs)) (S (S (length route)))
  else print_down m route (match nb_recs with None => Z.of_nat (length route) - 1 | Some k => to_int (Z.of_nat (length route) - k - 1) end)
         (S (S (length route)))) = Ok (join (selected order nb_recs ts))).
{ unfold selected. destruct order; cbn [negb].
  - assert (E : print_down m route (Z.of_nat (Z.to_nat (Z.of_nat (length ts) - default 0 nb_recs)) - 1) (S (S (length route))) =
      Ok (join (rev (take (Z.to_nat (Z.of_nat (length ts) - default 0 nb_recs)) ts)))).
    { apply (print_down_at m route ts Hts); lia. }
    destruct nb_recs as [k|]; cbn [from_option] in *; unfold id in *; [|by rewrite Z.sub_0_r, Nat2Z.id, <- Hlen in E |- *].
    unfold MAX_RR_HDRS in *. rewrite to_int_small by lia. rewrite Hlen in *. destruct (Z.lt_ge_cases (Z.of_nat (length ts)) k) as [Hlt|Hge].
    + replace (Z.to_nat (Z.of_nat (length ts) - k)) with O by lia. cbn [print_down take rev join]. by destruct (Z.leb_spec 0 (Z.of_nat (length ts) - k - 1)); [lia|].
    + by rewrite <- E, Z2Nat.id by lia.
  - rewrite to_int_small by lia. rewrite <- (print_up_at m route ts Hts _ (S (S (length route)))) by lia. f_equal. lia. }
rewrite Htext. cbn [mbind res_bind wp mret res_ret]. exists route, ts, size. split_and!; try done.
destruct (selected order nb_recs ts) as [|t us] eqn:E; [done|]. rewrite <- E in *. pose proof (room_join (selected order nb_recs ts)) as H.
rewrite E in H at 1. specialize (H ltac:(done)). lia.
Qed.
End collect.

(** ** Properties *)


Definition sample_headers : list Z := chars "<sip:a>;x, <sip:b>" ++ [CR] ++ chars "<sip:c>" ++ [CR].

