(* ===== verification/Contact.v ===== *)
(** * Contacts (contact/contact.c, contact/parse_contact.c)

    The list of the contacts is in the order of its [next] pointers, the hooks are
    numbers of parameters.  [malloc i 0] tells if the allocation of the contact number [i]
    succeeds, [malloc i (S j)] that of its parameter number [j]. *)

From stdpp Require Import strings.
From S2P Require Export Param.
From S2P Require Export RouteText.

Record contact := MkContact {
  c_name : str; c_uri : str;
  c_instance : option nat; c_q : option nat; c_expires : option nat; c_methods : option nat; c_received : option nat;
  c_params : list param; c_len : Z }.

Definition set_clen (n : Z) (c : contact) : contact :=
  MkContact (c_name c) (c_uri c) (c_instance c) (c_q c) (c_expires c) (c_methods c) (c_received c) (c_params c) n.

Definition set_hooks (ps : list param) (h : hooks) (c : contact) : contact :=
  MkContact (c_name c) (c_uri c) (hook P_INSTANCE h) (hook P_Q h) (hook P_EXPIRES h) (hook P_METHODS h) (hook P_RECEIVED h)
    ps (c_len c).

(** ** The URI *)

(** Basic state, quoted, in brackets, in brackets and quoted, and the escapes in both
    kinds of quotes. *)
Inductive uri_state := ST1 | ST2 | ST3 | ST4 | ST5 | ST6.

#[export] Instance uri_state_eq_dec : EqDecision uri_state.
Proof. solve_decision. Defined.

(** The state behind a character; [None] is an error. *)
Definition uri_next (st : uri_state) (c : Z) : option uri_state :=
  if c =? DQUOTE then
    Some match st with ST1 => ST2 | ST2 => ST1 | ST3 => ST4 | ST4 => ST3 | ST5 => ST2 | ST6 => ST4 end
  else if c =? ch "<" then
    match st with ST1 => Some ST3 | ST3 => None | ST5 => Some ST2 | ST6 => Some ST4 | _ => Some st end
  else if c =? ch ">" then
    match st with ST1 => None | ST3 => Some ST1 | ST5 => Some ST2 | ST6 => Some ST4 | _ => Some st end
  else if c =? BSLASH then
    Some match st with ST2 => ST5 | ST4 => ST6 | ST5 => ST2 | ST6 => ST4 | _ => st end
  else Some st.

Section parse.
Context (m : mem).

(** One round of [while(_s->len)]. *)
Definition skip_uri_round (x : str * uri_state) : res (str * uri_state + option str) :=
let '(s, st) := x in
if str_len s =? 0 then mret (inr (if decide (st = ST1) then Some s else None)) else
c ← rd m (str_s s);
if one_of c ",;" && bool_decide (st = ST1) then mret (inr (Some s)) else
match uri_next st c with
| None => mret (inr None)
| Some st => mret (inl (Str (str_s s + 1) (str_len s - 1), st))
end.

Definition skip_uri (s : str) : res (option str) :=
loop skip_uri_round (S (Z.to_nat (mlim m - str_s s))) (s, ST1).

(** ** The name *)

(** [for(i = 0; i < _s->len; i++)]: [p], the characters left, [last_wsp] and [quoted].
  Behind a colon [_s->s] is set first, so that the difference is 0. *)
Fixpoint skip_name_n (s : str) (p : Z) (last_wsp : option Z) (quoted : bool) (n : nat) : res (option str) :=
match n with
| O => mret None
| S n' =>
    c ← rd m p;
    if negb quoted then
      if (c =? SPC) || (c =? TAB) then skip_name_n s (p + 1) (Some p) quoted n'
      else if c =? ch "<" then mret (Some (Str p (str_len s - (p - str_s s))))
      else if c =? ch ":" then
        match last_wsp with
        | Some w => mret (Some (Str w (str_len s - (w - w + 1))))
        | None => mret (Some s)
        end
      else skip_name_n s (p + 1) last_wsp (c =? DQUOTE) n'
    else if c =? DQUOTE then
      b ← rd m (p - 1);
      skip_name_n s (p + 1) last_wsp (b =? BSLASH) n'
    else skip_name_n s (p + 1) last_wsp quoted n'
end.

Definition skip_name (s : str) : res (option str) := skip_name_n s (str_s s) None false (Z.to_nat (str_len s)).

(** ** The list *)
Context (malloc : nat → nat → bool).

(** [Remove <> if any], white space around the URI removed. *)
Definition bare_uri (uri : str) : res str :=
uri ← trim_trailing m uri;
uri ← (if 2 <=? str_len uri then
         c ← rd m (str_s uri);
         if c =? ch "<" then
           d ← rd m (str_s uri + str_len uri - 1);
           mret (if d =? ch ">" then Str (str_s uri + 1) (str_len uri - 2) else uri)
         else mret uri
       else mret uri);
trim m uri.

Definition contact_ok (s : str) (c : contact) (cs : list contact) : res (str * list contact + option (list contact)) :=
mret (inr (Some (cs ++ [set_clen (to_int (str_s s - str_s (c_name c))) c]))).

(** [Next character is comma]; it is not looked at. *)
Definition contact_comma (s : str) (c : contact) (cs : list contact) : res (str * list contact + option (list contact)) :=
let c := set_clen (to_int (str_s s - str_s (c_name c))) c in
s ← trim_leading m (Str (str_s s + 1) (str_len s - 1));
if str_len s =? 0 then mret (inr None) else mret (inl (s, cs ++ [c])).

(** One round of [while(1)]. *)
Definition contacts_round (st : str * list contact) : res (str * list contact + option (list contact)) :=
let '(s0, cs) := st in
let i := length cs in
if negb (malloc i 0%nat) then mret (inr None) else
s ← skip_name s0;
match s with
| None => mret (inr None)
| Some s1 =>
    name ← trim_trailing m (slice (str_s s0) (str_s s1));
    s ← skip_uri s1;
    match s with
    | None => mret (inr None)
    | Some s =>
        uri ← bare_uri (slice (str_s s1) (str_s s));
        if str_len uri =? 0 then mret (inr None) else
        let c := MkContact name uri None None None None None [] 0 in
        if str_len s =? 0 then contact_ok s c cs else
        a ← rd m (str_s s);
        if a =? ch ";" then
          s ← trim_leading m (Str (str_s s + 1) (str_len s - 1));
          if str_len s =? 0 then mret (inr None) else
          r ← parse_params m (λ j, malloc i (S j)) s CLASS_CONTACT;
          match r with
          | None => mret (inr None)
          | Some (s, ps, h) =>
              let c := set_hooks ps h c in
              if str_len s =? 0 then contact_ok s c cs else contact_comma s c cs
          end
        else contact_comma s c cs
    end
end.

(** [None]: -1, and the list is freed. *)
Definition parse_contacts (s : str) : res (option (list contact)) :=
loop contacts_round (S (S (Z.to_nat (mlim m - str_s s)))) (s, []).

(** ** The header *)

(** [contact_body_t]. *)
Record contact_body := ContactBody { star : bool; contacts : list contact }.

(** The return value; the body is kept when it is 0. *)
Definition contact_parser (_s _l : Z) : res (Z * contact_body) :=
tmp ← trim_leading m (Str _s _l);
if str_len tmp =? 0 then mret (-1, ContactBody false []) else
c ← rd m (str_s tmp);
if c =? ch "*" then
  mret (if negb (str_len tmp =? 1) then -2 else 0, ContactBody true [])
else
  cs ← parse_contacts tmp;
  match cs with
  | None => mret (-3, ContactBody false [])
  | Some cs => mret (0, ContactBody false cs)
  end.

(** The return value and [parsed]; [body_malloc] tells if the body can be allocated. *)
Definition parse_contact (body_malloc : bool) (body : str) (parsed : option contact_body) : res (Z * option contact_body) :=
match parsed with
| Some _ => mret (0, parsed)
| None =>
    if negb body_malloc then mret (-1, None) else
    r ← contact_parser (str_s body) (str_len body);
    let '(rc, b) := r in
    if rc <? 0 then mret (-2, None) else mret (0, Some b)
end.
End parse.

(** ** Contacts: every well-formed Contact header is parsed into its parts *)

(** ** The grammar *)

(** A name in front of a URI in brackets, without [<] and [:] outside of quotes and
    with white space behind it; or a URI alone, with a colon. *)
Inductive address :=
| InBrackets (name : list piece) (sp : list Z) (uri : list Z)
| Alone (scheme rest : list Z).

Definition address_chars (x : address) : list Z :=
  match x with
  | InBrackets n sp u => pieces_chars n ++ sp ++ ch "<" :: u ++ [ch ">"]
  | Alone s r => s ++ ch ":" :: r
  end.

Definition trimmed (l : list Z) : Prop := l ≠ [] ∧ no_ws l ∧ no_ws (rev l).

(** The name and the white space behind it. *)
Definition n_chars (n : list piece) (sp : list Z) : list Z := pieces_chars n ++ sp.

Definition address_ok (x : address) : Prop :=
  match x with
  | InBrackets n sp u =>
      Forall (λ y, piece_ok (ch "<") y ∧ piece_ok (ch ":") y) n ∧ white sp ∧ no_ws (pieces_chars n ++ sp ++ [ch "<"]) ∧
      no_ws (rev (pieces_chars n)) ∧ Forall (λ c, one_of c "<>" = false ∧ c ≠ DQUOTE) u ∧ trimmed u
  | Alone s r =>
      Forall (λ c, one_of c "<:" = false ∧ c ≠ SPC ∧ c ≠ TAB) s ∧
      Forall (λ c, one_of c "<>,;" = false ∧ c ≠ DQUOTE) (s ++ ch ":" :: r) ∧ trimmed (s ++ ch ":" :: r)
  end.

Record contact_text := CText {
  ct_addr : address; ct_sp : list Z; ct_params : option (list Z * param_text * list (list Z * param_text)) }.

Definition contact_chars (t : contact_text) : list Z :=
  address_chars (ct_addr t) ++ ct_sp t ++ rparams_chars (ct_params t).

Definition contact_ok_text (t : contact_text) : Prop :=
  address_ok (ct_addr t) ∧ white (ct_sp t) ∧
  match ct_params t with Some (sp, x, xs) => white sp ∧ list_ok x xs | None => True end.

(** The number of the last parameter of a type. *)
Fixpoint last_of (ty : ptype) (ps : list param) : option nat :=
  match ps with
  | [] => None
  | q :: ps => match last_of ty ps with Some k => Some (S k) | None => if decide (p_type q = ty) then Some 0%nat else None end
  end.

Lemma hook_last_of ty o ps : hook_last ty o ps → o = last_of ty ps.
Proof.
  revert o. induction ps as [|q ps IH]; intros o Ho; cbn [last_of].
  { destruct o as [k|]; [|done]. destruct Ho as [(q & Hq & _) _]. done. }
  destruct o as [[|k]|]; cbn [hook_last] in Ho.
  - destruct Ho as [(q' & Hq & Hty) Hl]. cbn in Hq. simplify_eq. rewrite <- (IH None).
    + by rewrite decide_True.
    + cbn [hook_last]. apply Forall_lookup. intros j q Hj. apply (Hl (S j) q); [lia|done].
  - destruct Ho as [Hq Hl]. rewrite <- (IH (Some k)); [done|]. split; [done|]. intros j q' Hj Hlk. apply (Hl (S j) q'); [lia|done].
  - apply Forall_cons in Ho as [Hq Hps]. rewrite <- (IH None) by done. by rewrite decide_False.
Qed.

(** The URI without its brackets. *)
Definition uri_at (p : Z) (x : address) : str :=
  match x with
  | InBrackets n sp u => Str (p + len (pieces_chars n) + len sp + 1) (len u)
  | Alone s r => Str p (len (s ++ ch ":" :: r))
  end.

Definition contact_at (p : Z) (t : contact_text) : contact :=
  let name := match ct_addr t with InBrackets n _ _ => Str p (len (pieces_chars n)) | Alone _ _ => Str p 0 end in
  let uri := uri_at p (ct_addr t) in
  match ct_params t with
  | None => MkContact name uri None None None None None [] (len (contact_chars t))
  | Some (sp, x, xs) =>
      let ps := params_at CLASS_CONTACT (p + len (address_chars (ct_addr t)) + len (ct_sp t) + 1 + len sp) x xs in
      MkContact name uri (last_of P_INSTANCE ps) (last_of P_Q ps) (last_of P_EXPIRES ps) (last_of P_METHODS ps)
        (last_of P_RECEIVED ps) ps (len (contact_chars t))
  end.

Fixpoint contacts_chars (t : contact_text) (ts : list (list Z * contact_text)) : list Z :=
  contact_chars t ++ match ts with [] => [] | (sp, t') :: ts => ch "," :: sp ++ contacts_chars t' ts end.

Fixpoint contacts_at (p : Z) (t : contact_text) (ts : list (list Z * contact_text)) : list contact :=
  contact_at p t :: match ts with [] => [] | (sp, t') :: ts => contacts_at (p + len (contact_chars t) + 1 + len sp) t' ts end.

Definition contacts_ok (t : contact_text) (ts : list (list Z * contact_text)) : Prop :=
  contact_ok_text t ∧ Forall (λ x, white x.1 ∧ contact_ok_text x.2) ts.

Section run.
Context (m : mem).

(** ** The name *)
Lemma skip_quoted s w p l n : Forall (λ a, a ≠ DQUOTE ∧ a ≠ BSLASH) l → bytes_at m p (l ++ [DQUOTE]) →
(∃ b, rd m (p - 1) = Ok b ∧ b ≠ BSLASH) →
skip_name_n m s p w true (length l + S n) = skip_name_n m s (p + len l + 1) w false n.
Proof.
intros Hl. revert p. induction Hl as [|a l [Ha Hb] _ IH]; intros p Hat Hprev.
- destruct Hat as [Hq _], Hprev as (b & Hb & Hne). rewrite len_nil, Z.add_0_r. cbn [length Nat.add skip_name_n].
  rewrite Hq. cbn [mbind res_bind negb]. rewrite Z.eqb_refl, Hb. cbn [mbind res_bind]. by rewrite (proj2 (Z.eqb_neq _ _) Hne).
- destruct Hat as [Hra Hat]. cbn [length Nat.add skip_name_n]. rewrite Hra. cbn [mbind res_bind negb].
  rewrite (proj2 (Z.eqb_neq _ _) Ha). rewrite IH; [|done|].
  + rewrite len_cons. f_equal. lia.
  + exists a. by replace (p + 1 - 1) with p by lia.
Qed.

Lemma skip_pieces s w p xs n : Forall (λ y, piece_ok (ch "<") y ∧ piece_ok (ch ":") y) xs → bytes_at m p (pieces_chars xs) →
∃ w', skip_name_n m s p w false (length (pieces_chars xs) + n) = skip_name_n m s (p + len (pieces_chars xs)) w' false n.
Proof.
intros Hxs. revert p w. induction Hxs as [|x xs [Hx Hx'] _ IH]; intros p w Hat.
{ exists w. change (len (pieces_chars [])) with 0. by rewrite Z.add_0_r. }
unfold pieces_chars in *. cbn [map concat] in *. pose proof (bytes_at_from _ _ _ _ Hat) as Hat2. rewrite len_app.
rewrite length_app, <- Nat.add_assoc. apply bytes_at_first in Hat. destruct x as [a|l]; cbn [piece_chars piece_ok] in *.
- destruct Hx as [Ha Hc], Hx' as [_ Hc'], Hat as [Hr _].
  destruct (IH _ (if (a =? SPC) || (a =? TAB) then Some p else w) Hat2) as [w' E]. rewrite Z.add_assoc. exists w'. rewrite <- E. clear E.
  cbn [length Nat.add skip_name_n]. rewrite Hr. cbn [mbind res_bind negb].
  rewrite (proj2 (Z.eqb_neq _ _) Ha), (proj2 (Z.eqb_neq _ _) Hc), (proj2 (Z.eqb_neq _ _) Hc'). change (len [a]) with 1. by destruct (_ || _).
- destruct (IH _ w Hat2) as [w' E]. rewrite Z.add_assoc. exists w'. rewrite <- E. clear E. destruct Hat as [Hr Hat]. cbn [length Nat.add skip_name_n]. rewrite Hr.
  cbn [mbind res_bind negb]. replace ((DQUOTE =? SPC) || (DQUOTE =? TAB)) with false by done.
  replace (DQUOTE =? ch "<") with false by done. replace (DQUOTE =? ch ":") with false by done. rewrite Z.eqb_refl.
  rewrite length_app. cbn [length]. set (k := (length (concat (map piece_chars xs)) + n)%nat).
  replace (length l + 1 + k)%nat with (length l + S k)%nat by lia. rewrite skip_quoted; [|done|done|].
  + f_equal. rewrite len_cons, len_app. change (len [DQUOTE]) with 1. lia.
  + exists DQUOTE. split; [by replace (p + 1 - 1) with p by lia|done].
Qed.

(** ** The URI *)
Definition μ_uri (x : str * uri_state) : Z := mlim m - str_s x.1.

(** Characters that do not change the state. *)
Lemma skip_uri_run st p l r a : Forall (λ c, uri_next st c = Some st ∧ (st = ST1 → one_of c ",;" = false)) l →
bytes_at m p (l ++ r) → p + len (l ++ r) ≤ mlim m →
lands (skip_uri_round m) μ_uri (Str (p + len l) (len r), st) a → lands (skip_uri_round m) μ_uri (Str p (len (l ++ r)), st) a.
Proof.
intros Hl. revert p. induction Hl as [|c l [Hc Hs] _ IH]; intros p Hat Hlim Hrest; cbn [app] in *; [by rewrite len_nil, Z.add_0_r in Hrest|].
destruct Hat as [Hr Hat]. rewrite !len_cons in *. pose proof (len_nonneg (l ++ r)).
apply (lands_next _ _ _ (Str (p + 1) (len (l ++ r)), st)); unfold μ_uri; cbn [fst str_s]; [|lia|lia|].
- unfold skip_uri_round. cbn [str_s str_len]. destruct (Z.eqb_spec (1 + len (l ++ r)) 0); [lia|]. rewrite Hr. cbn [mbind res_bind].
  rewrite Hc. replace (one_of c ",;" && bool_decide (st = ST1)) with false
    by (symmetry; apply andb_false_iff; destruct (decide (st = ST1)) as [E|]; [left; auto|right; by apply bool_decide_eq_false_2]).
  do 4 f_equal. lia.
- apply IH; [done|lia|]. by replace (p + 1 + len l) with (p + (1 + len l)) by lia.
Qed.

(** A character that does. *)
Lemma skip_uri_one st st' p c r a : uri_next st c = Some st' → (one_of c ",;" && bool_decide (st = ST1)) = false →
bytes_at m p (c :: r) → p + len (c :: r) ≤ mlim m →
lands (skip_uri_round m) μ_uri (Str (p + 1) (len r), st') a → lands (skip_uri_round m) μ_uri (Str p (len (c :: r)), st) a.
Proof.
intros Hc Hs [Hr _] Hlim Hrest. rewrite len_cons in *. pose proof (len_nonneg r).
apply (lands_next _ _ _ (Str (p + 1) (len r), st')); unfold μ_uri; cbn [fst str_s]; [|lia|lia|done].
unfold skip_uri_round. cbn [str_s str_len]. destruct (Z.eqb_spec (1 + len r) 0); [lia|]. rewrite Hr. cbn [mbind res_bind].
rewrite Hs, Hc. do 4 f_equal. lia.
Qed.

Lemma skip_uri_end p r : match r with [] => True | c :: _ => one_of c ",;" = true end → bytes_at m p r → p + len r ≤ mlim m →
lands (skip_uri_round m) μ_uri (Str p (len r), ST1) (Some (Str p (len r))).
Proof.
intros Hr Hat Hlim. pose proof (len_nonneg r). apply lands_done; unfold μ_uri; cbn [fst str_s]; [|lia]. unfold skip_uri_round. cbn [str_s str_len].
destruct r as [|c r]; [done|]. rewrite len_cons in *. pose proof (len_nonneg r). destruct (Z.eqb_spec (1 + len r) 0); [lia|].
destruct Hat as [-> _]. cbn [mbind res_bind]. by rewrite Hr, bool_decide_eq_true_2.
Qed.

(** ** The parts of a contact *)
Lemma white_pieces ws : white ws → Forall (λ y, piece_ok (ch "<") y ∧ piece_ok (ch ":") y) (map Plain ws) ∧
pieces_chars (map Plain ws) = ws.
Proof.
induction 1 as [|c ws Hc _ [IH1 IH2]]; [by split; constructor|]. split.
- constructor; [|done]. cbn [piece_ok]. by destruct Hc as [->|[->|[->| ->]]].
- unfold pieces_chars in *. cbn [map concat piece_chars app]. by rewrite IH2.
Qed.

Lemma skip_plain s p l n : Forall (λ c, one_of c "<:" = false ∧ c ≠ SPC ∧ c ≠ TAB ∧ c ≠ DQUOTE) l → bytes_at m p l →
skip_name_n m s p None false (length l + n) = skip_name_n m s (p + len l) None false n.
Proof.
intros Hl. revert p. induction Hl as [|c l (Hc & Hs & Ht & Hq) _ IH]; intros p Hat; [by rewrite len_nil, Z.add_0_r|].
destruct Hat as [Hr Hat]. cbn [length Nat.add skip_name_n]. rewrite Hr. cbn [mbind res_bind negb].
cbn [one_of] in Hc. rewrite !orb_false_iff in Hc. destruct Hc as (Hc1 & Hc2 & _).
rewrite (proj2 (Z.eqb_neq _ _) Hs), (proj2 (Z.eqb_neq _ _) Ht), Hc1, Hc2, (proj2 (Z.eqb_neq _ _) Hq). cbn [orb].
rewrite IH by done. rewrite len_cons. f_equal. lia.
Qed.

(** Where the URI begins. *)
Definition name_size (x : address) : Z :=
match x with InBrackets n sp _ => len (n_chars n sp) | Alone _ _ => 0 end.

Lemma skip_name_at p x r : address_ok x → bytes_at m p (address_chars x ++ r) →
skip_name m (Str p (len (address_chars x ++ r))) =
Ok (Some (Str (p + name_size x) (len (address_chars x ++ r) - name_size x))).
Proof.
intros Hx Hat. unfold skip_name. cbn [str_s str_len]. unfold len at 2. rewrite Nat2Z.id. destruct x as [n sp u|s l]; cbn [address_chars address_ok name_size] in *.
- destruct Hx as (Hn & Hsp & _). destruct (white_pieces sp Hsp) as [Hsp1 Hsp2]. unfold n_chars. rewrite <- !app_assoc in *. cbn [app] in *.
  rewrite app_assoc in *. assert (Hc : pieces_chars n ++ sp = pieces_chars (n ++ map Plain sp)).
  { unfold pieces_chars in *. by rewrite map_app, concat_app, Hsp2. }
  rewrite Hc in *. rewrite length_app.
  destruct (skip_pieces (Str p (len (pieces_chars (n ++ map Plain sp) ++ ch "<" :: (u ++ [ch ">"]) ++ r))) None p (n ++ map Plain sp)
    (length (ch "<" :: (u ++ [ch ">"]) ++ r))) as [w E]; [by apply Forall_app|by apply bytes_at_first in Hat|]. rewrite E.
  apply bytes_at_from in Hat. destruct Hat as [Hr _]. cbn [length skip_name_n]. rewrite Hr. cbn [mbind res_bind negb].
  replace ((ch "<" =? SPC) || (ch "<" =? TAB)) with false by done. rewrite Z.eqb_refl. cbn [str_len str_s mret res_ret]. do 3 f_equal. lia.
- destruct Hx as (Hs & Hq & _). rewrite Forall_app in Hq. destruct Hq as [Hq _]. rewrite <- app_assoc in *. cbn [app] in *. rewrite length_app.
  rewrite skip_plain; [| |by apply bytes_at_first in Hat].
  + apply bytes_at_from in Hat. destruct Hat as [Hr _]. cbn [length skip_name_n]. rewrite Hr. cbn [mbind res_bind negb].
    replace ((ch ":" =? SPC) || (ch ":" =? TAB)) with false by done. replace (ch ":" =? ch "<") with false by done. rewrite Z.eqb_refl.
    by rewrite Z.add_0_r, Z.sub_0_r.
  + eapply Forall_impl; [apply Forall_and; split; [exact Hs|exact Hq]|]. cbn beta. intros c [(H1 & H2 & H3) [_ H4]]. auto.
Qed.

Lemma white_stays ws : white ws → Forall (λ c, uri_next ST1 c = Some ST1 ∧ (ST1 = ST1 → one_of c ",;" = false)) ws.
Proof. intros H. eapply Forall_impl; [exact H|]. cbn beta. intros c Hc. by destruct Hc as [->|[->|[->| ->]]]. Qed.

Lemma uri_stays st c : one_of c "<>" = false → c ≠ DQUOTE → st = ST1 ∨ st = ST3 → uri_next st c = Some st.
Proof.
intros Hc Hq Hst. cbn [one_of] in Hc. rewrite !orb_false_iff in Hc. destruct Hc as (H1 & H2 & _). unfold uri_next.
rewrite (proj2 (Z.eqb_neq _ _) Hq), H1, H2. by destruct (c =? BSLASH), Hst as [-> | ->].
Qed.

(** The URI with its brackets. *)
Definition uri_chars (x : address) : list Z :=
match x with InBrackets _ _ u => ch "<" :: u ++ [ch ">"] | Alone s r => s ++ ch ":" :: r end.

Definition uri_ends (r : list Z) : Prop := match r with [] => True | c :: _ => one_of c ",;" = true end.

Lemma skip_uri_at p x sp r : address_ok x → white sp → uri_ends r → bytes_at m p (uri_chars x ++ sp ++ r) →
skip_uri m (Str p (len (uri_chars x ++ sp ++ r))) = Ok (Some (Str (p + len (uri_chars x ++ sp)) (len r))).
Proof.
intros Hx Hsp Hr Hat. unfold skip_uri. cbn [str_s].
assert (Hlim : p + len (uri_chars x ++ sp ++ r) ≤ mlim m).
{ apply bytes_at_range in Hat; [unfold len; lia|]. destruct x as [n sp0 u|s l]; cbn [uri_chars]; [done|]. by destruct s. }
cut (lands (skip_uri_round m) μ_uri (Str p (len (uri_chars x ++ sp ++ r)), ST1) (Some (Str (p + len (uri_chars x ++ sp)) (len r)))).
{ intros H. apply H. unfold μ_uri. cbn [fst str_s]. lia. }
assert (Hend : ∀ q, q + len (sp ++ r) ≤ mlim m → bytes_at m q (sp ++ r) →
  lands (skip_uri_round m) μ_uri (Str q (len (sp ++ r)), ST1) (Some (Str (q + len sp) (len r)))).
{ intros q Hq Hb. apply skip_uri_run; [by apply white_stays|done|done|]. apply bytes_at_from in Hb. rewrite len_app in Hq.
  apply skip_uri_end; [done|done|lia]. }
rewrite (len_app (uri_chars x) sp). rewrite Z.add_assoc. destruct x as [n sp0 u|s l]; cbn [uri_chars address_ok] in *.
- destruct Hx as (_ & _ & _ & _ & Hu & _). cbn [app] in *. rewrite <- app_assoc in *. cbn [app] in *.
  apply (skip_uri_one ST1 ST3); [done|done|done|lia|]. destruct Hat as [_ Hat]. rewrite len_cons in Hlim.
  apply skip_uri_run; [|done|lia|].
  { eapply Forall_impl; [exact Hu|]. intros c [H1 H2]. split; [apply uri_stays; auto|done]. }
  apply bytes_at_from in Hat. rewrite len_app in Hlim.
  apply (skip_uri_one ST3 ST1); [done|done|done|lia|]. destruct Hat as [_ Hat]. rewrite len_cons in Hlim.
  replace (p + len (ch "<" :: u ++ [ch ">"])) with (p + 1 + len u + 1) by (rewrite len_cons, len_app; change (len [ch ">"]) with 1; lia).
  apply Hend; [lia|done].
- destruct Hx as (_ & Hq & _). apply skip_uri_run; [|done|lia|].
  { eapply Forall_impl; [exact Hq|]. intros c [H1 H2]. cbn [one_of] in H1. rewrite !orb_false_iff in H1.
    destruct H1 as (H1 & H1' & H3 & H4 & _). split; [apply uri_stays; [cbn [one_of]; by rewrite H1, H1'|done|auto]|].
    intros _. cbn [one_of]. by rewrite H3, H4. }
  apply bytes_at_from in Hat. rewrite len_app in Hlim. apply Hend; [lia|done].
Qed.

Lemma trim_at p l : trimmed l → bytes_at m p l → trim m (Str p (len l)) = Ok (Str p (len l)).
Proof.
intros (_ & H1 & H2) Hat. unfold trim. pose proof (trim_leading_run m p [] l) as H. cbn [app] in H. rewrite len_nil, Z.add_0_r in H.
rewrite H by (done || constructor). cbn [mbind res_bind]. pose proof (trim_trailing_run m p l []) as H3. rewrite app_nil_r in H3.
apply H3; [constructor|done|done].
Qed.

(** The URI without its brackets. *)
Definition inner (p : Z) (x : address) : str :=
match x with InBrackets _ _ u => Str (p + 1) (len u) | Alone s r => Str p (len (s ++ ch ":" :: r)) end.

Lemma bare_uri_at p x sp : address_ok x → white sp → bytes_at m p (uri_chars x ++ sp) →
bare_uri m (Str p (len (uri_chars x ++ sp))) = Ok (inner p x).
Proof.
intros Hx Hsp Hat. unfold bare_uri. rewrite trim_trailing_run; [|done| |done].
- cbn [mbind res_bind str_len str_s]. apply bytes_at_first in Hat. destruct x as [n sp0 u|s l]; cbn [uri_chars address_ok inner] in *.
  + destruct Hx as (_ & _ & _ & _ & _ & Hu). rewrite len_cons, len_app. change (len [ch ">"]) with 1. pose proof (len_nonneg u).
    destruct (Z.leb_spec 2 (1 + (len u + 1))); [|lia]. destruct Hat as [-> Hat]. cbn [mbind res_bind]. rewrite Z.eqb_refl.
    pose proof Hat as Hat'. apply bytes_at_from in Hat'. destruct Hat' as [Hr _].
    replace (p + (1 + (len u + 1)) - 1) with (p + 1 + len u) by lia. rewrite Hr. cbn [mbind res_bind mret res_ret].
    rewrite Z.eqb_refl. replace (1 + (len u + 1) - 2) with (len u) by lia. apply trim_at; [done|]. by apply bytes_at_first in Hat.
  + destruct Hx as (Hs & _ & Ht). destruct (Z.leb_spec 2 (len (s ++ ch ":" :: l))) as [H2|H2]; [|by apply trim_at].
    assert (∃ c rest, s ++ ch ":" :: l = c :: rest ∧ c ≠ ch "<") as (c & rest & E & Hc).
    { destruct s as [|c s]; cbn [app]; do 2 eexists; (split; [done|]); [done|]. apply Forall_cons in Hs as [[Hc _] _].
      intros ->. done. }
    rewrite E in *. destruct Hat as [Hr Hat]. rewrite Hr. cbn [mbind res_bind]. rewrite (proj2 (Z.eqb_neq _ _) Hc). cbn [mret res_ret mbind res_bind].
    apply trim_at; [done|by split].
- destruct x as [n sp0 u|s l]; cbn [uri_chars address_ok] in *.
  + destruct Hx as (_ & _ & _ & _ & _ & Hu). change (ch "<" :: u ++ [ch ">"]) with ((ch "<" :: u) ++ [ch ">"]). by rewrite rev_app_distr.
  + by destruct Hx as (_ & _ & _ & _ & Ht).
Qed.

Lemma hooks_at name uri p x xs : let ps := params_at CLASS_CONTACT p x xs in
set_hooks ps (hooks_of ps) (MkContact name uri None None None None None [] 0) =
MkContact name uri (last_of P_INSTANCE ps) (last_of P_Q ps) (last_of P_EXPIRES ps) (last_of P_METHODS ps) (last_of P_RECEIVED ps) ps 0.
Proof.
cbn zeta. destruct (hooks_of_last CLASS_CONTACT p x xs) as [_ H]. unfold set_hooks. cbn [c_name c_uri c_len].
by rewrite (hook_last_of _ _ _ (H P_INSTANCE eq_refl)), (hook_last_of _ _ _ (H P_Q eq_refl)), (hook_last_of _ _ _ (H P_EXPIRES eq_refl)),
  (hook_last_of _ _ _ (H P_METHODS eq_refl)), (hook_last_of _ _ _ (H P_RECEIVED eq_refl)).
Qed.

(** ** Runs over contacts *)
Lemma address_split x : address_chars x = match x with InBrackets n sp _ => n_chars n sp | Alone _ _ => [] end ++ uri_chars x.
Proof. destruct x; [|done]. cbn [address_chars uri_chars]. unfold n_chars. by rewrite <- app_assoc. Qed.

Lemma name_size_len x : name_size x = len match x with InBrackets n sp _ => n_chars n sp | Alone _ _ => [] end.
Proof. by destruct x. Qed.

Lemma contact_name_at p x r : address_ok x → len (address_chars x) < 2 ^ 31 → bytes_at m p (address_chars x ++ r) →
trim_trailing m (slice p (p + name_size x)) =
Ok match x with InBrackets n _ _ => Str p (len (pieces_chars n)) | Alone _ _ => Str p 0 end.
Proof.
intros Hx Hlen Hat. rewrite address_split in *. rewrite name_size_len. rewrite len_app in Hlen. pose proof (len_nonneg (uri_chars x)).
rewrite (slice_len p match x with InBrackets n sp _ => n_chars n sp | Alone _ _ => [] end) by (done || lia).
rewrite <- app_assoc in Hat. apply bytes_at_first in Hat. destruct x as [n sp u|s l]; [|done]. cbn [address_ok] in Hx.
apply trim_trailing_run; [apply Hx|apply Hx|done].
Qed.

Definition contact_end (r : list Z) : Prop := match r with [] => True | c :: _ => c = ch "," end.

Lemma uri_at_inner p x : uri_at p x = inner (p + name_size x) x.
Proof. destruct x as [n sp u|s l]; cbn [uri_at inner name_size]; [|by rewrite Z.add_0_r]. unfold n_chars. rewrite len_app. f_equal. lia. Qed.

Lemma inner_pos q x : address_ok x → 0 < str_len (inner q x).
Proof.
assert (Ht : ∀ l, trimmed l → 0 < len l).
{ intros [|c l] [H _]; [done|]. rewrite len_cons. pose proof (len_nonneg l). lia. }
destruct x as [n sp u|s l]; cbn [address_ok inner str_len]; intros H; apply Ht, H.
Qed.

(** The end of a contact, at the end of the text or a comma. *)
Lemma contact_end_at p N r c cs : 0 ≤ N < 2 ^ 31 → str_s (c_name c) = p →
(if len r =? 0 then contact_ok (Str (p + N) (len r)) c cs else contact_comma m (Str (p + N) (len r)) c cs) =
match r with
| [] => Ok (inr (Some (cs ++ [set_clen N c])))
| _ :: _ =>
    s ← trim_leading m (Str (p + N + 1) (len r - 1));
    if str_len s =? 0 then mret (inr None) else mret (inl (s, cs ++ [set_clen N c]))
end.
Proof.
intros Hlen Hc. unfold contact_ok, contact_comma. rewrite Hc. cbn [str_s str_len]. rewrite Z.add_simpl_l.
rewrite to_int_small by lia. destruct r as [|c0 r]; [done|].
rewrite len_cons. pose proof (len_nonneg r). by destruct (Z.eqb_spec (1 + len r) 0); [lia|].
Qed.

Lemma contacts_round_at malloc p t r c' cs : (∀ i j, malloc i j = true) → 0 < p → len (contact_chars t ++ r) < 2 ^ 31 →
contact_ok_text t → contact_end r → one_of c' "lL" = false → bytes_at m p (contact_chars t ++ r ++ [c']) →
contacts_round m malloc (Str p (len (contact_chars t ++ r)), cs) =
match r with
| [] => Ok (inr (Some (cs ++ [contact_at p t])))
| _ :: _ =>
    s ← trim_leading m (Str (p + len (contact_chars t) + 1) (len r - 1));
    if str_len s =? 0 then mret (inr None) else mret (inl (s, cs ++ [contact_at p t]))
end.
Proof.
intros Hm Hp Hlen (Hx & Hsp & Hps) Hr Hc' Hat. unfold contacts_round. rewrite Hm. cbn [negb]. cbn [str_s].
pose proof Hlen as Hlen'. rewrite len_app in Hlen'. pose proof (len_nonneg r). pose proof Hlen' as Hlen''. unfold contact_chars in Hlen''. rewrite !len_app in Hlen''.
unfold contact_at. cbn zeta. remember (len (contact_chars t)) as N eqn:HN.
unfold contact_chars in *. rewrite <- !app_assoc in *. pose proof (len_nonneg (ct_sp t)). pose proof (len_nonneg (rparams_chars (ct_params t))).
pose proof (len_nonneg (address_chars (ct_addr t))).
assert (Hat1 : bytes_at m p (address_chars (ct_addr t) ++ ct_sp t ++ rparams_chars (ct_params t) ++ r)) by (apply (bytes_at_first _ _ _ [c']); by rewrite <- !app_assoc).
rewrite skip_name_at by done. cbn [mbind res_bind str_s]. rewrite (contact_name_at _ _ _ Hx ltac:(lia) Hat1). cbn [mbind res_bind].
rewrite address_split in *. rewrite <- !app_assoc in *. rewrite len_app, name_size_len, Z.add_simpl_l.
set (nl := match ct_addr t with InBrackets n sp _ => n_chars n sp | Alone _ _ => [] end) in *.
apply bytes_at_from in Hat. apply bytes_at_from in Hat1. set (q := p + len nl) in *.
rewrite skip_uri_at; [|done|done|destruct (ct_params t) as [[[sp x] xs]|]; [done|destruct r as [|c r]; [done|by rewrite (Hr : c = ch ",")]]|done].
cbn [mbind res_bind]. cbn [str_s]. rewrite !len_app in Hlen''. pose proof (len_nonneg nl). pose proof (len_nonneg (uri_chars (ct_addr t))).
rewrite (slice_len q (uri_chars (ct_addr t) ++ ct_sp t)) by (done || (rewrite len_app; lia)).
rewrite bare_uri_at; [|done|done|rewrite app_assoc in Hat1; by apply bytes_at_first in Hat1]. cbn [mbind res_bind].
pose proof (inner_pos q _ Hx) as Hin. destruct (Z.eqb_spec (str_len (inner q (ct_addr t))) 0); [lia|]. clear n.
set (name := match ct_addr t with InBrackets n _ _ => Str p (len (pieces_chars n)) | Alone _ _ => Str p 0 end).
assert (Hname : str_s name = p) by (unfold name; by destruct (ct_addr t)).
replace (inner q (ct_addr t)) with (uri_at p (ct_addr t)) by (unfold q, nl; rewrite <- name_size_len; by rewrite uri_at_inner).
cbn [str_len]. fold name.
apply bytes_at_from in Hat, Hat1. apply bytes_at_from in Hat, Hat1.
replace (q + len (uri_chars (ct_addr t) ++ ct_sp t)) with (q + len (uri_chars (ct_addr t)) + len (ct_sp t)) by (rewrite len_app; lia).
assert (Ha : len (address_chars (ct_addr t)) = len nl + len (uri_chars (ct_addr t))) by (rewrite address_split; apply len_app).
destruct (ct_params t) as [[[sp x] xs]|] eqn:Et; cbn [rparams_chars app] in *.
- destruct Hps as [Hsp2 Hok], Hat as [Hsemi Hat]. rewrite len_cons in *. pose proof (len_nonneg ((sp ++ list_chars x xs) ++ r)).
  destruct (Z.eqb_spec (1 + len ((sp ++ list_chars x xs) ++ r)) 0); [lia|]. rewrite Hsemi. cbn [mbind res_bind].
  rewrite Z.eqb_refl. rewrite <- app_assoc in *.
  replace (1 + len (sp ++ list_chars x xs ++ r) - 1) with (len (sp ++ list_chars x xs ++ r)) by lia.
  destruct Hat1 as [_ Hat1]. rewrite trim_leading_run; [|done|done|apply list_no_ws, Hok].
  cbn [mbind res_bind str_len str_s]. pose proof (list_pos x xs (proj1 Hok)) as Hpos. rewrite len_app.
  destruct (Z.eqb_spec (len (list_chars x xs) + len r) 0); [lia|]. apply bytes_at_from in Hat.
  rewrite len_app in *. rewrite <- (len_app (list_chars x xs) r). pose proof (len_nonneg sp).
  set (o := q + len (uri_chars (ct_addr t)) + len (ct_sp t) + 1 + len sp).
  rewrite (parse_params_eq m (λ j, malloc (length cs) (S j)) CLASS_CONTACT o x xs r c');
    [|intros; apply Hm|unfold o, q; lia|lia|done|by destruct r|done|done].
  cbn [mbind res_bind]. rewrite hooks_at.
  replace (p + (len nl + len (uri_chars (ct_addr t))) + len (ct_sp t) + 1 + len sp) with o by (unfold o, q; lia).
  replace (o + len (list_chars x xs)) with (p + N) by (unfold o, q; rewrite HN, !len_app, len_cons, !len_app; lia).
  cbn [str_len]. rewrite contact_end_at; [done|rewrite HN, !len_app, len_cons, !len_app; lia|done].
- rewrite app_nil_r in *. change (len []) with 0 in *. replace (q + len (uri_chars (ct_addr t)) + len (ct_sp t)) with (p + N) in *
    by (unfold q; rewrite HN, !len_app; lia).
  pose proof (contact_end_at p N r (MkContact name (uri_at p (ct_addr t)) None None None None None [] 0) cs) as He.
  refine (eq_trans _ (He _ _)); [|rewrite HN, !len_app; lia|done]. destruct (Z.eqb_spec (len r) 0) as [|Hne]; [done|].
  destruct r as [|c r]; [done|]. destruct Hat as [Hc _]. rewrite Hc. cbn [mbind res_bind].
  rewrite (Hr : c = ch ","). by replace (ch "," =? ch ";") with false by done.
Qed.

Lemma contact_no_ws t r : contact_ok_text t → no_ws (contact_chars t ++ r).
Proof.
intros [Hx _]. unfold contact_chars. rewrite <- app_assoc. destruct (ct_addr t) as [n sp u|s l]; cbn [address_chars address_ok] in *.
- destruct Hx as (_ & _ & H & _). by destruct (pieces_chars n), sp.
- destruct Hx as (_ & _ & _ & H & _). by destruct s.
Qed.

Lemma contact_pos t : 1 ≤ len (contact_chars t).
Proof.
unfold contact_chars. destruct (ct_addr t) as [n sp u|s l]; cbn [address_chars]; rewrite !len_app, !len_cons;
  repeat match goal with |- context [len ?l] => lazymatch goal with _ : 0 <= len l |- _ => fail | _ => pose proof (len_nonneg l) end end; lia.
Qed.

Lemma contacts_head t ts : ∃ r, contacts_chars t ts = contact_chars t ++ r.
Proof. destruct ts as [|[sp t'] ts]; cbn [contacts_chars]; eauto. Qed.

Lemma contacts_run malloc p t ts c' cs : (∀ i j, malloc i j = true) → 0 < p → len (contacts_chars t ts) < 2 ^ 31 → contacts_ok t ts →
one_of c' "lL" = false → bytes_at m p (contacts_chars t ts ++ [c']) →
lands (contacts_round m malloc) (λ st, mlim m - str_s st.1) (Str p (len (contacts_chars t ts)), cs) (Some (cs ++ contacts_at p t ts)).
Proof.
intros Hm Hp Hlen [Ht Hts] Hc'. revert p t Ht cs Hp Hlen.
induction Hts as [|[sp t'] ts [Hsp Ht'] _ IH]; intros p t Ht cs Hp Hlen Hat; cbn [contacts_chars contacts_at fst snd] in *.
all: assert (Hlim : p < mlim m) by (apply bytes_at_range in Hat as [_ H]; [rewrite !length_app in H; cbn [length] in H; lia|
  by match goal with |- ?l ++ _ ≠ [] => destruct l end]).
- apply lands_done; [|cbn [fst str_s]; lia]. rewrite <- app_assoc in Hat. cbn [app] in Hat.
  by rewrite (contacts_round_at malloc p t [] c') by done.
- pose proof (contact_pos t). pose proof Hlen as Hlen'. rewrite len_app, len_cons, len_app in Hlen'. pose proof (len_nonneg sp).
  destruct (contacts_head t' ts) as [r0 Hr0]. pose proof (len_nonneg (contacts_chars t' ts)).
  assert (Hround : contacts_round m malloc (Str p (len (contact_chars t ++ ch "," :: sp ++ contacts_chars t' ts)), cs) =
    Ok (inl (Str (p + len (contact_chars t) + 1 + len sp) (len (contacts_chars t' ts)), cs ++ [contact_at p t]))).
  { rewrite (contacts_round_at malloc p t _ c') by (done || by rewrite <- app_assoc in Hat). rewrite <- app_assoc in Hat.
    apply bytes_at_from in Hat. destruct Hat as [_ Hat]. rewrite len_cons.
    replace (1 + len (sp ++ contacts_chars t' ts) - 1) with (len (sp ++ contacts_chars t' ts)) by lia.
    rewrite trim_leading_run; [|done|by apply bytes_at_first in Hat|rewrite Hr0; by apply contact_no_ws].
    cbn [mbind res_bind str_len]. rewrite Hr0, len_app. pose proof (contact_pos t'). pose proof (len_nonneg r0).
    destruct (Z.eqb_spec (len (contact_chars t') + len r0) 0); [lia|done]. }
  apply (lands_next _ _ _ _ _ Hround); cbn [fst str_s]; [lia|lia|].
  pose proof (IH (p + len (contact_chars t) + 1 + len sp) t' Ht' (cs ++ [contact_at p t])) as Hn. rewrite <- app_assoc in Hn. apply Hn; [lia|lia|].
  rewrite <- app_assoc in Hat. apply bytes_at_from in Hat. destruct Hat as [_ Hat]. rewrite <- app_assoc in Hat. by apply bytes_at_from in Hat.
Qed.

Lemma parse_contacts_at malloc p t ts c' : (∀ i j, malloc i j = true) → 0 < p → len (contacts_chars t ts) < 2 ^ 31 → contacts_ok t ts →
one_of c' "lL" = false → bytes_at m p (contacts_chars t ts ++ [c']) →
parse_contacts m malloc (Str p (len (contacts_chars t ts))) = Ok (Some (contacts_at p t ts)).
Proof. intros. unfold parse_contacts. cbn [str_s]. apply (contacts_run malloc p t ts c' []); try done. cbn [fst str_s]. lia. Qed.
End run.

(** ** Properties *)

(** The body of a header: a star, or contacts. *)
Inductive cbody := AStar | AList (t : contact_text) (ts : list (list Z * contact_text)).

Definition cbody_chars (b : cbody) : list Z := match b with AStar => [ch "*"] | AList t ts => contacts_chars t ts end.

Definition cbody_ok (b : cbody) : Prop :=
  match b with AStar => True | AList t ts => contacts_ok t ts ∧ head (contacts_chars t ts) ≠ Some (ch "*") end.

Definition cbody_at (p : Z) (b : cbody) : contact_body :=
  match b with AStar => ContactBody true [] | AList t ts => ContactBody false (contacts_at p t ts) end.

(** C32: every well-formed body of a Contact header, a star or any number of contacts with
    display names, quoted or not, URIs in brackets or alone, and parameters, is parsed into
    its contacts, in order, each with its name, its URI without brackets, its parameters,
    its length, and the hooks to the last [q], [expires], [methods], [received] and
    [+sip.instance] of it. *)
Theorem contacts_text m malloc p lead b c' : (∀ i j, malloc i j = true) → 0 < p → len (lead ++ cbody_chars b) < 2 ^ 31 →
  white lead → cbody_ok b → one_of c' "lL" = false → bytes_at m p (lead ++ cbody_chars b ++ [c']) →
  parse_contact m malloc true (Str p (len (lead ++ cbody_chars b))) None = Ok (0, Some (cbody_at (p + len lead) b)).
Proof.
  intros Hm Hp Hlen Hlead Hok Hc' Hat. unfold parse_contact, contact_parser. cbn [negb str_s str_len].
  pose proof (len_nonneg lead). pose proof Hat as Hat1. rewrite app_assoc in Hat1. apply bytes_at_first in Hat1. rewrite len_app in Hlen.
  destruct b as [|t ts]; cbn [cbody_chars cbody_ok cbody_at] in *.
  - rewrite trim_leading_run by done. apply bytes_at_from in Hat. destruct Hat as [Hr _]. cbn [mbind res_bind str_len str_s].
    change (len [ch "*"]) with 1. cbn [Z.eqb Pos.eqb]. by rewrite Hr.
  - destruct Hok as [Hok Hstar], (contacts_head t ts) as [r Hr]. pose proof (contact_pos t). pose proof (len_nonneg r).
    assert (Hpos : 0 < len (contacts_chars t ts)) by (rewrite Hr, len_app; lia).
    rewrite trim_leading_run; [|done|done|rewrite Hr; apply contact_no_ws, Hok].
    cbn [mbind res_bind str_len str_s]. destruct (Z.eqb_spec (len (contacts_chars t ts)) 0); [lia|].
    apply bytes_at_from in Hat. assert (Hrd : ∃ c, rd m (p + len lead) = Ok c ∧ c ≠ ch "*").
    { destruct (contacts_chars t ts) as [|c l]; [done|]. exists c. destruct Hat as [Hc _]. split; [done|]. intros ->. done. }
    destruct Hrd as (c & -> & Hc). cbn [mbind res_bind]. rewrite (proj2 (Z.eqb_neq _ _) Hc).
    by rewrite (parse_contacts_at m malloc (p + len lead) t ts c') by (done || lia).
Qed.

Definition sample_contact : contact_text :=
  CText (InBrackets [InQuotes (chars "a, <b>"); Plain (ch " "); Plain (ch "c")] (chars " ") (chars "sip:h;lr")) (chars " ")
    (Some (chars " ", sample_param, sample_params)).
Definition sample_contacts : list (list Z * contact_text) :=
  [(chars " ", CText (Alone (chars "sip") (chars "g@h")) (chars " ") None)].

Lemma sample_contacts_ok : contacts_ok sample_contact sample_contacts.
Proof.
  unfold contacts_ok, contact_ok_text, sample_contacts, sample_contact, address_ok, white, trimmed. cbn [fst snd ct_addr ct_sp ct_params].
  repeat match goal with
  | |- list_ok _ _ => exact sample_params_ok
  | |- _ ∧ _ => split
  | |- Forall _ (InQuotes _ :: _) => apply Forall_cons; split
  | |- Forall _ (Plain _ :: _) => apply Forall_cons; split
  | |- Forall (λ _ : piece, _) [] => apply Forall_nil_2
  | |- Forall _ [(_, CText _ _ _)] => apply Forall_singleton; cbn [fst snd ct_addr ct_sp ct_params]
  | |- piece_ok _ _ => cbn [piece_ok]
  | |- _ => done || (refine (bool_decide_unpack _ _); by vm_compute)
  end.
Qed.

Lemma contacts_text_witness :
  let b := AList sample_contact sample_contacts in let text := chars " " ++ cbody_chars b in let m := block (text ++ [CR]) in
  parse_contact m (λ _ _, true) true (Str 4096 (len text)) None =
    Ok (0, Some (cbody_at (4096 + len (chars " ")) b)).
Proof.
  apply (contacts_text _ _ 4096 (chars " ") (AList sample_contact sample_contacts) CR);
    [done|done|by vm_compute|apply Forall_singleton; by left|split; [apply sample_contacts_ok|done]|done|by vm_compute].
Defined.

(** White space in front of a colon: the text is longer by what lies in front of it, and
    runs over its end. *)
Lemma name_before_colon :
  parse_contacts (block (chars "ab sip:x")) (λ _ _, true) (Str 4096 8) = Fault 4104 ∧
  (λ r, match r with Some [c] => bool_decide (c_uri c = Str 4099 6) | _ => false end) <$>
    parse_contacts (block (chars "ab sip:xyz")) (λ _ _, true) (Str 4096 8) = Ok true.
Proof. by vm_compute. Qed.

(** The state of an escape is not left by the character that is escaped: the quote behind
    it does not close. *)
Lemma escape_not_left : uri_next ST5 (ch "a") = Some ST5 ∧ uri_next ST5 DQUOTE = Some ST2 ∧
  parse_contacts (block (chars "sip:" ++ [DQUOTE; ch "a"; DQUOTE])) (λ _ _, true) (Str 4096 7) ≠ Ok None ∧
  parse_contacts (block (chars "sip:" ++ [DQUOTE; BSLASH; ch "a"; DQUOTE])) (λ _ _, true) (Str 4096 8) = Ok None.
Proof. by vm_compute. Qed.

(** What follows the parameters is taken for a comma. *)
Lemma any_comma :
  (λ r, match r with Some [_; _] => true | _ => false end) <$>
    parse_contacts (block (chars "<sip:a>;q=1 >sip:b ")) (λ _ _, true) (Str 4096 18) = Ok true.
Proof. by vm_compute. Qed.
