(* ===== verification/Methods.v ===== *)
(** * SIP methods (parse_methods.c, and [enum request_method] of msg_parser.h) *)

From stdpp Require Import strings.
From S2P Require Export ParserF.

(** ** [enum request_method] *)
Definition METHOD_UNDEF : Z := 0.
Definition METHOD_INVITE : Z := 1.
Definition METHOD_CANCEL : Z := 2.
Definition METHOD_ACK : Z := 4.
Definition METHOD_BYE : Z := 8.
Definition METHOD_INFO : Z := 16.
Definition METHOD_OPTIONS : Z := 32.
Definition METHOD_UPDATE : Z := 64.
Definition METHOD_REGISTER : Z := 128.
Definition METHOD_MESSAGE : Z := 256.
Definition METHOD_SUBSCRIBE : Z := 512.
Definition METHOD_NOTIFY : Z := 1024.
Definition METHOD_PRACK : Z := 2048.
Definition METHOD_REFER : Z := 4096.
Definition METHOD_PUBLISH : Z := 8192.
Definition METHOD_OTHER : Z := 16384.

(** ** [method_char]: a token character of RFC 3261 *)
Definition method_char (c : Z) : bool :=
  ((65 <=? c) && (c <=? 90)) || ((97 <=? c) && (c <=? 122))
  || ((48 <=? c) && (c <=? 57)) || one_of c "-.!%*_+`'~".

(** The characters that end a method in [parse_method]. *)
Definition method_sep (c : Z) : bool :=
  (c =? NUL) || (c =? ch ",") || (c =? SPC) || (c =? TAB) || (c =? CR) || (c =? LF).

(** The conjunction [(start[i]=='x' || start[i]=='X') && ...], evaluated from
    left to right: [letters m p ["xX"; ...]]. *)
Fixpoint letters (m : mem) (p : Z) (cases : list string) : res bool :=
  match cases with
  | [] => mret true
  | s :: cases =>
      c ← rd m p;
      if one_of c s then letters m (p + 1) cases else mret false
  end.

(** ** The switch of [parse_method]

    [None] is [goto unknown] (with [len] still 0), [Some (id, len)] is
    [goto done].  [short n] is the guard [end && max<n]. *)
Section switch.
Context (m : mem) (start : Z) (short : Z → bool).

Definition accept (n : Z) (p : Z) (cases : list string) (id len : Z) :
  res (option (Z * Z)) :=
if short n then mret None
else ok ← letters m p cases; mret (if ok : bool then Some (id, len) else None).

Definition method_A := accept 3 (start + 1) ["cC"; "kK"] METHOD_ACK 3.
Definition method_B := accept 3 (start + 1) ["yY"; "eE"] METHOD_BYE 3.
Definition method_C :=
accept 6 (start + 1) ["aA"; "nN"; "cC"; "eE"; "lL"] METHOD_CANCEL 6.

Definition method_I : res (option (Z * Z)) :=
if short 4 then mret None else
c1 ← rd m (start + 1);
if negb (one_of c1 "nN") then mret None else
info ← letters m (start + 2) ["fF"; "oO"];
if info : bool then mret (Some (METHOD_INFO, 4)) else
accept 6 (start + 2) ["vV"; "iI"; "tT"; "eE"] METHOD_INVITE 6.

Definition method_M :=
accept 7 (start + 1) ["eE"; "sS"; "sS"; "aA"; "gG"; "eE"] METHOD_MESSAGE 7.
Definition method_N :=
accept 6 (start + 1) ["oO"; "tT"; "iI"; "fF"; "yY"] METHOD_NOTIFY 6.
Definition method_O :=
accept 7 (start + 1) ["pP"; "tT"; "iI"; "oO"; "nN"; "sS"] METHOD_OPTIONS 7.

Definition method_P : res (option (Z * Z)) :=
if short 5 then mret None else
prack ← letters m (start + 1) ["rR"; "aA"; "cC"; "kK"];
if prack : bool then mret (Some (METHOD_PRACK, 5)) else
accept 7 (start + 1) ["uU"; "bB"; "lL"; "iI"; "sS"; "hH"] METHOD_PUBLISH 7.

Definition method_R : res (option (Z * Z)) :=
if short 5 then mret None else
c1 ← rd m (start + 1);
if negb (one_of c1 "eE") then mret None else
refer ← letters m (start + 2) ["fF"; "eE"; "rR"];
if refer : bool then mret (Some (METHOD_REFER, 5)) else
accept 8 (start + 2) ["gG"; "iI"; "sS"; "tT"; "eE"; "rR"] METHOD_REGISTER 8.

Definition method_S :=
accept 9 (start + 1) ["uU"; "bB"; "sS"; "cC"; "rR"; "iI"; "bB"; "eE"]
  METHOD_SUBSCRIBE 9.
Definition method_U :=
accept 6 (start + 1) ["pP"; "dD"; "aA"; "tT"; "eE"] METHOD_UPDATE 6.

Definition method_switch : res (option (Z * Z)) :=
c ← rd m start;
if one_of c "Aa" then method_A
else if one_of c "Bb" then method_B
else if one_of c "Cc" then method_C
else if one_of c "Ii" then method_I
else if one_of c "Mm" then method_M
else if one_of c "Nn" then method_N
else if one_of c "Oo" then method_O
else if one_of c "Pp" then method_P
else if one_of c "Rr" then method_R
else if one_of c "Ss" then method_S
else if one_of c "Uu" then method_U
else mret None.
End switch.

(** The label [unknown], with an [end]: [while (len < max)], [n] rounds left.
    [None] is a null pointer. *)
Fixpoint method_unknown_end (m : mem) (pend p : Z) (n : nat) : res (option Z) :=
  match n with
  | O => mret (Some pend)
  | S n =>
      c ← rd m p;
      if method_sep c then mret (Some p)
      else if negb (method_char c) then mret None
      else method_unknown_end m pend (p + 1) n
  end.

(** The label [unknown] without an [end]: the string is terminated by a
    separator, possibly [NUL]. *)
Definition method_unknown_z_step (m : mem) (p : Z) : res (Z + option Z) :=
  c ← rd m p;
  if method_sep c then mret (inr (Some p))
  else if negb (method_char c) then mret (inr None)
  else mret (inl (p + 1)).

Definition method_unknown_z (m : mem) (p : Z) : res (option Z) :=
  loop (method_unknown_z_step m) (S (Z.to_nat (mlim m - p))) p.

(** [parse_method start end &method]: the pointer returned and [*method];
    [pend = 0] is a null [end]. *)
Definition parse_method (m : mem) (start pend : Z) : res (option Z * Z) :=
  if start =? 0 then mret (None, METHOD_UNDEF) else
  let has_end := negb (pend =? 0) in
  let max := if has_end then to_int (pend - start) else 0 in
  let unknown len :=
    r ← (if has_end then
           method_unknown_end m pend (start + len) (Z.to_nat (max - len))
         else method_unknown_z m (start + len));
    mret (r, METHOD_OTHER) in
  found ← method_switch m start (λ n, has_end && (max <? n));
  match found with
  | None => unknown 0
  | Some (id, len) =>
      if negb has_end || (len <? max) then
        c ← rd m (start + len);
        if method_sep c then mret (Some (start + len), id) else unknown len
      else mret (Some (start + len), id)
  end.

(** ** [parse_methods]: the return code and [*_methods] *)
Definition skip_blank (m : mem) (p pend : Z) : res Z :=
  scan (λ c, negb (is_blank c)) m p pend.

(** One round of the outer [while]: the loop state is the pointer [p] and the
    accumulated mask. *)
Definition parse_methods_step (m : mem) (pend : Z) (s : Z * Z) :
    res (Z * Z + Z * Z) :=
  let '(p, mask) := s in
  if p <? pend then
    '(p0, method) ← parse_method m p pend;
    match p0 with
    | None => mret (inr (-1, mask))
    | Some p =>
        let mask := Z.lor mask method in
        p ← skip_blank m p pend;
        if pend <=? p then mret (inr (0, mask)) else
        c ← rd m p;
        if c =? NUL then mret (inr (0, mask)) else
        if c =? ch "," then
          p ← skip_blank m (p + 1) pend;
          if pend <=? p then mret (inr (0, mask)) else mret (inl (p, mask))
        else mret (inr (-1, mask))
    end
  else mret (inr (0, mask)).

Definition parse_methods (m : mem) (body : str) : res (Z * Z) :=
  next ← trim_leading m body;
  if str_len next =? 0 then mret (0, 0) else
  loop (parse_methods_step m (str_s next + str_len next))
       (S (Z.to_nat (str_len next))) (str_s next, 0).

(** ** Specification

    The methods with their names; the recogniser is compared with a search in
    this table. *)
Definition method_table : list (string * Z) :=
  [("ack", METHOD_ACK); ("bye", METHOD_BYE); ("cancel", METHOD_CANCEL);
   ("info", METHOD_INFO); ("invite", METHOD_INVITE); ("message", METHOD_MESSAGE);
   ("notify", METHOD_NOTIFY); ("options", METHOD_OPTIONS); ("prack", METHOD_PRACK);
   ("publish", METHOD_PUBLISH); ("refer", METHOD_REFER);
   ("register", METHOD_REGISTER); ("subscribe", METHOD_SUBSCRIBE);
   ("update", METHOD_UPDATE)].

Definition method_find (eqb : list Z → list Z → bool) (l : list Z) : option (string * Z) :=
  find (λ e, eqb (chars e.1) (lower l)) method_table.

(** The token at the beginning of [f]. *)
Definition method_token (f : list Z) : list Z := take_while (λ c, negb (method_sep c)) f.

(** What [parse_method] computes on the contents [f] of [[start, end)]. *)
Definition method_spec (start : Z) (f : list Z) : option Z * Z :=
  let tok := method_token f in
  let stop := Some (start + Z.of_nat (length tok)) in
  match method_find list_eqb tok with
  | Some (_, id) => (stop, id)
  | None => (if forallb method_char tok then stop else None, METHOD_OTHER)
  end.

(** ** The recogniser against the table *)
Fixpoint matches (cases : list string) (f : list Z) : bool :=
  match cases, f with
  | [], _ => true
  | s :: cases, c :: f => one_of c s && matches cases f
  | _ :: _, [] => false
  end.

Lemma letters_at m p f cases :
  bytes_at m p f → (length cases ≤ length f)%nat → letters m p cases = Ok (matches cases f).
Proof.
  revert p f. induction cases as [|s cases IH]; intros p f Hat Hlen; [done|].
  destruct f as [|c f]; simpl in Hlen; [lia|]. destruct Hat as [Hc Hat].
  simpl. rewrite Hc. simpl. destruct (one_of c s); simpl; [|done].
  apply IH; [done|lia].
Qed.

(** Letter labels [case 'x': case 'X':] spell the lower-case word [w]. *)
Definition spells (cases : list string) (w : list Z) : Prop :=
  Forall2 (λ s a, ∀ c, one_of c s = (tolower c =? a)) cases w.

Lemma matches_spells cases w f : spells cases w → matches cases f = prefixb w (lower f).
Proof.
  intros H. revert f. induction H as [|s a cases w Hs _ IH]; intros [|c f]; simpl; try done.
  by rewrite Hs, IH, Z.eqb_sym.
Qed.

Lemma one_of_lower_upper c a b x :
  ch a = x → ch b = x - 32 → 97 ≤ x ≤ 122 → one_of c (String a (String b "")) = (tolower c =? x).
Proof. intros Ha Hb Hx. cbn [one_of]. rewrite Ha, Hb. by apply case_pair. Qed.

Lemma one_of_upper_lower c a b x :
  ch a = x - 32 → ch b = x → 97 ≤ x ≤ 122 → one_of c (String a (String b "")) = (tolower c =? x).
Proof.
  intros Ha Hb Hx. cbn [one_of]. rewrite Ha, Hb, <- case_pair by done.
  rewrite !orb_false_r. apply orb_comm.
Qed.

Ltac spell :=
  repeat constructor; intros ?;
  first [by apply one_of_lower_upper | by apply one_of_upper_lower].

(** The result of the switch: a table entry that is a prefix of the contents. *)
Definition switch_spec (f : list Z) : option (Z * Z) :=
  match method_find prefixb f with
  | Some (name, id) => Some (id, Z.of_nat (String.length name))
  | None => None
  end.

(** The guard [end && max<n] over the contents [f]. *)
Definition short_of (f : list Z) (n : Z) : bool := Z.of_nat (length f) <? n.

Section switch_spec.
Context (m : mem) (start : Z) (f : list Z).
Hypothesis Hat : bytes_at m start f.

Lemma bytes_at_drop (k : nat) :
(k ≤ length f)%nat → bytes_at m (start + Z.of_nat k) (drop k f).
Proof.
intros Hk. rewrite <- (take_drop k f) in Hat. apply bytes_at_app in Hat as [_ H].
by rewrite length_take, Nat.min_l in H by lia.
Qed.

(** [accept] after the letters [w0], already compared. *)
Lemma accept_spec k cases w id :
(k ≤ length f)%nat → spells cases w →
accept m (short_of f) (Z.of_nat (k + length cases)) (start + Z.of_nat k) cases
  id (Z.of_nat (k + length cases))
= Ok (if prefixb w (lower (drop k f))
      then Some (id, Z.of_nat (k + length cases)) else None).
Proof.
intros Hk Hw. unfold accept, short_of. pose proof (Forall2_length _ _ _ Hw) as Hlen.
destruct (Z.ltb_spec (Z.of_nat (length f)) (Z.of_nat (k + length cases))) as [|Hle].
- destruct (prefixb w _) eqn:E; [|done].
  apply prefixb_length in E. rewrite length_lower, length_drop in E. lia.
- rewrite (letters_at _ _ (drop k f)); [|apply bytes_at_drop; lia|rewrite length_drop; lia].
  simpl. by rewrite (matches_spells _ _ _ Hw).
Qed.

Lemma accept_at k n cases w id :
n = Z.of_nat (k + length cases) → (k ≤ length f)%nat → spells cases w →
accept m (short_of f) n (start + Z.of_nat k) cases id n
= Ok (if prefixb w (lower (drop k f)) then Some (id, n) else None).
Proof. intros -> Hk Hw. by apply accept_spec. Qed.
End switch_spec.


(** The letters whose methods share no prefix with another one. *)
Lemma case_single m start c f a cases w name id n :
  bytes_at m start (c :: f) → tolower c = a → spells cases w →
  n = Z.of_nat (1 + length cases) → chars name = a :: w → n = Z.of_nat (String.length name) →
  method_find prefixb (c :: f) =
    (if prefixb (a :: w) (lower (c :: f)) then Some (name, id) else None) →
  accept m (short_of (c :: f)) n (start + 1) cases id n = Ok (switch_spec (c :: f)).
Proof.
  intros Hat Ha Hw Hn Hname Hn' Hfind. unfold switch_spec. rewrite Hfind.
  change (start + 1) with (start + Z.of_nat 1).
  rewrite (accept_at m start (c :: f) Hat 1 n cases w id Hn ltac:(simpl; lia) Hw).
  change (drop 1 (c :: f)) with f. cbn [lower map prefixb].
  rewrite Ha, Z.eqb_refl. cbn [andb].
  fold (lower f). destruct (prefixb w (lower f)); [by rewrite <- Hn'|done].
Qed.

(** Two methods that share their first letter only ([PRACK], [PUBLISH]). *)
Lemma case_two m start c f a cases1 w1 name1 id1 n1 cases2 w2 name2 id2 n2 :
  bytes_at m start (c :: f) → tolower c = a →
  spells cases1 w1 → spells cases2 w2 →
  n1 = Z.of_nat (1 + length cases1) → n2 = Z.of_nat (1 + length cases2) → n1 ≤ n2 →
  n1 = Z.of_nat (String.length name1) → n2 = Z.of_nat (String.length name2) →
  method_find prefixb (c :: f) =
    (if prefixb (a :: w1) (lower (c :: f)) then Some (name1, id1)
     else if prefixb (a :: w2) (lower (c :: f)) then Some (name2, id2) else None) →
  (if short_of (c :: f) n1 then mret None else
   ok ← letters m (start + 1) cases1;
   if ok : bool then mret (Some (id1, n1)) else
   accept m (short_of (c :: f)) n2 (start + 1) cases2 id2 n2)
  = Ok (switch_spec (c :: f)).
Proof.
  intros Hat Ha Hw1 Hw2 Hn1 Hn2 Hn Hl1 Hl2 Hfind.
  pose proof (Forall2_length _ _ _ Hw1) as L1. pose proof (Forall2_length _ _ _ Hw2) as L2.
  unfold switch_spec. rewrite Hfind. cbn [lower map prefixb].
  rewrite Ha, Z.eqb_refl. cbn [andb]. fold (lower f).
  change (start + 1) with (start + Z.of_nat 1).
  destruct (short_of (c :: f) n1) eqn:Hs; unfold short_of in Hs.
  - apply Z.ltb_lt in Hs. simpl length in Hs.
    destruct (prefixb w1 (lower f)) eqn:E1; [apply prefixb_length in E1; rewrite length_lower in E1; lia|].
    destruct (prefixb w2 (lower f)) eqn:E2; [apply prefixb_length in E2; rewrite length_lower in E2; lia|].
    done.
  - apply Z.ltb_ge in Hs. simpl length in Hs. destruct Hat as [Hc Hat'].
    rewrite (letters_at _ _ f) by (done || lia). cbn [mbind res_bind].
    rewrite (matches_spells _ _ _ Hw1).
    destruct (prefixb w1 (lower f)); [by rewrite <- Hl1|].
    rewrite (accept_at m start (c :: f) (conj Hc Hat') 1 n2 cases2 w2 id2 Hn2 ltac:(simpl; lia) Hw2).
    change (drop 1 (c :: f)) with f. destruct (prefixb w2 (lower f)); [by rewrite <- Hl2|done].
Qed.

(** Two methods that share two letters, the second of which is compared
    first ([INFO], [INVITE]; [REFER], [REGISTER]). *)
Lemma case_three m start c f a s b cases1 w1 name1 id1 n1 cases2 w2 name2 id2 n2 :
  bytes_at m start (c :: f) → tolower c = a →
  (∀ x, one_of x s = (tolower x =? b)) → spells cases1 w1 → spells cases2 w2 →
  n1 = Z.of_nat (2 + length cases1) → n2 = Z.of_nat (2 + length cases2) → n1 ≤ n2 →
  n1 = Z.of_nat (String.length name1) → n2 = Z.of_nat (String.length name2) →
  method_find prefixb (c :: f) =
    (if prefixb (a :: b :: w1) (lower (c :: f)) then Some (name1, id1)
     else if prefixb (a :: b :: w2) (lower (c :: f)) then Some (name2, id2) else None) →
  (if short_of (c :: f) n1 then mret None else
   c1 ← rd m (start + 1);
   if negb (one_of c1 s) then mret None else
   ok ← letters m (start + 2) cases1;
   if ok : bool then mret (Some (id1, n1)) else
   accept m (short_of (c :: f)) n2 (start + 2) cases2 id2 n2)
  = Ok (switch_spec (c :: f)).
Proof.
  intros Hat Ha Hb Hw1 Hw2 Hn1 Hn2 Hn Hl1 Hl2 Hfind.
  pose proof (Forall2_length _ _ _ Hw1) as L1. pose proof (Forall2_length _ _ _ Hw2) as L2.
  unfold switch_spec. rewrite Hfind. cbn [lower map prefixb].
  rewrite Ha, Z.eqb_refl. cbn [andb].
  destruct (short_of (c :: f) n1) eqn:Hs; unfold short_of in Hs.
  - apply Z.ltb_lt in Hs. simpl length in Hs. destruct f as [|c1 f]; [done|].
    cbn [map]. fold (lower f). simpl length in Hs.
    destruct (prefixb w1 (lower f)) eqn:E1; [apply prefixb_length in E1; rewrite length_lower in E1; lia|].
    destruct (prefixb w2 (lower f)) eqn:E2; [apply prefixb_length in E2; rewrite length_lower in E2; lia|].
    by rewrite andb_false_r.
  - apply Z.ltb_ge in Hs. simpl length in Hs. destruct f as [|c1 f]; [simpl in Hs; lia|].
    pose proof Hat as (_ & Hc1 & Hat'). rewrite Hc1. cbn [mbind res_bind map]. fold (lower f).
    rewrite Hb, (Z.eqb_sym b). destruct (Z.eqb_spec (tolower c1) b); [cbn [negb andb]|done].
    replace (start + 1 + 1) with (start + 2) in Hat' by lia. simpl length in Hs.
    rewrite (letters_at _ _ f) by (done || lia). cbn [mbind res_bind].
    rewrite (matches_spells _ _ _ Hw1).
    destruct (prefixb w1 (lower f)); [by rewrite <- Hl1|].
    change (start + 2) with (start + Z.of_nat 2).
    rewrite (accept_at m start (c :: c1 :: f) Hat 2 n2 cases2 w2 id2 Hn2 ltac:(simpl; lia) Hw2).
    change (drop 2 (c :: c1 :: f)) with f.
    destruct (prefixb w2 (lower f)); [by rewrite <- Hl2|done].
Qed.

(** With the first letter known, the table search only has to look at the
    methods that start with it. *)
Ltac find_first Ha :=
  unfold method_find, lower; cbn [map]; rewrite Ha;
  match goal with |- context [map tolower ?f] => generalize (map tolower f) end;
  intros ?; reflexivity.

Ltac single w name :=
  eapply (case_single _ _ _ _ _ _ w name);
  [done|eassumption|spell|done|done|done|match goal with H : tolower _ = _ |- _ => find_first H end].

Lemma method_switch_spec m start c f :
  bytes_at m start (c :: f) →
  method_switch m start (short_of (c :: f)) = Ok (switch_spec (c :: f)).
Proof.
  intros Hat. pose proof Hat as [Hc _]. unfold method_switch. rewrite Hc. cbn -[one_of short_of].
  rewrite (one_of_upper_lower c "A" "a" 97), (one_of_upper_lower c "B" "b" 98),
    (one_of_upper_lower c "C" "c" 99), (one_of_upper_lower c "I" "i" 105),
    (one_of_upper_lower c "M" "m" 109), (one_of_upper_lower c "N" "n" 110),
    (one_of_upper_lower c "O" "o" 111), (one_of_upper_lower c "P" "p" 112),
    (one_of_upper_lower c "R" "r" 114), (one_of_upper_lower c "S" "s" 115),
    (one_of_upper_lower c "U" "u" 117) by done.
  destruct (Z.eqb_spec (tolower c) 97); [single (chars "ck") "ack"|].
  destruct (Z.eqb_spec (tolower c) 98); [single (chars "ye") "bye"|].
  destruct (Z.eqb_spec (tolower c) 99); [single (chars "ancel") "cancel"|].
  destruct (Z.eqb_spec (tolower c) 105) as [Ha|].
  { eapply (case_three _ _ _ _ _ _ 110 _ (chars "fo") "info" _ _ _ (chars "vite") "invite");
      [done|exact Ha|intros; by apply one_of_lower_upper|spell|spell|done..|find_first Ha]. }
  destruct (Z.eqb_spec (tolower c) 109); [single (chars "essage") "message"|].
  destruct (Z.eqb_spec (tolower c) 110); [single (chars "otify") "notify"|].
  destruct (Z.eqb_spec (tolower c) 111); [single (chars "ptions") "options"|].
  destruct (Z.eqb_spec (tolower c) 112) as [Ha|].
  { eapply (case_two _ _ _ _ _ _ (chars "rack") "prack" _ _ _ (chars "ublish") "publish");
      [done|exact Ha|spell|spell|done..|find_first Ha]. }
  destruct (Z.eqb_spec (tolower c) 114) as [Ha|].
  { eapply (case_three _ _ _ _ _ _ 101 _ (chars "fer") "refer" _ _ _ (chars "gister") "register");
      [done|exact Ha|intros; by apply one_of_lower_upper|spell|spell|done..|find_first Ha]. }
  destruct (Z.eqb_spec (tolower c) 115); [single (chars "ubscribe") "subscribe"|].
  destruct (Z.eqb_spec (tolower c) 117); [single (chars "pdate") "update"|].
  unfold switch_spec, method_find, lower. cbn [map method_table find fst].
  repeat match goal with
  | |- context [prefixb (chars (String ?a ?s)) (?x :: ?l)] =>
      change (prefixb (chars (String a s)) (x :: l)) with ((ch a =? x) && prefixb (chars s) l);
      rewrite (Z.eqb_sym (ch a) x);
      replace (x =? ch a) with false by (symmetry; by apply Z.eqb_neq); cbn [andb]
  end.
  done.
Qed.

(** ** Tokens of the table *)
#[local] Instance entry_eq_dec : EqDecision (string * Z).
Proof. solve_decision. Defined.

Lemma table_letters e :
  e ∈ method_table → Forall (λ a, 97 ≤ a ≤ 122) (chars e.1).
Proof.
  revert e. apply Forall_forall. refine (bool_decide_unpack _ _). by vm_compute.
Qed.

Lemma table_prefix_free e1 e2 :
  e1 ∈ method_table → e2 ∈ method_table → prefixb (chars e1.1) (chars e2.1) = true → e1 = e2.
Proof.
  intros H1 H2 Hp. revert e1 H1 e2 H2 Hp.
  assert (H : Forall (λ e1, Forall (λ e2, prefixb (chars e1.1) (chars e2.1) = true → e1 = e2)
    method_table) method_table) by (refine (bool_decide_unpack _ _); by vm_compute).
  rewrite Forall_forall in H. intros e1 H1 e2 H2. specialize (H e1 H1).
  rewrite Forall_forall in H. by apply H.
Qed.

Lemma prefixb_comparable a b l :
  prefixb a l = true → prefixb b l = true → (length a ≤ length b)%nat → prefixb a b = true.
Proof.
  rewrite !prefixb_spec. intros Ha Hb Hlen. rewrite Hb, take_take, Nat.min_l by done. done.
Qed.

Lemma method_find_Some eqb l e :
  method_find eqb l = Some e → e ∈ method_table ∧ eqb (chars e.1) (lower l) = true.
Proof. intros H. apply find_some in H as [Hin H]. split; [by apply list_elem_of_In|done]. Qed.

Lemma method_find_None eqb l e :
  method_find eqb l = None → e ∈ method_table → eqb (chars e.1) (lower l) = false.
Proof. intros H Hin. eapply find_none in H; [exact H|by apply list_elem_of_In]. Qed.

Lemma method_find_prefix e f :
  e ∈ method_table → prefixb (chars e.1) (lower f) = true → method_find prefixb f = Some e.
Proof.
  intros He Hp. destruct (method_find prefixb f) as [e'|] eqn:E; [|by rewrite (method_find_None _ _ _ E He) in Hp].
  apply method_find_Some in E as [He' Hp']. f_equal.
  destruct (decide (length (chars e'.1) ≤ length (chars e.1))%nat).
  - eapply table_prefix_free; [done..|by eapply prefixb_comparable].
  - symmetry. eapply table_prefix_free; [done..|]. eapply prefixb_comparable; [done..|lia].
Qed.

Lemma method_find_eqb e w :
  e ∈ method_table → chars e.1 = lower w → method_find list_eqb w = Some e.
Proof.
  intros He Hw. destruct (method_find list_eqb w) as [e'|] eqn:E.
  - apply method_find_Some in E as [He' E%list_eqb_spec]. f_equal.
    apply table_prefix_free; [done..|]. rewrite E, Hw. apply prefixb_spec.
    by rewrite firstn_all.
  - eapply method_find_None in E; [|exact He]. rewrite Hw in E.
    by rewrite (proj2 (list_eqb_spec _ _) eq_refl) in E.
Qed.

Lemma letter_char c :
  97 ≤ tolower c ≤ 122 → method_sep c = false ∧ method_char c = true.
Proof.
  intros H. assert (65 ≤ c ≤ 90 ∨ 97 ≤ c ≤ 122) as Hc.
  { revert H. unfold tolower, is_upper. change (ch "A") with 65. change (ch "Z") with 90.
    destruct (Z.leb_spec 65 c), (Z.leb_spec c 90); simpl; lia. }
  split.
  - unfold method_sep, NUL, SPC, TAB, CR, LF. change (ch ",") with 44.
    rewrite !orb_false_iff, !Z.eqb_neq. lia.
  - unfold method_char. rewrite !orb_true_iff, !andb_true_iff, !Z.leb_le. tauto.
Qed.

(** A prefix found in the table is a run of letters. *)
Lemma method_find_prefix_inv f e :
  method_find prefixb f = Some e →
  e ∈ method_table ∧ ∃ w rest, f = w ++ rest ∧ chars e.1 = lower w ∧
    length w = String.length e.1 ∧
    Forall (λ c, negb (method_sep c) = true) w ∧ forallb method_char w = true.
Proof.
  intros [He Hp]%method_find_Some. split; [done|]. apply prefixb_spec in Hp.
  set (k := length (chars e.1)) in *. exists (take k f), (drop k f).
  assert (Hw : chars e.1 = lower (take k f)).
  { rewrite Hp at 1. unfold lower. by rewrite firstn_map. }
  assert (Hl : Forall (λ c, method_sep c = false ∧ method_char c = true) (take k f)).
  { pose proof (table_letters e He) as H. rewrite Hw in H. unfold lower in H.
    rewrite Forall_map in H. eapply Forall_impl; [exact H|]. intros c Hc. by apply letter_char. }
  split; [by rewrite take_drop|]. split; [done|]. split.
  { rewrite <- length_chars, Hw, length_lower. done. }
  split.
  - eapply Forall_impl; [exact Hl|]. by intros c [-> _].
  - apply forallb_forall. intros c Hc. rewrite Forall_forall in Hl.
    by apply Hl, list_elem_of_In.
Qed.

Lemma method_token_cons_sep c f : method_sep c = true → method_token (c :: f) = [].
Proof. intros H. unfold method_token. cbn [take_while]. by rewrite H. Qed.

Lemma method_token_cons c f :
  method_sep c = false → method_token (c :: f) = c :: method_token f.
Proof. intros H. unfold method_token. cbn [take_while]. by rewrite H. Qed.

Lemma method_token_app w f :
  Forall (λ c, negb (method_sep c) = true) w →
  method_token (w ++ f) = w ++ method_token f.
Proof.
  intros H. induction H as [|c w Hc _ IH]; [done|]. apply negb_true_iff in Hc.
  cbn [app]. by rewrite method_token_cons, IH.
Qed.

(** The loop after [unknown] checks the rest of the token. *)
Lemma method_unknown_end_spec m pend p f :
  bytes_at m p f → pend = p + Z.of_nat (length f) →
  method_unknown_end m pend p (length f) =
  Ok (if forallb method_char (method_token f)
      then Some (p + Z.of_nat (length (method_token f))) else None).
Proof.
  revert p. induction f as [|c f IH]; intros p Hat Hend; simpl.
  { simpl in Hend. by rewrite Hend. }
  destruct Hat as [Hc Hat]. rewrite Hc. cbn [mbind res_bind].
  destruct (method_sep c) eqn:Hs.
  { rewrite method_token_cons_sep by done. simpl. by rewrite Z.add_0_r. }
  rewrite method_token_cons by done. cbn [forallb length].
  destruct (method_char c); cbn [negb andb]; [|done].
  rewrite IH by (done || (simpl in Hend; lia)).
  by replace (p + 1 + Z.of_nat (length (method_token f)))
    with (p + Z.of_nat (S (length (method_token f)))) by lia.
Qed.

(** [parse_method] after the switch recognised [w], a prefix of the contents. *)
Lemma parse_method_found m start w rest e :
  bytes_at m start (w ++ rest) → method_find prefixb (w ++ rest) = Some e →
  chars e.1 = lower w → length w = String.length e.1 →
  Forall (λ c, negb (method_sep c) = true) w → forallb method_char w = true →
  method_spec start (w ++ rest) =
  match rest with
  | c :: _ => if method_sep c then (Some (start + Z.of_nat (length w)), e.2)
              else (if forallb method_char (method_token rest)
                    then Some (start + Z.of_nat (length w) + Z.of_nat (length (method_token rest)))
                    else None, METHOD_OTHER)
  | [] => (Some (start + Z.of_nat (length w)), e.2)
  end.
Proof.
  intros Hat Hfind Hw Hlen Hsep Hchar. pose proof (method_find_Some _ _ _ Hfind) as [He _].
  unfold method_spec. rewrite method_token_app by done.
  assert (Hexact : method_find list_eqb w = Some e) by by apply method_find_eqb.
  destruct rest as [|c rest].
  { unfold method_token. cbn [take_while]. rewrite app_nil_r, Hexact. by destruct e. }
  destruct (method_sep c) eqn:Hc.
  { rewrite method_token_cons_sep, app_nil_r, Hexact by done. by destruct e. }
  destruct (method_find list_eqb (w ++ method_token (c :: rest))) as [e'|] eqn:E.
  - exfalso. apply method_find_Some in E as [He' E%list_eqb_spec].
    assert (e = e').
    { apply table_prefix_free; [done..|]. rewrite E, Hw. unfold lower. rewrite map_app.
      apply prefixb_spec. by rewrite take_app_length. }
    subst e'. rewrite Hw in E. apply (f_equal length) in E.
    rewrite !length_lower, length_app, method_token_cons in E by done. simpl in E. lia.
  - rewrite forallb_app, Hchar, length_app. cbn [andb].
    by replace (start + Z.of_nat (length w + length (method_token (c :: rest)))) with
      (start + Z.of_nat (length w) + Z.of_nat (length (method_token (c :: rest)))) by lia.
Qed.

(** [parse_method] against its specification, for every contents. *)
Lemma parse_method_ok m start pend c f :
  bytes_at m start (c :: f) → 0 < start →
  pend = start + Z.of_nat (length (c :: f)) → Z.of_nat (length (c :: f)) < 2 ^ 31 →
  parse_method m start pend = Ok (method_spec start (c :: f)).
Proof.
  intros Hat Hstart Hend Hsize. unfold parse_method.
  destruct (Z.eqb_spec start 0); [lia|]. destruct (Z.eqb_spec pend 0); [lia|].
  cbn [negb andb orb]. replace (pend - start) with (Z.of_nat (length (c :: f))) by lia.
  rewrite to_int_small by (split; lia).
  change (λ n, Z.of_nat (length (c :: f)) <? n) with (short_of (c :: f)).
  rewrite (method_switch_spec _ _ _ _ Hat). cbn [mbind res_bind]. unfold switch_spec.
  destruct (method_find prefixb (c :: f)) as [[name id]|] eqn:Hfind.
  - destruct (method_find_prefix_inv _ _ Hfind) as (He & w & rest & Hf & Hw & Hlen & Hsep & Hchar).
    rewrite Hf in *. cbn [fst] in *.
    rewrite (parse_method_found m start w rest (name, id)) by done. rewrite <- Hlen.
    apply bytes_at_app in Hat as [_ Hrest]. rewrite length_app in *.
    destruct rest as [|c' rest].
    { cbn [length]. rewrite Nat.add_0_r, Z.ltb_irrefl. done. }
    destruct (Z.ltb_spec (Z.of_nat (length w)) (Z.of_nat (length w + length (c' :: rest))))
      as [_|Hge]; [|simpl in Hge; lia].
    destruct Hrest as [Hc' Hrest]. rewrite Hc'. cbn [mbind res_bind].
    destruct (method_sep c') eqn:Hs; [done|].
    replace (Z.to_nat _) with (length (c' :: rest)) by lia.
    rewrite (method_unknown_end_spec m pend _ (c' :: rest)) by (done || lia). done.
  - rewrite Z.sub_0_r, Z.add_0_r, Nat2Z.id.
    rewrite (method_unknown_end_spec _ _ _ _ Hat Hend). cbn [mbind res_bind]. unfold method_spec.
    destruct (method_find list_eqb (method_token (c :: f))) as [e|] eqn:E; [|done].
    exfalso. apply method_find_Some in E as [He E%list_eqb_spec].
    eapply method_find_None in Hfind; [|exact He]. rewrite E in Hfind.
    cut (prefixb (lower (method_token (c :: f))) (lower (c :: f)) = true); [by rewrite Hfind|].
    unfold method_token. generalize (c :: f). intros l. induction l as [|a l IH]; [done|].
    cbn [take_while]. destruct (method_sep a); [done|]. cbn. by rewrite Z.eqb_refl.
Qed.

(** ** Lists of methods *)
Definition method_id (tok : list Z) : Z :=
  match method_find list_eqb tok with Some (_, id) => id | None => METHOD_OTHER end.

Definition is_token (t : list Z) : Prop := t ≠ [] ∧ forallb method_char t = true.
Definition blanks (ws : list Z) : Prop := Forall (λ c, is_blank c = true) ws.

(** [method_list l mask]: [l] is a comma separated list of tokens, with blanks
    around the commas and at the end, and [mask] has the bits of its methods. *)
Inductive method_list : list Z → Z → Prop :=
| method_list_one t ws :
    is_token t → blanks ws → method_list (t ++ ws) (method_id t)
| method_list_cons t ws ws' l mask :
    is_token t → blanks ws → blanks ws' → method_list l mask →
    method_list (t ++ ws ++ ch "," :: ws' ++ l) (Z.lor (method_id t) mask).

Lemma method_char_not_sep c : method_char c = true → method_sep c = false.
Proof.
  unfold method_sep, NUL, SPC, TAB, CR, LF, method_char. change (ch ",") with 44.
  cbn [one_of]. intros H. rewrite !orb_false_iff, !Z.eqb_neq.
  repeat split; intros ->; vm_compute in H; discriminate.
Qed.

Lemma blank_is_sep c : is_blank c = true → method_sep c = true.
Proof.
  unfold is_blank, is_sp, is_crlf, method_sep.
  destruct (c =? SPC), (c =? TAB), (c =? CR), (c =? LF); simpl; rewrite ?orb_true_r; done.
Qed.

Lemma token_not_sep t : is_token t → Forall (λ c, negb (method_sep c) = true) t.
Proof.
  intros [_ Ht]. apply Forall_forall. intros c Hc. apply negb_true_iff, method_char_not_sep.
  rewrite forallb_forall in Ht. by apply Ht, list_elem_of_In.
Qed.

(** A token followed by a separator or by the end. *)
Lemma method_spec_token start t rest :
  is_token t → (match rest with c :: _ => method_sep c = true | [] => True end) →
  method_spec start (t ++ rest) = (Some (start + Z.of_nat (length t)), method_id t).
Proof.
  intros Ht Hrest. unfold method_spec, method_id. rewrite method_token_app by by apply token_not_sep.
  replace (method_token rest) with (@nil Z).
  2: { destruct rest; [done|]. by rewrite method_token_cons_sep. }
  rewrite app_nil_r. destruct Ht as [_ ->]. by destruct (method_find _ t) as [[]|].
Qed.

Lemma parse_method_token m start t rest :
  is_token t → (match rest with c :: _ => method_sep c = true | [] => True end) →
  bytes_at m start (t ++ rest) → 0 < start → Z.of_nat (length (t ++ rest)) < 2 ^ 31 →
  parse_method m start (start + Z.of_nat (length (t ++ rest)))
  = Ok (Some (start + Z.of_nat (length t)), method_id t).
Proof.
  intros Ht Hrest Hat Hstart Hsize. rewrite <- (method_spec_token start t rest) by done.
  destruct t as [|c t]; [by destruct Ht|]. by apply parse_method_ok.
Qed.

Lemma skip_blank_at m p pend ws rest :
  blanks ws → bytes_at m p (ws ++ rest) → pend = p + Z.of_nat (length (ws ++ rest)) →
  (match rest with c :: _ => is_blank c = false | [] => True end) →
  skip_blank m p pend = Ok (p + Z.of_nat (length ws)).
Proof.
  intros Hws Hat -> Hrest. apply bytes_at_app in Hat as [Hws' Hat].
  rewrite length_app. apply scan_at; [done| |lia|].
  - eapply Forall_impl; [exact Hws|]. by intros c ->.
  - intros Hlt. destruct rest as [|c rest]; [simpl in Hlt; lia|].
    destruct Hat as [Hc _]. exists c. by rewrite Hc, Hrest.
Qed.

Lemma token_head_not_blank t rest :
  is_token t → match t ++ rest with c :: _ => is_blank c = false | [] => True end.
Proof.
  intros Ht. pose proof (token_not_sep t Ht) as H. destruct t as [|c t]; [by destruct Ht|].
  cbn. apply Forall_cons in H as [H _]. apply negb_true_iff in H.
  destruct (is_blank c) eqn:E; [|done]. by rewrite blank_is_sep in H.
Qed.

Lemma method_list_head l mask :
  method_list l mask → match l with c :: _ => is_blank c = false | [] => True end ∧ l ≠ [].
Proof.
  intros [t ws Ht _|t ws ws' l' mask' Ht _ _ _]; (split; [by apply token_head_not_blank|]);
    destruct Ht; by destruct t.
Qed.

Lemma parse_methods_loop m l mask :
  method_list l mask → ∀ p pend acc fuel,
  bytes_at m p l → 0 < p → pend = p + Z.of_nat (length l) →
  Z.of_nat (length l) < 2 ^ 31 → (length l < fuel)%nat →
  loop (parse_methods_step m pend) fuel (p, acc) = Ok (0, Z.lor acc mask).
Proof.
  intros Hl. induction Hl as [t ws Ht Hws|t ws ws' l mask Ht Hws Hws' Hl IH];
    intros p pend acc fuel Hat Hp Hend Hsize Hfuel;
    (destruct fuel as [|fuel]; [lia|]);
    assert (0 < length t)%nat by (destruct Ht; destruct t; [done|simpl; lia]).
  - apply loop_inr. unfold parse_methods_step. rewrite length_app in *.
    destruct (Z.ltb_spec p pend); [|lia]. rewrite Hend, <- length_app.
    rewrite parse_method_token; try (done || by rewrite length_app).
    2: { destruct Hws; [done|]. by apply blank_is_sep. }
    cbn [mbind res_bind]. apply bytes_at_app in Hat as [_ Hat].
    rewrite (skip_blank_at m _ _ ws []).
    + cbn [mbind res_bind]. rewrite length_app.
      destruct (Z.leb_spec (p + Z.of_nat (length t + length ws))
        (p + Z.of_nat (length t) + Z.of_nat (length ws))); [done|lia].
    + done.
    + by rewrite app_nil_r.
    + rewrite app_nil_r, length_app. lia.
    + done.
  - pose proof (method_list_head _ _ Hl) as [Hhead Hne].
    assert (Hstep : parse_methods_step m pend (p, acc) =
      Ok (inl (p + Z.of_nat (length t) + Z.of_nat (length ws) + 1 + Z.of_nat (length ws'),
               Z.lor acc (method_id t)))).
    { unfold parse_methods_step. rewrite length_app in Hend.
      destruct (Z.ltb_spec p pend); [|lia]. rewrite Hend, <- length_app.
      rewrite parse_method_token; try done.
      2: { destruct Hws; [done|]. by apply blank_is_sep. }
      cbn [mbind res_bind]. apply bytes_at_app in Hat as [_ Hat].
      rewrite (skip_blank_at m _ _ ws (ch "," :: ws' ++ l)); [|done|done|rewrite length_app; lia|done].
      cbn [mbind res_bind]. apply bytes_at_app in Hat as [_ [Hc Hat]]. rewrite Hc.
      rewrite !length_app. cbn [length]. rewrite length_app.
      assert (0 < length l)%nat by (destruct l; [done|simpl; lia]).
      destruct (Z.leb_spec (p + Z.of_nat (length t + (length ws + S (length ws' + length l))))
        (p + Z.of_nat (length t) + Z.of_nat (length ws))); [lia|].
      cbn [mbind res_bind]. change (ch "," =? NUL) with false. rewrite Z.eqb_refl. cbn match.
      rewrite (skip_blank_at m _ _ ws' l); [|done|done|rewrite length_app; lia|done].
      cbn [mbind res_bind].
      destruct (Z.leb_spec (p + Z.of_nat (length t + (length ws + S (length ws' + length l))))
        (p + Z.of_nat (length t) + Z.of_nat (length ws) + 1 + Z.of_nat (length ws'))); [lia|done]. }
    rewrite (loop_inl _ _ _ _ Hstep). apply bytes_at_app in Hat as [_ Hat].
    apply bytes_at_app in Hat as [_ [_ Hat]]. apply bytes_at_app in Hat as [_ Hat].
    rewrite !length_app in *. cbn [length] in *. rewrite length_app in *.
    rewrite IH; [by rewrite Z.lor_assoc|done|lia..].
Qed.

(** ** Every input *)
Lemma table_ids e : e ∈ method_table → 0 < e.2 < 2 ^ 15.
Proof.
  revert e. apply Forall_forall. refine (bool_decide_unpack _ _). by vm_compute.
Qed.

Lemma method_spec_bound start f : 0 < (method_spec start f).2 < 2 ^ 15.
Proof.
  unfold method_spec. destruct (method_find _ _) as [[name id]|] eqn:E; [|done].
  apply method_find_Some in E as [He _]. by apply table_ids in He.
Qed.

Lemma method_spec_ptr start f p :
  (method_spec start f).1 = Some p → start ≤ p ≤ start + Z.of_nat (length f).
Proof.
  unfold method_spec. pose proof (take_while_length (λ c, negb (method_sep c)) f) as H.
  fold (method_token f) in H. destruct (method_find _ _) as [[name id]|].
  - intros [= <-]. lia.
  - cbn [fst]. destruct (forallb _ _); [|done]. intros [= <-]. lia.
Qed.

(** Safety and bounds of [parse_method] on a non-empty range. *)
Lemma parse_method_wp m start pend :
  0 < mbase m ≤ start → start < pend ≤ mlim m → pend - start < 2 ^ 31 →
  wp (parse_method m start pend) (λ r,
    0 < r.2 < 2 ^ 15 ∧ ∀ p, r.1 = Some p → start ≤ p ≤ pend).
Proof.
  intros Hs He Hsz. destruct (range_bytes m start pend) as (f & Hf & Hlen); [lia..|].
  destruct f as [|c f]; [simpl in Hlen; lia|].
  rewrite (parse_method_ok m start pend c f) by (done || lia).
  apply wp_ok. split; [apply method_spec_bound|]. intros p Hp.
  apply method_spec_ptr in Hp. lia.
Qed.

Lemma parse_methods_wp m body :
  0 < mbase m → mbase m ≤ str_s body → str_s body + str_len body ≤ mlim m →
  0 ≤ str_len body < 2 ^ 31 →
  wp (parse_methods m body) (λ '(rc, mask), (rc = 0 ∨ rc = -1) ∧ 0 ≤ mask < 2 ^ 15).
Proof.
  intros H0 Hb Hl Hs. unfold parse_methods. apply wp_bind.
  eapply wp_mono; [apply trim_leading_spec; lia|]. intros x (Hx1 & Hx2 & Hx3 & _).
  destruct (Z.eqb_spec (str_len x) 0); [apply wp_ret; lia|].
  set (pend := str_s x + str_len x) in *.
  apply (wp_loop _ (λ s, mbase m ≤ s.1 ∧ s.1 ≤ pend ∧ pend - s.1 < 2 ^ 31 ∧ 0 ≤ s.2 < 2 ^ 15)
    (λ s, pend - s.1)).
  2: { cbn [fst snd]. lia. }
  2: { cbn [fst]. lia. }
  intros [p mask] (I1 & I2 & I3 & I4). cbn [fst snd] in *. split; [lia|].
  unfold parse_methods_step. destruct (Z.ltb_spec p pend); [|apply wp_ret; lia].
  apply wp_bind. eapply wp_mono; [apply parse_method_wp; lia|].
  intros [[p0|] id]; cbn [fst snd]; intros [Hid Hp0]; [|apply wp_ret; lia].
  specialize (Hp0 p0 eq_refl).
  assert (0 ≤ Z.lor mask id < 2 ^ 15) by (apply lor_bound; lia).
  apply wp_bind. eapply wp_mono; [apply scan_spec; lia|]. intros p1 [Hge Hle _ _].
  destruct (Z.leb_spec pend p1); [by apply wp_ret; auto|].
  apply wp_bind, wp_rd; [lia|]. intros c _.
  destruct (c =? NUL); [by apply wp_ret; auto|].
  destruct (c =? ch ","); [|by apply wp_ret; auto].
  apply wp_bind. eapply wp_mono; [apply scan_spec; lia|]. intros p2 [Hge2 Hle2 _ _].
  destruct (Z.leb_spec pend p2); [by apply wp_ret; auto|].
  apply wp_ret. cbn [fst snd]. lia.
Qed.

(** ** Properties *)

(** C12: on the contents [f] of a non-empty range, [parse_method] computes its
    specification: the longest run of non-separators is looked up, up to case,
    in the table of methods; a name of the table yields its bit, any other run
    of token characters yields [METHOD_OTHER], both with the pointer to the end
    of the run, and a run with another character yields the null pointer. *)
Theorem parse_method_correct m start f :
  bytes_at m start f → f ≠ [] → 0 < start → Z.of_nat (length f) < 2 ^ 31 →
  parse_method m start (start + Z.of_nat (length f)) = Ok (method_spec start f).
Proof. intros Hat Hne H0 Hs. destruct f as [|c f]; [done|]. by apply parse_method_ok. Qed.

Lemma parse_method_correct_witness :
  parse_method (block (chars "inViTe sip:a")) 4096 (4096 + 12) = Ok (Some 4102, METHOD_INVITE).
Proof.
  exact (parse_method_correct (block (chars "inViTe sip:a")) 4096 (chars "inViTe sip:a")
           (block_bytes _) ltac:(done) ltac:(lia) ltac:(vm_compute; reflexivity)).
Defined.

(** [parse_methods] accepts a comma separated list of method names, with
    white space before the list and around its commas, and its mask is the
    union of the bits of the methods listed. *)
Lemma parse_methods_list m p ws l mask :
  mem_ok m → Forall (λ c, is_ws c = true) ws → method_list l mask → bytes_at m p (ws ++ l) →
  0 < p → Z.of_nat (length (ws ++ l)) < 2 ^ 31 →
  parse_methods m (Str p (Z.of_nat (length (ws ++ l)))) = Ok (0, mask).
Proof.
  intros Hm Hws Hl Hat Hp Hsize. unfold parse_methods, trim_leading. cbn [str_len str_s].
  destruct (method_list_head _ _ Hl) as [Hhead Hne].
  assert (0 < length l)%nat by (destruct l; [done|simpl; lia]).
  rewrite length_app in *. destruct (Z.leb_spec (Z.of_nat (length ws + length l)) 0); [lia|].
  rewrite Nat2Z.id, <- length_app, trim_leading_at; [|done|done|].
  2: { destruct l as [|c l]; [done|]. apply bytes_at_app in Hat as [_ [Hrd _]].
       rewrite is_ws_spec; [exact Hhead|]. by eapply rd_char. }
  cbn [mbind res_bind str_len str_s]. destruct (Z.eqb_spec (Z.of_nat (length l)) 0); [lia|].
  apply bytes_at_app in Hat as [_ Hat].
  rewrite (parse_methods_loop m l mask Hl) by (done || lia). by rewrite Z.lor_0_l.
Qed.

Lemma parse_methods_list_witness :
  let l := chars "  ACK , Foo,bye " in
  parse_methods (block l) (Str 4096 (Z.of_nat (length l)))
  = Ok (0, Z.lor METHOD_ACK (Z.lor METHOD_OTHER METHOD_BYE)).
Proof.
  apply (parse_methods_list (block (chars "  ACK , Foo,bye ")) 4096 (chars "  ")
           (chars "ACK" ++ chars " " ++ ch "," :: chars " " ++
            (chars "Foo" ++ [] ++ ch "," :: [] ++ (chars "bye" ++ chars " ")))).
  - apply mem_okb_ok. by vm_compute.
  - repeat constructor.
  - repeat constructor; discriminate.
  - apply block_bytes.
  - lia.
  - by vm_compute.
Defined.

(** On every body that lies in readable memory [parse_methods] terminates
    without reading outside of it, returns [0] or [-1], and leaves a mask of
    the fifteen known bits in [*methods] even when it fails half-way. *)
Lemma parse_methods_safe m body :
  mem_ok m → readable m (str_s body) (str_s body + str_len body) → 0 ≤ str_len body →
  wp (parse_methods m body) (λ '(rc, mask), (rc = 0 ∨ rc = -1) ∧ 0 ≤ mask < 2 ^ 15).
Proof. intros [Hb Hs _] [H1 H2] Hl. apply parse_methods_wp; lia. Qed.

Lemma parse_methods_safe_witness :
  wp (parse_methods (block (chars "ACK;BYE")) (Str 4096 7))
    (λ '(rc, mask), (rc = 0 ∨ rc = -1) ∧ 0 ≤ mask < 2 ^ 15).
Proof.
  apply (parse_methods_safe (block (chars "ACK;BYE")) (Str 4096 7)).
  - apply mem_okb_ok. by vm_compute.
  - split; by vm_compute.
  - cbn. lia.
Defined.
