(* ===== verification/FirstLine.v ===== *)
(** * The first line of a message (parse_fline.c, [struct msg_start] of
    parse_fline.h, [IFISMETHOD] of msg_parser.h) *)

From stdpp Require Import strings.
From S2P Require Export Methods.

Definition SIP_INVALID : Z := 0.
Definition SIP_REQUEST : Z := 1.
Definition SIP_REPLY : Z := 2.

Definition SIP_VERSION : string := "SIP/2.0".
Definition SIP_VERSION_LEN : Z := 7.

(** [struct msg_start].  The members of the union [u] overlap: its first [str]
    is [request.method] and [reply.version], the second [request.uri] and
    [reply.status], the third [request.version] and [reply.reason], and the
    last word [request.method_value] and [reply.statuscode]. *)
Record msg_start := MsgStart {
  fl_type : Z;
  fl_len : Z;
  u_first : str;
  u_second : str;
  u_third : str;
  u_value : Z;
}.

Definition fl_zero : msg_start := MsgStart 0 0 null_str null_str null_str 0.

Definition set_type (t : Z) (fl : msg_start) : msg_start :=
  MsgStart t (fl_len fl) (u_first fl) (u_second fl) (u_third fl) (u_value fl).

(** [fl->type=t; fl->u.request.method.len=l; fl->u.request.method_value=v;] *)
Definition set_method (t l v : Z) (fl : msg_start) : msg_start :=
  MsgStart t (fl_len fl) (Str (str_s (u_first fl)) l) (u_second fl) (u_third fl) v.

Definition set_value (v : Z) (fl : msg_start) : msg_start :=
  MsgStart (fl_type fl) (fl_len fl) (u_first fl) (u_second fl) (u_third fl) v.

Definition set_first_len (l : Z) (fl : msg_start) : msg_start :=
  MsgStart (fl_type fl) (fl_len fl) (Str (str_s (u_first fl)) l) (u_second fl)
    (u_third fl) (u_value fl).

Definition set_first_s (p : Z) (fl : msg_start) : msg_start :=
  MsgStart (fl_type fl) (fl_len fl) (Str p (str_len (u_first fl))) (u_second fl)
    (u_third fl) (u_value fl).

Definition set_second (x : str) (fl : msg_start) : msg_start :=
  MsgStart (fl_type fl) (fl_len fl) (u_first fl) x (u_third fl) (u_value fl).

Definition set_third (x : str) (l : Z) (fl : msg_start) : msg_start :=
  MsgStart (fl_type fl) l (u_first fl) (u_second fl) x (u_value fl).

(** ** The first token *)

(** The condition of [IFISMETHOD(name, first)]. *)
Definition ifismethod (m : mem) (tmp : Z) (name : string) : res bool :=
  match name with
  | EmptyString => mret false
  | String a rest =>
      c ← rd m tmp;
      if (c =? ch a) || (c =? Z.lor (ch a) 32) then
        eq ← strncasecmp_lit m (tmp + 1) (chars rest);
        if eq : bool then
          c ← rd m (tmp + Z.of_nat (String.length name)); mret (c =? SPC)
        else mret false
      else mret false
  end.

(** The methods tried with [IFISMETHOD], in order. *)
Definition fast_methods : list (string * Z) :=
  [("INVITE", METHOD_INVITE); ("CANCEL", METHOD_CANCEL); ("ACK", METHOD_ACK);
   ("BYE", METHOD_BYE); ("INFO", METHOD_INFO)].

Fixpoint try_methods (m : mem) (tmp : Z) (l : list (string * Z)) : res (option (Z * Z)) :=
  match l with
  | [] => mret None
  | (name, id) :: l =>
      ok ← ifismethod m tmp name;
      if ok : bool then mret (Some (Z.of_nat (String.length name), id))
      else try_methods m tmp l
  end.

(** The unknown request method; [None] is [goto error1]. *)
Definition first_token_other (m : mem) (buffer pend : Z) (fl : msg_start) :
    res (msg_start * option Z) :=
  tmp ← eat_token_end m buffer pend;
  if (tmp =? buffer) || (pend <=? tmp) then mret (fl, None) else
  c ← rd m tmp;
  if negb (c =? SPC) then mret (fl, None) else
  '(p, id) ← parse_method m buffer tmp;
  match p with
  | None => mret (set_value id (set_type SIP_REQUEST fl), None)
  | Some _ => mret (set_method SIP_REQUEST (to_int (tmp - buffer)) id fl, Some tmp)
  end.

(** "is it perhaps a reply, ie does it start with SIP...." *)
Definition reply_start (m : mem) (buffer : Z) : res bool :=
  c ← rd m buffer;
  if one_of c "Ss" then
    eq ← strncasecmp_lit m (buffer + 1) (chars "IP/2.0");
    if eq : bool then c ← rd m (buffer + SIP_VERSION_LEN); mret (c =? SPC) else mret false
  else mret false.

(** Up to the comment "identifying type of message over now". *)
Definition first_token (m : mem) (buffer pend : Z) (fl : msg_start) :
    res (msg_start * option Z) :=
  reply ← reply_start m buffer;
  if reply : bool then
    mret (set_first_len SIP_VERSION_LEN (set_type SIP_REPLY fl), Some (buffer + SIP_VERSION_LEN))
  else
    found ← try_methods m buffer fast_methods;
    match found with
    | Some (l, id) => mret (set_method SIP_REQUEST l id fl, Some (buffer + l))
    | None => first_token_other m buffer pend fl
    end.

(** ** The rest of the line *)

(** The status code, three digits; [None] is [goto error]. *)
Definition parse_status (m : mem) (second : Z) : res (option Z) :=
  s1 ← rd m second; s2 ← rd m (second + 1); s3 ← rd m (second + 2);
  if is_digit s1 && is_digit s2 && is_digit s3 then
    mret (Some ((s1 - ch "0") * 100 + 10 * (s2 - ch "0") + (s3 - ch "0")))
  else mret None.

(** The loop under [error] that copies what was parsed for the log. *)
Fixpoint copy_parsed (m : mem) (p : Z) (n : nat) : res unit :=
  match n with
  | O => mret tt
  | S n => _ ← rd m p; copy_parsed m (p + 1) n
  end.

(** The labels [error] and [error1]. *)
Definition first_line_error1 (m : mem) (buffer len : Z) (fl : msg_start) :
    res (Z * msg_start) :=
  nl ← eat_line m buffer len; mret (nl, set_type SIP_INVALID fl).

Definition first_line_error (m : mem) (buffer len offset : Z) (fl : msg_start) :
    res (Z * msg_start) :=
  _ ← copy_parsed m buffer (Z.to_nat offset); first_line_error1 m buffer len fl.

(** After the second token: the version of a request, the reason of a reply.
    The end of the third token ([None] is [goto error]), and [offset]. *)
Definition third_token (m : mem) (buffer len third offset : Z) (fl : msg_start) :
    res (option Z * Z) :=
  let pend := buffer + len in
  if fl_type fl =? SIP_REQUEST then
    tmp ← eat_token_end m third (third + len - offset);
    let offset := offset + (tmp - third) in
    if (tmp =? third) || (pend <=? tmp) then mret (None, offset) else
    empty ← is_empty_end m tmp (tmp + len - offset);
    mret (if empty : bool then Some tmp else None, offset)
  else
    tmp ← eat_token2_end m third (third + len - offset) CR;
    mret (if pend <=? tmp then (None, offset) else (Some tmp, offset + (tmp - third))).

Definition rest_of_line (m : mem) (buffer len tmp : Z) (fl : msg_start) :
    res (Z * msg_start) :=
  let pend := buffer + len in
  let fl := set_first_s buffer fl in
  let second := tmp + 1 in
  let offset := second - buffer in
  tmp ← eat_token_end m second (second + len - offset);
  if pend <=? tmp then first_line_error m buffer len offset fl else
  let offset := offset + (tmp - second) in
  third ← eat_space_end m tmp (tmp + len - offset);
  let offset := offset + (third - tmp) in
  if (third =? tmp) || (pend <=? tmp) then first_line_error m buffer len offset fl else
  let fl := set_second (slice second tmp) fl in
  status ← (if fl_type fl =? SIP_REPLY then
              if negb (str_len (u_second fl) =? 3) then mret None
              else parse_status m second
            else mret (Some (u_value fl)));
  match status with
  | None => first_line_error m buffer len offset fl
  | Some v =>
      let fl := set_value v fl in
      '(t, offset) ← third_token m buffer len third offset fl;
      match t with
      | None => first_line_error m buffer len offset fl
      | Some tmp =>
          nl ← eat_line m tmp (len - offset);
          if pend <=? nl then first_line_error m buffer len offset fl else
          mret (nl, set_third (slice third tmp) (to_int (nl - buffer)) fl)
      end
  end.

(** [parse_first_line]: the pointer returned and [*fl]. *)
Definition parse_first_line (m : mem) (buffer len : Z) (fl : msg_start) :
    res (Z * msg_start) :=
  if len <=? 16 then first_line_error1 m buffer len fl else
  '(fl, tmp) ← first_token m buffer (buffer + len) fl;
  match tmp with
  | None => first_line_error1 m buffer len fl
  | Some tmp => rest_of_line m buffer len tmp fl
  end.

(** ** Memory safety and layout of the result, on every input *)

(** The three tokens of a line accepted in [[buffer, pend)], in order, and the
    pointer [nl] to the next line. *)
Record fl_layout (buffer pend nl : Z) (fl : msg_start) : Prop := {
  layout_first : str_s (u_first fl) = buffer ∧ 0 < str_len (u_first fl);
  layout_second : str_s (u_second fl) = buffer + str_len (u_first fl) + 1 ∧
    0 ≤ str_len (u_second fl);
  layout_third : str_s (u_second fl) + str_len (u_second fl) < str_s (u_third fl) ∧
    0 ≤ str_len (u_third fl) ∧ str_s (u_third fl) + str_len (u_third fl) ≤ nl;
  layout_next : nl < pend ∧ fl_len fl = nl - buffer;
}.

Section safety.
Context (m : mem) (buffer len : Z).
Hypothesis Hmem : mem_ok m.
Hypothesis Hbuf : mbase m ≤ buffer.
Hypothesis Hend : buffer + len ≤ mlim m.

Lemma buffer_size : len < 2 ^ 31 ∧ 0 < mbase m.
Proof. destruct Hmem as [? ? _]. lia. Qed.

Lemma ifismethod_wp name :
Z.of_nat (String.length name) < len →
wp (ifismethod m buffer name) (λ b, b = true → rd m (buffer + Z.of_nat (String.length name)) = Ok SPC).
Proof.
intros Hn. destruct name as [|a rest]; [done|]. cbn [ifismethod].
cbn [String.length] in *. do 3 wp_step; [|by wp_step].
wp_step. eapply wp_mono; [apply strncasecmp_lit_wp; rewrite ?length_chars; lia|].
intros [] _; [|by wp_step]. do 3 wp_step. by intros ->%Z.eqb_eq.
Qed.

Lemma try_methods_wp l :
Forall (λ e, 0 < Z.of_nat (String.length e.1) < len) l →
wp (try_methods m buffer l) (λ r, ∀ n id, r = Some (n, id) →
  0 < n < len ∧ rd m (buffer + n) = Ok SPC).
Proof.
induction 1 as [|[name id] l Hn _ IH]; [done|]. cbn [try_methods]. wp_step. cbn [fst] in Hn.
eapply wp_mono; [apply ifismethod_wp; lia|]. intros [] Hb; [|done].
wp_step. intros n id' [= <- <-]. auto.
Qed.

Definition token_post (r : msg_start * option Z) : Prop :=
∀ t, r.2 = Some t → buffer < t < buffer + len ∧ str_len (u_first r.1) = t - buffer ∧
  (fl_type r.1 = SIP_REQUEST ∨ fl_type r.1 = SIP_REPLY).

Lemma first_token_other_wp fl :
0 ≤ len → wp (first_token_other m buffer (buffer + len) fl) token_post.
Proof.
intros Hl. pose proof buffer_size. unfold first_token_other. wp_step. wp_step.
wp_step; [by wp_step|].
match goal with H : _ || _ = false |- _ => apply orb_false_elim in H as [Hne%Z.eqb_neq Hlt%Z.leb_gt] end.
do 3 wp_step; [by wp_step|]. wp_step.
eapply wp_mono; [apply parse_method_wp; lia|]. intros [[p|] id] _; wp_step; [|done].
intros t [= <-]. cbn. rewrite to_int_small by lia. auto with lia.
Qed.

Lemma first_token_wp fl :
16 < len → wp (first_token m buffer (buffer + len) fl) token_post.
Proof.
intros Hl. unfold first_token. wp_step.
apply (wp_mono _ (λ _, True)).
{ unfold reply_start. do 3 wp_step; [|done]. wp_step. eapply wp_mono; [apply strncasecmp_lit_wp; simpl; lia|].
  intros [] _; [|done]. wp_step. apply wp_rd; [unfold SIP_VERSION_LEN; lia|]. done. }
intros [] _.
{ wp_step. intros t [= <-]. cbn. unfold SIP_VERSION_LEN. auto with lia. }
wp_step. eapply wp_mono; [apply try_methods_wp|].
{ repeat constructor; simpl; lia. }
intros [[n id]|] Hr; [|apply first_token_other_wp; lia].
wp_step. destruct (Hr n id eq_refl). intros t [= <-]. cbn. auto with lia.
Qed.

Lemma copy_parsed_wp p n :
mbase m ≤ p → p + Z.of_nat n ≤ mlim m → wp (copy_parsed m p n) (λ _, True).
Proof. revert p. induction n as [|n IH]; intros p Hp Hn; simpl; [done|]. do 2 wp_step. apply IH; lia. Qed.

(** What every caller may rely on. *)
Definition line_post (r : Z * msg_start) : Prop :=
buffer ≤ r.1 ≤ buffer + len ∧
(fl_type r.2 = SIP_INVALID ∨
 (fl_type r.2 = SIP_REQUEST ∨
  (fl_type r.2 = SIP_REPLY ∧ str_len (u_second r.2) = 3 ∧ 0 ≤ u_value r.2 ≤ 999)) ∧
 fl_layout buffer (buffer + len) r.1 r.2).

Lemma first_line_error_wp offset fl :
0 ≤ offset ≤ len → wp (first_line_error m buffer len offset fl) line_post.
Proof.
intros Ho. unfold first_line_error, first_line_error1. wp_step.
eapply wp_mono; [apply copy_parsed_wp; lia|]. intros _ _. do 3 wp_step.
split; [done|]. by left.
Qed.

Lemma parse_status_wp second :
mbase m ≤ second → second + 3 ≤ mlim m →
wp (parse_status m second) (λ r, ∀ v, r = Some v → 0 ≤ v ≤ 999).
Proof.
intros Hs He. unfold parse_status. repeat wp_step; [|done]. intros v [= <-].
repeat match goal with
| H : _ && _ = true |- _ => apply andb_prop in H as [? ?]
| H : is_digit _ = true |- _ => unfold is_digit in H
| H : (_ <=? _) = true |- _ => apply Z.leb_le in H
end.
change (ch "0") with 48 in *. change (ch "9") with 57 in *. lia.
Qed.

Lemma third_token_wp third offset fl :
buffer ≤ third → 0 ≤ offset → third = buffer + offset → offset ≤ len →
wp (third_token m buffer len third offset fl) (λ r,
  0 ≤ r.2 ≤ len ∧ ∀ t, r.1 = Some t → third ≤ t < buffer + len ∧ t = buffer + r.2).
Proof.
intros Hb Ho Ht Hl. unfold third_token. wp_step.
- do 2 wp_step. wp_step; [wp_step; cbn; split; [lia|done]|].
  match goal with H : _ || _ = false |- _ => apply orb_false_elim in H as [Hne%Z.eqb_neq Hlt%Z.leb_gt] end.
  do 3 wp_step. cbn. split; [lia|]. intros t.
  match goal with |- context [if ?b then _ else _] => destruct b end; intros [= <-]. lia.
- do 3 wp_step.
  match goal with |- context [buffer + len <=? ?a] => destruct (Z.leb_spec (buffer + len) a) end;
    cbn; (split; [lia|]); [done|].
  intros t [= <-]. lia.
Qed.

Lemma rest_of_line_wp tmp fl :
buffer < tmp < buffer + len → str_len (u_first fl) = tmp - buffer →
(fl_type fl = SIP_REQUEST ∨ fl_type fl = SIP_REPLY) →
wp (rest_of_line m buffer len tmp fl) line_post.
Proof.
intros Ht Hfirst Htype. pose proof buffer_size. unfold rest_of_line. do 2 wp_step.
wp_step; [apply first_line_error_wp; lia|]. do 2 wp_step.
wp_step; [apply first_line_error_wp; lia|].
match goal with H : _ || false = false |- _ => rewrite orb_false_r in H; apply Z.eqb_neq in H end.
wp_step. apply (wp_mono _ (λ r, ∀ v, r = Some v →
  fl_type fl = SIP_REPLY → str_len (slice (tmp + 1) a) = 3 ∧ 0 ≤ v ≤ 999)).
{ cbn [fl_type set_second set_first_s u_second]. destruct (Z.eqb_spec (fl_type fl) SIP_REPLY).
  - wp_step; [by wp_step|].
    match goal with H : negb _ = false |- _ => apply negb_false_iff, Z.eqb_eq in H; rename H into H3 end.
    eapply wp_mono; [apply parse_status_wp; cbn in H3; rewrite to_int_small in H3 by lia; lia|].
    intros r Hr v Hv _. split; [done|auto].
  - wp_step. intros v _ E. done. }
intros [v|] Hv; [|apply first_line_error_wp; lia].
specialize (Hv v eq_refl). wp_step.
eapply wp_mono; [apply third_token_wp; lia|]. intros [[t|] offset]; cbn [fst snd]; intros [Ho Hthird].
2: { apply first_line_error_wp. lia. }
specialize (Hthird t eq_refl). do 2 wp_step. wp_step; [apply first_line_error_wp; lia|].
wp_step. split; cbn; [lia|]. right. split.
- destruct Htype as [E|E]; [left; exact E|right]. destruct (Hv E). auto.
- split; cbn; rewrite ?to_int_small by lia; lia.
Qed.

Lemma parse_first_line_wp fl :
0 ≤ len → wp (parse_first_line m buffer len fl) line_post.
Proof.
intros Hl. unfold parse_first_line.
assert (Herr : ∀ fl, wp (first_line_error1 m buffer len fl) line_post).
{ intros fl'. unfold first_line_error1. do 3 wp_step. split; [done|by left]. }
wp_step; [done|]. wp_step. eapply wp_mono; [apply first_token_wp; lia|].
intros [fl' [t|]] Ht; [|done].
destruct (Ht t eq_refl) as (H1 & H2 & H3). by apply rest_of_line_wp.
Qed.
End safety.

(** ** Well-formed lines *)
Definition upper_name (name : string) : Prop :=
  name ≠ EmptyString ∧ Forall (λ a, 65 ≤ a ≤ 90) (chars name).

Lemma tolower_upper a : 65 ≤ a ≤ 90 → tolower a = a + 32.
Proof.
  intros Ha. unfold tolower, is_upper. change (ch "A") with 65. change (ch "Z") with 90.
  destruct (Z.leb_spec 65 a), (Z.leb_spec a 90); simpl; lia.
Qed.

(** The first character of [IFISMETHOD], tested with [| 32]. *)
Lemma first_char_test c a :
  65 ≤ a ≤ 90 → (c =? a) || (c =? Z.lor a 32) = (tolower a =? tolower c).
Proof.
  intros Ha. assert (Hlor : Z.lor a 32 = a + 32).
  { revert Ha. assert (H : Forall (λ a, Z.lor a 32 = a + 32) (seqZ 65 26))
      by (refine (bool_decide_unpack _ _); by vm_compute).
    rewrite Forall_forall in H. intros Ha. apply H, elem_of_seqZ. lia. }
  rewrite Hlor, (tolower_upper a Ha). unfold tolower, is_upper.
  change (ch "A") with 65. change (ch "Z") with 90.
  destruct (Z.leb_spec 65 c), (Z.leb_spec c 90); simpl;
    destruct (Z.eqb_spec c a), (Z.eqb_spec c (a + 32)); simpl; lia.
Qed.

Lemma ifismethod_at m p l name :
  upper_name name → bytes_at m p l → (String.length name < length l)%nat →
  ifismethod m p name = Ok (prefixb (lower (chars name)) (lower l) &&
    match l !! String.length name with Some c => c =? SPC | None => false end).
Proof.
  intros [Hne Hup] Hat Hlen. destruct name as [|a rest]; [done|].
  cbn [chars] in Hup. apply Forall_cons in Hup as [Ha Hrest].
  destruct l as [|c l]; [simpl in Hlen; lia|]. cbn [String.length length] in *.
  pose proof Hat as [Hc Hat']. cbn [ifismethod]. rewrite Hc. cbn [mbind res_bind].
  rewrite first_char_test by done. cbn [chars lower map prefixb].
  destruct (tolower (ch a) =? tolower c); cbn [andb]; [|done].
  rewrite (strncasecmp_lit_at m (p + 1) (chars rest) l); [|done|rewrite length_chars; lia|].
  2: { eapply Forall_impl; [exact Hrest|]. cbn. lia. }
  cbn [mbind res_bind]. fold (lower (chars rest)) (lower l).
  destruct (prefixb (lower (chars rest)) (lower l)); cbn [andb]; [|done].
  change ((c :: l) !! S (String.length rest)) with (l !! String.length rest).
  destruct (lookup_lt_is_Some_2 l (String.length rest)) as [d Hd]; [lia|].
  pose proof (bytes_at_lookup _ _ _ (S (String.length rest)) d Hat Hd) as Hrd.
  change (String.length (String a rest)) with (S (String.length rest)).
  by rewrite Hrd, Hd.
Qed.

(** A token followed by a space is recognised up to case. *)
Lemma ifismethod_token m p meth rest name :
  upper_name name → is_token meth → bytes_at m p (meth ++ SPC :: rest) →
  (String.length name < length (meth ++ SPC :: rest))%nat →
  ifismethod m p name = Ok (list_eqb (lower (chars name)) (lower meth)).
Proof.
  intros Hname Hmeth Hat Hlen. rewrite (ifismethod_at _ _ _ _ Hname Hat Hlen). f_equal.
  set (N := lower (chars name)). assert (HN : length N = String.length name).
  { unfold N. by rewrite length_lower, length_chars. }
  rewrite <- HN. unfold lower at 1. rewrite map_app. fold (lower meth).
  destruct (list_eqb N (lower meth)) eqn:E.
  - apply list_eqb_spec in E. rewrite E, length_lower, list_lookup_middle by done.
    rewrite Z.eqb_refl, andb_true_r. apply prefixb_spec. by rewrite take_app_length.
  - apply andb_false_iff. destruct (decide (length N = length meth)) as [Heq|Hne].
    + left. apply not_true_is_false. intros Hp%prefixb_spec.
      rewrite Heq, <- (length_lower meth), take_app_length in Hp.
      by rewrite Hp, (proj2 (list_eqb_spec _ _) eq_refl) in E.
    + destruct (decide (length N < length meth)%nat) as [Hlt|Hge].
      * right. rewrite lookup_app_l by done.
        destruct (meth !! length N) as [c|] eqn:Hc; [|done].
        apply Z.eqb_neq. intros ->. pose proof (token_not_sep _ Hmeth) as Hs.
        rewrite Forall_forall in Hs. specialize (Hs SPC (list_elem_of_lookup_2 _ _ _ Hc)). done.
      * left. apply not_true_is_false. intros Hp%prefixb_spec.
        assert (Hc : N !! length meth = Some (tolower SPC)).
        { rewrite Hp, lookup_take_lt by lia. unfold lower.
          rewrite <- (length_map tolower meth). cbn [map]. by rewrite list_lookup_middle. }
        unfold N, lower in Hc. rewrite list_lookup_fmap in Hc.
        destruct (chars name !! length meth) as [a|] eqn:Ha; [|done].
        injection Hc as Hc. destruct Hname as [_ Hup].
        eapply Forall_lookup_1 in Hup; [|exact Ha]. rewrite tolower_upper in Hc by done.
        change (tolower SPC) with 32 in Hc. lia.
Qed.

Lemma method_char_not_slash c : method_char c = true → (47 =? tolower c) = false.
Proof.
  intros H. apply Z.eqb_neq. intros E. assert (c = 47) as ->; [|by vm_compute in H].
  revert E. unfold tolower, is_upper. change (ch "A") with 65. change (ch "Z") with 90.
  destruct (Z.leb_spec 65 c), (Z.leb_spec c 90); simpl; lia.
Qed.

(** A method is not the version of a reply. *)
Lemma token_not_version meth c rest :
  is_token meth → meth ++ SPC :: rest = c :: drop 1 (meth ++ SPC :: rest) →
  prefixb (lower (chars "IP/2.0")) (lower (drop 1 (meth ++ SPC :: rest))) = false.
Proof.
  intros [Hne Hm] _. destruct meth as [|c1 [|c2 [|c3 [|c4 meth]]]]; [done|..].
  1-3: cbn; unfold SPC; rewrite ?andb_false_r; reflexivity.
  cbn [forallb] in Hm. apply andb_prop in Hm as [_ [_ [_ [Hm _]%andb_prop]%andb_prop]%andb_prop].
  change (prefixb (lower (chars "IP/2.0")) (lower (drop 1 ((c1 :: c2 :: c3 :: c4 :: meth) ++ SPC :: rest)))) with
    ((105 =? tolower c2) && ((112 =? tolower c3) && ((47 =? tolower c4) &&
      prefixb (chars "2.0") (lower (meth ++ SPC :: rest))))).
  by rewrite (method_char_not_slash c4 Hm), !andb_false_r.
Qed.

Lemma try_methods_token m p meth rest l :
  is_token meth → bytes_at m p (meth ++ SPC :: rest) →
  Forall (λ e, upper_name e.1 ∧ (String.length e.1 < length (meth ++ SPC :: rest))%nat) l →
  try_methods m p l = Ok (match find (λ e, list_eqb (lower (chars e.1)) (lower meth)) l with
    | Some (name, id) => Some (Z.of_nat (String.length name), id)
    | None => None
    end).
Proof.
  intros Hm Hat Hl. induction Hl as [|[name id] l [Hup Hlen] _ IH]; [done|].
  cbn [try_methods find fst]. rewrite (ifismethod_token m p meth rest) by done.
  cbn [mbind res_bind]. by destruct (list_eqb _ _).
Qed.

Lemma method_id_lower a b : lower a = lower b → method_id a = method_id b.
Proof. intros H. unfold method_id, method_find. by rewrite H. Qed.

Lemma fast_methods_table :
  Forall (λ e, upper_name e.1 ∧ method_id (chars e.1) = e.2) fast_methods.
Proof.
  repeat constructor; cbn [fst snd]; try done; repeat (apply Forall_cons; split; [done|]); done.
Qed.

Lemma first_token_request m p meth rest pend fl :
  is_token meth → bytes_at m p (meth ++ SPC :: rest) → 0 < p →
  pend = p + Z.of_nat (length (meth ++ SPC :: rest)) →
  (16 < length (meth ++ SPC :: rest))%nat → Z.of_nat (length (meth ++ SPC :: rest)) < 2 ^ 31 →
  first_token m p pend fl =
  Ok (set_method SIP_REQUEST (Z.of_nat (length meth)) (method_id meth) fl,
      Some (p + Z.of_nat (length meth))).
Proof.
  intros Hm Hat Hp Hend Hlen Hsize.
  destruct (meth ++ SPC :: rest) as [|c l] eqn:El; [by destruct meth|].
  assert (Hrd : rd m p = Ok c ∧ bytes_at m (p + 1) l) by done. destruct Hrd as [Hc Hl].
  assert (Hreply : reply_start m p = Ok false).
  { unfold reply_start. rewrite Hc. cbn [mbind res_bind]. destruct (one_of c "Ss"); [|done].
    simpl in Hlen.
    rewrite (strncasecmp_lit_at m (p + 1) (chars "IP/2.0") l); [|done|simpl; lia|by repeat constructor].
    pose proof (token_not_version meth c rest Hm) as Hv. rewrite El in Hv.
    change (drop 1 (c :: l)) with l in Hv. by rewrite Hv. }
  unfold first_token. rewrite Hreply. cbn [mbind res_bind].
  rewrite (try_methods_token m p meth rest); [|done|by rewrite El|].
  2: { rewrite El. pose proof fast_methods_table as Hf.
       repeat (apply Forall_cons in Hf as [[? _] Hf]; apply Forall_cons; split; [split; [done|]|]);
         try apply Forall_nil_2; cbn [fst String.length]; lia. }
  cbn [mbind res_bind]. destruct (find _ fast_methods) as [[name id]|] eqn:E.
  - apply find_some in E as [Hin%list_elem_of_In E%list_eqb_spec]. cbn [fst] in E.
    pose proof fast_methods_table as Hf. rewrite Forall_forall in Hf.
    destruct (Hf _ Hin) as [_ Hid]. cbn [fst snd] in Hid.
    rewrite <- (method_id_lower _ _ E), Hid.
    apply (f_equal length) in E. rewrite !length_lower, length_chars in E. by rewrite E.
  - clear E. unfold first_token_other, eat_token_end.
    rewrite (scan_at _ m p pend meth).
    + cbn [mbind res_bind]. assert (0 < length meth)%nat by (destruct Hm; destruct meth; [done|simpl; lia]).
      rewrite <- El, length_app in Hend. simpl length in Hend.
      destruct (Z.eqb_spec (p + Z.of_nat (length meth)) p); [lia|].
      destruct (Z.leb_spec pend (p + Z.of_nat (length meth))); [lia|]. cbn [orb].
      rewrite <- El in Hat. pose proof Hat as Hat'. apply bytes_at_app in Hat' as [Hmeth [Hsp _]].
      rewrite Hsp. cbn [mbind res_bind]. rewrite Z.eqb_refl. cbn [negb].
      assert (Hparse := parse_method_token m p meth []). rewrite app_nil_r in Hparse.
      rewrite Hparse; [|done|done|done|done|].
      2: { rewrite <- El, length_app in Hsize. lia. }
      cbn [mbind res_bind].
      replace (p + Z.of_nat (length meth) - p) with (Z.of_nat (length meth)) by lia.
      rewrite <- El, length_app in Hsize. by rewrite to_int_small by (split; lia).
    + rewrite <- El in Hat. by apply bytes_at_app in Hat as [? _].
    + eapply Forall_impl; [exact (token_not_sep _ Hm)|]. intros a Ha%negb_true_iff.
      unfold method_sep in Ha. rewrite !orb_false_iff in Ha. rewrite !orb_false_iff. tauto.
    + rewrite <- El, length_app in Hend. lia.
    + intros _. rewrite <- El in Hat. apply bytes_at_app in Hat as [_ [Hsp _]]. by exists SPC.
Qed.

(** The line after its first token, up to and including the third. *)
Section line.
Context (m : mem) (buffer len tmp : Z) (fl : msg_start).
Context (second sp third tail : list Z).
Hypothesis Hat : bytes_at m tmp (SPC :: second ++ sp ++ third ++ tail).
Hypothesis Hend : buffer + len = tmp + Z.of_nat (length (SPC :: second ++ sp ++ third ++ tail)).
Hypothesis Hlen : Z.of_nat (length (SPC :: second ++ sp ++ third ++ tail)) < 2 ^ 31.
Hypothesis Hbuf : buffer ≤ tmp < buffer + 2 ^ 31.
Hypothesis Hsecond : Forall (λ c, solid c = true) second.
Hypothesis Hsp : spaces sp ∧ sp ≠ [].

Let p2 := tmp + 1.
Let e2 := p2 + Z.of_nat (length second).
Let p3 := e2 + Z.of_nat (length sp).

(** [rest_of_line], once the second and third tokens are delimited. *)
Lemma rest_of_line_third :
head_is (λ c, negb (is_sp c)) (third ++ tail) → tail ≠ [] →
rest_of_line m buffer len tmp fl =
(let fl := set_second (slice p2 e2) (set_first_s buffer fl) in
 status ← (if fl_type fl =? SIP_REPLY then
             if negb (str_len (u_second fl) =? 3) then mret None else parse_status m p2
           else mret (Some (u_value fl)));
 match status with
 | None => first_line_error m buffer len (p3 - buffer) fl
 | Some v =>
     let fl := set_value v fl in
     '(t, offset) ← third_token m buffer len p3 (p3 - buffer) fl;
     match t with
     | None => first_line_error m buffer len offset fl
     | Some tmp =>
         nl ← eat_line m tmp (len - offset);
         if buffer + len <=? nl then first_line_error m buffer len offset fl else
         mret (nl, set_third (slice p3 tmp) (to_int (nl - buffer)) fl)
     end
 end).
Proof.
intros Hhead Htail. destruct Hat as [_ Hat']. destruct Hsp as [Hspaces Hne].
cbn [length] in Hend. rewrite !length_app in Hend.
assert (0 < length sp)%nat by (destruct sp; [done|simpl; lia]).
assert (0 < length tail)%nat by (destruct tail; [done|simpl; lia]).
unfold rest_of_line.
replace (tmp + 1 + len - (tmp + 1 - buffer)) with (buffer + len) by lia.
rewrite (eat_token_run m (tmp + 1) (buffer + len) second (sp ++ third ++ tail)).
2: done. 2: rewrite !length_app; lia. 2: done.
2: { destruct sp as [|c sp']; [done|]. apply Forall_cons in Hspaces as [Hc _].
     cbn. unfold is_blank. by rewrite Hc. }
cbn [mbind res_bind]. fold p2. fold e2.
destruct (Z.leb_spec (buffer + len) e2); [subst e2 p2; lia|].
replace (e2 + len - (p2 - buffer + (e2 - p2))) with (buffer + len) by lia.
apply bytes_at_app in Hat' as [_ Hat'].
rewrite (eat_space_run m e2 (buffer + len) sp (third ++ tail)).
2: done. 2: rewrite !length_app; subst e2 p2; lia. 2: done. 2: done.
cbn [mbind res_bind]. fold p3.
destruct (Z.eqb_spec p3 e2); [subst p3; lia|]. cbn [orb].
destruct (Z.leb_spec (buffer + len) e2); [lia|].
replace (p2 - buffer + (e2 - p2) + (p3 - e2)) with (p3 - buffer) by lia. done.
Qed.
End line.

Lemma is_empty_run m p pend sp2 c rest :
  bytes_at m p (sp2 ++ c :: rest) → pend = p + Z.of_nat (length (sp2 ++ c :: rest)) →
  spaces sp2 → is_crlf c = true → is_empty_end m p pend = Ok true.
Proof.
  intros Hat Hend Hsp Hc. unfold is_empty_end.
  rewrite (eat_space_run m p pend sp2 (c :: rest)); [|done|done|done|].
  2: { cbn. revert Hc. unfold is_crlf, is_sp. destruct (Z.eqb_spec c CR) as [->|]; [done|].
       destruct (Z.eqb_spec c LF) as [->|]; [done|]. done. }
  cbn [mbind res_bind]. rewrite length_app in Hend. cbn [length] in Hend.
  destruct (Z.ltb_spec (p + Z.of_nat (length sp2)) pend); [|lia].
  apply bytes_at_app in Hat as [_ [-> _]]. cbn. by rewrite Hc.
Qed.

Lemma after_lf_bound rest : 0 ≤ after_lf rest ≤ Z.of_nat (length rest).
Proof. destruct rest as [|c [|d rest]]; [done|simpl; lia|]. simpl. destruct (c =? CR); lia. Qed.

Lemma spaces_not_lf l : spaces l → Forall (λ c, c ≠ LF) l.
Proof. intros H. eapply Forall_impl; [exact H|]. by intros c Hc ->. Qed.

(** The version of a request, up to the next line. *)
Lemma third_token_request m buffer len p3 fl ver sp2 rest :
  fl_type fl = SIP_REQUEST → Forall (λ c, solid c = true) ver → ver ≠ [] → spaces sp2 →
  bytes_at m p3 (ver ++ sp2 ++ CR :: LF :: rest) →
  buffer + len = p3 + Z.of_nat (length (ver ++ sp2 ++ CR :: LF :: rest)) →
  third_token m buffer len p3 (p3 - buffer) fl =
  Ok (Some (p3 + Z.of_nat (length ver)), p3 + Z.of_nat (length ver) - buffer).
Proof.
  intros Htype Hver Hvne Hsp2 Hat Hend. unfold third_token. rewrite Htype, Z.eqb_refl.
  rewrite !length_app in Hend. cbn [length] in Hend.
  assert (0 < length ver)%nat by (destruct ver; [done|simpl; lia]).
  replace (p3 + len - (p3 - buffer)) with (buffer + len) by lia.
  rewrite (eat_token_run m p3 (buffer + len) ver (sp2 ++ CR :: LF :: rest));
    [|done|rewrite !length_app; cbn [length]; lia|done|].
  2: { destruct Hsp2 as [|c sp2' Hc]; [done|]. cbn. unfold is_blank. by rewrite Hc. }
  cbn [mbind res_bind]. set (e3 := p3 + Z.of_nat (length ver)) in *.
  destruct (Z.eqb_spec e3 p3); [lia|].
  destruct (Z.leb_spec (buffer + len) e3); [lia|]. cbn [orb].
  replace (p3 - buffer + (e3 - p3)) with (e3 - buffer) by lia.
  replace (e3 + len - (e3 - buffer)) with (buffer + len) by lia.
  apply bytes_at_app in Hat as [_ Hat].
  rewrite (is_empty_run m e3 (buffer + len) sp2 CR (LF :: rest));
    [done|done|rewrite length_app; cbn [length]; lia|done|done].
Qed.

(** The last steps: from the end of the third token to the next line. *)
Lemma eat_line_end m buffer len e3 mid rest :
  Forall (λ c, c ≠ LF) mid → bytes_at m e3 (mid ++ CR :: LF :: rest) →
  buffer + len = e3 + Z.of_nat (length (mid ++ CR :: LF :: rest)) →
  let nl := e3 + Z.of_nat (length mid) + 1 + after_lf rest in
  eat_line m e3 (len - (e3 - buffer)) = Ok nl ∧ nl < buffer + len.
Proof.
  intros Hmid Hat Hend nl. rewrite length_app in Hend. cbn [length] in Hend.
  pose proof (after_lf_bound rest). split; [|lia].
  rewrite (eat_line_at m e3 (mid ++ [CR]) rest).
  - rewrite length_app. cbn [length]. f_equal. lia.
  - by rewrite <- app_assoc.
  - rewrite !length_app. cbn [length]. lia.
  - apply Forall_app. split; [done|by repeat constructor].
Qed.

(** The contents of a request line, and what the parser makes of it. *)
Definition request_line (meth uri sp ver sp2 rest : list Z) : list Z :=
  meth ++ SPC :: uri ++ sp ++ ver ++ sp2 ++ CR :: LF :: rest.

Record request_ok (meth uri sp ver sp2 rest : list Z) : Prop := {
  rq_meth : is_token meth;
  rq_uri : Forall (λ c, solid c = true) uri;
  rq_sp : spaces sp ∧ sp ≠ [];
  rq_ver : Forall (λ c, solid c = true) ver ∧ ver ≠ [];
  rq_sp2 : spaces sp2;
  rq_long : (16 < length (request_line meth uri sp ver sp2 rest))%nat;
  rq_size : Z.of_nat (length (request_line meth uri sp ver sp2 rest)) < 2 ^ 31;
}.

Definition request_parsed (p : Z) (meth uri sp ver sp2 rest : list Z) : Z * msg_start :=
  let n := λ l : list Z, Z.of_nat (length l) in
  let p2 := p + n meth + 1 in
  let p3 := p2 + n uri + n sp in
  let nl := p3 + n ver + n sp2 + 1 + after_lf rest in
  (nl, MsgStart SIP_REQUEST (nl - p) (Str p (n meth)) (Str p2 (n uri)) (Str p3 (n ver))
         (method_id meth)).

Lemma parse_request m p len fl meth uri sp ver sp2 rest :
  request_ok meth uri sp ver sp2 rest → 0 < p →
  bytes_at m p (request_line meth uri sp ver sp2 rest) →
  len = Z.of_nat (length (request_line meth uri sp ver sp2 rest)) →
  parse_first_line m p len fl = Ok (request_parsed p meth uri sp ver sp2 rest).
Proof.
  intros [Hmeth Huri Hsp [Hver Hvne] Hsp2 Hlong Hsize] Hp Hat Hlen.
  unfold parse_first_line. destruct (Z.leb_spec len 16); [lia|]. unfold request_line in *.
  rewrite (first_token_request m p meth _ (p + len)) by (done || lia). cbn [mbind res_bind].
  apply bytes_at_app in Hat as [_ Hat].
  assert (Hver0 : head_is (λ c, negb (is_sp c)) (ver ++ sp2 ++ CR :: LF :: rest)).
  { destruct ver as [|c ver']; [done|]. cbn. apply Forall_cons in Hver as [Hc _].
    by apply solid_not_sp. }
  rewrite !length_app in *. cbn [length] in *. rewrite !length_app in *. cbn [length] in *.
  rewrite (rest_of_line_third m p len _ _ uri sp ver (sp2 ++ CR :: LF :: rest)); try done.
  2,3: cbn [length]; rewrite ?length_app; cbn [length]; lia. 2: by destruct sp2.
  cbn [fl_type set_second set_first_s set_method]. change (SIP_REQUEST =? SIP_REPLY) with false.
  cbn [mbind res_bind mret res_ret u_value].
  destruct Hat as [_ Hat]. do 2 apply bytes_at_app in Hat as [_ Hat].
  rewrite (third_token_request m p len _ _ ver sp2 rest) by
    (done || (rewrite !length_app; cbn [length]; lia)).
  cbn [mbind res_bind]. apply bytes_at_app in Hat as [_ Hat].
  destruct (eat_line_end m p len _ sp2 rest (spaces_not_lf _ Hsp2) Hat) as [Heat Hnl];
    [rewrite length_app; cbn [length]; lia|].
  rewrite Heat. cbn [mbind res_bind]. match goal with |- context [?a <=? ?b] => destruct (Z.leb_spec a b) end; [lia|].
  unfold request_parsed, set_third, set_value, set_second, set_first_s, set_method, mret, res_ret.
  cbn [fl_type fl_len u_first u_second u_third u_value str_s str_len].
  pose proof (after_lf_bound rest). cbn [length] in *.
  rewrite !slice_run by lia. rewrite to_int_small by (split; lia). done.
Qed.

(** ** Replies *)
Definition reply_line (vers : list Z) (d1 d2 d3 : Z) (sp reason rest : list Z) : list Z :=
  vers ++ SPC :: [d1; d2; d3] ++ sp ++ reason ++ CR :: LF :: rest.

Record reply_ok (vers : list Z) (d1 d2 d3 : Z) (sp reason rest : list Z) : Prop := {
  rp_vers : lower vers = chars "sip/2.0";
  rp_digits : Forall (λ d, 48 ≤ d ≤ 57) [d1; d2; d3];
  rp_sp : spaces sp ∧ sp ≠ [];
  rp_reason : Forall (λ c, is_crlf c = false) reason ∧ head_is (λ c, negb (is_sp c)) reason;
  rp_long : (16 < length (reply_line vers d1 d2 d3 sp reason rest))%nat;
  rp_size : Z.of_nat (length (reply_line vers d1 d2 d3 sp reason rest)) < 2 ^ 31;
}.

Definition reply_parsed (p : Z) (vers : list Z) (d1 d2 d3 : Z) (sp reason rest : list Z) :
    Z * msg_start :=
  let n := λ l : list Z, Z.of_nat (length l) in
  let p2 := p + 8 in
  let p3 := p2 + 3 + n sp in
  let nl := p3 + n reason + 1 + after_lf rest in
  (nl, MsgStart SIP_REPLY (nl - p) (Str p 7) (Str p2 3) (Str p3 (n reason))
         ((d1 - 48) * 100 + (d2 - 48) * 10 + (d3 - 48))).

Lemma reply_start_at m p vers rest :
  lower vers = chars "sip/2.0" → bytes_at m p (vers ++ SPC :: rest) → reply_start m p = Ok true.
Proof.
  intros Hv Hat. assert (Hlen : length vers = 7%nat).
  { apply (f_equal length) in Hv. by rewrite length_lower in Hv. }
  destruct vers as [|c vers]; [done|]. cbn [lower map chars] in Hv.
  injection Hv as Hc Hv. change (ch "s") with 115 in Hc.
  destruct Hat as [Hrd Hat]. unfold reply_start. rewrite Hrd. cbn [mbind res_bind].
  rewrite (one_of_upper_lower c "S" "s" 115), Hc by done. cbn [Z.eqb Pos.eqb].
  cbn [length] in Hlen.
  rewrite (strncasecmp_lit_at m (p + 1) (chars "IP/2.0") (vers ++ SPC :: rest));
    [|done|rewrite length_app; cbn [length chars]; lia|by repeat constructor].
  cbn [mbind res_bind]. unfold lower at 2. rewrite map_app. fold (map tolower) in *.
  rewrite Hv. cbn [mbind res_bind].
  replace (prefixb (lower (chars "IP/2.0")) _) with true by done.
  apply bytes_at_app in Hat as [_ [Hsp _]]. unfold SIP_VERSION_LEN.
  replace (p + 1 + Z.of_nat (length vers)) with (p + 7) in Hsp by lia. by rewrite Hsp.
Qed.

Lemma parse_status_at m p d1 d2 d3 rest :
  bytes_at m p ([d1; d2; d3] ++ rest) → Forall (λ d, 48 ≤ d ≤ 57) [d1; d2; d3] →
  parse_status m p = Ok (Some ((d1 - 48) * 100 + (d2 - 48) * 10 + (d3 - 48))).
Proof.
  intros (H1 & H2 & H3 & _) Hd. unfold parse_status. rewrite H1, H2. cbn [mbind res_bind].
  replace (p + 2) with (p + 1 + 1) by lia. rewrite H3. cbn [mbind res_bind].
  rewrite !Forall_cons in Hd. destruct Hd as (Hd1 & Hd2 & Hd3 & _).
  rewrite (proj2 (is_digit_spec d1)), (proj2 (is_digit_spec d2)), (proj2 (is_digit_spec d3)) by done.
  change (ch "0") with 48. cbn [andb]. do 2 f_equal. lia.
Qed.

(** The reason phrase of a reply. *)
Lemma third_token_reply m buffer len p3 fl reason rest :
  fl_type fl = SIP_REPLY → Forall (λ c, is_crlf c = false) reason →
  bytes_at m p3 (reason ++ CR :: LF :: rest) →
  buffer + len = p3 + Z.of_nat (length (reason ++ CR :: LF :: rest)) →
  third_token m buffer len p3 (p3 - buffer) fl =
  Ok (Some (p3 + Z.of_nat (length reason)), p3 + Z.of_nat (length reason) - buffer).
Proof.
  intros Htype Hreason Hat Hend. unfold third_token. rewrite Htype.
  change (SIP_REPLY =? SIP_REQUEST) with false. cbn iota.
  replace (p3 + len - (p3 - buffer)) with (buffer + len) by lia.
  unfold eat_token2_end. rewrite (scan_run _ m p3 _ reason (CR :: LF :: rest)); [|done|done| |done].
  2: { eapply Forall_impl; [exact Hreason|]. intros c. unfold is_crlf.
       rewrite !orb_false_iff. tauto. }
  rewrite length_app in Hend. cbn [length mbind res_bind] in *.
  destruct (Z.leb_spec (buffer + len) (p3 + Z.of_nat (length reason))); [lia|].
  unfold mret, res_ret. do 2 f_equal. lia.
Qed.

Lemma parse_reply m p len fl vers d1 d2 d3 sp reason rest :
  reply_ok vers d1 d2 d3 sp reason rest → 0 < p →
  bytes_at m p (reply_line vers d1 d2 d3 sp reason rest) →
  len = Z.of_nat (length (reply_line vers d1 d2 d3 sp reason rest)) →
  parse_first_line m p len fl = Ok (reply_parsed p vers d1 d2 d3 sp reason rest).
Proof.
  intros [Hvers Hdig Hsp [Hreason Hhead] Hlong Hsize] Hp Hat Hlen.
  unfold parse_first_line. destruct (Z.leb_spec len 16); [lia|]. unfold reply_line in *.
  unfold first_token. rewrite (reply_start_at m p vers _ Hvers Hat). cbn [mbind res_bind].
  assert (Hv7 : length vers = 7%nat).
  { apply (f_equal length) in Hvers. by rewrite length_lower in Hvers. }
  apply bytes_at_app in Hat as [_ Hat]. rewrite Hv7 in Hat. change (Z.of_nat 7) with 7 in Hat.
  unfold SIP_VERSION_LEN. cbn [mbind res_bind mret res_ret].
  rewrite !length_app, Hv7 in Hlen, Hsize. cbn [length] in *. rewrite !length_app in *. cbn [length] in *.
  rewrite (rest_of_line_third m p len _ _ [d1; d2; d3] sp reason (CR :: LF :: rest)); try done.
  2,3: cbn [length]; rewrite ?length_app; cbn [length]; rewrite ?length_app; cbn [length]; lia.
  2: { eapply Forall_impl; [exact Hdig|]. intros d Hd. cbn beta in Hd.
       unfold solid, is_blank, is_sp, is_crlf, SPC, TAB, CR, LF.
       repeat match goal with |- context [d =? ?a] => destruct (Z.eqb_spec d a); [lia|] end. done. }
  2: { by destruct reason. }
  cbn [fl_type set_first_len set_type set_second set_first_s]. rewrite Z.eqb_refl.
  change (p + 7 + 1 + Z.of_nat (length [d1; d2; d3])) with (p + 7 + 1 + 3).
  replace (p + 7 + 1) with (p + 8) in * by lia.
  rewrite (slice_run (p + 8) [d1; d2; d3] eq_refl : slice (p + 8) (p + 8 + 3) = Str (p + 8) 3).
  cbn [u_second set_second str_len negb Z.eqb Pos.eqb].
  destruct Hat as [_ Hat]. replace (p + 7 + 1) with (p + 8) in Hat by lia.
  rewrite (parse_status_at m (p + 8) d1 d2 d3 _ Hat Hdig). cbn [mbind res_bind].
  do 2 apply bytes_at_app in Hat as [_ Hat]. cbn [length] in Hat. change (Z.of_nat 3) with 3 in Hat.
  rewrite (third_token_reply m p len _ _ reason rest) by
    (done || (rewrite !length_app; cbn [length]; lia)).
  cbn [mbind res_bind]. apply bytes_at_app in Hat as [_ Hat].
  destruct (eat_line_end m p len _ [] rest (List.Forall_nil _) Hat) as [Heat Hnl];
    [cbn [app length]; lia|].
  rewrite Heat. cbn [mbind res_bind]. match goal with |- context [?a <=? ?b] => destruct (Z.leb_spec a b) end; [lia|].
  unfold reply_parsed, set_third, set_value, set_second, set_first_s, set_first_len, set_type, mret, res_ret.
  cbn [fl_type fl_len u_first u_second u_third u_value str_s str_len length]. pose proof (after_lf_bound rest).
  rewrite !slice_run by lia. change (Z.of_nat 0) with 0 in *.
  rewrite !Z.add_0_r in *. rewrite to_int_small by (split; lia). done.
Qed.

(** Well-formedness of a concrete line. *)
Ltac line_ok :=
  split; [..|by vm_compute];
  first [ done | split; [by repeat constructor|done]
        | by repeat constructor; lia | by repeat constructor | apply Nat.ltb_lt; by vm_compute ].

(** ** Properties *)

(** C11: a well-formed request line, whatever follows it, is recognised: the
    method, the URI and the version are delimited exactly, the method value is
    that of the method's name up to case, and the pointer returned is the
    beginning of the next line. *)
Theorem parse_first_line_request m p fl meth uri sp ver sp2 rest :
  request_ok meth uri sp ver sp2 rest → 0 < p →
  bytes_at m p (request_line meth uri sp ver sp2 rest) →
  parse_first_line m p (Z.of_nat (length (request_line meth uri sp ver sp2 rest))) fl =
  Ok (request_parsed p meth uri sp ver sp2 rest).
Proof. intros. by apply parse_request. Qed.

Definition request_example : list Z :=
  request_line (chars "INVITE") (chars "sip:bob@host") (chars " ") (chars "SIP/2.0") []
    (chars "Via: x").

Lemma parse_first_line_request_witness :
  parse_first_line (block request_example) 4096 (Z.of_nat (length request_example)) fl_zero =
  Ok (4096 + 29, MsgStart SIP_REQUEST 29 (Str 4096 6) (Str 4103 12) (Str 4116 7) METHOD_INVITE).
Proof.
  apply (parse_first_line_request (block request_example) 4096 fl_zero (chars "INVITE")
    (chars "sip:bob@host") (chars " ") (chars "SIP/2.0") [] (chars "Via: x")).
  - line_ok.
  - lia.
  - apply block_bytes.
Defined.

(** A well-formed status line is recognised: the version, the three digits
    of the status and the reason phrase (which may be empty) are delimited
    exactly, and the status code is the number that the digits denote. *)
Lemma parse_first_line_reply m p fl vers d1 d2 d3 sp reason rest :
  reply_ok vers d1 d2 d3 sp reason rest → 0 < p →
  bytes_at m p (reply_line vers d1 d2 d3 sp reason rest) →
  parse_first_line m p (Z.of_nat (length (reply_line vers d1 d2 d3 sp reason rest))) fl =
  Ok (reply_parsed p vers d1 d2 d3 sp reason rest).
Proof. intros. by apply parse_reply. Qed.

Definition reply_example : list Z :=
  reply_line (chars "SIP/2.0") 51 48 50 (chars " ") (chars "Moved Temporarily") (chars "Via: x").

Lemma parse_first_line_reply_witness :
  parse_first_line (block reply_example) 4096 (Z.of_nat (length reply_example)) fl_zero =
  Ok (4096 + 31, MsgStart SIP_REPLY 31 (Str 4096 7) (Str 4104 3) (Str 4108 17) 302).
Proof.
  apply (parse_first_line_reply (block reply_example) 4096 fl_zero (chars "SIP/2.0") 51 48 50
    (chars " ") (chars "Moved Temporarily") (chars "Via: x")).
  - line_ok.
  - lia.
  - apply block_bytes.
Defined.

(** For every buffer in readable memory, [parse_first_line] terminates
    without reading outside of the block; the pointer it returns is in the
    buffer or at its end; and either the line is flagged [SIP_INVALID], or its
    three tokens lie in the buffer one after the other, the next line begins
    beyond the third and before the end, and a reply has a status of three
    digits whose code is between 0 and 999. *)
Lemma parse_first_line_safe m buffer len fl :
  mem_ok m → readable m buffer (buffer + len) → 0 ≤ len →
  wp (parse_first_line m buffer len fl) (line_post buffer len).
Proof. intros Hm [H1 H2] Hl. by apply parse_first_line_wp. Qed.

Lemma parse_first_line_safe_witness :
  wp (parse_first_line (block (chars "BYE sip:a SIP/2.0")) 4096 17 fl_zero) (line_post 4096 17).
Proof.
  apply (parse_first_line_safe (block (chars "BYE sip:a SIP/2.0")) 4096 17 fl_zero).
  - apply mem_okb_ok. by vm_compute.
  - split; by vm_compute.
  - lia.
Defined.

(** The version of a request is delimited but never looked at: any
    well-formed request line stays accepted, with the same method and URI, when
    its version is replaced by another token of the same length. *)
Theorem parse_first_line_version_unchecked m m' p fl meth uri sp ver ver' sp2 rest :
  request_ok meth uri sp ver sp2 rest → 0 < p →
  Forall (λ c, solid c = true) ver' → length ver' = length ver →
  bytes_at m p (request_line meth uri sp ver sp2 rest) →
  bytes_at m' p (request_line meth uri sp ver' sp2 rest) →
  parse_first_line m' p (Z.of_nat (length (request_line meth uri sp ver' sp2 rest))) fl =
  parse_first_line m p (Z.of_nat (length (request_line meth uri sp ver sp2 rest))) fl.
Proof.
  intros Hok Hp Hver' Hlen Hat Hat'.
  assert (Hlen' : length (request_line meth uri sp ver' sp2 rest) =
                  length (request_line meth uri sp ver sp2 rest)).
  { unfold request_line. rewrite !length_app. cbn [length]. rewrite !length_app. lia. }
  rewrite (parse_request m p _ fl meth uri sp ver sp2 rest) by done.
  rewrite (parse_request m' p _ fl meth uri sp ver' sp2 rest); try done.
  - unfold request_parsed. by rewrite Hlen.
  - destruct Hok as [? ? ? [? Hne] ? ? ?]. split; try done; try by rewrite Hlen'.
    split; [done|]. intros ->. by destruct ver.
Qed.

Definition request_example_http : list Z :=
  request_line (chars "INVITE") (chars "sip:bob@host") (chars " ") (chars "HTTP/99") []
    (chars "Via: x").

Lemma parse_first_line_version_unchecked_witness :
  parse_first_line (block request_example_http) 4096 (Z.of_nat (length request_example_http)) fl_zero =
  parse_first_line (block request_example) 4096 (Z.of_nat (length request_example)) fl_zero.
Proof.
  apply (parse_first_line_version_unchecked (block request_example) (block request_example_http)
    4096 fl_zero (chars "INVITE") (chars "sip:bob@host") (chars " ") (chars "SIP/2.0")
    (chars "HTTP/99") [] (chars "Via: x")); [|lia|by repeat constructor|done|apply block_bytes..].
  line_ok.
Defined.
