(* ===== verification/CSeq.v ===== *)
(** * The CSeq header field (parse_cseq.c, parse_cseq.h) *)

From stdpp Require Import strings.
From S2P Require Export Methods.

Definition PARSE_ERROR : Z := -1.
Definition PARSE_OK : Z := 1.

(** [struct cseq_body] *)
Record cseq_body := CseqBody {
  cseq_error : Z;
  cseq_number : str;
  cseq_method : str;
  cseq_method_id : Z;
}.

(** The end of the header field, from the first character after the method:
    the pointer returned and [cb->error]. *)
Definition cseq_eol (m : mem) (t pend : Z) : res (Z * Z) :=
  t ← eat_lws_end m t pend;
  if pend <=? t then mret (t, PARSE_ERROR) else
  c ← rd m t;
  crlf ← (if (c =? CR) && (t + 1 <? pend) then c1 ← rd m (t + 1); mret (c1 =? LF) else mret false);
  if crlf : bool then mret (t + 2, PARSE_OK)
  else if c =? LF then mret (t + 1, PARSE_OK)
  else mret (t, PARSE_ERROR).

(** [parse_cseq buf end cb]: the pointer returned and [*cb]. *)
Definition parse_cseq (m : mem) (buf pend : Z) (cb : cseq_body) : res (Z * cseq_body) :=
  let cb := CseqBody PARSE_ERROR (Str buf (str_len (cseq_number cb))) (cseq_method cb)
              (cseq_method_id cb) in
  t ← eat_token_end m buf pend;
  if pend <=? t then mret (t, cb) else
  let cb := CseqBody PARSE_ERROR (slice buf t) (cseq_method cb) (cseq_method_id cb) in
  meth ← eat_space_end m t pend;
  m_end ← eat_token_end m meth pend;
  if pend <=? m_end then mret (t, cb) else
  if m_end =? meth then mret (t, cb) else
  '(p, id) ← parse_method m meth m_end;
  let cb := CseqBody PARSE_ERROR (cseq_number cb) (slice meth m_end) id in
  match p with
  | None => mret (m_end, cb)
  | Some _ =>
      '(t, err) ← cseq_eol m m_end pend;
      mret (t, CseqBody err (cseq_number cb) (cseq_method cb) id)
  end.

(** ** Specification *)

(** A CSeq field: the number, spaces, the method, white space, the end of the
    line.  Nothing requires the number to consist of digits. *)
Definition cseq_field (num sp meth sp2 : list Z) (cr : bool) (rest : list Z) : list Z :=
  num ++ sp ++ meth ++ sp2 ++ eol cr ++ rest.

Record cseq_ok (num sp meth sp2 rest : list Z) : Prop := {
  cs_num : Forall (λ c, solid c = true) num;
  cs_sp : spaces sp ∧ sp ≠ [];
  cs_meth : is_token meth;
  cs_sp2 : spaces sp2;
  (* the line is not folded *)
  cs_rest : match rest with c :: _ => is_sp c = false | [] => True end;
}.

Lemma cseq_eol_at m p pend sp2 cr rest :
  spaces sp2 → match rest with c :: _ => is_sp c = false | [] => True end →
  bytes_at m p (sp2 ++ eol cr ++ rest) →
  pend = p + Z.of_nat (length (sp2 ++ eol cr ++ rest)) →
  cseq_eol m p pend = Ok (p + Z.of_nat (length sp2) + Z.of_nat (length (eol cr)), PARSE_OK).
Proof.
  intros Hsp Hrest Hat Hend. unfold cseq_eol.
  rewrite (eat_lws_run m p pend sp2 (eol cr ++ rest)); [|done|done|done|].
  2: { destruct cr; cbn; [|]; destruct rest; done. }
  cbn [mbind res_bind]. rewrite !length_app in Hend.
  apply bytes_at_app in Hat as [_ Hat]. set (t := p + Z.of_nat (length sp2)) in *.
  assert (0 < length (eol cr))%nat by (destruct cr; simpl; lia).
  destruct (Z.leb_spec pend t); [lia|].
  destruct cr; cbn [eol app length] in *.
  - destruct Hat as (Hc & Hc1 & _). rewrite Hc. cbn [mbind res_bind]. rewrite Z.eqb_refl. cbn [andb].
    destruct (Z.ltb_spec (t + 1) pend); [|lia]. by rewrite Hc1.
  - destruct Hat as (Hc & _). rewrite Hc. cbn. done.
Qed.

(** What [parse_cseq] leaves in [*cb]. *)
Definition cseq_parsed (p : Z) (num sp meth sp2 : list Z) (cr : bool) : Z * cseq_body :=
  let n := λ l : list Z, Z.of_nat (length l) in
  let pm := p + n num + n sp in
  (pm + n meth + n sp2 + n (eol cr),
   CseqBody PARSE_OK (Str p (n num)) (Str pm (n meth)) (method_id meth)).

Lemma parse_cseq_at m p cb num sp meth sp2 cr rest :
  cseq_ok num sp meth sp2 rest → 0 < p →
  bytes_at m p (cseq_field num sp meth sp2 cr rest) →
  Z.of_nat (length (cseq_field num sp meth sp2 cr rest)) < 2 ^ 31 →
  parse_cseq m p (p + Z.of_nat (length (cseq_field num sp meth sp2 cr rest))) cb =
  Ok (cseq_parsed p num sp meth sp2 cr).
Proof.
  intros [Hnum [Hsp Hspne] Hmeth Hsp2 Hrest] Hp Hat Hsize.
  set (pend := p + _). assert (Hend : pend = p + Z.of_nat (length (cseq_field num sp meth sp2 cr rest))) by done.
  clearbody pend. unfold cseq_field in *.
  assert (Heol : (0 < length (eol cr))%nat) by (destruct cr; simpl; lia).
  assert (0 < length sp)%nat by (destruct sp; [done|simpl; lia]).
  assert (0 < length meth)%nat by (destruct Hmeth; destruct meth; [done|simpl; lia]).
  unfold parse_cseq. rewrite (eat_token_run m p pend num (sp ++ meth ++ sp2 ++ eol cr ++ rest)); try done.
  2: { destruct Hsp as [|c sp' Hc]; [done|]. cbn. unfold is_blank. by rewrite Hc. }
  cbn [mbind res_bind]. apply bytes_at_app in Hat as [_ Hat]. rewrite !length_app in Hend, Hsize.
  destruct (Z.leb_spec pend (p + Z.of_nat (length num))); [lia|].
  assert (Hsolid : Forall (λ c, solid c = true) meth).
  { eapply Forall_impl; [exact (token_not_sep _ Hmeth)|]. intros c Hc%negb_true_iff.
    unfold solid. destruct (is_blank c) eqn:E; [|done]. by rewrite blank_is_sep in Hc. }
  rewrite (eat_space_run m _ pend sp (meth ++ sp2 ++ eol cr ++ rest)); [|done|rewrite !length_app; lia|done|].
  2: { destruct meth as [|c meth']; [by destruct Hmeth|]. apply Forall_cons in Hsolid as [Hc _]. by apply solid_not_sp. }
  cbn [mbind res_bind]. apply bytes_at_app in Hat as [_ Hat].
  set (pm := p + Z.of_nat (length num) + Z.of_nat (length sp)) in *.
  rewrite (eat_token_run m pm pend meth (sp2 ++ eol cr ++ rest)); [|done|rewrite !length_app; lia|done|].
  2: { destruct Hsp2 as [|c sp' Hc]; [by destruct cr|]. cbn. unfold is_blank. by rewrite Hc. }
  cbn [mbind res_bind]. destruct (Z.leb_spec pend (pm + Z.of_nat (length meth))); [lia|].
  destruct (Z.eqb_spec (pm + Z.of_nat (length meth)) pm); [lia|].
  apply bytes_at_app in Hat as [Hat1 Hat].
  pose proof (parse_method_token m pm meth []) as Hpm. rewrite app_nil_r in Hpm.
  rewrite Hpm by (done || lia). cbn [mbind res_bind].
  rewrite (cseq_eol_at m _ pend sp2 cr rest) by (done || (rewrite !length_app; lia)).
  cbn [mbind res_bind cseq_number cseq_method]. unfold cseq_parsed. fold pm.
  rewrite !slice_run by lia. done.
Qed.

(** ** Safety *)
Definition cseq_post (buf pend : Z) (r : Z * cseq_body) : Prop :=
  buf ≤ r.1 ≤ pend ∧
  (cseq_error r.2 = PARSE_ERROR ∨
   (cseq_error r.2 = PARSE_OK ∧ buf < r.1 ∧
    str_s (cseq_number r.2) = buf ∧ 0 ≤ str_len (cseq_number r.2) ∧
    buf + str_len (cseq_number r.2) ≤ str_s (cseq_method r.2) ∧
    0 < str_len (cseq_method r.2) ∧
    str_s (cseq_method r.2) + str_len (cseq_method r.2) < r.1 ∧
    0 < cseq_method_id r.2 < 2 ^ 15)).

Lemma cseq_eol_wp m t pend :
  mbase m ≤ t → t ≤ pend → pend ≤ mlim m →
  wp (cseq_eol m t pend) (λ r, t ≤ r.1 ≤ pend ∧ (r.2 = PARSE_ERROR ∨ r.2 = PARSE_OK ∧ t < r.1)).
Proof.
  intros Ht Hle He. unfold cseq_eol. do 2 wp_step. wp_step; [wp_step; cbn; split; [lia|auto]|].
  do 3 wp_step. apply (wp_mono _ (λ b, b = true → a + 1 < pend)).
  { destruct (_ && _) eqn:E; [|by wp_step].
    apply andb_prop in E as [_ E%Z.ltb_lt]. do 3 wp_step. done. }
  intros [] Hb; [wp_step; cbn; specialize (Hb eq_refl); split; [lia|right; split; [done|lia]]|].
  wp_step; wp_step; cbn; (split; [lia|auto with lia]).
Qed.

Lemma parse_cseq_wp m buf pend cb :
  mem_ok m → mbase m ≤ buf → buf ≤ pend → pend ≤ mlim m →
  wp (parse_cseq m buf pend cb) (cseq_post buf pend).
Proof.
  intros [Hb Hs _] Hbuf Hle He.
  assert (Herr : ∀ t cb, buf ≤ t ≤ pend → cseq_error cb = PARSE_ERROR →
    wp (mret (t, cb)) (cseq_post buf pend)).
  { intros t cb' Ht Hcb. apply wp_ret. split; [done|by left]. }
  unfold parse_cseq. do 2 wp_step. wp_step; [by apply Herr; [lia|]|]. do 4 wp_step.
  wp_step; [by apply Herr; [lia|]|]. wp_step; [by apply Herr; [lia|]|].
  wp_step. eapply wp_mono; [apply parse_method_wp; lia|].
  intros [[q|] id] [Hid _]; [|by apply Herr; [lia|]]. wp_step.
  eapply wp_mono; [apply cseq_eol_wp; lia|]. intros [t err]; cbn [fst snd]. intros [Ht Herr'].
  wp_step. split; [cbn; lia|]. cbn. destruct Herr' as [->|[-> Hlt]]; [by left|right].
  rewrite !to_int_small by lia. cbn in Hid. split_and!; try done; lia.
Qed.

(** ** Properties *)

(** A CSeq field ending its line is parsed exactly: number and method are
    delimited, the method is identified up to case, and the pointer returned is
    the beginning of the next field. *)
Lemma parse_cseq_field m p cb num sp meth sp2 cr rest :
  cseq_ok num sp meth sp2 rest → 0 < p →
  bytes_at m p (cseq_field num sp meth sp2 cr rest) →
  Z.of_nat (length (cseq_field num sp meth sp2 cr rest)) < 2 ^ 31 →
  parse_cseq m p (p + Z.of_nat (length (cseq_field num sp meth sp2 cr rest))) cb =
  Ok (cseq_parsed p num sp meth sp2 cr).
Proof. apply parse_cseq_at. Qed.

Definition cseq_example : list Z :=
  cseq_field (chars "4711") (chars " ") (chars "INVITE") [] true (chars "Via: x").

Lemma parse_cseq_field_witness :
  parse_cseq (block cseq_example) 4096 (4096 + Z.of_nat (length cseq_example))
    (CseqBody 0 null_str null_str 0) =
  Ok (4096 + 13, CseqBody PARSE_OK (Str 4096 4) (Str 4101 6) METHOD_INVITE).
Proof.
  apply (parse_cseq_field (block cseq_example) 4096 (CseqBody 0 null_str null_str 0)
    (chars "4711") (chars " ") (chars "INVITE") [] true (chars "Via: x")).
  - split; [by repeat constructor|by split; [repeat constructor|]|done|by repeat constructor|done].
  - lia.
  - apply block_bytes.
  - by vm_compute.
Defined.

(** On every header body in readable memory [parse_cseq] terminates without
    reading outside of it and returns a pointer into it; when it reports
    success, number and method are disjoint, in order, before the pointer
    returned, the method is not empty and has one of the known bits. *)
Lemma parse_cseq_safe m buf pend cb :
  mem_ok m → readable m buf pend → buf ≤ pend →
  wp (parse_cseq m buf pend cb) (cseq_post buf pend).
Proof. intros Hm [H1 H2] Hle. by apply parse_cseq_wp. Qed.

Lemma parse_cseq_safe_witness :
  wp (parse_cseq (block (chars "1 X")) 4096 4099 (CseqBody 0 null_str null_str 0))
    (cseq_post 4096 4099).
Proof.
  apply (parse_cseq_safe (block (chars "1 X")) 4096 4099).
  - apply mem_okb_ok. by vm_compute.
  - split; by vm_compute.
  - lia.
Defined.
