(* ===== verification/ContentLength.v ===== *)
(** * The Content-Length header field ([parse_content_length] of
    parse_content.c)

    The body [[buffer, end)] of the field includes the end of its line.  The
    [int] sum wraps around, which is what the test [number<0] relies on. *)

From stdpp Require Import strings.
From S2P Require Export ParserF.

(** One round of the first [while] (with [lead]) or of the third (without);
    [inr] leaves the loop. *)
Definition cl_space_step (lead : bool) (m : mem) (pend p : Z) : res (Z + Z) :=
  if p <? pend then
    c ← rd m p;
    if is_sp c then mret (inl (p + 1)) else
    if lead && (c =? CR) then
      c1 ← rd m (p + 1); mret (if c1 =? LF then inl (p + 1) else inr p)
    else if c =? LF then
      c1 ← rd m (p + 1); mret (if is_sp c1 then inl (p + 1) else inr p)
    else mret (inr p)
  else mret (inr p).

Definition cl_space (lead : bool) (m : mem) (p pend : Z) : res Z :=
  loop (cl_space_step lead m pend) (S (Z.to_nat (pend - p))) p.

(** [while (p<end && *p>='0' && *p<='9')], with [n] characters left before
    [end]: [p], [number] and [size], or [None] for "number overflow". *)
Fixpoint cl_number (m : mem) (p : Z) (n : nat) (number size : Z) : res (option (Z * Z * Z)) :=
  match n with
  | O => mret (Some (p, number, size))
  | S n =>
      c ← rd m p;
      if is_digit c then
        let number := to_int (to_int (to_int (number * 10) + c) - ch "0") in
        if number <? 0 then mret None else cl_number m (p + 1) n number (size + 1)
      else mret (Some (p, number, size))
  end.

(** [parse_content_length buffer end &length]: the pointer returned with
    [*length]; [None] is the null pointer, [*length] is then left alone. *)
Definition parse_content_length (m : mem) (buffer pend : Z) : res (option (Z * Z)) :=
  p ← cl_space true m buffer pend;
  if p =? pend then mret None else
  r ← cl_number m p (Z.to_nat (pend - p)) 0 0;
  match r with
  | None => mret None
  | Some (p, number, size) =>
      if (p =? pend) || (size =? 0) then mret None else
      p ← cl_space false m p pend;
      if p =? pend then mret None else
      c ← rd m p;
      if c =? LF then mret (Some (p + 1, number)) else
      if negb (c =? CR) then mret None else
      c1 ← rd m (p + 1);
      mret (if c1 =? LF then Some (p + 2, number) else None)
  end.

(** ** Specification *)

Lemma cl_number_at m p ds rest n size :
  digits ds → bytes_at m p (ds ++ rest) → head_is (λ c, negb (is_digit c)) rest →
  0 ≤ n → fold_left (λ n d, n * 10 + (d - 48)) ds n < 2 ^ 31 →
  cl_number m p (length (ds ++ rest)) n size =
  Ok (Some (p + Z.of_nat (length ds), fold_left (λ n d, n * 10 + (d - 48)) ds n,
            size + Z.of_nat (length ds))).
Proof.
  intros Hds. revert p n size. induction Hds as [|d ds Hd Hds IH]; intros p n size Hat Hrest Hn Hlt.
  - cbn [app length fold_left]. rewrite !Z.add_0_r. destruct rest as [|c rest]; [done|].
    destruct Hat as [Hc _]. cbn. rewrite Hc. cbn. apply negb_true_iff in Hrest. by rewrite Hrest.
  - destruct Hat as [Hc Hat]. cbn [app length cl_number]. rewrite Hc. cbn [mbind res_bind].
    rewrite (proj2 (is_digit_spec d) Hd). change (ch "0") with 48.
    assert (Hbig : n * 10 + (d - 48) < 2 ^ 31).
    { cbn [fold_left] in Hlt. destruct (decimal_from ds (n * 10 + (d - 48)) Hds) as [E Hpos].
      assert (0 < 10 ^ Z.of_nat (length ds)) by (apply Z.pow_pos_nonneg; lia). nia. }
    replace (to_int (to_int (to_int (n * 10) + d) - 48)) with (n * 10 + (d - 48)).
    2: { by rewrite int_digit_step, to_int_small by lia. }
    destruct (Z.ltb_spec (n * 10 + (d - 48)) 0); [lia|].
    rewrite IH; [|done|done|lia|done]. cbn [fold_left]. do 3 f_equal; [f_equal; lia|lia].
Qed.

Lemma cl_space_at (lead : bool) m p pend ws c rest :
  spaces ws → is_sp c = false → bytes_at m p (ws ++ c :: rest) →
  pend = p + Z.of_nat (length (ws ++ c :: rest)) →
  (if lead then is_crlf c = false
   else c = LF → head_is (λ c, negb (is_sp c)) rest ∧ rest ≠ []) →
  cl_space lead m p pend = Ok (p + Z.of_nat (length ws)).
Proof.
  intros Hws Hc Hat Hend Hstop. unfold cl_space.
  assert (Hfuel : (length ws < S (Z.to_nat (pend - p)))%nat) by (rewrite Hend, length_app; lia).
  revert Hfuel. generalize (S (Z.to_nat (pend - p))). intros fuel Hfuel. rewrite length_app in Hend.
  revert p fuel Hat Hend Hfuel. induction Hws as [|a ws Ha _ IH]; intros p fuel Hat Hend Hfuel;
    (destruct fuel as [|fuel]; [lia|]); destruct Hat as [Hrd Hat]; cbn [length] in *.
  - apply loop_inr. rewrite Z.add_0_r. unfold cl_space_step. rewrite Hrd.
    destruct (Z.ltb_spec p pend); [|lia]. cbn [mbind res_bind]. rewrite Hc.
    destruct lead; cbn [andb].
    + unfold is_crlf in Hstop. apply orb_false_iff in Hstop as [-> ->]. done.
    + destruct (Z.eqb_spec c LF) as [->|]; [|done].
      destruct (Hstop eq_refl) as [Hhead Hne]. destruct rest as [|c1 rest]; [done|].
      destruct Hat as [Hc1 _]. rewrite Hc1. cbn in *. apply negb_true_iff in Hhead. by rewrite Hhead.
  - rewrite (loop_inl _ fuel p (p + 1)).
    + rewrite (IH (p + 1) fuel Hat); [f_equal; lia|lia|lia].
    + unfold cl_space_step. rewrite Hrd. destruct (Z.ltb_spec p pend); [|lia]. cbn. by rewrite Ha.
Qed.

Lemma digit_not_blank d : 48 ≤ d ≤ 57 → is_blank d = false.
Proof.
  intros Hd. unfold is_blank, is_sp, is_crlf, SPC, TAB, CR, LF.
  repeat match goal with |- context [d =? ?a] => destruct (Z.eqb_spec d a); [lia|] end. done.
Qed.

Definition cl_field (ws ds sp : list Z) (cr : bool) (rest : list Z) : list Z :=
  ws ++ ds ++ sp ++ eol cr ++ rest.

Lemma parse_content_length_at m p ws ds sp cr rest :
  spaces ws → digits ds → ds ≠ [] → decimal ds < 2 ^ 31 → spaces sp →
  head_is (λ c, negb (is_sp c)) rest → rest ≠ [] →
  bytes_at m p (cl_field ws ds sp cr rest) →
  parse_content_length m p (p + Z.of_nat (length (cl_field ws ds sp cr rest))) =
  Ok (Some (p + Z.of_nat (length ws) + Z.of_nat (length ds) + Z.of_nat (length sp)
            + Z.of_nat (length (eol cr)), decimal ds)).
Proof.
  intros Hws Hds Hne Hdec Hsp Hrest Hrne Hat. unfold cl_field in *.
  set (pend := p + _). assert (Hend : pend = p + Z.of_nat (length (ws ++ ds ++ sp ++ eol cr ++ rest))) by done.
  clearbody pend. unfold parse_content_length.
  assert (0 < length ds)%nat by (destruct ds; [done|simpl; lia]).
  assert (0 < length (eol cr))%nat by (destruct cr; simpl; lia).
  rewrite (cl_space_at true m p pend ws (List.hd 0 ds) (List.tl ds ++ sp ++ eol cr ++ rest)).
  2: done.
  2-5: destruct ds as [|d ds]; [done|]; apply Forall_cons in Hds as [Hd _];
       pose proof (digit_not_blank d Hd) as Hb; unfold is_blank in Hb;
       apply orb_false_iff in Hb as [? ?]; done.
  cbn [mbind res_bind]. rewrite !length_app in Hend. set (q := p + Z.of_nat (length ws)) in *.
  destruct (Z.eqb_spec q pend); [lia|].
  apply bytes_at_app in Hat as [_ Hat].
  replace (Z.to_nat (pend - q)) with (length (ds ++ sp ++ eol cr ++ rest)).
  2: { rewrite !length_app. lia. }
  rewrite (cl_number_at m q ds (sp ++ eol cr ++ rest) 0 0); try done.
  2: { destruct Hsp as [|c sp' Hc]; [by destruct cr|]. cbn. apply negb_true_iff.
       apply not_true_is_false. intros Hd%is_digit_spec%digit_not_blank. unfold is_blank in Hd.
       by rewrite Hc in Hd. }
  cbn [mbind res_bind]. set (q2 := q + Z.of_nat (length ds)) in *.
  destruct (Z.eqb_spec q2 pend); [lia|]. destruct (Z.eqb_spec (0 + Z.of_nat (length ds)) 0); [lia|].
  cbn [orb]. apply bytes_at_app in Hat as [_ Hat].
  rewrite (cl_space_at false m q2 pend sp (List.hd 0 (eol cr)) (List.tl (eol cr) ++ rest)); try done.
  2: by destruct cr. 2: by destruct cr. 2: { destruct cr; cbn [eol List.hd List.tl app length] in *; rewrite !length_app; cbn [length]; lia. }
  2: { by destruct cr. }
  cbn [mbind res_bind]. set (q3 := q2 + Z.of_nat (length sp)) in *.
  destruct (Z.eqb_spec q3 pend); [lia|]. apply bytes_at_app in Hat as [_ Hat]. fold q q2 q3 in Hat.
  destruct cr; cbn [eol app length] in *; destruct Hat as [Hc Hat]; rewrite Hc; cbn [mbind res_bind].
  - destruct Hat as [Hc1 _]. rewrite Hc1. done.
  - done.
Qed.

(** ** Safety *)
Lemma cl_space_wp lead m p pend :
  mbase m ≤ p → p ≤ pend → pend < mlim m →
  wp (cl_space lead m p pend) (λ q, p ≤ q ≤ pend).
Proof.
  intros Hp Hle He. apply (wp_loop _ (λ q, p ≤ q ≤ pend) (λ q, pend - q)); [|lia|lia].
  intros q Hq. split; [lia|]. unfold cl_space_step. wp_step; [|by wp_step]. do 3 wp_step.
  { wp_step. lia. }
  wp_step; [do 3 wp_step|wp_step; [do 3 wp_step|by wp_step]];
    match goal with |- context [if ?b then _ else _] => destruct b end; lia.
Qed.

Lemma cl_number_wp m p n number size :
  mbase m ≤ p → p + Z.of_nat n ≤ mlim m → 0 ≤ number < 2 ^ 31 → 0 ≤ size →
  wp (cl_number m p n number size) (λ r, match r with
    | Some (q, number, size') => p ≤ q ≤ p + Z.of_nat n ∧ 0 ≤ number < 2 ^ 31 ∧ size' = size + (q - p)
    | None => True
    end).
Proof.
  revert p number size. induction n as [|n IH]; intros p number size Hp He Hn Hs; cbn [cl_number].
  { wp_step. split_and!; lia. }
  do 3 wp_step; [|wp_step; split_and!; lia].
  set (v := to_int _). destruct (Z.ltb_spec v 0); [by wp_step|].
  pose proof (to_int_range (to_int (to_int (number * 10) + c) - ch "0")) as Hr. fold v in Hr.
  eapply wp_mono; [apply (IH (p + 1)); lia|]. intros [[[q k] s]|]; [|done]. intros (H1 & H2 & H3).
  split_and!; lia.
Qed.

Lemma parse_content_length_wp m buffer pend :
  mbase m ≤ buffer → buffer ≤ pend → pend < mlim m →
  wp (parse_content_length m buffer pend) (λ r, match r with
    | Some (p, number) => buffer < p ≤ pend + 1 ∧ 0 ≤ number < 2 ^ 31
    | None => True
    end).
Proof.
  intros Hb Hle He. unfold parse_content_length. wp_step.
  wp_call cl_space_wp. intros p Hp. wp_step; [by wp_step|]. wp_step.
  wp_call cl_number_wp. intros [[[q number] size]|]; [|intros _; by wp_step].
  intros (Hq & Hnum & Hsize). wp_step; [by wp_step|].
  match goal with H : _ || _ = false |- _ => apply orb_false_iff in H as [Hqe%Z.eqb_neq Hse%Z.eqb_neq] end.
  wp_step. wp_call cl_space_wp. intros q2 Hq2. wp_step; [by wp_step|].
  do 3 wp_step; [wp_step; lia|]. wp_step; [by wp_step|]. do 3 wp_step.
  match goal with |- context [if ?b then _ else _] => destruct b end; [lia|done].
Qed.

(** ** Properties *)

(** A Content-Length body of white space, digits, spaces and an end of line
    that is not folded is read as the number that the digits denote, if that is
    below 2^31; the pointer returned is the beginning of the next line. *)
Lemma parse_content_length_value m p ws ds sp cr rest :
  spaces ws → digits ds → ds ≠ [] → decimal ds < 2 ^ 31 → spaces sp →
  head_is (λ c, negb (is_sp c)) rest → rest ≠ [] →
  bytes_at m p (cl_field ws ds sp cr rest) →
  parse_content_length m p (p + Z.of_nat (length (cl_field ws ds sp cr rest))) =
  Ok (Some (p + Z.of_nat (length ws) + Z.of_nat (length ds) + Z.of_nat (length sp)
            + Z.of_nat (length (eol cr)), decimal ds)).
Proof. apply parse_content_length_at. Qed.

Lemma parse_content_length_value_witness :
  parse_content_length (block (chars " 2147483647 " ++ crlf ++ crlf)) 4096 (4096 + 16) =
  Ok (Some (4096 + 14, 2147483647)).
Proof.
  apply (parse_content_length_value (block (chars " 2147483647 " ++ crlf ++ crlf)) 4096
    (chars " ") (chars "2147483647") (chars " ") true crlf); try done; try (by repeat constructor).
Defined.

(** When the byte after the buffer is readable too, [parse_content_length]
    terminates without reading outside of the block, and an accepted number is
    a non-negative [int]; the pointer returned may be one beyond the end of the
    buffer, because the line feed after a final carriage return is looked for
    there. *)
Lemma parse_content_length_safe m buffer pend :
  readable m buffer (pend + 1) → buffer ≤ pend →
  wp (parse_content_length m buffer pend) (λ r, match r with
    | Some (p, number) => buffer < p ≤ pend + 1 ∧ 0 ≤ number < 2 ^ 31
    | None => True
    end).
Proof. intros [H1 H2] Hle. apply parse_content_length_wp; lia. Qed.

Lemma parse_content_length_safe_witness :
  wp (parse_content_length (block (chars "5" ++ crlf)) 4096 4098) (λ r, match r with
    | Some (p, number) => 4096 < p ≤ 4098 + 1 ∧ 0 ≤ number < 2 ^ 31
    | None => True
    end).
Proof.
  apply (parse_content_length_safe (block (chars "5" ++ crlf)) 4096 4098); [|lia].
  split; by vm_compute.
Defined.

(** The overflow test [number<0] misses numbers that wrap around to a
    non-negative [int]: 4294967297 is accepted, as the length 1. *)
Lemma parse_content_length_overflow :
  decimal (chars "4294967297") = 2 ^ 32 + 1 ∧
  parse_content_length (block (chars "4294967297" ++ crlf ++ crlf)) 4096 (4096 + 14) =
  Ok (Some (4096 + 12, 1)).
Proof. by split; vm_compute. Qed.
