(* ===== verification/UriData.v ===== *)
(** * Parsed SIP URIs: [struct sip_uri] and the scheme names (msg_parser.h,
    parse_uri.h, the beginning of parse_uri.c) *)

From stdpp Require Import strings.
From S2P Require Export Memory.

(** [enum _uri_type] *)
Inductive uri_type :=
| ERROR_URI_T | SIP_URI_T | SIPS_URI_T | TEL_URI_T | TELS_URI_T
| URN_SERVICE_URI_T | URN_NENA_SERVICE_URI_T.

#[export] Instance uri_type_eq_dec : EqDecision uri_type.
Proof. solve_decision. Defined.

(** The members of type [str] of [struct sip_uri]. *)
Inductive uri_field :=
| F_user | F_passwd | F_host | F_port | F_params | F_headers
| F_transport | F_ttl | F_user_param | F_maddr | F_method | F_lr | F_r2 | F_gr
| F_pn_provider | F_pn_prid | F_pn_param | F_pn_purr
| F_transport_val | F_ttl_val | F_user_param_val | F_maddr_val | F_method_val
| F_lr_val | F_r2_val | F_gr_val
| F_pn_provider_val | F_pn_prid_val | F_pn_param_val | F_pn_purr_val.

#[export] Instance uri_field_eq_dec : EqDecision uri_field.
Proof. solve_decision. Defined.

Definition URI_MAX_U_PARAMS : Z := 10.

(** [struct sip_uri]: the strings as a function of the member. *)
Record sip_uri := SipUri {
  u_str : uri_field → str;
  u_port_no : Z;
  u_proto : Z;
  u_type : uri_type;
  u_name : list str;
  u_val : list str;
  u_params_no : Z;
}.

(** [memset(uri, 0, sizeof(struct sip_uri))] *)
Definition uri_zero : sip_uri :=
  SipUri (λ _, null_str) 0 0 ERROR_URI_T (replicate 10 null_str) (replicate 10 null_str) 0.

(** [uri->f=x;] and the assignments to the other members. *)
Definition set_str (f : uri_field) (x : str) (u : sip_uri) : sip_uri :=
  SipUri (λ g, if decide (g = f) then x else u_str u g) (u_port_no u) (u_proto u) (u_type u)
    (u_name u) (u_val u) (u_params_no u).

Definition set_uri_port_no (n : Z) (u : sip_uri) : sip_uri :=
  SipUri (u_str u) (to_ushort n) (u_proto u) (u_type u) (u_name u) (u_val u) (u_params_no u).

Definition set_uri_proto (n : Z) (u : sip_uri) : sip_uri :=
  SipUri (u_str u) (u_port_no u) n (u_type u) (u_name u) (u_val u) (u_params_no u).

Definition set_uri_type (t : uri_type) (u : sip_uri) : sip_uri :=
  SipUri (u_str u) (u_port_no u) (u_proto u) t (u_name u) (u_val u) (u_params_no u).

Definition set_u_name (i : nat) (x : str) (u : sip_uri) : sip_uri :=
  SipUri (u_str u) (u_port_no u) (u_proto u) (u_type u) (<[i := x]> (u_name u)) (u_val u)
    (u_params_no u).

Definition set_u_val (i : nat) (x : str) (u : sip_uri) : sip_uri :=
  SipUri (u_str u) (u_port_no u) (u_proto u) (u_type u) (u_name u) (<[i := x]> (u_val u))
    (u_params_no u).

Definition set_u_params_no (n : Z) (u : sip_uri) : sip_uri :=
  SipUri (u_str u) (u_port_no u) (u_proto u) (u_type u) (u_name u) (u_val u) (to_ushort n).

(** [enum sip_protos] (ip_addr.h) *)
Definition PROTO_NONE : Z := 0.
Definition PROTO_UDP : Z := 1.
Definition PROTO_TCP : Z := 2.
Definition PROTO_TLS : Z := 3.
Definition PROTO_SCTP : Z := 4.
Definition PROTO_WS : Z := 5.
Definition PROTO_WSS : Z := 6.
Definition PROTO_OTHER : Z := 11.

(** ** Schemes *)
Definition SIP_SCH : Z := 0x3a706973.
Definition SIPS_SCH : Z := 0x73706973.
Definition TEL_SCH : Z := 0x3a6c6574.
Definition URN_SERVICE_SCH : Z := 0x3a6e7275.
Definition URN_SERVICE_STR : string := ":service:".
Definition URN_NENA_SERVICE_STR : string := ":nena:service:".

(** [scheme=buf[0]+(buf[1]<<8)+(buf[2]<<16)+(buf[3]<<24); scheme|=0x20202020;] *)
Definition scheme_of (b0 b1 b2 b3 : Z) : Z :=
  Z.lor (to_uint (b0 + Z.shiftl b1 8 + Z.shiftl b2 16 + Z.shiftl b3 24)) 0x20202020.

Definition uri_scheme (m : mem) (buf : Z) : res Z :=
  b0 ← rd m buf; b1 ← rd m (buf + 1); b2 ← rd m (buf + 2); b3 ← rd m (buf + 3);
  mret (scheme_of b0 b1 b2 b3).

Definition uri_type_name (t : uri_type) : string :=
  match t with
  | ERROR_URI_T => ""
  | SIP_URI_T => "sip"
  | SIPS_URI_T => "sips"
  | TEL_URI_T => "tel"
  | TELS_URI_T => "tels"
  | URN_SERVICE_URI_T => "urn:service"
  | URN_NENA_SERVICE_URI_T => "urn:nena:service"
  end.

(** [uri_type2str]: the bytes it writes at [result]; the pointer it returns is
    just beyond them, [None] is the null pointer. *)
Definition uri_type2str (t : uri_type) : option (list Z) :=
  match t with
  | ERROR_URI_T => None
  | _ => Some (chars (uri_type_name t))
  end.

Definition uri_typestrlen (t : uri_type) : Z := Z.of_nat (String.length (uri_type_name t)).

Definition str2uri_type (m : mem) (buf : Z) : res uri_type :=
  scheme ← uri_scheme m buf;
  if scheme =? SIP_SCH then mret SIP_URI_T
  else if scheme =? SIPS_SCH then
    b4 ← rd m (buf + 4); mret (if b4 =? ch ":" then SIPS_URI_T else ERROR_URI_T)
  else if scheme =? TEL_SCH then mret TEL_URI_T
  else if scheme =? URN_SERVICE_SCH then
    service ← memcmp_lit m (buf + 3) (chars URN_SERVICE_STR);
    if service : bool then mret URN_SERVICE_URI_T else
    nena ← memcmp_lit m (buf + 3) (chars URN_NENA_SERVICE_STR);
    mret (if nena : bool then URN_NENA_SERVICE_URI_T else ERROR_URI_T)
  else mret ERROR_URI_T.
