(* ===== verification/Uri.v ===== *)
(** * The URI parser ([parse_uri] of parse_uri.c): the state machine *)

From stdpp Require Import strings.
From S2P Require Export UriData.

(** [enum states] *)
Inductive ustate :=
| URI_INIT | URI_USER | URI_PASSWORD | URI_PASSWORD_ALPHA | URI_HOST | URI_HOST_P
| URI_HOST6_P | URI_HOST6_END | URI_PORT | URI_PARAM | URI_PARAM_P | URI_PARAM_VAL_P
| URI_VAL_P | URI_HEADERS
| PT_T | PT_R | PT_A | PT_N | PT_S | PT_P | PT_O | PT_R2 | PT_T2 | PT_eq
| PTTL_T2 | PTTL_L | PTTL_eq
| PU_U | PU_S | PU_E | PU_R | PU_eq
| PM_M | PM_E | PM_T | PM_H | PM_O | PM_D | PM_eq
| PMA_A | PMA_D | PMA_D2 | PMA_R | PMA_eq
| PLR_L | PLR_R_FIN | PLR_eq
| PG_G | PG_G_FIN | PG_eq
| PR2_R | PR2_2_FIN | PR2_eq
| VU_U | VU_D | VU_P_FIN
| VT_T | VT_C | VT_P_FIN
| VTLS_L | VTLS_S_FIN
| VS_S | VS_C | VS_T | VS_P_FIN
| VW_W | VW_S | VW_S_FIN | VWS_S_FIN
| PN_P | PN_N | PN_dash | PN_P2 | PN_PR
| PN1_O | PN1_V | PN1_I | PN1_D | PN1_E | PN1_FIN | PN1_eq
| PN2_I | PN2_D | PN2_eq
| PN3_A | PN3_R | PN3_A2 | PN3_M | PN3_eq
| PN4_U | PN4_R | PN4_R2 | PN4_eq.

#[export] Instance ustate_eq_dec : EqDecision ustate.
Proof. solve_decision. Defined.

(** The local variables, and [*uri].  A null pointer [s], [b], [v], [pass] is
    [0]; [param] and [param_val] point to a member of [*uri]. *)
Record vars := Vars {
  x_s : Z;
  x_b : Z;
  x_v : Z;
  x_pass : Z;
  x_port_no : Z;
  x_found_user : bool;
  x_error_headers : bool;
  x_param : option uri_field;
  x_param_val : option uri_field;
  x_uri : sip_uri;
}.

Definition set_s (s : Z) (x : vars) : vars :=
  Vars s (x_b x) (x_v x) (x_pass x) (x_port_no x) (x_found_user x) (x_error_headers x)
    (x_param x) (x_param_val x) (x_uri x).
Definition set_b (b : Z) (x : vars) : vars :=
  Vars (x_s x) b (x_v x) (x_pass x) (x_port_no x) (x_found_user x) (x_error_headers x)
    (x_param x) (x_param_val x) (x_uri x).
Definition set_v (v : Z) (x : vars) : vars :=
  Vars (x_s x) (x_b x) v (x_pass x) (x_port_no x) (x_found_user x) (x_error_headers x)
    (x_param x) (x_param_val x) (x_uri x).
Definition set_pass (p : Z) (x : vars) : vars :=
  Vars (x_s x) (x_b x) (x_v x) p (x_port_no x) (x_found_user x) (x_error_headers x)
    (x_param x) (x_param_val x) (x_uri x).
Definition set_port_no (n : Z) (x : vars) : vars :=
  Vars (x_s x) (x_b x) (x_v x) (x_pass x) n (x_found_user x) (x_error_headers x)
    (x_param x) (x_param_val x) (x_uri x).
Definition set_found_user (f : bool) (x : vars) : vars :=
  Vars (x_s x) (x_b x) (x_v x) (x_pass x) (x_port_no x) f (x_error_headers x)
    (x_param x) (x_param_val x) (x_uri x).
Definition set_error_headers (e : bool) (x : vars) : vars :=
  Vars (x_s x) (x_b x) (x_v x) (x_pass x) (x_port_no x) (x_found_user x) e
    (x_param x) (x_param_val x) (x_uri x).
Definition set_param (f : uri_field) (x : vars) : vars :=
  Vars (x_s x) (x_b x) (x_v x) (x_pass x) (x_port_no x) (x_found_user x) (x_error_headers x)
    (Some f) (x_param_val x) (x_uri x).
Definition set_param_val (f : uri_field) (x : vars) : vars :=
  Vars (x_s x) (x_b x) (x_v x) (x_pass x) (x_port_no x) (x_found_user x) (x_error_headers x)
    (x_param x) (Some f) (x_uri x).
Definition on_uri (f : sip_uri → sip_uri) (x : vars) : vars :=
  Vars (x_s x) (x_b x) (x_v x) (x_pass x) (x_port_no x) (x_found_user x) (x_error_headers x)
    (x_param x) (x_param_val x) (f (x_uri x)).

(** [uri->f.s=a; uri->f.len=p-a;] *)
Definition put (f : uri_field) (a p : Z) (x : vars) : vars := on_uri (set_str f (slice a p)) x.

(** The labels that end the function. *)
Inductive uri_error :=
| error_too_short | error_bad_char | error_bad_host | error_bad_port | error_bad_uri
| error_headers | error_bug.

(** The outcome of a [case]: the next state, a [goto] to an error label, or an
    assignment through the null pointer [param] or [param_val]. *)
Inductive outcome :=
| Next (st : ustate) (x : vars)
| Err (e : uri_error) (x : vars)
| Null.

(** ** The macros of [parse_uri] *)
Definition case_port (c : Z) (x : vars) : vars :=
  set_port_no (to_int (to_int (to_int (x_port_no x * 10) + c) - ch "0")) x.

Definition still_at_user (p : Z) (x : vars) : outcome :=
  if x_found_user x then Err error_bad_char x else
  let user_s := str_s (u_str (x_uri x) F_host) in
  let pass := x_pass x in
  let user := Str user_s (to_int (if negb (pass =? 0) then pass - user_s else p - user_s)) in
  let password := slice (pass + 1) p in
  let backup := u_type (x_uri x) in
  let uri := set_str F_user user (set_uri_type backup uri_zero) in
  let uri := if negb (pass =? 0) then set_str F_passwd password uri else uri in
  Next URI_HOST
    (set_error_headers false (set_found_user true (set_s (p + 1) (on_uri (λ _, uri) x)))).

Definition check_host_end (p c : Z) (x : vars) (other : outcome) : outcome :=
  let host := put F_host (x_s x) p x in
  if c =? ch ":" then Next URI_PORT (set_s (p + 1) host)
  else if c =? ch ";" then Next URI_PARAM (set_s (p + 1) host)
  else if c =? ch "?" then Next URI_HEADERS (set_s (p + 1) host)
  else if one_of c "&@" then Err error_bad_char x
  else other.

(** [None] for a null [param] or [param_val]. *)
Definition param_set (t_start v_start p : Z) (x : vars) : option vars :=
  match x_param x, x_param_val x with
  | Some f, Some g => Some (put g v_start p (put f t_start p x))
  | _, _ => None
  end.

Definition u_param_set (t_start v_start p : Z) (x : vars) : vars :=
  on_uri (λ uri,
    if u_params_no uri <? URI_MAX_U_PARAMS then
      let i := Z.to_nat (u_params_no uri) in
      let uri :=
        if t_start <? v_start then
          let uri := set_u_name i (Str t_start (to_int (v_start - t_start - 1))) uri in
          if v_start <? p then set_u_val i (slice v_start p) uri else uri
        else set_u_name i (slice t_start p) uri in
      set_u_params_no (u_params_no uri + 1) uri
    else uri) x.

(** "no user, pass cannot contain ';'" *)
Definition drop_pass (x : vars) : vars :=
  if negb (x_pass x =? 0) then set_pass 0 (set_found_user true x) else x.

Definition semicolon_case (x : vars) : vars := drop_pass x.

Definition question_case (p : Z) (x : vars) : vars :=
  drop_pass (set_s (p + 1) (put F_params (x_s x) p x)).

Definition colon_case (p : Z) (x : vars) : vars :=
  if x_found_user x then x
  else if negb (x_pass x =? 0) then set_pass 0 (set_found_user true x)
  else set_pass p x.

Definition param_common_cases (p c : Z) (x : vars) (other : outcome) : outcome :=
  if c =? ch "@" then still_at_user p x
  else if c =? ch ";" then Next URI_PARAM (semicolon_case x)
  else if c =? ch "?" then Next URI_HEADERS (question_case p x)
  else if c =? ch ":" then Next URI_PARAM_P (colon_case p x)
  else other.

Definition u_param_common_cases (p c : Z) (x : vars) (other : outcome) : outcome :=
  if c =? ch "@" then still_at_user p x
  else if c =? ch ";" then Next URI_PARAM (u_param_set (x_b x) (x_v x) p (semicolon_case x))
  else if c =? ch "?" then Next URI_HEADERS (u_param_set (x_b x) (x_v x) p (question_case p x))
  else if c =? ch ":" then Next URI_PARAM_P (colon_case p x)
  else other.

(** The state after [param_set(b, v)]. *)
Definition after_param_set (st : ustate) (p : Z) (x : vars) : outcome :=
  match param_set (x_b x) (x_v x) p x with Some x => Next st x | None => Null end.

Definition value_common_cases (p c : Z) (x : vars) (other : outcome) : outcome :=
  if c =? ch "@" then still_at_user p x
  else if c =? ch ";" then after_param_set URI_PARAM p (semicolon_case x)
  else if c =? ch "?" then after_param_set URI_HEADERS p (question_case p x)
  else if c =? ch ":" then Next URI_VAL_P (colon_case p x)
  else other.

Section switches.
Context (p c : Z) (x : vars).

Definition param_switch (c1 : string) (new_state : ustate) : outcome :=
if one_of c c1 then Next new_state x
else u_param_common_cases p c x (Next URI_PARAM_P x).

Definition param_switch1 (c1 : string) (new_state : ustate) : outcome :=
if one_of c c1 then Next new_state x
else param_common_cases p c x (Next URI_PARAM_P x).

Definition param_xswitch1 (c1 : string) (new_state : ustate) : outcome :=
if one_of c c1 then Next new_state x else Err error_bad_char x.

Definition param_switch_big (c1 d1 : string) (new_state_c new_state_d : ustate) : outcome :=
if one_of c c1 then Next new_state_c x
else if one_of c d1 then Next new_state_d x
else u_param_common_cases p c x (Next URI_PARAM_P x).

Definition param_switch_bigger (c1 d1 e1 : string)
  (new_state_c new_state_d new_state_e : ustate) : outcome :=
if one_of c c1 then Next new_state_c x
else if one_of c d1 then Next new_state_d x
else if one_of c e1 then Next new_state_e x
else u_param_common_cases p c x (Next URI_PARAM_P x).

Definition value_switch (c1 : string) (new_state : ustate) : outcome :=
if one_of c c1 then Next new_state x
else value_common_cases p c x (Next URI_VAL_P x).

Definition value_switch_big (c1 d1 : string) (new_state_c new_state_d : ustate) : outcome :=
if one_of c c1 then Next new_state_c x
else if one_of c d1 then Next new_state_d x
else value_common_cases p c x (Next URI_VAL_P x).

(** [set_proto] after [param_set]. *)
Definition proto_param_set (st : ustate) (proto_no : Z) (y : vars) : outcome :=
match after_param_set st p y with
| Next st y => Next st (on_uri (set_uri_proto proto_no) y)
| o => o
end.

Definition transport_fin (proto_no : Z) : outcome :=
if c =? ch "@" then still_at_user p x
else if c =? ch ";" then proto_param_set URI_PARAM proto_no (semicolon_case x)
else if c =? ch "?" then proto_param_set URI_HEADERS proto_no (question_case p x)
else if c =? ch ":" then Next URI_VAL_P (colon_case p x)
else Next URI_VAL_P x.
End switches.

(** ** One iteration of [for(;p<end;p++) switch(state)], by groups of states *)
Section step.
Context (p c : Z) (x : vars).

(** [uri->f.s=s; uri->f.len=p-s; state=st; s=p+1;] *)
Definition take_field (f : uri_field) (st : ustate) : outcome :=
Next st (set_s (p + 1) (put f (x_s x) p x)).

(** "upps this is the port": the user read so far is in fact the host. *)
Definition user_is_host (y : vars) : vars :=
on_uri (λ uri, set_str F_user null_str (set_str F_host (u_str uri F_user) uri)) y.

Definition port_not_password (st : ustate) : outcome :=
let y := put F_port (x_s x) p x in
let y := user_is_host (on_uri (set_uri_port_no (x_port_no x)) y) in
Next st (set_s (p + 1) (set_found_user true y)).

Definition step_user (st : ustate) : outcome :=
match st with
| URI_INIT =>
    if c =? ch "[" then Next URI_HOST6_P (set_s p x)
    else if one_of c "]:@" then Err error_bad_char x
    else Next URI_USER x
| URI_USER =>
    if c =? ch "@" then
      Next URI_HOST (set_s (p + 1) (set_found_user true (put F_user (x_s x) p x)))
    else if c =? ch ":" then take_field F_user URI_PASSWORD
    else if c =? ch ";" then take_field F_host URI_PARAM
    else if c =? ch "?" then take_field F_host URI_HEADERS
    else if one_of c "[]" then Err error_bad_char x
    else Next st x
| URI_PASSWORD =>
    if c =? ch "@" then
      Next URI_HOST (set_s (p + 1) (set_found_user true
        (set_port_no 0 (put F_passwd (x_s x) p x))))
    else if c =? ch ";" then port_not_password URI_PARAM
    else if c =? ch "?" then port_not_password URI_HEADERS
    else if is_digit c then Next st (case_port c x)
    else if one_of c "[]:" then Err error_bad_char x
    else Next URI_PASSWORD_ALPHA (set_port_no 0 x)
| URI_PASSWORD_ALPHA =>
    if c =? ch "@" then
      Next URI_HOST (set_s (p + 1) (set_found_user true (put F_passwd (x_s x) p x)))
    else if one_of c ";?" then Err error_bad_port x
    else if one_of c "[]:" then Err error_bad_char x
    else Next st x
| _ => Err error_bug x
end.

Definition step_host (st : ustate) : outcome :=
match st with
| URI_HOST =>
    if c =? ch "[" then Next URI_HOST6_P x
    else if one_of c ":;?&@" then Err error_bad_host x
    else Next URI_HOST_P x
| URI_HOST_P => check_host_end p c x (Next st x)
| URI_HOST6_END => check_host_end p c x (Err error_bad_host x)
| URI_HOST6_P =>
    if c =? ch "]" then Next URI_HOST6_END x
    else if one_of c "[&@;?" then Err error_bad_host x
    else Next st x
| URI_PORT =>
    let port := on_uri (set_uri_port_no (x_port_no x)) (put F_port (x_s x) p x) in
    if c =? ch ";" then Next URI_PARAM (set_s (p + 1) port)
    else if c =? ch "?" then Next URI_HEADERS (set_s (p + 1) port)
    else if is_digit c then Next st (case_port c x)
    else Err error_bad_port x
| _ => Err error_bug x
end.

(** The beginning of a parameter, and parameters that are not recognised. *)
Definition step_param (st : ustate) : outcome :=
match st with
| URI_PARAM =>
    param_common_cases p c x
      (let x := set_b p x in
       if one_of c "tT" then Next PT_T x
       else if one_of c "uU" then Next PU_U x
       else if one_of c "mM" then Next PM_M x
       else if one_of c "lL" then Next PLR_L x
       else if one_of c "gG" then Next PG_G x
       else if one_of c "rR" then Next PR2_R x
       else if one_of c "pP" then Next PN_P x
       else Next URI_PARAM_P x)
| URI_PARAM_P =>
    u_param_common_cases p c x
      (if c =? ch "=" then Next URI_PARAM_VAL_P (set_v (p + 1) x) else Next st x)
| URI_PARAM_VAL_P => u_param_common_cases p c x (Next st x)
| _ => Err error_bug x
end.

(** The beginning of the value of a recognised parameter. *)
Definition value_start (f g : uri_field) : outcome :=
let x := set_param_val g (set_param f x) in
param_common_cases p c x (Next URI_VAL_P (set_v p x)).

Definition step_transport (st : ustate) : outcome :=
match st with
| PT_T => param_switch_big p c x "rR" "tT" PT_R PTTL_T2
| PT_R => param_switch p c x "aA" PT_A
| PT_A => param_switch p c x "nN" PT_N
| PT_N => param_switch p c x "sS" PT_S
| PT_S => param_switch p c x "pP" PT_P
| PT_P => param_switch p c x "oO" PT_O
| PT_O => param_switch p c x "rR" PT_R2
| PT_R2 => param_switch p c x "tT" PT_T2
| PT_T2 => param_switch1 p c x "=" PT_eq
| PT_eq =>
    let x := on_uri (set_uri_proto PROTO_OTHER)
               (set_param_val F_transport_val (set_param F_transport x)) in
    param_common_cases p c x
      (let x := set_v p x in
       if one_of c "uU" then Next VU_U x
       else if one_of c "tT" then Next VT_T x
       else if one_of c "sS" then Next VS_S x
       else if one_of c "wW" then Next VW_W x
       else Next URI_VAL_P x)
| _ => Err error_bug x
end.

Definition step_value (st : ustate) : outcome :=
match st with
| URI_VAL_P => value_common_cases p c x (Next st x)
| VU_U => value_switch p c x "dD" VU_D
| VU_D => value_switch p c x "pP" VU_P_FIN
| VU_P_FIN => transport_fin p c x PROTO_UDP
| VT_T => value_switch_big p c x "cC" "lL" VT_C VTLS_L
| VT_C => value_switch p c x "pP" VT_P_FIN
| VT_P_FIN => transport_fin p c x PROTO_TCP
| VTLS_L => value_switch p c x "sS" VTLS_S_FIN
| VTLS_S_FIN => transport_fin p c x PROTO_TLS
| VS_S => value_switch p c x "cC" VS_C
| VS_C => value_switch p c x "tT" VS_T
| VS_T => value_switch p c x "pP" VS_P_FIN
| VS_P_FIN => transport_fin p c x PROTO_SCTP
| VW_W => value_switch p c x "sS" VW_S
| VW_S => if one_of c "sS" then Next VWS_S_FIN x else transport_fin p c x PROTO_WS
| VW_S_FIN => transport_fin p c x PROTO_WS
| VWS_S_FIN => transport_fin p c x PROTO_WSS
| _ => Err error_bug x
end.

(** ttl, user, method, maddr *)
Definition step_names (st : ustate) : outcome :=
match st with
| PTTL_T2 => param_switch p c x "lL" PTTL_L
| PTTL_L => param_switch1 p c x "=" PTTL_eq
| PTTL_eq => value_start F_ttl F_ttl_val
| PU_U => param_switch p c x "sS" PU_S
| PU_S => param_switch p c x "eE" PU_E
| PU_E => param_switch p c x "rR" PU_R
| PU_R => param_switch1 p c x "=" PU_eq
| PU_eq => value_start F_user_param F_user_param_val
| PM_M => param_switch_big p c x "eE" "aA" PM_E PMA_A
| PM_E => param_switch p c x "tT" PM_T
| PM_T => param_switch p c x "hH" PM_H
| PM_H => param_switch p c x "oO" PM_O
| PM_O => param_switch p c x "dD" PM_D
| PM_D => param_switch1 p c x "=" PM_eq
| PM_eq => value_start F_method F_method_val
| PMA_A => param_switch p c x "dD" PMA_D
| PMA_D => param_switch p c x "dD" PMA_D2
| PMA_D2 => param_switch p c x "rR" PMA_R
| PMA_R => param_switch1 p c x "=" PMA_eq
| PMA_eq => value_start F_maddr F_maddr_val
| _ => Err error_bug x
end.

(** A parameter that may stand without a value: [PLR_R_FIN], [PR2_2_FIN],
  [PG_G_FIN], [PN1_FIN]. *)
Definition flag_fin (f : uri_field) (eq : ustate) : outcome :=
if c =? ch "@" then still_at_user p x
else if c =? ch "=" then Next eq x
else if c =? ch ";" then Next URI_PARAM (put f (x_b x) p (semicolon_case x))
else if c =? ch "?" then Next URI_HEADERS (put f (x_b x) p (question_case p x))
else if c =? ch ":" then Next URI_PARAM_P (colon_case p x)
else Next URI_PARAM_P x.

(** lr, r2, gr *)
Definition step_flags (st : ustate) : outcome :=
match st with
| PLR_L => param_switch p c x "rR" PLR_R_FIN
| PLR_R_FIN => flag_fin F_lr PLR_eq
| PLR_eq => value_start F_lr F_lr_val
| PR2_R => param_switch1 p c x "2" PR2_2_FIN
| PR2_2_FIN => flag_fin F_r2 PR2_eq
| PR2_eq => value_start F_r2 F_r2_val
| PG_G => param_switch p c x "rR" PG_G_FIN
| PG_G_FIN => flag_fin F_gr PG_eq
| PG_eq => value_start F_gr F_gr_val
| _ => Err error_bug x
end.
End step.

(** pn-provider, pn-prid, pn-param, pn-purr *)
Definition step_pn (p c : Z) (x : vars) (st : ustate) : outcome :=
  match st with
  | PN_P => param_switch p c x "nN" PN_N
  | PN_N => param_switch1 p c x "-" PN_dash
  | PN_dash => param_switch p c x "pP" PN_P2
  | PN_P2 => param_switch_bigger p c x "rR" "aA" "uU" PN_PR PN3_A PN4_U
  | PN_PR => param_switch_big p c x "oO" "iI" PN1_O PN2_I
  | PN1_O => param_switch p c x "vV" PN1_V
  | PN1_V => param_switch p c x "iI" PN1_I
  | PN1_I => param_switch p c x "dD" PN1_D
  | PN1_D => param_switch p c x "eE" PN1_E
  | PN1_E => param_switch p c x "rR" PN1_FIN
  | PN1_FIN => flag_fin p c (set_param F_pn_provider x) F_pn_provider PN1_eq
  | PN1_eq => value_start p c x F_pn_provider F_pn_provider_val
  | PN2_I => param_switch p c x "dD" PN2_D
  | PN2_D => param_xswitch1 c x "=" PN2_eq
  | PN2_eq => value_start p c x F_pn_prid F_pn_prid_val
  | PN3_A => param_switch p c x "rR" PN3_R
  | PN3_R => param_switch p c x "aA" PN3_A2
  | PN3_A2 => param_switch p c x "mM" PN3_M
  | PN3_M => param_xswitch1 c x "=" PN3_eq
  | PN3_eq => value_start p c x F_pn_param F_pn_param_val
  | PN4_U => param_switch p c x "rR" PN4_R
  | PN4_R => param_switch p c x "rR" PN4_R2
  | PN4_R2 => param_xswitch1 c x "=" PN4_eq
  | PN4_eq => value_start p c x F_pn_purr F_pn_purr_val
  | _ => Err error_bug x
  end.

Definition step_headers (p c : Z) (x : vars) : outcome :=
  if c =? ch "@" then still_at_user p x
  else if c =? ch ";" then
    if x_found_user x then Err error_bad_char x
    else
      let x := set_error_headers true x in
      if negb (x_pass x =? 0) then Err error_headers x else Next URI_HEADERS x
  else if c =? ch ":" then Next URI_HEADERS (colon_case p x)
  else if c =? ch "?" then Next URI_HEADERS (drop_pass x)
  else Next URI_HEADERS x.

Definition uri_step (p c : Z) (st : ustate) (x : vars) : outcome :=
  match st with
  | URI_INIT | URI_USER | URI_PASSWORD | URI_PASSWORD_ALPHA => step_user p c x st
  | URI_HOST | URI_HOST_P | URI_HOST6_P | URI_HOST6_END | URI_PORT => step_host p c x st
  | URI_PARAM | URI_PARAM_P | URI_PARAM_VAL_P => step_param p c x st
  | PT_T | PT_R | PT_A | PT_N | PT_S | PT_P | PT_O | PT_R2 | PT_T2 | PT_eq =>
      step_transport p c x st
  | URI_VAL_P | VU_U | VU_D | VU_P_FIN | VT_T | VT_C | VT_P_FIN | VTLS_L | VTLS_S_FIN
  | VS_S | VS_C | VS_T | VS_P_FIN | VW_W | VW_S | VW_S_FIN | VWS_S_FIN => step_value p c x st
  | PTTL_T2 | PTTL_L | PTTL_eq | PU_U | PU_S | PU_E | PU_R | PU_eq
  | PM_M | PM_E | PM_T | PM_H | PM_O | PM_D | PM_eq
  | PMA_A | PMA_D | PMA_D2 | PMA_R | PMA_eq => step_names p c x st
  | PLR_L | PLR_R_FIN | PLR_eq | PR2_R | PR2_2_FIN | PR2_eq | PG_G | PG_G_FIN | PG_eq =>
      step_flags p c x st
  | URI_HEADERS => step_headers p c x
  | _ => step_pn p c x st
  end.

(** [n] characters are left before [end]. *)
Fixpoint uri_loop (m : mem) (p : Z) (n : nat) (st : ustate) (x : vars) : res outcome :=
  match n with
  | O => mret (Next st x)
  | S n =>
      c ← rd m p;
      match uri_step p c st x with
      | Next st x => uri_loop m (p + 1) n st x
      | o => mret o
      end
  end.

(** ** "end of uri": the switch after the loop, at [p = end] *)
Section finish.
Context (p : Z) (x : vars).

Definition end_params : vars := put F_params (x_s x) p x.

Definition end_flag (f : uri_field) : outcome := Next URI_PARAM (put f (x_b x) p end_params).

Definition end_value : outcome := after_param_set URI_VAL_P p end_params.

Definition end_transport (proto_no : Z) : outcome :=
match end_value with
| Next st x => Next st (on_uri (set_uri_proto proto_no) x)
| o => o
end.

(** The states that are not inside of the parameters. *)
Definition end_main (st : ustate) : outcome :=
match st with
| URI_INIT => Err error_too_short x
| URI_USER =>
    if x_found_user x then Err error_bad_uri x else Next URI_HOST (put F_host (x_s x) p x)
| URI_PASSWORD =>
    if x_found_user x then Err error_bad_port x
    else Next st (user_is_host (on_uri (set_uri_port_no (x_port_no x))
                    (put F_port (x_s x) p x)))
| URI_PASSWORD_ALPHA => Err error_bad_port x
| URI_HOST_P | URI_HOST6_END => Next st (put F_host (x_s x) p x)
| URI_HOST | URI_HOST6_P => Err error_bad_host x
| URI_PORT => Next st (on_uri (set_uri_port_no (x_port_no x)) (put F_port (x_s x) p x))
| URI_HEADERS =>
    let x := put F_headers (x_s x) p x in
    if x_error_headers x then Err error_headers x else Next st x
| _ => Err error_bug x
end.

(** The states inside of the parameters. *)
Definition end_param (st : ustate) : outcome :=
match st with
| URI_PARAM | URI_PARAM_P | URI_PARAM_VAL_P =>
    let x := u_param_set (x_b x) (x_v x) p x in Next st (put F_params (x_s x) p x)
| PT_T | PT_R | PT_A | PT_N | PT_S | PT_P | PT_O | PT_R2 | PT_T2 | PT_eq
| PTTL_T2 | PTTL_L | PTTL_eq | PU_U | PU_S | PU_E | PU_R | PU_eq
| PM_M | PM_E | PM_T | PM_H | PM_O | PM_D | PM_eq | PLR_L | PR2_R | PG_G =>
    Next st end_params
| PLR_R_FIN | PLR_eq => end_flag F_lr
| PR2_2_FIN | PR2_eq => end_flag F_r2
| PG_G_FIN | PG_eq => end_flag F_gr
| PN1_FIN | PN1_eq => end_flag F_pn_provider
| URI_VAL_P | VU_U | VU_D | VT_T | VT_C | VTLS_L | VS_S | VS_C | VW_W | VS_T => end_value
| VU_P_FIN => end_transport PROTO_UDP
| VT_P_FIN => end_transport PROTO_TCP
| VTLS_S_FIN => end_transport PROTO_TLS
| VS_P_FIN => end_transport PROTO_SCTP
| VW_S | VW_S_FIN => end_transport PROTO_WS
| VWS_S_FIN => end_transport PROTO_WSS
| PN_P | PN_N | PN_dash | PN_P2 | PN_PR | PN1_O | PN1_V | PN1_I | PN1_D | PN1_E
| PN2_I | PN3_A | PN3_R | PN3_A2 | PN4_U | PN4_R => Next st end_params
| PN2_D | PN2_eq | PN3_M | PN3_eq | PN4_R2 | PN4_eq => Err error_bad_uri x
| _ => Err error_bug x
end.

Definition uri_end (st : ustate) : outcome :=
match st with
| URI_INIT | URI_USER | URI_PASSWORD | URI_PASSWORD_ALPHA | URI_HOST | URI_HOST_P
| URI_HOST6_P | URI_HOST6_END | URI_PORT | URI_HEADERS => end_main st
| _ => end_param st
end.
End finish.

(** The address of the literal [""]: not in any block. *)
Definition empty_literal : Z := -1.
Definition empty_str : str := Str empty_literal 0.

(** The last switch, on [uri->type]; [None] is [goto error_bad_uri]. *)
Definition uri_fix (u : sip_uri) : option sip_uri :=
  match u_type u with
  | TEL_URI_T | TELS_URI_T =>
      Some (set_str F_host empty_str (set_str F_user (u_str u F_host) u))
  | SIP_URI_T | SIPS_URI_T | URN_SERVICE_URI_T => Some u
  | URN_NENA_SERVICE_URI_T => Some (set_str F_host empty_str (set_str F_user null_str u))
  | ERROR_URI_T => None
  end.

Definition E_BAD_URI : Z := -475.

(** [error_exit] *)
Definition uri_exit (u : sip_uri) : Z * sip_uri := (E_BAD_URI, set_uri_type ERROR_URI_T u).

(** The scheme: its type and [p]; [None] is [goto error_bad_uri]. *)
Definition uri_start (m : mem) (buf : Z) : res (option (uri_type * Z)) :=
  scheme ← uri_scheme m buf;
  if scheme =? SIP_SCH then mret (Some (SIP_URI_T, buf + 4))
  else if scheme =? SIPS_SCH then
    b4 ← rd m (buf + 4);
    mret (if b4 =? ch ":" then Some (SIPS_URI_T, buf + 5) else None)
  else if scheme =? TEL_SCH then mret (Some (TEL_URI_T, buf + 4))
  else if scheme =? URN_SERVICE_SCH then
    service ← memcmp_lit m (buf + 3) (chars URN_SERVICE_STR);
    if service : bool then mret (Some (URN_SERVICE_URI_T, buf + 4 + (9 - 1))) else
    nena ← memcmp_lit m (buf + 3) (chars URN_NENA_SERVICE_STR);
    mret (if nena : bool then Some (URN_NENA_SERVICE_URI_T, buf + 4 + (14 - 1)) else None)
  else mret None.

(** The local variables before the loop. *)
Definition vars_init (t : uri_type) (s : Z) : vars :=
  Vars s 0 0 0 0 false false None None (set_uri_type t uri_zero).

(** [parse_uri buf len uri]: the value returned and [*uri].  (The error labels
    also set [ser_error] to the value returned.) *)
Definition parse_uri (m : mem) (buf len : Z) : res (Z * sip_uri) :=
  if len <? 5 then mret (uri_exit uri_zero) else
  start ← uri_start m buf;
  match start with
  | None => mret (uri_exit uri_zero)
  | Some (t, p) =>
      let pend := buf + len in
      (* [p] may be beyond [end] after an urn scheme *)
      o ← uri_loop m p (Z.to_nat (pend - p)) URI_INIT (vars_init t p);
      let o := match o with Next st x => uri_end (Z.max p pend) x st | _ => o end in
      match o with
      | Next _ x =>
          mret (match uri_fix (x_uri x) with
                | Some u => (0, u)
                | None => uri_exit (x_uri x)
                end)
      | Err _ x => mret (uri_exit (x_uri x))
      | Null => Fault 0
      end
  end.
