(* ===== verification/Trie.v ===== *)
(** * Recognisers of words

    The parsers recognise keywords character by character, with one state for
    each prefix of a word and a default state for everything else.  Such a
    recogniser agrees with the table of its words as soon as a finite check
    succeeds: every prefix of a word is followed by every character once. *)

From stdpp Require Import strings.
From S2P Require Export Memory.

Lemma prefixb_app_false l k w : prefixb l w = false → prefixb (l ++ k) w = false.
Proof.
  revert w. induction l as [|a l IH]; intros [|b w]; cbn; try done.
  destruct (a =? b); cbn; [apply IH|done].
Qed.

Lemma lower_snoc n c : lower (n ++ [c]) = lower n ++ [tolower c].
Proof. unfold lower. by rewrite map_app. Qed.

Lemma list_eqb_prefixb k l : list_eqb k l = true → prefixb k l = true.
Proof. intros ->%list_eqb_spec. apply prefixb_spec. by rewrite firstn_all. Qed.

(** All the characters, and properties checked on each of them. *)
Definition all_chars : list Z := seqZ (-128) 256.

Lemma all_chars_spec (f : Z → bool) c : forallb f all_chars = true → -128 ≤ c ≤ 127 → f c = true.
Proof. intros H Hc. rewrite forallb_forall in H. apply H, list_elem_of_In, elem_of_seqZ. lia. Qed.

Section words.
Context {S : Type} `{EqDecision S} (rows : list (list Z * list S)) (default : S).

(** The state after the characters [l], in lower case. *)
Definition word_state (l : list Z) : S :=
match find (λ r, prefixb l r.1) rows with
| Some r => nth (length l - 1) r.2 default
| None => default
end.

Definition word_prefixes : list (list Z) :=
concat (map (λ r, map (λ k, take k r.1) (seq 1 (length r.1))) rows).

Lemma word_known l : l ≠ [] →
l ∈ word_prefixes ∨ (∀ r, r ∈ rows → prefixb l r.1 = false).
Proof.
intros Hne. destruct (find (λ r, prefixb l r.1) rows) as [r|] eqn:E.
- left. apply find_some in E as [Hin Hp]. apply list_elem_of_In, in_concat. eexists.
  split; [by apply in_map|]. pose proof (prefixb_length _ _ Hp) as Hlen.
  apply prefixb_spec in Hp. rewrite Hp at 1. apply in_map_iff. exists (length l).
  split; [done|]. apply in_seq. assert (0 < length l)%nat by (destruct l; [done|simpl; lia]). lia.
- right. intros r Hr. apply find_none with (x := r) in E; [done|by apply list_elem_of_In].
Qed.

Lemma word_unknown l : (∀ r, r ∈ rows → prefixb l r.1 = false) → word_state l = default.
Proof.
intros H. unfold word_state. destruct (find _ _) as [r|] eqn:E; [|done].
apply find_some in E as [Hin Hp]. rewrite H in Hp; [done|by apply list_elem_of_In].
Qed.

(** What the states mean: a finite check again. *)
Lemma word_value {A} `{EqDecision A} (f : S → A) (g : list Z → A) :
forallb (λ l, bool_decide (f (word_state l) = g l)) word_prefixes = true →
(∀ l, (∀ r, r ∈ rows → prefixb l r.1 = false) → g l = f default) →
∀ l, l ≠ [] → f (word_state l) = g l.
Proof.
intros H Hg l Hl. destruct (word_known l Hl) as [Hin|Hout].
- rewrite forallb_forall in H. specialize (H l (proj1 (list_elem_of_In _ _) Hin)).
  by apply bool_decide_eq_true in H.
- by rewrite Hg, word_unknown.
Qed.

(** The recogniser: [step st c], for the characters that do not [stop] it and,
  at the beginning, are not [barred]. *)
Context (barred stop : Z → bool) (step : S → Z → option S) (first : S).

Definition word_check : bool :=
forallb (λ c, barred c || bool_decide (step first c = Some (word_state [tolower c]))) all_chars &&
forallb (λ c, stop c || bool_decide (step default c = Some default)) all_chars &&
forallb (λ l, forallb (λ c, stop c ||
  bool_decide (step (word_state l) c = Some (word_state (l ++ [tolower c])))) all_chars) word_prefixes.

Hypothesis Hcheck : word_check = true.

Lemma word_first c : -128 ≤ c ≤ 127 → barred c = false → step first c = Some (word_state [tolower c]).
Proof.
intros Hc Hs. apply andb_prop in Hcheck as [[H _]%andb_prop _].
pose proof (all_chars_spec _ c H Hc) as E. cbn in E. rewrite Hs in E. by apply bool_decide_eq_true in E.
Qed.

Lemma word_next l c : l ≠ [] → -128 ≤ c ≤ 127 → stop c = false →
step (word_state l) c = Some (word_state (l ++ [tolower c])).
Proof.
intros Hne Hc Hs. apply andb_prop in Hcheck as [[_ Hd]%andb_prop H].
destruct (word_known l Hne) as [Hin|Hout].
- rewrite forallb_forall in H. specialize (H l (proj1 (list_elem_of_In _ _) Hin)).
  pose proof (all_chars_spec _ c H Hc) as E. cbn in E. rewrite Hs in E. by apply bool_decide_eq_true in E.
- rewrite (word_unknown l Hout), word_unknown.
  + pose proof (all_chars_spec _ c Hd Hc) as E. cbn in E. rewrite Hs in E. by apply bool_decide_eq_true in E.
  + intros r Hr. by apply prefixb_app_false, Hout.
Qed.

End words.

(** ** Tables of words, with what they denote *)
Section table.
Context {S A : Type} `{EqDecision A} (table : list (string * list S * A)) (default : S).

Definition table_words : list (list Z * list S) := map (λ r, (chars r.1.1, r.1.2)) table.

Definition table_value (other : A) (l : list Z) : A :=
match find (λ r, list_eqb l (chars r.1.1)) table with
| Some r => r.2
| None => other
end.

(** The meaning of the state is that of the word. *)
Lemma table_value_state (f : S → A) :
forallb (λ l, bool_decide (f (word_state table_words default l) = table_value (f default) l))
  (word_prefixes table_words) = true →
∀ l, l ≠ [] → f (word_state table_words default l) = table_value (f default) l.
Proof.
intros H. apply (word_value _ _ f (table_value (f default))); [done|]. intros l Hl. unfold table_value.
destruct (find _ _) as [r|] eqn:E; [|done]. apply find_some in E as [Hin Heq%list_eqb_prefixb].
assert (Hr : (chars r.1.1, r.1.2) ∈ table_words).
{ apply list_elem_of_In. exact (in_map (λ r, (chars r.1.1, r.1.2)) _ _ Hin). }
specialize (Hl _ Hr). cbn [fst] in Hl. congruence.
Qed.
End table.
