(* ===== verification/UriSafety.v ===== *)
(** * Memory safety of the URI parser, and where its results point to *)

From stdpp Require Import strings.
From S2P Require Import Uri.

(** ** The invariant of the state machine *)

(** States before the parameters; inside of a recognised name; inside of the
    value of a recognised parameter. *)
Definition in_main (st : ustate) : bool :=
  match st with
  | URI_INIT | URI_USER | URI_PASSWORD | URI_PASSWORD_ALPHA | URI_HOST | URI_HOST_P
  | URI_HOST6_P | URI_HOST6_END => true
  | _ => false
  end.

Definition in_value (st : ustate) : bool :=
  match st with
  | URI_VAL_P | VU_U | VU_D | VU_P_FIN | VT_T | VT_C | VT_P_FIN | VTLS_L | VTLS_S_FIN
  | VS_S | VS_C | VS_T | VS_P_FIN | VW_W | VW_S | VW_S_FIN | VWS_S_FIN => true
  | _ => false
  end.

Definition in_name (st : ustate) : bool :=
  match st with
  | URI_PORT | URI_PARAM | URI_PARAM_P | URI_PARAM_VAL_P | URI_HEADERS => false
  | _ => negb (in_main st) && negb (in_value st)
  end.

Section bounds.
Context (buf : Z).

(** A string of the result: null, or inside of the URI. *)
Definition str_in (p : Z) (y : str) : Prop := y = null_str ∨ within buf p y.

Record uri_in (p : Z) (u : sip_uri) : Prop := {
in_str f : str_in p (u_str u f);
in_u_name : Forall (λ y, str_s y = 0 ∨ within buf p y) (u_name u);
in_u_val : Forall (str_in p) (u_val u);
in_length : length (u_name u) = 10%nat ∧ length (u_val u) = 10%nat;
in_params_no : 0 ≤ u_params_no u ≤ 10;
in_port_no : 0 ≤ u_port_no u < 2 ^ 16;
in_type : u_type u ≠ ERROR_URI_T;
}.

Definition ptr_in (p a : Z) : Prop := a = 0 ∨ buf ≤ a ≤ p.

Record vars_in (p : Z) (x : vars) : Prop := {
in_s : buf ≤ x_s x ≤ p;
in_b : ptr_in p (x_b x);
in_v : ptr_in p (x_v x);
in_pass : x_pass x = 0 ∨ buf ≤ x_pass x < p;
in_uri : uri_in p (x_uri x);
in_param : x_param x ≠ Some F_host ∧ x_param_val x ≠ Some F_host;
}.

(** While the user is not known, what looks like the host may still turn out
  to be the beginning of the user. *)
Definition user_in (p : Z) (x : vars) : Prop :=
x_found_user x = false →
within buf p (u_str (x_uri x) F_host) ∧
(x_pass x = 0 ∨ str_s (u_str (x_uri x) F_host) ≤ x_pass x).

Definition name_in (x : vars) : Prop := buf ≤ x_b x.

Definition value_in (x : vars) : Prop :=
buf ≤ x_b x ≤ x_v x ∧ is_Some (x_param x) ∧ is_Some (x_param_val x).

Record inv (p : Z) (st : ustate) (x : vars) : Prop := {
inv_vars : vars_in p x;
inv_user : in_main st = false → user_in p x;
inv_name : in_name st = true → name_in x;
inv_value : in_value st = true → value_in x;
}.

(** While the user is being read there is no candidate password yet. *)
Definition main_in (st : ustate) (x : vars) : Prop :=
in_main st = true → x_found_user x = false → x_pass x = 0.

Definition main_after (o : outcome) : Prop :=
match o with Next st x => main_in st x | _ => True end.

Definition inv_after (p : Z) (o : outcome) : Prop :=
match o with Next st x => inv p st x | Err _ _ => True | Null => False end.

Hypothesis Hbuf : 0 < buf.

(** ** Monotonicity in the position *)
Lemma str_in_mono p y : str_in p y → str_in (p + 1) y.
Proof. intros [->|H]; [by left|right]. unfold within in *. lia. Qed.

Lemma uri_in_mono p u : uri_in p u → uri_in (p + 1) u.
Proof.
intros [H1 H2 H3 H4 H5 H6 H7]. split; try done.
- intros f. by apply str_in_mono.
- eapply Forall_impl; [exact H2|]. intros y [->|H]; [by left|right]. unfold within in *. lia.
- eapply Forall_impl; [exact H3|]. apply str_in_mono.
Qed.

Lemma vars_in_mono p x : vars_in p x → vars_in (p + 1) x.
Proof.
unfold ptr_in. intros [H1 H2 H3 H4 H5 H6]. unfold ptr_in in *. split; unfold ptr_in; try done; try lia.
by apply uri_in_mono.
Qed.

Lemma user_in_mono p x : user_in p x → user_in (p + 1) x.
Proof. intros H Hf. destruct (H Hf) as [Hw Hp]. split; [|done]. unfold within in *. lia. Qed.

(** ** Assignments *)
Lemma uri_in_zero p t : t ≠ ERROR_URI_T → uri_in p (set_uri_type t uri_zero).
Proof.
intros Ht. assert (Hnull : str_in p null_str) by by left.
split; try done; repeat (apply Forall_cons; split; [by (left || done)|]); done.
Qed.

Lemma uri_in_set_str p u f y : uri_in p u → str_in p y → uri_in p (set_str f y u).
Proof.
intros [H1 H2 H3 H4 H5 H6 H7] Hy. split; try done.
intros g. cbn. by destruct (decide (g = f)).
Qed.

Lemma str_in_slice p a : buf ≤ a ≤ p → p - buf < 2 ^ 31 → str_in p (slice a p).
Proof. intros Ha Hp. right. apply slice_within; lia. Qed.

(** What changes only the URI keeps the rest. *)
Lemma vars_in_uri p x f : vars_in p x → uri_in p (f (x_uri x)) → vars_in p (on_uri f x).
Proof. intros [H1 H2 H3 H4 H5 H6] Hf. by split. Qed.

Lemma put_in p f a x :
vars_in p x → buf ≤ a ≤ p → p - buf < 2 ^ 31 → vars_in p (put f a p x).
Proof.
intros Hx Ha Hp. apply vars_in_uri; [done|]. apply uri_in_set_str; [apply Hx|].
by apply str_in_slice.
Qed.

Lemma put_user p f a x : f ≠ F_host → user_in p x → user_in p (put f a p x).
Proof.
intros Hf Hx. unfold user_in, put. cbn. by destruct (decide (F_host = f)) as [<-|].
Qed.

Lemma set_s_in p q x : vars_in p x → buf ≤ q ≤ p → vars_in p (set_s q x).
Proof. intros [H1 H2 H3 H4 H5 H6] Hq. by split. Qed.

Lemma proto_in p n x : vars_in p x → vars_in p (on_uri (set_uri_proto n) x).
Proof. intros Hx. apply vars_in_uri; [done|]. destruct (in_uri _ _ Hx). by split. Qed.

Lemma port_no_in p n x : vars_in p x → vars_in p (on_uri (set_uri_port_no n) x).
Proof.
intros Hx. apply vars_in_uri; [done|]. destruct (in_uri _ _ Hx). split; try done.
cbn. unfold to_ushort. by apply Z.mod_pos_bound.
Qed.

Lemma u_param_set_in p b v x :
uri_in p (x_uri x) → ptr_in p b → ptr_in p v → p - buf < 2 ^ 31 →
uri_in p (x_uri (u_param_set b v p x)).
Proof.
intros Hu Hb Hv Hp. cbn.
destruct (Z.ltb_spec (u_params_no (x_uri x)) URI_MAX_U_PARAMS) as [Hlt|]; [|done].
unfold URI_MAX_U_PARAMS in Hlt. destruct Hu as [H1 H2 H3 [H4 H4'] H5 H6 H7].
assert (Hname : ∀ k, (b = 0 ∨ (b + to_int k ≤ p ∧ 0 ≤ to_int k)) →
  str_s (Str b (to_int k)) = 0 ∨ within buf p (Str b (to_int k))).
{ intros k [->|Hk]; [by left|]. destruct Hb as [->|Hb]; [by left|right].
  unfold within. cbn. lia. }
assert (Hno : to_ushort (u_params_no (x_uri x) + 1) = u_params_no (x_uri x) + 1)
  by (apply to_ushort_small; lia).
destruct (Z.ltb_spec b v).
- destruct (Z.ltb_spec v p); split; cbn; rewrite ?length_insert, ?Hno; try done; try lia;
    try (apply Forall_insert; [done|]).
  1,3: apply Hname; destruct Hb as [->|Hb]; [by left|right];
    unfold ptr_in in Hv; rewrite to_int_small; lia.
  apply str_in_slice; [|done]. unfold ptr_in in *. lia.
- split; cbn; rewrite ?length_insert, ?Hno; try done; try lia.
  apply Forall_insert; [done|]. apply Hname. destruct Hb as [->|Hb]; [by left|right].
  rewrite to_int_small; lia.
Qed.

Lemma u_param_set_user p q x b v : user_in p x → user_in p (u_param_set b v q x).
Proof.
unfold user_in. cbn. destruct (_ <? URI_MAX_U_PARAMS); [|done].
destruct (_ <? _); [destruct (_ <? _)|]; done.
Qed.

(** ** The macros keep the invariant *)
Context (p c : Z).
Hypothesis Hp : buf ≤ p ∧ p + 1 - buf < 2 ^ 31.

Lemma drop_pass_in x : vars_in p x → vars_in p (drop_pass x).
Proof.
intros Hx. unfold drop_pass. destruct (negb _); [|done].
destruct Hx as [H1 H2 H3 H4 H5 H6]. split; try done. by left.
Qed.

Lemma drop_pass_user x : user_in p x → user_in p (drop_pass x).
Proof. intros Hx. unfold drop_pass. by destruct (negb _). Qed.

Lemma colon_in x : vars_in p x → vars_in (p + 1) (colon_case p x).
Proof.
intros Hx%vars_in_mono. unfold colon_case. destruct (x_found_user x); [done|].
destruct Hx as [H1 H2 H3 H4 H5 H6]. destruct (negb _); split; try done.
- by left.
- right. cbn. lia.
Qed.

Lemma colon_user x : user_in p x → user_in (p + 1) (colon_case p x).
Proof.
intros Hx. pose proof (user_in_mono p x Hx) as Hx'. unfold colon_case.
destruct (x_found_user x) eqn:Hf; [done|]. destruct (negb _); [done|].
intros _. destruct (Hx Hf) as [Hw _]. destruct (Hx' Hf) as [Hw' _]. cbn. split; [done|].
unfold within in Hw. right. lia.
Qed.

Lemma question_in x : vars_in p x → vars_in (p + 1) (question_case p x).
Proof.
intros Hx. unfold question_case, drop_pass.
assert (H : vars_in (p + 1) (set_s (p + 1) (put F_params (x_s x) p x))).
{ apply set_s_in; [|lia]. apply vars_in_mono, put_in; [done|apply Hx|lia]. }
destruct (negb _); [|done]. destruct H as [H1 H2 H3 H4 H5 H6]. split; try done. by left.
Qed.

Lemma question_user x : user_in p x → user_in p (question_case p x).
Proof.
intros Hx. unfold question_case. apply drop_pass_user.
exact (put_user p F_params (x_s x) x ltac:(done) Hx).
Qed.

(** A step that leaves the variables alone, or that reaches a state with no
  other requirement than [user_in]. *)
Lemma inv_keep st x : vars_in p x → (in_main st = false → user_in p x) →
(in_name st = true → name_in x) → (in_value st = true → value_in x) → inv (p + 1) st x.
Proof. intros H1 H2 H3 H4. split; [by apply vars_in_mono| |done|done]. intros. by apply user_in_mono, H2. Qed.

Lemma inv_plain st x : in_name st = false → in_value st = false →
vars_in (p + 1) x → (in_main st = false → user_in (p + 1) x) → inv (p + 1) st x.
Proof. intros Hn Hv H1 H2. split; [done|done|by rewrite Hn|by rewrite Hv]. Qed.

Lemma still_at_user_ok x : vars_in p x → user_in p x → inv_after (p + 1) (still_at_user p x).
Proof.
intros Hx Hu. unfold still_at_user. destruct (x_found_user x) eqn:Hf; [done|].
destruct (Hu Hf) as [[Hh1 [Hh2 Hh3]] Hpass]. apply inv_plain; [done..| |done].
destruct Hx as [H1 H2 H3 H4 [G1 G2 G3 G4 G5 G6 G7] H6].
assert (Hz := uri_in_zero (p + 1) _ G7).
set (h := str_s (u_str (x_uri x) F_host)) in *.
assert (Huser : str_in (p + 1) (Str h (to_int (if negb (x_pass x =? 0) then x_pass x - h else p - h)))).
{ right. unfold within. cbn. destruct (Z.eqb_spec (x_pass x) 0); cbn [negb];
    rewrite to_int_small by lia; lia. }
split; unfold ptr_in in *; try done; cbn; try lia.
destruct (Z.eqb_spec (x_pass x) 0); cbn [negb]; repeat apply uri_in_set_str; try done.
right. apply slice_within; lia.
Qed.

Lemma param_common_ok x other :
vars_in p x → user_in p x → inv_after (p + 1) other →
inv_after (p + 1) (param_common_cases p c x other).
Proof.
intros Hx Hu Ho. unfold param_common_cases.
destruct (c =? ch "@"); [by apply still_at_user_ok|].
destruct (c =? ch ";").
{ apply inv_keep; try done; [by apply drop_pass_in|]. intros _. by apply drop_pass_user. }
destruct (c =? ch "?").
{ apply inv_plain; try done; [by apply question_in|]. intros _. by apply user_in_mono, question_user. }
destruct (c =? ch ":"); [|done].
apply inv_plain; try done; [by apply colon_in|]. intros _. by apply colon_user.
Qed.

Lemma question_uri x : vars_in p x → uri_in p (x_uri (question_case p x)).
Proof.
intros Hx. unfold question_case, drop_pass.
assert (H : uri_in p (x_uri (put F_params (x_s x) p x))).
{ apply uri_in_set_str; [apply Hx|]. apply str_in_slice; [apply Hx|lia]. }
by destruct (negb _).
Qed.

(** The URI may be replaced, in the states that require nothing else. *)
Lemma inv_uri st x y : in_name st = false → in_value st = false → in_main st = false →
vars_in (p + 1) x → user_in p x → uri_in p (x_uri y) →
y = on_uri (λ _, x_uri y) x → u_str (x_uri y) F_host = u_str (x_uri x) F_host →
inv (p + 1) st y.
Proof.
intros Hn Hv Hm Hx Hu Hy E Eh. apply inv_plain; [done..| |].
- rewrite E. apply vars_in_uri; [done|]. by apply uri_in_mono.
- intros _. apply user_in_mono. revert Hu. unfold user_in. rewrite Eh.
  by replace (x_found_user y) with (x_found_user x) by (by rewrite E);
     replace (x_pass y) with (x_pass x) by (by rewrite E).
Qed.

Lemma u_param_set_host b v q x :
u_str (x_uri (u_param_set b v q x)) F_host = u_str (x_uri x) F_host.
Proof.
cbn. destruct (_ <? URI_MAX_U_PARAMS); [|done].
destruct (_ <? _); [destruct (_ <? _)|]; done.
Qed.

Lemma u_param_common_ok x other :
vars_in p x → user_in p x → inv_after (p + 1) other →
inv_after (p + 1) (u_param_common_cases p c x other).
Proof.
intros Hx Hu Ho. unfold u_param_common_cases.
destruct (c =? ch "@"); [by apply still_at_user_ok|].
destruct (c =? ch ";").
{ apply (inv_uri _ (semicolon_case x)); try done.
  - by apply vars_in_mono, drop_pass_in.
  - by apply drop_pass_user.
  - apply u_param_set_in; [by apply drop_pass_in|apply Hx|apply Hx|lia].
  - apply u_param_set_host. }
destruct (c =? ch "?").
{ apply (inv_uri _ (question_case p x)); try done.
  - by apply question_in.
  - by apply question_user.
  - apply u_param_set_in; [by apply question_uri|apply Hx|apply Hx|lia].
  - apply u_param_set_host. }
destruct (c =? ch ":"); [|done].
apply inv_plain; try done; [by apply colon_in|]. intros _. by apply colon_user.
Qed.

(** [param_set(b, v)], with a change of the protocol after it. *)
Lemma param_set_ok st x y proto :
in_name st = false → in_value st = false → in_main st = false →
vars_in p x → value_in x → vars_in (p + 1) y → user_in p y → uri_in p (x_uri y) →
x_b y = x_b x → x_v y = x_v x → x_param y = x_param x → x_param_val y = x_param_val x →
inv_after (p + 1) (match param_set (x_b y) (x_v y) p y with
                   | Some z => Next st (on_uri (set_uri_proto proto) z)
                   | None => Null
                   end) ∧
inv_after (p + 1) (match param_set (x_b y) (x_v y) p y with
                   | Some z => Next st z
                   | None => Null
                   end).
Proof.
intros Hn Hv Hm Hx (Hb & [f Hf] & [g Hg]) Hy Hu Huri Eb Ev Ef Eg.
unfold param_set. rewrite Ef, Eg, Hf, Hg, Eb, Ev.
destruct (in_param _ _ Hx) as [Hf' Hg']. rewrite Hf in Hf'. rewrite Hg in Hg'.
pose proof (in_b _ _ Hx) as Hb'. pose proof (in_v _ _ Hx) as Hv'. unfold ptr_in in *.
set (z := put g (x_v x) p (put f (x_b x) p y)).
assert (Hz : uri_in p (x_uri z)).
{ repeat apply uri_in_set_str; [done|apply str_in_slice; lia..]. }
assert (Hh : u_str (x_uri z) F_host = u_str (x_uri y) F_host).
{ cbn. destruct (decide (F_host = g)); [congruence|]. by destruct (decide (F_host = f)); [congruence|]. }
split; apply (inv_uri _ y); try done.
by destruct Hz.
Qed.

Lemma drop_pass_same x : x_b (drop_pass x) = x_b x ∧ x_v (drop_pass x) = x_v x ∧
x_param (drop_pass x) = x_param x ∧ x_param_val (drop_pass x) = x_param_val x ∧
x_uri (drop_pass x) = x_uri x.
Proof. unfold drop_pass. by destruct (negb _). Qed.

Lemma semicolon_set_ok x proto : vars_in p x → user_in p x → value_in x →
inv_after (p + 1) (proto_param_set p URI_PARAM proto (semicolon_case x)) ∧
inv_after (p + 1) (after_param_set URI_PARAM p (semicolon_case x)).
Proof.
intros Hx Hu Hv. destruct (drop_pass_same x) as (E1 & E2 & E3 & E4 & E5).
unfold proto_param_set, after_param_set.
destruct (param_set_ok URI_PARAM x (semicolon_case x) proto) as [H1 H2]; try done.
- by apply vars_in_mono, drop_pass_in.
- by apply drop_pass_user.
- unfold semicolon_case. rewrite E5. apply Hx.
- by destruct (param_set _ _ _ _).
Qed.

Lemma question_set_ok x proto : vars_in p x → user_in p x → value_in x →
inv_after (p + 1) (proto_param_set p URI_HEADERS proto (question_case p x)) ∧
inv_after (p + 1) (after_param_set URI_HEADERS p (question_case p x)).
Proof.
intros Hx Hu Hv.
destruct (drop_pass_same (set_s (p + 1) (put F_params (x_s x) p x))) as (E1 & E2 & E3 & E4 & _).
unfold proto_param_set, after_param_set.
destruct (param_set_ok URI_HEADERS x (question_case p x) proto) as [H1 H2]; try done.
- by apply question_in.
- by apply question_user.
- by apply question_uri.
- by destruct (param_set _ _ _ _).
Qed.

Lemma value_colon x : vars_in p x → user_in p x → value_in x → inv (p + 1) URI_VAL_P (colon_case p x).
Proof.
intros Hx Hu Hv. split; try done; [by apply colon_in|intros _; by apply colon_user|].
intros _. unfold colon_case. destruct (x_found_user x); [done|]. by destruct (negb _).
Qed.

Lemma value_common_ok x other :
vars_in p x → user_in p x → value_in x → inv_after (p + 1) other →
inv_after (p + 1) (value_common_cases p c x other).
Proof.
intros Hx Hu Hv Ho. unfold value_common_cases.
destruct (c =? ch "@"); [by apply still_at_user_ok|].
destruct (c =? ch ";"); [by apply (semicolon_set_ok x 0)|].
destruct (c =? ch "?"); [by apply (question_set_ok x 0)|].
destruct (c =? ch ":"); [by apply value_colon|done].
Qed.

Lemma transport_fin_ok x proto :
vars_in p x → user_in p x → value_in x → inv_after (p + 1) (transport_fin p c x proto).
Proof.
intros Hx Hu Hv. unfold transport_fin.
destruct (c =? ch "@"); [by apply still_at_user_ok|].
destruct (c =? ch ";"); [by apply semicolon_set_ok|].
destruct (c =? ch "?"); [by apply question_set_ok|].
destruct (c =? ch ":"); [by apply value_colon|by apply inv_keep].
Qed.

Lemma flag_fin_ok x f eq : f ≠ F_host → in_name eq = true → in_value eq = false →
vars_in p x → user_in p x → name_in x → inv_after (p + 1) (flag_fin p c x f eq).
Proof.
intros Hf He Hev Hx Hu Hn. unfold flag_fin. pose proof (in_b _ _ Hx) as Hb. unfold ptr_in in Hb.
assert (Hput : ∀ st y, in_name st = false → in_value st = false → in_main st = false →
  vars_in (p + 1) y → user_in p y → uri_in p (x_uri y) → inv (p + 1) st (put f (x_b x) p y)).
{ intros st y H1 H2 H3 Hy Huy Huri. apply (inv_uri _ y); try done.
  - apply uri_in_set_str; [done|]. unfold name_in in Hn. apply str_in_slice; lia.
  - cbn. by destruct (decide (F_host = f)); [congruence|]. }
destruct (c =? ch "@"); [by apply still_at_user_ok|].
destruct (c =? ch "="); [apply inv_keep; [done..|by rewrite Hev]|].
destruct (c =? ch ";").
{ apply Hput; try done; [by apply vars_in_mono, drop_pass_in|by apply drop_pass_user|].
  unfold semicolon_case. destruct (drop_pass_same x) as (_ & _ & _ & _ & ->). apply Hx. }
destruct (c =? ch "?").
{ apply Hput; try done; [by apply question_in|by apply question_user|by apply question_uri]. }
destruct (c =? ch ":"); [|by apply inv_keep].
apply inv_plain; try done; [by apply colon_in|]. intros _. by apply colon_user.
Qed.

(** ** Every step keeps the invariant *)

(** The invariant as premises, for a state whose class is known. *)
Ltac with_inv H :=
destruct H as [Hx Hu Hn Hv]; cbn in Hu, Hn, Hv;
repeat match goal with
| H : true = true → _ |- _ => specialize (H eq_refl)
| H : false = false → _ |- _ => specialize (H eq_refl)
| H : ?a = ?b → _ |- _ => clear H
end.

Ltac inv_next := apply inv_keep; first [done | by intros; assumption | by intros [=]].

Ltac inv_cases :=
repeat match goal with
| |- inv_after _ (if ?b then _ else _) => destruct b
| |- inv_after _ (Err _ _) => exact I
end.

Lemma param_switch_ok x c1 new :
in_name new = true → in_value new = false → in_main new = false →
vars_in p x → user_in p x → name_in x → inv_after (p + 1) (param_switch p c x c1 new).
Proof.
intros H1 H2 H3 Hx Hu Hn. unfold param_switch. destruct (one_of _ _).
- apply inv_keep; try done. by rewrite H2.
- apply u_param_common_ok; try done. by apply inv_keep.
Qed.

Lemma param_switch1_ok x c1 new :
in_name new = true → in_value new = false → in_main new = false →
vars_in p x → user_in p x → name_in x → inv_after (p + 1) (param_switch1 p c x c1 new).
Proof.
intros H1 H2 H3 Hx Hu Hn. unfold param_switch1. destruct (one_of _ _).
- apply inv_keep; try done. by rewrite H2.
- apply param_common_ok; try done. by apply inv_keep.
Qed.

Lemma param_xswitch1_ok x c1 new :
in_name new = true → in_value new = false → in_main new = false →
vars_in p x → user_in p x → name_in x → inv_after (p + 1) (param_xswitch1 c x c1 new).
Proof.
intros H1 H2 H3 Hx Hu Hn. unfold param_xswitch1. destruct (one_of _ _); [|done].
apply inv_keep; try done. by rewrite H2.
Qed.

Lemma param_switch_big_ok x c1 d1 new new' :
in_name new = true → in_value new = false → in_main new = false →
in_name new' = true → in_value new' = false → in_main new' = false →
vars_in p x → user_in p x → name_in x →
inv_after (p + 1) (param_switch_big p c x c1 d1 new new').
Proof.
intros H1 H2 H3 G1 G2 G3 Hx Hu Hn. unfold param_switch_big. destruct (one_of _ c1).
- apply inv_keep; try done. by rewrite H2.
- exact (param_switch_ok x d1 new' G1 G2 G3 Hx Hu Hn).
Qed.

Lemma param_switch_bigger_ok x c1 d1 e1 new new' new'' :
in_name new = true → in_value new = false → in_main new = false →
in_name new' = true → in_value new' = false → in_main new' = false →
in_name new'' = true → in_value new'' = false → in_main new'' = false →
vars_in p x → user_in p x → name_in x →
inv_after (p + 1) (param_switch_bigger p c x c1 d1 e1 new new' new'').
Proof.
intros H1 H2 H3 G1 G2 G3 K1 K2 K3 Hx Hu Hn. unfold param_switch_bigger. destruct (one_of _ c1).
- apply inv_keep; try done. by rewrite H2.
- exact (param_switch_big_ok x d1 e1 new' new'' G1 G2 G3 K1 K2 K3 Hx Hu Hn).
Qed.

Lemma value_switch_ok x c1 new :
in_value new = true → in_name new = false → in_main new = false →
vars_in p x → user_in p x → value_in x → inv_after (p + 1) (value_switch p c x c1 new).
Proof.
intros H1 H2 H3 Hx Hu Hv. unfold value_switch. destruct (one_of _ _).
- apply inv_keep; try done. by rewrite H2.
- apply value_common_ok; try done. by apply inv_keep.
Qed.

Lemma value_switch_big_ok x c1 d1 new new' :
in_value new = true → in_name new = false → in_main new = false →
in_value new' = true → in_name new' = false → in_main new' = false →
vars_in p x → user_in p x → value_in x →
inv_after (p + 1) (value_switch_big p c x c1 d1 new new').
Proof.
intros H1 H2 H3 G1 G2 G3 Hx Hu Hv. unfold value_switch_big. destruct (one_of _ c1).
- apply inv_keep; try done. by rewrite H2.
- exact (value_switch_ok x d1 new' G1 G2 G3 Hx Hu Hv).
Qed.

(** The first character of the value. *)
Lemma value_start_in x f g st :
f ≠ F_host → g ≠ F_host → in_value st = true → in_name st = false → in_main st = false →
vars_in p x → user_in p x → name_in x →
inv (p + 1) st (set_v p (set_param_val g (set_param f x))).
Proof.
intros Hf Hg H1 H2 H3 Hx Hu Hn. split.
- pose proof (vars_in_mono _ _ Hx) as [G1 G2 G3 G4 G5 G6]. split; cbn; try done; try congruence.
  + right. lia.
  + split; congruence.
- intros _. exact (user_in_mono _ _ Hu).
- by rewrite H2.
- intros _. pose proof (in_b _ _ Hx) as Hb. unfold ptr_in in Hb.
  unfold name_in in Hn. split; cbn; [lia|eauto].
Qed.

Lemma value_start_ok x f g :
f ≠ F_host → g ≠ F_host →
vars_in p x → user_in p x → name_in x → inv_after (p + 1) (value_start p c x f g).
Proof.
intros Hf Hg Hx Hu Hn. unfold value_start. apply param_common_ok.
- destruct Hx as [H1 H2 H3 H4 H5 H6]. split; try done. cbn. split; congruence.
- done.
- by apply value_start_in.
Qed.

Lemma put_next st f q x : in_name st = false → in_value st = false →
vars_in p x → buf ≤ q ≤ p + 1 →
(in_main st = false → f = F_host ∧ (x_found_user x = false → x_pass x = 0)) →
inv (p + 1) st (set_s q (put f (x_s x) p x)).
Proof.
intros Hn Hv Hx Hq Hh. pose proof (in_s _ _ Hx) as Hs. apply inv_plain; [done..| |].
- apply set_s_in; [|done]. apply vars_in_mono, put_in; [done|done|lia].
- intros Hm. destruct (Hh Hm) as [-> Hpass]. intros Hf. cbn.
  split; [apply slice_within; lia|left; by apply Hpass].
Qed.

Lemma main_step st x : main_in st x → main_after (uri_step p c st x).
Proof.
intros H. unfold main_in in H.
destruct st; cbn -[ch one_of Z.eqb] in *; try specialize (H eq_refl);
  unfold take_field, port_not_password, check_host_end, param_switch, param_switch1, param_xswitch1,
    param_switch_big, param_switch_bigger, value_switch, value_switch_big, transport_fin,
    flag_fin, value_start, step_headers, u_param_common_cases, param_common_cases,
    value_common_cases, proto_param_set, after_param_set, still_at_user;
  repeat (case_match; simplify_eq); cbn; unfold main_in; cbn; done.
Qed.

Lemma put_found st f x : in_main st = true → vars_in p x →
inv (p + 1) st (set_s (p + 1) (set_found_user true (put f (x_s x) p x))).
Proof.
intros Hm Hx. pose proof (in_s _ _ Hx) as Hs.
apply inv_plain; [by destruct st|by destruct st| |by rewrite Hm].
assert (H : vars_in (p + 1) (put f (x_s x) p x)) by (apply vars_in_mono, put_in; [done|done|lia]).
destruct H as [H1 H2 H3 H4 H5 H6]. split; try done. cbn. lia.
Qed.

Lemma user_is_host_in q x : vars_in q x → vars_in q (user_is_host x).
Proof.
intros Hx. apply vars_in_uri; [done|]. repeat apply uri_in_set_str; try apply Hx. by left.
Qed.

Lemma main_next st x : in_main st = true → vars_in p x → inv (p + 1) st x.
Proof. intros Hm Hx. apply inv_plain; [by destruct st|by destruct st|by apply vars_in_mono|by rewrite Hm]. Qed.

Lemma main_next_same st x y : in_main st = true → vars_in p x →
x_s y = x_s x ∨ x_s y = p → x_b y = x_b x → x_v y = x_v x → x_pass y = x_pass x →
x_uri y = x_uri x → x_param y = x_param x → x_param_val y = x_param_val x →
inv (p + 1) st y.
Proof.
intros Hm [H1 H2 H3 H4 H5 H6] E1 E2 E3 E4 E5 E6 E7. apply main_next; [done|].
split; rewrite ?E2, ?E3, ?E4, ?E5, ?E6, ?E7; try done. lia.
Qed.

Lemma port_not_password_ok st x : in_main st = false → in_name st = false → in_value st = false →
vars_in p x → inv_after (p + 1) (port_not_password p x st).
Proof.
intros Hm Hn Hv Hx. pose proof (in_s _ _ Hx) as Hs.
assert (H : vars_in (p + 1) (user_is_host (on_uri (set_uri_port_no (x_port_no x)) (put F_port (x_s x) p x)))).
{ apply user_is_host_in, port_no_in, vars_in_mono, put_in; [done|done|lia]. }
apply inv_plain; [done..| |by intros _].
destruct H as [H1 H2 H3 H4 H5 H6]. split; try done. cbn. lia.
Qed.

Lemma step_user_ok st x : in_main st = true → vars_in p x → main_in st x →
inv_after (p + 1) (step_user p c x st).
Proof.
intros Hm Hx Hmain. pose proof (Hmain Hm) as Hpass.
destruct st; try discriminate; cbn -[ch one_of]; try exact I.
- inv_cases; (eapply main_next_same; [done|done| |done..]); cbn; auto.
- inv_cases.
  + by apply put_found.
  + by apply put_next; [..|lia|].
  + by apply put_next; [..|lia|].
  + by apply put_next; [..|lia|].
  + by apply main_next.
- inv_cases.
  + apply inv_plain; [done..| |done].
    pose proof (put_in p F_passwd (x_s x) x Hx (in_s _ _ Hx) ltac:(lia)) as H.
    apply vars_in_mono in H. destruct H as [H1 H2 H3 H4 H5 H6]. split; try done. cbn. lia.
  + by apply port_not_password_ok.
  + by apply port_not_password_ok.
  + eapply main_next_same; [done|done| |done..]; cbn; auto.
  + eapply main_next_same; [done|done| |done..]; cbn; auto.
- inv_cases; [by apply put_found|by apply main_next].
Qed.

Lemma check_host_end_ok x other : vars_in p x → (x_found_user x = false → x_pass x = 0) →
inv_after (p + 1) other → inv_after (p + 1) (check_host_end p c x other).
Proof.
intros Hx Hpass Ho. unfold check_host_end. inv_cases; try done; by apply put_next; [..|lia|].
Qed.

Lemma port_next st x : in_name st = false → in_value st = false →
vars_in p x → user_in p x →
inv (p + 1) st (set_s (p + 1) (on_uri (set_uri_port_no (x_port_no x)) (put F_port (x_s x) p x))).
Proof.
intros Hn Hv Hx Hu. pose proof (in_s _ _ Hx) as Hs. apply inv_plain; [done..| |].
- apply set_s_in; [|lia]. apply port_no_in, vars_in_mono, put_in; [done|done|lia].
- intros _. apply user_in_mono. exact (put_user p F_port (x_s x) x ltac:(done) Hu).
Qed.

Lemma step_host_ok st x : inv p st x → main_in st x → inv_after (p + 1) (step_host p c x st).
Proof.
intros [Hx Hu _ _] Hmain. unfold main_in in Hmain.
destruct st; cbn -[ch one_of] in *; try exact I; try specialize (Hmain eq_refl).
- inv_cases; by apply main_next.
- apply check_host_end_ok; [done|done|by apply main_next].
- inv_cases; by apply main_next.
- by apply check_host_end_ok.
- specialize (Hu eq_refl). inv_cases; [by apply port_next..|].
  apply inv_plain; [done..| |].
  + apply vars_in_mono in Hx as [H1 H2 H3 H4 H5 H6]. by split.
  + intros _. exact (user_in_mono _ _ Hu).
Qed.

Lemma param_start st x : in_name st = true → in_value st = false → in_main st = false →
vars_in p x → user_in p x → inv (p + 1) st (set_b p x).
Proof.
intros Hn Hv Hm Hx Hu. split.
- pose proof (vars_in_mono _ _ Hx) as [H1 H2 H3 H4 H5 H6]. split; try done. right. cbn. lia.
- intros _. exact (user_in_mono _ _ Hu).
- intros _. unfold name_in. cbn. lia.
- by rewrite Hv.
Qed.

Lemma step_param_ok st x : inv p st x → inv_after (p + 1) (step_param p c x st).
Proof.
intros [Hx Hu _ _]. destruct st; cbn -[ch one_of] in *; try exact I; specialize (Hu eq_refl).
- apply param_common_ok; [done|done|]. inv_cases; try by apply param_start.
  apply inv_plain; [done..| |intros _; exact (user_in_mono _ _ Hu)].
  pose proof (vars_in_mono _ _ Hx) as [H1 H2 H3 H4 H5 H6]. split; try done. right. cbn. lia.
- apply u_param_common_ok; [done|done|]. inv_cases; [|by apply inv_keep].
  apply inv_plain; [done..| |intros _; exact (user_in_mono _ _ Hu)].
  pose proof (vars_in_mono _ _ Hx) as [H1 H2 H3 H4 H5 H6]. split; try done. right. cbn. lia.
- by apply u_param_common_ok; [..|by apply inv_keep].
Qed.

Lemma step_transport_ok st x : inv p st x → inv_after (p + 1) (step_transport p c x st).
Proof.
intros H. destruct st; try exact I; with_inv H; cbn [step_transport];
  try (by apply param_switch_ok); try (by apply param_switch1_ok);
  try (by apply param_switch_big_ok).
set (y := on_uri (set_uri_proto PROTO_OTHER) x).
assert (Hy : vars_in p y) by by apply proto_in.
assert (Hyu : user_in p y) by done. assert (Hyn : name_in y) by done.
assert (Hst : ∀ st, in_value st = true → in_name st = false → in_main st = false →
  inv (p + 1) st (set_v p (set_param_val F_transport_val (set_param F_transport y)))).
{ intros st H1 H2 H3. by apply value_start_in. }
apply param_common_ok.
- destruct Hy as [H1 H2 H3 H4 H5 H6]. by split.
- exact Hyu.
- inv_cases; by apply Hst.
Qed.

Lemma step_value_ok st x : inv p st x → inv_after (p + 1) (step_value p c x st).
Proof.
intros H. destruct st; try exact I; with_inv H; cbn [step_value];
  try (by apply value_switch_ok); try (by apply value_switch_big_ok);
  try (by apply transport_fin_ok).
- apply value_common_ok; try done. by apply inv_keep.
- destruct (one_of _ _); [by apply inv_keep|by apply transport_fin_ok].
Qed.

Lemma step_names_ok st x : inv p st x → inv_after (p + 1) (step_names p c x st).
Proof.
intros H. destruct st; try exact I; with_inv H; cbn [step_names];
  first [by apply param_switch_ok | by apply param_switch1_ok | by apply param_switch_big_ok
        | by apply value_start_ok].
Qed.

Lemma step_flags_ok st x : inv p st x → inv_after (p + 1) (step_flags p c x st).
Proof.
intros H. destruct st; try exact I; with_inv H; cbn [step_flags];
  first [by apply param_switch_ok | by apply param_switch1_ok | by apply flag_fin_ok
        | by apply value_start_ok].
Qed.

Lemma step_pn_ok st x : inv p st x → inv_after (p + 1) (step_pn p c x st).
Proof.
intros H. destruct st; try exact I; with_inv H; cbn [step_pn];
  try (first [by apply param_switch_ok | by apply param_switch1_ok | by apply param_xswitch1_ok
        | by apply param_switch_big_ok | by apply param_switch_bigger_ok | by apply value_start_ok]).
apply flag_fin_ok; try done. destruct Hx as [H1 H2 H3 H4 H5 H6]. split; try done.
split; [done|apply H6].
Qed.

Lemma step_headers_ok x : inv p URI_HEADERS x → inv_after (p + 1) (step_headers p c x).
Proof.
intros H. with_inv H. unfold step_headers.
destruct (c =? ch "@"); [by apply still_at_user_ok|]. inv_cases.
- apply inv_plain; [done..| |intros _; exact (user_in_mono _ _ Hu)].
  pose proof (vars_in_mono _ _ Hx) as [H1 H2 H3 H4 H5 H6]. by split.
- apply inv_plain; [done..|by apply colon_in|intros _; by apply colon_user].
- apply inv_keep; [by apply drop_pass_in|intros _; by apply drop_pass_user|done..].
- by apply inv_keep.
Qed.

Lemma uri_step_ok st x : inv p st x → main_in st x →
inv_after (p + 1) (uri_step p c st x) ∧ main_after (uri_step p c st x).
Proof.
intros H Hm. split; [|by apply main_step]. unfold uri_step.
destruct st; first [apply step_user_ok; [done|apply H|done] | by apply step_host_ok
  | by apply step_param_ok | by apply step_transport_ok | by apply step_value_ok
  | by apply step_names_ok | by apply step_flags_ok | by apply step_pn_ok
  | by apply step_headers_ok].
Qed.
End bounds.

(** ** The loop, the end, and the result *)
Lemma uri_loop_ok m buf p n st x :
  0 < buf → mbase m ≤ buf ≤ p → p + Z.of_nat n ≤ mlim m → p + Z.of_nat n - buf < 2 ^ 31 →
  inv buf p st x → main_in st x →
  wp (uri_loop m p n st x) (λ o, inv_after buf (p + Z.of_nat n) o ∧ main_after o).
Proof.
  intros H0 Hb. revert p st x Hb. induction n as [|n IH]; intros p st x Hb He Hs Hi Hm; cbn [uri_loop].
  { rewrite Z.add_0_r. by apply wp_ret. }
  apply wp_bind, wp_rd; [lia|]. intros c _.
  destruct (uri_step_ok buf H0 p c ltac:(lia) st x Hi Hm) as [Ho Hm'].
  destruct (uri_step p c st x) as [st' x'|e x'|]; [|done..].
  replace (p + Z.of_nat (S n)) with (p + 1 + Z.of_nat n) by lia.
  apply IH; [lia..|done|done].
Qed.

Section finish.
Context (buf p : Z) (x : vars).
Hypothesis Hbuf : 0 < buf.
Hypothesis Hp : p - buf < 2 ^ 31.

Definition end_ok (o : outcome) : Prop :=
match o with Next _ x => uri_in buf p (x_uri x) | Err _ _ => True | Null => False end.

Lemma end_params_in : vars_in buf p x → vars_in buf p (end_params p x).
Proof. intros Hx. apply put_in; [done|apply Hx|done]. Qed.

Lemma end_value_ok : vars_in buf p x → value_in buf x →
end_ok (end_value p x) ∧ ∀ n, end_ok (end_transport p x n).
Proof.
intros Hx (Hb & [f Hf] & [g Hg]). unfold end_transport, end_value, after_param_set, param_set.
cbn [x_param x_param_val end_params put on_uri]. rewrite Hf, Hg.
pose proof (in_v _ _ _ Hx) as Hv. unfold ptr_in in Hv.
assert (H : vars_in buf p (put g (x_v x) p (put f (x_b x) p (end_params p x)))).
{ repeat apply put_in; try lia; [done|apply Hx]. }
split; [exact (in_uri _ _ _ H)|]. intros n. exact (in_uri _ _ _ (proto_in _ _ n _ H)).
Qed.

Lemma uri_end_ok st : inv buf p st x → end_ok (uri_end p x st).
Proof.
intros [Hx Hu Hn Hv]. pose proof (in_s _ _ _ Hx) as Hs.
assert (Hput : ∀ f, vars_in buf p (put f (x_s x) p x)) by (intros f; by apply put_in).
assert (Hparams : end_ok (Next st (end_params p x))) by exact (in_uri _ _ _ (end_params_in Hx)).
assert (Hflag : ∀ f, name_in buf x → end_ok (end_flag p x f)).
{ intros f Hb. unfold name_in in Hb. pose proof (in_b _ _ _ Hx) as Hb'. unfold ptr_in in Hb'.
  refine (in_uri _ _ _ (put_in _ _ f (x_b x) _ (end_params_in Hx) _ Hp)). lia. }
assert (Hunk : end_ok (Next st (put F_params (x_s x) p (u_param_set (x_b x) (x_v x) p x)))).
{ apply uri_in_set_str; [|by apply str_in_slice].
  apply u_param_set_in; [done|apply Hx|apply Hx|apply Hx|done]. }
destruct st; cbn -[u_param_set] in *; try exact I; try done; try (by apply Hflag, Hn);
  try (by apply end_value_ok; [|apply Hv]).
- destruct (x_found_user x); [exact I|]. exact (in_uri _ _ _ (Hput F_host)).
- destruct (x_found_user x); [exact I|].
  exact (in_uri _ _ _ (user_is_host_in _ _ _ (port_no_in _ _ (x_port_no x) _ (Hput F_port)))).
- exact (in_uri _ _ _ (Hput F_host)).
- exact (in_uri _ _ _ (Hput F_host)).
- exact (in_uri _ _ _ (port_no_in _ _ (x_port_no x) _ (Hput F_port))).
- destruct (x_error_headers x); [exact I|]. exact (in_uri _ _ _ (Hput F_headers)).
Qed.
End finish.

(** What a caller of [parse_uri] may rely on. *)
Definition uri_result (buf pend : Z) (r : Z * sip_uri) : Prop :=
  let '(rc, u) := r in
  (rc = E_BAD_URI ∧ u_type u = ERROR_URI_T) ∨
  (rc = 0 ∧ u_type u ≠ ERROR_URI_T ∧
   (∀ f, str_in buf pend (u_str u f) ∨ (f = F_host ∧ u_str u f = empty_str)) ∧
   Forall (λ y, str_s y = 0 ∨ within buf pend y) (u_name u) ∧
   Forall (str_in buf pend) (u_val u) ∧
   0 ≤ u_params_no u ≤ URI_MAX_U_PARAMS ∧ 0 ≤ u_port_no u < 2 ^ 16).

Lemma uri_fix_ok buf p u : uri_in buf p u →
  uri_result buf p (match uri_fix u with Some u => (0, u) | None => uri_exit u end).
Proof.
  intros [H1 H2 H3 H4 H5 H6 H7]. unfold uri_fix.
  assert (Hfield : ∀ f g y, str_in buf p y →
    str_in buf p (if decide (f = g) then y else u_str u f)) by (intros; case_match; auto).
  assert (Hgood : ∀ u', u_name u' = u_name u → u_val u' = u_val u → u_params_no u' = u_params_no u →
    u_port_no u' = u_port_no u → u_type u' ≠ ERROR_URI_T →
    (∀ f, str_in buf p (u_str u' f) ∨ (f = F_host ∧ u_str u' f = empty_str)) →
    uri_result buf p (0, u')).
  { intros u' E1 E2 E3 E4 E5 E6. right. by rewrite E1, E2, E3, E4. }
  assert (Hhost : ∀ y, str_in buf p y → ∀ f,
    str_in buf p (u_str (set_str F_host empty_str (set_str F_user y u)) f) ∨
    (f = F_host ∧ u_str (set_str F_host empty_str (set_str F_user y u)) f = empty_str)).
  { intros y Hy f. cbn. destruct (decide (f = F_host)); [by right|left]. by apply Hfield. }
  destruct (u_type u) eqn:E; [done|..]; apply Hgood; try done; try (by rewrite E);
    try (intros f; by left); try (cbn; by rewrite E); apply Hhost; [apply H1|apply H1|by left].
Qed.

Lemma memcmp_lit_wp' m p lit : mbase m ≤ p → p + Z.of_nat (length lit) ≤ mlim m →
  wp (memcmp_lit m p lit) (λ _, True).
Proof. apply memcmp_lit_wp. Qed.

Lemma uri_scheme_wp m buf : mbase m ≤ buf → buf + 4 ≤ mlim m → wp (uri_scheme m buf) (λ _, True).
Proof. intros H1 H2. unfold uri_scheme. repeat (apply wp_bind, wp_rd; [lia|intros ? _]). done. Qed.

Lemma uri_start_wp m buf :
  mbase m ≤ buf → buf + 5 ≤ mlim m →
  (uri_scheme m buf = Ok URN_SERVICE_SCH → buf + 17 ≤ mlim m) →
  wp (uri_start m buf) (λ r, ∀ t p, r = Some (t, p) → t ≠ ERROR_URI_T ∧ buf < p).
Proof.
  intros H1 H2 Hurn. unfold uri_start.
  destruct (wp_inv _ _ (uri_scheme_wp m buf H1 ltac:(lia))) as (sch & E & _).
  rewrite E in *. cbn [mbind res_bind].
  destruct (sch =? SIP_SCH). { apply wp_ret. intros t p [= <- <-]. split; [done|lia]. }
  destruct (sch =? SIPS_SCH).
  { apply wp_bind, wp_rd; [lia|]. intros c _. apply wp_ret. intros t p.
    destruct (c =? ch ":"); intros [= <- <-]. split; [done|lia]. }
  destruct (sch =? TEL_SCH). { apply wp_ret. intros t p [= <- <-]. split; [done|lia]. }
  destruct (Z.eqb_spec sch URN_SERVICE_SCH) as [->|]; [|by apply wp_ret].
  specialize (Hurn eq_refl).
  apply wp_bind. eapply wp_mono; [apply memcmp_lit_wp'; cbn; lia|]. intros [] _.
  { apply wp_ret. intros t p [= <- <-]. split; [done|lia]. }
  apply wp_bind. eapply wp_mono; [apply memcmp_lit_wp'; cbn; lia|]. intros [] _; apply wp_ret; [|done].
  intros t p [= <- <-]. split; [done|lia].
Qed.

Lemma parse_uri_wp m buf len :
  mem_ok m → readable m buf (buf + len) →
  (uri_scheme m buf = Ok URN_SERVICE_SCH → buf + 17 ≤ mlim m) →
  wp (parse_uri m buf len) (uri_result buf (buf + len)).
Proof.
  intros [Hm0 Hms _] [H1 H2] Hurn. unfold parse_uri.
  destruct (Z.ltb_spec len 5); [by apply wp_ret; left|].
  apply wp_bind. eapply wp_mono; [apply uri_start_wp; [lia|lia|done]|].
  intros [[t p]|] Hst; [|by apply wp_ret; left]. destruct (Hst t p eq_refl) as [Ht Hp].
  destruct (Z.ltb_spec (buf + len) p) as [Hgt|Hle].
  { replace (Z.to_nat (buf + len - p)) with 0%nat by lia. apply wp_bind, wp_ret. by left. }
  assert (Hi : inv buf p URI_INIT (vars_init t p)).
  { split; try done. split; unfold ptr_in; cbn; try lia; [by apply uri_in_zero|done]. }
  apply wp_bind. eapply wp_mono; [apply (uri_loop_ok m buf); try done; lia|].
  replace (p + Z.of_nat (Z.to_nat (buf + len - p))) with (buf + len) by lia.
  rewrite (Z.max_r p (buf + len)) by lia. intros o [Ho _].
  assert (He : end_ok buf (buf + len) (match o with Next st x => uri_end (buf + len) x st | _ => o end)).
  { destruct o as [st x|e x|]; [apply uri_end_ok; [lia|lia|done]|done|done]. }
  destruct (match o with Next st x => uri_end (buf + len) x st | _ => o end) as [st x|e x|]; [|by left|done].
  apply wp_ret. by apply uri_fix_ok.
Qed.

(** ** Properties *)

(** The comparison of the scheme of an [urn:] URI is not limited by its length: it
    reads behind a URI that is shorter than "urn:service:", and does not return
    when the block ends with the URI. *)
Lemma parse_uri_urn_overrun l : (1 ≤ length l < 8)%nat →
  parse_uri (block (chars "urn:" ++ l)) 4096 (4 + Z.of_nat (length l)) = Fault (4100 + Z.of_nat (length l)).
Proof.
  destruct l as [|c l]; [cbn; lia|]. intros [_ Hl].
  do 7 (destruct l as [|? l]; [reflexivity|]). cbn in Hl. lia.
Qed.

(** C6: for every URI in readable memory (and, for an [urn:] URI, with the
    seventeen readable bytes that its scheme is compared with, which a short URI
    does not have: [parse_uri_urn_overrun]) [parse_uri] terminates, reads only
    inside of the block and never writes through a null pointer.  It returns
    [E_BAD_URI] with the type [ERROR_URI_T], or [0] with a known type; in the
    latter case every string of the result is null or lies inside of the URI (the
    host of a tel URI is the empty literal), the number of unknown parameters is
    at most [URI_MAX_U_PARAMS], and the port fits its 16 bits. *)
Theorem parse_uri_safe m buf len :
  mem_ok m → readable m buf (buf + len) →
  (uri_scheme m buf = Ok URN_SERVICE_SCH → buf + 17 ≤ mlim m) →
  wp (parse_uri m buf len) (uri_result buf (buf + len)).
Proof. apply parse_uri_wp. Qed.

Lemma parse_uri_safe_witness :
  let l := chars "sips:a:b@[::1]:5061;lr;transport=ws;x=y?h=i" in
  wp (parse_uri (block l) 4096 (Z.of_nat (length l))) (uri_result 4096 (4096 + Z.of_nat (length l))).
Proof.
  apply (parse_uri_safe (block (chars "sips:a:b@[::1]:5061;lr;transport=ws;x=y?h=i")) 4096).
  - apply mem_okb_ok. by vm_compute.
  - split; by vm_compute.
  - vm_compute. discriminate.
Defined.
