(* ===== verification/UriParamRun.v ===== *)
(** * The parameters of a URI, continued: values, terminators, and the effect of
    a whole parameter on [struct sip_uri] *)

From stdpp Require Import strings.
From S2P Require Import Trie Uri.

(** ** The parameters of a URI: what [parse_uri] records for them

    The recogniser of parameter names is a trie of states; it is compared here
    with the table of the names, and a parameter followed by its terminator with
    its effect on [struct sip_uri]. *)

(** ** Results up to the order of assignments *)
#[export] Instance sip_uri_equiv : Equiv sip_uri := λ u w,
  (∀ f, u_str u f = u_str w f) ∧ u_port_no u = u_port_no w ∧ u_proto u = u_proto w ∧
  u_type u = u_type w ∧ u_name u = u_name w ∧ u_val u = u_val w ∧ u_params_no u = u_params_no w.

#[export] Instance sip_uri_equivalence : Equivalence (≡@{sip_uri}).
Proof.
  split.
  - intros u. by repeat split.
  - intros u w (H & ? & ? & ? & ? & ? & ?). repeat split; done || (intros f; by rewrite H).
  - intros u w z (H & ? & ? & ? & ? & ? & ?) (H' & ? & ? & ? & ? & ? & ?).
    repeat split; congruence || (intros f; by rewrite H).
Qed.

Ltac uri_proper :=
  intros u w (H & ? & ? & ? & ? & ? & ?); repeat split; cbn; first [done | congruence | exact H].

#[export] Instance set_str_proper f y : Proper ((≡) ==> (≡)) (set_str f y).
Proof.
  intros u w (H & ? & ? & ? & ? & ? & ?). repeat split; try done.
  intros g. cbn. by destruct (decide (g = f)).
Qed.

#[export] Instance set_uri_port_no_proper n : Proper ((≡) ==> (≡)) (set_uri_port_no n).
Proof. uri_proper. Qed.
#[export] Instance set_uri_proto_proper n : Proper ((≡) ==> (≡)) (set_uri_proto n).
Proof. uri_proper. Qed.
#[export] Instance set_u_name_proper i y : Proper ((≡) ==> (≡)) (set_u_name i y).
Proof. uri_proper. Qed.
#[export] Instance set_u_val_proper i y : Proper ((≡) ==> (≡)) (set_u_val i y).
Proof. uri_proper. Qed.
#[export] Instance set_u_params_no_proper n : Proper ((≡) ==> (≡)) (set_u_params_no n).
Proof. uri_proper. Qed.

Lemma set_str_comm f g y z u : f ≠ g → set_str f y (set_str g z u) ≡ set_str g z (set_str f y u).
Proof.
  intros Hne. repeat split. intros h. cbn.
  destruct (decide (h = f)) as [->|]; [|done]. by destruct (decide (f = g)).
Qed.

(** ** The loop over known contents *)
Fixpoint uri_run (l : list Z) (p : Z) (st : ustate) (x : vars) : outcome :=
  match l with
  | [] => Next st x
  | c :: l =>
      match uri_step p c st x with
      | Next st x => uri_run l (p + 1) st x
      | o => o
      end
  end.

Lemma uri_loop_at m p l st x : bytes_at m p l → uri_loop m p (length l) st x = Ok (uri_run l p st x).
Proof.
  revert p st x. induction l as [|c l IH]; intros p st x; [done|].
  intros [Hc Hl]. cbn [length uri_loop uri_run]. rewrite Hc. cbn [mbind res_bind].
  destruct (uri_step p c st x); [by apply IH|done..].
Qed.

Lemma uri_run_app l k p st x st' x' :
  uri_run l p st x = Next st' x' →
  uri_run (l ++ k) p st x = uri_run k (p + Z.of_nat (length l)) st' x'.
Proof.
  revert p st x. induction l as [|c l IH]; intros p st x; cbn [app uri_run].
  - intros [= -> ->]. by rewrite Z.add_0_r.
  - destruct (uri_step p c st x) as [st1 x1|e x1|]; [|done..]. intros H.
    rewrite (IH _ _ _ H). f_equal. cbn [length]. lia.
Qed.

Lemma uri_run_snoc l c p st x st' x' :
  uri_run l p st x = Next st' x' →
  uri_run (l ++ [c]) p st x = uri_step (p + Z.of_nat (length l)) c st' x'.
Proof.
  intros H. rewrite (uri_run_app _ _ _ _ _ _ _ H). cbn. by destruct (uri_step _ _ _ _).
Qed.

(** ** The names *)

(** A recognised parameter: its name, the states that the name goes through,
    the state of its value, the members of [struct sip_uri]. *)
Record param_row := ParamRow {
  r_name : string;
  r_states : list ustate;
  r_eq : ustate;
  r_field : uri_field;
  r_val : uri_field;
}.

Definition param_rows : list param_row :=
  [ParamRow "transport" [PT_T; PT_R; PT_A; PT_N; PT_S; PT_P; PT_O; PT_R2; PT_T2] PT_eq
     F_transport F_transport_val;
   ParamRow "ttl" [PT_T; PTTL_T2; PTTL_L] PTTL_eq F_ttl F_ttl_val;
   ParamRow "user" [PU_U; PU_S; PU_E; PU_R] PU_eq F_user_param F_user_param_val;
   ParamRow "method" [PM_M; PM_E; PM_T; PM_H; PM_O; PM_D] PM_eq F_method F_method_val;
   ParamRow "maddr" [PM_M; PMA_A; PMA_D; PMA_D2; PMA_R] PMA_eq F_maddr F_maddr_val;
   ParamRow "lr" [PLR_L; PLR_R_FIN] PLR_eq F_lr F_lr_val;
   ParamRow "r2" [PR2_R; PR2_2_FIN] PR2_eq F_r2 F_r2_val;
   ParamRow "gr" [PG_G; PG_G_FIN] PG_eq F_gr F_gr_val;
   ParamRow "pn-provider"
     [PN_P; PN_N; PN_dash; PN_P2; PN_PR; PN1_O; PN1_V; PN1_I; PN1_D; PN1_E; PN1_FIN] PN1_eq
     F_pn_provider F_pn_provider_val;
   ParamRow "pn-prid" [PN_P; PN_N; PN_dash; PN_P2; PN_PR; PN2_I; PN2_D] PN2_eq
     F_pn_prid F_pn_prid_val;
   ParamRow "pn-param" [PN_P; PN_N; PN_dash; PN_P2; PN3_A; PN3_R; PN3_A2; PN3_M] PN3_eq
     F_pn_param F_pn_param_val;
   ParamRow "pn-purr" [PN_P; PN_N; PN_dash; PN_P2; PN4_U; PN4_R; PN4_R2] PN4_eq
     F_pn_purr F_pn_purr_val].

(** The state after the characters [l], in lower case, of a name. *)
Definition trie (l : list Z) : ustate :=
  match find (λ r, prefixb l (chars (r_name r))) param_rows with
  | Some r => nth (length l - 1) (r_states r) URI_PARAM_P
  | None => URI_PARAM_P
  end.

Definition name_state (n : list Z) : ustate := trie (lower n).

(** No character follows a complete pn- name. *)
Definition pn_closed (n : list Z) : bool :=
  forallb (λ s, negb (prefixb (chars s) (lower n)) || (length n =? String.length s)%nat)
    ["pn-provider"; "pn-prid"; "pn-param"; "pn-purr"].

Definition name_ok (n : list Z) : Prop := n ≠ [] ∧ plain "@;?:=" n ∧ pn_closed n = true.

(** The state that an ordinary character leads to. *)
Definition name_next (st : ustate) (c : Z) : option ustate :=
  match uri_step 0 c st (vars_init SIP_URI_T 0) with Next st _ => Some st | _ => None end.

(** The states in which a name is read. *)
Definition in_trie (st : ustate) : bool :=
  bool_decide (st = URI_PARAM_P ∨ st ∈ concat (map r_states param_rows)) &&
  negb (bool_decide (st = PN1_FIN)).

(** An ordinary character keeps the variables. *)
Lemma name_step p c st x :
  in_trie st = true → one_of c "@;?:=" = false →
  match name_next st c with
  | Some st' => uri_step p c st x = Next st' x
  | None => True
  end.
Proof.
  intros Hst Hc. unfold name_next, uri_step.
  assert (E1 := plain_not _ _ (ch "@") Hc eq_refl). assert (E2 := plain_not _ _ (ch ";") Hc eq_refl).
  assert (E3 := plain_not _ _ (ch "?") Hc eq_refl). assert (E4 := plain_not _ _ (ch ":") Hc eq_refl).
  assert (E5 := plain_not _ _ (ch "=") Hc eq_refl).
  destruct st; try (by vm_compute in Hst);
    cbn [step_param step_transport step_names step_flags step_pn];
    unfold param_switch, param_switch1, param_xswitch1, param_switch_big, param_switch_bigger,
      flag_fin, u_param_common_cases, param_common_cases;
    rewrite ?E1, ?E2, ?E3, ?E4, ?E5;
    repeat match goal with |- context [one_of c ?s] => destruct (one_of c s) end; done.
Qed.

(** The recogniser agrees with the table, one character at a time. *)
Definition row_checks (r : param_row) : list (list Z) :=
  map (λ k, take k (chars (r_name r))) (seq 1 (String.length (r_name r))).

Definition closed (l : list Z) : bool :=
  forallb (λ s, negb (prefixb (chars s) l) || (length l =? String.length s)%nat)
    ["pn-provider"; "pn-prid"; "pn-param"; "pn-purr"].

Definition trie_check (l : list Z) (c : Z) : bool :=
  one_of c "@;?:=" || negb (closed (l ++ [tolower c])) ||
  bool_decide (name_next (trie l) c = Some (trie (l ++ [tolower c]))).

Definition trie_checks (l : list Z) : bool :=
  (in_trie (trie l) || forallb (λ c, one_of c "@;?:=" || negb (closed (l ++ [tolower c])))
                         (seqZ (-128) 256)) &&
  forallb (trie_check l) (seqZ (-128) 256).

Lemma trie_checked : forallb trie_checks (concat (map row_checks param_rows)) = true.
Proof. by vm_compute. Qed.

Lemma trie_known l : l ≠ [] →
  (l ∈ concat (map row_checks param_rows)) ∨
  (∀ r, r ∈ param_rows → prefixb l (chars (r_name r)) = false).
Proof.
  intros Hne. destruct (find (λ r, prefixb l (chars (r_name r))) param_rows) as [r|] eqn:E.
  - left. apply find_some in E as [Hin Hp]. apply list_elem_of_In, in_concat.
    exists (row_checks r). split; [by apply in_map|]. unfold row_checks.
    pose proof (prefixb_length _ _ Hp) as Hlen. rewrite length_chars in Hlen.
    apply prefixb_spec in Hp. rewrite Hp. apply in_map_iff. exists (length l).
    split; [done|]. apply in_seq. assert (0 < length l)%nat by (destruct l; [done|simpl; lia]). lia.
  - right. intros r Hr. apply find_none with (x := r) in E; [done|by apply list_elem_of_In].
Qed.

Lemma trie_unknown l : (∀ r, r ∈ param_rows → prefixb l (chars (r_name r)) = false) →
  trie l = URI_PARAM_P.
Proof.
  intros H. unfold trie. destruct (find _ _) as [r|] eqn:E; [|done].
  apply find_some in E as [Hin Hp]. rewrite H in Hp; [done|by apply list_elem_of_In].
Qed.

Lemma param_p_next p c x : one_of c "@;?:=" = false → uri_step p c URI_PARAM_P x = Next URI_PARAM_P x.
Proof.
  intros Hplain. cbn [uri_step step_param]. unfold u_param_common_cases.
  by rewrite (plain_not _ _ (ch "@") Hplain eq_refl), (plain_not _ _ (ch ";") Hplain eq_refl),
    (plain_not _ _ (ch "?") Hplain eq_refl), (plain_not _ _ (ch ":") Hplain eq_refl),
    (plain_not _ _ (ch "=") Hplain eq_refl).
Qed.

Lemma trie_next p l c x :
  l ≠ [] → -128 ≤ c ≤ 127 → one_of c "@;?:=" = false → closed (l ++ [tolower c]) = true →
  uri_step p c (trie l) x = Next (trie (l ++ [tolower c])) x.
Proof.
  intros Hne Hc Hplain Hclosed. destruct (trie_known l Hne) as [Hin|Hout].
  - pose proof trie_checked as H. rewrite forallb_forall in H.
    specialize (H l (proj1 (list_elem_of_In _ _) Hin)). apply andb_prop in H as [Ht H].
    assert (Hr : In c (seqZ (-128) 256)) by (apply list_elem_of_In, elem_of_seqZ; lia).
    rewrite forallb_forall in H. specialize (H c Hr).
    unfold trie_check in H. rewrite Hplain, Hclosed in H. cbn [negb orb] in H.
    apply bool_decide_eq_true in H. apply orb_prop in Ht as [Ht|Ht].
    + pose proof (name_step p c (trie l) x Ht Hplain) as Hs. by rewrite H in Hs.
    + rewrite forallb_forall in Ht. specialize (Ht c Hr). by rewrite Hplain, Hclosed in Ht.
  - rewrite (trie_unknown l Hout), trie_unknown.
    + by apply param_p_next.
    + intros r Hr. by apply prefixb_app_false, Hout.
Qed.

(** The first character of a name. *)
Definition first_check (c : Z) : bool :=
  one_of c "@;?:=" ||
  match uri_step 0 c URI_PARAM (vars_init SIP_URI_T 0) with
  | Next st _ => bool_decide (st = trie [tolower c])
  | _ => false
  end.

Lemma first_checked : forallb first_check (seqZ (-128) 256) = true.
Proof. by vm_compute. Qed.

Lemma trie_first p c x :
  -128 ≤ c ≤ 127 → one_of c "@;?:=" = false →
  uri_step p c URI_PARAM x = Next (trie [tolower c]) (set_b p x).
Proof.
  intros Hc Hplain. pose proof first_checked as H. rewrite forallb_forall in H.
  assert (Hin : In c (seqZ (-128) 256)) by (apply list_elem_of_In, elem_of_seqZ; lia).
  specialize (H c Hin).
  unfold first_check in H. rewrite Hplain in H. revert H.
  cbn [uri_step step_param orb]. unfold param_common_cases.
  rewrite (plain_not _ _ (ch "@") Hplain eq_refl), (plain_not _ _ (ch ";") Hplain eq_refl),
    (plain_not _ _ (ch "?") Hplain eq_refl), (plain_not _ _ (ch ":") Hplain eq_refl).
  repeat match goal with |- context [one_of c ?s] => destruct (one_of c s) end;
    intros H; apply bool_decide_eq_true in H; by rewrite H.
Qed.

Lemma closed_prefix l k : closed (l ++ k) = true → k ≠ [] → closed l = true.
Proof.
  unfold closed. intros H Hk. rewrite forallb_forall in *. intros s Hs. specialize (H s Hs).
  apply orb_true_iff in H as [H%negb_true_iff|H%Nat.eqb_eq]; apply orb_true_iff.
  - left. apply negb_true_iff, not_true_is_false. intros Hp.
    apply prefixb_spec in Hp. apply not_false_iff_true in H; [done|].
    apply prefixb_spec. assert (Hlen := f_equal length Hp). rewrite length_take in Hlen.
    rewrite take_app_le; [done|lia].
  - left. apply negb_true_iff, not_true_is_false. intros Hp%prefixb_length.
    rewrite length_chars, length_app in *. destruct k; [done|]. simpl in *. lia.
Qed.

(** A whole name, from the state [URI_PARAM]. *)
Lemma name_run n p x : name_ok n →
  uri_run n p URI_PARAM x = Next (name_state n) (set_b p x).
Proof.
  intros (Hne & Hplain & Hclosed). unfold name_state, pn_closed in *. rewrite <- (length_lower n) in Hclosed.
  fold (closed (lower n)) in Hclosed. induction n as [|c n IH] using rev_ind; [done|].
  apply Forall_app in Hplain as [Hn Hc]. apply Forall_cons in Hc as [[Hr Hc] _].
  destruct (decide (n = [])) as [->|Hn0].
  { cbn [app uri_run]. by rewrite trie_first. }
  rewrite lower_snoc in Hclosed.
  assert (Hcl : closed (lower n) = true) by (by eapply closed_prefix).
  rewrite (uri_run_snoc _ _ _ _ _ _ _ (IH Hn0 Hn Hcl)), trie_next; [by rewrite lower_snoc| |done..].
  by destruct n.
Qed.

(** ** The transport values *)
Definition transport_rows : list (string * list ustate * Z) :=
  [("udp", [VU_U; VU_D; VU_P_FIN], PROTO_UDP);
   ("tcp", [VT_T; VT_C; VT_P_FIN], PROTO_TCP);
   ("tls", [VT_T; VTLS_L; VTLS_S_FIN], PROTO_TLS);
   ("sctp", [VS_S; VS_C; VS_T; VS_P_FIN], PROTO_SCTP);
   ("ws", [VW_W; VW_S], PROTO_WS);
   ("wss", [VW_W; VW_S; VWS_S_FIN], PROTO_WSS)].

Definition value_trie : list Z → ustate := word_state (table_words transport_rows) URI_VAL_P.

(** The protocol that a transport value denotes. *)
Definition transport_proto (val : list Z) : Z := table_value transport_rows PROTO_OTHER (lower val).

Definition is_value_state (st : ustate) : bool :=
  match st with
  | URI_VAL_P | VU_U | VU_D | VU_P_FIN | VT_T | VT_C | VT_P_FIN | VTLS_L | VTLS_S_FIN
  | VS_S | VS_C | VS_T | VS_P_FIN | VW_W | VW_S | VWS_S_FIN => true
  | _ => false
  end.

Definition value_next (st : ustate) (c : Z) : ustate :=
  match uri_step 0 c st (vars_init SIP_URI_T 0) with Next st _ => st | _ => URI_INIT end.

Lemma value_step p c st x :
  is_value_state st = true → one_of c "@;?:" = false →
  uri_step p c st x = Next (value_next st c) x.
Proof.
  intros Hst Hc. unfold value_next, uri_step.
  assert (E1 := plain_not _ _ (ch "@") Hc eq_refl). assert (E2 := plain_not _ _ (ch ";") Hc eq_refl).
  assert (E3 := plain_not _ _ (ch "?") Hc eq_refl). assert (E4 := plain_not _ _ (ch ":") Hc eq_refl).
  destruct st; try (by vm_compute in Hst); cbn [step_value];
    unfold value_switch, value_switch_big, transport_fin, value_common_cases;
    rewrite ?E1, ?E2, ?E3, ?E4;
    repeat match goal with |- context [one_of c ?s] => destruct (one_of c s) end; done.
Qed.

(** The same step, on the states in which a value is read or begins. *)
Definition value_move (st : ustate) (c : Z) : option ustate :=
  if is_value_state st || bool_decide (st = PT_eq) then Some (value_next st c) else None.

Lemma value_checked : word_check (table_words transport_rows) URI_VAL_P (λ c, one_of c "@;?:") (λ c, one_of c "@;?:") value_move PT_eq = true.
Proof. by vm_compute. Qed.

Lemma value_trie_state l : l ≠ [] → is_value_state (value_trie l) = true.
Proof. by apply (word_value _ _ _ (λ _, true)); [vm_compute|]. Qed.

Lemma value_trie_next p l c x : l ≠ [] → -128 ≤ c ≤ 127 → one_of c "@;?:" = false →
  uri_step p c (value_trie l) x = Next (value_trie (l ++ [tolower c])) x.
Proof.
  intros Hne Hc Hplain. pose proof (word_next _ _ _ _ _ _ value_checked l c Hne Hc Hplain) as H.
  pose proof (value_trie_state l Hne) as Hst. fold (value_trie l) in H. unfold value_move in H.
  rewrite Hst in H. injection H as H. by rewrite value_step, H.
Qed.

(** The state of the value [v] of the parameter [r]. *)
Definition value_state (r : param_row) (v : list Z) : ustate :=
  if decide (r_field r = F_transport) then value_trie (lower v) else URI_VAL_P.

(** The variables while the value is read, which begins at [p]. *)
Definition value_vars (r : param_row) (p : Z) (x : vars) : vars :=
  let x := set_param_val (r_val r) (set_param (r_field r) x) in
  let x := if decide (r_field r = F_transport) then on_uri (set_uri_proto PROTO_OTHER) x else x in
  set_v p x.

Lemma value_first r p c x : r ∈ param_rows → -128 ≤ c ≤ 127 → one_of c "@;?:" = false →
  uri_step p c (r_eq r) x = Next (value_state r [c]) (value_vars r p x).
Proof.
  intros Hr Hc Hplain.
  assert (E1 := plain_not _ _ (ch "@") Hplain eq_refl). assert (E2 := plain_not _ _ (ch ";") Hplain eq_refl).
  assert (E3 := plain_not _ _ (ch "?") Hplain eq_refl). assert (E4 := plain_not _ _ (ch ":") Hplain eq_refl).
  assert (Htransport : uri_step p c PT_eq x =
    Next (value_trie [tolower c]) (value_vars (ParamRow "transport" [] PT_eq F_transport F_transport_val) p x)).
  { pose proof (word_first _ _ _ _ _ _ value_checked c Hc Hplain) as H.
    change (Some (value_next PT_eq c) = Some (value_trie [tolower c])) in H. injection H as <-.
    unfold value_next. cbn [uri_step step_transport]. unfold param_common_cases. rewrite E1, E2, E3, E4.
    repeat match goal with |- context [one_of c ?s] => destruct (one_of c s) end; done. }
  unfold param_rows in Hr. repeat (apply elem_of_cons in Hr as [->|Hr]); [exact Htransport|..|by apply elem_of_nil in Hr].
  all: cbn [r_eq uri_step step_names step_flags step_pn]; unfold value_start, param_common_cases;
    rewrite E1, E2, E3, E4; done.
Qed.

Lemma value_run r p v x : r ∈ param_rows → v ≠ [] → plain "@;?:" v →
  uri_run v p (r_eq r) x = Next (value_state r v) (value_vars r p x).
Proof.
  intros Hr Hne Hv. induction v as [|c v IH] using rev_ind; [done|].
  apply Forall_app in Hv as [Hv Hc]. apply Forall_cons in Hc as [[Hc Hplain] _].
  destruct (decide (v = [])) as [->|Hv0].
  { cbn [app uri_run]. by rewrite value_first. }
  rewrite (uri_run_snoc _ _ _ _ _ _ _ (IH Hv0 Hv)). unfold value_state.
  destruct (decide (r_field r = F_transport)).
  - rewrite lower_snoc. apply value_trie_next; [by destruct v|done|done].
  - rewrite value_step by done. f_equal. unfold value_next. cbn [uri_step step_value].
    unfold value_common_cases.
    by rewrite (plain_not _ _ (ch "@") Hplain eq_refl), (plain_not _ _ (ch ";") Hplain eq_refl),
      (plain_not _ _ (ch "?") Hplain eq_refl), (plain_not _ _ (ch ":") Hplain eq_refl).
Qed.

(** ** The effect of a parameter *)
Definition add_unknown (name val : str) (u : sip_uri) : sip_uri :=
  if u_params_no u <? URI_MAX_U_PARAMS then
    let i := Z.to_nat (u_params_no u) in
    let u := set_u_name i name u in
    let u := if str_len val =? 0 then u else set_u_val i val u in
    set_u_params_no (u_params_no u + 1) u
  else u.

Definition known (n : list Z) : option param_row :=
  find (λ r, list_eqb (lower n) (chars (r_name r))) param_rows.

(** The parameter [n] or [n=v], at the address [b], recorded in [u]. *)
Definition param_put (b : Z) (n : list Z) (v : option (list Z)) (u : sip_uri) : sip_uri :=
  let vstart := b + len n + 1 in
  match known n, v with
  | Some r, Some val =>
      let u := if decide (r_field r = F_transport) then set_uri_proto (transport_proto val) u else u in
      set_str (r_val r) (Str vstart (len val)) (set_str (r_field r) (Str b (len n + 1 + len val)) u)
  | Some r, None => set_str (r_field r) (Str b (len n)) u
  | None, Some val => add_unknown (Str b (len n)) (Str vstart (len val)) u
  | None, None => add_unknown (Str b (len n)) null_str u
  end.

(** The parameters that may stand without a value. *)
Definition is_flag (r : param_row) : bool :=
  existsb (String.eqb (r_name r)) ["lr"; "r2"; "gr"; "pn-provider"].

(** A parameter that the parser handles as its table says: a recognised name
    with a value that is not empty, or a flag; or a name that is not a prefix
    of a recognised one. *)
Definition param_ok (n : list Z) (v : option (list Z)) : Prop :=
  name_ok n ∧
  match known n, v with
  | Some r, Some val => val ≠ [] ∧ plain "@;?:" val
  | Some r, None => is_flag r = true
  | None, Some val => name_state n = URI_PARAM_P ∧ plain "@;?:" val
  | None, None => name_state n = URI_PARAM_P
  end.

Definition param_text (n : list Z) (v : option (list Z)) : list Z :=
  n ++ match v with Some val => ch "=" :: val | None => [] end.

(** ** What happens at the end of a parameter

    [ends q st x s e u F]: in the state [st] with the variables [x] at the
    position [q], a semicolon, a question mark or the end of the URI applies
    [F] to [u]; [s] is the beginning of the parameters. *)
Record ends (q : Z) (st : ustate) (x : vars) (s : Z) (e : bool) (u : sip_uri)
    (F : sip_uri → sip_uri) : Prop := {
  ends_semicolon : ∃ y, uri_step q (ch ";") st x = Next URI_PARAM y ∧ x_s y = s ∧ x_pass y = 0 ∧
    x_v y ≤ q ∧ x_error_headers y = e ∧ x_uri y ≡ F u;
  ends_question : ∃ y, uri_step q (ch "?") st x = Next URI_HEADERS y ∧ x_s y = q + 1 ∧
    x_pass y = 0 ∧ x_error_headers y = e ∧ x_uri y ≡ set_str F_params (slice s q) (F u);
  ends_end : ∃ st' y, uri_end q x st = Next st' y ∧ x_uri y ≡ set_str F_params (slice s q) (F u);
}.

Lemma drop_pass_0 x : x_pass x = 0 → drop_pass x = x.
Proof. unfold drop_pass. by intros ->. Qed.

(** The macros at a terminator. *)
Lemma u_param_semicolon q x o :
  u_param_common_cases q (ch ";") x o = Next URI_PARAM (u_param_set (x_b x) (x_v x) q (drop_pass x)).
Proof. done. Qed.
Lemma u_param_question q x o :
  u_param_common_cases q (ch "?") x o =
  Next URI_HEADERS (u_param_set (x_b x) (x_v x) q (question_case q x)).
Proof. done. Qed.
Lemma value_semicolon q x o :
  value_common_cases q (ch ";") x o = after_param_set URI_PARAM q (drop_pass x).
Proof. done. Qed.
Lemma value_question q x o :
  value_common_cases q (ch "?") x o = after_param_set URI_HEADERS q (question_case q x).
Proof. done. Qed.

(** Equality of two results, member by member. *)
Ltac uri_eq :=
  repeat split; try done;
  try (let h := fresh in intros h; cbn; repeat case_decide; simplify_eq; done).

Section unknown.
Context (q : Z) (x : vars) (b v : Z).
Hypothesis Hpass : x_pass x = 0.
Hypothesis Hb : x_b x = b.
Hypothesis Hv : x_v x = v.

Let F (u : sip_uri) : sip_uri := x_uri (u_param_set b v q (on_uri (λ _, u) x)).

Lemma unknown_params s y u :
F (set_str s y u) ≡ set_str s y (F u).
Proof.
unfold F. cbn. destruct (_ <? URI_MAX_U_PARAMS); [|done].
destruct (_ <? _); [destruct (_ <? _)|]; done.
Qed.

Lemma unknown_ends st : st = URI_PARAM_P ∨ st = URI_PARAM_VAL_P → v ≤ q →
ends q st x (x_s x) (x_error_headers x) (x_uri x) F.
Proof.
intros Hst Hvq.
assert (Hstep : ∀ c, (c =? ch "=") = false → uri_step q c st x = u_param_common_cases q c x (Next st x)).
{ intros c Hc. destruct Hst as [-> | ->]; [|done]. cbn [uri_step step_param]. by rewrite Hc. }
split.
- eexists. rewrite Hstep by done. rewrite u_param_semicolon, drop_pass_0, Hb, Hv by done.
  split; [done|]. cbn. rewrite Hv, Hpass. done.
- eexists. rewrite Hstep by done. rewrite u_param_question. unfold question_case. rewrite drop_pass_0, Hb, Hv by done.
  split; [done|]. split; [done|]. split; [done|]. split; [done|].
  exact (unknown_params F_params (slice (x_s x) q) (x_uri x)).
- do 2 eexists. split; [by destruct Hst as [-> | ->]|]. cbn [put on_uri x_uri].
  by rewrite Hb, Hv.
Qed.
End unknown.

(** The protocol that a state of the value sets. *)
Definition state_proto (st : ustate) : option Z :=
  match st with
  | VU_P_FIN => Some PROTO_UDP
  | VT_P_FIN => Some PROTO_TCP
  | VTLS_S_FIN => Some PROTO_TLS
  | VS_P_FIN => Some PROTO_SCTP
  | VW_S => Some PROTO_WS
  | VWS_S_FIN => Some PROTO_WSS
  | _ => None
  end.

Lemma transport_proto_state v : v ≠ [] →
  transport_proto v = default PROTO_OTHER (state_proto (value_trie (lower v))).
Proof.
  intros Hne. symmetry.
  apply (table_value_state transport_rows URI_VAL_P (λ st, default PROTO_OTHER (state_proto st)));
    [by vm_compute|by destruct v].
Qed.

Section value_ends.
Context (q : Z) (x : vars) (f g : uri_field).
Hypothesis Hpass : x_pass x = 0.
Hypothesis Hf : x_param x = Some f ∧ f ≠ F_params.
Hypothesis Hg : x_param_val x = Some g ∧ g ≠ F_params.

Definition proto_put (st : ustate) (u : sip_uri) : sip_uri :=
match state_proto st with Some n => set_uri_proto n u | None => u end.

(** [param_set(b, v)] and the protocol. *)
Definition value_put (st : ustate) (u : sip_uri) : sip_uri :=
proto_put st (set_str g (slice (x_v x) q) (set_str f (slice (x_b x) q) u)).

Lemma value_param_set y :
x_param y = x_param x → x_param_val y = x_param_val x → x_b y = x_b x → x_v y = x_v x →
param_set (x_b y) (x_v y) q y =
Some (on_uri (λ u, set_str g (slice (x_v x) q) (set_str f (slice (x_b x) q) u)) y).
Proof. intros E1 E2 E3 E4. unfold param_set. by rewrite E1, E2, E3, E4, (proj1 Hf), (proj1 Hg). Qed.

Lemma value_put_params st y u :
value_put st (set_str F_params y u) ≡ set_str F_params y (value_put st u).
Proof.
destruct Hf as [_ Hf'], Hg as [_ Hg']. unfold value_put, proto_put.
destruct (state_proto st); uri_eq.
Qed.

Lemma value_ends st : is_value_state st = true → x_v x ≤ q →
ends q st x (x_s x) (x_error_headers x) (x_uri x) (value_put st).
Proof.
intros Hst Hvq.
assert (Hsemi : uri_step q (ch ";") st x = Next URI_PARAM (on_uri (value_put st) x)).
{ assert (E : after_param_set URI_PARAM q (drop_pass x) =
    Next URI_PARAM (on_uri (λ u, set_str g (slice (x_v x) q) (set_str f (slice (x_b x) q) u)) x)).
  { unfold after_param_set. by rewrite drop_pass_0, value_param_set. }
  destruct st; try discriminate; cbn [uri_step step_value];
    unfold value_switch, value_switch_big, transport_fin, proto_param_set, semicolon_case;
    cbn [one_of]; rewrite ?value_semicolon, ?E; done. }
assert (Hquest : uri_step q (ch "?") st x = Next URI_HEADERS (on_uri (value_put st) (question_case q x))).
{ assert (E : after_param_set URI_HEADERS q (question_case q x) =
    Next URI_HEADERS (on_uri (λ u, set_str g (slice (x_v x) q) (set_str f (slice (x_b x) q) u))
                        (question_case q x))).
  { unfold after_param_set, question_case. rewrite drop_pass_0 by done.
    by rewrite (value_param_set (set_s (q + 1) (put F_params (x_s x) q x))). }
  destruct st; try discriminate; cbn [uri_step step_value];
    unfold value_switch, value_switch_big, transport_fin, proto_param_set;
    cbn [one_of]; rewrite ?value_question, ?E; done. }
assert (Hend : ∃ st', uri_end q x st = Next st' (on_uri (value_put st) (end_params q x))).
{ assert (E : end_value q x = Next URI_VAL_P
    (on_uri (λ u, set_str g (slice (x_v x) q) (set_str f (slice (x_b x) q) u)) (end_params q x))).
  { unfold end_value, after_param_set. rewrite (value_param_set (end_params q x)) by done. done. }
  destruct st; try discriminate; cbn [uri_end end_param]; unfold end_transport;
    rewrite E; by eexists. }
split.
- eexists. split; [exact Hsemi|]. cbn. by rewrite Hpass.
- eexists. split; [exact Hquest|]. unfold question_case. rewrite drop_pass_0 by done.
  cbn [on_uri set_s put x_s x_pass x_error_headers x_uri]. split_and!; try done.
  apply value_put_params.
- destruct Hend as [st' Hend]. exists st'. eexists. split; [exact Hend|]. apply value_put_params.
Qed.
End value_ends.

Lemma ends_ext q st x s e u w (F G : sip_uri → sip_uri) :
  ends q st x s e u F → F u ≡ G w → ends q st x s e w G.
Proof.
  intros [(y & Hy & H1 & H2 & H3 & H4 & Hu) (z & Hz & G1 & G2 & G3 & Hzu) (st' & t & Ht & Htu)] E.
  split.
  - exists y. split_and!; try done. by rewrite Hu.
  - exists z. split_and!; try done. by rewrite Hzu, E.
  - exists st', t. split; [done|]. by rewrite Htu, E.
Qed.

(** A flag, right after its name. *)
Lemma flag_ends q x f eq st : x_pass x = 0 → f ≠ F_params →
  (∀ c, uri_step q c st x = flag_fin q c x f eq) →
  (∃ st', uri_end q x st = Next st' (put f (x_b x) q (end_params q x))) →
  x_v x ≤ q →
  ends q st x (x_s x) (x_error_headers x) (x_uri x) (set_str f (slice (x_b x) q)).
Proof.
  intros Hpass Hf Hstep [st' Hend] Hv. split.
  - rewrite Hstep. unfold flag_fin. eexists. split; [done|].
    unfold semicolon_case. rewrite drop_pass_0 by done. by rewrite <- Hpass.
  - rewrite Hstep. unfold flag_fin. eexists. split; [done|].
    unfold question_case. rewrite drop_pass_0 by done. rewrite <- Hpass at 1.
    split_and!; try done. cbn. by apply set_str_comm.
  - exists st'. eexists. split; [exact Hend|]. cbn. by apply set_str_comm.
Qed.

Lemma pn_flag_ends q x : x_pass x = 0 → x_v x ≤ q →
  ends q PN1_FIN x (x_s x) (x_error_headers x) (x_uri x) (set_str F_pn_provider (slice (x_b x) q)).
Proof.
  intros Hpass Hv. split.
  - eexists. split; [done|]. unfold semicolon_case. rewrite drop_pass_0 by done. by rewrite <- Hpass.
  - eexists. split; [done|]. unfold question_case. rewrite drop_pass_0 by done. rewrite <- Hpass at 1.
    split_and!; try done. cbn. by apply set_str_comm.
  - do 2 eexists. split; [done|]. cbn. by apply set_str_comm.
Qed.

Lemma known_spec n r : known n = Some r → r ∈ param_rows ∧ lower n = chars (r_name r).
Proof.
  intros [Hin H]%find_some. split; [by apply list_elem_of_In|]. by apply list_eqb_spec.
Qed.

(** The equals sign after a complete name. *)
Lemma eq_step r p x : r ∈ param_rows →
  ∃ y, uri_step p (ch "=") (trie (chars (r_name r))) x = Next (r_eq r) y ∧
    ∀ q, value_vars r q y = value_vars r q x.
Proof.
  intros Hr. unfold param_rows in Hr.
  repeat (apply elem_of_cons in Hr as [->|Hr]); [..|by apply elem_of_nil in Hr]; by eexists.
Qed.

Lemma row_fields r : r ∈ param_rows → r_field r ≠ F_params ∧ r_val r ≠ F_params ∧ r_field r ≠ r_val r.
Proof.
  intros Hr. unfold param_rows in Hr.
  by repeat (apply elem_of_cons in Hr as [->|Hr]); [..|by apply elem_of_nil in Hr].
Qed.

Lemma value_state_ok r v : v ≠ [] → is_value_state (value_state r v) = true.
Proof.
  intros Hne. unfold value_state. destruct (decide _); [|done]. apply value_trie_state. by destruct v.
Qed.

Section param_run.
Context (n : list Z) (p : Z) (x : vars).
Hypothesis Hn : name_ok n.
Hypothesis Hpass : x_pass x = 0.
Hypothesis Hv : x_v x ≤ p.

Lemma length_name : 0 < len n.
Proof. unfold len. destruct Hn as [Hne _]. destruct n; [done|]. simpl. lia. Qed.

Lemma known_value_run r val : known n = Some r → val ≠ [] → plain "@;?:" val →
len (param_text n (Some val)) < 2 ^ 31 →
∃ st y, uri_run (param_text n (Some val)) p URI_PARAM x = Next st y ∧
  ends (p + len (param_text n (Some val))) st y (x_s x) (x_error_headers x) (x_uri x)
    (param_put p n (Some val)).
Proof.
intros Hr Hne Hval Hlen. destruct (known_spec _ _ Hr) as [Hin Hlow].
destruct (row_fields r Hin) as (Hf & Hg & _).
unfold param_text in *. rewrite (uri_run_app _ _ _ _ _ _ _ (name_run n p x Hn)).
cbn [uri_run]. unfold name_state. rewrite Hlow.
destruct (eq_step r (p + Z.of_nat (length n)) (set_b p x) Hin) as (y & -> & Hy).
rewrite (value_run r _ val y Hin Hne Hval), Hy. do 2 eexists. split; [done|].
set (vs := p + Z.of_nat (length n) + 1). set (q := p + len (n ++ ch "=" :: val)).
assert (Hq : q = vs + len val).
{ unfold q, vs, len. rewrite length_app. cbn [length]. lia. }
assert (Hqp : q = p + (len n + 1 + len val)) by (unfold vs, len in *; lia).
unfold len in Hlen. rewrite length_app in Hlen. cbn [length] in Hlen.
eapply ends_ext.
- pose proof (value_ends q (value_vars r vs (set_b p x)) (r_field r) (r_val r)) as H.
  assert (E : x_s (value_vars r vs (set_b p x)) = x_s x ∧
    x_error_headers (value_vars r vs (set_b p x)) = x_error_headers x ∧
    x_pass (value_vars r vs (set_b p x)) = 0 ∧ x_v (value_vars r vs (set_b p x)) = vs ∧
    x_param (value_vars r vs (set_b p x)) = Some (r_field r) ∧
    x_param_val (value_vars r vs (set_b p x)) = Some (r_val r)).
  { unfold value_vars. by destruct (decide _). }
  destruct E as (E1 & E2 & E3 & E4 & E5 & E6). rewrite E1, E2 in H.
  apply H; [done|done|done|by apply value_state_ok|]. rewrite E4, Hq. unfold len. lia.
- unfold param_put. rewrite Hr. unfold value_put, proto_put, value_vars, value_state.
  assert (Hs1 : slice vs q = Str vs (len val)) by (apply slice_len; [done|unfold len; lia]).
  assert (Hs2 : slice p q = Str p (len n + 1 + len val)).
  { unfold slice. rewrite Hqp. replace (p + (len n + 1 + len val) - p) with (len n + 1 + len val) by lia.
    rewrite to_int_small; [done|]. unfold len. lia. }
  destruct (decide (r_field r = F_transport)).
  + cbn [x_v x_b set_v on_uri set_param_val set_param set_b x_uri]. rewrite Hs1, Hs2.
    rewrite (transport_proto_state val Hne).
    destruct (state_proto (value_trie (lower val))); uri_eq.
  + cbn [x_v x_b set_v on_uri set_param_val set_param set_b x_uri state_proto]. by rewrite Hs1, Hs2.
Qed.

Lemma flag_run r : known n = Some r → is_flag r = true → len n < 2 ^ 31 →
∃ st y, uri_run n p URI_PARAM x = Next st y ∧
  ends (p + len n) st y (x_s x) (x_error_headers x) (x_uri x) (param_put p n None).
Proof.
intros Hr Hflag Hlen. destruct (known_spec _ _ Hr) as [Hin Hlow].
rewrite (name_run n p x Hn). unfold name_state. rewrite Hlow.
do 2 eexists. split; [done|]. set (q := p + len n).
assert (Hs : slice p q = Str p (len n)) by by apply slice_len.
assert (Hext : ends q (trie (chars (r_name r))) (set_b p x) (x_s (set_b p x))
  (x_error_headers (set_b p x)) (x_uri (set_b p x)) (set_str (r_field r) (slice (x_b (set_b p x)) q))).
{ pose proof length_name. unfold param_rows in Hin.
  repeat (apply elem_of_cons in Hin as [->|Hin]); [..|by apply elem_of_nil in Hin]; try discriminate;
    cbn [r_field r_name].
  - apply (flag_ends q (set_b p x) F_lr PLR_eq); try done; [by eexists|cbn; lia].
  - apply (flag_ends q (set_b p x) F_r2 PR2_eq); try done; [by eexists|cbn; lia].
  - apply (flag_ends q (set_b p x) F_gr PG_eq); try done; [by eexists|cbn; lia].
  - apply (pn_flag_ends q (set_b p x)); try done. cbn; lia. }
eapply ends_ext; [exact Hext|]. unfold param_put. rewrite Hr. cbn [x_b set_b x_uri]. by rewrite Hs.
Qed.

Lemma unknown_state : known n = None → name_state n = URI_PARAM_P →
uri_run n p URI_PARAM x = Next URI_PARAM_P (set_b p x).
Proof. intros _ Hst. by rewrite (name_run n p x Hn), Hst. Qed.

Lemma unknown_run : known n = None → name_state n = URI_PARAM_P → len n < 2 ^ 31 →
∃ st y, uri_run n p URI_PARAM x = Next st y ∧
  ends (p + len n) st y (x_s x) (x_error_headers x) (x_uri x) (param_put p n None).
Proof.
intros Hk Hst Hlen. rewrite unknown_state by done. do 2 eexists. split; [done|].
pose proof length_name. eapply ends_ext.
- apply (unknown_ends (p + len n) (set_b p x) p (x_v x)); [done|done|done|by left|lia].
- unfold param_put, add_unknown. rewrite Hk. cbn [u_param_set on_uri x_uri set_b].
  destruct (_ <? URI_MAX_U_PARAMS); [|done].
  destruct (Z.ltb_spec p (x_v x)); [lia|]. cbn [str_len null_str Z.eqb].
  by rewrite (slice_len p n (p + len n)).
Qed.

Lemma val_run q y val : plain "@;?:" val →
uri_run val q URI_PARAM_VAL_P y = Next URI_PARAM_VAL_P y.
Proof.
intros Hval. revert q. induction Hval as [|c val [_ Hc] _ IH]; intros q; [done|].
cbn [uri_run uri_step step_param]. unfold u_param_common_cases.
rewrite (plain_not _ _ (ch "@") Hc eq_refl), (plain_not _ _ (ch ";") Hc eq_refl),
  (plain_not _ _ (ch "?") Hc eq_refl), (plain_not _ _ (ch ":") Hc eq_refl). apply IH.
Qed.

Lemma unknown_value_run val : known n = None → name_state n = URI_PARAM_P → plain "@;?:" val →
len (param_text n (Some val)) < 2 ^ 31 →
∃ st y, uri_run (param_text n (Some val)) p URI_PARAM x = Next st y ∧
  ends (p + len (param_text n (Some val))) st y (x_s x) (x_error_headers x) (x_uri x)
    (param_put p n (Some val)).
Proof.
intros Hk Hst Hval Hlen. unfold param_text in *.
rewrite (uri_run_app _ _ _ _ _ _ _ (unknown_state Hk Hst)). cbn [uri_run].
set (vs := p + Z.of_nat (length n) + 1).
assert (E : uri_step (p + Z.of_nat (length n)) (ch "=") URI_PARAM_P (set_b p x) =
  Next URI_PARAM_VAL_P (set_v vs (set_b p x))) by done.
rewrite E, (val_run _ _ val Hval). do 2 eexists. split; [done|].
set (q := p + len (n ++ ch "=" :: val)).
assert (Hq : q = vs + len val) by (unfold q, vs, len; rewrite length_app; cbn [length]; lia).
unfold len in Hlen. rewrite length_app in Hlen. cbn [length] in Hlen. pose proof length_name as Hpos.
eapply ends_ext.
- apply (unknown_ends q (set_v vs (set_b p x)) p vs); [done|done|done|by right|unfold len in Hq; lia].
- unfold param_put, add_unknown. rewrite Hk. cbn [u_param_set on_uri x_uri set_b set_v].
  destruct (_ <? URI_MAX_U_PARAMS); [|done].
  destruct (Z.ltb_spec p vs); [|unfold vs in *; lia].
  replace (vs - p - 1) with (len n) by (unfold vs, len; lia).
  rewrite to_int_small by (unfold len in *; lia). cbn [str_len]. rewrite (slice_len vs val q) by (done || (unfold len; lia)).
  change (p + len n + 1) with vs.
  destruct (Z.ltb_spec vs q), (Z.eqb_spec (len val) 0); try done; unfold len in *; lia.
Qed.
End param_run.

(** One parameter. *)
Lemma param_run n v p x : param_ok n v → x_pass x = 0 → x_v x ≤ p →
  len (param_text n v) < 2 ^ 31 →
  ∃ st y, uri_run (param_text n v) p URI_PARAM x = Next st y ∧
    ends (p + len (param_text n v)) st y (x_s x) (x_error_headers x) (x_uri x) (param_put p n v).
Proof.
  intros [Hn Hok] Hpass Hv Hlen. destruct (known n) as [r|] eqn:Hk, v as [val|]; unfold param_text in *.
  - destruct Hok. by eapply known_value_run.
  - rewrite app_nil_r in *. by eapply flag_run.
  - destruct Hok. by apply unknown_value_run.
  - rewrite app_nil_r in *. by apply unknown_run.
Qed.
