(* ===== verification/UriGrammar.v ===== *)
(** * SIP URIs: every well-formed URI is parsed into its parts

    A grammar of [sip:] and [sips:] URIs (user and password, host name or IPv6
    reference, port, parameters, headers), the result that each URI should have,
    and the theorem that [parse_uri] computes it; the members of the result one by one. *)

From stdpp Require Import strings.
From S2P Require Import ParserF Uri UriParamRun.

(** ** The grammar *)
Inductive host_text :=
| HName (l : list Z)
| HIPv6 (l : list Z).

Record authority := Authority {
  a_user : option (list Z * option (list Z));
  a_host : host_text;
  a_port : option (list Z);
}.

Definition host_chars (h : host_text) : list Z :=
  match h with HName l => l | HIPv6 l => ch "[" :: l ++ [ch "]"] end.

Definition user_chars (u : option (list Z * option (list Z))) : list Z :=
  match u with
  | None => []
  | Some (n, None) => n ++ [ch "@"]
  | Some (n, Some pw) => n ++ ch ":" :: pw ++ [ch "@"]
  end.

Definition port_chars (p : option (list Z)) : list Z :=
  match p with None => [] | Some ds => ch ":" :: ds end.

Definition authority_chars (a : authority) : list Z :=
  user_chars (a_user a) ++ host_chars (a_host a) ++ port_chars (a_port a).

Fixpoint params_chars (l : list (list Z * option (list Z))) : list Z :=
  match l with
  | [] => []
  | (n, v) :: l => ch ";" :: param_text n v ++ params_chars l
  end.

Definition headers_chars (h : option (list Z)) : list Z :=
  match h with None => [] | Some l => ch "?" :: l end.

(** ** Well-formedness *)
Definition host_ok (h : host_text) : Prop :=
  match h with
  | HName l => l ≠ [] ∧ plain "@:;?&[]" l
  | HIPv6 l => plain "][&@;?" l
  end.

Record authority_ok (a : authority) : Prop := {
  ao_user : match a_user a with
            | None => True
            | Some (n, pw) => n ≠ [] ∧ plain "@:;?[]" n ∧
                match pw with None => True | Some l => plain "@:;?[]" l end
            end;
  ao_host : host_ok (a_host a);
  ao_port : match a_port a with None => True | Some ds => digits ds end;
}.

(** ** The result *)
Definition user_put (s : Z) (u : option (list Z * option (list Z))) (w : sip_uri) : sip_uri :=
  match u with
  | None => w
  | Some (n, None) => set_str F_user (Str s (len n)) w
  | Some (n, Some pw) => set_str F_passwd (Str (s + len n + 1) (len pw)) (set_str F_user (Str s (len n)) w)
  end.

Definition port_put (s : Z) (p : option (list Z)) (w : sip_uri) : sip_uri :=
  match p with
  | None => w
  | Some ds => set_uri_port_no (decimal ds) (set_str F_port (Str (s + 1) (len ds)) w)
  end.

(** The authority at the address [s]. *)
Definition authority_put (s : Z) (a : authority) (w : sip_uri) : sip_uri :=
  let hs := s + len (user_chars (a_user a)) in
  port_put (hs + len (host_chars (a_host a))) (a_port a)
    (set_str F_host (Str hs (len (host_chars (a_host a)))) (user_put s (a_user a) w)).

(** The parameters, the first of them at the address [b]. *)
Fixpoint params_put (b : Z) (l : list (list Z * option (list Z))) (w : sip_uri) : sip_uri :=
  match l with
  | [] => w
  | (n, v) :: l => params_put (b + len (param_text n v) + 1) l (param_put b n v w)
  end.

(** ** Runs through the authority *)
Lemma plain_step (stop : string) c a : one_of c stop = false → one_of (ch a) stop = true → (c =? ch a) = false.
Proof. apply plain_not. Qed.

Lemma user_run_rest n p x : plain "@:;?[]" n → uri_run n p URI_USER x = Next URI_USER x.
Proof.
  intros Hn. revert p. induction Hn as [|c n [_ Hc] _ IH]; intros p; [done|].
  cbn [uri_run uri_step step_user].
  rewrite (plain_step _ _ "@" Hc eq_refl), (plain_step _ _ ":" Hc eq_refl),
    (plain_step _ _ ";" Hc eq_refl), (plain_step _ _ "?" Hc eq_refl).
  cbn [one_of]. rewrite (plain_step _ _ "[" Hc eq_refl), (plain_step _ _ "]" Hc eq_refl). apply IH.
Qed.

Lemma user_run n p x : n ≠ [] → plain "@:;?[]" n → uri_run n p URI_INIT x = Next URI_USER x.
Proof.
  intros Hne Hn. destruct n as [|c n]; [done|]. apply Forall_cons in Hn as [[_ Hc] Hn].
  cbn [uri_run uri_step step_user one_of].
  rewrite (plain_step _ _ "@" Hc eq_refl), (plain_step _ _ ":" Hc eq_refl),
    (plain_step _ _ "[" Hc eq_refl), (plain_step _ _ "]" Hc eq_refl). by apply user_run_rest.
Qed.

(** Digits, in the states that read a port. *)
Lemma case_port_next D d x : x_port_no x = to_int D →
  case_port d x = set_port_no (to_int (D * 10 + (d - 48))) x.
Proof. intros E. unfold case_port. rewrite E. change (ch "0") with 48. by rewrite int_digit_next. Qed.

Lemma digit_plain d a : 48 ≤ d ≤ 57 → is_digit (ch a) = false → (d =? ch a) = false.
Proof.
  intros Hd Ha. destruct (Z.eqb_spec d (ch a)) as [E|]; [|done].
  rewrite <- E in Ha. by rewrite (proj2 (is_digit_spec d) Hd) in Ha.
Qed.

Lemma port_run ds st p x D : st = URI_PORT ∨ st = URI_PASSWORD → digits ds → x_port_no x = to_int D →
  uri_run ds p st x =
  Next st (set_port_no (to_int (fold_left (λ n d, n * 10 + (d - 48)) ds D)) x).
Proof.
  intros Hst Hds. revert p x D. induction Hds as [|d ds Hd _ IH]; intros p x D E.
  { cbn. rewrite <- E. by destruct x. }
  assert (Hstep : uri_step p d st x = Next st (case_port d x)).
  { destruct Hst as [-> | ->]; cbn [uri_step step_host step_user one_of];
      rewrite ?(digit_plain d "@" Hd), ?(digit_plain d ";" Hd), ?(digit_plain d "?" Hd) by done;
      by rewrite (proj2 (is_digit_spec d) Hd). }
  cbn [uri_run fold_left]. rewrite Hstep, (case_port_next D), (IH _ _ (D * 10 + (d - 48))) by done. done.
Qed.

(** A password, with the at sign after it. *)
Lemma pw_alpha_run pw p x : plain "@:;?[]" pw →
  uri_run pw p URI_PASSWORD_ALPHA x = Next URI_PASSWORD_ALPHA x.
Proof.
  intros Hpw. revert p. induction Hpw as [|c pw [_ Hc] _ IH]; intros p; [done|].
  cbn [uri_run uri_step step_user one_of].
  rewrite (plain_step _ _ "@" Hc eq_refl), (plain_step _ _ ":" Hc eq_refl),
    (plain_step _ _ ";" Hc eq_refl), (plain_step _ _ "?" Hc eq_refl),
    (plain_step _ _ "[" Hc eq_refl), (plain_step _ _ "]" Hc eq_refl). apply IH.
Qed.

Lemma pw_run pw p x : plain "@:;?[]" pw →
  uri_run (pw ++ [ch "@"]) p URI_PASSWORD x =
  Next URI_HOST (set_s (p + len pw + 1) (set_found_user true
    (set_port_no 0 (put F_passwd (x_s x) (p + len pw) x)))).
Proof.
  intros Hpw. revert p x. induction Hpw as [|c pw [Hr Hc] Hpw IH]; intros p x.
  { cbn. by rewrite Z.add_0_r. }
  assert (Hlen : ∀ q, q + 1 + len pw = q + len (c :: pw)) by (intros; unfold len; cbn [length]; lia).
  cbn [app uri_run uri_step step_user one_of].
  rewrite (plain_step _ _ "@" Hc eq_refl), (plain_step _ _ ":" Hc eq_refl),
    (plain_step _ _ ";" Hc eq_refl), (plain_step _ _ "?" Hc eq_refl),
    (plain_step _ _ "[" Hc eq_refl), (plain_step _ _ "]" Hc eq_refl). cbn [orb].
  destruct (is_digit c).
  - rewrite IH, !Hlen. done.
  - rewrite (uri_run_app _ _ _ _ _ _ _ (pw_alpha_run pw (p + 1) _ Hpw)).
    fold (len pw). rewrite Hlen. done.
Qed.

(** What happens at the end of the authority: [w] is the URI recorded. *)
Record auth_ends (q : Z) (st : ustate) (x : vars) (w : sip_uri) : Prop := {
  ae_semicolon : ∃ y, uri_step q (ch ";") st x = Next URI_PARAM y ∧ x_s y = q + 1 ∧
    x_pass y = 0 ∧ x_v y ≤ q ∧ x_error_headers y = false ∧ x_uri y ≡ w;
  ae_question : ∃ y, uri_step q (ch "?") st x = Next URI_HEADERS y ∧ x_s y = q + 1 ∧
    x_pass y = 0 ∧ x_error_headers y = false ∧ x_uri y ≡ w;
  ae_end : ∃ st' y, uri_end q x st = Next st' y ∧ x_uri y ≡ w;
}.

Lemma auth_ends_ext q st x w w' : auth_ends q st x w → w ≡ w' → auth_ends q st x w'.
Proof.
  intros [(y & Hy & H1 & H2 & H3 & H4 & Hu) (z & Hz & G1 & G2 & G3 & Hzu) (st' & t & Ht & Htu)] E.
  split.
  - exists y. split_and!; try done. by rewrite Hu.
  - exists z. split_and!; try done. by rewrite Hzu.
  - exists st', t. split; [done|]. by rewrite Htu.
Qed.

Section ends.
Context (q : Z) (x : vars).
Hypothesis Hpass : x_pass x = 0.
Hypothesis Herr : x_error_headers x = false.
Hypothesis Hv : x_v x ≤ q.

Lemma host_ends st : st = URI_HOST_P ∨ st = URI_HOST6_END →
auth_ends q st x (set_str F_host (slice (x_s x) q) (x_uri x)).
Proof.
intros Hst.
split; [eexists|eexists|do 2 eexists]; (split; [by destruct Hst as [-> | ->]|]); done.
Qed.

Lemma port_ends :
auth_ends q URI_PORT x
  (set_uri_port_no (x_port_no x) (set_str F_port (slice (x_s x) q) (x_uri x))).
Proof. split; [eexists|eexists|do 2 eexists]; (split; [done|]); done. Qed.

Lemma user_ends : x_found_user x = false →
auth_ends q URI_USER x (set_str F_host (slice (x_s x) q) (x_uri x)).
Proof.
intros Hf. split; [eexists; split; [reflexivity|done]|eexists; split; [reflexivity|done]|].
do 2 eexists. cbn [uri_end end_main]. by rewrite Hf.
Qed.

Lemma password_ends h : x_found_user x = false →
u_str (x_uri x) F_user = h →
auth_ends q URI_PASSWORD x
  (set_uri_port_no (x_port_no x) (set_str F_port (slice (x_s x) q)
    (set_str F_host h (set_str F_user null_str (x_uri x))))).
Proof.
intros Hf Hh.
assert (E : x_uri (user_is_host (on_uri (set_uri_port_no (x_port_no x)) (put F_port (x_s x) q x))) ≡
  set_uri_port_no (x_port_no x) (set_str F_port (slice (x_s x) q)
    (set_str F_host h (set_str F_user null_str (x_uri x))))).
{ cbn. rewrite Hh. uri_eq. }
split; [eexists; split; [reflexivity|by split_and!]|eexists; split; [reflexivity|by split_and!]|].
do 2 eexists. cbn [uri_end end_main]. by rewrite Hf.
Qed.
End ends.

(** ** The run through the authority *)
Lemma host_run h p x : host_ok h →
  ∃ st, (st = URI_HOST_P ∨ st = URI_HOST6_END) ∧
    uri_run (host_chars h) p URI_HOST x = Next st x ∧
    (∀ l, h = HIPv6 l → x_s x = p → uri_run (host_chars h) p URI_INIT x = Next st x).
Proof.
  destruct h as [l|l]; cbn [host_ok host_chars].
  - intros [Hne Hl]. exists URI_HOST_P. split; [by left|]. split; [|done].
    destruct l as [|c l]; [done|]. apply Forall_cons in Hl as [[_ Hc] Hl].
    cbn [uri_run uri_step step_host one_of].
    rewrite (plain_step _ _ "@" Hc eq_refl), (plain_step _ _ ":" Hc eq_refl),
      (plain_step _ _ ";" Hc eq_refl), (plain_step _ _ "?" Hc eq_refl),
      (plain_step _ _ "&" Hc eq_refl), (plain_step _ _ "[" Hc eq_refl). cbn [orb].
    clear Hc Hne. generalize (p + 1). induction Hl as [|d l [_ Hd] _ IH]; intros q; [done|].
    cbn [uri_run uri_step step_host]. unfold check_host_end. cbn [one_of].
    rewrite (plain_step _ _ "@" Hd eq_refl), (plain_step _ _ ":" Hd eq_refl),
      (plain_step _ _ ";" Hd eq_refl), (plain_step _ _ "?" Hd eq_refl),
      (plain_step _ _ "&" Hd eq_refl). apply IH.
  - intros Hl. exists URI_HOST6_END. split; [by right|].
    assert (Hin : ∀ q, uri_run (l ++ [ch "]"]) q URI_HOST6_P x = Next URI_HOST6_END x).
    { induction Hl as [|d l [_ Hd] _ IH]; intros q; [done|].
      cbn [app uri_run uri_step step_host one_of].
      rewrite (plain_step _ _ "@" Hd eq_refl), (plain_step _ _ "]" Hd eq_refl),
        (plain_step _ _ ";" Hd eq_refl), (plain_step _ _ "?" Hd eq_refl),
        (plain_step _ _ "&" Hd eq_refl), (plain_step _ _ "[" Hd eq_refl). apply IH. }
    split; [exact (Hin (p + 1))|]. intros _ _ E.
    change (uri_run (ch "[" :: l ++ [ch "]"]) p URI_INIT x) with
      (uri_run (l ++ [ch "]"]) (p + 1) URI_HOST6_P (set_s p x)).
    rewrite <- E. replace (set_s (x_s x) x) with x by by destruct x. apply Hin.
Qed.

(** From the end of the host to the end of the authority. *)
Lemma host_port_run st hq x port :
  st = URI_HOST_P ∨ st = URI_HOST6_END → x_pass x = 0 → x_error_headers x = false → x_v x ≤ hq →
  x_port_no x = 0 → match port with None => True | Some ds => digits ds end →
  len (port_chars port) < 2 ^ 31 →
  ∃ st' y, uri_run (port_chars port) hq st x = Next st' y ∧
    auth_ends (hq + len (port_chars port)) st' y
      (port_put hq port (set_str F_host (slice (x_s x) hq) (x_uri x))).
Proof.
  intros Hst Hpass Herr Hv Hno Hport Hlen. destruct port as [ds|]; cbn [port_chars] in *.
  - assert (Hcolon : uri_step hq (ch ":") st x = Next URI_PORT (set_s (hq + 1) (put F_host (x_s x) hq x))).
    { by destruct Hst as [-> | ->]. }
    cbn [uri_run]. rewrite Hcolon, (port_run ds URI_PORT (hq + 1) _ 0) by (auto; by rewrite <- Hno).
    do 2 eexists. split; [done|]. unfold len in *. cbn [length] in *. eapply auth_ends_ext.
    + apply port_ends; [done|done|]. cbn. lia.
    + unfold port_put. cbn [x_s set_port_no set_s x_uri x_port_no].
      rewrite (slice_len (hq + 1) ds) by (unfold len; lia). fold (decimal ds).
      unfold set_uri_port_no. rewrite to_ushort_to_int. done.
  - do 2 eexists. split; [done|]. cbn [len length]. rewrite Z.add_0_r. by apply host_ends.
Qed.

Lemma name_user_plain l : plain "@:;?&[]" l → plain "@:;?[]" l.
Proof.
  intros H. apply (plain_weaken _ _ _ H). intros c. cbn [one_of]. rewrite !orb_false_iff. tauto.
Qed.

(** With a user, the host is read in the state [URI_HOST]. *)
Lemma user_part_run n pw s t : n ≠ [] → plain "@:;?[]" n →
  match pw with None => True | Some l => plain "@:;?[]" l end →
  len (user_chars (Some (n, pw))) < 2 ^ 31 →
  let hs := s + len (user_chars (Some (n, pw))) in
  ∃ x, uri_run (user_chars (Some (n, pw))) s URI_INIT (vars_init t s) = Next URI_HOST x ∧
    x_s x = hs ∧ x_pass x = 0 ∧ x_v x = 0 ∧ x_port_no x = 0 ∧ x_error_headers x = false ∧
    x_uri x = user_put s (Some (n, pw)) (set_uri_type t uri_zero).
Proof.
  intros Hne Hn Hpw Hlen hs. pose proof (user_run n s (vars_init t s) Hne Hn) as Hu.
  destruct pw as [pw|]; cbn [user_chars] in *; rewrite (uri_run_app _ _ _ _ _ _ _ Hu); fold (len n).
  - change (uri_run (ch ":" :: pw ++ [ch "@"]) (s + len n) URI_USER (vars_init t s)) with
      (uri_run (pw ++ [ch "@"]) (s + len n + 1) URI_PASSWORD
        (set_s (s + len n + 1) (put F_user s (s + len n) (vars_init t s)))).
    rewrite (pw_run pw _ _ Hpw). eexists. split; [done|]. cbn [x_s set_s]. subst hs.
    split; [len_lia|]. split_and!; try done. cbn -[slice len].
    rewrite (slice_len s n), (slice_len (s + len n + 1) pw); [done|len_lia..].
  - eexists. split; [done|]. cbn -[slice len]. subst hs. split; [len_lia|]. split_and!; try done.
    rewrite (slice_len s n); [done|len_lia..].
Qed.

Lemma authority_run a s t : authority_ok a → len (authority_chars a) < 2 ^ 31 → 0 ≤ s →
  ∃ st y, uri_run (authority_chars a) s URI_INIT (vars_init t s) = Next st y ∧
    auth_ends (s + len (authority_chars a)) st y (authority_put s a (set_uri_type t uri_zero)).
Proof.
  destruct a as [user host port]. intros [Huser Hhost Hport] Hlen Hs.
  cbn [a_user a_host a_port] in *. unfold authority_chars, authority_put in *. cbn [a_user a_host a_port] in *.
  destruct user as [[n pw]|].
  - destruct Huser as (Hne & Hn & Hpw). set (u := Some (n, pw)) in *.
    destruct (user_part_run n pw s t Hne Hn Hpw ltac:(fold u; len_lia)) as (x & Hx & E1 & E2 & E3 & E4 & E5 & E6).
    fold u in Hx, E1, E6. rewrite (uri_run_app _ _ _ _ _ _ _ Hx). fold (len (user_chars u)).
    set (hs := s + len (user_chars u)) in *.
    destruct (host_run host hs x Hhost) as (st & Hst & Hrun & _).
    rewrite (uri_run_app _ _ _ _ _ _ _ Hrun). fold (len (host_chars host)).
    set (hq := hs + len (host_chars host)).
    destruct (host_port_run st hq x port) as (st' & y & Hy & Hends); try done.
    { rewrite E3. subst hq hs. len_lia. } { len_lia. }
    exists st', y. split; [done|]. rewrite !len_app.
    replace (s + _) with (hq + len (port_chars port)) by (subst hq hs; lia).
    eapply auth_ends_ext; [exact Hends|]. rewrite E1, E6.
    rewrite (slice_len hs (host_chars host)); [done|done|len_lia].
  - cbn [user_chars app len length user_put]. rewrite Z.add_0_r. fold (len (host_chars host)).
    set (hq := s + len (host_chars host)). cbn [app user_chars] in Hlen.
    destruct host as [l|l].
    + destruct Hhost as [Hne Hl%name_user_plain]. cbn [host_chars] in *.
      rewrite (uri_run_app _ _ _ _ _ _ _ (user_run l s (vars_init t s) Hne Hl)).
      fold (len l). fold hq. rewrite len_app.
      replace (s + _) with (hq + len (port_chars port)) by (subst hq; lia).
      destruct port as [ds|]; cbn [port_chars port_put] in *.
      * change (uri_run (ch ":" :: ds) hq URI_USER (vars_init t s)) with
          (uri_run ds (hq + 1) URI_PASSWORD (set_s (hq + 1) (put F_user s hq (vars_init t s)))).
        rewrite (port_run ds URI_PASSWORD (hq + 1) _ 0) by auto.
        do 2 eexists. split; [done|]. fold (decimal ds). eapply auth_ends_ext.
        -- apply (password_ends) with (h := slice s hq); try done. cbn. len_lia.
        -- cbn [x_s set_port_no set_s x_uri x_port_no put on_uri vars_init].
           rewrite (slice_len (hq + 1) ds), (slice_len s l) by (subst hq; len_lia).
           unfold set_uri_port_no. rewrite to_ushort_to_int. uri_eq.
      * do 2 eexists. split; [done|]. eapply auth_ends_ext.
        -- apply user_ends; [done|done| |done]. cbn. len_lia.
        -- cbn [x_s vars_init x_uri len length]. by rewrite Z.add_0_r, (slice_len s l) by (subst hq; len_lia).
    + destruct (host_run (HIPv6 l) s (vars_init t s) Hhost) as (st & Hst & _ & Hrun).
      rewrite (uri_run_app _ _ _ _ _ _ _ (Hrun l eq_refl eq_refl)). fold (len (host_chars (HIPv6 l))).
      fold hq.
      destruct (host_port_run st hq (vars_init t s) port) as (st' & y & Hy & Hends); try done.
      { cbn. subst hq. len_lia. } { len_lia. }
      exists st', y. split; [done|]. rewrite len_app.
      replace (s + _) with (hq + len (port_chars port)) by (subst hq; lia).
      eapply auth_ends_ext; [exact Hends|]. cbn [x_s vars_init x_uri].
      rewrite (slice_len s (host_chars (HIPv6 l))); [done|done|len_lia].
Qed.

(** ** The parameters and the headers *)
#[export] Instance add_unknown_proper name val : Proper ((≡) ==> (≡)) (add_unknown name val).
Proof.
  intros u w E. pose proof E as (_ & _ & _ & _ & _ & _ & Hno). unfold add_unknown. rewrite <- Hno.
  destruct (_ <? _); [|done]. destruct (_ =? 0); cbn [u_params_no set_u_val set_u_name]; by rewrite Hno, E.
Qed.

#[export] Instance param_put_proper b n v : Proper ((≡) ==> (≡)) (param_put b n v).
Proof.
  intros u w E. unfold param_put. destruct (known n) as [r|], v as [val|]; try by rewrite E.
  destruct (decide _); by rewrite E.
Qed.

#[export] Instance params_put_proper b l : Proper ((≡) ==> (≡)) (params_put b l).
Proof.
  revert b. induction l as [|[n v] l IH]; intros b u w E; cbn [params_put]; [done|].
  apply IH. by rewrite E.
Qed.

Definition params_ok (ps : list (list Z * option (list Z))) : Prop :=
  Forall (λ it, param_ok it.1 it.2) ps.

Lemma params_run l n v p x : params_ok ((n, v) :: l) → x_pass x = 0 → x_v x ≤ p →
  len (param_text n v ++ params_chars l) < 2 ^ 31 →
  ∃ st y, uri_run (param_text n v ++ params_chars l) p URI_PARAM x = Next st y ∧
    ends (p + len (param_text n v ++ params_chars l)) st y (x_s x) (x_error_headers x) (x_uri x)
      (params_put p ((n, v) :: l)).
Proof.
  revert n v p x. induction l as [|[n' v'] l IH]; intros n v p x Hok Hpass Hv Hlen;
    apply Forall_cons in Hok as [Hit Hok]; cbn [fst snd] in Hit.
  - cbn [params_chars] in *. rewrite app_nil_r in *.
    destruct (param_run n v p x Hit Hpass Hv Hlen) as (st & y & Hy & Hends). by exists st, y.
  - cbn [params_chars] in *.
    destruct (param_run n v p x Hit Hpass Hv) as (st & y & Hy & [(z & Hz & E1 & E2 & E3 & E4 & Eu) _ _]).
    { len_lia. }
    destruct (IH n' v' (p + len (param_text n v) + 1) z Hok E2) as (st' & t & Ht & Hends).
    { lia. } { len_lia. }
    exists st', t. rewrite (uri_run_app _ _ _ _ _ _ _ Hy). cbn [uri_run]. fold (len (param_text n v)).
    rewrite Hz. split; [exact Ht|]. rewrite E1, E4 in Hends.
    replace (p + len (param_text n v ++ ch ";" :: param_text n' v' ++ params_chars l))
      with (p + len (param_text n v) + 1 + len (param_text n' v' ++ params_chars l)) by len_lia.
    eapply ends_ext; [exact Hends|]. cbn [params_put]. by rewrite Eu.
Qed.

Lemma headers_run l p x : plain "@;" l →
  ∃ y, uri_run l p URI_HEADERS x = Next URI_HEADERS y ∧ x_s y = x_s x ∧ x_uri y = x_uri x ∧
    x_error_headers y = x_error_headers x.
Proof.
  intros Hl. revert p x. induction Hl as [|c l [_ Hc] _ IH]; intros p x; [by exists x|].
  cbn [uri_run uri_step]. unfold step_headers.
  rewrite (plain_step _ _ "@" Hc eq_refl), (plain_step _ _ ";" Hc eq_refl).
  destruct (c =? ch ":"); [|destruct (c =? ch "?")].
  - destruct (IH (p + 1) (colon_case p x)) as (y & Hy & E1 & E2 & E3). exists y. split; [done|].
    rewrite E1, E2, E3. unfold colon_case. destruct (x_found_user x); [done|]. by destruct (negb _).
  - destruct (IH (p + 1) (drop_pass x)) as (y & Hy & E1 & E2 & E3). exists y. split; [done|].
    rewrite E1, E2, E3. unfold drop_pass. by destruct (negb _).
  - apply IH.
Qed.

(** ** Whole URIs *)
Record uri_text := UriText {
  t_authority : authority;
  t_params : list (list Z * option (list Z));
  t_headers : option (list Z);
}.

Definition text_chars (t : uri_text) : list Z :=
  authority_chars (t_authority t) ++ params_chars (t_params t) ++ headers_chars (t_headers t).

Record text_ok (t : uri_text) : Prop := {
  to_authority : authority_ok (t_authority t);
  to_params : params_ok (t_params t);
  to_headers : match t_headers t with None => True | Some l => plain "@;" l end;
}.

(** The URI [t] at the address [s] after the scheme. *)
Definition text_put (s : Z) (t : uri_text) (w : sip_uri) : sip_uri :=
  let q := s + len (authority_chars (t_authority t)) in
  let e := q + len (params_chars (t_params t)) in
  let w := authority_put s (t_authority t) w in
  let w := match t_params t with
           | [] => w
           | ps => set_str F_params (Str (q + 1) (e - (q + 1))) (params_put (q + 1) ps w)
           end in
  match t_headers t with None => w | Some l => set_str F_headers (Str (e + 1) (len l)) w end.

(** From the question mark, or the end. *)
Lemma headers_end q st x h w :
  (∃ y, uri_step q (ch "?") st x = Next URI_HEADERS y ∧ x_s y = q + 1 ∧
    x_error_headers y = false ∧ x_uri y ≡ w) →
  (∃ st' y, uri_end q x st = Next st' y ∧ x_uri y ≡ w) →
  match h with None => True | Some l => plain "@;" l end → len (headers_chars h) < 2 ^ 31 →
  ∃ st1 y st2 z, uri_run (headers_chars h) q st x = Next st1 y ∧
    uri_end (q + len (headers_chars h)) y st1 = Next st2 z ∧
    x_uri z ≡ match h with None => w | Some l => set_str F_headers (Str (q + 1) (len l)) w end.
Proof.
  intros (y & Hy & E1 & E2 & E3) (st' & z & Hz & Eu) Hh Hlen. destruct h as [l|]; cbn [headers_chars] in *.
  - destruct (headers_run l (q + 1) y Hh) as (t & Ht & G1 & G2 & G3).
    exists URI_HEADERS, t. do 2 eexists. split; [cbn [uri_run]; rewrite Hy; exact Ht|].
    cbn [uri_end end_main]. cbn [put on_uri x_error_headers]. rewrite G3, E2. split; [done|].
    cbn [put on_uri x_uri]. rewrite G1, E1, G2, (slice_len (q + 1) l) by len_lia. by rewrite E3.
  - exists st, x, st', z. split; [done|]. cbn [len length]. rewrite Z.add_0_r. done.
Qed.

Lemma text_run t s ty : text_ok t → len (text_chars t) < 2 ^ 31 → 0 ≤ s →
  ∃ st y st' z, uri_run (text_chars t) s URI_INIT (vars_init ty s) = Next st y ∧
    uri_end (s + len (text_chars t)) y st = Next st' z ∧
    x_uri z ≡ text_put s t (set_uri_type ty uri_zero).
Proof.
  destruct t as [a ps h]. intros [Ha Hps Hh] Hlen Hs. unfold text_chars, text_put in *.
  cbn [t_authority t_params t_headers] in *.
  destruct (authority_run a s ty Ha ltac:(len_lia) Hs) as (st & x & Hx & Hends).
  rewrite (uri_run_app _ _ _ _ _ _ _ Hx). fold (len (authority_chars a)).
  set (q := s + len (authority_chars a)) in *. set (w := authority_put s a _) in *.
  destruct ps as [|[n v] ps].
  - cbn [params_chars app len length]. rewrite Z.add_0_r. destruct Hends as [_ Hquest Hend].
    destruct (headers_end q st x h w) as (st1 & y & st2 & z & Hy & Hz & Eu); try done.
    { destruct Hquest as (y & ? & ? & ? & ? & ?). by exists y. } { len_lia. }
    exists st1, y, st2, z. split; [done|]. rewrite len_app. split; [|done].
    by replace (s + _) with (q + len (headers_chars h)) by (subst q; lia).
  - destruct Hends as [(y & Hy & E1 & E2 & E3 & E4 & Eu) _ _]. cbn [params_chars app uri_run].
    rewrite Hy. cbn [params_chars] in Hlen.
    destruct (params_run ps n v (q + 1) y Hps E2 ltac:(lia)) as (st1 & z & Hz & [_ Hquest Hend]).
    { len_lia. }
    rewrite (uri_run_app _ _ _ _ _ _ _ Hz). fold (len (param_text n v ++ params_chars ps)).
    set (e := q + 1 + len (param_text n v ++ params_chars ps)) in *.
    assert (Ee : q + len (ch ";" :: param_text n v ++ params_chars ps) = e) by (subst e; len_lia).
    rewrite Ee. rewrite E1, E4 in *.
    assert (Hslice : slice (q + 1) e = Str (q + 1) (e - (q + 1))).
    { unfold slice. rewrite to_int_small; [done|]. subst e. len_lia. }
    rewrite Hslice in *. set (w' := set_str F_params _ _).
    assert (Ew : set_str F_params (Str (q + 1) (e - (q + 1))) (params_put (q + 1) ((n, v) :: ps) (x_uri y)) ≡ w').
    { unfold w'. by rewrite Eu. }
    destruct (headers_end e st1 z h w') as (st2 & t & st3 & r & Ht & Hr & Er); try done.
    { destruct Hquest as (g & ? & ? & ? & ? & G). exists g. split_and!; try done. by rewrite G, Ew. }
    { destruct Hend as (g1 & g2 & ? & G). exists g1, g2. split; [done|]. by rewrite G, Ew. }
    { len_lia. }
    exists st2, t, st3, r. split; [done|]. split; [|done].
    rewrite <- Hr. f_equal. subst e q. len_lia.
Qed.

(** ** The scheme *)
Definition scheme_ok (sch : list Z) (ty : uri_type) : Prop :=
  (lower sch = chars "sip:" ∧ ty = SIP_URI_T) ∨ (lower sch = chars "sips:" ∧ ty = SIPS_URI_T).

Lemma tolower_colon c : tolower c = 58 → c = 58.
Proof.
  unfold tolower, is_upper. change (ch "A") with 65. change (ch "Z") with 90.
  destruct (Z.leb_spec 65 c), (Z.leb_spec c 90); cbn; lia.
Qed.

Lemma uri_start_at m buf sch ty : scheme_ok sch ty → bytes_at m buf sch →
  uri_start m buf = Ok (Some (ty, buf + len sch)).
Proof.
  intros Hok Hat. unfold uri_start, uri_scheme.
  destruct Hok as [[Hsch ->]|[Hsch ->]].
  - destruct sch as [|c0 [|c1 [|c2 [|c3 [|]]]]]; try discriminate. injection Hsch as H0 H1 H2 H3.
    destruct Hat as (R0 & R1 & R2 & R3 & _).
    replace (buf + 1 + 1 + 1) with (buf + 3) in R3 by lia. replace (buf + 1 + 1) with (buf + 2) in R2 by lia.
    rewrite R0, R1, R2, R3. cbn [mbind res_bind mret res_ret].
    apply (tolower_letter c0 115) in H0 as [-> | ->]; [..|done];
      apply (tolower_letter c1 105) in H1 as [-> | ->]; try done;
      apply (tolower_letter c2 112) in H2 as [-> | ->]; try done; apply tolower_colon in H3 as ->; done.
  - destruct sch as [|c0 [|c1 [|c2 [|c3 [|c4 [|]]]]]]; try discriminate. injection Hsch as H0 H1 H2 H3 H4.
    destruct Hat as (R0 & R1 & R2 & R3 & R4 & _).
    replace (buf + 1 + 1 + 1 + 1) with (buf + 4) in R4 by lia.
    replace (buf + 1 + 1 + 1) with (buf + 3) in R3 by lia. replace (buf + 1 + 1) with (buf + 2) in R2 by lia.
    rewrite R0, R1, R2, R3. cbn [mbind res_bind mret res_ret].
    apply (tolower_letter c0 115) in H0 as [-> | ->]; [..|done];
      apply (tolower_letter c1 105) in H1 as [-> | ->]; try done;
      apply (tolower_letter c2 112) in H2 as [-> | ->]; try done;
      apply (tolower_letter c3 115) in H3 as [-> | ->]; try done;
      apply tolower_colon in H4 as ->;
      match goal with |- context [scheme_of ?a ?b ?c ?d] =>
        replace (scheme_of a b c d) with SIPS_SCH by (by vm_compute) end;
      cbn [mbind res_bind]; change (SIPS_SCH =? SIP_SCH) with false; rewrite Z.eqb_refl;
      rewrite R4; done.
Qed.

Lemma text_put_type s t w : u_type (text_put s t w) = u_type w.
Proof.
  assert (Hp : ∀ b n v w, u_type (param_put b n v w) = u_type w).
  { intros b n v u. unfold param_put, add_unknown. destruct (known n) as [r|], v as [val|]; try done.
    - by destruct (decide _).
    - destruct (_ <? _); [|done]. by destruct (_ =? 0).
    - by destruct (_ <? _). }
  assert (Hps : ∀ ps b w, u_type (params_put b ps w) = u_type w).
  { induction ps as [|[n v] ps IH]; intros b u; cbn [params_put]; [done|]. by rewrite IH, Hp. }
  assert (Hw : ∀ f y w, u_type (set_str f y w) = u_type w) by done.
  destruct t as [[user host port] ps h]. unfold text_put, authority_put, port_put, user_put.
  cbn [t_authority t_params t_headers a_user a_host a_port].
  destruct h, ps as [|it ps], port, user as [[n [pw|]]|]; rewrite ?Hw, ?Hps; done.
Qed.

Lemma parse_uri_at m buf sch ty t :
  scheme_ok sch ty → text_ok t → 0 < buf → bytes_at m buf (sch ++ text_chars t) →
  len (sch ++ text_chars t) < 2 ^ 31 →
  ∃ u, parse_uri m buf (len (sch ++ text_chars t)) = Ok (0, u) ∧
    u ≡ text_put (buf + len sch) t (set_uri_type ty uri_zero).
Proof.
  intros Hsch Ht Hbuf Hat Hlen. apply bytes_at_app in Hat as [Hat1 Hat2]. fold (len sch) in Hat2.
  set (s := buf + len sch) in *.
  destruct (text_run t s ty Ht ltac:(len_lia) ltac:(subst s; len_lia)) as (st & y & st' & z & Hrun & Hend & Hz).
  assert (Hs4 : 4 ≤ len sch).
  { destruct Hsch as [[E _]|[E _]]; apply (f_equal length) in E; rewrite length_lower in E; unfold len; rewrite E; done. }
  assert (Hne : 1 ≤ len (text_chars t)).
  { destruct t as [[user host port] ps h]. destruct Ht as [[_ Hhost _] _ _].
    unfold text_chars, authority_chars. cbn [t_authority a_user a_host a_port t_params t_headers] in *.
    assert (1 ≤ len (host_chars host)).
    { destruct host as [l|l]; cbn [host_chars]; [|len_lia]. destruct Hhost as [Hl _].
      destruct l; [done|len_lia]. }
    len_lia. }
  unfold parse_uri. destruct (Z.ltb_spec (len (sch ++ text_chars t)) 5); [len_lia|].
  rewrite (uri_start_at m buf sch ty Hsch Hat1). cbn [mbind res_bind]. fold s.
  assert (Hpend : buf + len (sch ++ text_chars t) = s + len (text_chars t)) by (subst s; len_lia).
  rewrite Hpend. replace (Z.to_nat (s + len (text_chars t) - s)) with (length (text_chars t)) by (unfold len; lia).
  rewrite (uri_loop_at _ _ _ _ _ Hat2), Hrun. cbn [mbind res_bind].
  rewrite (Z.max_r s) by len_lia. rewrite Hend.
  assert (Hty : u_type (x_uri z) = ty).
  { destruct Hz as (_ & _ & _ & -> & _). by rewrite text_put_type. }
  exists (x_uri z). split; [|done]. unfold uri_fix. rewrite Hty.
  destruct Hsch as [[_ ->]|[_ ->]]; done.
Qed.

(** ** The members of the result *)

(** The members that hold a value of a recognised parameter. *)
Definition value_field (f : uri_field) : bool := existsb (λ r, bool_decide (r_val r = f)) param_rows.

Definition names_field (f : uri_field) (n : list Z) : bool :=
  match known n with Some r => bool_decide (r_field r = f) | None => false end.

(** The last parameter that is recorded in the member [f], with its address; the first
    parameter is at [b]. *)
Fixpoint last_at (f : uri_field) (b : Z) (ps : list (list Z * option (list Z))) : option (Z * (list Z * option (list Z))) :=
  match ps with
  | [] => None
  | (n, v) :: ps =>
      match last_at f (b + len (param_text n v) + 1) ps with
      | Some x => Some x
      | None => if names_field f n then Some (b, (n, v)) else None
      end
  end.

(** The unknown parameters with their addresses. *)
Fixpoint unknown_at (b : Z) (ps : list (list Z * option (list Z))) : list (Z * (list Z * option (list Z))) :=
  match ps with
  | [] => []
  | (n, v) :: ps =>
      (match known n with Some _ => [] | None => [(b, (n, v))] end) ++ unknown_at (b + len (param_text n v) + 1) ps
  end.

Lemma rows_distinct r r' : r ∈ param_rows → r' ∈ param_rows →
  r_field r ≠ r_val r' ∧ (r_val r = r_val r' → r_field r = r_field r').
Proof.
  intros Hr Hr'. revert r Hr. apply (Forall_forall (λ r, _)). revert r' Hr'. apply (Forall_forall (λ r', _)).
  repeat (apply Forall_cons_2; [repeat (apply Forall_cons_2; [by split|]); apply Forall_nil_2|]). apply Forall_nil_2.
Qed.

Lemma value_field_row f r : value_field f = false → r ∈ param_rows → r_val r ≠ f.
Proof.
  intros H Hr E. assert (value_field f = true); [|congruence]. apply existsb_exists. exists r.
  split; [by apply list_elem_of_In|]. by apply bool_decide_true.
Qed.

Lemma row_value_field r : r ∈ param_rows → value_field (r_field r) = false.
Proof. revert r. apply (Forall_forall (λ r, _)). by repeat constructor. Qed.

Lemma u_str_set f y u g : u_str (set_str f y u) g = if decide (g = f) then y else u_str u g.
Proof. done. Qed.

Lemma u_str_add_unknown x y u f : u_str (add_unknown x y u) f = u_str u f.
Proof. unfold add_unknown. destruct (_ <? _); [|done]. by destruct (_ =? 0). Qed.

Lemma param_put_field b n v u f : value_field f = false →
  u_str (param_put b n v u) f = if names_field f n then Str b (len (param_text n v)) else u_str u f.
Proof.
  intros Hf. unfold param_put, names_field. destruct (known n) as [r|] eqn:Hr.
  - pose proof (known_spec _ _ Hr) as [Hin _]. pose proof (value_field_row _ _ Hf Hin) as Hne.
    destruct v as [val|]; rewrite !u_str_set.
    + rewrite decide_False by done. case_bool_decide as Hd; [rewrite decide_True by done|rewrite decide_False by done].
      * f_equal. unfold param_text. rewrite len_app, len_cons. lia.
      * by destruct (decide _).
    + case_bool_decide as Hd; [rewrite decide_True by done|by rewrite decide_False by done].
      unfold param_text. by rewrite app_nil_r.
  - destruct v; apply u_str_add_unknown.
Qed.

Lemma params_put_field b ps u f : value_field f = false →
  u_str (params_put b ps u) f =
  match last_at f b ps with Some (p, (n, v)) => Str p (len (param_text n v)) | None => u_str u f end.
Proof.
  intros Hf. revert b u. induction ps as [|[n v] ps IH]; intros b u; cbn [params_put last_at]; [done|].
  rewrite IH. destruct (last_at _ _ ps) as [[p [n' v']]|]; [done|]. rewrite param_put_field by done.
  by destruct (names_field f n).
Qed.

(** The member of the value, where the last parameter of the row has one. *)
Lemma param_put_value b n v u r : r ∈ param_rows →
  u_str (param_put b n v u) (r_val r) =
  match v with
  | Some val => if names_field (r_field r) n then Str (b + len n + 1) (len val) else u_str u (r_val r)
  | None => u_str u (r_val r)
  end.
Proof.
  intros Hr. unfold param_put, names_field. destruct (known n) as [r'|] eqn:Hr'; destruct v as [val|]; rewrite ?u_str_add_unknown; try done.
  - pose proof (known_spec _ _ Hr') as [Hin _]. destruct (rows_distinct r' r Hin Hr) as [Hne _].
    destruct (rows_distinct r r' Hr Hin) as [_ Hinj]. rewrite !u_str_set. destruct (decide (r_val r = r_val r')) as [E|E].
    + rewrite bool_decide_true; [done|]. symmetry. by apply Hinj.
    + rewrite decide_False by done. rewrite bool_decide_false; [by destruct (decide _)|].
      intros E'. apply E. f_equal. clear - Hr Hin E'. revert r' Hin r Hr E'.
      refine (proj1 (Forall_forall (λ r', ∀ r, r ∈ param_rows → r_field r' = r_field r → r = r') param_rows) _).
      repeat (apply Forall_cons_2;
        [refine (proj1 (Forall_forall (λ r, _ → _) param_rows) _); repeat (apply Forall_cons_2; [done|]); apply Forall_nil_2|]).
      apply Forall_nil_2.
  - pose proof (known_spec _ _ Hr') as [Hin _]. destruct (rows_distinct r' r Hin Hr) as [Hne _]. rewrite u_str_set.
    by rewrite decide_False by done.
Qed.

Lemma params_put_value b ps u r : r ∈ param_rows →
  match last_at (r_field r) b ps with
  | Some (p, (n, Some val)) => u_str (params_put b ps u) (r_val r) = Str (p + len n + 1) (len val)
  | Some (_, (_, None)) => True
  | None => u_str (params_put b ps u) (r_val r) = u_str u (r_val r)
  end.
Proof.
  intros Hr. revert b u. induction ps as [|[n v] ps IH]; intros b u; cbn [params_put last_at]; [done|].
  specialize (IH (b + len (param_text n v) + 1) (param_put b n v u)).
  destruct (last_at _ _ ps) as [[p [n' [val'|]]]|]; [done|done|].
  rewrite IH, param_put_value by done. by destruct v as [val|], (names_field _ n).
Qed.

(** ** The table of the unknown parameters *)
Definition unknown_entry (x : Z * (list Z * option (list Z))) : str * str :=
  let '(p, (n, v)) := x in
  (Str p (len n), match v with Some (c :: l) => Str (p + len n + 1) (len (c :: l)) | _ => null_str end).

(** The table [u_name], [u_val] holds [l], and nothing behind it. *)
Record table (u : sip_uri) (l : list (str * str)) : Prop := {
  tb_room : (length l ≤ 10)%nat;
  tb_no : u_params_no u = Z.of_nat (length l);
  tb_names : u_name u = map fst l ++ replicate (10 - length l) null_str;
  tb_vals : u_val u = map snd l ++ replicate (10 - length l) null_str;
}.

Lemma table_zero t : table (set_uri_type t uri_zero) [].
Proof. by split; [cbn; lia|..]. Qed.

Lemma insert_next {A} (l : list A) (x y : A) k : (length l < k)%nat →
  <[length l := x]> (l ++ replicate (k - length l) y) = (l ++ [x]) ++ replicate (k - S (length l)) y.
Proof.
  intros Hk. replace (k - length l)%nat with (S (k - S (length l))) by lia. cbn [replicate].
  rewrite insert_app_r_alt by lia. rewrite Nat.sub_diag. cbn. by rewrite <- app_assoc.
Qed.

Lemma add_unknown_table u l x y : table u l → (str_len y = 0 → y = null_str) →
  table (add_unknown x y u) (take 10 (l ++ [(x, y)])).
Proof.
  intros [Hr Hno Hn Hv] Hy. unfold add_unknown, URI_MAX_U_PARAMS. rewrite Hno.
  destruct (Z.ltb_spec (Z.of_nat (length l)) 10) as [Hlt|Hge].
  2: { assert (length l = 10%nat) by lia. rewrite take_app_le by lia. rewrite take_ge by lia. by split. }
  rewrite take_ge by (rewrite length_app; cbn; lia). rewrite Nat2Z.id.
  assert (E : ∀ {A} (g : str * str → A) k (z : A), map g l ++ k = map g l ++ k) by done.
  assert (Hno' : to_ushort (Z.of_nat (length l) + 1) = Z.of_nat (length (l ++ [(x, y)]))).
  { rewrite length_app. cbn [length]. unfold to_ushort. rewrite Z.mod_small by lia. lia. }
  assert (Hn' : <[length l := x]> (u_name u) = map fst (l ++ [(x, y)]) ++ replicate (10 - length (l ++ [(x, y)])) null_str).
  { rewrite Hn, map_app, length_app. cbn [map length]. rewrite Nat.add_1_r.
    pose proof (insert_next (map fst l) x null_str 10) as I. rewrite length_map in I. apply I. lia. }
  assert (Hv' : <[length l := y]> (u_val u) = map snd (l ++ [(x, y)]) ++ replicate (10 - length (l ++ [(x, y)])) null_str).
  { rewrite Hv, map_app, length_app. cbn [map length]. rewrite Nat.add_1_r.
    pose proof (insert_next (map snd l) y null_str 10) as I. rewrite length_map in I. apply I. lia. }
  split.
  - rewrite length_app. cbn [length]. lia.
  - destruct (_ =? 0); cbn; rewrite <- Hno', Hno; done.
  - destruct (_ =? 0); cbn; exact Hn'.
  - destruct (Z.eqb_spec (str_len y) 0) as [H0|_]; cbn; [|exact Hv'].
    rewrite <- Hv', Hv, (Hy H0). symmetry. apply list_insert_id.
    rewrite lookup_app_r by (rewrite length_map; lia). rewrite length_map. apply lookup_replicate. split; [done|lia].
Qed.

Lemma table_equiv u w l : table u l → u ≡ w → table w l.
Proof. intros [? ? ? ?] (_ & _ & _ & _ & E1 & E2 & E3). split; congruence. Qed.

Lemma table_set_str f y u l : table u l → table (set_str f y u) l.
Proof. by intros [? ? ? ?]. Qed.

Lemma param_put_table b n v u l : table u l →
  table (param_put b n v u) (take 10 (l ++ map unknown_entry (match known n with Some _ => [] | None => [(b, (n, v))] end))).
Proof.
  intros H. unfold param_put. pose proof (tb_room _ _ H) as Hr. destruct (known n) as [r|].
  - cbn [map]. rewrite app_nil_r, take_ge by lia. destruct v as [val|]; repeat apply table_set_str; [|done].
    destruct (decide _); [|done]. by destruct H; split.
  - cbn [map unknown_entry]. destruct v as [[|c val]|]; [by refine (add_unknown_table u l (Str b (len n)) null_str H _)| |by apply add_unknown_table].
    apply add_unknown_table; [done|]. cbn [str_len]. rewrite len_cons. pose proof (len_nonneg val). lia.
Qed.

Lemma take_take_app {A} k (l r : list A) : take k (take k l ++ r) = take k (l ++ r).
Proof.
  destruct (Nat.le_gt_cases k (length l)).
  - rewrite !take_app_le by (rewrite ?length_take; lia). by rewrite take_take, Nat.min_id.
  - by rewrite (take_ge l) by lia.
Qed.

Lemma params_put_table b ps u l : table u l → table (params_put b ps u) (take 10 (l ++ map unknown_entry (unknown_at b ps))).
Proof.
  revert b u l. induction ps as [|[n v] ps IH]; intros b u l H; cbn [params_put unknown_at].
  { cbn [map]. rewrite app_nil_r, take_ge; [done|]. apply (tb_room _ _ H). }
  rewrite map_app, app_assoc. specialize (IH (b + len (param_text n v) + 1) _ _ (param_put_table b n v u l H)).
  by rewrite take_take_app in IH.
Qed.

(** ** The members of a whole URI *)
Definition authority_field (f : uri_field) : bool :=
  match f with F_user | F_passwd | F_host | F_port => true | _ => false end.

Lemma authority_value f : authority_field f = true → value_field f = false ∧ ∀ n, names_field f n = false.
Proof.
  intros Hf. split; [by destruct f|]. intros n. unfold names_field. destruct (known n) as [r|] eqn:Hr; [|done].
  apply known_spec in Hr as [Hin _]. apply bool_decide_false. intros <-. clear - Hf Hin. revert r Hin Hf.
  refine (proj1 (Forall_forall (λ r, _ → False) param_rows) _). by repeat constructor.
Qed.

Lemma last_at_none f b ps : (∀ n, names_field f n = false) → last_at f b ps = None.
Proof. intros H. revert b. induction ps as [|[n v] ps IH]; intros b; cbn [last_at]; [done|]. by rewrite IH, H. Qed.

Lemma authority_put_other s a w f : authority_field f = false → u_str (authority_put s a w) f = u_str w f.
Proof.
  intros Hf. unfold authority_put, port_put, user_put. destruct (a_port a), (a_user a) as [[n [pw|]]|]; by destruct f.
Qed.

Section whole.
Context (s : Z) (t : uri_text) (w : sip_uri).
Let q := s + len (authority_chars (t_authority t)).

Lemma text_put_params_field f : value_field f = false → f ≠ F_params → f ≠ F_headers →
u_str (text_put s t w) f =
match last_at f (q + 1) (t_params t) with
| Some (p, (n, v)) => Str p (len (param_text n v))
| None => u_str (authority_put s (t_authority t) w) f
end.
Proof.
intros Hf Hp Hh. unfold text_put. fold q. destruct (t_headers t), (t_params t) as [|it ps]; rewrite ?u_str_set;
  repeat (rewrite decide_False by done); rewrite ?params_put_field by done; done.
Qed.

Lemma text_put_value r : r ∈ param_rows →
u_str (text_put s t w) (r_val r) = u_str (params_put (q + 1) (t_params t) (authority_put s (t_authority t) w)) (r_val r) ∧
u_str (authority_put s (t_authority t) w) (r_val r) = u_str w (r_val r).
Proof.
intros Hr. assert (Hne : r_val r ≠ F_params ∧ r_val r ≠ F_headers ∧ authority_field (r_val r) = false).
{ revert r Hr. apply (Forall_forall (λ r, _)). by repeat constructor. }
destruct Hne as (Hp & Hh & Ha). split; [|by apply authority_put_other].
unfold text_put. fold q. destruct (t_headers t), (t_params t) as [|it ps]; rewrite ?u_str_set; repeat (rewrite decide_False by done); done.
Qed.

Lemma text_put_params_value r : r ∈ param_rows →
match last_at (r_field r) (q + 1) (t_params t) with
| Some (p, (n, Some val)) => u_str (text_put s t w) (r_val r) = Str (p + len n + 1) (len val)
| Some (_, (_, None)) => True
| None => u_str (text_put s t w) (r_val r) = u_str w (r_val r)
end.
Proof.
intros Hr. destruct (text_put_value r Hr) as [-> Ha].
pose proof (params_put_value (q + 1) (t_params t) (authority_put s (t_authority t) w) r Hr) as H.
destruct (last_at _ _ _) as [[p [n [val|]]]|]; [done|done|]. by rewrite H, Ha.
Qed.

Lemma text_put_authority f : authority_field f = true →
u_str (text_put s t w) f = u_str (authority_put s (t_authority t) w) f.
Proof.
intros Hf. destruct (authority_value f Hf) as [Hv Hn]. rewrite text_put_params_field by (done || by destruct f).
by rewrite last_at_none.
Qed.

Lemma text_put_params : u_str (text_put s t w) F_params =
match t_params t with [] => u_str w F_params | ps => Str (q + 1) (len (params_chars ps) - 1) end.
Proof.
unfold text_put. fold q. destruct (t_headers t), (t_params t) as [|it ps]; rewrite ?u_str_set;
  repeat first [rewrite decide_True by done | rewrite decide_False by done]; rewrite ?authority_put_other by done; try done.
all: f_equal; lia.
Qed.

Lemma text_put_headers : u_str (text_put s t w) F_headers =
match t_headers t with
| Some l => Str (q + len (params_chars (t_params t)) + 1) (len l)
| None => u_str w F_headers
end.
Proof.
assert (Hn : ∀ n, names_field F_headers n = false).
{ intros n. unfold names_field. destruct (known n) as [r|] eqn:Hr; [|done]. apply known_spec in Hr as [Hin _].
  apply bool_decide_false. revert r Hin. apply (Forall_forall (λ r, _)). by repeat constructor. }
unfold text_put. fold q. destruct (t_headers t), (t_params t) as [|it ps]; rewrite ?u_str_set;
  repeat first [rewrite decide_True by done | rewrite decide_False by done];
  rewrite ?params_put_field by done; rewrite ?last_at_none by done; rewrite ?authority_put_other by done; done.
Qed.

Lemma text_put_table l : table w l → table (text_put s t w) (take 10 (l ++ map unknown_entry (unknown_at (q + 1) (t_params t)))).
Proof.
intros H. assert (Ha : table (authority_put s (t_authority t) w) l).
{ unfold authority_put, port_put, user_put. destruct H as [? ? ? ?].
  by destruct (a_port (t_authority t)), (a_user (t_authority t)) as [[n [pw|]]|]; split. }
apply (params_put_table (q + 1) (t_params t)) in Ha.
unfold text_put. fold q. destruct (t_headers t), (t_params t) as [|it ps]; repeat apply table_set_str; done.
Qed.
End whole.

(** ** Properties *)

(** C4: every [sip:] or [sips:] URI of the grammar is accepted, and parsed into
    its parts: the user, the password, the host name or IPv6 reference, the port
    (as a string, and as its value modulo 2^16), each recognised parameter with
    its value in its own member, up to the case of its name, the protocol that
    a transport value denotes, the other parameters in order in the table of
    unknown parameters as long as it has room, and the headers. *)
Theorem parse_uri_text m buf sch ty t :
  scheme_ok sch ty → text_ok t → 0 < buf → bytes_at m buf (sch ++ text_chars t) →
  len (sch ++ text_chars t) < 2 ^ 31 →
  ∃ u, parse_uri m buf (len (sch ++ text_chars t)) = Ok (0, u) ∧
    u ≡ text_put (buf + len sch) t (set_uri_type ty uri_zero).
Proof. apply parse_uri_at. Qed.

(** sIp:bob:pw@[::1]:5060;Transport=sctp;foo=bar;lr?h=1 *)
Definition text_example : uri_text :=
  UriText (Authority (Some (chars "bob", Some (chars "pw"))) (HIPv6 (chars "::1")) (Some (chars "5060")))
    [(chars "Transport", Some (chars "sctp")); (chars "foo", Some (chars "bar")); (chars "lr", None)]
    (Some (chars "h=1")).

Lemma parse_uri_text_witness :
  let l := chars "sIp:" ++ text_chars text_example in
  ∃ u, parse_uri (block l) 4096 (len l) = Ok (0, u) ∧
    u ≡ text_put (4096 + 4) text_example (set_uri_type SIP_URI_T uri_zero).
Proof.
  apply (parse_uri_text (block (chars "sIp:" ++ text_chars text_example)) 4096 (chars "sIp:") SIP_URI_T
    text_example).
  - by left.
  - split.
    + split; cbn.
      * split; [done|]. split; plain_ok.
      * plain_ok.
      * repeat constructor; by vm_compute.
    + repeat apply Forall_cons_2; [..|apply Forall_nil_2].
      * split; [split; [done|split; [plain_ok|done]]|]. split; [done|plain_ok].
      * split; [split; [done|split; [plain_ok|done]]|]. split; [done|plain_ok].
      * split; [split; [done|split; [plain_ok|done]]|]. done.
    + plain_ok.
  - lia.
  - apply block_bytes.
  - by vm_compute.
Defined.

(** The return code and a part of the result, for a URI at a fixed address. *)
Definition parse_text {A} (f : sip_uri → A) (s : string) : option (Z * A) :=
  match parse_uri (block (chars s)) 4096 (Z.of_nat (String.length s)) with
  | Ok (rc, u) => Some (rc, f u)
  | _ => None
  end.

(** The names that share a prefix with a recognised one are not all
    handled.  A URI that ends inside of the name [maddr], or right after
    [maddr=], is rejected; one that ends inside of another recognised name is
    accepted, but the parameter is not recorded; an unknown parameter [m=1]
    before the end is recorded under the name [m=1] without a value; and an
    unknown parameter [pn-pridx] makes the URI rejected. *)
Theorem parse_uri_name_prefixes :
  Forall (λ s, parse_text (λ _, tt) s = Some (E_BAD_URI, tt))
    ["sip:h;ma"; "sip:h;mad"; "sip:h;madd"; "sip:h;maddr"; "sip:h;maddr="; "sip:h;pn-pridx=1"]%string ∧
  Forall (λ s, parse_text u_params_no s = Some (0, 0))
    ["sip:h;m"; "sip:h;tr"; "sip:h;us"; "sip:h;l"; "sip:h;g"; "sip:h;pn-p"]%string ∧
  parse_text (λ u, (u_params_no u, head (u_name u), head (u_val u))) "sip:h;m=1;lr"%string =
    Some (0, (1, Some (Str 4102 3), Some null_str)).
Proof.
  split_and!; try (repeat apply Forall_cons_2; [..|apply Forall_nil_2]); by vm_compute.
Qed.

(** After an empty last parameter [u_param_set] works on stale pointers.  In
    [sip:h;], wherever it is stored, an unknown parameter is recorded whose name
    is a null pointer with a length that is the truncated address of the end;
    in [sip:h;a=1;] the parameter [a] is recorded twice, the second time with the
    value [1;]. *)
Theorem parse_uri_empty_param m buf :
  0 < buf → bytes_at m buf (chars "sip:h;") →
  (∃ u, parse_uri m buf 6 = Ok (0, u) ∧ u_params_no u = 1 ∧ head (u_name u) = Some (Str 0 (to_int (buf + 6)))) ∧
  parse_text (λ u, (u_params_no u, firstn 2 (u_name u), firstn 2 (u_val u))) "sip:h;a=1;"%string =
    Some (0, (2, [Str 4102 1; Str 4102 1], [Str 4104 1; Str 4104 2])).
Proof.
  intros Hbuf Hat. split; [|by vm_compute].
  change (chars "sip:h;") with (chars "sip:" ++ chars "h;") in Hat.
  apply bytes_at_app in Hat as [Hat1 Hat2].
  unfold parse_uri. cbn [Z.ltb Z.compare Pos.compare Pos.compare_cont].
  rewrite (uri_start_at m buf (chars "sip:") SIP_URI_T) by (done || by left).
  cbn [mbind res_bind]. change (len (chars "sip:")) with 4.
  replace (Z.to_nat (buf + 6 - (buf + 4))) with (length (chars "h;")) by (cbn; lia).
  rewrite (uri_loop_at _ _ _ _ _ Hat2). eexists. split; [done|]. cbn. split; [done|].
  unfold slice. rewrite Z.max_r by lia. by rewrite Z.sub_0_r.
Qed.

Lemma parse_uri_empty_param_witness :
  (∃ u, parse_uri (block (chars "sip:h;")) 4096 6 = Ok (0, u) ∧ u_params_no u = 1 ∧
    head (u_name u) = Some (Str 0 4102)) ∧
  parse_text (λ u, (u_params_no u, firstn 2 (u_name u), firstn 2 (u_val u))) "sip:h;a=1;"%string =
    Some (0, (2, [Str 4102 1; Str 4102 1], [Str 4104 1; Str 4104 2])).
Proof. apply (parse_uri_empty_param (block (chars "sip:h;")) 4096); [lia|apply block_bytes]. Defined.

(** The port is kept modulo 2^16 without a complaint, and the number read
    for a port is not forgotten when what looked like host and port turns out
    to be the beginning of the user: the port of [sip:[::1]:5060;x@h:1] comes
    out as 50601. *)
Lemma parse_uri_port_digits :
  parse_text u_port_no "sip:h:65537"%string = Some (0, 1) ∧
  parse_text u_port_no "sip:[::1]:5060;x@h:1"%string = Some (0, 50601).
Proof. by split; vm_compute. Qed.
