(* ===== verification/ViaParam.v ===== *)
(** * Parameters of a Via header ([parse_via_param] of parse_via.c, the data of
    parse_via.h) *)

From stdpp Require Import strings.
From S2P Require Export ParserF.

(** The three enumerations of states of parse_via.c, and [GEN_PARAM] and
    [PARAM_ERROR] of parse_via.h.  The codes [PARAM_HIDDEN], ... of parse_via.h
    are the values of [FIN_HIDDEN], ...  *)
Inductive vstate :=
(* main via states *)
| F_HOST | P_HOST | L_PORT | F_PORT | P_PORT | L_PARAM | F_PARAM | P_PARAM
| L_VIA | F_VIA | F_COMMENT | P_COMMENT | F_IP6HOST | P_IP6HOST
| F_CRLF | F_LF | F_CR | END_OF_HEADER
(* first via part *)
| F_SIP | SIP1 | SIP2 | FIN_SIP | L_VER | F_VER | VER1 | VER2 | FIN_VER
| UDP1 | UDP2 | FIN_UDP | TCP_TLS1 | TCP2 | FIN_TCP | TLS2 | FIN_TLS
| SCTP1 | SCTP2 | SCTP3 | FIN_SCTP | WS1 | WS_WSS | FIN_WS | FIN_WSS
| OTHER_PROTO | L_PROTO | F_PROTO
(* parameters *)
| L_VALUE | F_VALUE | P_VALUE | P_STRING
| HIDDEN1 | HIDDEN2 | HIDDEN3 | HIDDEN4 | HIDDEN5 | TTL1 | TTL2
| BRANCH1 | BRANCH2 | BRANCH3 | BRANCH4 | BRANCH5
| MADDR1 | MADDR2 | MADDR3 | MADDR4
| RECEIVED1 | RECEIVED2 | RECEIVED3 | RECEIVED4 | RECEIVED5 | RECEIVED6 | RECEIVED7
| RPORT1 | RPORT2 | RPORT3 | ALIAS1 | ALIAS2 | ALIAS3 | ALIAS4
| FIN_HIDDEN | FIN_TTL | FIN_BRANCH | FIN_MADDR | FIN_RECEIVED | FIN_RPORT | FIN_I | FIN_ALIAS
| GEN_PARAM | PARAM_ERROR.

#[export] Instance vstate_eq_dec : EqDecision vstate.
Proof. solve_decision. Defined.

(** [struct via_param]; the link [next] is the order of the list. *)
Record via_param := ViaParam {
  vp_type : vstate;
  vp_name : str;
  vp_value : str;
  vp_start : Z;
  vp_size : Z;
}.

Definition set_type (t : vstate) (vp : via_param) : via_param :=
  ViaParam t (vp_name vp) (vp_value vp) (vp_start vp) (vp_size vp).
(** [param->name.s=tmp;] *)
Definition name_start (tmp : Z) (vp : via_param) : via_param :=
  ViaParam (vp_type vp) (Str tmp (str_len (vp_name vp))) (vp_value vp) (vp_start vp) (vp_size vp).
(** [param->name.len=tmp-param->name.s;] *)
Definition name_end (tmp : Z) (vp : via_param) : via_param :=
  ViaParam (vp_type vp) (slice (str_s (vp_name vp)) tmp) (vp_value vp) (vp_start vp) (vp_size vp).
(** [param->value.s=a;] *)
Definition value_from (a : Z) (vp : via_param) : via_param :=
  ViaParam (vp_type vp) (vp_name vp) (Str a (str_len (vp_value vp))) (vp_start vp) (vp_size vp).
(** [param->value.len=n;] *)
Definition value_len (n : Z) (vp : via_param) : via_param :=
  ViaParam (vp_type vp) (vp_name vp) (Str (str_s (vp_value vp)) n) (vp_start vp) (vp_size vp).
(** [param->value.len=tmp-param->value.s;] *)
Definition value_end (tmp : Z) (vp : via_param) : via_param :=
  value_len (to_int (tmp - str_s (vp_value vp))) vp.
(** [param->size=tmp-param->start;] *)
Definition size_to (tmp : Z) (vp : via_param) : via_param :=
  ViaParam (vp_type vp) (vp_name vp) (vp_value vp) (vp_start vp) (to_int (tmp - vp_start vp)).

(** The local variables [state], [saved_state] and [*param]. *)
Record pvars := PVars { pv_state : vstate; pv_saved : vstate; pv_param : via_param }.

(** Where a [case] goes: on with the loop, to a label. *)
Inductive pout :=
| PNext (x : pvars)
| PFind (x : pvars)       (* find_value *)
| PEnd (x : pvars)        (* endofparam, endofvalue *)
| PEndVia (x : pvars)     (* end_via *)
| PError (x : pvars).     (* parse_error *)

Definition goto_end_via (x : pvars) : pout :=
  PEndVia (PVars END_OF_HEADER (pv_saved x) (pv_param x)).

(** ** The first loop: the name *)
Section name.
Context (tmp : Z) (x : pvars).
Let st := pv_state x.
Let sv := pv_saved x.
Let vp := pv_param x.

(** [param->type=t; param->name.len=tmp-param->name.s;] *)
Definition typed (t : vstate) : via_param := name_end tmp (set_type t vp).

Definition pn_space : pout :=
match st with
| FIN_HIDDEN | FIN_ALIAS => PEnd (PVars L_PARAM sv (typed st))
| FIN_BRANCH | FIN_TTL | FIN_MADDR | FIN_RECEIVED | FIN_RPORT | FIN_I =>
    PFind (PVars L_VALUE sv (typed st))
| F_PARAM => PNext x
| F_LF | F_CR | F_CRLF => PNext (PVars sv sv vp)
| _ => PFind (PVars L_VALUE sv (typed GEN_PARAM))
end.

Definition pn_lf : pout :=
match st with
| FIN_HIDDEN | FIN_ALIAS => PEnd (PVars F_LF L_PARAM (size_to tmp (typed st)))
| FIN_BRANCH | FIN_TTL | FIN_MADDR | FIN_RECEIVED | FIN_I | FIN_RPORT =>
    PFind (PVars F_LF L_VALUE (size_to tmp (typed st)))
| F_PARAM => PNext (PVars F_LF st vp)
| F_LF | F_CRLF => goto_end_via x
| F_CR => PNext (PVars F_CRLF sv vp)
| _ => PFind (PVars F_LF L_VALUE (size_to tmp (typed GEN_PARAM)))
end.

Definition pn_cr : pout :=
match st with
| FIN_HIDDEN | FIN_ALIAS => PEnd (PVars F_CR L_PARAM (size_to tmp (typed st)))
| FIN_BRANCH | FIN_TTL | FIN_MADDR | FIN_RECEIVED | FIN_I | FIN_RPORT =>
    PFind (PVars F_CR L_VALUE (size_to tmp (typed st)))
| F_PARAM => PNext (PVars F_CR st vp)
| F_CR | F_CRLF => goto_end_via x
| _ => PFind (PVars F_CR L_VALUE (size_to tmp (typed GEN_PARAM)))
end.

Definition pn_equal : pout :=
match st with
| FIN_BRANCH | FIN_TTL | FIN_MADDR | FIN_RECEIVED | FIN_RPORT | FIN_I =>
    PFind (PVars F_VALUE sv (typed st))
| F_PARAM | FIN_HIDDEN | FIN_ALIAS => PError x
| F_CR | F_LF | F_CRLF => goto_end_via x
| _ => PFind (PVars F_VALUE sv (typed GEN_PARAM))
end.

(** The cases [';'] and [','], that differ in the next state. *)
Definition pn_separator (next : vstate) : pout :=
match st with
| FIN_HIDDEN | FIN_RPORT | FIN_ALIAS => PEnd (PVars next sv (typed st))
| FIN_BRANCH | FIN_MADDR | FIN_TTL | FIN_RECEIVED | FIN_I => PError x
| F_CR | F_LF | F_CRLF => goto_end_via x
| _ => PEnd (PVars next sv (typed GEN_PARAM))
end.

Definition pn_semicolon : pout := pn_separator F_PARAM.
Definition pn_comma : pout := pn_separator F_VIA.

(** A character of a name: the state that it begins a name with, and the
  transitions of its own. *)
Definition letter (first : vstate) (l : list (vstate * vstate)) : pout :=
match find (λ e, bool_decide (e.1 = st)) l with
| Some (_, new) => PNext (PVars new sv vp)
| None =>
    match st with
    | F_PARAM => PNext (PVars first sv (name_start tmp vp))
    | GEN_PARAM => PNext x
    | F_CR | F_LF | F_CRLF => goto_end_via x
    | _ => PNext (PVars GEN_PARAM sv vp)
    end
end.

Definition pn_letters_hiden (c : Z) : option pout :=
if one_of c "hH" then Some (letter HIDDEN1 [(BRANCH5, FIN_BRANCH)])
else if one_of c "iI" then
  Some (letter FIN_I [(HIDDEN1, HIDDEN2); (RECEIVED4, RECEIVED5); (ALIAS2, ALIAS3)])
else if one_of c "dD" then
  Some (letter GEN_PARAM [(HIDDEN2, HIDDEN3); (HIDDEN3, HIDDEN4); (MADDR2, MADDR3);
                          (MADDR3, MADDR4); (RECEIVED7, FIN_RECEIVED)])
else if one_of c "eE" then
  Some (letter GEN_PARAM [(HIDDEN4, HIDDEN5); (RECEIVED1, RECEIVED2);
                          (RECEIVED3, RECEIVED4); (RECEIVED6, RECEIVED7)])
else if one_of c "nN" then
  Some (letter GEN_PARAM [(HIDDEN5, FIN_HIDDEN); (BRANCH3, BRANCH4)])
else None.

Definition pn_letters_tlmar (c : Z) : option pout :=
if one_of c "tT" then Some (letter TTL1 [(TTL1, TTL2); (RPORT3, FIN_RPORT)])
else if one_of c "lL" then Some (letter GEN_PARAM [(TTL2, FIN_TTL); (ALIAS1, ALIAS2)])
else if one_of c "mM" then Some (letter MADDR1 [])
else if one_of c "aA" then
  Some (letter ALIAS1 [(MADDR1, MADDR2); (BRANCH2, BRANCH3); (ALIAS3, ALIAS4)])
else if one_of c "rR" then
  Some (letter RECEIVED1 [(MADDR4, FIN_MADDR); (BRANCH1, BRANCH2); (RPORT2, RPORT3)])
else None.

Definition pn_letters_cvbpos (c : Z) : option pout :=
if one_of c "cC" then
  Some (letter GEN_PARAM [(RECEIVED2, RECEIVED3); (BRANCH4, BRANCH5)])
else if one_of c "vV" then Some (letter GEN_PARAM [(RECEIVED5, RECEIVED6)])
else if one_of c "bB" then Some (letter BRANCH1 [])
else if one_of c "pP" then Some (letter GEN_PARAM [(RECEIVED1, RPORT1)])
else if one_of c "oO" then Some (letter GEN_PARAM [(RPORT1, RPORT2)])
else if one_of c "sS" then Some (letter GEN_PARAM [(ALIAS4, FIN_ALIAS)])
else None.

Definition pn_step (c : Z) : pout :=
if is_sp c then pn_space
else if c =? LF then pn_lf
else if c =? CR then pn_cr
else if c =? ch "=" then pn_equal
else if c =? ch ";" then pn_semicolon
else if c =? ch "," then pn_comma
else match pn_letters_hiden c with
| Some o => o
| None => match pn_letters_tlmar c with
| Some o => o
| None => match pn_letters_cvbpos c with
| Some o => o
| None => letter GEN_PARAM []
end end end.

(** ** The second loop, from [find_value]: the value *)
Definition pv_space : pout :=
match st with
| L_VALUE | F_VALUE => PNext x
| P_VALUE => PEnd (PVars L_PARAM sv (value_end tmp vp))
| P_STRING => PNext x
| F_CR | F_LF | F_CRLF => PNext (PVars sv sv vp)
| _ => PError x
end.

Definition pv_lf : pout :=
match st with
| L_VALUE | F_VALUE | P_STRING => PNext (PVars F_LF st (size_to tmp vp))
| P_VALUE => PEnd (PVars F_LF L_PARAM (value_end tmp vp))
| F_LF | F_CRLF => goto_end_via x
| F_CR => PNext (PVars F_CRLF sv vp)
| _ => PError x
end.

Definition pv_cr : pout :=
match st with
| L_VALUE | F_VALUE | P_STRING => PNext (PVars F_CR st (size_to tmp vp))
| P_VALUE => PEnd (PVars F_CR L_PARAM (value_end tmp vp))
| F_LF | F_CR | F_CRLF => goto_end_via x
| _ => PError x
end.

Definition pv_equal : pout :=
match st with
| L_VALUE => PNext (PVars F_VALUE sv vp)
| P_STRING => PNext x
| F_LF | F_CR | F_CRLF => goto_end_via x
| _ => PError x
end.

(** [param->value.len=0; param->value.s=0;] *)
Definition rport_null (next : vstate) : pout :=
if decide (vp_type vp = FIN_RPORT) then PEnd (PVars next sv (value_from 0 (value_len 0 vp)))
else PError x.

Definition pv_semicolon : pout :=
match st with
| P_VALUE => PEnd (PVars F_PARAM sv (value_end tmp vp))
| F_VALUE => PEnd (PVars F_PARAM sv (value_len 0 vp))
| P_STRING => PNext x
| F_LF | F_CR | F_CRLF => goto_end_via x
| L_VALUE => rport_null F_PARAM
| _ => PError x
end.

Definition pv_comma : pout :=
match st with
| P_VALUE => PEnd (PVars F_VIA sv (value_end tmp vp))
| P_STRING | F_LF | F_CR | F_CRLF => goto_end_via x
| L_VALUE => rport_null F_VIA
| _ => PError x
end.

Definition pv_quote : pout :=
match st with
| F_VALUE => PNext (PVars P_STRING sv (value_from (tmp + 1) vp))
| P_STRING => PEnd (PVars L_PARAM sv (value_end tmp vp))
| F_LF | F_CR | F_CRLF => goto_end_via x
| _ => PError x
end.

Definition pv_default : pout :=
match st with
| F_VALUE => PNext (PVars P_VALUE sv (value_from tmp vp))
| P_VALUE | P_STRING => PNext x
| F_LF | F_CR | F_CRLF => goto_end_via x
| _ => PError x
end.

Definition pv_step (c : Z) : pout :=
if is_sp c then pv_space
else if c =? LF then pv_lf
else if c =? CR then pv_cr
else if c =? ch "=" then pv_equal
else if c =? ch ";" then pv_semicolon
else if c =? ch "," then pv_comma
else if c =? DQUOTE then pv_quote
else pv_default.
End name.

(** ** The whole function *)

(** [for (tmp=p;tmp<end;tmp++)], with [n] characters before [end]; falling out
    of the loop is an error. *)
Fixpoint pn_loop (m : mem) (tmp : Z) (n : nat) (x : pvars) : res (Z * pout) :=
  match n with
  | O => mret (tmp, PError (PVars END_OF_HEADER (pv_state x) (pv_param x)))
  | S n =>
      c ← rd m tmp;
      match pn_step tmp x c with
      | PNext x => pn_loop m (tmp + 1) n x
      | o => mret (tmp, o)
      end
  end.

(** [for(;*tmp;tmp++)]: this loop does not look at [end]; it leaves off at a
    [NUL]. *)
Definition pv_round (m : mem) (s : Z * pvars) : res (Z * pvars + Z * pout) :=
  let '(tmp, x) := s in
  c ← rd m tmp;
  if c =? NUL then mret (inr (tmp, PError (PVars END_OF_HEADER (pv_state x) (pv_param x)))) else
  match pv_step tmp x c with
  | PNext x => mret (inl (tmp + 1, x))
  | o => mret (inr (tmp, o))
  end.

Definition pv_loop (m : mem) (tmp : Z) (x : pvars) : res (Z * pout) :=
  loop (pv_round m) (S (Z.to_nat (mlim m - tmp))) (tmp, x).

(** The labels at the end: the values of [*pstate], [*psaved_state] and
    [*param]. *)
Definition param_exit (tmp : Z) (o : pout) : pvars :=
  let error x := PVars PARAM_ERROR (pv_state x) (set_type PARAM_ERROR (pv_param x)) in
  match o with
  | PEnd x => PVars (pv_state x) (pv_saved x) (size_to tmp (pv_param x))
  | PEndVia x =>
      if bool_decide (vp_type (pv_param x) = GEN_PARAM ∨ vp_type (pv_param x) = FIN_RPORT)
      then PVars (pv_state x) L_PARAM (pv_param x)
      else error x
  | PError x | PNext x | PFind x => error x
  end.

(** [parse_via_param p end pstate psaved_state param]: the pointer returned, and
    what the pointers are left with. *)
Definition parse_via_param (m : mem) (p pend : Z) (x : pvars) : res (Z * pvars) :=
  let x := PVars (pv_state x) (pv_saved x) (set_type PARAM_ERROR (pv_param x)) in
  '(tmp, o) ← pn_loop m p (Z.to_nat (pend - p)) x;
  '(tmp, o) ← match o with
              | PFind x => pv_loop m (tmp + 1) x
              | o => mret (tmp, o)
              end;
  mret (tmp, param_exit tmp o).
