(* ===== verification/Via.v ===== *)
(** * The Via header ([parse_via] of parse_via.c, [struct via_body]) *)

From stdpp Require Import strings.
From S2P Require Export UriData ViaParam.

Definition PARSE_ERROR : Z := -1.
Definition PARSE_OK : Z := 1.

(** The members of type [str] of [struct via_body] that the parser fills. *)
Inductive via_field :=
| V_name | V_version | V_transport | V_host | V_port_str | V_params | V_comment.

#[export] Instance via_field_eq_dec : EqDecision via_field.
Proof. solve_decision. Defined.

(** The shortcuts to parameters. *)
Inductive shortcut := S_branch | S_received | S_rport | S_i | S_alias | S_maddr.

#[export] Instance shortcut_eq_dec : EqDecision shortcut.
Proof. solve_decision. Defined.

(** [struct via_body]; the list [param_lst] in its order, and the shortcuts as
    positions in it.  The link [next] is the order of a list of bodies. *)
Record via_body := ViaBody {
  vb_error : Z;
  vb_str : via_field → str;
  vb_proto : Z;
  vb_port : Z;
  vb_bsize : Z;
  vb_params : list via_param;
  vb_shortcut : shortcut → option nat;
}.

Definition via_zero : via_body := ViaBody 0 (λ _, null_str) 0 0 0 [] (λ _, None).

Definition set_error (e : Z) (vb : via_body) : via_body :=
  ViaBody e (vb_str vb) (vb_proto vb) (vb_port vb) (vb_bsize vb) (vb_params vb) (vb_shortcut vb).
Definition set_vstr (f : via_field) (x : str) (vb : via_body) : via_body :=
  ViaBody (vb_error vb) (λ g, if decide (g = f) then x else vb_str vb g) (vb_proto vb)
    (vb_port vb) (vb_bsize vb) (vb_params vb) (vb_shortcut vb).
Definition set_proto (p : Z) (vb : via_body) : via_body :=
  ViaBody (vb_error vb) (vb_str vb) p (vb_port vb) (vb_bsize vb) (vb_params vb) (vb_shortcut vb).
Definition set_port (p : Z) (vb : via_body) : via_body :=
  ViaBody (vb_error vb) (vb_str vb) (vb_proto vb) p (vb_bsize vb) (vb_params vb) (vb_shortcut vb).
Definition set_bsize (n : Z) (vb : via_body) : via_body :=
  ViaBody (vb_error vb) (vb_str vb) (vb_proto vb) (vb_port vb) n (vb_params vb) (vb_shortcut vb).
Definition set_shortcut (s : shortcut) (i : nat) (vb : via_body) : via_body :=
  ViaBody (vb_error vb) (vb_str vb) (vb_proto vb) (vb_port vb) (vb_bsize vb) (vb_params vb)
    (λ t, if decide (t = s) then Some i else vb_shortcut vb t).

(** "add param to the list" and "update param. shortcuts" *)
Definition add_param (vp : via_param) (vb : via_body) : via_body :=
  let i := length (vb_params vb) in
  let vb := ViaBody (vb_error vb) (vb_str vb) (vb_proto vb) (vb_port vb) (vb_bsize vb)
              (vb_params vb ++ [vp]) (vb_shortcut vb) in
  match vp_type vp with
  | FIN_BRANCH => set_shortcut S_branch i vb
  | FIN_RECEIVED => set_shortcut S_received i vb
  | FIN_RPORT => set_shortcut S_rport i vb
  | FIN_I => set_shortcut S_i i vb
  | FIN_ALIAS => set_shortcut S_alias i vb
  | FIN_MADDR => set_shortcut S_maddr i vb
  | _ => vb
  end.

(** The local variables of one round of [parse_again]. *)
Record vvars := VVars {
  v_state : vstate;
  v_saved : vstate;
  v_nest : Z;
  v_start : Z;      (* param_start *)
  v_body : via_body;
}.

(** Where a [case] goes. *)
Inductive vout :=
| VNext (x : vvars)
| VMain (x : vvars)        (* main_via *)
| VEndHeader (x : vvars)   (* endofheader *)
| VEndPacket (x : vvars)   (* endofpacket *)
| VNextVia (x : vvars)     (* nextvia *)
| VError (x : vvars)       (* parse_error *)
| VNoMem (x : vvars).      (* error, without memory *)

Definition go (st : vstate) (x : vvars) : vvars :=
  VVars st (v_saved x) (v_nest x) (v_start x) (v_body x).
Definition save (st : vstate) (x : vvars) : vvars :=
  VVars (v_state x) st (v_nest x) (v_start x) (v_body x).
Definition nest (n : Z) (x : vvars) : vvars :=
  VVars (v_state x) (v_saved x) n (v_start x) (v_body x).
Definition set_start (p : Z) (x : vvars) : vvars :=
  VVars (v_state x) (v_saved x) (v_nest x) p (v_body x).
Definition on_body (f : via_body → via_body) (x : vvars) : vvars :=
  VVars (v_state x) (v_saved x) (v_nest x) (v_start x) (f (v_body x)).

(** [vb->f.s=tmp;] and [vb->f.len=tmp-vb->f.s;] *)
Definition starts (f : via_field) (tmp : Z) : vvars → vvars :=
  on_body (λ vb, set_vstr f (Str tmp (str_len (vb_str vb f))) vb).
Definition ends (f : via_field) (tmp : Z) : vvars → vvars :=
  on_body (λ vb, set_vstr f (slice (str_s (vb_str vb f)) tmp) vb).

(** ** The start of the Via ("SIP/2.0/UDP") *)
Section start.
Context (tmp : Z) (x : vvars).

(** The protocol of a state in which the transport may end. *)
Definition fin_proto (fin_wss : Z) (with_sctp : bool) : option Z :=
match v_state x with
| FIN_UDP => Some PROTO_UDP
| FIN_TCP => Some PROTO_TCP
| FIN_TLS => Some PROTO_TLS
| FIN_SCTP => if with_sctp then Some PROTO_SCTP else None
| FIN_WS | WS_WSS => Some PROTO_WS
| FIN_WSS => Some fin_wss
| OTHER_PROTO => Some PROTO_OTHER
| _ => None
end.

(** [vb->transport.len=tmp-vb->transport.s; vb->proto=proto;] *)
Definition transport_end (proto : Z) : vvars :=
on_body (set_proto proto) (ends V_transport tmp x).

Definition vs_space : vout :=
match fin_proto PROTO_WSS true with
| Some proto => VMain (go F_HOST (transport_end proto))
| None =>
    match v_state x with
    | L_VER | L_PROTO | F_SIP | F_VER | F_PROTO => VNext x
    | FIN_SIP => VNext (go L_VER (ends V_name tmp x))
    | FIN_VER => VNext (go L_PROTO (ends V_version tmp x))
    | F_LF | F_CRLF | F_CR => VNext (go (v_saved x) x)
    | _ => VError x
    end
end.

(** FIN_SCTP is not among the cases of a line feed or a carriage return, and
  FIN_WSS yields PROTO_WS at a line feed. *)
Definition vs_lf : vout :=
match fin_proto PROTO_WS false with
| Some proto => VMain (save F_HOST (go F_LF (transport_end proto)))
| None =>
    match v_state x with
    | L_VER | F_SIP | F_VER | F_PROTO | L_PROTO => VNext (go F_LF (save (v_state x) x))
    | FIN_SIP => VNext (save L_VER (go F_LF (ends V_name tmp x)))
    | FIN_VER => VNext (save L_PROTO (go F_LF (ends V_version tmp x)))
    | F_CR => VNext (go F_CRLF x)
    | F_LF | F_CRLF => VEndHeader (go (v_saved x) x)
    | _ => VError x
    end
end.

Definition vs_cr : vout :=
match fin_proto PROTO_WSS false with
| Some proto => VMain (save F_HOST (go F_CR (transport_end proto)))
| None =>
    match v_state x with
    | L_VER | F_SIP | F_VER | F_PROTO | L_PROTO => VNext (go F_CR (save (v_state x) x))
    | FIN_SIP => VNext (save L_VER (go F_CR (ends V_name tmp x)))
    | FIN_VER => VNext (save L_PROTO (go F_CR (ends V_version tmp x)))
    | F_LF | F_CR | F_CRLF => VEndHeader (go (v_saved x) x)
    | _ => VError x
    end
end.

Definition vs_slash : vout :=
match v_state x with
| FIN_SIP => VNext (go F_VER (ends V_name tmp x))
| FIN_VER => VNext (go F_PROTO (ends V_version tmp x))
| L_VER => VNext (go F_VER x)
| L_PROTO => VNext (go F_PROTO x)
| _ => VError x
end.

(** The states inside of the transport. *)
Definition in_proto (st : vstate) : bool :=
match st with
| UDP1 | UDP2 | FIN_UDP | TCP_TLS1 | TCP2 | FIN_TCP | TLS2 | FIN_TLS
| SCTP1 | SCTP2 | SCTP3 | FIN_SCTP | WS1 | WS_WSS | FIN_WS | FIN_WSS => true
| _ => false
end.

(** A letter: the transitions of its own (with the member that begins here, if
  any), [case OTHER_PROTO: break;], and the list of states that lead to
  [OTHER_PROTO]. *)
Definition vs_letter (l : list (vstate * vstate * option via_field)) : vout :=
match find (λ e, bool_decide (e.1.1 = v_state x)) l with
| Some (_, new, Some f) => VNext (starts f tmp (go new x))
| Some (_, new, None) => VNext (go new x)
| None =>
    if bool_decide (v_state x = OTHER_PROTO) then VNext x
    else if in_proto (v_state x) then VNext (go OTHER_PROTO x)
    else VError x
end.

Definition vs_s := vs_letter [(F_SIP, SIP1, Some V_name); (TLS2, FIN_TLS, None);
(F_PROTO, SCTP1, Some V_transport); (WS1, WS_WSS, None); (WS_WSS, FIN_WSS, None)].
Definition vs_i := vs_letter [(SIP1, SIP2, None)].
Definition vs_p := vs_letter [(SIP2, FIN_SIP, None); (UDP2, FIN_UDP, None);
(TCP2, FIN_TCP, None); (SCTP3, FIN_SCTP, None)].
Definition vs_u := vs_letter [(F_PROTO, UDP1, Some V_transport)].
Definition vs_d := vs_letter [(UDP1, UDP2, None)].
Definition vs_t := vs_letter [(F_PROTO, TCP_TLS1, Some V_transport); (SCTP2, SCTP3, None)].
Definition vs_c := vs_letter [(TCP_TLS1, TCP2, None); (SCTP1, SCTP2, None)].
Definition vs_l := vs_letter [(TCP_TLS1, TLS2, None)].
Definition vs_w := vs_letter [(F_PROTO, WS1, Some V_transport)].
Definition vs_2 := vs_letter [(F_VER, VER1, Some V_version)].
Definition vs_dot := vs_letter [(VER1, VER2, None)].
Definition vs_0 := vs_letter [(VER2, FIN_VER, None)].
Definition vs_default := vs_letter [(F_PROTO, OTHER_PROTO, Some V_transport)].

Definition vs_step (c : Z) : vout :=
if is_sp c then vs_space
else if c =? LF then vs_lf
else if c =? CR then vs_cr
else if c =? ch "/" then vs_slash
else if one_of c "Ss" then vs_s
else if one_of c "Ii" then vs_i
else if one_of c "pP" then vs_p
else if one_of c "Uu" then vs_u
else if one_of c "Dd" then vs_d
else if one_of c "Tt" then vs_t
else if one_of c "Cc" then vs_c
else if one_of c "Ll" then vs_l
else if one_of c "Ww" then vs_w
else if c =? ch "2" then vs_2
else if c =? ch "." then vs_dot
else if c =? ch "0" then vs_0
else vs_default.
End start.

(** ** The host, the port, and what follows ([main_via]) *)
Section main.
Context (tmp : Z) (x : vvars).
Let st := v_state x.

Definition vm_space : vout :=
match st with
| F_HOST | L_PORT | F_PORT | L_PARAM | F_PARAM | L_VIA | F_VIA | F_COMMENT | P_COMMENT => VNext x
| P_HOST => VNext (go L_PORT (ends V_host tmp x))
| P_PORT => VNext (go L_PARAM (ends V_port_str tmp x))
| P_PARAM => VNext (go L_PARAM x)
| F_IP6HOST | P_IP6HOST => VError x
| F_CRLF | F_LF | F_CR => VNext (go (v_saved x) x)
| _ => VError x
end.

(** The states that a line break interrupts, [new] being [F_LF] or [F_CR]. *)
Definition vm_break (new : vstate) : option vout :=
match st with
| F_HOST | L_PORT | F_PORT | L_PARAM | F_PARAM | F_VIA | L_VIA
| F_COMMENT | P_COMMENT | F_IP6HOST | P_IP6HOST => Some (VNext (go new (save st x)))
| P_HOST => Some (VNext (go new (save L_PORT (ends V_host tmp x))))
| P_PORT => Some (VNext (go new (save L_PARAM (ends V_port_str tmp x))))
| P_PARAM => Some (VNext (go new (save L_PARAM x)))
| _ => None
end.

Definition vm_lf : vout :=
match vm_break F_LF with
| Some o => o
| None =>
    match st with
    | F_CR => VNext (go F_CRLF x)
    | F_CRLF | F_LF => VEndHeader (go (v_saved x) x)
    | _ => VError x
    end
end.

Definition vm_cr : vout :=
match vm_break F_CR with
| Some o => o
| None =>
    match st with
    | F_CRLF | F_CR | F_LF => VEndHeader (go (v_saved x) x)
    | _ => VError x
    end
end.

(** "everything is allowed in a comment" *)
Definition comment_start : vout := VNext (go P_COMMENT (starts V_comment tmp x)).

Definition vm_colon : vout :=
match st with
| F_HOST | F_IP6HOST => VNext (go P_IP6HOST x)
| P_IP6HOST => VNext x
| P_HOST => VNext (go F_PORT (ends V_host tmp x))
| L_PORT => VNext (go F_PORT x)
| F_CRLF | F_LF | F_CR => VEndHeader x
| F_COMMENT => comment_start
| P_COMMENT => VNext x
| _ => VError x
end.

Definition param_next (y : vvars) : vout := VNext (set_start (tmp + 1) (go F_PARAM y)).

Definition vm_semicolon : vout :=
match st with
| P_HOST => param_next (ends V_host tmp x)
| P_PORT => param_next (ends V_port_str tmp x)
| L_PORT | L_PARAM | P_PARAM => param_next x
| F_CRLF | F_LF | F_CR => VEndHeader x
| F_COMMENT => comment_start
| P_COMMENT => VNext x
| _ => VError x
end.

Definition vm_comma : vout :=
match st with
| P_HOST => VNext (go F_VIA (ends V_host tmp x))
| P_PORT => VNext (go F_VIA (ends V_port_str tmp x))
| L_PORT | L_PARAM | P_PARAM | L_VIA => VNext (go F_VIA x)
| F_VIA => VNext x
| F_CRLF | F_LF | F_CR => VEndHeader x
| F_COMMENT => comment_start
| P_COMMENT => VNext x
| _ => VError x
end.

Definition vm_open : vout :=
let deeper y := VNext (nest (v_nest x + 1) y) in
match st with
| P_HOST => deeper (go F_COMMENT (ends V_host tmp x))
| P_PORT => deeper (go F_COMMENT (ends V_port_str tmp x))
| P_PARAM | L_PORT | L_PARAM | L_VIA => deeper (go F_COMMENT (ends V_params tmp x))
| P_COMMENT | F_COMMENT => deeper x
| F_CRLF | F_LF | F_CR => VEndHeader x
| _ => VError x
end.

Definition vm_close : vout :=
match st with
| F_COMMENT | P_COMMENT =>
    if v_nest x =? 0 then VError x
    else
      let y := nest (v_nest x - 1) x in
      if v_nest y =? 0 then VNext (ends V_comment tmp (go L_VIA y)) else VNext y
| F_CRLF | F_LF | F_CR => VEndHeader x
| _ => VError x
end.

Definition vm_bracket : vout :=
match st with
| F_HOST => VNext (go F_IP6HOST (starts V_host tmp x))
| F_COMMENT => comment_start
| P_COMMENT => VNext x
| F_CRLF | F_LF | F_CR => VEndHeader x
| _ => VError x
end.

(** [vb->host.len=(tmp-vb->host.s)+1;] *)
Definition vm_unbracket : vout :=
match st with
| P_IP6HOST => VNext (go L_PORT (ends V_host (tmp + 1) x))
| F_CRLF | F_LF | F_CR => VEndHeader x
| F_COMMENT => comment_start
| P_COMMENT => VNext x
| _ => VError x
end.

(** "check if host allowed char" *)
Definition host_char (c : Z) : bool :=
is_lower c || is_upper c || is_digit c || (c =? ch "-") || (c =? ch ".").

Definition ip6_char (c : Z) : bool :=
((ch "a" <=? c) && (c <=? ch "f")) || ((ch "A" <=? c) && (c <=? ch "F"))
|| is_digit c || (c =? ch ":").

Definition allowed (ok : bool) (y : vvars) : vout := if ok then VNext y else VError y.

(** [default], except for a parameter. *)
Definition vm_default (c : Z) : vout :=
match st with
| F_HOST => allowed (host_char c) (starts V_host tmp (go P_HOST x))
| P_HOST => allowed (host_char c) x
| F_PORT => allowed (is_digit c) (starts V_port_str tmp (go P_PORT x))
| P_PORT => allowed (is_digit c) x
| P_PARAM => VNext x
| F_VIA => VNextVia x
| F_COMMENT => VNext (starts V_comment tmp (go P_COMMENT x))
| P_COMMENT => VNext x
| F_IP6HOST => allowed (ip6_char c) (go P_IP6HOST x)
| P_IP6HOST => allowed (ip6_char c) x
| F_CRLF | F_LF | F_CR => VEndHeader x
| _ => VError x
end.
End main.

(** [case F_PARAM] of [default]: one parameter.  The pointer returned is that of
    [parse_via_param]; [mem_left] tells if [pkg_malloc] succeeds. *)
Definition vm_param (m : mem) (pend tmp : Z) (mem_left : bool) (x : vvars) : res (Z * vout) :=
  let x :=
    if str_s (vb_str (v_body x) V_params) =? 0
    then on_body (λ vb, set_vstr V_params (Str (v_start x) (str_len (vb_str vb V_params))) vb) x
    else x in
  if negb mem_left then mret (tmp, VNoMem x) else
  let param := ViaParam F_HOST null_str null_str (v_start x) 0 in
  '(tmp, pv) ← parse_via_param m tmp pend (PVars (v_state x) (v_saved x) param);
  let param := pv_param pv in
  let y := save (pv_saved pv) (go (pv_state pv) x) in
  let size_end := vp_start param + vp_size param in
  let after := λ y, on_body (add_param param) y in
  mret (tmp, match pv_state pv with
  | F_PARAM => VNext (after (ends V_params tmp (set_start (tmp + 1) y)))
  | L_PARAM | F_LF | F_CR => VNext (after (ends V_params tmp y))
  | F_VIA => VNext (after (ends V_params size_end y))
  | END_OF_HEADER =>
      VEndHeader (go (v_saved y) (after (ends V_params size_end y)))
  | _ => VError y
  end).

(** One round of the loop [for(;*tmp;tmp++)] of [main_via]. *)
Definition vm_step (m : mem) (pend tmp c : Z) (mem_left : bool) (x : vvars) : res (Z * vout) :=
  if is_sp c then mret (tmp, vm_space tmp x)
  else if c =? LF then mret (tmp, vm_lf tmp x)
  else if c =? CR then mret (tmp, vm_cr tmp x)
  else if c =? ch ":" then mret (tmp, vm_colon tmp x)
  else if c =? ch ";" then mret (tmp, vm_semicolon tmp x)
  else if c =? ch "," then mret (tmp, vm_comma tmp x)
  else if c =? ch "(" then mret (tmp, vm_open tmp x)
  else if c =? ch ")" then mret (tmp, vm_close tmp x)
  else if c =? ch "[" then mret (tmp, vm_bracket tmp x)
  else if c =? ch "]" then mret (tmp, vm_unbracket tmp x)
  else if bool_decide (v_state x = F_PARAM) then vm_param m pend tmp mem_left x
  else mret (tmp, vm_default tmp x c).

(** ** The whole function

    [malloc n] tells if the [n]-th call of [pkg_malloc] succeeds. *)
Section parse_via.
Context (malloc : nat → bool) (m : mem) (pend : Z).

(** The first loop, with [k] characters before [end]. *)
Fixpoint vs_loop (tmp : Z) (k : nat) (x : vvars) : res (Z * vout) :=
match k with
| O => mret (tmp, VError x)
| S k =>
    c ← rd m tmp;
    match vs_step tmp x c with
    | VNext x => vs_loop (tmp + 1) k x
    | o => mret (tmp, o)
    end
end.

(** The loop of [main_via]; [n] counts the calls of [pkg_malloc]. *)
Definition vm_round (s : Z * vvars * nat) : res (Z * vvars * nat + Z * vout * nat) :=
let '(tmp, x, n) := s in
c ← rd m tmp;
if c =? NUL then mret (inr (tmp, VEndPacket x, n)) else
'(tmp', o) ← vm_step m pend tmp c (malloc n) x;
let n := if bool_decide (v_state x = F_PARAM) then S n else n in
match o with
| VNext x => mret (inl (tmp' + 1, x, n))
| o => mret (inr (tmp', o, n))
end.

Definition vm_loop (tmp : Z) (x : vvars) (n : nat) : res (Z * vout * nat) :=
loop vm_round (S (Z.to_nat (mlim m - tmp))) (tmp, x, n).

(** The states in which the header may end. *)
Definition end_state_ok (st : vstate) : bool :=
match st with
| P_HOST | L_PORT | P_PORT | L_PARAM | P_PARAM | P_VALUE | GEN_PARAM | FIN_HIDDEN | L_VIA => true
| _ => false
end.

(** [vb->error=PARSE_OK; vb->bsize=tmp-buffer;] and the port; [false] is
  [goto parse_error]. *)
Definition via_accept (buffer tmp : Z) (vb : via_body) : res (bool * via_body) :=
let vb := set_bsize (to_uint (tmp - buffer)) (set_error PARSE_OK vb) in
let port := vb_str vb V_port_str in
if str_s port =? 0 then mret (true, vb) else
'(n, err) ← str2s m (str_s port) (str_len port);
mret (err =? 0, set_port n vb).

(** The bodies parsed before this one, the first of them being [*vbody], and
  this one: [parse_error] marks both the first and the last. *)
Definition via_fail (prev : list via_body) (vb : via_body) : list via_body :=
let vb := set_error PARSE_ERROR vb in
match prev with
| [] => [vb]
| first :: prev => set_error PARSE_ERROR first :: prev ++ [vb]
end.

(** The variables at the label [parse_again]. *)
Definition via_start (vb : via_body) : vvars :=
VVars F_SIP F_HOST 0 0 (set_error PARSE_ERROR vb).

(** From [parse_again] on: another round for the next Via body, or the pointer
  returned and the bodies. *)
Definition via_round (s : Z * list via_body * via_body * nat) :
  res (Z * list via_body * via_body * nat + Z * list via_body) :=
let '(buffer, prev, vb, n) := s in
'(tmp, o) ← vs_loop buffer (Z.to_nat (pend - buffer)) (via_start vb);
'(tmp, o, n) ← match o with
               | VMain x => vm_loop (tmp + 1) (nest 0 x) n
               | o => mret (tmp, o, n)
               end;
let fail vb := mret (inr (tmp, via_fail prev vb)) in
let finish st vb :=
  if end_state_ok st then
    '(ok, vb) ← via_accept buffer tmp vb;
    if ok : bool then mret (inr (tmp, prev ++ [vb])) else fail vb
  else fail vb in
match o with
| VEndHeader x => finish (v_saved x) (v_body x)
| VEndPacket x => finish (v_state x) (v_body x)
| VNextVia x =>
    '(ok, vb) ← via_accept buffer tmp (v_body x);
    if negb ok then fail vb else
    if malloc n then mret (inl (tmp, prev ++ [vb], via_zero, S n)) else fail vb
| VNext x | VMain x | VError x | VNoMem x => fail (v_body x)
end.

(** [parse_via buffer end vbody]: the pointer returned, and the list of Via
  bodies that begins with [*vbody]. *)
Definition parse_via (buffer : Z) (vbody : via_body) : res (Z * list via_body) :=
loop via_round (S (S (Z.to_nat (mlim m - buffer)))) (buffer, [], vbody, O).
End parse_via.
