(* ===== verification/ViaSafety.v ===== *)
(** * Memory safety of the Via parser

    The loops from [find_value] and [main_via] on look for a [NUL] and not for
    the end of the message, so the parser is safe when the memory holds a [NUL]
    at or after the end, and reads beyond the message otherwise. *)

From stdpp Require Import strings.
From S2P Require Import ViaParam Via.

(** ** Parameters *)

(** The states in which [parse_via_param] leaves with success. *)
Definition exit_state (st sv : vstate) : Prop :=
  match st with
  | L_PARAM | F_PARAM | F_VIA => True
  | F_LF | F_CR | END_OF_HEADER => sv = L_PARAM
  | _ => False
  end.

Definition pout_ok (o : pout) : Prop :=
  match o with
  | PEnd y => pv_state y ≠ END_OF_HEADER ∧ exit_state (pv_state y) (pv_saved y)
  | PEndVia y => pv_state y = END_OF_HEADER
  | _ => True
  end.

Lemma letter_ok tmp x first l : pout_ok (letter tmp x first l) ∧
  match letter tmp x first l with PFind _ => False | _ => True end.
Proof.
  unfold letter. destruct (find _ l) as [[? ?]|]; [done|].
  by destruct (pv_state x).
Qed.

Lemma pn_step_ok tmp x c : pout_ok (pn_step tmp x c).
Proof.
  unfold pn_step.
  destruct (is_sp c); [by unfold pn_space; destruct (pv_state x)|].
  destruct (c =? LF); [by unfold pn_lf; destruct (pv_state x)|].
  destruct (c =? CR); [by unfold pn_cr; destruct (pv_state x)|].
  destruct (c =? ch "="); [by unfold pn_equal; destruct (pv_state x)|].
  destruct (c =? ch ";"); [by unfold pn_semicolon, pn_separator; destruct (pv_state x)|].
  destruct (c =? ch ","); [by unfold pn_comma, pn_separator; destruct (pv_state x)|].
  unfold pn_letters_hiden, pn_letters_tlmar, pn_letters_cvbpos.
  repeat match goal with |- context [one_of c ?s] => destruct (one_of c s) end; apply letter_ok.
Qed.

Lemma pv_step_ok tmp x c : pout_ok (pv_step tmp x c) ∧
  match pv_step tmp x c with PFind _ => False | _ => True end.
Proof.
  unfold pv_step.
  destruct (is_sp c); [by unfold pv_space; destruct (pv_state x)|].
  destruct (c =? LF); [by unfold pv_lf; destruct (pv_state x)|].
  destruct (c =? CR); [by unfold pv_cr; destruct (pv_state x)|].
  destruct (c =? ch "="); [by unfold pv_equal; destruct (pv_state x)|].
  destruct (c =? ch ";").
  { unfold pv_semicolon, rport_null. by destruct (pv_state x); try destruct (decide _). }
  destruct (c =? ch ",").
  { unfold pv_comma, rport_null. by destruct (pv_state x); try destruct (decide _). }
  destruct (c =? DQUOTE); [by unfold pv_quote; destruct (pv_state x)|].
  by unfold pv_default; destruct (pv_state x).
Qed.

Definition is_error (o : pout) : Prop := match o with PError _ => True | _ => False end.

Lemma pn_loop_wp m tmp n x :
  mbase m ≤ tmp → tmp + Z.of_nat n ≤ mlim m →
  wp (pn_loop m tmp n x) (λ r, tmp ≤ r.1 ≤ tmp + Z.of_nat n ∧ pout_ok r.2 ∧
    match r.2 with PNext _ => False | _ => True end ∧
    (¬ is_error r.2 → r.1 < tmp + Z.of_nat n)).
Proof.
  revert tmp x. induction n as [|n IH]; intros tmp x Hb He; cbn [pn_loop].
  { apply wp_ret. cbn. split_and!; try done; try lia. }
  apply wp_bind, wp_rd; [lia|]. intros c _. pose proof (pn_step_ok tmp x c) as Hok.
  destruct (pn_step tmp x c); try (apply wp_ret; cbn [fst snd]; refine (conj _ (conj Hok (conj I _))); intros; lia).
  eapply wp_mono; [apply IH; lia|]. intros [t o]; cbn. intros (H1 & H2 & H3 & H4).
  split_and!; try done; try lia. intros He'. specialize (H4 He'). lia.
Qed.

Section nul.
Context (m : mem) (pend z : Z).
Hypothesis Hnul : rd m z = Ok NUL.
Hypothesis Hz : pend ≤ z.

Lemma z_in : mbase m ≤ z < mlim m.
Proof. by eapply rd_Ok. Qed.

Lemma pv_loop_wp tmp x :
mbase m ≤ tmp → tmp ≤ z →
wp (pv_loop m tmp x) (λ r, tmp ≤ r.1 ≤ z ∧ pout_ok r.2 ∧
  match r.2 with PNext _ | PFind _ => False | _ => True end ∧ (¬ is_error r.2 → r.1 < z)).
Proof.
intros Hb Hle. pose proof z_in as Hzin.
apply (wp_loop _ (λ s, tmp ≤ s.1 ≤ z) (λ s, z - s.1)); [|cbn; lia|cbn; lia].
intros [t y]; cbn [fst]. intros Ht. split; [lia|]. unfold pv_round.
apply wp_bind, wp_rd; [lia|]. intros c Hc. destruct (Z.eqb_spec c NUL) as [->|Hne].
{ apply wp_ret. cbn. split_and!; try done; try lia. }
assert (t < z).
{ destruct (Z.eq_dec t z) as [->|]; [|lia]. rewrite Hnul in Hc. congruence. }
destruct (pv_step_ok t y c) as [Hok Hnf].
destruct (pv_step t y c); apply wp_ret; cbn; try done; try lia; split_and!; try done; lia.
Qed.

Lemma parse_via_param_wp p x :
mbase m ≤ p → p ≤ z →
wp (parse_via_param m p pend x) (λ r, p ≤ r.1 ≤ z ∧
  (pv_state r.2 = PARAM_ERROR ∨
   (r.1 < z ∧ exit_state (pv_state r.2) (pv_saved r.2)))).
Proof.
intros Hb Hle. pose proof z_in as Hzin. unfold parse_via_param.
apply wp_bind. eapply wp_mono; [apply pn_loop_wp; lia|].
intros [t o]; cbn [fst snd]. intros (H1 & H2 & H3 & H4).
assert (Hexit : ∀ t o, t ≤ z → p ≤ t → pout_ok o → (¬ is_error o → t < z) →
  p ≤ t ≤ z ∧ (pv_state (param_exit t o) = PARAM_ERROR ∨
    (t < z ∧ exit_state (pv_state (param_exit t o)) (pv_saved (param_exit t o))))).
{ intros t' o' G1 G2 G3 G4. split; [lia|]. destruct o' as [y|y|y|y|y]; cbn [param_exit]; try by left.
  - right. destruct G3 as [_ G3]. split; [by apply G4; intros []|done].
  - destruct (bool_decide _); [|by left]. right. split; [by apply G4; intros []|]. cbn in *. by rewrite G3. }
destruct o as [y|y|y|y|y]; try done.
- apply wp_bind. assert (t < p + Z.of_nat (Z.to_nat (pend - p))) by (by apply H4; intros []).
  eapply wp_mono; [apply pv_loop_wp; lia|].
  intros [t' o']; cbn [fst snd]. intros (G1 & G2 & G3 & G4). apply wp_ret. cbn [fst snd].
  apply Hexit; try done; lia.
- apply wp_bind, wp_ret, wp_ret. cbn [fst snd]. apply Hexit; try done; try lia.
  intros He. specialize (H4 He). lia.
- apply wp_bind, wp_ret, wp_ret. cbn [fst snd]. apply Hexit; try done; try lia.
  intros He. specialize (H4 He). lia.
- apply wp_bind, wp_ret, wp_ret. cbn [fst snd]. apply Hexit; try done; try lia.
Qed.
End nul.

(** ** The port, along the state machine *)

(** The state that a line break interrupts. *)
Definition eff (x : vvars) : vstate :=
  match v_state x with F_LF | F_CR | F_CRLF => v_saved x | st => st end.

(** The states before the port. *)
Definition before_port (st : vstate) : bool :=
  match st with
  | F_HOST | P_HOST | F_IP6HOST | P_IP6HOST | L_PORT | F_PORT => true
  | _ => false
  end.

Section main.
Context (m : mem) (pend z base : Z).
Hypothesis Hnul : rd m z = Ok NUL.
Hypothesis Hz : pend ≤ z.
Hypothesis Hbase : 0 < base ∧ mbase m ≤ base.
Hypothesis Hsize : z - base < 2 ^ 31.

Definition port_in (tmp : Z) (y : str) : Prop := y = null_str ∨ within base tmp y.

Record port_inv (tmp : Z) (x : vvars) : Prop := {
pi_in : port_in tmp (vb_str (v_body x) V_port_str);
pi_before : before_port (eff x) = true → vb_str (v_body x) V_port_str = null_str;
pi_port : eff x = P_PORT → str_s (vb_str (v_body x) V_port_str) ≠ 0;
}.

Definition vout_ok (tmp : Z) (o : vout) : Prop :=
match o with
| VNext y => port_inv (tmp + 1) y
| VEndHeader y | VEndPacket y | VNextVia y => port_in tmp (vb_str (v_body y) V_port_str)
| VMain _ => False
| VError _ | VNoMem _ => True
end.

Lemma port_in_mono tmp tmp' y : port_in tmp y → tmp ≤ tmp' → port_in tmp' y.
Proof. intros [->|H] Hle; [by left|right]. unfold within in *. lia. Qed.

(** A step that leaves the port alone. *)
Lemma inv_same tmp x y :
port_inv tmp x → vb_str (v_body y) V_port_str = vb_str (v_body x) V_port_str →
(before_port (eff y) = true → before_port (eff x) = true) →
(eff y = P_PORT → eff x = P_PORT) → port_inv (tmp + 1) y.
Proof.
intros [H1 H2 H3] E Hb Hp. split; rewrite E; auto. eapply port_in_mono; [exact H1|lia].
Qed.

(** A step that ends the port. *)
Lemma inv_end tmp x y :
base ≤ tmp ≤ z → port_inv tmp x → eff x = P_PORT →
vb_str (v_body y) V_port_str = slice (str_s (vb_str (v_body x) V_port_str)) tmp →
before_port (eff y) = false → eff y ≠ P_PORT → port_inv (tmp + 1) y.
Proof.
intros Ht [H1 _ H3] He E Hb Hp. specialize (H3 He). split; rewrite E.
- right. destruct H1 as [E0|H1]; [by rewrite E0 in H3|]. unfold within in H1. apply slice_within; lia.
- by rewrite Hb.
- done.
Qed.

(** A step that begins the port. *)
Lemma inv_start tmp x y :
base ≤ tmp → port_inv tmp x → before_port (eff x) = true →
vb_str (v_body y) V_port_str = Str tmp (str_len (vb_str (v_body x) V_port_str)) →
before_port (eff y) = false → port_inv (tmp + 1) y.
Proof.
intros Ht [_ H2 _] Hb E Hy. rewrite (H2 Hb) in E. split; rewrite E.
- right. unfold within. cbn. lia.
- by rewrite Hy.
- cbn. lia.
Qed.

Ltac port_step Hi :=
first
  [ exact I
  | eapply inv_same; [exact Hi|done|done|done]
  | eapply inv_end; [done|exact Hi|done|done|done|done]
  | eapply inv_start; [lia|exact Hi|done|done|done]
  | exact (pi_in _ _ Hi)
  | eapply inv_same; [exact Hi|done|unfold eff; cbn; by case_match|unfold eff; cbn; by case_match] ].

Ltac char_ok :=
intros tmp x Ht Hi; destruct x as [st sv n ps vb];
unfold vm_space, vm_lf, vm_cr, vm_break, vm_colon, vm_semicolon, vm_comma, vm_open, vm_close,
  vm_bracket, vm_unbracket, vm_default, allowed, comment_start, param_next;
destruct st; cbn [v_state vout_ok]; repeat case_match; try port_step Hi.

Lemma vm_space_ok : ∀ tmp x, base ≤ tmp ≤ z → port_inv tmp x → vout_ok tmp (vm_space tmp x).
Proof. char_ok. Qed.
Lemma vm_lf_ok : ∀ tmp x, base ≤ tmp ≤ z → port_inv tmp x → vout_ok tmp (vm_lf tmp x).
Proof. char_ok. Qed.
Lemma vm_cr_ok : ∀ tmp x, base ≤ tmp ≤ z → port_inv tmp x → vout_ok tmp (vm_cr tmp x).
Proof. char_ok. Qed.
Lemma vm_colon_ok : ∀ tmp x, base ≤ tmp ≤ z → port_inv tmp x → vout_ok tmp (vm_colon tmp x).
Proof. char_ok. Qed.
Lemma vm_semicolon_ok : ∀ tmp x, base ≤ tmp ≤ z → port_inv tmp x → vout_ok tmp (vm_semicolon tmp x).
Proof. char_ok. Qed.
Lemma vm_comma_ok : ∀ tmp x, base ≤ tmp ≤ z → port_inv tmp x → vout_ok tmp (vm_comma tmp x).
Proof. char_ok. Qed.
Lemma vm_open_ok : ∀ tmp x, base ≤ tmp ≤ z → port_inv tmp x → vout_ok tmp (vm_open tmp x).
Proof. char_ok. Qed.
Lemma vm_close_ok : ∀ tmp x, base ≤ tmp ≤ z → port_inv tmp x → vout_ok tmp (vm_close tmp x).
Proof. char_ok. Qed.
Lemma vm_bracket_ok : ∀ tmp x, base ≤ tmp ≤ z → port_inv tmp x → vout_ok tmp (vm_bracket tmp x).
Proof. char_ok. Qed.
Lemma vm_unbracket_ok : ∀ tmp x, base ≤ tmp ≤ z → port_inv tmp x → vout_ok tmp (vm_unbracket tmp x).
Proof. char_ok. Qed.
Lemma vm_default_ok c : ∀ tmp x, base ≤ tmp ≤ z → port_inv tmp x → vout_ok tmp (vm_default tmp x c).
Proof. char_ok. Qed.

Lemma add_param_str vp vb f : vb_str (add_param vp vb) f = vb_str vb f.
Proof. unfold add_param. by destruct (vp_type vp). Qed.

(** The loop invariant of [main_via]: the position before the [NUL], too. *)
Definition step_ok (tmp : Z) (r : Z * vout) : Prop :=
tmp ≤ r.1 ≤ z ∧ vout_ok r.1 r.2 ∧ match r.2 with VNext _ => r.1 < z | _ => True end.

Lemma vm_param_ok tmp left x :
base ≤ tmp < z → port_inv tmp x → eff x = F_PARAM →
wp (vm_param m pend tmp left x) (step_ok tmp).
Proof.
intros Ht Hi He. unfold vm_param.
set (x' := if str_s _ =? 0 then _ else x).
assert (E : vb_str (v_body x') V_port_str = vb_str (v_body x) V_port_str).
{ unfold x'. by destruct (_ =? 0). }
assert (Hin : port_in tmp (vb_str (v_body x') V_port_str)) by (rewrite E; apply Hi).
clearbody x'. clear Hi He E.
destruct left; cbn [negb]; [|apply wp_ret; split; cbn; [lia|done]].
apply wp_bind. eapply wp_mono; [apply (parse_via_param_wp m pend z Hnul Hz); lia|].
intros [t pv]; cbn [fst snd]. intros (H1 & H2). apply wp_ret. unfold step_ok. cbn [fst snd].
split; [lia|]. destruct H2 as [->|[Hlt Hex]]; [done|].
assert (Hnext : ∀ f y, vb_str (v_body y) V_port_str = vb_str (v_body x') V_port_str → f ≠ V_port_str →
  eff y = L_PARAM ∨ eff y = F_PARAM ∨ eff y = F_VIA →
  ∀ e, port_inv (t + 1) (on_body (add_param (pv_param pv)) (ends f e y))).
{ intros f y Ey Hf Hy e.
  assert (Estr : vb_str (v_body (on_body (add_param (pv_param pv)) (ends f e y))) V_port_str =
    vb_str (v_body x') V_port_str).
  { cbn. rewrite add_param_str. cbn. destruct (decide (V_port_str = f)); [congruence|done]. }
  assert (Eeff : eff (on_body (add_param (pv_param pv)) (ends f e y)) = eff y) by done.
  split; rewrite Estr, ?Eeff.
  - eapply port_in_mono; [exact Hin|lia].
  - intros E. destruct Hy as [Hy|[Hy|Hy]]; by rewrite Hy in E.
  - intros E. destruct Hy as [Hy|[Hy|Hy]]; by rewrite Hy in E. }
unfold exit_state in Hex. destruct (pv_state pv) eqn:Est; try done; cbn [vout_ok].
all: try (split; [apply Hnext; try done; unfold eff; cbn; rewrite ?Hex; auto|done]).
split; [|done]. cbn. rewrite add_param_str. cbn. eapply port_in_mono; [exact Hin|lia].
Qed.

Lemma vm_step_ok tmp c left x :
base ≤ tmp < z → port_inv tmp x → wp (vm_step m pend tmp c left x) (step_ok tmp).
Proof.
intros Ht Hi. unfold vm_step.
assert (Hret : ∀ o, vout_ok tmp o → wp (mret (tmp, o)) (step_ok tmp)).
{ intros o Ho. apply wp_ret. split; [cbn; lia|]. split; [done|]. cbn. destruct o; (exact I || lia). }
assert (Ht' : base ≤ tmp ≤ z) by lia.
destruct (is_sp c); [by apply Hret, vm_space_ok|].
destruct (c =? LF); [by apply Hret, vm_lf_ok|].
destruct (c =? CR); [by apply Hret, vm_cr_ok|].
destruct (c =? ch ":"); [by apply Hret, vm_colon_ok|].
destruct (c =? ch ";"); [by apply Hret, vm_semicolon_ok|].
destruct (c =? ch ","); [by apply Hret, vm_comma_ok|].
destruct (c =? ch "("); [by apply Hret, vm_open_ok|].
destruct (c =? ch ")"); [by apply Hret, vm_close_ok|].
destruct (c =? ch "["); [by apply Hret, vm_bracket_ok|].
destruct (c =? ch "]"); [by apply Hret, vm_unbracket_ok|].
destruct (bool_decide (v_state x = F_PARAM)) eqn:E; [|by apply Hret, vm_default_ok].
apply bool_decide_eq_true in E. apply vm_param_ok; [done|done|]. unfold eff. by rewrite E.
Qed.

Lemma vm_loop_ok malloc tmp x n :
base ≤ tmp ≤ z → port_inv tmp x →
wp (vm_loop malloc m pend tmp x n) (λ r, tmp ≤ r.1.1 ≤ z ∧ vout_ok r.1.1 r.1.2 ∧
  match r.1.2 with VNext _ => False | _ => True end).
Proof.
intros Ht Hi. pose proof (z_in m z Hnul) as Hzin.
apply (wp_loop _ (λ s, tmp ≤ s.1.1 ≤ z ∧ port_inv s.1.1 s.1.2) (λ s, z - s.1.1)); [|cbn; split; [lia|done]|cbn; lia].
intros [[t y] k]; cbn [fst snd]. intros [H1 H2]. split; [lia|]. unfold vm_round.
apply wp_bind, wp_rd; [lia|]. intros c Hc. destruct (Z.eqb_spec c NUL) as [->|Hne].
{ apply wp_ret. cbn. split; [lia|]. split; [apply H2|done]. }
assert (t < z).
{ destruct (Z.eq_dec t z) as [->|]; [|lia]. rewrite Hnul in Hc. congruence. }
apply wp_bind. eapply wp_mono; [apply vm_step_ok; [lia|done]|].
intros [t' o]; unfold step_ok; cbn [fst snd]. intros (G1 & G2 & G3).
destruct o; apply wp_ret; cbn [fst snd]; try done.
{ split; [|lia]. split; [lia|done]. }
all: done || (split; [lia|done]).
Qed.

(** ** The start of the Via *)
Definition start_ok (y : vout) : Prop :=
match y with
| VNext x => vb_str (v_body x) V_port_str = null_str
| VMain x => vb_str (v_body x) V_port_str = null_str ∧ eff x = F_HOST
| VEndHeader x => vb_str (v_body x) V_port_str = null_str
| VEndPacket _ | VNextVia _ | VNoMem _ => False
| VError _ => True
end.

Lemma vs_letter_ok tmp x l : vb_str (v_body x) V_port_str = null_str →
Forall (λ e, e.2 ≠ Some V_port_str) l → start_ok (vs_letter tmp x l).
Proof.
intros Hx Hl. unfold vs_letter. destruct (find _ l) as [[[a new] f]|] eqn:E.
- apply find_some in E as [Hin _]. rewrite Forall_forall in Hl.
  specialize (Hl _ (proj2 (list_elem_of_In _ _) Hin)). cbn in Hl.
  destruct f as [f|]; cbn; [|done]. destruct (decide (V_port_str = f)); [congruence|done].
- destruct (bool_decide _); [done|]. by destruct (in_proto _).
Qed.

Lemma vs_step_ok tmp x c : vb_str (v_body x) V_port_str = null_str → start_ok (vs_step tmp x c).
Proof.
intros Hx. unfold vs_step.
destruct (is_sp c). { unfold vs_space, fin_proto. by destruct (v_state x). }
destruct (c =? LF). { unfold vs_lf, fin_proto. by destruct (v_state x). }
destruct (c =? CR). { unfold vs_cr, fin_proto. by destruct (v_state x). }
destruct (c =? ch "/"). { unfold vs_slash. by destruct (v_state x). }
repeat match goal with
| |- start_ok (if ?b then _ else _) => destruct b
end; apply vs_letter_ok; try done; by repeat constructor.
Qed.

Lemma vs_loop_ok tmp k x :
base ≤ tmp → tmp + Z.of_nat k ≤ z → vb_str (v_body x) V_port_str = null_str →
wp (vs_loop m tmp k x) (λ r, tmp ≤ r.1 ≤ tmp + Z.of_nat k ∧ start_ok r.2 ∧
  match r.2 with VNext _ => False | VError _ => True | _ => r.1 < tmp + Z.of_nat k end).
Proof.
pose proof (z_in m z Hnul) as Hzin.
revert tmp x. induction k as [|k IH]; intros tmp x Ht Hk Hx; cbn [vs_loop].
{ apply wp_ret. cbn. split; [lia|done]. }
apply wp_bind, wp_rd; [lia|]. intros c _. pose proof (vs_step_ok tmp x c Hx) as Hs.
destruct (vs_step tmp x c) as [y|y|y|y|y|y|y]; try done;
  try (apply wp_ret; cbn [fst snd]; split; [lia|]; split; [done|]; (done || lia)).
eapply wp_mono; [apply IH; [lia|lia|done]|]. intros [t o]; cbn [fst snd]. intros (H1 & H2 & H3).
split; [lia|]. split; [done|]. destruct o; try done; lia.
Qed.
End main.

(** ** The end of a Via body *)

Lemma str2s_n_wp m p n ret i :
  mbase m ≤ p → p + Z.of_nat n ≤ mlim m → 0 ≤ ret < 2 ^ 16 →
  wp (str2s_n m p n ret i) (λ r, 0 ≤ r.1 < 2 ^ 16).
Proof.
  revert p ret i. induction n as [|n IH]; intros p ret i Hb He Hr; cbn [str2s_n]; [by apply wp_ret|].
  apply wp_bind, wp_rd; [lia|]. intros c _. cbn zeta.
  destruct (_ && _); [|by apply wp_ret]. destruct (5 <? i + 1); [by apply wp_ret|].
  apply IH; [lia|lia|]. apply Z.mod_pos_bound. lia.
Qed.

Lemma str2s_wp m p q y : mbase m ≤ p → q ≤ mlim m → q - p < 2 ^ 31 → within p q y →
  wp (str2s m (str_s y) (str_len y)) (λ r, 0 ≤ r.1 < 2 ^ 16).
Proof.
  unfold within. intros Hp Hq Hs Hy. unfold str2s. rewrite to_uint_small by lia.
  apply str2s_n_wp; lia.
Qed.

(** What a body says once it is accepted: it is marked [PARSE_OK], and its port
    is null or inside of the text. *)
Definition body_ok (lo hi : Z) (vb : via_body) : Prop :=
  vb_error vb = PARSE_OK ∧
  (vb_str vb V_port_str = null_str ∨ within lo hi (vb_str vb V_port_str)).

(** The result of [parse_via]: the pointer it returns, and the bodies; the first
    one tells if all are accepted. *)
Definition via_result (lo hi : Z) (r : Z * list via_body) : Prop :=
  lo ≤ r.1 ≤ hi ∧ ∃ first rest, r.2 = first :: rest ∧
    (Forall (body_ok lo hi) r.2 ∨ vb_error first = PARSE_ERROR).

Lemma body_ok_mono lo hi lo' hi' vb :
  lo' ≤ lo → hi ≤ hi' → body_ok lo hi vb → body_ok lo' hi' vb.
Proof.
  intros H1 H2 [He [Hp|Hp]]; split; try done; [by left|right]. unfold within in *. lia.
Qed.

Lemma via_fail_result lo hi t prev vb : lo ≤ t ≤ hi → via_result lo hi (t, via_fail prev vb).
Proof.
  intros Ht. split; [done|]. unfold via_fail. destruct prev as [|b prev]; cbn; eauto 6.
Qed.

Section rounds.
Context (malloc : nat → bool) (m : mem) (pend z : Z).
Hypothesis Hnul : rd m z = Ok NUL.
Hypothesis Hz : pend ≤ z.

Lemma via_accept_wp buffer tmp vb :
0 < buffer → mbase m ≤ buffer → buffer ≤ tmp ≤ z → z - buffer < 2 ^ 31 →
port_in buffer tmp (vb_str vb V_port_str) →
wp (via_accept m buffer tmp vb) (λ r, body_ok buffer tmp r.2).
Proof.
intros H0 Hb Ht Hs Hp. unfold via_accept. cbn zeta. cbn.
pose proof (z_in m z Hnul).
destruct (Z.eqb_spec (str_s (vb_str vb V_port_str)) 0) as [E|E]; [by apply wp_ret|].
destruct Hp as [Hp|Hp]; [by rewrite Hp in E|].
apply wp_bind. eapply wp_mono; [apply (str2s_wp m buffer tmp); try done; lia|].
intros [n e] Hn. apply wp_ret. split; [done|by right].
Qed.

(** Where the two loops of a round end. *)
Definition loops_ok (buffer : Z) (r : Z * vout * nat) : Prop :=
buffer ≤ r.1.1 ≤ z ∧
match r.1.2 with
| VEndHeader x | VEndPacket x => port_in buffer r.1.1 (vb_str (v_body x) V_port_str)
| VNextVia x => buffer < r.1.1 ∧ port_in buffer r.1.1 (vb_str (v_body x) V_port_str)
| _ => True
end.

Lemma loops_wp buffer vb n :
0 < buffer → mbase m ≤ buffer ≤ z → z - buffer < 2 ^ 31 → vb_str vb V_port_str = null_str →
wp ('(tmp, o) ← vs_loop m buffer (Z.to_nat (pend - buffer)) (via_start vb);
    match o with
    | VMain x => vm_loop malloc m pend (tmp + 1) (nest 0 x) n
    | o => mret (tmp, o, n)
    end) (loops_ok buffer).
Proof.
intros H0 Hb Hs Hn. apply wp_bind. destruct (Z.le_gt_cases pend buffer) as [Hle|Hgt].
{ replace (Z.to_nat (pend - buffer)) with 0%nat by lia. apply wp_ret. split; [cbn; lia|done]. }
eapply wp_mono; [apply (vs_loop_ok m z buffer Hnul ltac:(lia)); [lia|lia|done]|].
intros [t o]; cbn [fst snd]. intros (H1 & H2 & H3). destruct o as [x|x|x|x|x|x|x]; try done.
- destruct H2 as [H2 H4]. eapply wp_mono.
  { apply (vm_loop_ok m pend z buffer Hnul Hz); [lia|lia|lia|].
    split; cbn; rewrite ?H2; [by left|done|]. intros E. assert (eff (nest 0 x) = eff x) as E' by done.
    rewrite E', H4 in E. done. }
  intros [[t' o] n']; cbn [fst snd]. intros (G1 & G2 & _). unfold loops_ok. cbn [fst snd].
  split; [lia|]. destruct o; try done. split; [lia|done].
- apply wp_ret. split; [cbn; lia|]. cbn. by left.
- apply wp_ret. split; [cbn; lia|done].
Qed.

(** The invariant of the rounds, on the list of the accepted bodies. *)
Definition round_inv (lo : Z) (s : Z * list via_body * via_body * nat) : Prop :=
let '(buffer, prev, vb, n) := s in
lo ≤ buffer ≤ z ∧ vb_str vb V_port_str = null_str ∧ Forall (body_ok lo buffer) prev.

Lemma via_round_ok lo s :
0 < lo → mbase m ≤ lo → z - lo < 2 ^ 31 → round_inv lo s →
wp (via_round malloc m pend s) (λ r, match r with
  | inl s' => round_inv lo s' ∧ s.1.1.1 < s'.1.1.1
  | inr r => via_result lo z r
  end).
Proof.
destruct s as [[[buffer prev] vb] n]. intros H0 Hlo Hs (Hb & Hn & Hp). unfold via_round.
pose proof (loops_wp buffer vb n ltac:(lia) ltac:(lia) ltac:(lia) Hn) as Hl.
destruct (vs_loop _ _ _ _) as [[t o]| |]; try done. cbn [mbind res_bind] in *.
apply wp_bind. eapply wp_mono; [exact Hl|]. clear Hl t o.
intros [[t o] k] [Ht Ho]; cbn [fst snd] in *.
assert (Hfail : ∀ vb, via_result lo z (t, via_fail prev vb)) by (intros; apply via_fail_result; lia).
assert (Hacc : ∀ x, port_in buffer t (vb_str (v_body x) V_port_str) →
  wp (via_accept m buffer t (v_body x)) (λ r, body_ok lo t r.2)).
{ intros x Hx. eapply wp_mono; [apply via_accept_wp; try done; lia|]. intros a. apply body_ok_mono; lia. }
assert (Hprev : Forall (body_ok lo t) prev).
{ eapply Forall_impl; [exact Hp|]. intros b. apply body_ok_mono; lia. }
assert (Hfin : ∀ st x, port_in buffer t (vb_str (v_body x) V_port_str) →
  wp (if end_state_ok st then
    '(ok, vb) ← via_accept m buffer t (v_body x);
    if ok : bool then mret (inr (t, prev ++ [vb])) else mret (inr (t, via_fail prev vb))
  else mret (inr (t, via_fail prev (v_body x))))
  (λ r, match r with
  | inl s' => round_inv lo s' ∧ buffer < s'.1.1.1
  | inr r => via_result lo z r
  end)).
{ intros st x Hx. destruct (end_state_ok st); [|by apply wp_ret].
  apply wp_bind. eapply wp_mono; [by apply Hacc|]. intros [[] b] Hbody; apply wp_ret; [|by apply Hfail].
  cbn in Hbody. assert (Hall : Forall (body_ok lo z) (prev ++ [b])).
  { apply Forall_app; split; [|apply Forall_singleton].
    - eapply Forall_impl; [exact Hprev|]. intros ?. apply body_ok_mono; lia.
    - revert Hbody. apply body_ok_mono; lia. }
  split; [cbn; lia|]. destruct prev as [|b0 prev]; cbn; eauto. }
destruct o as [x|x|x|x|x|x|x]; try (by apply wp_ret).
- by apply Hfin.
- by apply Hfin.
- destruct Ho as [Hlt Ho]. apply wp_bind. eapply wp_mono; [by apply Hacc|].
  intros [[] b] Hbody; cbn [negb]; [|by apply wp_ret].
  destruct (malloc k); apply wp_ret; [|by apply Hfail]. cbn. split; [|lia]. split_and!; try done; try lia.
  apply Forall_app; split; [done|by apply Forall_singleton].
Qed.

Lemma parse_via_wp buffer vbody :
0 < buffer → mbase m ≤ buffer ≤ z → z - buffer < 2 ^ 31 → vb_str vbody V_port_str = null_str →
wp (parse_via malloc m pend buffer vbody) (via_result buffer z).
Proof.
intros H0 Hb Hs Hn. pose proof (z_in m z Hnul). unfold parse_via.
apply (wp_loop _ (round_inv buffer) (λ s, z - s.1.1.1)); [|by repeat split; try lia|cbn; lia].
intros s Hi. split.
- destruct s as [[[b p] v] k]. cbn in *. lia.
- eapply wp_mono; [apply (via_round_ok buffer s); try done; lia|]. intros [s'|r]; [|done].
  intros [? ?]. split; [done|lia].
Qed.
End rounds.

(** ** Properties *)

(** C7: with a [NUL] at or after the end of the message [parse_via] terminates
    and reads only inside of the block, whatever the header is, however many
    bodies it holds, and whichever allocations fail.  The pointer returned lies
    between the beginning of the header and the [NUL]; the list of bodies is not
    empty, and either every body is marked [PARSE_OK] and has a port that is
    null or inside of the text, or the first body is marked [PARSE_ERROR]. *)
Theorem parse_via_safe malloc m pend z buffer :
  mem_ok m → rd m z = Ok NUL → pend ≤ z → mbase m ≤ buffer ≤ z →
  wp (parse_via malloc m pend buffer via_zero) (via_result buffer z).
Proof.
  intros [H0 Hs _] Hn Hz Hb. pose proof (z_in m z Hn). by apply (parse_via_wp malloc m pend z); try lia.
Qed.

Lemma parse_via_safe_witness :
  let m := block (chars "SIP/2.0/UDP h:5060;branch=z9 (c), SIP / 2.0/TCP [::1]" ++ [13; 10; 0]) in
  wp (parse_via (λ _, true) m 4151 4096 via_zero) (via_result 4096 4151).
Proof.
  apply (parse_via_safe (λ _, true)
    (block (chars "SIP/2.0/UDP h:5060;branch=z9 (c), SIP / 2.0/TCP [::1]" ++ [13; 10; 0])) 4151 4151 4096).
  - apply mem_okb_ok. by vm_compute.
  - by vm_compute.
  - lia.
  - split; by vm_compute.
Defined.
