(* ===== verification/ViaParamRun.v ===== *)
(** * A parameter of a Via header: what [parse_via_param] makes of it *)

From stdpp Require Import strings.
From S2P Require Import ParserF Trie ViaParam Via.

(** ** The words that the Via parser recognises: transports and parameter names *)

(** ** Transports *)
Definition via_transports : list (string * list vstate * Z) :=
  [("udp", [UDP1; UDP2; FIN_UDP], PROTO_UDP);
   ("tcp", [TCP_TLS1; TCP2; FIN_TCP], PROTO_TCP);
   ("tls", [TCP_TLS1; TLS2; FIN_TLS], PROTO_TLS);
   ("sctp", [SCTP1; SCTP2; SCTP3; FIN_SCTP], PROTO_SCTP);
   ("ws", [WS1; WS_WSS], PROTO_WS);
   ("wss", [WS1; WS_WSS; FIN_WSS], PROTO_WSS)].

Definition transport_state : list Z → vstate := word_state (table_words via_transports) OTHER_PROTO.

(** The protocol that a name denotes. *)
Definition via_proto (l : list Z) : Z := table_value via_transports PROTO_OTHER (lower l).

(** The characters that end a transport. *)
Definition transport_stop (c : Z) : bool := is_sp c || (c =? LF) || (c =? CR) || (c =? ch "/").

(** The characters that no transport begins with: those that have a [case] of
    their own, but not for [F_PROTO]. *)
Definition transport_bad_first (c : Z) : bool := transport_stop c || one_of c "iIpPdDcClL2.0".

Definition start_vars (st : vstate) : vvars := VVars st F_HOST 0 0 via_zero.

Definition transport_move (st : vstate) (c : Z) : option vstate :=
  match vs_step 0 (start_vars st) c with VNext y => Some (v_state y) | _ => None end.

Lemma transport_checked :
  word_check (table_words via_transports) OTHER_PROTO transport_bad_first transport_stop transport_move F_PROTO = true.
Proof. by vm_compute. Qed.

(** The states in which a transport is read. *)
Definition transport_in (st : vstate) : bool := in_proto st || bool_decide (st = OTHER_PROTO).

Lemma transport_stops c : transport_stop c = false →
  is_sp c = false ∧ (c =? LF) = false ∧ (c =? CR) = false ∧ (c =? ch "/") = false.
Proof. unfold transport_stop. rewrite !orb_false_iff. tauto. Qed.

Definition moves (tmp : Z) (x : vvars) (o o' : vout) : Prop :=
  ∃ st, o = VNext (go st (start_vars (v_state x))) ∧ o' = VNext (go st x).

Lemma vs_letter_in tmp x l : transport_in (v_state x) = true →
  Forall (λ e, transport_in e.1.1 = true → e.2 = None) l →
  moves tmp x (vs_letter 0 (start_vars (v_state x)) l) (vs_letter tmp x l).
Proof.
  intros Hst Hl. unfold vs_letter. cbn [v_state start_vars].
  destruct (find _ l) as [[[old new] f]|] eqn:E.
  - apply find_some in E as [Hin Hold]. cbn in Hold. apply bool_decide_eq_true in Hold as ->.
    rewrite Forall_forall in Hl. specialize (Hl _ (proj2 (list_elem_of_In _ _) Hin) Hst).
    cbn in Hl. subst f. by eexists.
  - unfold transport_in in Hst. destruct (bool_decide _).
    + exists (v_state x). by destruct x.
    + rewrite orb_false_r in Hst. rewrite Hst. by exists OTHER_PROTO.
Qed.

Lemma transport_step tmp x c : transport_in (v_state x) = true → transport_stop c = false →
  ∃ st, transport_move (v_state x) c = Some st ∧ vs_step tmp x c = VNext (go st x).
Proof.
  intros Hst (H1 & H2 & H3 & H4)%transport_stops.
  assert (Hm : moves tmp x (vs_step 0 (start_vars (v_state x)) c) (vs_step tmp x c)).
  { unfold vs_step. rewrite H1, H2, H3, H4.
    repeat lazymatch goal with |- moves _ _ (if ?b then _ else _) _ => destruct b end;
      (apply vs_letter_in; [done|]; repeat constructor; done). }
  destruct Hm as (st & E & E'). exists st. split; [|done]. unfold transport_move. by rewrite E.
Qed.

Lemma transport_first_step tmp x c : v_state x = F_PROTO → transport_bad_first c = false →
  ∃ st, transport_move F_PROTO c = Some st ∧ vs_step tmp x c = VNext (starts V_transport tmp (go st x)).
Proof.
  unfold transport_bad_first. rewrite orb_false_iff.
  intros Hst [(H1 & H2 & H3 & H4)%transport_stops Hb]. destruct x as [st sv n ps vb]. cbn [v_state] in *. subst st.
  assert (Hn : ∀ s, forallb (λ a, one_of a "iIpPdDcClL2.0") (chars s) = true → one_of c s = false).
  { intros s. induction s as [|a s IH]; cbn [chars one_of forallb]; [done|]. intros [Ha Hs]%andb_prop.
    rewrite (IH Hs), orb_false_r. by apply (plain_not _ _ _ Hb). }
  unfold transport_move, vs_step. rewrite H1, H2, H3, H4.
  rewrite (Hn "Ii"), (Hn "pP"), (Hn "Dd"), (Hn "Cc"), (Hn "Ll") by done.
  rewrite !(plain_not _ _ _ Hb) by done.
  repeat lazymatch goal with |- context [one_of c ?s] => destruct (one_of c s) end; by eexists.
Qed.

(** What the state says at the end of the transport. *)
Definition state_proto (st : vstate) : option Z := fin_proto (start_vars st) PROTO_WSS true.

Lemma via_proto_state l : l ≠ [] → default PROTO_OTHER (state_proto (transport_state (lower l))) = via_proto l.
Proof.
  intros Hne. apply (table_value_state via_transports OTHER_PROTO (λ st, default PROTO_OTHER (state_proto st))).
  - by vm_compute.
  - by destruct l.
Qed.

(** Inside of a known transport no transport may end. *)
Definition transport_whole (l : list Z) : bool :=
  existsb (λ r, list_eqb (lower l) (chars r.1.1)) via_transports ||
  forallb (λ r, negb (prefixb (lower l) (chars r.1.1))) via_transports.

Definition may_end (st : vstate) : bool := match state_proto st with Some _ => true | None => false end.

Lemma transport_whole_state l : l ≠ [] → may_end (transport_state (lower l)) = transport_whole l.
Proof.
  intros Hne. unfold transport_whole. assert (Hl : lower l ≠ []) by by destruct l. revert Hl.
  generalize (lower l). clear.
  apply (word_value (table_words via_transports) OTHER_PROTO may_end).
  - by vm_compute.
  - intros l Hl. apply orb_true_intro. right. apply forallb_forall. intros r Hin.
    assert (Hr : (chars r.1.1, r.1.2) ∈ table_words via_transports).
    { apply list_elem_of_In. exact (in_map (λ r, (chars r.1.1, r.1.2)) _ _ Hin). }
    specialize (Hl _ Hr). cbn [fst] in Hl. by rewrite Hl.
Qed.

(** ** Parameter names *)
Definition via_names : list (string * list vstate * vstate) :=
  [("hidden", [HIDDEN1; HIDDEN2; HIDDEN3; HIDDEN4; HIDDEN5; FIN_HIDDEN], FIN_HIDDEN);
   ("ttl", [TTL1; TTL2; FIN_TTL], FIN_TTL);
   ("branch", [BRANCH1; BRANCH2; BRANCH3; BRANCH4; BRANCH5; FIN_BRANCH], FIN_BRANCH);
   ("maddr", [MADDR1; MADDR2; MADDR3; MADDR4; FIN_MADDR], FIN_MADDR);
   ("received", [RECEIVED1; RECEIVED2; RECEIVED3; RECEIVED4; RECEIVED5; RECEIVED6; RECEIVED7;
                 FIN_RECEIVED], FIN_RECEIVED);
   ("rport", [RECEIVED1; RPORT1; RPORT2; RPORT3; FIN_RPORT], FIN_RPORT);
   ("i", [FIN_I], FIN_I);
   ("alias", [ALIAS1; ALIAS2; ALIAS3; ALIAS4; FIN_ALIAS], FIN_ALIAS)].

Definition name_state : list Z → vstate := word_state (table_words via_names) GEN_PARAM.

(** The type of the parameter with the name [l]. *)
Definition name_type (l : list Z) : vstate := table_value via_names GEN_PARAM (lower l).

(** The characters that end a name. *)
Definition name_stop (c : Z) : bool := is_sp c || (c =? LF) || (c =? CR) || one_of c "=;,".

Definition name_vars (st : vstate) : pvars := PVars st F_HOST (ViaParam F_HOST null_str null_str 0 0).

Definition name_move (st : vstate) (c : Z) : option vstate :=
  match pn_step 0 (name_vars st) c with PNext y => Some (pv_state y) | _ => None end.

Lemma names_checked : word_check (table_words via_names) GEN_PARAM name_stop name_stop name_move F_PARAM = true.
Proof. by vm_compute. Qed.

(** The states in which a name is read, and the type that they amount to. *)
Definition name_in (st : vstate) : bool :=
  match st with F_PARAM | F_CR | F_LF | F_CRLF => false | _ => true end.

Definition type_of (st : vstate) : vstate :=
  match st with
  | FIN_HIDDEN | FIN_TTL | FIN_BRANCH | FIN_MADDR | FIN_RECEIVED | FIN_RPORT | FIN_I | FIN_ALIAS => st
  | _ => GEN_PARAM
  end.

Definition pmoves (x : pvars) (f : via_param → via_param) (o o' : pout) : Prop :=
  ∃ st, (∃ y, o = PNext y ∧ pv_state y = st) ∧ o' = PNext (PVars st (pv_saved x) (f (pv_param x))).

Lemma letter_in tmp x first l : name_in (pv_state x) = true →
  pmoves x id (letter 0 (name_vars (pv_state x)) first l) (letter tmp x first l).
Proof.
  intros Hst. unfold letter. cbn [pv_state name_vars]. destruct (find _ l) as [[old new]|].
  - exists new. split; [by eexists|done].
  - destruct x as [st sv vp]. cbn [pv_state] in *.
    destruct st; try done; eexists; (split; [by eexists|done]).
Qed.

Lemma letter_first tmp x first l : pv_state x = F_PARAM →
  forallb (λ e, negb (bool_decide (e.1 = F_PARAM))) l = true →
  pmoves x (name_start tmp) (letter 0 (name_vars F_PARAM) first l) (letter tmp x first l).
Proof.
  intros Hst Hl. unfold letter. rewrite Hst. cbn [pv_state name_vars].
  destruct (find _ l) as [[old new]|] eqn:E.
  - apply find_some in E as [Hin Hold]. rewrite forallb_forall in Hl. specialize (Hl _ Hin).
    by rewrite Hold in Hl.
  - eexists. split; [by eexists|done].
Qed.

Lemma name_stops c : name_stop c = false →
  is_sp c = false ∧ (c =? LF) = false ∧ (c =? CR) = false ∧ (c =? ch "=") = false ∧
  (c =? ch ";") = false ∧ (c =? ch ",") = false.
Proof. unfold name_stop. cbn [one_of]. rewrite !orb_false_iff. tauto. Qed.

Lemma via_name_step tmp x c : name_in (pv_state x) = true → name_stop c = false →
  ∃ st, name_move (pv_state x) c = Some st ∧
    pn_step tmp x c = PNext (PVars st (pv_saved x) (pv_param x)).
Proof.
  intros Hst (H1 & H2 & H3 & H4 & H5 & H6)%name_stops.
  assert (Hm : pmoves x id (pn_step 0 (name_vars (pv_state x)) c) (pn_step tmp x c)).
  { unfold pn_step. rewrite H1, H2, H3, H4, H5, H6.
    unfold pn_letters_hiden, pn_letters_tlmar, pn_letters_cvbpos.
    repeat match goal with |- context [if one_of c ?s then _ else _] =>
      destruct (one_of c s); [by apply letter_in|] end.
    by apply letter_in. }
  destruct Hm as (st & (y & E & Ey) & E'). exists st. split; [|done]. unfold name_move. by rewrite E, Ey.
Qed.

Lemma name_first_step tmp x c : pv_state x = F_PARAM → name_stop c = false →
  ∃ st, name_move F_PARAM c = Some st ∧
    pn_step tmp x c = PNext (PVars st (pv_saved x) (name_start tmp (pv_param x))).
Proof.
  intros Hst (H1 & H2 & H3 & H4 & H5 & H6)%name_stops.
  assert (Hm : pmoves x (name_start tmp) (pn_step 0 (name_vars F_PARAM) c) (pn_step tmp x c)).
  { unfold pn_step. rewrite H1, H2, H3, H4, H5, H6.
    unfold pn_letters_hiden, pn_letters_tlmar, pn_letters_cvbpos.
    repeat match goal with |- context [if one_of c ?s then _ else _] =>
      destruct (one_of c s); [by apply letter_first|] end.
    by apply letter_first. }
  destruct Hm as (st & (y & E & Ey) & E'). exists st. split; [|done]. unfold name_move. by rewrite E, Ey.
Qed.

Lemma name_type_state l : l ≠ [] → type_of (name_state (lower l)) = name_type l.
Proof.
  intros Hne. apply (table_value_state via_names GEN_PARAM type_of); [by vm_compute|by destruct l].
Qed.

Lemma name_state_in l : l ≠ [] → name_in (name_state l) = true.
Proof. by apply (word_value _ _ _ (λ _, true)); [vm_compute|]. Qed.

(** ** The text of a parameter *)
Definition word (stop : Z → bool) (l : list Z) : Prop :=
  Forall (λ c, -128 ≤ c ≤ 127 ∧ stop c = false) l.

(** The characters that end a value. *)
Definition value_stop (c : Z) : bool := name_stop c || (c =? DQUOTE) || (c =? NUL).

Definition item_chars (it : list Z * option (list Z)) : list Z :=
  it.1 ++ match it.2 with Some val => ch "=" :: val | None => [] end.

(** The parameters that need no value, and those that must not have one. *)
Definition may_be_flag (t : vstate) : bool :=
  match t with FIN_HIDDEN | FIN_ALIAS | FIN_RPORT | GEN_PARAM => true | _ => false end.
Definition only_flag (t : vstate) : bool :=
  match t with FIN_HIDDEN | FIN_ALIAS => true | _ => false end.

Record item_ok (it : list Z * option (list Z)) : Prop := {
  io_name : it.1 ≠ [] ∧ word name_stop it.1;
  io_value : match it.2 with
             | Some val => val ≠ [] ∧ word value_stop val ∧ only_flag (name_type it.1) = false
             | None => may_be_flag (name_type it.1) = true
             end;
}.

(** What is recorded for a parameter stored at [p]. *)
Definition param_of (p : Z) (it : list Z * option (list Z)) : via_param :=
  ViaParam (name_type it.1) (Str p (len it.1))
    match it.2 with Some val => Str (p + len it.1 + 1) (len val) | None => null_str end
    p (len (item_chars it)).

(** ** The name *)
Lemma via_name_run m p l k sv vp : bytes_at m p l → l ≠ [] → word name_stop l →
  pn_loop m p (length l + k) (PVars F_PARAM sv vp) =
  pn_loop m (p + len l) k (PVars (name_state (lower l)) sv (name_start p vp)).
Proof.
  intros Hat Hne Hl. revert k Hat. induction l as [|c l IH] using rev_ind; intros k Hat; [done|].
  apply Forall_app in Hl as [Hl Hc]. apply Forall_cons in Hc as [[Hr Hc] _].
  apply bytes_at_app in Hat as [Hat [Hrd _]].
  rewrite length_app, <- Nat.add_assoc. cbn [length Nat.add].
  destruct (decide (l = [])) as [->|Hl0].
  - cbn [length Nat.add app pn_loop] in *. rewrite Z.add_0_r in Hrd. rewrite Hrd. cbn [mbind res_bind].
    destruct (name_first_step p (PVars F_PARAM sv vp) c eq_refl Hc) as (st & Hst & ->).
    rewrite (word_first _ _ _ _ _ _ names_checked c Hr Hc) in Hst. by injection Hst as <-.
  - rewrite IH by done. cbn [pn_loop]. fold (len l) in Hrd. rewrite Hrd. cbn [mbind res_bind].
    assert (Hlow : lower l ≠ []) by by destruct l.
    destruct (via_name_step (p + len l) (PVars (name_state (lower l)) sv (name_start p vp)) c) as (st & Hst & ->);
      [by apply name_state_in|done|].
    pose proof (word_next _ _ _ _ _ _ names_checked (lower l) c Hlow Hr Hc) as Hw.
    cbn [pv_state] in Hst. unfold name_state in Hst. rewrite Hw in Hst. injection Hst as <-.
    cbn [pv_saved pv_param]. rewrite <- lower_snoc, len_app. f_equal; [len_lia].
Qed.

(** The end of a name. *)
Lemma name_equal q st sv vp : name_in st = true → only_flag (type_of st) = false →
  pn_step q (PVars st sv vp) (ch "=") = PFind (PVars F_VALUE sv (name_end q (set_type (type_of st) vp))).
Proof. by destruct st. Qed.

Lemma name_semicolon q st sv vp : name_in st = true → may_be_flag (type_of st) = true →
  pn_step q (PVars st sv vp) (ch ";") = PEnd (PVars F_PARAM sv (name_end q (set_type (type_of st) vp))).
Proof. by destruct st. Qed.

(** The state after the first character [e] of an end of line. *)
Definition break_state (e : Z) : vstate := if e =? CR then F_CR else F_LF.

Lemma name_break q st sv vp e : name_in st = true → may_be_flag (type_of st) = true → e = CR ∨ e = LF →
  pn_step q (PVars st sv vp) e =
    let vp := size_to q (name_end q (set_type (type_of st) vp)) in
    if only_flag (type_of st) then PEnd (PVars (break_state e) L_PARAM vp)
    else PFind (PVars (break_state e) L_VALUE vp).
Proof. intros H1 H2 [-> | ->]; by destruct st. Qed.

(** ** The value *)
Definition pv_room (m : mem) (s : Z * pvars) : Z := mlim m - s.1.

Lemma value_stops c : value_stop c = false →
  is_sp c = false ∧ (c =? LF) = false ∧ (c =? CR) = false ∧ (c =? ch "=") = false ∧
  (c =? ch ";") = false ∧ (c =? ch ",") = false ∧ (c =? DQUOTE) = false ∧ (c =? NUL) = false.
Proof. unfold value_stop. rewrite !orb_false_iff. intros [[H%name_stops ?] ?]. tauto. Qed.

Lemma pv_lands_next m p c x y a :
  rd m p = Ok c → (c =? NUL) = false → pv_step p x c = PNext y →
  lands (pv_round m) (pv_room m) (p + 1, y) a → lands (pv_round m) (pv_room m) (p, x) a.
Proof.
  intros Hc Hn Hs. apply lands_next; unfold pv_room; cbn [fst]; [|apply rd_Ok in Hc; lia|lia].
  unfold pv_round. rewrite Hc. cbn [mbind res_bind]. by rewrite Hn, Hs.
Qed.

Lemma pv_lands_done m p c x o :
  rd m p = Ok c → (c =? NUL) = false → pv_step p x c = o → match o with PNext _ => False | _ => True end →
  lands (pv_round m) (pv_room m) (p, x) (p, o).
Proof.
  intros Hc Hn Hs Ho. apply lands_done; unfold pv_room; cbn [fst]; [|apply rd_Ok in Hc; lia].
  unfold pv_round. rewrite Hc. cbn [mbind res_bind]. rewrite Hn, Hs. by destruct o.
Qed.

Lemma via_value_step q x c : value_stop c = false →
  pv_step q x c = match pv_state x with
  | F_VALUE => PNext (PVars P_VALUE (pv_saved x) (value_from q (pv_param x)))
  | _ => pv_default q x
  end.
Proof.
  intros (H1 & H2 & H3 & H4 & H5 & H6 & H7 & _)%value_stops. unfold pv_step.
  rewrite H1, H2, H3, H4, H5, H6, H7. by destruct x as [[] ? ?].
Qed.

Lemma value_not_nul c : value_stop c = false → (c =? NUL) = false.
Proof. intros H%value_stops. tauto. Qed.

Lemma value_rest m p l sv vp a : bytes_at m p l → word value_stop l →
  lands (pv_round m) (pv_room m) (p + len l, PVars P_VALUE sv vp) a →
  lands (pv_round m) (pv_room m) (p, PVars P_VALUE sv vp) a.
Proof.
  revert p. induction l as [|c l IH]; intros p Hat Hl H; [by rewrite Z.add_0_r in H|].
  destruct Hat as [Hc Hat]. apply Forall_cons in Hl as [[Hr Hs] Hl].
  eapply (pv_lands_next m p c); [done|by apply value_not_nul|by rewrite via_value_step|].
  apply IH; [done|done|]. by rewrite len_cons, Z.add_assoc in H.
Qed.

Lemma via_value_run m p l sv vp a : bytes_at m p l → l ≠ [] → word value_stop l →
  lands (pv_round m) (pv_room m) (p + len l, PVars P_VALUE sv (value_from p vp)) a →
  lands (pv_round m) (pv_room m) (p, PVars F_VALUE sv vp) a.
Proof.
  intros Hat Hne Hl H. destruct l as [|c l]; [done|]. destruct Hat as [Hc Hat].
  apply Forall_cons in Hl as [[Hr Hs] Hl].
  eapply (pv_lands_next m p c); [done|by apply value_not_nul|by rewrite via_value_step|].
  apply (value_rest m _ l); [done|done|]. by rewrite len_cons, Z.add_assoc in H.
Qed.

(** ** The whole parameter *)

(** The states with which [parse_via_param] leaves at the character [e]. *)
Definition exit_at (e : Z) (sv : vstate) : vstate * vstate :=
  if e =? ch ";" then (F_PARAM, sv) else (break_state e, L_PARAM).

Lemma value_exit q sv vp e : e = ch ";" ∨ e = CR ∨ e = LF →
  pv_step q (PVars P_VALUE sv vp) e = PEnd (PVars (exit_at e sv).1 (exit_at e sv).2 (value_end q vp)).
Proof. by intros [-> |[-> | ->]]. Qed.

(** A line break in front of a value, and then the next header. *)
Lemma pv_end_line q st sv vp c : st = F_CRLF ∨ st = F_LF → is_sp c = false →
  pv_step q (PVars st sv vp) c = goto_end_via (PVars F_LF sv vp).
Proof.
  intros Hst Hsp. unfold pv_step. rewrite Hsp.
  destruct Hst as [-> | ->]; repeat lazymatch goal with |- (if ?b then _ else _) = _ => destruct b; [done|] end; done.
Qed.

Section item.
Context (m : mem) (pend p : Z) (it : list Z * option (list Z)) (sv t0 : vstate).
Hypothesis Hit : item_ok it.
Hypothesis Hp : 0 ≤ p.
Hypothesis Hat : bytes_at m p (item_chars it).
Hypothesis Hlen : len (item_chars it) < 2 ^ 31.
Hypothesis Hend : p + len (item_chars it) < pend.

Let q := p + len (item_chars it).
Let vp0 := ViaParam t0 null_str null_str p 0.

Lemma item_name : bytes_at m p it.1.
Proof. unfold item_chars in Hat. by apply bytes_at_app in Hat as [? _]. Qed.

Lemma name_len : 0 < len it.1 ≤ len (item_chars it).
Proof.
unfold item_chars. destruct Hit as [[Hne _] _]. destruct it as [[|c n] v]; [done|]. cbn [fst snd].
destruct v; len_lia.
Qed.

(** The name, up to the character after it. *)
Lemma item_head : ∃ k, pn_loop m p (Z.to_nat (pend - p)) (PVars F_PARAM sv (set_type PARAM_ERROR vp0)) =
  pn_loop m (p + len it.1) (S k) (PVars (name_state (lower it.1)) sv (name_start p (set_type PARAM_ERROR vp0))) ∧
name_in (name_state (lower it.1)) = true ∧ type_of (name_state (lower it.1)) = name_type it.1.
Proof.
destruct Hit as [[Hne Hname] _]. pose proof name_len as Hl.
exists (Z.to_nat (pend - p - len it.1 - 1)). split.
- rewrite <- (via_name_run m p it.1) by (apply item_name || done). f_equal. unfold len in *. lia.
- split; [apply name_state_in; by destruct it.1|by apply name_type_state].
Qed.

Lemma param_of_exit (ty : vstate) (a : Z) :
ty = name_type it.1 → a = p + len it.1 →
match it.2 with
| Some val => size_to q (value_end q (value_from (a + 1)
    (name_end a (set_type ty (name_start p (set_type PARAM_ERROR vp0))))))
| None => size_to q (name_end a (set_type ty (name_start p (set_type PARAM_ERROR vp0))))
end = param_of p it.
Proof.
intros -> ->. pose proof name_len as Hl. pose proof (len_nonneg it.1). subst q. unfold param_of, item_chars in *.
destruct it as [n [val|]]; cbn [fst snd] in *; unfold size_to, value_end, value_len, value_from, name_end,
  name_start, set_type, slice; cbn; rewrite ?app_nil_r in *; rewrite ?len_app, ?len_cons in *;
  pose proof (len_nonneg n); try pose proof (len_nonneg val).
- rewrite !to_int_small by lia. f_equal; [f_equal; lia|f_equal; lia|lia].
- rewrite !to_int_small by lia. f_equal; [f_equal; lia|lia].
Qed.

(** A parameter with a value, or that needs none, up to its terminator. *)
Lemma item_at e : rd m q = Ok e → e = ch ";" ∨ e = CR ∨ e = LF →
(e = ch ";" ∨ it.2 ≠ None ∨ only_flag (name_type it.1) = true) →
parse_via_param m p pend (PVars F_PARAM sv vp0) =
  Ok (q, PVars (exit_at e sv).1 (exit_at e sv).2 (param_of p it)).
Proof.
intros He He' Hkind. destruct item_head as (k & Hhead & Hin & Hty).
unfold parse_via_param. cbn [pv_state pv_saved pv_param]. rewrite Hhead. cbn [pn_loop].
pose proof (param_of_exit _ _ Hty eq_refl) as Hparam. pose proof name_len as Hl.
destruct Hit as [_ Hval]. rewrite <- Hty in Hval, Hkind.
destruct it as [n [val|]]; cbn [fst snd] in *.
- destruct Hval as (Hne & Hv & Hflag).
  assert (Hat' := Hat). unfold item_chars in Hat'. apply bytes_at_app in Hat' as [_ [Heq Hbytes]].
  cbn [fst snd] in *. fold (len n) in Heq, Hbytes. rewrite Heq. cbn [mbind res_bind].
  rewrite name_equal by done. cbn [mret res_ret mbind res_bind].
  assert (Hq : q = p + len n + 1 + len val) by (subst q; unfold item_chars; cbn [fst snd]; len_lia).
  unfold pv_loop. rewrite (via_value_run m (p + len n + 1) val sv _ (q, PEnd (PVars (exit_at e sv).1 (exit_at e sv).2
    (value_end q (value_from (p + len n + 1) (name_end (p + len n) (set_type (type_of (name_state (lower n)))
      (name_start p (set_type PARAM_ERROR vp0)))))))) Hbytes Hne Hv).
  + cbn [mbind res_bind param_exit pv_state pv_saved pv_param]. by rewrite Hparam.
  + rewrite <- Hq. eapply pv_lands_done; [done|by destruct He' as [-> |[-> | ->]]|by apply value_exit|done].
  + unfold pv_room. cbn [fst]. lia.
- assert (Hq : q = p + len n) by (subst q; unfold item_chars; cbn [fst snd]; rewrite app_nil_r; done).
  rewrite <- Hq, He. cbn [mbind res_bind].
  destruct Hkind as [-> |[?|Honly]]; [|done|].
  + rewrite name_semicolon by done. cbn [mbind res_bind mret res_ret param_exit pv_state pv_saved pv_param].
    rewrite <- Hq in Hparam. by rewrite Hparam.
  + destruct He' as [-> |He'].
    { rewrite name_semicolon by done. cbn [mbind res_bind mret res_ret param_exit pv_state pv_saved pv_param].
      rewrite <- Hq in Hparam. by rewrite Hparam. }
    rewrite name_break, Honly by done. cbn [mbind res_bind mret res_ret param_exit pv_state pv_saved pv_param].
    rewrite <- Hq in Hparam. unfold exit_at. destruct (Z.eqb_spec e (ch ";")) as [->|]; [by destruct He'|].
    cbn [fst snd]. rewrite <- Hparam. done.
Qed.

(** A parameter without a value at the end of the header: the parser has to
  look for a value, and finds the next header at [q + len (eol cr)]. *)
Lemma item_open cr c : bytes_at m q (eol cr ++ [c]) → (c =? NUL) = false → is_sp c = false →
it.2 = None → only_flag (name_type it.1) = false →
parse_via_param m p pend (PVars F_PARAM sv vp0) =
  Ok (q + len (eol cr), PVars END_OF_HEADER L_PARAM (param_of p it)).
Proof.
intros Hrd Hnul Hsp Hnone Honly. destruct item_head as (k & Hhead & Hin & Hty).
unfold parse_via_param. cbn [pv_state pv_saved pv_param]. rewrite Hhead. cbn [pn_loop].
pose proof (param_of_exit _ _ Hty eq_refl) as Hparam. destruct Hit as [_ Hval].
rewrite Hnone, <- Hty in *.
assert (Hq : p + len it.1 = q) by (subst q; unfold item_chars; rewrite Hnone, app_nil_r; done).
rewrite Hq in *. set (t := type_of (name_state (lower it.1))) in *.
set (vp := size_to q (name_end q (set_type t (name_start p (set_type PARAM_ERROR vp0))))) in *.
assert (He : rd m q = Ok (hd LF (eol cr))) by (destruct cr; apply Hrd).
assert (Hl : lands (pv_round m) (pv_room m) (q + 1, PVars (break_state (hd LF (eol cr))) L_VALUE vp)
  (q + len (eol cr), goto_end_via (PVars F_LF L_VALUE vp))).
{ destruct cr; cbn [eol app hd] in *.
  - destruct Hrd as (_ & Hlf & Hc & _).
    eapply (pv_lands_next m (q + 1) LF); [done|done|done|].
    replace (q + len [CR; LF]) with (q + 1 + 1) by (unfold len; cbn; lia).
    eapply (pv_lands_done m _ c); [done|done|by rewrite pv_end_line by (done || by left)|done].
  - destruct Hrd as (_ & Hc & _). replace (q + len [LF]) with (q + 1) by (unfold len; cbn; lia).
    eapply (pv_lands_done m _ c); [done|done|by rewrite pv_end_line by (done || by right)|done]. }
rewrite He. cbn [mbind res_bind].
rewrite name_break by (done || (destruct cr; auto)). cbv zeta. fold t vp. rewrite Honly.
cbn [mret res_ret mbind res_bind]. unfold pv_loop. rewrite Hl by (unfold pv_room; cbn [fst]; lia).
cbn [mbind res_bind param_exit goto_end_via pv_state pv_saved pv_param].
rewrite bool_decide_eq_true_2, Hparam; [done|].
change (vp_type vp) with t. clear -Hval Honly. destruct t; try done; auto.
Qed.
End item.
