(* ===== verification/ViaMain.v ===== *)
(** * The loops of the Via parser over a grammar of Via headers

    A grammar of Via bodies (protocol, host name or IPv6 reference, port,
    parameters) that end with the line, and what the two loops of [parse_via] do
    with each part. *)

From stdpp Require Import strings.
From S2P Require Import ParserF Trie ViaParam Via ViaParamRun.

(** ** The grammar *)
Inductive via_host :=
| VName (l : list Z)
| VReference (l : list Z).

Record via_text := ViaText {
  vt_name : list Z;
  vt_transport : list Z;
  vt_host : via_host;
  vt_port : option (list Z);
  vt_params : list (list Z * option (list Z));
}.

Definition host_chars (h : via_host) : list Z :=
  match h with VName l => l | VReference l => ch "[" :: l ++ [ch "]"] end.

Definition start_chars (t : via_text) : list Z :=
  vt_name t ++ chars "/2.0/" ++ vt_transport t ++ [SPC].

Definition port_chars (p : option (list Z)) : list Z :=
  match p with None => [] | Some ds => ch ":" :: ds end.

Fixpoint params_chars (l : list (list Z * option (list Z))) : list Z :=
  match l with
  | [] => []
  | it :: l => ch ";" :: item_chars it ++ params_chars l
  end.

Definition via_chars (t : via_text) : list Z :=
  start_chars t ++ host_chars (vt_host t) ++ port_chars (vt_port t) ++ params_chars (vt_params t).

(** ** Well-formedness *)
Definition transport_ok (l : list Z) : Prop :=
  match l with
  | [] => False
  | c :: l => (-128 ≤ c ≤ 127 ∧ transport_bad_first c = false) ∧ word transport_stop l ∧
      transport_whole (c :: l) = true
  end.

Definition host_ok (h : via_host) : Prop :=
  match h with
  | VName l => l ≠ [] ∧ Forall (λ c, host_char c = true) l
  | VReference l => l ≠ [] ∧ Forall (λ c, ip6_char c = true) l
  end.

(** The characters with a [case] of their own in [main_via] begin no name. *)
Definition first_ok (it : list Z * option (list Z)) : Prop :=
  match it.1 with c :: _ => one_of c ":()[]" = false ∧ (c =? NUL) = false | [] => False end.

Record text_ok (t : via_text) : Prop := {
  to_name : lower (vt_name t) = chars "sip";
  to_transport : transport_ok (vt_transport t);
  to_host : host_ok (vt_host t);
  to_port : match vt_port t with None => True | Some ds => digits ds ∧ (0 < length ds ≤ 5)%nat end;
  to_params : Forall (λ it, item_ok it ∧ first_ok it) (vt_params t);
}.

(** ** The start of the Via *)
Lemma vs_loop_next m tmp k x c y :
  rd m tmp = Ok c → vs_step tmp x c = VNext y → vs_loop m tmp (S k) x = vs_loop m (tmp + 1) k y.
Proof. intros Hc Hs. cbn [vs_loop]. rewrite Hc. cbn [mbind res_bind]. by rewrite Hs. Qed.

Lemma transport_rest m p l0 l k x : v_state x = transport_state l0 → l0 ≠ [] →
  bytes_at m p l → word transport_stop l →
  vs_loop m p (length l + k) x = vs_loop m (p + len l) k (go (transport_state (l0 ++ lower l)) x).
Proof.
  revert p l0 x. induction l as [|c l IH]; intros p l0 x Hx Hne Hat Hl.
  { cbn [length Nat.add lower map]. rewrite app_nil_r, <- Hx, Z.add_0_r. by destruct x. }
  destruct Hat as [Hc Hat]. apply Forall_cons in Hl as [[Hr Hs] Hl].
  assert (Hin : transport_in (v_state x) = true).
  { rewrite Hx. revert Hne. by apply (word_value _ _ _ (λ _, true)); [vm_compute|]. }
  destruct (transport_step p x c Hin Hs) as (st & Hst & Hstep).
  rewrite Hx in Hst. unfold transport_state in Hst.
  rewrite (word_next _ _ _ _ _ _ transport_checked l0 c Hne Hr Hs) in Hst. injection Hst as <-.
  cbn [length Nat.add]. rewrite (vs_loop_next m p _ x c _ Hc Hstep).
  rewrite (IH _ (l0 ++ [tolower c])); [|done|by destruct l0|done|done].
  cbn [lower map]. rewrite <- app_assoc, len_cons. cbn [app]. by replace (p + 1 + len l) with (p + (1 + len l)) by lia.
Qed.

Lemma transport_run m p l k x : v_state x = F_PROTO → bytes_at m p l → transport_ok l →
  vs_loop m p (length l + k) x =
  vs_loop m (p + len l) k (go (transport_state (lower l)) (starts V_transport p x)).
Proof.
  intros Hx Hat Hl. destruct l as [|c l]; [done|]. destruct Hl as ([Hr Hb] & Hl & _). destruct Hat as [Hc Hat].
  destruct (transport_first_step p x c Hx Hb) as (st & Hst & Hstep).
  rewrite (word_first _ _ _ _ _ _ transport_checked c Hr Hb) in Hst. injection Hst as <-.
  cbn [length Nat.add]. rewrite (vs_loop_next m p _ x c _ Hc Hstep).
  rewrite (transport_rest m (p + 1) [tolower c]); [|done|done|done|done].
  rewrite len_cons. by replace (p + 1 + len l) with (p + (1 + len l)) by lia.
Qed.

Lemma transport_space q x l : v_state x = transport_state (lower l) → transport_ok l →
  vs_step q x SPC = VMain (go F_HOST (transport_end q x (via_proto l))).
Proof.
  intros Hx Hl. assert (Hne : l ≠ []) by by destruct l.
  assert (Hend : may_end (v_state x) = true).
  { rewrite Hx, transport_whole_state by done. destruct l; [done|]. by destruct Hl as (_ & _ & ?). }
  rewrite <- via_proto_state, <- Hx by done.
  change (vs_step q x SPC) with (vs_space q x). unfold vs_space.
  replace (fin_proto x PROTO_WSS true) with (state_proto (v_state x)) by by destruct x.
  unfold may_end in Hend. by destruct (state_proto (v_state x)).
Qed.

(** The variables at [main_via], after a start that is stored at [s]. *)
Definition start_vars_at (s : Z) (tr : list Z) : vvars :=
  let x := starts V_name s (go F_HOST (via_start via_zero)) in
  let x := starts V_version (s + 4) (ends V_name (s + 3) x) in
  let x := starts V_transport (s + 8) (ends V_version (s + 7) x) in
  transport_end (s + 8 + len tr) x (via_proto tr).

Lemma sip_letters n : lower n = chars "sip" → ∃ a b c, n = [a; b; c] ∧
  one_of a "Ss" = true ∧ one_of b "Ii" = true ∧ one_of c "pP" = true.
Proof.
  intros H. assert (Hn : length n = 3%nat) by by rewrite <- (length_lower n), H.
  destruct n as [|a [|b [|c [|]]]]; try done. cbn in H. injection H as Ha Hb Hc.
  apply (tolower_letter _ 115 ltac:(lia)) in Ha. apply (tolower_letter _ 105 ltac:(lia)) in Hb.
  apply (tolower_letter _ 112 ltac:(lia)) in Hc. exists a, b, c. split; [done|].
  by destruct Ha as [-> | ->], Hb as [-> | ->], Hc as [-> | ->].
Qed.

Lemma one_of_cases c (P : Z → Prop) (s : string) :
  Forall P (chars s) → one_of c s = true → P c.
Proof.
  induction s as [|a s IH]; cbn [chars one_of]; [done|]. intros [Ha Hs]%Forall_cons.
  intros [->%Z.eqb_eq|H]%orb_true_iff; auto.
Qed.

Lemma step_s p x a : one_of a "Ss" = true → v_state x = F_SIP →
  vs_step p x a = VNext (starts V_name p (go SIP1 x)).
Proof.
  intros Ha Hx. destruct x as [st sv n ps vb]. cbn in Hx. subst st. revert Ha.
  apply (one_of_cases a (λ a, vs_step p _ a = VNext _)). by repeat constructor.
Qed.

Lemma step_i p x a : one_of a "Ii" = true → v_state x = SIP1 → vs_step p x a = VNext (go SIP2 x).
Proof.
  intros Ha Hx. destruct x as [st sv n ps vb]. cbn in Hx. subst st. revert Ha.
  apply (one_of_cases a (λ a, vs_step p _ a = VNext _)). by repeat constructor.
Qed.

Lemma step_p p x a : one_of a "pP" = true → v_state x = SIP2 → vs_step p x a = VNext (go FIN_SIP x).
Proof.
  intros Ha Hx. destruct x as [st sv n ps vb]. cbn in Hx. subst st. revert Ha.
  apply (one_of_cases a (λ a, vs_step p _ a = VNext _)). by repeat constructor.
Qed.

Lemma start_run m s pend t : lower (vt_name t) = chars "sip" → transport_ok (vt_transport t) →
  bytes_at m s (start_chars t) → s + len (start_chars t) ≤ pend →
  vs_loop m s (Z.to_nat (pend - s)) (via_start via_zero) =
  Ok (s + 8 + len (vt_transport t), VMain (start_vars_at s (vt_transport t))).
Proof.
  intros Hn Htr Hat Hend. destruct (sip_letters _ Hn) as (a & b & c & En & Ha & Hb & Hc).
  unfold start_chars in *. rewrite En in *. clear En Hn. set (tr := vt_transport t) in *.
  cbn [app chars] in Hat, Hend. rewrite !len_cons, len_app, len_cons, len_nil in Hend.
  destruct Hat as (H0 & H1 & H2 & H3 & H4 & H5 & H6 & H7 & Hat).
  apply bytes_at_app in Hat as [Htra Hsp]. fold (len tr) in Hsp. destruct Hsp as [Hsp _].
  replace (Z.to_nat (pend - s)) with (8 + (length tr + S (Z.to_nat (pend - s - 9 - len tr))))%nat
    by (unfold len in *; lia). cbn [Nat.add].
  erewrite vs_loop_next; [|exact H0|by apply step_s].
  erewrite vs_loop_next; [|exact H1|by apply step_i].
  erewrite vs_loop_next; [|exact H2|by apply step_p].
  do 5 (erewrite vs_loop_next; [|eassumption|done]).
  rewrite (transport_run m _ tr); [|done|done|done].
  cbn [vs_loop]. rewrite Hsp. cbn [mbind res_bind]. rewrite (transport_space _ _ tr) by done.
  unfold start_vars_at. do 3 f_equal; [lia|].
  replace (s + 1 + 1 + 1 + 1 + 1 + 1 + 1 + 1) with (s + 8) by lia.
  replace (s + 1 + 1 + 1 + 1 + 1 + 1 + 1) with (s + 7) by lia.
  replace (s + 1 + 1 + 1 + 1) with (s + 4) by lia. replace (s + 1 + 1 + 1) with (s + 3) by lia.
  done.
Qed.

(** ** The main loop, over known contents *)
Section main.
Context (malloc : nat → bool) (m : mem) (pend : Z).
Hypothesis Hmalloc : ∀ n, malloc n = true.

Definition vm_room (s : Z * vvars * nat) : Z := mlim m - s.1.1.

(** From [x] at [p] the loop leaves at [q] for [endofheader], with the saved
  state [sv] and the body [vb]. *)
Definition ends_at (p : Z) (x : vvars) (q : Z) (sv : vstate) (vb : via_body) : Prop :=
∀ n, ∃ n' x', lands (vm_round malloc m pend) vm_room (p, x, n) (q, VEndHeader x', n') ∧
  v_saved x' = sv ∧ v_body x' = vb.

Lemma ends_next p p' x c y q sv vb :
rd m p = Ok c → (c =? NUL) = false → p ≤ p' → vm_step m pend p c true x = Ok (p', VNext y) →
ends_at (p' + 1) y q sv vb → ends_at p x q sv vb.
Proof.
intros Hc Hnul Hp Hs He n. destruct (He (if bool_decide (v_state x = F_PARAM) then S n else n)) as (n' & x' & Hl & Hx).
exists n', x'. split; [|done]. revert Hl. apply lands_next; unfold vm_room; cbn [fst]; [|apply rd_Ok in Hc; lia|lia].
unfold vm_round. rewrite Hc. cbn [mbind res_bind]. by rewrite Hnul, Hmalloc, Hs.
Qed.

Lemma ends_done p p' x c y :
rd m p = Ok c → (c =? NUL) = false → vm_step m pend p c true x = Ok (p', VEndHeader y) →
ends_at p x p' (v_saved y) (v_body y).
Proof.
intros Hc Hnul Hs n. eexists _, y. split; [|done].
apply lands_done; unfold vm_room; cbn [fst]; [|apply rd_Ok in Hc; lia].
unfold vm_round. rewrite Hc. cbn [mbind res_bind]. by rewrite Hnul, Hmalloc, Hs.
Qed.

(** An ordinary step. *)
Lemma ends_step p x c y q sv vb :
rd m p = Ok c → (c =? NUL) = false → vm_step m pend p c true x = Ok (p, VNext y) →
ends_at (p + 1) y q sv vb → ends_at p x q sv vb.
Proof. intros Hc Hn. apply ends_next; [done|done|lia]. Qed.

(** The rest of the line break, and the next header. *)
Lemma break_end p cr c sv n ps vb :
bytes_at m p (eol cr ++ [c]) → (c =? NUL) = false → is_sp c = false →
ends_at (p + 1) (VVars (break_state (hd LF (eol cr))) sv n ps vb) (p + len (eol cr)) sv vb.
Proof.
intros Hat Hnul Hsp.
assert (Hend : ∀ q st, rd m q = Ok c → st = F_LF ∨ st = F_CRLF → ends_at q (VVars st sv n ps vb) q sv vb).
{ intros q st Hc Hst.
  assert (Hs : ∃ y, vm_step m pend q c true (VVars st sv n ps vb) = Ok (q, VEndHeader y) ∧
    v_saved y = sv ∧ v_body y = vb).
  { unfold vm_step. rewrite Hsp.
    destruct Hst as [-> | ->]; cbn [v_state];
      repeat lazymatch goal with |- context [if ?c =? ?a then _ else _] =>
        destruct (c =? a); [by eexists|] end; by eexists. }
  destruct Hs as (y & Hs & <- & <-). by eapply ends_done. }
destruct cr; cbn [eol app hd] in *.
- destruct Hat as (_ & Hlf & Hc & _).
  eapply (ends_step (p + 1) _ LF); [done|done|done|].
  replace (p + len [CR; LF]) with (p + 1 + 1) by (unfold len; cbn; lia). by apply Hend; [|right].
- destruct Hat as (_ & Hc & _). replace (p + len [LF]) with (p + 1) by (unfold len; cbn; lia).
  by apply Hend; [|left].
Qed.

(** *** The host *)
Definition host_body (p : Z) (h : via_host) (vb : via_body) : via_body :=
v_body (ends V_host (p + len (host_chars h)) (starts V_host p (VVars F_HOST F_HOST 0 0 vb))).

Lemma host_step p st sv n ps vb c : st = F_HOST ∨ st = P_HOST → host_char c = true →
vm_step m pend p c true (VVars st sv n ps vb) = Ok (p, VNext
  (if bool_decide (st = F_HOST) then starts V_host p (VVars P_HOST sv n ps vb) else VVars P_HOST sv n ps vb)).
Proof.
intros Hst Hc. assert (Hn : ∀ a, host_char a = false → (c =? a) = false).
{ intros a Ha. destruct (Z.eqb_spec c a) as [->|]; [congruence|done]. }
unfold vm_step, is_sp. rewrite !Hn by done. cbn [orb v_state].
destruct Hst as [-> | ->]; cbn; unfold vm_default; cbn [v_state]; by rewrite Hc.
Qed.

Lemma host_rest p l sv n ps vb q sv' vb' :
bytes_at m p l → Forall (λ c, host_char c = true) l →
ends_at (p + len l) (VVars P_HOST sv n ps vb) q sv' vb' → ends_at p (VVars P_HOST sv n ps vb) q sv' vb'.
Proof.
revert p. induction l as [|c l IH]; intros p Hat Hl H; [by rewrite Z.add_0_r in H|].
destruct Hat as [Hc Hat]. apply Forall_cons in Hl as [Hh Hl].
eapply (ends_step p _ c); [done| |by apply host_step; [right|]|].
- destruct (Z.eqb_spec c NUL) as [->|]; [by vm_compute in Hh|done].
- apply IH; [done|done|]. by rewrite len_cons, Z.add_assoc in H.
Qed.

Lemma ip6_not (c : Z) : ip6_char c = true → ∀ a, ip6_char a = false → (c =? a) = false.
Proof. intros Hc a Ha. destruct (Z.eqb_spec c a) as [->|]; [congruence|done]. Qed.

Lemma ip6_step p st sv n ps vb c : st = F_IP6HOST ∨ st = P_IP6HOST → ip6_char c = true →
vm_step m pend p c true (VVars st sv n ps vb) = Ok (p, VNext (VVars P_IP6HOST sv n ps vb)).
Proof.
intros Hst Hc. unfold vm_step, is_sp. destruct (Z.eqb_spec c (ch ":")) as [->|].
{ by destruct Hst as [-> | ->]. }
rewrite !(ip6_not c Hc) by done. cbn [orb v_state].
destruct Hst as [-> | ->]; cbn; unfold vm_default; cbn [v_state]; by rewrite Hc.
Qed.

Lemma ip6_run p l st sv n ps vb q sv' vb' : st = F_IP6HOST ∨ st = P_IP6HOST →
bytes_at m p l → l ≠ [] → Forall (λ c, ip6_char c = true) l →
ends_at (p + len l) (VVars P_IP6HOST sv n ps vb) q sv' vb' → ends_at p (VVars st sv n ps vb) q sv' vb'.
Proof.
revert p st. induction l as [|c l IH]; intros p st Hst Hat Hne Hl H; [done|].
destruct Hat as [Hc Hat]. apply Forall_cons in Hl as [Hh Hl].
eapply (ends_step p _ c); [done|by apply ip6_not|by apply ip6_step|].
rewrite len_cons, Z.add_assoc in H. destruct l as [|d l]; [by rewrite Z.add_0_r in H|].
apply IH; [by right|done..].
Qed.

(** The variables after the character [e] that ends the host. *)
Definition host_next (e q : Z) (sv : vstate) (n ps : Z) (vb : via_body) : vvars :=
if e =? ch ":" then VVars F_PORT sv n ps vb
else if e =? ch ";" then VVars F_PARAM sv n (q + 1) vb
else VVars (break_state e) L_PORT n ps vb.

Definition host_end (e : Z) : Prop := e = ch ":" ∨ e = ch ";" ∨ e = CR ∨ e = LF.

Lemma via_host_run p h sv n ps vb e q sv' vb' :
host_ok h → bytes_at m p (host_chars h ++ [e]) → host_end e →
ends_at (p + len (host_chars h) + 1)
  (host_next e (p + len (host_chars h)) sv n ps (host_body p h vb)) q sv' vb' →
ends_at p (VVars F_HOST sv n ps vb) q sv' vb'.
Proof.
intros Hh Hat He H. apply bytes_at_app in Hat as [Hat [Hrd _]]. fold (len (host_chars h)) in Hrd.
assert (Hnul : (e =? NUL) = false) by by destruct He as [-> |[-> |[-> | ->]]].
destruct h as [l|l]; destruct Hh as [Hne Hl].
- cbn [host_chars] in *. destruct l as [|c l]; [done|]. destruct Hat as [Hc Hat].
  apply Forall_cons in Hl as [Hh Hl].
  eapply (ends_step p _ c); [done| |by apply host_step; [left|]|].
  { destruct (Z.eqb_spec c NUL) as [->|]; [by vm_compute in Hh|done]. }
  cbn [bool_decide decide]. rewrite len_cons, Z.add_assoc in *.
  apply (host_rest (p + 1) l); [done|done|].
  eapply (ends_step _ _ e); [done|done| |exact H].
  unfold host_body. cbn [host_chars]. rewrite len_cons, Z.add_assoc.
  by destruct He as [-> |[-> |[-> | ->]]].
- cbn [host_chars] in *. destruct Hat as [Hc Hat]. apply bytes_at_app in Hat as [Hat [Hcl _]].
  eapply (ends_step p _ (ch "[")); [done|done|done|].
  apply (ip6_run (p + 1) l); [by left|done|done|done|].
  eapply (ends_step _ _ (ch "]")); [done|done|done|].
  assert (Hlen : p + len (ch "[" :: l ++ [ch "]"]) = p + 1 + len l + 1).
  { len_lia. }
  unfold host_body in H. cbn [host_chars] in H. rewrite Hlen in *.
  eapply (ends_step _ _ e); [done|done| |exact H].
  by destruct He as [-> |[-> |[-> | ->]]].
Qed.

(** *** The port *)
Definition port_body (p : Z) (ds : list Z) (vb : via_body) : via_body :=
v_body (ends V_port_str (p + len ds) (starts V_port_str p (VVars F_PORT F_HOST 0 0 vb))).

Definition port_next (e q : Z) (sv : vstate) (n ps : Z) (vb : via_body) : vvars :=
if e =? ch ";" then VVars F_PARAM sv n (q + 1) vb else VVars (break_state e) L_PARAM n ps vb.

Definition item_end (e : Z) : Prop := e = ch ";" ∨ e = CR ∨ e = LF.

Lemma digit_not (d : Z) : 48 ≤ d ≤ 57 → ∀ a, is_digit a = false → (d =? a) = false.
Proof. intros Hd%is_digit_spec a Ha. destruct (Z.eqb_spec d a) as [->|]; [congruence|done]. Qed.

Lemma port_step p st sv n ps vb d : st = F_PORT ∨ st = P_PORT → 48 ≤ d ≤ 57 →
vm_step m pend p d true (VVars st sv n ps vb) = Ok (p, VNext
  (if bool_decide (st = F_PORT) then starts V_port_str p (VVars P_PORT sv n ps vb) else VVars P_PORT sv n ps vb)).
Proof.
intros Hst Hd. unfold vm_step, is_sp. rewrite !(digit_not d Hd) by done. cbn [orb v_state].
apply is_digit_spec in Hd. destruct Hst as [-> | ->]; cbn; unfold vm_default; cbn [v_state]; by rewrite Hd.
Qed.

Lemma port_rest p ds sv n ps vb q sv' vb' :
bytes_at m p ds → digits ds →
ends_at (p + len ds) (VVars P_PORT sv n ps vb) q sv' vb' → ends_at p (VVars P_PORT sv n ps vb) q sv' vb'.
Proof.
revert p. induction ds as [|c l IH]; intros p Hat Hl H; [by rewrite Z.add_0_r in H|].
destruct Hat as [Hc Hat]. apply Forall_cons in Hl as [Hh Hl].
eapply (ends_step p _ c); [done|by apply digit_not|by apply port_step; [right|]|].
apply IH; [done|done|]. by rewrite len_cons, Z.add_assoc in H.
Qed.

Lemma via_port_run p ds sv n ps vb e q sv' vb' :
digits ds → ds ≠ [] → bytes_at m p (ds ++ [e]) → item_end e →
ends_at (p + len ds + 1) (port_next e (p + len ds) sv n ps (port_body p ds vb)) q sv' vb' →
ends_at p (VVars F_PORT sv n ps vb) q sv' vb'.
Proof.
intros Hds Hne Hat He H. apply bytes_at_app in Hat as [Hat [Hrd _]]. fold (len ds) in Hrd.
destruct ds as [|d ds]; [done|]. destruct Hat as [Hd Hat]. apply Forall_cons in Hds as [Hr Hds].
eapply (ends_step p _ d); [done|by apply digit_not|by apply port_step; [left|]|].
cbn [bool_decide decide]. rewrite len_cons, Z.add_assoc in *. apply (port_rest (p + 1) ds); [done|done|].
eapply (ends_step _ _ e); [done|by destruct He as [-> |[-> | ->]]| |exact H].
unfold port_body. rewrite len_cons, Z.add_assoc. by destruct He as [-> |[-> | ->]].
Qed.

(** *** The parameters *)
Definition item_body (p : Z) (it : list Z * option (list Z)) (vb : via_body) : via_body :=
let vb :=
  if str_s (vb_str vb V_params) =? 0
  then set_vstr V_params (Str p (str_len (vb_str vb V_params))) vb else vb in
add_param (param_of p it)
  (set_vstr V_params (slice (str_s (vb_str vb V_params)) (p + len (item_chars it))) vb).

(** The parameters [l], each after its [';'], the first of which is at [p]. *)
Fixpoint items_body (p : Z) (l : list (list Z * option (list Z))) (vb : via_body) : via_body :=
match l with
| [] => vb
| it :: l => items_body (p + 1 + len (item_chars it)) l (item_body (p + 1) it vb)
end.

Lemma items_body_cons p it l vb :
items_body p (it :: l) vb = items_body (p + 1 + len (item_chars it)) l (item_body (p + 1) it vb).
Proof. done. Qed.

Lemma item_first p it rest x : item_ok it → first_ok it → bytes_at m p (item_chars it ++ rest) →
v_state x = F_PARAM → ∃ c, rd m p = Ok c ∧ (c =? NUL) = false ∧
  vm_step m pend p c true x = vm_param m pend p true x.
Proof.
intros [[Hne Hname] _] Hf Hat Hx. unfold first_ok, item_chars in *.
destruct it as [[|c l] v]; [done|]. destruct Hat as [Hc _]. destruct Hf as [Hf Hnul].
apply Forall_cons in Hname as [[_ Hs] _]. exists c. split; [done|]. split; [done|].
apply name_stops in Hs as (H1 & H2 & H3 & _ & H5 & H6). unfold vm_step.
rewrite H1, H2, H3, H5, H6, Hx. by rewrite !(plain_not _ _ _ Hf).
Qed.

(** [vm_param] on the parameter that [item_at] or [item_open] describes. *)
Lemma vm_param_vars p sv n vb :
(if str_s (vb_str (v_body (VVars F_PARAM sv n p vb)) V_params) =? 0
 then on_body (λ vb0, set_vstr V_params (Str p (str_len (vb_str vb0 V_params))) vb0) (VVars F_PARAM sv n p vb)
 else VVars F_PARAM sv n p vb) =
VVars F_PARAM sv n p (if str_s (vb_str vb V_params) =? 0
  then set_vstr V_params (Str p (str_len (vb_str vb V_params))) vb else vb).
Proof. cbn [v_body]. by destruct (_ =? 0). Qed.

Section item.
Context (p : Z) (it : list Z * option (list Z)) (sv : vstate) (n : Z) (vb : via_body).
Hypothesis Hit : item_ok it.
Hypothesis Hp : 0 ≤ p.
Hypothesis Hat : bytes_at m p (item_chars it).
Hypothesis Hlen : len (item_chars it) < 2 ^ 31.
Hypothesis Hend : p + len (item_chars it) < pend.

Let q := p + len (item_chars it).

Lemma vm_param_closed e : rd m q = Ok e → item_end e →
(e = ch ";" ∨ it.2 ≠ None ∨ only_flag (name_type it.1) = true) →
vm_param m pend p true (VVars F_PARAM sv n p vb) =
Ok (q, VNext (port_next e q sv n p (item_body p it vb))).
Proof.
intros He Hie Hkind. unfold vm_param. cbn [negb]. rewrite vm_param_vars. cbn [v_state v_saved v_start].
rewrite (item_at m pend p it sv F_HOST Hit Hat Hlen Hend e He Hie Hkind).
cbn [mbind res_bind pv_state pv_saved pv_param]. unfold port_next, exit_at, item_body. subst q.
by destruct Hie as [-> |[-> | ->]].
Qed.

Lemma vm_param_open cr c : bytes_at m q (eol cr ++ [c]) → (c =? NUL) = false → is_sp c = false →
it.2 = None → only_flag (name_type it.1) = false →
∃ y, vm_param m pend p true (VVars F_PARAM sv n p vb) = Ok (q + len (eol cr), VEndHeader y) ∧
v_saved y = L_PARAM ∧ v_body y = item_body p it vb.
Proof.
intros Hrd Hnul Hsp Hnone Honly. unfold vm_param. cbn [negb]. rewrite vm_param_vars.
cbn [v_state v_saved v_start].
rewrite (item_open m pend p it sv F_HOST Hit Hat Hlen Hend cr c Hrd Hnul Hsp Hnone Honly).
cbn [mbind res_bind pv_state pv_saved pv_param]. by eexists.
Qed.
End item.

(** The last parameter. *)
Lemma param_last cr c p it sv n vb :
item_ok it → first_ok it → 0 ≤ p → bytes_at m p (item_chars it ++ eol cr ++ [c]) →
(c =? NUL) = false → is_sp c = false → len (item_chars it) < 2 ^ 31 →
p + len (item_chars it) + len (eol cr) ≤ pend →
ends_at p (VVars F_PARAM sv n p vb) (p + len (item_chars it) + len (eol cr)) L_PARAM (item_body p it vb).
Proof.
intros Hit Hf Hp Hat Hnul Hsp Hlen Hend.
assert (Heol : 0 < len (eol cr)) by by destruct cr.
destruct (item_first p it (eol cr ++ [c]) (VVars F_PARAM sv n p vb) Hit Hf Hat eq_refl) as (d & Hd & Hdn & Hds).
apply bytes_at_app in Hat as [Hat Hrd]. fold (len (item_chars it)) in Hrd.
assert (Hlt : p + len (item_chars it) < pend) by lia.
assert (Hkind : (it.2 ≠ None ∨ only_flag (name_type it.1) = true) ∨
  (it.2 = None ∧ only_flag (name_type it.1) = false)).
{ destruct it.2, (only_flag _); auto. }
destruct Hkind as [Hkind|[Hnone Honly]].
- assert (He : rd m (p + len (item_chars it)) = Ok (hd LF (eol cr)) ∧ item_end (hd LF (eol cr))).
  { destruct cr; (split; [apply Hrd|unfold item_end; cbn; auto]). }
  eapply (ends_next p (p + len (item_chars it)) _ d); [done|done|pose proof (len_nonneg (item_chars it)); lia| |].
  + rewrite Hds. apply vm_param_closed; try done; [apply He|apply He|by right].
  + assert (Hnext : ∀ q, port_next (hd LF (eol cr)) q sv n p (item_body p it vb) =
      VVars (break_state (hd LF (eol cr))) L_PARAM n p (item_body p it vb)) by by destruct cr.
    rewrite Hnext. by eapply break_end.
- destruct (vm_param_open p it sv n vb Hit Hat Hlen Hlt cr c Hrd Hnul Hsp Hnone Honly)
    as (y & Hy & <- & <-).
  eapply ends_done; [exact Hd|exact Hdn|by rewrite Hds].
Qed.

(** A parameter before another one. *)
Lemma param_middle p it rest sv n vb q sv' vb' :
item_ok it → first_ok it → 0 ≤ p → bytes_at m p (item_chars it ++ ch ";" :: rest) →
len (item_chars it) < 2 ^ 31 → p + len (item_chars it) < pend →
ends_at (p + len (item_chars it) + 1)
  (VVars F_PARAM sv n (p + len (item_chars it) + 1) (item_body p it vb)) q sv' vb' →
ends_at p (VVars F_PARAM sv n p vb) q sv' vb'.
Proof.
intros Hit Hf Hp Hat Hlen Hend H.
destruct (item_first p it _ (VVars F_PARAM sv n p vb) Hit Hf Hat eq_refl) as (d & Hd & Hdn & Hds).
apply bytes_at_app in Hat as [Hat [Hsemi _]]. fold (len (item_chars it)) in Hsemi.
eapply (ends_next p (p + len (item_chars it)) _ d); [done|done|pose proof (len_nonneg (item_chars it)); lia| |].
- rewrite Hds. apply vm_param_closed; try done; by left.
- exact H.
Qed.

(** All the parameters, up to the end of the line. *)
Lemma via_params_run cr c its p it sv n vb :
Forall (λ it, item_ok it ∧ first_ok it) (it :: its) → 0 ≤ p →
bytes_at m p (item_chars it ++ params_chars its ++ eol cr ++ [c]) →
(c =? NUL) = false → is_sp c = false →
len (item_chars it) + len (params_chars its) < 2 ^ 31 →
p + len (item_chars it) + len (params_chars its) + len (eol cr) ≤ pend →
ends_at p (VVars F_PARAM sv n p vb)
  (p + len (item_chars it) + len (params_chars its) + len (eol cr)) L_PARAM
  (items_body (p + len (item_chars it)) its (item_body p it vb)).
Proof.
revert p it sv vb. induction its as [|it' its IH]; intros p it sv vb Hits Hp Hat Hnul Hsp Hlen Hend;
  apply Forall_cons in Hits as [[Hit Hf] Hits].
- cbn [params_chars app] in Hat, Hlen, Hend |- *. rewrite len_nil, Z.add_0_r in Hlen, Hend |- *.
  by apply (param_last cr c).
- assert (Hat' : bytes_at m p (item_chars it ++ ch ";" :: (item_chars it' ++ params_chars its ++ eol cr ++ [c]))).
  { cbn [params_chars app] in Hat. by rewrite <- app_assoc in Hat. }
  clear Hat. cbn [params_chars] in Hlen, Hend |- *. rewrite len_cons, len_app in Hlen, Hend |- *.
  pose proof (len_nonneg (item_chars it)). pose proof (len_nonneg (item_chars it')).
  pose proof (len_nonneg (params_chars its)). pose proof (len_nonneg (eol cr)).
  eapply param_middle; [exact Hit|exact Hf|exact Hp|exact Hat'|lia|lia|].
  apply bytes_at_after in Hat'. rewrite items_body_cons.
  replace (p + len (item_chars it) + (1 + (len (item_chars it') + len (params_chars its))) + len (eol cr))
    with (p + len (item_chars it) + 1 + len (item_chars it') + len (params_chars its) + len (eol cr)) by lia.
  apply IH; [exact Hits|lia|exact Hat'|exact Hnul|exact Hsp|lia|lia].
Qed.

(** *** The whole of [main_via] *)
Definition port_put (p : Z) (port : option (list Z)) (vb : via_body) : via_body :=
match port with None => vb | Some ds => port_body (p + 1) ds vb end.

(** The body after the host at [p], the port and the parameters. *)
Definition main_body (p : Z) (t : via_text) (vb : via_body) : via_body :=
let q := p + len (host_chars (vt_host t)) in
let r := q + len (port_chars (vt_port t)) in
items_body r (vt_params t) (port_put q (vt_port t) (host_body p (vt_host t) vb)).

Definition end_state (t : via_text) : vstate :=
match vt_params t, vt_port t with [], None => L_PORT | _, _ => L_PARAM end.

Lemma eol_end cr : host_end (hd LF (eol cr)) ∧ item_end (hd LF (eol cr)).
Proof. unfold host_end, item_end. destruct cr; cbn; auto. Qed.

Lemma eol_cons cr (l : list Z) : eol cr ++ l = hd LF (eol cr) :: tl (eol cr) ++ l.
Proof. by destruct cr. Qed.

(** The parameters, from the [';'] that [host_next] and [port_next] have seen,
  or the end of the line. *)
Lemma tail_run cr c its p e x sv0 sv n ps vb :
Forall (λ it, item_ok it ∧ first_ok it) its → 0 ≤ p →
bytes_at m p (params_chars its ++ eol cr ++ [c]) → (c =? NUL) = false → is_sp c = false →
len (params_chars its) < 2 ^ 31 → p + len (params_chars its) + len (eol cr) ≤ pend →
e = hd LF (params_chars its ++ eol cr) →
x = (if e =? ch ";" then VVars F_PARAM sv0 n (p + 1) vb else VVars (break_state e) sv n ps vb) →
ends_at (p + 1) x (p + len (params_chars its) + len (eol cr))
  (match its with [] => sv | _ => L_PARAM end) (items_body p its vb).
Proof.
intros Hits Hp Hat Hnul Hsp Hlen Hend He Hx. destruct its as [|it its].
- cbn [params_chars app] in *. rewrite len_nil, Z.add_0_r in *.
  replace x with (VVars (break_state (hd LF (eol cr))) sv n ps vb) by (subst; by destruct cr).
  by eapply break_end.
- cbn [params_chars app hd] in *. subst e x. cbn [Z.eqb].
  change (ch ";" =? ch ";") with true. cbv iota. rewrite items_body_cons.
  destruct Hat as [_ Hat]. rewrite <- app_assoc in Hat. rewrite len_cons, len_app in *.
  pose proof (via_params_run cr c its (p + 1) it sv0 n vb Hits ltac:(lia) Hat Hnul Hsp ltac:(lia) ltac:(lia)) as H.
  replace (p + (1 + (len (item_chars it) + len (params_chars its))) + len (eol cr))
    with (p + 1 + len (item_chars it) + len (params_chars its) + len (eol cr)) by lia.
  exact H.
Qed.

Lemma tail_head cr its : item_end (hd LF (params_chars its ++ eol cr)).
Proof. destruct its; [apply eol_end|by left]. Qed.

Lemma tail_cons cr its k : params_chars its ++ eol cr ++ k =
hd LF (params_chars its ++ eol cr) :: tl (params_chars its ++ eol cr) ++ k.
Proof. destruct its; cbn; [apply eol_cons|by rewrite <- !app_assoc]. Qed.

Section tail.
Context (cr : bool) (c : Z) (its : list (list Z * option (list Z))).
Hypothesis Hits : Forall (λ it, item_ok it ∧ first_ok it) its.
Hypothesis Hnul : (c =? NUL) = false.
Hypothesis Hsp : is_sp c = false.
Hypothesis Hlen : len (params_chars its) < 2 ^ 31.

Let e := hd LF (params_chars its ++ eol cr).
Let size := len (params_chars its) + len (eol cr).

(** From the port on, that begins at [p]. *)
Lemma port_tail p ds sv n ps vb :
digits ds → ds ≠ [] → 0 ≤ p → bytes_at m p (ds ++ params_chars its ++ eol cr ++ [c]) →
p + len ds + size ≤ pend →
ends_at p (VVars F_PORT sv n ps vb) (p + len ds + size) L_PARAM
(items_body (p + len ds) its (port_body p ds vb)).
Proof.
intros Hds Hne Hp Hat Hend. rewrite tail_cons in Hat. fold e in Hat.
apply (via_port_run p ds sv n ps vb e); [done|done|by eapply bytes_at_upto|apply tail_head|].
apply bytes_at_from in Hat. pose proof (len_nonneg ds).
pose proof (tail_run cr c its (p + len ds) e (port_next e (p + len ds) sv n ps (port_body p ds vb))
sv L_PARAM n ps (port_body p ds vb) Hits ltac:(lia)) as H'.
rewrite tail_cons in H'. fold e in H'. specialize (H' Hat Hnul Hsp Hlen).
unfold size in *. rewrite Z.add_assoc in *. specialize (H' Hend eq_refl eq_refl). by destruct its.
Qed.

(** From the host on. *)
Lemma host_tail p h port sv n ps vb :
host_ok h → match port with None => True | Some ds => digits ds ∧ ds ≠ [] end → 0 ≤ p →
bytes_at m p (host_chars h ++ port_chars port ++ params_chars its ++ eol cr ++ [c]) →
p + len (host_chars h) + len (port_chars port) + size ≤ pend →
ends_at p (VVars F_HOST sv n ps vb) (p + len (host_chars h) + len (port_chars port) + size)
match its, port with [], None => L_PORT | _, _ => L_PARAM end
(items_body (p + len (host_chars h) + len (port_chars port)) its
  (port_put (p + len (host_chars h)) port (host_body p h vb))).
Proof.
intros Hh Hport Hp Hat Hend. pose proof (len_nonneg (host_chars h)).
destruct port as [ds|]; cbn [port_chars port_put app] in *.
- destruct Hport as [Hds Hne]. rewrite len_cons in *.
apply (via_host_run p h sv n ps vb (ch ":")); [done|by eapply bytes_at_upto|by left|].
apply bytes_at_after in Hat.
pose proof (port_tail (p + len (host_chars h) + 1) ds sv n ps (host_body p h vb) Hds Hne
  ltac:(lia) Hat ltac:(lia)) as H'.
replace (p + len (host_chars h) + (1 + len ds)) with (p + len (host_chars h) + 1 + len ds) by lia.
destruct its; exact H'.
- rewrite len_nil, Z.add_0_r in *. rewrite tail_cons in Hat. fold e in Hat.
assert (He : item_end e) by apply tail_head.
apply (via_host_run p h sv n ps vb e); [done|by eapply bytes_at_upto|by right|].
apply bytes_at_from in Hat.
pose proof (tail_run cr c its (p + len (host_chars h)) e
  (host_next e (p + len (host_chars h)) sv n ps (host_body p h vb))
  sv L_PORT n ps (host_body p h vb) Hits ltac:(lia)) as H'.
rewrite tail_cons in H'. fold e in H'. specialize (H' Hat Hnul Hsp Hlen).
unfold size in *. rewrite Z.add_assoc in *. specialize (H' Hend eq_refl).
apply H'. unfold host_next. by destruct He as [-> |[-> | ->]].
Qed.
End tail.
End main.
