(* ===== verification/ViaGrammar.v ===== *)
(** * Via headers: every well-formed body is parsed into its parts

    The contents of [struct via_body] for each text of the grammar, the theorem
    that [parse_via] computes them, and what it does with some headers outside
    of the grammar. *)

From stdpp Require Import strings.
From S2P Require Import ParserF Trie ViaParam Via ViaParamRun ViaMain.

(** ** What the body says *)

(** The parameters, the first [';'] being at [p]. *)
Fixpoint items_list (p : Z) (l : list (list Z * option (list Z))) : list via_param :=
  match l with
  | [] => []
  | it :: l => param_of (p + 1) it :: items_list (p + 1 + len (item_chars it)) l
  end.

(** The type of the parameter that each shortcut points to. *)
Definition shortcut_type (sc : shortcut) : vstate :=
  match sc with
  | S_branch => FIN_BRANCH
  | S_received => FIN_RECEIVED
  | S_rport => FIN_RPORT
  | S_i => FIN_I
  | S_alias => FIN_ALIAS
  | S_maddr => FIN_MADDR
  end.

(** The position of the last parameter of a type. *)
Fixpoint last_of (t : vstate) (l : list (list Z * option (list Z))) : option nat :=
  match l with
  | [] => None
  | it :: l =>
      match last_of t l with
      | Some i => Some (S i)
      | None => if decide (name_type it.1 = t) then Some O else None
      end
  end.

Lemma add_param_params vp vb : vb_params (add_param vp vb) = vb_params vb ++ [vp].
Proof. unfold add_param. by destruct (vp_type vp). Qed.

Lemma add_param_rest vp vb :
  vb_error (add_param vp vb) = vb_error vb ∧ vb_proto (add_param vp vb) = vb_proto vb ∧
  vb_port (add_param vp vb) = vb_port vb ∧ (∀ f, vb_str (add_param vp vb) f = vb_str vb f).
Proof. unfold add_param. by destruct (vp_type vp). Qed.

Lemma add_param_shortcut vp vb sc :
  vb_shortcut (add_param vp vb) sc =
  if decide (vp_type vp = shortcut_type sc) then Some (length (vb_params vb)) else vb_shortcut vb sc.
Proof. unfold add_param. by destruct (vp_type vp), sc. Qed.

Lemma item_body_str p it vb f : f ≠ V_params → vb_str (item_body p it vb) f = vb_str vb f.
Proof.
  intros Hf. unfold item_body. destruct (add_param_rest (param_of p it) (set_vstr V_params
    (slice (str_s (vb_str (if str_s (vb_str vb V_params) =? 0
      then set_vstr V_params (Str p (str_len (vb_str vb V_params))) vb else vb) V_params))
      (p + len (item_chars it))) (if str_s (vb_str vb V_params) =? 0
      then set_vstr V_params (Str p (str_len (vb_str vb V_params))) vb else vb))) as (_ & _ & _ & ->).
  cbn. rewrite decide_False by done. destruct (_ =? 0); [|done]. cbn. by rewrite decide_False.
Qed.

Lemma item_body_params p it vb : vb_params (item_body p it vb) = vb_params vb ++ [param_of p it].
Proof. unfold item_body. rewrite add_param_params. cbn. by destruct (_ =? 0). Qed.

Lemma item_body_nums p it vb : vb_proto (item_body p it vb) = vb_proto vb ∧
  vb_port (item_body p it vb) = vb_port vb.
Proof.
  unfold item_body. cbv zeta. destruct (_ =? 0);
    (match goal with |- context [add_param ?a ?b] => destruct (add_param_rest a b) as (_ & -> & -> & _) end; done).
Qed.

Lemma item_body_shortcut p it vb sc : vb_shortcut (item_body p it vb) sc =
  if decide (name_type it.1 = shortcut_type sc) then Some (length (vb_params vb)) else vb_shortcut vb sc.
Proof. unfold item_body. rewrite add_param_shortcut. cbn. by destruct (_ =? 0). Qed.

Lemma item_body_text p it vb : 0 < p →
  vb_str (item_body p it vb) V_params =
  slice (if str_s (vb_str vb V_params) =? 0 then p else str_s (vb_str vb V_params)) (p + len (item_chars it)).
Proof.
  intros Hp. unfold item_body. cbv zeta.
  match goal with |- context [add_param ?a ?b] => destruct (add_param_rest a b) as (_ & _ & _ & ->) end.
  cbn. by destruct (_ =? 0).
Qed.

Section items.
Context (l : list (list Z * option (list Z))).

Lemma items_body_str p vb f : f ≠ V_params → vb_str (items_body p l vb) f = vb_str vb f.
Proof.
intros Hf. revert p vb. induction l as [|it l' IH]; intros p vb; [done|].
rewrite items_body_cons, IH. by apply item_body_str.
Qed.

Lemma items_body_params p vb : vb_params (items_body p l vb) = vb_params vb ++ items_list p l.
Proof.
revert p vb. induction l as [|it l' IH]; intros p vb; [by rewrite app_nil_r|].
rewrite items_body_cons, IH, item_body_params, <- app_assoc. done.
Qed.

Lemma items_body_nums p vb : vb_proto (items_body p l vb) = vb_proto vb ∧
vb_port (items_body p l vb) = vb_port vb.
Proof.
revert p vb. induction l as [|it l' IH]; intros p vb; [done|].
rewrite items_body_cons. destruct (IH (p + 1 + len (item_chars it)) (item_body (p + 1) it vb)) as [-> ->].
apply item_body_nums.
Qed.

Lemma items_body_shortcut p vb sc : vb_shortcut (items_body p l vb) sc =
match last_of (shortcut_type sc) l with
| Some i => Some (length (vb_params vb) + i)%nat
| None => vb_shortcut vb sc
end.
Proof.
revert p vb. induction l as [|it l' IH]; intros p vb; [done|].
rewrite items_body_cons, IH, item_body_params, item_body_shortcut, length_app. cbn [last_of length].
destruct (last_of _ l') as [i|]; [f_equal; lia|].
destruct (decide _); [f_equal; lia|done].
Qed.

Lemma items_body_text p vb : 0 < p → l ≠ [] →
vb_str (items_body p l vb) V_params =
slice (if str_s (vb_str vb V_params) =? 0 then p + 1 else str_s (vb_str vb V_params)) (p + len (params_chars l)).
Proof.
revert p vb. induction l as [|it l' IH]; intros p vb Hp Hne; [done|].
rewrite items_body_cons. cbn [params_chars]. rewrite len_cons, len_app.
pose proof (len_nonneg (item_chars it)). destruct l' as [|it' l''].
- cbn [items_body params_chars]. rewrite item_body_text, len_nil by lia. f_equal. lia.
- rewrite IH by (done || lia). rewrite item_body_text by lia. unfold slice at 1 2. cbn [str_s].
  assert (E : ((if str_s (vb_str vb V_params) =? 0 then p + 1 else str_s (vb_str vb V_params)) =? 0) = false).
  { destruct (Z.eqb_spec (str_s (vb_str vb V_params)) 0); apply Z.eqb_neq; [lia|done]. }
  rewrite E. unfold slice. cbn [str_s]. f_equal. f_equal. lia.
Qed.
End items.

(** The body of the text [t], stored at [s] and followed by an end of line of
    [k] characters. *)
Record via_parsed (s k : Z) (t : via_text) (vb : via_body) : Prop := {
  vp_ok : vb_error vb = PARSE_OK;
  vp_bsize : vb_bsize vb = len (via_chars t) + k;
  vp_protocol : vb_str vb V_name = Str s 3 ∧ vb_str vb V_version = Str (s + 4) 3 ∧
    vb_str vb V_transport = Str (s + 8) (len (vt_transport t)) ∧ vb_proto vb = via_proto (vt_transport t);
  vp_host : vb_str vb V_host = Str (s + len (start_chars t)) (len (host_chars (vt_host t)));
  vp_port : match vt_port t with
    | None => vb_str vb V_port_str = null_str ∧ vb_port vb = 0
    | Some ds =>
        vb_str vb V_port_str = Str (s + len (start_chars t) + len (host_chars (vt_host t)) + 1) (len ds) ∧
        vb_port vb = to_ushort (decimal ds)
    end;
  vp_params : let p := s + len (via_chars t) - len (params_chars (vt_params t)) in
    vb_params vb = items_list p (vt_params t) ∧
    vb_str vb V_params = match vt_params t with
      | [] => null_str
      | _ => Str (p + 1) (len (params_chars (vt_params t)) - 1)
      end;
  vp_shortcuts : ∀ sc, vb_shortcut vb sc = last_of (shortcut_type sc) (vt_params t);
  vp_comment : vb_str vb V_comment = null_str;
}.

Lemma start_len t : text_ok t → len (start_chars t) = 9 + len (vt_transport t).
Proof.
  intros [H _ _ _ _]. unfold start_chars. apply (f_equal length) in H. rewrite length_lower in H.
  unfold len in *. rewrite !length_app, H. cbn. lia.
Qed.

Lemma via_len t : len (via_chars t) =
  len (start_chars t) + len (host_chars (vt_host t)) + len (port_chars (vt_port t)) + len (params_chars (vt_params t)).
Proof. unfold via_chars. rewrite !len_app. lia. Qed.

(** The body before the port is read. *)
Definition text_body (s : Z) (t : via_text) : via_body :=
  main_body (s + len (start_chars t)) t (v_body (start_vars_at s (vt_transport t))).

(** A member other than the one that is set. *)
Ltac other_field := cbn; repeat case_decide; congruence || done.

Lemma port_put_str q port vb f : f ≠ V_port_str → vb_str (port_put q port vb) f = vb_str vb f.
Proof. intros Hf. destruct port; [|done]. other_field. Qed.

Lemma text_body_str s t f : f ≠ V_params → f ≠ V_port_str → f ≠ V_host →
  vb_str (text_body s t) f = vb_str (v_body (start_vars_at s (vt_transport t))) f.
Proof.
  intros H1 H2 H3. unfold text_body, main_body. rewrite items_body_str, port_put_str by done.
  unfold host_body. other_field.
Qed.

Lemma text_body_host s t : len (host_chars (vt_host t)) < 2 ^ 31 →
  vb_str (text_body s t) V_host = Str (s + len (start_chars t)) (len (host_chars (vt_host t))).
Proof.
  intros H. unfold text_body, main_body. rewrite items_body_str, port_put_str by done.
  unfold host_body. cbn. by apply slice_len.
Qed.

Lemma text_body_port s t :
  match vt_port t with
  | None => vb_str (text_body s t) V_port_str = null_str
  | Some ds => len ds < 2 ^ 31 → vb_str (text_body s t) V_port_str =
      Str (s + len (start_chars t) + len (host_chars (vt_host t)) + 1) (len ds)
  end.
Proof.
  unfold text_body, main_body. rewrite items_body_str by done. destruct (vt_port t) as [ds|]; [|done].
  intros H. cbn. by apply slice_len.
Qed.

Lemma text_body_params s t : 0 < s → len (via_chars t) < 2 ^ 31 →
  let p := s + len (via_chars t) - len (params_chars (vt_params t)) in
  vb_params (text_body s t) = items_list p (vt_params t) ∧
  vb_str (text_body s t) V_params = match vt_params t with
    | [] => null_str
    | _ => Str (p + 1) (len (params_chars (vt_params t)) - 1)
    end.
Proof.
  intros Hs Hlen p. unfold text_body, main_body.
  replace (s + len (start_chars t) + len (host_chars (vt_host t)) + len (port_chars (vt_port t))) with p
    by (subst p; rewrite via_len; lia).
  set (vb := port_put _ _ _). assert (Hvb : vb_params vb = [] ∧ vb_str vb V_params = null_str).
  { subst vb. rewrite port_put_str by done. by destruct (vt_port t). }
  destruct Hvb as [Hvb1 Hvb2]. rewrite items_body_params, Hvb1. split; [done|].
  assert (Hp : 0 < p).
  { subst p. rewrite via_len. pose proof (len_nonneg (start_chars t)).
    pose proof (len_nonneg (host_chars (vt_host t))). pose proof (len_nonneg (port_chars (vt_port t))). lia. }
  rewrite via_len in Hlen. pose proof (len_nonneg (start_chars t)).
  pose proof (len_nonneg (host_chars (vt_host t))). pose proof (len_nonneg (port_chars (vt_port t))).
  destruct (vt_params t) as [|it its] eqn:E; [done|]. rewrite items_body_text by done. rewrite Hvb2. cbn [str_s null_str Z.eqb].
  assert (0 < len (params_chars (it :: its))) by (cbn [params_chars]; rewrite len_cons; pose proof (len_nonneg (item_chars it ++ params_chars its)); lia).
  unfold slice. rewrite to_int_small by lia. f_equal. lia.
Qed.

Lemma text_body_nums s t : vb_proto (text_body s t) = via_proto (vt_transport t) ∧
  vb_port (text_body s t) = 0 ∧ ∀ sc, vb_shortcut (text_body s t) sc = last_of (shortcut_type sc) (vt_params t).
Proof.
  unfold text_body, main_body.
  destruct (items_body_nums (vt_params t) (s + len (start_chars t) + len (host_chars (vt_host t))
    + len (port_chars (vt_port t))) (port_put (s + len (start_chars t) + len (host_chars (vt_host t))) (vt_port t)
    (host_body (s + len (start_chars t)) (vt_host t) (v_body (start_vars_at s (vt_transport t)))))) as [-> ->].
  destruct (vt_port t); split_and!; try done; intros sc; rewrite items_body_shortcut; cbn; by destruct (last_of _ _).
Qed.

Section accept.
Context (malloc : nat → bool) (m : mem) (s pend : Z) (t : via_text) (cr : bool) (c : Z).
Hypothesis Hmalloc : ∀ n, malloc n = true.
Hypothesis Ht : text_ok t.
Hypothesis Hs : 0 < s.
Hypothesis Hat : bytes_at m s (via_chars t ++ eol cr ++ [c]).
Hypothesis Hend : s + len (via_chars t ++ eol cr) ≤ pend.
Hypothesis Hlen : len (via_chars t ++ eol cr) < 2 ^ 31.

Lemma via_accept_text : ∃ vb,
via_accept m s (s + len (via_chars t ++ eol cr)) (text_body s t) = Ok (true, vb) ∧
via_parsed s (len (eol cr)) t vb.
Proof.
pose proof (len_nonneg (eol cr)). pose proof (len_nonneg (host_chars (vt_host t))).
pose proof (len_nonneg (start_chars t)). pose proof (len_nonneg (params_chars (vt_params t))).
pose proof (via_len t) as Hvl. rewrite len_app in Hlen. pose proof (len_nonneg (port_chars (vt_port t))).
pose proof (text_body_port s t) as Hport. pose proof (text_body_host s t ltac:(lia)) as Hhost.
pose proof (text_body_params s t Hs ltac:(lia)) as Hparams.
destruct (text_body_nums s t) as (Hproto & Hnum & Hsc).
assert (Hstr : ∀ f, f ≠ V_params → f ≠ V_port_str → f ≠ V_host →
  vb_str (text_body s t) f = vb_str (v_body (start_vars_at s (vt_transport t))) f) by by apply text_body_str.
assert (Htr : len (vt_transport t) < 2 ^ 31) by (pose proof (start_len t Ht); lia).
assert (Hslice : slice (s + 8) (s + 8 + len (vt_transport t)) = Str (s + 8) (len (vt_transport t)))
  by by apply slice_len.
assert (E3 : slice s (s + 3) = Str s 3) by (unfold slice; rewrite to_int_small by lia; f_equal; lia).
assert (E7 : slice (s + 4) (s + 7) = Str (s + 4) 3) by (unfold slice; rewrite to_int_small by lia; f_equal; lia).
assert (Hpre : ∀ n, (∀ ds, vt_port t = Some ds → n = to_ushort (decimal ds)) → (vt_port t = None → n = 0) →
  via_parsed s (len (eol cr)) t
    (set_port n (set_bsize (to_uint (s + len (via_chars t ++ eol cr) - s)) (set_error PARSE_OK (text_body s t))))).
{ intros n Hn Hz. split; cbn [vb_error vb_bsize vb_str vb_proto vb_port vb_params vb_shortcut set_port set_bsize set_error];
    try done.
  - rewrite len_app, to_uint_small; lia.
  - rewrite !Hstr by done. rewrite Hproto. rewrite <- E3, <- E7, <- Hslice. done.
  - destruct (vt_port t) as [ds|]; [|by rewrite Hport, Hz]. cbn [port_chars] in *. rewrite len_cons in *.
    rewrite Hport by lia. by rewrite (Hn ds).
  - by rewrite Hstr. }
unfold via_accept. cbv zeta. cbn [vb_str set_bsize set_error].
destruct (vt_port t) as [ds|] eqn:Ep.
- cbn [port_chars] in *. rewrite len_cons in *. rewrite Hport by lia. cbn [str_s str_len].
  destruct (Z.eqb_spec (s + len (start_chars t) + len (host_chars (vt_host t)) + 1) 0); [lia|].
  pose proof (to_port t Ht) as Hds. rewrite Ep in Hds. destruct Hds as [Hds Hd5].
  assert (E : str2s m (s + len (start_chars t) + len (host_chars (vt_host t)) + 1) (len ds) =
    Ok (to_ushort (decimal ds), 0)).
  { rewrite <- (str2s_digits ds Hds ltac:(lia)). apply str2s_at.
    - unfold via_chars in Hat. rewrite Ep in Hat. cbn [port_chars] in Hat. rewrite <- !app_assoc in Hat.
      by apply bytes_at_from, bytes_at_after, bytes_at_first in Hat.
    - eapply Forall_impl; [exact Hds|]. cbn. intros. lia.
    - unfold len in *. lia. }
  rewrite E. cbn [mbind res_bind]. eexists. split; [done|]. apply Hpre; [by intros ? [= <-]|done].
- rewrite Hport. cbn [str_s null_str Z.eqb]. eexists. split; [done|].
  specialize (Hpre 0 ltac:(done) ltac:(done)).
  replace (set_bsize _ _) with (set_port 0 (set_bsize (to_uint (s + len (via_chars t ++ eol cr) - s))
    (set_error PARSE_OK (text_body s t)))); [done|]. unfold set_port, set_bsize, set_error. cbn. by rewrite Hnum.
Qed.
End accept.

Lemma parse_via_at malloc m pend s t cr c :
  (∀ n, malloc n = true) → text_ok t → 0 < s → bytes_at m s (via_chars t ++ eol cr ++ [c]) →
  (c =? NUL) = false → is_sp c = false →
  s + len (via_chars t ++ eol cr) ≤ pend → len (via_chars t ++ eol cr) < 2 ^ 31 →
  ∃ vb, parse_via malloc m pend s via_zero = Ok (s + len (via_chars t ++ eol cr), [vb]) ∧
    via_parsed s (len (eol cr)) t vb.
Proof.
  intros Hmalloc Ht Hs Hat Hnul Hsp Hend Hlen.
  destruct (via_accept_text m s t cr c Ht Hs Hat Hlen) as (vb & Hvb & Hparsed).
  exists vb. split; [|done]. pose proof (start_len t Ht) as Hstart.
  pose proof (len_nonneg (eol cr)). pose proof (len_nonneg (host_chars (vt_host t))).
  pose proof (len_nonneg (vt_transport t)). pose proof (len_nonneg (params_chars (vt_params t))).
  pose proof (len_nonneg (port_chars (vt_port t))). pose proof (via_len t) as Hvl.
  assert (Hq : s + len (via_chars t ++ eol cr) = s + len (start_chars t) + len (host_chars (vt_host t))
    + len (port_chars (vt_port t)) + (len (params_chars (vt_params t)) + len (eol cr))) by (rewrite len_app; lia).
  assert (Hmain : ends_at malloc m pend (s + len (start_chars t))
    (VVars F_HOST F_HOST 0 0 (v_body (start_vars_at s (vt_transport t)))) (s + len (via_chars t ++ eol cr))
    match vt_params t, vt_port t with [], None => L_PORT | _, _ => L_PARAM end (text_body s t)).
  { rewrite Hq. destruct Ht as [_ _ Hhost Hport Hits].
    apply (host_tail malloc m pend Hmalloc cr c); try done.
    - rewrite len_app in Hlen. lia.
    - destruct (vt_port t) as [ds|]; [|done]. destruct Hport as [Hds Hdl]. split; [done|by destruct ds; [cbn in Hdl; lia|]].
    - lia.
    - unfold via_chars in Hat. rewrite <- !app_assoc in Hat. by apply bytes_at_from in Hat.
    - lia. }
  destruct (Hmain 0%nat) as (n & x & Hl & Hsv & Hbody).
  unfold parse_via. apply loop_inr. unfold via_round.
  rewrite (start_run m s pend t); [|apply Ht|apply Ht|..].
  2: { unfold via_chars in Hat. rewrite <- app_assoc in Hat. by apply bytes_at_first in Hat. }
  2: { rewrite len_app in Hend. lia. }
  cbn [mbind res_bind]. replace (s + 8 + len (vt_transport t) + 1) with (s + len (start_chars t)) by lia.
  change (nest 0 (start_vars_at s (vt_transport t))) with
    (VVars F_HOST F_HOST 0 0 (v_body (start_vars_at s (vt_transport t)))).
  unfold vm_loop. rewrite Hl by (unfold vm_room; cbn [fst]; lia). cbn [mbind res_bind].
  rewrite Hsv, Hbody. replace (end_state_ok _) with true by by destruct (vt_params t), (vt_port t).
  by rewrite Hvb.
Qed.

(** ** Properties *)

(** C5: every Via header of the grammar that holds one body and ends with its
    line is accepted: the pointer returned is behind the end of the line, and
    there is one body, with the protocol name, version and transport, the host
    name or IPv6 reference, the port as a string and as its value, the
    parameters in order with their types, names and values, the string of all
    the parameters, and for each shortcut the last parameter of its type. *)
Theorem parse_via_text malloc m pend s t cr c :
  (∀ n, malloc n = true) → text_ok t → 0 < s → bytes_at m s (via_chars t ++ eol cr ++ [c]) →
  (c =? NUL) = false → is_sp c = false →
  s + len (via_chars t ++ eol cr) ≤ pend → len (via_chars t ++ eol cr) < 2 ^ 31 →
  ∃ vb, parse_via malloc m pend s via_zero = Ok (s + len (via_chars t ++ eol cr), [vb]) ∧
    via_parsed s (len (eol cr)) t vb.
Proof. apply parse_via_at. Qed.

(** Sip/2.0/wss [::1]:5061;branch=z9hG4bK;rport;x=1 *)
Definition via_example : via_text :=
  ViaText (chars "Sip") (chars "wss") (VReference (chars "::1")) (Some (chars "5061"))
    [(chars "branch", Some (chars "z9hG4bK")); (chars "x", Some (chars "1")); (chars "rport", None)].

Lemma via_example_ok : text_ok via_example.
Proof.
  split; [by vm_compute|..].
  - split; [by vm_compute|]. split; [|by vm_compute]. plain_ok.
  - split; [done|]. repeat constructor.
  - split; [|cbn; lia]. repeat constructor; by vm_compute.
  - repeat apply Forall_cons_2; [..|apply Forall_nil_2]; (split; [|by vm_compute]); split.
    + split; [done|plain_ok].
    + split; [done|]. split; [plain_ok|done].
    + split; [done|plain_ok].
    + split; [done|]. split; [plain_ok|done].
    + split; [done|plain_ok].
    + done.
Qed.

Lemma parse_via_text_witness :
  let l := via_chars via_example ++ eol true ++ [ch "T"] in
  ∃ vb, parse_via (λ _, true) (block l) (4096 + 49) 4096 via_zero = Ok (4096 + 49, [vb]) ∧
    via_parsed 4096 2 via_example vb.
Proof.
  apply (parse_via_text (λ _, true) (block (via_chars via_example ++ eol true ++ [ch "T"])) (4096 + 49) 4096
    via_example true (ch "T")).
  - done.
  - apply via_example_ok.
  - lia.
  - apply block_bytes.
  - done.
  - done.
  - by vm_compute.
  - by vm_compute.
Defined.

(** A part of the first body of a header at a fixed address, before another
    header, with the error code. *)
Definition via_on {A} (f : via_body → A) (l : list Z) : option (Z * A) :=
  match parse_via (λ _, true) (block (l ++ [CR; LF; ch "T"])) (4096 + len l + 2) 4096 via_zero with
  | Ok (_, vb :: _) => Some (vb_error vb, f vb)
  | _ => None
  end.

(** A header with nothing behind it in memory. *)
Definition via_alone (l : list Z) : res (Z * list via_body) :=
  parse_via (λ _, true) (block l) (4096 + len l) 4096 via_zero.

(** The search for the end of the header does not stop at the end of the
    message.  When the memory ends with the message, and the message with the
    header, the character behind the end is read, whether the line is complete
    or not. *)
Theorem parse_via_overrun :
  Forall (λ l, via_alone l = Fault (4096 + len l))
    [chars "SIP/2.0/UDP h"; chars "SIP/2.0/UDP h" ++ [CR; LF]; chars "SIP/2.0/UDP h;branch=z";
     chars "SIP/2.0/UDP h;branch=z" ++ [CR; LF]].
Proof. repeat apply Forall_cons_2; [..|apply Forall_nil_2]; by vm_compute. Qed.

(** The transport is not treated alike before a space and before a line
    break: before a line feed WSS becomes WS, and SCTP is rejected; neither the
    proper prefixes of the known transports nor the transports that begin with a
    letter of theirs (such as DTLS) are accepted, unlike other unknown
    transports. *)
Theorem parse_via_transports :
  via_on vb_proto (chars "SIP/2.0/WSS h") = Some (PARSE_OK, PROTO_WSS) ∧
  via_on vb_proto (chars "SIP/2.0/WSS" ++ [CR; LF] ++ chars " h") = Some (PARSE_OK, PROTO_WSS) ∧
  via_on vb_proto (chars "SIP/2.0/WSS" ++ [LF] ++ chars " h") = Some (PARSE_OK, PROTO_WS) ∧
  via_on vb_proto (chars "SIP/2.0/SCTP h") = Some (PARSE_OK, PROTO_SCTP) ∧
  Forall (λ l, via_on (λ _, tt) l = Some (PARSE_ERROR, tt))
    [chars "SIP/2.0/SCTP" ++ [LF] ++ chars " h"; chars "SIP/2.0/SCTP" ++ [CR; LF] ++ chars " h";
     chars "SIP/2.0/UD h"; chars "SIP/2.0/DTLS-UDP h"; chars "SIP/2.0/P h"] ∧
  Forall (λ s, via_on vb_proto (chars s) = Some (PARSE_OK, PROTO_OTHER))
    ["SIP/2.0/UDX h"; "SIP/2.0/X-UDP h"; "SIP/2.0/TLS-SCTP h"]%string.
Proof. split_and!; try (repeat apply Forall_cons_2; [..|apply Forall_nil_2]); by vm_compute. Qed.

(** A comment without parameters before it, and a host that begins with a
    colon, are accepted with a string that has a null pointer and the truncated
    address as its length; the port is kept modulo 2^16. *)
Theorem parse_via_stale_strings :
  via_on (λ vb, vb_str vb V_params) (chars "SIP/2.0/UDP h (c)") = Some (PARSE_OK, Str 0 4110) ∧
  via_on (λ vb, vb_str vb V_host) (chars "SIP/2.0/UDP :]") = Some (PARSE_OK, Str 0 4110) ∧
  via_on vb_port (chars "SIP/2.0/UDP h:65537") = Some (PARSE_OK, 1).
Proof. split_and!; by vm_compute. Qed.

(** A quoted value ends the header at its first comma: in
    [;a="b,c";x=y] the parameter [a] is accepted with an empty value, nothing
    after it is parsed, and the header is reported as complete.  A parameter
    without a value is rejected when a space follows it, unless it is [rport];
    without the space it is accepted. *)
Theorem parse_via_quoted_comma :
  let text := chars "SIP/2.0/UDP h;a=" ++ [DQUOTE] ++ chars "b,c" ++ [DQUOTE] ++ chars ";x=y" in
  via_on (λ vb, map vp_value (vb_params vb)) text = Some (PARSE_OK, [Str 4113 0]) ∧
  via_on (λ vb, vb_bsize vb) text = Some (PARSE_OK, 18) ∧
  via_on (λ vb, length (vb_params vb)) (chars "SIP/2.0/UDP h;a ;b") = Some (PARSE_ERROR, 0%nat) ∧
  via_on (λ vb, length (vb_params vb)) (chars "SIP/2.0/UDP h;a;b") = Some (PARSE_OK, 2%nat) ∧
  via_on (λ vb, length (vb_params vb)) (chars "SIP/2.0/UDP h;rport ;b") = Some (PARSE_OK, 2%nat).
Proof. split_and!; by vm_compute. Qed.
