(* ===== verification/HName.v ===== *)
(** * Names of header fields: parse_hname2.c, keys.h, the macros case_*.h, and
    the types of hf.h

    Every macro is one definition.  The code of a macro is a [code]: it takes
    [p], [val] and the header field, and ends with a [return] or a [goto]; a
    macro whose code may go on takes what follows it as an argument. *)

From S2P Require Export ParserF.

(** ** hf.h *)
Inductive hdr_types_t :=
| HDR_ERROR_T
| HDR_OTHER_T
| HDR_VIA_T
| HDR_VIA2_T
| HDR_TO_T
| HDR_FROM_T
| HDR_CSEQ_T
| HDR_CALLID_T
| HDR_CONTACT_T
| HDR_MAXFORWARDS_T
| HDR_ROUTE_T
| HDR_RECORDROUTE_T
| HDR_PATH_T
| HDR_CONTENTTYPE_T
| HDR_CONTENTLENGTH_T
| HDR_AUTHORIZATION_T
| HDR_EXPIRES_T
| HDR_PROXYAUTH_T
| HDR_SUPPORTED_T
| HDR_PROXYREQUIRE_T
| HDR_UNSUPPORTED_T
| HDR_ALLOW_T
| HDR_EVENT_T
| HDR_ACCEPT_T
| HDR_ACCEPTLANGUAGE_T
| HDR_ORGANIZATION_T
| HDR_PRIORITY_T
| HDR_SUBJECT_T
| HDR_USERAGENT_T
| HDR_ACCEPTDISPOSITION_T
| HDR_CONTENTDISPOSITION_T
| HDR_DIVERSION_T
| HDR_RPID_T
| HDR_REFER_TO_T
| HDR_SESSION_EXPIRES_T
| HDR_MIN_SE_T
| HDR_PPI_T
| HDR_PAI_T
| HDR_PRIVACY_T
| HDR_RETRY_AFTER_T
| HDR_CALL_INFO_T
| HDR_WWW_AUTHENTICATE_T
| HDR_PROXY_AUTHENTICATE_T
| HDR_MIN_EXPIRES_T
| HDR_FEATURE_CAPS_T
| HDR_REPLACES_T
| HDR_EOH_T.

#[export] Instance hdr_types_t_eq_dec : EqDecision hdr_types_t.
Proof. solve_decision. Defined.

(** The values of the enumeration; [HDR_VIA1_T] is [HDR_VIA_T]. *)
Definition hdr_num (t : hdr_types_t) : Z :=
  match t with
  | HDR_ERROR_T => -1
  | HDR_OTHER_T => 0
  | HDR_VIA_T => 1
  | HDR_VIA2_T => 2
  | HDR_TO_T => 3
  | HDR_FROM_T => 4
  | HDR_CSEQ_T => 5
  | HDR_CALLID_T => 6
  | HDR_CONTACT_T => 7
  | HDR_MAXFORWARDS_T => 8
  | HDR_ROUTE_T => 9
  | HDR_RECORDROUTE_T => 10
  | HDR_PATH_T => 11
  | HDR_CONTENTTYPE_T => 12
  | HDR_CONTENTLENGTH_T => 13
  | HDR_AUTHORIZATION_T => 14
  | HDR_EXPIRES_T => 15
  | HDR_PROXYAUTH_T => 16
  | HDR_SUPPORTED_T => 17
  | HDR_PROXYREQUIRE_T => 18
  | HDR_UNSUPPORTED_T => 19
  | HDR_ALLOW_T => 20
  | HDR_EVENT_T => 21
  | HDR_ACCEPT_T => 22
  | HDR_ACCEPTLANGUAGE_T => 23
  | HDR_ORGANIZATION_T => 24
  | HDR_PRIORITY_T => 25
  | HDR_SUBJECT_T => 26
  | HDR_USERAGENT_T => 27
  | HDR_ACCEPTDISPOSITION_T => 28
  | HDR_CONTENTDISPOSITION_T => 29
  | HDR_DIVERSION_T => 30
  | HDR_RPID_T => 31
  | HDR_REFER_TO_T => 32
  | HDR_SESSION_EXPIRES_T => 33
  | HDR_MIN_SE_T => 34
  | HDR_PPI_T => 35
  | HDR_PAI_T => 36
  | HDR_PRIVACY_T => 37
  | HDR_RETRY_AFTER_T => 38
  | HDR_CALL_INFO_T => 39
  | HDR_WWW_AUTHENTICATE_T => 40
  | HDR_PROXY_AUTHENTICATE_T => 41
  | HDR_MIN_EXPIRES_T => 42
  | HDR_FEATURE_CAPS_T => 43
  | HDR_REPLACES_T => 44
  | HDR_EOH_T => 45
  end.

(** [struct hdr_field], where [parsed] points to a [P] or is null, and the
    objects that [next] and [sibling] point to have numbers. *)
Record hdr_field (P : Type) := HdrField {
  hdr_type : hdr_types_t;
  hdr_name : str;
  hdr_body : str;
  hdr_len : Z;
  hdr_parsed : option P;
  hdr_next : option nat;
  hdr_sibling : option nat;
}.
Arguments HdrField {P}.
Arguments hdr_type {P}.
Arguments hdr_name {P}.
Arguments hdr_body {P}.
Arguments hdr_len {P}.
Arguments hdr_parsed {P}.
Arguments hdr_next {P}.
Arguments hdr_sibling {P}.

Definition set_type {P} (t : hdr_types_t) (h : hdr_field P) : hdr_field P :=
  HdrField t (hdr_name h) (hdr_body h) (hdr_len h) (hdr_parsed h) (hdr_next h) (hdr_sibling h).
Definition set_name {P} (n : str) (h : hdr_field P) : hdr_field P :=
  HdrField (hdr_type h) n (hdr_body h) (hdr_len h) (hdr_parsed h) (hdr_next h) (hdr_sibling h).
Definition set_name_len {P} (n : Z) (h : hdr_field P) : hdr_field P :=
  set_name (Str (str_s (hdr_name h)) n) h.

(** ** keys.h *)
Definition _even_ : Z := 0x6e657665.
Definition _acce_ : Z := 0x65636361.
Definition _allo_ : Z := 0x6f6c6c61.
Definition _auth_ : Z := 0x68747561.
Definition _oriz_ : Z := 0x7a69726f.
Definition _atio_ : Z := 0x6f697461.
Definition _call_ : Z := 0x6c6c6163.
Definition __id2_ : Z := 0x2064692d.
Definition __id1_ : Z := 0x3a64692d.
Definition __inf_ : Z := 0x666e692d.
Definition _cont_ : Z := 0x746e6f63.
Definition _act2_ : Z := 0x20746361.
Definition _act1_ : Z := 0x3a746361.
Definition _ent__ : Z := 0x2d746e65.
Definition _leng_ : Z := 0x676e656c.
Definition _th12_ : Z := 0x203a6874.
Definition _type_ : Z := 0x65707974.
Definition _cseq_ : Z := 0x71657363.
Definition _expi_ : Z := 0x69707865.
Definition _res2_ : Z := 0x20736572.
Definition _res1_ : Z := 0x3a736572.
Definition _from_ : Z := 0x6d6f7266.
Definition _max__ : Z := 0x2d78616d.
Definition _forw_ : Z := 0x77726f66.
Definition _ards_ : Z := 0x73647261.
Definition _prox_ : Z := 0x786f7270.
Definition _y_au_ : Z := 0x75612d79.
Definition _then_ : Z := 0x6e656874.
Definition _tica_ : Z := 0x61636974.
Definition _thor_ : Z := 0x726f6874.
Definition _izat_ : Z := 0x74617a69.
Definition _ion2_ : Z := 0x206e6f69.
Definition _ion1_ : Z := 0x3a6e6f69.
Definition _y_re_ : Z := 0x65722d79.
Definition _quir_ : Z := 0x72697571.
Definition _reco_ : Z := 0x6f636572.
Definition _rd_r_ : Z := 0x722d6472.
Definition _oute_ : Z := 0x6574756f.
Definition _rout_ : Z := 0x74756f72.
Definition _path_ : Z := 0x68746170.
Definition _supp_ : Z := 0x70707573.
Definition _orte_ : Z := 0x6574726f.
Definition _to12_ : Z := 0x203a6f74.
Definition _unsu_ : Z := 0x75736e75.
Definition _ppor_ : Z := 0x726f7070.
Definition _ted2_ : Z := 0x20646574.
Definition _ted1_ : Z := 0x3a646574.
Definition _via2_ : Z := 0x20616976.
Definition _via1_ : Z := 0x3a616976.
Definition _www__ : Z := 0x2d777777.
Definition _enti_ : Z := 0x69746e65.
Definition _cate_ : Z := 0x65746163.
Definition _pt_l_ : Z := 0x6c2d7470.
Definition _angu_ : Z := 0x75676e61.
Definition _age2_ : Z := 0x20656761.
Definition _age1_ : Z := 0x3a656761.
Definition _orga_ : Z := 0x6167726f.
Definition _niza_ : Z := 0x617a696e.
Definition _tion_ : Z := 0x6e6f6974.
Definition _prio_ : Z := 0x6f697270.
Definition _rity_ : Z := 0x79746972.
Definition _subj_ : Z := 0x6a627573.
Definition _ect2_ : Z := 0x20746365.
Definition _ect1_ : Z := 0x3a746365.
Definition _user_ : Z := 0x72657375.
Definition __age_ : Z := 0x6567612d.
Definition _disp_ : Z := 0x70736964.
Definition _osit_ : Z := 0x7469736f.
Definition _pt_d_ : Z := 0x64617470.
Definition _ispo_ : Z := 0x6f707369.
Definition _siti_ : Z := 0x69746973.
Definition _dive_ : Z := 0x65766964.
Definition _rsio_ : Z := 0x6f697372.
Definition _remo_ : Z := 0x6f6d6572.
Definition _te_p_ : Z := 0x702d6574.
Definition _arty_ : Z := 0x79747261.
Definition _refe_ : Z := 0x65666572.
Definition _r_to_ : Z := 0x6f742d72.
Definition _sess_ : Z := 0x73736573.
Definition _ion__ : Z := 0x2d6e6f69.
Definition _min__ : Z := 0x2d6e696d.
Definition _p_pr_ : Z := 0x72702d70.
Definition _efer_ : Z := 0x72656665.
Definition _red__ : Z := 0x2d646572.
Definition _iden_ : Z := 0x6e656469.
Definition _tity_ : Z := 0x79746974.
Definition _p_as_ : Z := 0x73612d70.
Definition _sert_ : Z := 0x74726573.
Definition _ed_i_ : Z := 0x692d6465.
Definition _dent_ : Z := 0x746e6564.
Definition _ity2_ : Z := 0x20797469.
Definition _ity1_ : Z := 0x3a797469.
Definition _priv_ : Z := 0x76697270.
Definition _acy2_ : Z := 0x20796361.
Definition _acy1_ : Z := 0x3a796361.
Definition _retr_ : Z := 0x72746572.
Definition _y_af_ : Z := 0x66612d79.
Definition _ter2_ : Z := 0x20726574.
Definition _ter1_ : Z := 0x3a726574.
Definition _feat_ : Z := 0x74616566.
Definition _ure__ : Z := 0x2d657275.
Definition _caps_ : Z := 0x73706163.
Definition _repl_ : Z := 0x6c706572.
Definition _aces_ : Z := 0x73656361.

(** ** parse_hname2.c *)
Definition LOWER_BYTE (b : Z) : Z := Z.lor b 0x20.
Definition LOWER_DWORD (d : Z) : Z := Z.lor d 0x20202020.

Definition skip_ws (m : mem) (p pend : Z) : res Z := scan (λ c, negb (is_sp c)) m p pend.

Definition READ (m : mem) (p : Z) : res Z :=
  c0 ← rd m p; c1 ← rd m (p + 1); c2 ← rd m (p + 2); c3 ← rd m (p + 3);
  mret (to_uint (c0 + Z.shiftl c1 8 + Z.shiftl c2 16 + Z.shiftl c3 24)).

(** How the code of the macros ends: a [return], or a [goto] with the values
    that [p] and the header field have. *)
Inductive exit (P : Type) :=
| Return (p : Z) (hdr : hdr_field P)
| Goto_dc_end (p : Z) (hdr : hdr_field P)
| Goto_dc_cont (p : Z) (hdr : hdr_field P)
| Goto_other (p : Z) (hdr : hdr_field P).
Arguments Return {P}.
Arguments Goto_dc_end {P}.
Arguments Goto_dc_cont {P}.
Arguments Goto_other {P}.

Section hname.
Context {P : Type} (m : mem).

(** What the code does, given [p], [val] and [*hdr]. *)
Definition code : Type := Z → Z → hdr_field P → res (exit P).

(** [return p + n], [goto dc_end], [goto dc_cont], [goto other]. *)
Definition return_p (n : Z) : code := λ p _ hdr, mret (Return (p + n) hdr).
Definition goto_dc_end : code := λ p _ hdr, mret (Goto_dc_end p hdr).
Definition goto_dc_cont : code := λ p _ hdr, mret (Goto_dc_cont p hdr).
Definition goto_other : code := λ p _ hdr, mret (Goto_other p hdr).

(** [p += n; c] *)
Definition p_plus (n : Z) (c : code) : code := λ p, c (p + n).

(** [val = READ(p); c] *)
Definition read_val (c : code) : code := λ p _ hdr, v ← READ m p; c p v hdr.

(** [hdr->type = t; hdr->name.len = n; c] *)
Definition set_hdr (t : hdr_types_t) (n : Z) (c : code) : code := λ p v hdr,
  c p v (set_name_len n (set_type t hdr)).

(** [if (LOWER_DWORD(val) == d) { c } k] *)
Definition if_dword (d : Z) (c k : code) : code := λ p v hdr,
  if LOWER_DWORD v =? d then c p v hdr else k p v hdr.

(** [switch(LOWER_DWORD(val)) { case d1: c1 case d2: c2 ... } k] *)
Definition switch_dword (cases : list (Z * code)) (k : code) : code :=
  foldr (λ '(d, c) k, if_dword d c k) k cases.

(** [if (LOWER_BYTE( *(p + i)) == b) { c } k] *)
Definition if_byte (i b : Z) (c k : code) : code := λ p v hdr,
  x ← rd m (p + i); if LOWER_BYTE x =? b then c p v hdr else k p v hdr.

Definition switch_byte (i : Z) (cases : list (Z * code)) (k : code) : code :=
  foldr (λ '(b, c) k, if_byte i b c k) k cases.

(** [if ( *(p + i) == b) { c } k] *)
Definition if_char (i b : Z) (c k : code) : code := λ p v hdr,
  x ← rd m (p + i); if x =? b then c p v hdr else k p v hdr.

Definition switch_char (i : Z) (cases : list (Z * code)) (k : code) : code :=
  foldr (λ '(b, c) k, if_char i b c k) k cases.

(** case_via.h *)
Definition via1_CASE : code := set_hdr HDR_VIA_T 3 (return_p 4).
Definition via2_CASE : code := set_hdr HDR_VIA_T 3 (p_plus 4 goto_dc_end).

(** case_from.h *)
Definition from_CASE : code := set_hdr HDR_FROM_T 4 (p_plus 4 goto_dc_cont).

(** case_to.h *)
Definition to12_CASE : code := set_hdr HDR_TO_T 2 (return_p 4).

(** case_cseq.h *)
Definition cseq_CASE : code := set_hdr HDR_CSEQ_T 4 (p_plus 4 goto_dc_cont).

(** case_call.h *)
Definition ID_INF_CASE : code → code :=
  switch_dword
    [(__id1_, set_hdr HDR_CALLID_T 7 (return_p 4));
     (__id2_, set_hdr HDR_CALLID_T 7 (p_plus 4 goto_dc_end));
     (__inf_, p_plus 4
        (if_byte 0 (ch "o") (set_hdr HDR_CALL_INFO_T 9 (p_plus 1 goto_dc_cont))
        goto_other))].
Definition call_CASE : code := p_plus 4 (read_val (ID_INF_CASE goto_other)).

(** case_cont.h *)
Definition TH_CASE (k : code) : code :=
  switch_dword [(_th12_, set_hdr HDR_CONTENTLENGTH_T 14 (return_p 4))]
  (if_byte 0 (ch "t")
    (p_plus 1 (if_byte 0 (ch "h") (set_hdr HDR_CONTENTLENGTH_T 14 (p_plus 1 goto_dc_cont)) k))
  k).
Definition ion_CASE : code → code :=
  switch_dword
    [(_ion1_, set_hdr HDR_CONTENTDISPOSITION_T 19 (return_p 4));
     (_ion2_, set_hdr HDR_CONTENTDISPOSITION_T 19 (p_plus 4 goto_dc_end))].
Definition DISPOSITION_CASE : code → code :=
  switch_dword [(_osit_, p_plus 4 (read_val (ion_CASE goto_other)))].
Definition CONTENT_CASE : code → code :=
  switch_dword
    [(_leng_, p_plus 4 (read_val (TH_CASE goto_other)));
     (_type_, set_hdr HDR_CONTENTTYPE_T 12 (p_plus 4 goto_dc_cont));
     (_disp_, p_plus 4 (read_val (DISPOSITION_CASE goto_other)))].
Definition ACT_ENT_CASE : code → code :=
  switch_dword
    [(_act1_, set_hdr HDR_CONTACT_T 7 (return_p 4));
     (_act2_, set_hdr HDR_CONTACT_T 7 (p_plus 4 goto_dc_end));
     (_ent__, p_plus 4 (read_val (CONTENT_CASE goto_other)))].
Definition cont_CASE : code := p_plus 4 (read_val (ACT_ENT_CASE goto_other)).

(** case_rout.h *)
Definition rout_CASE : code :=
  p_plus 4 (switch_byte 0 [(ch "e", set_hdr HDR_ROUTE_T 5 (p_plus 1 goto_dc_cont))] goto_other).

(** case_max.h *)
Definition ARDS_CASE : code → code :=
  if_dword _ards_ (set_hdr HDR_MAXFORWARDS_T 12 (p_plus 4 goto_dc_cont)).
Definition FORW_CASE : code → code :=
  switch_dword [(_forw_, p_plus 4 (read_val (ARDS_CASE goto_other)))].
Definition max_CASE : code := p_plus 4 (read_val (FORW_CASE goto_other)).

(** case_reco.h *)
Definition OUTE_CASE : code → code :=
  if_dword _oute_ (set_hdr HDR_RECORDROUTE_T 12 (p_plus 4 goto_dc_cont)).
Definition RD_R_CASE : code → code :=
  switch_dword [(_rd_r_, p_plus 4 (read_val (OUTE_CASE goto_other)))].
Definition reco_CASE : code := p_plus 4 (read_val (RD_R_CASE goto_other)).

(** case_path.h *)
Definition path_CASE : code := p_plus 4 (set_hdr HDR_PATH_T 4 goto_dc_cont).

(** case_auth.h *)
Definition AUTH_ATIO_CASE : code → code :=
  if_dword _atio_ (p_plus 4
    (switch_byte 0 [(ch "n", set_hdr HDR_AUTHORIZATION_T 13 (p_plus 1 goto_dc_cont))] goto_other)).
Definition AUTH_ORIZ_CASE : code → code :=
  if_dword _oriz_ (p_plus 4 (read_val (AUTH_ATIO_CASE goto_other))).
Definition auth_CASE : code := p_plus 4 (read_val (AUTH_ORIZ_CASE goto_other)).

(** case_expi.h *)
Definition EXPI_RES_CASE : code → code :=
  switch_dword
    [(_res1_, set_hdr HDR_EXPIRES_T 7 (return_p 4));
     (_res2_, set_hdr HDR_EXPIRES_T 7 (p_plus 4 goto_dc_cont))].
Definition expi_CASE : code := p_plus 4 (read_val (EXPI_RES_CASE goto_other)).

(** case_prox.h *)
Definition ION_CASE : code → code :=
  switch_dword
    [(_ion1_, set_hdr HDR_PROXYAUTH_T 19 (return_p 4));
     (_ion2_, set_hdr HDR_PROXYAUTH_T 19 (p_plus 4 goto_dc_cont))].
Definition IZAT_CASE : code → code :=
  switch_dword [(_izat_, p_plus 4 (read_val (ION_CASE goto_other)))].
Definition TE_CASE (k : code) : code :=
  if_byte 0 (ch "t")
    (if_byte 1 (ch "e") (set_hdr HDR_PROXY_AUTHENTICATE_T 18 (p_plus 2 goto_dc_cont)) k) k.
Definition TICA_CASE : code → code :=
  switch_dword [(_tica_, p_plus 4 (read_val (TE_CASE goto_other)))].
Definition TH2_CASE : code → code :=
  switch_dword
    [(_thor_, p_plus 4 (read_val (IZAT_CASE goto_other)));
     (_then_, p_plus 4 (read_val (TICA_CASE goto_other)))].
Definition QUIR_CASE : code → code :=
  switch_dword
    [(_quir_, p_plus 4
       (switch_byte 0 [(ch "e", set_hdr HDR_PROXYREQUIRE_T 13 (p_plus 1 goto_dc_cont))]
       goto_other))].
Definition PROX2_CASE : code → code :=
  switch_dword
    [(_y_au_, p_plus 4 (read_val (TH2_CASE goto_other)));
     (_y_re_, p_plus 4 (read_val (QUIR_CASE goto_other)))].
Definition prox_CASE : code := p_plus 4 (read_val (PROX2_CASE goto_other)).

(** case_allo.h *)
Definition allo_CASE : code :=
  p_plus 4 (if_byte 0 (ch "w") (set_hdr HDR_ALLOW_T 5 (p_plus 1 goto_dc_cont)) goto_other).

(** case_unsu.h *)
Definition TED_CASE : code → code :=
  switch_dword
    [(_ted1_, set_hdr HDR_UNSUPPORTED_T 11 (return_p 4));
     (_ted2_, set_hdr HDR_UNSUPPORTED_T 11 (p_plus 4 goto_dc_cont))].
Definition PPOR_CASE : code → code :=
  switch_dword [(_ppor_, p_plus 4 (read_val (TED_CASE goto_other)))].
Definition unsu_CASE : code := p_plus 4 (read_val (PPOR_CASE goto_other)).

(** case_even.h *)
Definition even_CASE : code :=
  p_plus 4 (if_byte 0 (ch "t") (set_hdr HDR_EVENT_T 5 (p_plus 1 goto_dc_cont)) goto_other).

(** case_acce.h *)
Definition age_CASE : code → code :=
  switch_dword
    [(_age1_, set_hdr HDR_ACCEPTLANGUAGE_T 15 (return_p 4));
     (_age2_, set_hdr HDR_ACCEPTLANGUAGE_T 15 (p_plus 4 goto_dc_cont))].
Definition angu_CASE : code → code :=
  switch_dword [(_angu_, p_plus 4 (read_val (age_CASE goto_other)))].
Definition on_CASE (k : code) : code :=
  if_byte 0 (ch "o")
    (p_plus 1 (if_byte 0 (ch "n") (set_hdr HDR_ACCEPTDISPOSITION_T 18 (p_plus 1 goto_dc_cont)) k))
  k.
Definition siti_CASE : code → code :=
  switch_dword [(_siti_, p_plus 4 (read_val (on_CASE goto_other)))].
Definition ispo_CASE : code → code :=
  switch_dword [(_ispo_, p_plus 4 (read_val (siti_CASE goto_other)))].
Definition ptld_CASE : code → code :=
  switch_dword
    [(_pt_l_, p_plus 4 (read_val (angu_CASE goto_other)));
     (_pt_d_, p_plus 4 (read_val (ispo_CASE goto_other)))].
Definition acce_CASE : code :=
  p_plus 4 (read_val (ptld_CASE
    (if_byte 0 (ch "p")
      (p_plus 1 (if_byte 0 (ch "t") (set_hdr HDR_ACCEPT_T 6 (p_plus 1 goto_dc_cont)) goto_other))
    goto_other))).

(** case_orga.h *)
Definition tion_CASE : code → code :=
  if_dword _tion_ (set_hdr HDR_ORGANIZATION_T 12 (p_plus 4 goto_dc_cont)).
Definition niza_CASE : code → code :=
  switch_dword [(_niza_, p_plus 4 (read_val (tion_CASE goto_other)))].
Definition orga_CASE : code := p_plus 4 (read_val (niza_CASE goto_other)).

(** case_prio.h *)
Definition rity_CASE : code → code :=
  if_dword _rity_ (set_hdr HDR_PRIORITY_T 8 (p_plus 4 goto_dc_cont)).
Definition prio_CASE : code := p_plus 4 (read_val (rity_CASE goto_other)).

(** case_subj.h *)
Definition ect_CASE : code → code :=
  switch_dword
    [(_ect1_, set_hdr HDR_SUBJECT_T 7 (return_p 4));
     (_ect2_, set_hdr HDR_SUBJECT_T 7 (p_plus 4 goto_dc_cont))].
Definition subj_CASE : code := p_plus 4 (read_val (ect_CASE goto_other)).

(** case_user.h *)
Definition nt_CASE : code :=
  if_byte 0 (ch "n")
    (p_plus 1 (if_byte 0 (ch "t") (set_hdr HDR_USERAGENT_T 10 (p_plus 1 goto_dc_cont)) goto_other))
  goto_other.
Definition user_CASE : code :=
  p_plus 4 (read_val (switch_dword [(__age_, p_plus 4 nt_CASE)] goto_other)).

(** case_supp.h *)
Definition ORTE_CASE : code → code :=
  switch_dword
    [(_orte_, p_plus 4
       (if_byte 0 (ch "d") (set_hdr HDR_SUPPORTED_T 9 (p_plus 1 goto_dc_cont)) goto_other))].
Definition supp_CASE : code := p_plus 4 (read_val (ORTE_CASE goto_other)).

(** case_dive.h *)
Definition RSIO_CASE : code → code :=
  switch_dword
    [(_rsio_, p_plus 4
       (if_byte 0 (ch "n") (set_hdr HDR_DIVERSION_T 9 (p_plus 1 goto_dc_cont)) goto_other))].
Definition dive_CASE : code := p_plus 4 (read_val (RSIO_CASE goto_other)).

(** case_remo.h *)
Definition _ID_CASE : code → code :=
  switch_dword
    [(__id1_, set_hdr HDR_RPID_T 15 (return_p 4));
     (__id2_, set_hdr HDR_RPID_T 15 (p_plus 4 goto_dc_cont))].
Definition ARTY_CASE : code → code :=
  if_dword _arty_ (p_plus 4 (read_val (_ID_CASE goto_other))).
Definition TE_P_CASE : code → code :=
  if_dword _te_p_ (p_plus 4 (read_val (ARTY_CASE goto_other))).
Definition remo_CASE : code := p_plus 4 (read_val (TE_P_CASE goto_other)).

(** case_refe.h *)
Definition r_to_CASE : code → code :=
  if_dword _r_to_ (set_hdr HDR_REFER_TO_T 8 (p_plus 4 goto_dc_cont)).
Definition refe_CASE : code := p_plus 4 (read_val (r_to_CASE goto_other)).

(** case_sess.h *)
Definition RES_CASE : code → code :=
  switch_dword
    [(_res1_, set_hdr HDR_SESSION_EXPIRES_T 15 (return_p 4));
     (_res2_, set_hdr HDR_SESSION_EXPIRES_T 15 (p_plus 4 goto_dc_cont))].
Definition EXPI_CASE : code → code :=
  if_dword _expi_ (p_plus 4 (read_val (RES_CASE goto_other))).
Definition ION__CASE : code → code :=
  if_dword _ion__ (p_plus 4 (read_val (EXPI_CASE goto_other))).
Definition sess_CASE : code := p_plus 4 (read_val (ION__CASE goto_other)).

(** case_min_.h *)
Definition res__CASE : code → code :=
  switch_dword
    [(_res1_, set_hdr HDR_MIN_EXPIRES_T 11 (return_p 4));
     (_res2_, set_hdr HDR_MIN_EXPIRES_T 11 (p_plus 4 goto_dc_cont))].
Definition SE_EXPI_CASE (k : code) : code :=
  if_byte 0 (ch "s")
    (p_plus 1
      (switch_byte 0 [(ch "e", set_hdr HDR_MIN_SE_T 6 (p_plus 1 goto_dc_cont))] goto_other))
  (read_val (switch_dword [(_expi_, p_plus 4 (read_val (res__CASE goto_other)))] k)).
Definition min__CASE : code := p_plus 4 (SE_EXPI_CASE goto_other).

(** case_p_pr.h *)
Definition TITY_CASE : code → code :=
  if_dword _tity_ (set_hdr HDR_PPI_T 20 (p_plus 4 goto_dc_cont)).
Definition IDEN_CASE : code → code :=
  if_dword _iden_ (p_plus 4 (read_val (TITY_CASE goto_other))).
Definition RED__CASE : code → code :=
  if_dword _red__ (p_plus 4 (read_val (IDEN_CASE goto_other))).
Definition EFER_CASE : code → code :=
  if_dword _efer_ (p_plus 4 (read_val (RED__CASE goto_other))).
Definition p_pr_CASE : code := p_plus 4 (read_val (EFER_CASE goto_other)).

(** case_p_as.h *)
Definition ITY_CASE : code → code :=
  switch_dword
    [(_ity1_, set_hdr HDR_PAI_T 19 (return_p 4));
     (_ity2_, set_hdr HDR_PAI_T 19 (p_plus 4 goto_dc_cont))].
Definition DENT_CASE : code → code :=
  if_dword _dent_ (p_plus 4 (read_val (ITY_CASE goto_other))).
Definition ED_I_CASE : code → code :=
  if_dword _ed_i_ (p_plus 4 (read_val (DENT_CASE goto_other))).
Definition SERT_CASE : code → code :=
  if_dword _sert_ (p_plus 4 (read_val (ED_I_CASE goto_other))).
Definition p_as_CASE : code := p_plus 4 (read_val (SERT_CASE goto_other)).

(** case_priv.h *)
Definition ACY_CASE : code → code :=
  switch_dword
    [(_acy1_, set_hdr HDR_PRIVACY_T 7 (return_p 4));
     (_acy2_, set_hdr HDR_PRIVACY_T 7 (p_plus 4 goto_dc_cont))].
Definition priv_CASE : code := p_plus 4 (read_val (ACY_CASE goto_other)).

(** case_retr.h *)
Definition ter_CASE : code → code :=
  switch_dword
    [(_ter1_, set_hdr HDR_RETRY_AFTER_T 11 (return_p 4));
     (_ter2_, set_hdr HDR_RETRY_AFTER_T 11 (p_plus 4 goto_dc_cont))].
Definition y_af_CASE : code → code :=
  if_dword _y_af_ (p_plus 4 (read_val (ter_CASE goto_other))).
Definition retr_CASE : code := p_plus 4 (read_val (y_af_CASE goto_other)).

(** case_www.h *)
Definition CATE_CASE : code → code :=
  switch_dword [(_cate_, set_hdr HDR_WWW_AUTHENTICATE_T 16 (p_plus 4 goto_dc_cont))].
Definition ENTI_CASE : code → code :=
  switch_dword [(_enti_, p_plus 4 (read_val (CATE_CASE goto_other)))].
Definition WWW_AUTH_CASE : code → code :=
  switch_dword [(_auth_, p_plus 4 (read_val (ENTI_CASE goto_other)))].
Definition www_CASE : code := p_plus 4 (read_val (WWW_AUTH_CASE goto_other)).

(** case_feat.h *)
Definition caps_CASE : code → code :=
  switch_dword
    [(_caps_, p_plus 4
       (if_char 0 (ch ":") (set_hdr HDR_FEATURE_CAPS_T 12 (return_p 1))
       (p_plus 1 goto_dc_cont)))].
Definition ure__CASE : code → code :=
  switch_dword [(_ure__, p_plus 4 (read_val (caps_CASE goto_other)))].
Definition feat_CASE : code → code :=
  switch_dword [(_feat_, p_plus 4 (read_val (ure__CASE goto_other)))].

(** case_repl.h *)
Definition aces_CASE : code → code :=
  switch_dword
    [(_aces_, p_plus 4
       (if_char 0 (ch ":") (set_hdr HDR_REPLACES_T 8 (return_p 1))
       (p_plus 1 goto_dc_cont)))].
Definition repl_CASE : code → code :=
  switch_dword [(_repl_, p_plus 4 (read_val (aces_CASE goto_other)))].

(** The macro [FIRST_QUATERNIONS], before [default:].  The code of [feat_CASE]
    and of [repl_CASE] goes on with the label after it. *)
Definition FIRST_QUATERNIONS (default : code) : code :=
  switch_dword
    [(_via1_, via1_CASE); (_from_, from_CASE); (_to12_, to12_CASE); (_cseq_, cseq_CASE);
     (_call_, call_CASE); (_cont_, cont_CASE); (_rout_, rout_CASE); (_max__, max_CASE);
     (_reco_, reco_CASE); (_via2_, via2_CASE); (_auth_, auth_CASE); (_supp_, supp_CASE);
     (_expi_, expi_CASE); (_prox_, prox_CASE); (_allo_, allo_CASE); (_path_, path_CASE);
     (_unsu_, unsu_CASE); (_even_, even_CASE); (_acce_, acce_CASE); (_orga_, orga_CASE);
     (_prio_, prio_CASE); (_subj_, subj_CASE); (_user_, user_CASE); (_dive_, dive_CASE);
     (_remo_, remo_CASE); (_refe_, refe_CASE); (_sess_, sess_CASE); (_min__, min__CASE);
     (_p_pr_, p_pr_CASE); (_p_as_, p_as_CASE); (_priv_, priv_CASE); (_retr_, retr_CASE);
     (_www__, www_CASE); (_feat_, feat_CASE (repl_CASE default)); (_repl_, repl_CASE default)]
  default.

Definition PARSE_COMPACT (id : hdr_types_t) (k : code) : code :=
  switch_char 1
    [(SPC, set_hdr id 1 (p_plus 2 goto_dc_end));
     (TAB, set_hdr id 1 (p_plus 2 goto_dc_end));
     (ch ":", set_hdr id 1 (return_p 2))]
  k.

(** The code after [default:]. *)
Definition compact_forms : code :=
  switch_byte 0
    [(ch "t", switch_byte 1
       [(ch "o", p_plus 2 (set_hdr HDR_TO_T 2 goto_dc_cont));
        (SPC, p_plus 2 (set_hdr HDR_TO_T 1 goto_dc_end));
        (TAB, p_plus 2 (set_hdr HDR_TO_T 1 goto_dc_end));
        (ch ":", set_hdr HDR_TO_T 1 (return_p 2))]
       goto_other);
     (ch "v", PARSE_COMPACT HDR_VIA_T goto_other);
     (ch "f", PARSE_COMPACT HDR_FROM_T goto_other);
     (ch "i", PARSE_COMPACT HDR_CALLID_T goto_other);
     (ch "m", PARSE_COMPACT HDR_CONTACT_T goto_other);
     (ch "l", PARSE_COMPACT HDR_CONTENTLENGTH_T goto_other);
     (ch "k", PARSE_COMPACT HDR_SUPPORTED_T goto_other);
     (ch "c", PARSE_COMPACT HDR_CONTENTTYPE_T goto_other);
     (ch "o", PARSE_COMPACT HDR_EVENT_T goto_other);
     (ch "x", PARSE_COMPACT HDR_SESSION_EXPIRES_T goto_other)]
  goto_other.

(** The switch on [val]. *)
Definition hname_switch : code := FIRST_QUATERNIONS compact_forms.

(** The labels.  A null pointer is returned on errors. *)
Definition label_error (hdr : hdr_field P) : Z * hdr_field P :=
  (0, set_name null_str (set_type HDR_ERROR_T hdr)).

(** [if ( *p != ':') goto error; return (p+1);] *)
Definition expect_colon (p : Z) (hdr : hdr_field P) : res (Z * hdr_field P) :=
  c ← rd m p;
  mret (if c =? ch ":" then (p + 1, hdr) else label_error hdr).

(** Characters that end a name. *)
Definition ends_name (c : Z) : bool := (c =? ch ":") || is_sp c.

Definition label_other (pend p : Z) (hdr : hdr_field P) : res (Z * hdr_field P) :=
  let hdr := set_type HDR_OTHER_T hdr in
  p ← scan ends_name m p pend;
  if p <? pend then
    c ← rd m p;
    let hdr := set_name_len (to_int (p - str_s (hdr_name hdr))) hdr in
    if c =? ch ":" then mret (p + 1, hdr)
    else p ← skip_ws m (p + 1) pend; expect_colon p hdr
  else mret (label_error hdr).

Definition label_dc_cont (pend p : Z) (hdr : hdr_field P) : res (Z * hdr_field P) :=
  if pend <=? p then mret (label_error hdr)
  else
    c ← rd m p;
    if c =? ch ":" then mret (p + 1, hdr)
    else if is_sp c then p ← skip_ws m (p + 1) pend; expect_colon p hdr
    else label_other pend p hdr.

Definition label_dc_end (pend p : Z) (hdr : hdr_field P) : res (Z * hdr_field P) :=
  if pend <=? p then mret (label_error hdr)
  else p ← skip_ws m p pend; expect_colon p hdr.

Definition goto_label (pend : Z) (x : exit P) : res (Z * hdr_field P) :=
  match x with
  | Return p hdr => mret (p, hdr)
  | Goto_dc_end p hdr => label_dc_end pend p hdr
  | Goto_dc_cont p hdr => label_dc_cont pend p hdr
  | Goto_other p hdr => label_other pend p hdr
  end.

Definition parse_hname2 (begin pend : Z) (hdr : hdr_field P) : res (Z * hdr_field P) :=
  if pend - begin <? 4 then mret (begin, set_type HDR_ERROR_T hdr)
  else
    v ← READ m begin;
    x ← hname_switch begin (LOWER_DWORD v) (set_name (Str begin (str_len (hdr_name hdr))) hdr);
    goto_label pend x.
End hname.
