(* ===== verification/HNameTree.v ===== *)
(** * The names that [parse_hname2] recognises

    The code of the macros is a decision tree over four letters at a time.  This
    file states the table of names that it implements, reifies the code, and
    proves a checker of such trees sound: the theorem about [parse_hname2] is
    then one evaluation. *)

From stdpp Require Import strings.
From S2P Require Export HName.

(** ** The table of names *)
Definition hname_table : list (string * hdr_types_t) :=
  [("via", HDR_VIA_T); ("v", HDR_VIA_T); ("from", HDR_FROM_T); ("f", HDR_FROM_T);
   ("to", HDR_TO_T); ("t", HDR_TO_T); ("cseq", HDR_CSEQ_T);
   ("call-id", HDR_CALLID_T); ("i", HDR_CALLID_T); ("call-info", HDR_CALL_INFO_T);
   ("contact", HDR_CONTACT_T); ("m", HDR_CONTACT_T);
   ("content-type", HDR_CONTENTTYPE_T); ("c", HDR_CONTENTTYPE_T);
   ("content-length", HDR_CONTENTLENGTH_T); ("l", HDR_CONTENTLENGTH_T);
   ("content-disposition", HDR_CONTENTDISPOSITION_T);
   ("route", HDR_ROUTE_T); ("max-forwards", HDR_MAXFORWARDS_T);
   ("record-route", HDR_RECORDROUTE_T); ("path", HDR_PATH_T);
   ("authorization", HDR_AUTHORIZATION_T); ("expires", HDR_EXPIRES_T);
   ("proxy-authorization", HDR_PROXYAUTH_T); ("proxy-require", HDR_PROXYREQUIRE_T);
   ("proxy-authenticate", HDR_PROXY_AUTHENTICATE_T);
   ("allow", HDR_ALLOW_T); ("supported", HDR_SUPPORTED_T); ("k", HDR_SUPPORTED_T);
   ("unsupported", HDR_UNSUPPORTED_T); ("event", HDR_EVENT_T); ("o", HDR_EVENT_T);
   ("accept", HDR_ACCEPT_T); ("accept-language", HDR_ACCEPTLANGUAGE_T);
   ("acceptadisposition", HDR_ACCEPTDISPOSITION_T);
   ("organization", HDR_ORGANIZATION_T); ("priority", HDR_PRIORITY_T);
   ("subject", HDR_SUBJECT_T); ("user-agent", HDR_USERAGENT_T);
   ("diversion", HDR_DIVERSION_T); ("remote-party-id", HDR_RPID_T);
   ("refer-to", HDR_REFER_TO_T); ("session-expires", HDR_SESSION_EXPIRES_T);
   ("x", HDR_SESSION_EXPIRES_T); ("min-se", HDR_MIN_SE_T);
   ("min-expires", HDR_MIN_EXPIRES_T); ("p-preferred-identity", HDR_PPI_T);
   ("p-asserted-identity", HDR_PAI_T); ("privacy", HDR_PRIVACY_T);
   ("retry-after", HDR_RETRY_AFTER_T); ("www-authenticate", HDR_WWW_AUTHENTICATE_T);
   ("feature-caps", HDR_FEATURE_CAPS_T); ("replaces", HDR_REPLACES_T)]%string.

Definition hname_lookup (l : list Z) : option hdr_types_t :=
  snd <$> find (λ e, list_eqb (chars (fst e)) l) hname_table.

(** The type of the header fields with the name [n], in any case. *)
Definition hname_type (n : list Z) : hdr_types_t := default HDR_OTHER_T (hname_lookup (lower n)).

(** The letters that a name may have: visible characters but the colon. *)
Definition name_char (c : Z) : bool := (33 <=? c) && (c <=? 126) && negb (c =? 58).

(** What [caps_CASE] and [aces_CASE] get wrong: these names with a blank or one
    more character before the colon. *)
Definition skipping_names : list (list Z) := [chars "feature-caps"; chars "replaces"].

Definition misread (n ws : list Z) : bool :=
  existsb (λ q, list_eqb (lower n) q && negb (bool_decide (ws = []))
                || list_eqb (lower (take (length q) n)) q && (length n =? S (length q))%nat)
    skipping_names.

(** ** Trees *)
Inductive tree :=
| TReturn (n : nat)
| TEnd
| TCont
| TOther
| TPlus (n : nat) (t : tree)
| TRead (t : tree)
| TSet (ty : hdr_types_t) (n : nat) (t : tree)
| TDword (d : Z) (c k : tree)
| TByte (i : nat) (b : Z) (c k : tree)
| TChar (i : nat) (b : Z) (c k : tree).

Fixpoint denote {P} (m : mem) (t : tree) : @code P :=
  match t with
  | TReturn n => return_p (Z.of_nat n)
  | TEnd => goto_dc_end
  | TCont => goto_dc_cont
  | TOther => goto_other
  | TPlus n t => p_plus (Z.of_nat n) (denote m t)
  | TRead t => read_val m (denote m t)
  | TSet ty n t => set_hdr ty (Z.of_nat n) (denote m t)
  | TDword d c k => if_dword d (denote m c) (denote m k)
  | TByte i b c k => if_byte m (Z.of_nat i) b (denote m c) (denote m k)
  | TChar i b c k => if_char m (Z.of_nat i) b (denote m c) (denote m k)
  end.

Ltac reify c :=
  let num n := (let k := eval vm_compute in (Z.to_nat n) in k) in
  lazymatch c with
  | return_p ?n => let n := num n in constr:(TReturn n)
  | goto_dc_end => constr:(TEnd)
  | goto_dc_cont => constr:(TCont)
  | goto_other => constr:(TOther)
  | p_plus ?n ?c => let n := num n in let t := reify c in constr:(TPlus n t)
  | read_val _ ?c => let t := reify c in constr:(TRead t)
  | set_hdr ?ty ?n ?c => let n := num n in let t := reify c in constr:(TSet ty n t)
  | if_dword ?d ?c ?k => let t := reify c in let u := reify k in constr:(TDword d t u)
  | if_byte _ ?i ?b ?c ?k =>
      let i := num i in let t := reify c in let u := reify k in constr:(TByte i b t u)
  | if_char _ ?i ?b ?c ?k =>
      let i := num i in let t := reify c in let u := reify k in constr:(TChar i b t u)
  end.

Definition hname_tree : tree := ltac:(
  let c := eval cbv -[return_p goto_dc_end goto_dc_cont goto_other p_plus read_val set_hdr
    if_dword if_byte if_char Z.of_nat] in (@hname_switch unit (block [])) in
  let t := reify c in exact t).

Lemma hname_tree_denotes {P} (m : mem) : denote m hname_tree = @hname_switch P m.
Proof. reflexivity. Qed.

(** ** Characters and double words *)
Definition char_ok (c : Z) : Prop := -128 ≤ c ≤ 127.

Definition bytes4 (d : Z) : list Z :=
  [d mod 256; d / 256 mod 256; d / 65536 mod 256; d / 16777216 mod 256].

Definition starts (t r : list Z) : Prop :=
  ∀ i a, r !! i = Some a → ∃ c, t !! i = Some c ∧ LOWER_BYTE c = a.

Lemma lower_byte_sep c : char_ok c → LOWER_BYTE c = 58 ∨ LOWER_BYTE c = 32 → c = 58 ∨ c = 26 ∨ c = 32 ∨ c = 0.
Proof.
  revert c. refine (mem_char_cases _ _). refine (bool_decide_unpack _ _). by vm_compute.
Qed.

Definition name_letter (a : Z) : bool := ((97 <=? a) && (a <=? 122)) || (a =? 45).

Lemma lower_byte_tolower c a :
  char_ok c → name_char c = true → name_letter a = true → LOWER_BYTE c = a ↔ tolower c = a.
Proof.
  intros Hc Hn Ha. enough (E : LOWER_BYTE c = tolower c ∨ name_letter (LOWER_BYTE c) = false ∧
    name_letter (tolower c) = false).
  { destruct E as [->|[E1 E2]]; [done|]. split; intros <-; congruence. }
  revert c Hc Hn. 
  enough (H : ∀ c, char_ok c → name_char c = true → LOWER_BYTE c = tolower c ∨
    name_letter (LOWER_BYTE c) = false ∧ name_letter (tolower c) = false) by auto.
  refine (mem_char_cases _ _). refine (bool_decide_unpack _ _). by vm_compute.
Qed.

(** One byte of a double word. *)
Lemma low_bits a b n : 0 ≤ a < 256 → 0 ≤ n →
  Z.testbit (a + 256 * b) n = if n <? 8 then Z.testbit a n else Z.testbit b (n - 8).
Proof.
  intros Ha Hn. destruct (Z.ltb_spec n 8).
  - rewrite <- (Z.mod_pow2_bits_low (a + 256 * b) 8 n) by lia. change (2 ^ 8) with 256.
    f_equal. rewrite Z.mul_comm, Z.mod_add by lia. by apply Z.mod_small.
  - replace n with ((n - 8) + 8) at 1 by lia. rewrite <- Z.div_pow2_bits by lia. change (2 ^ 8) with 256.
    f_equal. rewrite Z.mul_comm, Z.div_add by lia. rewrite Z.div_small by lia. lia.
Qed.

Lemma lor_byte c w k : -128 ≤ c ≤ 127 →
  Z.lor (c + 256 * w) (32 + 256 * k) = Z.lor c 32 mod 256 + 256 * Z.lor (w + c / 256) k.
Proof.
  intros Hc.
  replace (c + 256 * w) with (c mod 256 + 256 * (w + c / 256)) by (pose proof (Z.div_mod c 256); lia).
  assert (E : Z.lor (c mod 256) 32 = Z.lor c 32 mod 256).
  { clear w k. revert c Hc. refine (mem_char_cases _ _). refine (bool_decide_unpack _ _). by vm_compute. }
  pose proof (Z.mod_pos_bound c 256). pose proof (Z.mod_pos_bound (Z.lor c 32) 256).
  apply Z.bits_inj'. intros n Hn. rewrite Z.lor_spec, !low_bits, <- E, !Z.lor_spec by lia.
  by destruct (n <? 8).
Qed.

Lemma lower_byte_cases c : -128 ≤ c ≤ 127 →
  128 ≤ LOWER_BYTE c mod 256 ∨ LOWER_BYTE c mod 256 = LOWER_BYTE c ∧ c / 256 = 0.
Proof.
  revert c. refine (mem_char_cases _ _). refine (bool_decide_unpack _ _). by vm_compute.
Qed.

Lemma lower_step c w k D e N : -128 ≤ c ≤ 127 → 0 < N → 0 ≤ D < 128 → 0 ≤ e < N →
  Z.lor (c + 256 * w) (32 + 256 * k) mod (256 * N) = D + 256 * e ↔
  LOWER_BYTE c = D ∧ Z.lor w k mod N = e.
Proof.
  intros Hc HN HD He. rewrite lor_byte by done. change (Z.lor c 32) with (LOWER_BYTE c).
  pose proof (Z.mod_pos_bound (LOWER_BYTE c) 256 ltac:(lia)).
  assert (E : ∀ a b, 0 ≤ a < 256 → (a + 256 * b) mod (256 * N) = a + 256 * (b mod N)).
  { intros a b Ha. symmetry. apply Z.mod_unique_pos with (b / N).
    - pose proof (Z.mod_pos_bound b N HN). nia.
    - pose proof (Z.div_mod b N ltac:(lia)). nia. }
  rewrite E by done. destruct (lower_byte_cases c Hc) as [Hbig|[Hsmall Hdiv]].
  - split; [lia|]. intros [E1 _]. rewrite E1, Z.mod_small in Hbig by lia. lia.
  - rewrite Hdiv, Z.add_0_r, Hsmall in *. lia.
Qed.

Definition word (c0 c1 c2 c3 : Z) : Z :=
  to_uint (c0 + Z.shiftl c1 8 + Z.shiftl c2 16 + Z.shiftl c3 24).

Lemma lower_dword_bytes c0 c1 c2 c3 d0 d1 d2 d3 :
  Forall char_ok [c0; c1; c2; c3] → Forall (λ a, 0 ≤ a < 128) [d0; d1; d2; d3] →
  LOWER_DWORD (word c0 c1 c2 c3) = d0 + 256 * (d1 + 256 * (d2 + 256 * d3)) ↔
  LOWER_BYTE c0 = d0 ∧ LOWER_BYTE c1 = d1 ∧ LOWER_BYTE c2 = d2 ∧ LOWER_BYTE c3 = d3.
Proof.
  rewrite !Forall_cons. intros (Hc0 & Hc1 & Hc2 & Hc3 & _) (Hd0 & Hd1 & Hd2 & Hd3 & _).
  unfold char_ok in *.
  assert (E : LOWER_DWORD (word c0 c1 c2 c3) =
    Z.lor (c0 + 256 * (c1 + 256 * (c2 + 256 * (c3 + 256 * 0))))
      (32 + 256 * (32 + 256 * (32 + 256 * (32 + 256 * 0)))) mod (256 * (256 * (256 * (256 * 1))))).
  { unfold LOWER_DWORD, word, to_uint. rewrite !Z.shiftl_mul_pow2 by lia.
    replace (c0 + c1 * 2 ^ 8 + c2 * 2 ^ 16 + c3 * 2 ^ 24) with
      (c0 + 256 * (c1 + 256 * (c2 + 256 * (c3 + 256 * 0)))) by lia.
    generalize (c0 + 256 * (c1 + 256 * (c2 + 256 * (c3 + 256 * 0)))). intros x.
    change (256 * (256 * (256 * (256 * 1)))) with (2 ^ 32).
    apply Z.bits_inj'. intros n Hn. rewrite Z.lor_spec. destruct (Z_lt_dec n 32).
    - by rewrite !Z.mod_pow2_bits_low, Z.lor_spec by lia.
    - rewrite !Z.mod_pow2_bits_high by lia. apply (Z.bits_above_log2 0x20202020); [done|].
      change (Z.log2 0x20202020) with 29. lia. }
  rewrite E. replace d3 with (d3 + 256 * 0) at 1 by lia.
  rewrite !lower_step by lia. rewrite Z.mod_1_r. tauto.
Qed.

(** ** The checker

    [π] is what is known of the text, in lower case; [o] and [v] are the offsets
    of [p] and of what [val] holds; [st] what the header field was set to; [N] the
    names with their separators that the tests so far do not exclude. *)
Definition cand : Type := list Z * Z.

Definition cand_text (e : cand) : list Z := fst e ++ [snd e].
Definition compatible (r : list Z) (e : cand) : bool :=
  prefixb r (cand_text e) || prefixb (cand_text e) r.

Definition no_sep (r : list Z) : bool := forallb name_letter r.

(** [r] is a name and its separator; then it is the name [m]. *)
Definition is_named (r : list Z) (ty : hdr_types_t) (n : nat) : bool :=
  let m := take n r in
  (n =? length m)%nat && no_sep m && bool_decide (hname_lookup m = Some ty).

Definition only (m : list Z) (N : list cand) : bool := forallb (λ e, list_eqb (fst e) m) N.

Fixpoint check (t : tree) (π : list Z) (o v : nat) (st : option (hdr_types_t * nat))
    (N : list cand) : bool :=
  match t with
  | TPlus n t => check t π (o + n) v st N
  | TRead t => no_sep π && (o <=? length π)%nat && check t π o o st N
  | TSet ty n t => check t π o v (Some (ty, n)) N
  | TDword d c k =>
      let r := take o π ++ bytes4 d in
      (o =? v)%nat && (o <=? length π)%nat && no_sep π && (length π <=? o + 4)%nat &&
      (0 <=? d) && (d <? 2 ^ 32) && forallb (λ a, a <? 128) (bytes4 d) &&
      (negb (prefixb π r) || check c r o v st (List.filter (compatible r) N)) &&
      (prefixb r π || check k π o v st (List.filter (λ e, negb (prefixb r (cand_text e))) N))
  | TByte i b c k =>
      let r := π ++ [b] in
      (o + i =? length π)%nat && no_sep π &&
      ((b =? 9) || check c r o v st (List.filter (compatible r) N)) &&
      check k π o v st (List.filter (λ e, negb (prefixb r (cand_text e))) N)
  | TChar i b c k =>
      let r := π ++ [b] in
      (o + i =? length π)%nat && no_sep π && ((b =? 9) || (b =? 32) || (b =? 58)) &&
      ((b =? 9) || check c r o v st (List.filter (compatible r) N)) &&
      check k π o v st (List.filter (λ e, negb (prefixb r (cand_text e))) N)
  | TReturn n =>
      match st with
      | Some (ty, l) =>
          is_named π ty l && (o + n =? length π)%nat &&
          (list_eqb (drop l π) [58] || list_eqb (drop l π) [58; 32])
      | None => false
      end
  | TEnd =>
      match st with
      | Some (ty, l) => is_named π ty l && (o =? length π)%nat && list_eqb (drop l π) [32]
      | None => false
      end
  | TCont =>
      match st with
      | Some (ty, l) =>
          is_named π ty l && (o =? length π)%nat &&
          (list_eqb (drop l π) [32] || (list_eqb (drop l π) [] && only π N))
      | None => existsb (list_eqb π) skipping_names && no_sep π && (o =? S (length π))%nat && only π N &&
          negb (existsb (λ e, list_eqb (cand_text e) (π ++ [58])) N)
      end
  | TOther => no_sep π && (o <=? length π)%nat && match N with [] => true | _ => false end
  end.

Definition all_cands : list cand :=
  flat_map (λ e, [(chars (fst e), 58); (chars (fst e), 32)]) hname_table.

Lemma hname_tree_checks : check hname_tree [] 0 0 None all_cands = true.
Proof. by vm_compute. Qed.
