(* ===== verification/HNameTheorems.v ===== *)
(** * Theorems about the names of header fields *)

From stdpp Require Import strings.
From S2P Require Export HNameTree.

(** ** Soundness *)
Lemma prefixb_prefix p l : prefixb p l = true ↔ p `prefix_of` l.
Proof.
  rewrite prefixb_spec. split.
  - intros ->. apply prefix_take.
  - intros [k ->]. by rewrite take_app_length.
Qed.

Lemma hname_lookup_letters l ty : hname_lookup l = Some ty → no_sep l = true ∧
  In (l, 58) all_cands ∧ In (l, 32) all_cands.
Proof.
  unfold hname_lookup. destruct (find _ _) as [e|] eqn:E; [|done]. intros _.
  apply find_some in E as [Hin <-%list_eqb_spec]. split.
  - cut (forallb (λ e, no_sep (chars (fst e))) hname_table = true).
    { rewrite forallb_forall. eauto. }
    by vm_compute.
  - unfold all_cands. split; apply in_flat_map; exists e; split; simpl; auto.
Qed.

Section sound.
Context {P : Type} (m : mem) (begin : Z) (n ws rest : list Z) (hdr : hdr_field P).
Abbreviation text := (n ++ ws ++ 58 :: rest).
Abbreviation lowered := (map LOWER_BYTE text).
Abbreviation pend := (begin + len text).
Context (Hchars : Forall char_ok text) (Hat : bytes_at m begin text) (Hsize : len text < 2 ^ 31)
  (Hn : forallb name_char n = true) (Hws : spaces ws) (Hhd : head_is (λ c, c =? SPC) ws)
  (Hrest : (3 ≤ length rest)%nat) (Hnul : head_is (λ c, negb (c =? NUL)) rest)
  (Hmis : misread n ws = false).

Definition sep : Z := match ws with [] => 58 | _ => 32 end.

Lemma text_at i c : text !! i = Some c → rd m (begin + Z.of_nat i) = Ok c ∧ char_ok c.
Proof.
  intros H. split; [by eapply bytes_at_lookup|]. rewrite Forall_lookup in Hchars. eauto.
Qed.

Lemma name_at i c : n !! i = Some c → text !! i = Some c ∧ name_char c = true.
Proof.
  intros H. split; [by apply lookup_app_l_Some|]. rewrite forallb_forall in Hn.
  apply Hn, list_elem_of_In. by eapply list_elem_of_lookup_2.
Qed.

Lemma sep_at : text !! length n = Some sep.
Proof.
  rewrite lookup_app_r, Nat.sub_diag by lia. unfold sep. destruct ws as [|c ws']; [done|].
  cbn in *. by apply Z.eqb_eq in Hhd as ->.
Qed.

Lemma lowered_at i a : lowered !! i = Some a ↔ ∃ c, text !! i = Some c ∧ LOWER_BYTE c = a.
Proof.
  rewrite list_lookup_fmap, fmap_Some. split; intros (c & Hc & E); exists c; by rewrite E.
Qed.

Lemma no_sep_at r i a : no_sep r = true → r !! i = Some a → name_letter a = true.
Proof.
  unfold no_sep. rewrite forallb_forall. intros H Hi. apply H, list_elem_of_In.
  by eapply list_elem_of_lookup_2.
Qed.

Lemma lower_at i c : n !! i = Some c → lower n !! i = Some (tolower c).
Proof. intros H. unfold lower. by rewrite list_lookup_fmap, H. Qed.

(** A prefix without a separator is a prefix of the name. *)
Lemma prefix_name r :
  r `prefix_of` lowered → no_sep r = true → (length r ≤ length n)%nat ∧ r `prefix_of` lower n.
Proof.
  intros Hr Hsep. assert (Hl : (length r ≤ length n)%nat).
  { destruct (decide (length r ≤ length n)%nat) as [|Hlt]; [done|]. exfalso.
    destruct (lookup_lt_is_Some_2 r (length n)) as [a Ha]; [lia|].
    pose proof (no_sep_at _ _ _ Hsep Ha) as Hlet.
    pose proof (prefix_lookup_Some _ _ _ _ Ha Hr) as H. apply lowered_at in H as (c & Hc & <-).
    rewrite sep_at in Hc. injection Hc as <-. revert Hlet. unfold sep. by destruct ws. }
  split; [done|]. apply prefixb_prefix, prefixb_spec. apply list_eq. intros i.
  destruct (r !! i) as [a|] eqn:Ha.
  - pose proof (no_sep_at _ _ _ Hsep Ha) as Hlet.
    pose proof (lookup_lt_Some _ _ _ Ha) as Hi.
    destruct (lookup_lt_is_Some_2 n i) as [c Hc]; [lia|].
    pose proof (prefix_lookup_Some _ _ _ _ Ha Hr) as H. apply lowered_at in H as (c' & Hc' & E).
    destruct (name_at _ _ Hc) as [Hc1 Hname]. rewrite Hc1 in Hc'. injection Hc' as <-.
    rewrite lookup_take_lt by lia. rewrite (lower_at _ _ Hc). f_equal. symmetry.
    apply lower_byte_tolower; [|done..]. by apply (text_at i).
  - symmetry. apply lookup_ge_None in Ha. apply lookup_ge_None. rewrite length_take. lia.
Qed.

(** A prefix with a separator at its end is the name and the separator. *)
Lemma prefix_sep r a :
  (r ++ [a]) `prefix_of` lowered → no_sep r = true → a = 58 ∨ a = 32 →
  lower n = r ∧ sep = a.
Proof.
  intros Hr Hsep Ha.
  destruct (prefix_name r) as [Hl Hpre]; [|done|].
  { etrans; [|exact Hr]. by eexists. }
  assert (Hat' : lowered !! length r = Some a).
  { eapply prefix_lookup_Some; [|exact Hr]. by rewrite list_lookup_middle. }
  apply lowered_at in Hat' as (c & Hc & E).
  destruct (text_at _ _ Hc) as [_ Hok].
  destruct (decide (length r = length n)) as [Heq|Hne].
  - rewrite Heq, sep_at in Hc. injection Hc as <-. split.
    + symmetry. apply prefix_length_eq; [done|]. rewrite length_lower. lia.
    + rewrite <- E. unfold sep. by destruct ws.
  - destruct (lookup_lt_is_Some_2 n (length r)) as [c' Hc']; [lia|].
    destruct (name_at _ _ Hc') as [Hc1 Hname]. rewrite Hc1 in Hc. injection Hc as ->.
    exfalso. destruct (lower_byte_sep c Hok) as [?|[?|[?|?]]]; [by rewrite E|..].
    all: subst; done.
Qed.

(** The text that a candidate stands for, if the name is in the table. *)
Lemma cand_prefix : is_Some (hname_lookup (lower n)) → cand_text (lower n, sep) `prefix_of` lowered.
Proof.
  intros [ty Hty]. destruct (hname_lookup_letters _ _ Hty) as [Hlet _].
  apply prefixb_prefix, prefixb_spec. unfold cand_text. cbn [fst snd].
  apply list_eq. intros i. rewrite length_app, length_lower. cbn [length].
  destruct (decide (i < length n)%nat) as [Hi|Hi].
  - destruct (lookup_lt_is_Some_2 n i) as [c Hc]; [lia|].
    rewrite lookup_app_l, (lower_at _ _ Hc) by (rewrite length_lower; lia).
    rewrite lookup_take_lt by lia. symmetry. apply lowered_at. exists c.
    destruct (name_at _ _ Hc) as [Hc1 Hname]. split; [done|].
    destruct (text_at _ _ Hc1) as [_ Hok]. apply lower_byte_tolower; [done..| |done].
    eapply no_sep_at; [exact Hlet|]. by apply lower_at.
  - destruct (decide (i = length n)) as [->|].
    + rewrite lookup_app_r, length_lower, Nat.sub_diag by (rewrite length_lower; lia).
      rewrite lookup_take_lt by lia. symmetry. apply lowered_at. exists sep. split; [apply sep_at|].
      unfold sep. by destruct ws.
    + rewrite lookup_app_r by (rewrite length_lower; lia).
      rewrite !lookup_ge_None_2; [done|..]; rewrite ?length_take, ?length_lower; cbn [length]; lia.
Qed.

(** What the tests so far know about the name. *)
Definition covers (N : list cand) : Prop :=
  is_Some (hname_lookup (lower n)) → In (lower n, sep) N.

Lemma covers_filter f N : covers N → (is_Some (hname_lookup (lower n)) → f (lower n, sep) = true) →
  covers (List.filter f N).
Proof. intros HN Hf Hs. apply filter_In. auto. Qed.

Lemma covers_passed r N : covers N → r `prefix_of` lowered → covers (List.filter (compatible r) N).
Proof.
  intros HN Hr. apply covers_filter; [done|]. intros Hs. unfold compatible.
  apply orb_true_iff. rewrite !prefixb_prefix.
  eapply prefix_weak_total; [exact Hr|]. by apply cand_prefix.
Qed.

Lemma covers_failed r N : covers N → ¬ r `prefix_of` lowered →
  covers (List.filter (λ e, negb (prefixb r (cand_text e))) N).
Proof.
  intros HN Hr. apply covers_filter; [done|]. intros Hs. apply negb_true_iff, not_true_is_false.
  rewrite prefixb_prefix. intros H. apply Hr. etrans; [exact H|]. by apply cand_prefix.
Qed.

Lemma covers_all : covers all_cands.
Proof.
  intros [ty Hty]. destruct (hname_lookup_letters _ _ Hty) as (_ & H1 & H2).
  unfold sep. destruct ws; done.
Qed.

(** The results of the labels. *)
Definition named (ty : hdr_types_t) (h : hdr_field P) : hdr_field P :=
  set_name (Str begin (len n)) (set_type ty h).

Definition after_colon : Z := begin + len n + len ws + 1.

Lemma length_text : len text = len n + len ws + 1 + len rest.
Proof. rewrite !len_app, len_cons. lia. Qed.

Lemma colon_at : rd m (begin + len n + len ws) = Ok 58.
Proof.
  replace (begin + len n + len ws) with (begin + Z.of_nat (length n + length ws)) by (unfold len; lia).
  eapply bytes_at_lookup; [exact Hat|]. rewrite lookup_app_r by lia.
  by replace (length n + length ws - length n)%nat with (length ws) by lia;
    rewrite list_lookup_middle.
Qed.

Lemma skip_ws_at j : (j ≤ length ws)%nat →
  skip_ws m (begin + len n + Z.of_nat j) pend = Ok (begin + len n + len ws).
Proof.
  intros Hj. unfold skip_ws.
  rewrite (scan_run _ m _ _ (drop j ws) (58 :: rest)).
  - f_equal. rewrite length_drop. unfold len. lia.
  - rewrite <- (take_drop j ws) in Hat. rewrite <- app_assoc, app_assoc in Hat.
    apply bytes_at_from in Hat. rewrite len_app in Hat. unfold len in Hat |- *.
    rewrite length_take_le in Hat by done. by rewrite Z.add_assoc in Hat.
  - rewrite length_text. rewrite length_app, length_drop. cbn [length]. unfold len. lia.
  - apply Forall_drop. eapply Forall_impl; [exact Hws|]. by intros c ->.
  - done.
Qed.

Lemma expect_colon_at (h : hdr_field P) : expect_colon m (begin + len n + len ws) h = Ok (after_colon, h).
Proof. unfold expect_colon. by rewrite colon_at. Qed.

Lemma name_char_ends c : name_char c = true → ends_name c = false.
Proof.
  unfold name_char, ends_name, is_sp, SPC, TAB. change (ch ":") with 58.
  rewrite !andb_true_iff, !Z.leb_le, negb_true_iff, Z.eqb_neq. intros [[? ?] ?].
  rewrite !orb_false_iff, !Z.eqb_neq. lia.
Qed.

Lemma scan_name o : (o ≤ length n)%nat → scan ends_name m (begin + Z.of_nat o) pend = Ok (begin + len n).
Proof.
  intros Ho. rewrite (scan_run _ m _ _ (drop o n) (ws ++ 58 :: rest)).
  - f_equal. rewrite length_drop. unfold len. lia.
  - rewrite <- (take_drop o n) in Hat. rewrite <- app_assoc in Hat.
    apply bytes_at_from in Hat. unfold len in Hat. by rewrite length_take_le in Hat by done.
  - unfold len. rewrite !length_app, length_drop. lia.
  - apply Forall_drop, Forall_forall. intros c Hc. rewrite forallb_forall in Hn.
    apply list_elem_of_In, Hn in Hc. by apply name_char_ends.
  - destruct ws as [|c ws']; [done|]. apply Forall_cons in Hws as [Hc _]. cbn.
    unfold ends_name. by rewrite Hc, orb_true_r.
Qed.

Lemma sep_read : rd m (begin + len n) = Ok sep.
Proof. by apply text_at, sep_at. Qed.

Lemma sep_colon : (sep =? 58) = (length ws =? 0)%nat.
Proof. unfold sep. by destruct ws. Qed.

Lemma label_other_at o (h : hdr_field P) : (o ≤ length n)%nat → str_s (hdr_name h) = begin →
  label_other m pend (begin + Z.of_nat o) h = Ok (after_colon, named HDR_OTHER_T h).
Proof.
  intros Ho Hs. pose proof length_text. pose proof (len_nonneg ws). pose proof (len_nonneg rest).
  pose proof (len_nonneg n).
  unfold label_other. rewrite scan_name by done. cbn [mbind res_bind].
  destruct (Z.ltb_spec (begin + len n) pend); [|lia].
  rewrite sep_read. cbn [mbind res_bind hdr_name set_type].
  rewrite Hs, to_int_small by lia. replace (begin + len n - begin) with (len n) by lia.
  assert (E : set_name_len (len n) (set_type HDR_OTHER_T h) = named HDR_OTHER_T h).
  { unfold set_name_len, named. cbn. by rewrite Hs. }
  rewrite E. change (ch ":") with 58. rewrite sep_colon.
  destruct (Nat.eqb_spec (length ws) 0) as [Hw|Hw].
  - unfold after_colon. do 2 f_equal. unfold len. lia.
  - replace (begin + len n + 1) with (begin + len n + Z.of_nat 1) by lia.
    rewrite (skip_ws_at 1) by lia. cbn [mbind res_bind]. by rewrite expect_colon_at.
Qed.

Lemma label_dc_end_at j (h : hdr_field P) : (j ≤ length ws)%nat →
  label_dc_end m pend (begin + len n + Z.of_nat j) h = Ok (after_colon, h).
Proof.
  intros Hj. pose proof length_text. pose proof (len_nonneg rest). unfold label_dc_end.
  destruct (Z.leb_spec pend (begin + len n + Z.of_nat j)); [unfold len in *; lia|].
  rewrite skip_ws_at by done. cbn [mbind res_bind]. by rewrite expect_colon_at.
Qed.

Lemma ws_or_colon j : (j ≤ length ws)%nat → ∃ c, rd m (begin + len n + Z.of_nat j) = Ok c ∧
  if (j =? length ws)%nat then c = 58 else is_sp c = true.
Proof.
  intros Hj. destruct (Nat.eqb_spec j (length ws)) as [->|].
  { eexists. split; [apply colon_at|done]. }
  destruct (lookup_lt_is_Some_2 ws j) as [c Hc]; [lia|]. exists c. split.
  - replace (begin + len n + Z.of_nat j) with (begin + Z.of_nat (length n + j)) by (unfold len; lia).
    apply text_at. rewrite lookup_app_r by lia.
    replace (length n + j - length n)%nat with j by lia. by apply lookup_app_l_Some.
  - unfold spaces in Hws. rewrite Forall_lookup in Hws. eauto.
Qed.

Lemma label_dc_cont_at j (h : hdr_field P) : (j ≤ length ws)%nat →
  label_dc_cont m pend (begin + len n + Z.of_nat j) h = Ok (after_colon, h).
Proof.
  intros Hj. pose proof length_text. pose proof (len_nonneg rest). unfold label_dc_cont.
  destruct (Z.leb_spec pend (begin + len n + Z.of_nat j)); [unfold len in *; lia|].
  destruct (ws_or_colon j Hj) as (c & Hc & Hcase). rewrite Hc. cbn [mbind res_bind].
  destruct (Nat.eqb_spec j (length ws)) as [->|].
  - subst c. done.
  - change (ch ":") with 58. destruct (Z.eqb_spec c 58) as [->|]; [done|]. rewrite Hcase.
    replace (begin + len n + Z.of_nat j + 1) with (begin + len n + Z.of_nat (S j)) by lia.
    rewrite skip_ws_at by lia. cbn [mbind res_bind]. by rewrite expect_colon_at.
Qed.

Lemma label_dc_cont_other o (h : hdr_field P) : (o < length n)%nat →
  label_dc_cont m pend (begin + Z.of_nat o) h = label_other m pend (begin + Z.of_nat o) h.
Proof.
  intros Ho. pose proof length_text. pose proof (len_nonneg rest). pose proof (len_nonneg ws).
  unfold label_dc_cont.
  destruct (Z.leb_spec pend (begin + Z.of_nat o)); [unfold len in *; lia|].
  destruct (lookup_lt_is_Some_2 n o) as [c Hc]; [lia|]. destruct (name_at _ _ Hc) as [Hc1 Hname].
  destruct (text_at _ _ Hc1) as [-> _]. cbn [mbind res_bind].
  apply name_char_ends, orb_false_iff in Hname as [-> ->]. done.
Qed.

(** The name is read: where, up to one space after the colon, and as what. *)
Definition reads_name (x : exit P) : Prop :=
  ∃ k, goto_label m pend x = Ok (after_colon + k, named (hname_type n) hdr) ∧
    (k = 0 ∨ k = 1 ∧ head_is (λ c, c =? SPC) rest ∧ ws = []).

(** The header field after the assignments [st]. *)
Definition hdr_st (st : option (hdr_types_t * nat)) (h : hdr_field P) : hdr_field P :=
  match st with
  | Some (ty, l) => set_name_len (Z.of_nat l) (set_type ty h)
  | None => h
  end.

Definition h0 : hdr_field P := set_name (Str begin (str_len (hdr_name hdr))) hdr.

Lemma set_hdr_st ty l st :
  set_name_len (Z.of_nat l) (set_type ty (hdr_st st h0)) = hdr_st (Some (ty, l)) h0.
Proof. by destruct st as [[ty' l']|], hdr. Qed.

Lemma is_named_spec π ty l a :
  is_named π ty l = true → drop l π = [a] → a = 58 ∨ a = 32 → π `prefix_of` lowered →
  lower n = take l π ∧ sep = a ∧ l = length n ∧ length π = S l ∧ hname_type n = ty.
Proof.
  unfold is_named. rewrite !andb_true_iff, Nat.eqb_eq, bool_decide_eq_true. intros [[Hl Hlet] Hty] Hd Ha Hpre.
  assert (Hπ : π = take l π ++ [a]) by (by rewrite <- Hd, take_drop).
  rewrite Hπ in Hpre. destruct (prefix_sep _ _ Hpre Hlet Ha) as [Hlow Hsep].
  assert (length (lower n) = length (take l π)) as Hll by by rewrite Hlow. rewrite length_lower in Hll.
  split_and!; [done|done|lia| |].
  - apply (f_equal length) in Hπ. rewrite length_app in Hπ. cbn [length] in Hπ. lia.
  - unfold hname_type. by rewrite Hlow, Hty.
Qed.

Lemma hdr_st_named ty l : l = length n → hname_type n = ty →
  hdr_st (Some (ty, l)) h0 = named (hname_type n) hdr.
Proof. intros -> ->. reflexivity. Qed.

Lemma sound_return π o k st N :
  check (TReturn k) π o 0 st N = true → π `prefix_of` lowered →
  reads_name (Return (begin + Z.of_nat o + Z.of_nat k) (hdr_st st h0)).
Proof.
  cbn [check]. destruct st as [[ty l]|]; [|done].
  rewrite !andb_true_iff, orb_true_iff, !list_eqb_spec, Nat.eqb_eq. intros [[Hnm Ho] [Hd|Hd]] Hpre.
  - destruct (is_named_spec _ _ _ _ Hnm Hd ltac:(by left) Hpre) as (Hlow & Hsep & -> & Hπ & Hty).
    exists 0. split; [|by left]. cbn [goto_label]. unfold after_colon. unfold mret, res_ret.
    rewrite (hdr_st_named _ _ eq_refl Hty).
    assert (len ws = 0) as -> by (revert Hsep; unfold sep; by destruct ws).
    do 2 f_equal. unfold len. lia.
  - assert (Hpre' : take (S l) π `prefix_of` lowered).
    { etrans; [|exact Hpre]. apply prefix_take. }
    assert (Hd' : drop l (take (S l) π) = [58]).
    { rewrite <- (take_drop l π), Hd at 1. unfold is_named in Hnm.
      rewrite !andb_true_iff, Nat.eqb_eq in Hnm. destruct Hnm as [[Hl _] _].
      rewrite take_app, <- Hl. replace (S l - l)%nat with 1%nat by lia.
      rewrite take_ge by lia. rewrite Hl at 1. by rewrite drop_app_length. }
    assert (Hnm' : is_named (take (S l) π) ty l = true).
    { revert Hnm. unfold is_named. by rewrite take_take, Nat.min_l by lia. }
    destruct (is_named_spec _ _ _ _ Hnm' Hd' ltac:(by left) Hpre') as (Hlow & Hsep & -> & Hπ & Hty).
    assert (Hπl : length π = S (S (length n))).
    { rewrite <- (take_drop (length n) π), Hd, length_app. rewrite length_take_le; [cbn; lia|].
      rewrite length_take in Hπ. lia. }
    assert (ws = []) as Hnil by (revert Hsep; unfold sep; by destruct ws).
    exists 1. split.
    + cbn [goto_label]. unfold after_colon, mret, res_ret. rewrite (hdr_st_named _ _ eq_refl Hty).
      do 2 f_equal. rewrite Hnil. unfold len. cbn [length]. lia.
    + right. split_and!; [done| |done].
      assert (H : π !! S (length n) = Some 32).
      { rewrite <- (take_drop (length n) π), Hd. rewrite lookup_app_r by (rewrite length_take; lia).
        rewrite length_take, Nat.min_l by lia. by replace (S (length n) - length n)%nat with 1%nat by lia. }
      pose proof (prefix_lookup_Some _ _ _ _ H Hpre) as H'. apply lowered_at in H' as (c & Hc & E).
      destruct (text_at _ _ Hc) as [_ Hok].
      rewrite lookup_app_r in Hc by lia. replace (S (length n) - length n)%nat with 1%nat in Hc by lia.
      rewrite Hnil in Hc. cbn in Hc. destruct rest as [|r0 rest']; [done|]. injection Hc as ->.
      cbn in *. destruct (lower_byte_sep c Hok (or_intror E)) as [?|[?|[?|?]]]; subst c.
      all: done.
Qed.

Lemma sound_end π o st N :
  check TEnd π o 0 st N = true → π `prefix_of` lowered →
  reads_name (Goto_dc_end (begin + Z.of_nat o) (hdr_st st h0)).
Proof.
  cbn [check]. destruct st as [[ty l]|]; [|done].
  rewrite !andb_true_iff, !list_eqb_spec, Nat.eqb_eq. intros [[Hnm Ho] Hd] Hpre.
  destruct (is_named_spec _ _ _ _ Hnm Hd ltac:(by right) Hpre) as (Hlow & Hsep & -> & Hπ & Hty).
  exists 0. split; [|by left]. cbn [goto_label]. rewrite (hdr_st_named _ _ eq_refl Hty), Z.add_0_r.
  replace (begin + Z.of_nat o) with (begin + len n + Z.of_nat 1) by (unfold len; lia).
  apply label_dc_end_at. revert Hsep. unfold sep. destruct ws; [done|cbn; lia].
Qed.

(** The name goes on, and none of the table goes on. *)
Lemma sound_goes_on π o h N :
  π `prefix_of` lower n → (o ≤ length n)%nat → covers N → only π N = true → lower n ≠ π →
  str_s (hdr_name h) = begin → named HDR_OTHER_T h = named HDR_OTHER_T hdr →
  ∃ k, label_other m pend (begin + Z.of_nat o) h = Ok (after_colon + k, named (hname_type n) hdr) ∧
    (k = 0 ∨ k = 1 ∧ head_is (λ c, c =? SPC) rest ∧ ws = []).
Proof.
  intros Hpre Ho HN Honly Hne Hs Hh. exists 0. split; [|by left].
  rewrite label_other_at by done. rewrite Z.add_0_r, Hh. do 2 f_equal.
  unfold hname_type. destruct (hname_lookup (lower n)) as [ty|] eqn:E; [|done].
  exfalso. assert (Hin : In (lower n, sep) N) by (apply HN; by rewrite E).
  unfold only in Honly. rewrite forallb_forall in Honly. apply Honly, list_eqb_spec in Hin. done.
Qed.

Lemma only_covers π N : only π N = true → covers N → hname_lookup (lower n) ≠ None → lower n = π.
Proof.
  intros Honly HN Hne. assert (Hin : In (lower n, sep) N).
  { apply HN. by destruct (hname_lookup (lower n)). }
  unfold only in Honly. rewrite forallb_forall in Honly. by apply Honly, list_eqb_spec in Hin.
Qed.

(** A name that is longer than a skipping name is longer by two letters. *)
Lemma not_misread π : In π skipping_names → π `prefix_of` lower n → 
  lower n = π ∧ ws = [] ∨ (S (length π) < length n)%nat.
Proof.
  intros Hin Hpre. unfold misread in Hmis. apply not_true_iff_false in Hmis.
  assert (Hl : (length π ≤ length n)%nat).
  { rewrite <- (length_lower n). by apply prefix_length. }
  destruct (decide (length n = length π)) as [He|].
  { left. assert (E : lower n = π).
    { symmetry. apply prefix_length_eq; [done|]. rewrite length_lower. lia. }
    split; [done|]. destruct (decide (ws = [])) as [|Hw]; [done|]. exfalso. apply Hmis.
    apply existsb_exists. exists π. split; [done|]. apply orb_true_iff. left.
    apply andb_true_iff. split; [by apply list_eqb_spec|]. by rewrite bool_decide_eq_false_2. }
  destruct (decide (length n = S (length π))) as [He|]; [|right; lia].
  exfalso. apply Hmis. apply existsb_exists. exists π. split; [done|]. apply orb_true_iff. right.
  apply andb_true_iff. split; [|by apply Nat.eqb_eq]. apply list_eqb_spec.
  apply prefixb_prefix, prefixb_spec in Hpre. rewrite Hpre at 2. unfold lower. by rewrite <- firstn_map.
Qed.

Lemma sound_cont π o st N :
  check TCont π o 0 st N = true → π `prefix_of` lowered → covers N →
  reads_name (Goto_dc_cont (begin + Z.of_nat o) (hdr_st st h0)).
Proof.
  cbn [check]. unfold reads_name. cbn [goto_label]. destruct st as [[ty l]|].
  - rewrite !andb_true_iff, orb_true_iff, !andb_true_iff, !list_eqb_spec, Nat.eqb_eq.
    intros [[Hnm Ho] [Hd|[Hd Honly]]] Hpre HN.
    + destruct (is_named_spec _ _ _ _ Hnm Hd ltac:(by right) Hpre) as (Hlow & Hsep & -> & Hπ & Hty).
      exists 0. split; [|by left]. rewrite (hdr_st_named _ _ eq_refl Hty), Z.add_0_r.
      replace (begin + Z.of_nat o) with (begin + len n + Z.of_nat 1) by (unfold len; lia).
      apply label_dc_cont_at. revert Hsep. unfold sep. destruct ws; [done|cbn; lia].
    + unfold is_named in Hnm. rewrite !andb_true_iff, Nat.eqb_eq, bool_decide_eq_true in Hnm.
      destruct Hnm as [[Hl Hlet] Hty].
      assert (Hπ : take l π = π) by (rewrite <- (take_drop l π) at 2; by rewrite Hd, app_nil_r).
      rewrite Hπ in *. destruct (prefix_name _ Hpre Hlet) as [Hle Hlow].
      destruct (decide (lower n = π)) as [He|Hne].
      * assert (Hln : l = length n).
        { apply (f_equal length) in He. rewrite length_lower in He. lia. }
        assert (Hty' : hname_type n = ty) by (unfold hname_type; by rewrite He, Hty).
        exists 0. split; [|by left]. rewrite (hdr_st_named _ _ Hln Hty'), Z.add_0_r.
        replace (begin + Z.of_nat o) with (begin + len n + Z.of_nat 0) by (unfold len; lia).
        apply label_dc_cont_at. lia.
      * assert (Hlt : (length π < length n)%nat).
        { destruct (decide (length π = length n)) as [He|]; [|lia]. exfalso. apply Hne. symmetry.
          apply prefix_length_eq; [done|]. rewrite length_lower. lia. }
        rewrite label_dc_cont_other by lia.
        apply (sound_goes_on π o _ N); [done|lia|done..|reflexivity].
  - rewrite !andb_true_iff, Nat.eqb_eq, negb_true_iff.
    intros [[[[Hq Hlet] Ho] Honly] Hcolon] Hpre HN.
    apply existsb_exists in Hq as (q & Hin & <-%list_eqb_spec).
    destruct (prefix_name _ Hpre Hlet) as [Hle Hlow].
    destruct (not_misread π Hin Hlow) as [[He Hw]|Hlt].
    + exfalso. assert (Hs : In (lower n, sep) N).
      { apply HN. rewrite He. destruct Hin as [<-|[<-|[]]]; vm_compute; eauto. }
      apply not_true_iff_false in Hcolon. apply Hcolon, existsb_exists.
      exists (lower n, sep). split; [done|]. apply list_eqb_spec. unfold cand_text. cbn [fst snd].
      rewrite He. unfold sep. by rewrite Hw.
    + rewrite label_dc_cont_other by lia.
      apply (sound_goes_on π o _ N); [done|lia|done..| | |reflexivity].
      * intros He. rewrite <- He, length_lower in Hlt. lia.
      * done.
Qed.

Lemma sound_other π o st N :
  check TOther π o 0 st N = true → π `prefix_of` lowered → covers N →
  reads_name (Goto_other (begin + Z.of_nat o) (hdr_st st h0)).
Proof.
  cbn [check]. rewrite !andb_true_iff, Nat.leb_le. intros [[Hlet Ho] HN] Hpre Hc.
  destruct N; [|done]. destruct (prefix_name _ Hpre Hlet) as [Hle _].
  exists 0. split; [|by left]. cbn [goto_label]. rewrite label_other_at, Z.add_0_r; [|lia|].
  - do 2 f_equal. unfold hname_type.
    destruct (hname_lookup (lower n)) eqn:E; [|by destruct st as [[??]|]].
    exfalso. apply Hc. by rewrite E.
  - by destruct st as [[??]|].
Qed.

(** ** Tests *)

(** What [val] holds: the four characters at the offset [v]. *)
Definition val_at (v : nat) (val : Z) : Prop :=
  ∃ c0 c1 c2 c3 tl, drop v text = c0 :: c1 :: c2 :: c3 :: tl ∧
    LOWER_DWORD val = LOWER_DWORD (word c0 c1 c2 c3).

Lemma read_at o : (o ≤ length n)%nat →
  ∃ w, READ m (begin + Z.of_nat o) = Ok w ∧ val_at o w.
Proof.
  intros Ho. destruct (drop o text) as [|c0 [|c1 [|c2 [|c3 tl]]]] eqn:E.
  1-4: exfalso; apply (f_equal length) in E; rewrite length_drop, !length_app in E;
    cbn [length] in E; lia.
  exists (word c0 c1 c2 c3). split; [|by repeat eexists].
  assert (Hb : bytes_at m (begin + Z.of_nat o) (c0 :: c1 :: c2 :: c3 :: tl)).
  { rewrite <- E. pose proof Hat as H. rewrite <- (take_drop o text) in H. apply bytes_at_app in H as [_ H].
    rewrite length_take_le in H; [done|]. rewrite length_app. lia. }
  destruct Hb as (H0 & H1 & H2 & H3 & _). unfold READ. rewrite H0.
  replace (begin + Z.of_nat o + 2) with (begin + Z.of_nat o + 1 + 1) by lia.
  replace (begin + Z.of_nat o + 3) with (begin + Z.of_nat o + 1 + 1 + 1) by lia.
  rewrite H1, H2, H3. done.
Qed.

Lemma dword_test o val π d :
  val_at o val → π `prefix_of` lowered → (o ≤ length π)%nat →
  0 ≤ d < 2 ^ 32 → forallb (λ a, a <? 128) (bytes4 d) = true →
  LOWER_DWORD val = d ↔ (take o π ++ bytes4 d) `prefix_of` lowered.
Proof.
  intros (c0 & c1 & c2 & c3 & tl & Hd & ->) Hpre Ho Hrange Hb.
  assert (Hok : Forall char_ok [c0; c1; c2; c3]).
  { assert (H : Forall char_ok (drop o text)) by by apply Forall_drop.
    rewrite Hd, !Forall_cons in H. rewrite !Forall_cons, Forall_nil. tauto. }
  assert (Hlow : lowered = take o π ++ map LOWER_BYTE (c0 :: c1 :: c2 :: c3 :: tl)).
  { rewrite <- Hd. rewrite <- skipn_map. destruct Hpre as [k Hk]. rewrite Hk.
    rewrite drop_app_le by done. rewrite app_assoc. by rewrite take_drop. }
  rewrite Hlow.
  assert (E : (take o π ++ bytes4 d) `prefix_of` take o π ++ map LOWER_BYTE (c0 :: c1 :: c2 :: c3 :: tl)
    ↔ bytes4 d `prefix_of` map LOWER_BYTE (c0 :: c1 :: c2 :: c3 :: tl)).
  { split; [apply prefix_app_inv|apply prefix_app]. }
  rewrite E. clear E Hlow Hd.
  assert (Hdec : d = d mod 256 + 256 * (d / 256 mod 256 + 256 * (d / 65536 mod 256 + 256 * (d / 16777216 mod 256)))).
  { rewrite (Z.mod_small (d / 16777216)) by (split; [apply Z.div_pos|apply Z.div_lt_upper_bound]; lia).
    replace (d / 16777216) with (d / 256 / 256 / 256) by (rewrite !Z.div_div by lia; done).
    replace (d / 65536) with (d / 256 / 256) by (rewrite !Z.div_div by lia; done).
    pose proof (Z.div_mod d 256). pose proof (Z.div_mod (d / 256) 256).
    pose proof (Z.div_mod (d / 256 / 256) 256). lia. }
  unfold bytes4 in *. cbn [forallb map] in *.
  rewrite !andb_true_iff, !Z.ltb_lt in Hb. destruct Hb as (H0 & H1 & H2 & H3 & _).
  rewrite Hdec at 1.
  rewrite lower_dword_bytes; [|done|].
  2: { rewrite !Forall_cons, Forall_nil. split_and!; try done; apply Z.mod_pos_bound; lia. }
  split.
  - intros (-> & -> & -> & ->). by eexists.
  - intros [k Hk]. injection Hk as -> -> -> ->. done.
Qed.

Lemma byte_test i π c : text !! i = Some c → i = length π → π `prefix_of` lowered →
  ∀ b, LOWER_BYTE c = b ↔ (π ++ [b]) `prefix_of` lowered.
Proof.
  intros Hc -> Hpre b. split.
  - intros <-. destruct Hpre as [k Hk]. 
    assert (H : lowered !! length π = Some (LOWER_BYTE c)) by (apply lowered_at; eauto).
    rewrite Hk, lookup_app_r, Nat.sub_diag in H by lia. destruct k as [|a k]; [done|].
    injection H as ->. exists k. rewrite Hk. by rewrite <- app_assoc.
  - intros H. assert (H' : lowered !! length π = Some b).
    { eapply prefix_lookup_Some; [|exact H]. by rewrite list_lookup_middle. }
    apply lowered_at in H' as (c' & Hc' & <-). congruence.
Qed.

Lemma check_val_irrelevant t π o v st N :
  match t with TReturn _ | TEnd | TCont | TOther => True | _ => False end →
  check t π o v st N = check t π o 0 st N.
Proof. by destruct t. Qed.

Lemma not_name_byte9 i c : text !! i = Some c → (i ≤ length n)%nat → c ≠ 9 ∧ LOWER_BYTE c ≠ 9.
Proof.
  intros Hc Hi. destruct (text_at _ _ Hc) as [_ Hok]. split.
  - destruct (decide (i = length n)) as [->|].
    + rewrite sep_at in Hc. injection Hc as <-. unfold sep. by destruct ws.
    + destruct (lookup_lt_is_Some_2 n i) as [c' Hc']; [lia|].
      destruct (name_at _ _ Hc') as [Hc1 Hname]. rewrite Hc1 in Hc. injection Hc as ->.
      by intros ->.
  - clear Hc. revert c Hok. unfold char_ok. refine (mem_char_cases _ _).
    refine (bool_decide_unpack _ _). by vm_compute.
Qed.

(** A character that is tested literally: a separator, hence the end of the name. *)
Lemma char_test π c b : text !! length π = Some c → no_sep π = true → π `prefix_of` lowered →
  b = 32 ∨ b = 58 → c = b ↔ (π ++ [b]) `prefix_of` lowered.
Proof.
  intros Hc Hlet Hpre Hb. split.
  - intros ->. apply (byte_test (length π) π b Hc eq_refl Hpre b). by destruct Hb as [-> | ->].
  - intros Hp. destruct (prefix_sep _ _ Hp Hlet ltac:(tauto)) as [Hlow Hsep].
    assert (Hl : length π = length n) by (rewrite <- Hlow; apply length_lower).
    rewrite Hl, sep_at in Hc. congruence.
Qed.

Theorem check_sound t : ∀ π o v st N val,
  check t π o v st N = true → π `prefix_of` lowered → covers N → val_at v val →
  wp (denote m t (begin + Z.of_nat o) val (hdr_st st h0)) reads_name.
Proof.
  induction t as [k| | | |k t IH|t IH|ty l t IH|d c IHc k IHk|i b c IHc k IHk|i b c IHc k IHk];
    intros π o v st N val Hck Hpre HN Hval; cbn [denote].
  - apply (sound_return π o k st N); [by rewrite check_val_irrelevant in Hck|done].
  - apply (sound_end π o st N); [by rewrite check_val_irrelevant in Hck|done].
  - apply (sound_cont π o st N); [by rewrite check_val_irrelevant in Hck|done..].
  - apply (sound_other π o st N); [by rewrite check_val_irrelevant in Hck|done..].
  - unfold p_plus. replace (begin + Z.of_nat o + Z.of_nat k) with (begin + Z.of_nat (o + k)) by lia.
    by eapply IH.
  - cbn [check] in Hck. rewrite !andb_true_iff, Nat.leb_le in Hck. destruct Hck as [[Hlet Ho] Hck].
    destruct (prefix_name _ Hpre Hlet) as [Hle _].
    destruct (read_at o) as (w & Hw & Hval'); [lia|].
    unfold read_val. rewrite Hw. by eapply IH.
  - unfold set_hdr. rewrite set_hdr_st. by eapply IH.
  - cbn [check] in Hck. rewrite !andb_true_iff, !orb_true_iff, !Nat.leb_le, Nat.eqb_eq, negb_true_iff,
      Z.leb_le, Z.ltb_lt in Hck.
    destruct Hck as [[[[[[[[-> Ho] Hlet] Hlen] H0] H32] Hb] Hyes] Hno].
    pose proof (dword_test v val π d Hval Hpre Ho (conj H0 H32) Hb) as Htest.
    unfold if_dword. destruct (Z.eqb_spec (LOWER_DWORD val) d) as [E|E].
    + apply Htest in E. eapply IHc; [|exact E|by apply covers_passed|done].
      destruct Hyes as [Hyes|Hyes]; [|done]. exfalso. apply not_true_iff_false in Hyes.
      apply Hyes, prefixb_prefix. destruct (prefix_weak_total _ _ _ Hpre E) as [|H]; [done|].
      apply prefix_length in H as H'. rewrite length_app in H'. rewrite length_take_le in H' by done.
      cbn [length bytes4] in H'. assert (take v π ++ bytes4 d = π) as ->; [|done].
      apply prefix_length_eq; [done|]. rewrite length_app, length_take_le by done. cbn [length bytes4]. lia.
    + assert (E' : ¬ (take v π ++ bytes4 d) `prefix_of` lowered) by tauto.
      eapply IHk; [|done|by apply covers_failed|done].
      destruct Hno as [Hno|Hno]; [|done]. apply prefixb_prefix in Hno. destruct E'. by etrans.
  - cbn [check] in Hck. rewrite !andb_true_iff, orb_true_iff, Nat.eqb_eq in Hck.
    destruct Hck as [[[Hi Hlet] Hyes] Hno]. destruct (prefix_name _ Hpre Hlet) as [Hle _].
    destruct (lookup_lt_is_Some_2 text (length π)) as [x Hx]; [rewrite length_app; cbn; rewrite length_app; cbn; lia|].
    unfold if_byte. replace (begin + Z.of_nat o + Z.of_nat i) with (begin + Z.of_nat (length π)) by lia.
    destruct (text_at _ _ Hx) as [-> _]. cbn [mbind res_bind].
    pose proof (byte_test _ π x Hx eq_refl Hpre b) as Htest.
    destruct (Z.eqb_spec (LOWER_BYTE x) b) as [E|E].
    + destruct Hyes as [->%Z.eqb_eq|Hyes].
      { destruct (not_name_byte9 _ _ Hx Hle). done. }
      apply Htest in E. eapply IHc; [exact Hyes|exact E|by apply covers_passed|done].
    + eapply IHk; [exact Hno|done|apply covers_failed; [done|tauto]|done].
  - cbn [check] in Hck. rewrite !andb_true_iff, !orb_true_iff, Nat.eqb_eq, !Z.eqb_eq in Hck.
    destruct Hck as [[[[Hi Hlet] Hb] Hyes] Hno]. destruct (prefix_name _ Hpre Hlet) as [Hle _].
    destruct (lookup_lt_is_Some_2 text (length π)) as [x Hx]; [rewrite length_app; cbn; rewrite length_app; cbn; lia|].
    unfold if_char. replace (begin + Z.of_nat o + Z.of_nat i) with (begin + Z.of_nat (length π)) by lia.
    destruct (text_at _ _ Hx) as [-> _]. cbn [mbind res_bind].
    destruct (Z.eqb_spec b 9) as [->|Hb9].
    { destruct (not_name_byte9 _ _ Hx Hle) as [H9 _].
      destruct (Z.eqb_spec x 9) as [|_]; [done|].
      eapply IHk; [exact Hno|done|apply covers_failed; [done|]|done].
      intros Hp. assert (H9' : lowered !! length π = Some 9).
      { eapply prefix_lookup_Some; [|exact Hp]. by rewrite list_lookup_middle. }
      apply lowered_at in H9' as (x' & Hx' & E). rewrite Hx in Hx'. injection Hx' as <-.
      by destruct (not_name_byte9 _ _ Hx Hle). }
    destruct Hyes as [|Hyes]; [done|].
    pose proof (char_test π x b Hx Hlet Hpre ltac:(tauto)) as Htest.
    destruct (Z.eqb_spec x b) as [E|E].
    + apply Htest in E. eapply IHc; [exact Hyes|exact E|by apply covers_passed|done].
    + eapply IHk; [exact Hno|done|apply covers_failed; [done|tauto]|done].
Qed.

Lemma parse_hname2_reads :
  ∃ k, parse_hname2 m begin pend hdr = Ok (after_colon + k, named (hname_type n) hdr) ∧
    (k = 0 ∨ k = 1 ∧ head_is (λ c, c =? SPC) rest ∧ ws = []).
Proof.
  pose proof length_text. pose proof (len_nonneg n). pose proof (len_nonneg ws).
  assert (3 ≤ len rest) by (unfold len; lia).
  unfold parse_hname2. destruct (Z.ltb_spec (pend - begin) 4); [lia|].
  destruct (read_at 0) as (w & Hw & Hval); [lia|]. rewrite Z.add_0_r in Hw. rewrite Hw. cbn [mbind res_bind].
  assert (Hval' : val_at 0 (LOWER_DWORD w)).
  { destruct Hval as (c0 & c1 & c2 & c3 & tl & Hd & E). exists c0, c1, c2, c3, tl. split; [done|].
    rewrite <- E. unfold LOWER_DWORD. by rewrite <- Z.lor_assoc. }
  pose proof (check_sound hname_tree [] 0 0 None all_cands _ hname_tree_checks
    (prefix_nil _) covers_all Hval') as Hwp.
  rewrite hname_tree_denotes, Z.add_0_r in Hwp. cbn [hdr_st] in Hwp. unfold h0 in Hwp.
  apply wp_inv in Hwp as (x & Hx & Hr). rewrite Hx. cbn [mbind res_bind]. exact Hr.
Qed.
End sound.

(** ** The theorem about names *)
Lemma bytes_at_chars m p l : mem_ok m → bytes_at m p l → Forall char_ok l.
Proof.
  intros Hm. revert p. induction l as [|c l IH]; intros p Hat; [done|]. destruct Hat as [Hc Hat].
  constructor; [|by eapply IH]. by eapply rd_char.
Qed.

Lemma bytes_at_size m p l : mem_ok m → bytes_at m p l → len l < 2 ^ 31.
Proof.
  intros Hm Hat. destruct l as [|c l]; [done|].
  pose proof (bytes_at_range _ _ _ Hat ltac:(done)). pose proof (mem_size _ Hm). unfold len. lia.
Qed.

Lemma parse_hname2_at {P} m begin n ws rest (hdr : hdr_field P) :
  mem_ok m → bytes_at m begin (n ++ ws ++ 58 :: rest) →
  forallb name_char n = true → spaces ws → head_is (λ c, c =? SPC) ws →
  (3 ≤ length rest)%nat → head_is (λ c, negb (c =? NUL)) rest → misread n ws = false →
  ∃ k, parse_hname2 m begin (begin + len (n ++ ws ++ 58 :: rest)) hdr =
         Ok (begin + len n + len ws + 1 + k,
             set_name (Str begin (len n)) (set_type (hname_type n) hdr)) ∧
       (k = 0 ∨ k = 1 ∧ head_is (λ c, c =? SPC) rest ∧ ws = []).
Proof.
  intros Hm Hat Hn Hws Hhd Hrest Hnul Hmis.
  apply parse_hname2_reads; try done.
  - by eapply bytes_at_chars.
  - by eapply bytes_at_size.
Qed.

(** C13: [parse_hname2] is a case insensitive search in the table of names
    ([hname_table], compact forms included): for every name of visible
    characters, followed by a colon, or by blanks that begin with a space and a
    colon, it stores the type of the table ([HDR_OTHER_T] for the other names)
    and the name, and returns the position after the colon, or after the space
    that follows it.  Excepted are the two names that [misread] describes. *)
Theorem parse_hname2_name {P} m begin n ws rest (hdr : hdr_field P) :
  mem_ok m → bytes_at m begin (n ++ ws ++ 58 :: rest) →
  forallb name_char n = true → spaces ws → head_is (λ c, c =? SPC) ws →
  (3 ≤ length rest)%nat → head_is (λ c, negb (c =? NUL)) rest → misread n ws = false →
  ∃ k, parse_hname2 m begin (begin + len (n ++ ws ++ 58 :: rest)) hdr =
         Ok (begin + len n + len ws + 1 + k,
             set_name (Str begin (len n)) (set_type (hname_type n) hdr)) ∧
       (k = 0 ∨ k = 1 ∧ head_is (λ c, c =? SPC) rest ∧ ws = []).
Proof. apply parse_hname2_at. Qed.

Lemma parse_hname2_name_witness : ∃ k : Z,
  parse_hname2 (block (chars "CALL-id  : a" ++ crlf)) 4096 4110
      (HdrField HDR_ERROR_T null_str null_str 0 (@None unit) None None) =
    Ok (4106 + k, HdrField HDR_CALLID_T (Str 4096 7) null_str 0 None None None) ∧
  (k = 0 ∨ k = 1 ∧ head_is (λ c, c =? SPC) (chars " a" ++ crlf) ∧ chars "  " = []).
Proof.
  refine (parse_hname2_name (block (chars "CALL-id  : a" ++ crlf)) 4096 (chars "CALL-id") (chars "  ")
    (chars " a" ++ crlf) (HdrField HDR_ERROR_T null_str null_str 0 (@None unit) None None) _ _ _ _ _ _ _ _).
  - by apply mem_okb_ok.
  - apply block_bytes.
  - done.
  - by repeat constructor.
  - done.
  - cbn. lia.
  - done.
  - done.
Defined.

(** ** What is read and returned on every input *)
Section bounded.
Context {P : Type}.

(** A type that a header in a message can have. *)
Definition regular (t : hdr_types_t) : bool :=
  negb (bool_decide (t = HDR_EOH_T)) && negb (bool_decide (t = HDR_VIA2_T)).

(** The macros read at most 24 characters, and set types of headers and names that
    they have read; what is returned at once lies behind the name. *)
Fixpoint bounded (t : tree) (o : nat) (st : option nat) : bool :=
  match t with
  | TReturn n => (o + n <=? 24)%nat && (0 <? o + n)%nat && match st with Some l => (l <=? o + n)%nat | None => false end
  | TEnd => (o <=? 24)%nat && match st with Some l => (l <=? o)%nat | None => false end
  | TCont => (o <=? 24)%nat && match st with Some l => (l <=? o)%nat | None => true end
  | TOther => (o <=? 24)%nat
  | TPlus n t => bounded t (o + n) st
  | TRead t => (o + 4 <=? 24)%nat && bounded t o st
  | TSet ty n t => regular ty && bounded t o (Some n)
  | TDword _ c k => bounded c o st && bounded k o st
  | TByte i _ c k | TChar i _ c k => (o + i <? 24)%nat && bounded c o st && bounded k o st
  end.

Lemma hname_tree_bounded : bounded hname_tree 0 None = true.
Proof. by vm_compute. Qed.

Context (m : mem) (begin pend : Z).
Context (Hbase : mbase m ≤ begin) (Hlen : begin + 4 ≤ pend) (Hlim : pend + 20 ≤ mlim m).
Context (Hsize : pend - begin < 2 ^ 31).

Context (h0 : hdr_field P).

(** Only the type and the name are changed. *)
Definition kept (h : hdr_field P) : Prop :=
  hdr_body h = hdr_body h0 ∧ hdr_parsed h = hdr_parsed h0 ∧ hdr_next h = hdr_next h0 ∧
  hdr_sibling h = hdr_sibling h0.

(** The name of a header field that has a type. *)
Definition named_in (r : Z) (h : hdr_field P) : Prop :=
  kept h ∧
  (hdr_type h = HDR_ERROR_T ∨
   regular (hdr_type h) = true ∧
   str_s (hdr_name h) = begin ∧ 0 ≤ str_len (hdr_name h) ≤ r - begin ∧ begin ≤ r ≤ pend + 20).

(** A name that is followed by something. *)
Definition named_before (r : Z) (h : hdr_field P) : Prop :=
  named_in r h ∧ (hdr_type h = HDR_ERROR_T ∨ begin < r).

Definition st_ok (st : option nat) (h : hdr_field P) : Prop :=
  str_s (hdr_name h) = begin ∧ kept h ∧ regular (hdr_type h) = true ∧
  match st with
  | Some l => str_len (hdr_name h) = Z.of_nat l
  | None => hdr_type h = HDR_ERROR_T
  end.

Lemma label_error_named p h : kept h → named_before p (label_error h).2.
Proof. intros Hk. split; [split; [done|by left]|by left]. Qed.

Lemma expect_colon_safe p h : named_in p h → begin ≤ p ≤ pend →
  wp (expect_colon m p h) (λ '(r, h), named_before r h).
Proof.
  intros [Hk Hh] Hp. unfold expect_colon. wp_step. wp_step. wp_step.
  destruct (_ =? _); [|split; [split; [done|by left]|by left]].
  destruct Hh as [Hh|Hh]; [split; [split; [done|by left]|by left]|].
  split; [|right; lia]. split; [done|]. right. destruct Hh as (Hr & Hh). split; [done|lia].
Qed.

Lemma skip_ws_safe p : begin ≤ p ≤ pend → wp (skip_ws m p pend) (λ q, p ≤ q ≤ pend).
Proof.
  intros Hp. eapply wp_mono; [apply scan_spec; lia|]. intros q [Hge Hle _ _]. lia.
Qed.

Lemma named_in_mono p q h : named_in p h → p ≤ q ≤ pend + 20 → named_in q h.
Proof.
  intros [Hk [Hh|(Hr & Hh)]] Hq; (split; [done|]); [by left|right]. split; [done|lia].
Qed.

Lemma label_other_safe p h : begin ≤ p → str_s (hdr_name h) = begin → kept h →
  wp (label_other m pend p h) (λ '(r, h), named_before r h).
Proof.
  intros Hp Hs Hk. unfold label_other. wp_step.
  eapply wp_mono; [apply scan_spec; lia|]. intros q [Hge Hle _ _].
  destruct (Z.ltb_spec q pend) as [Hlt|]; [|by apply label_error_named].
  wp_step. wp_step. cbn [hdr_name set_type]. rewrite Hs, to_int_small by lia.
  destruct (_ =? _).
  - wp_step. split; [|right; lia]. split; [done|]. right. split; [done|]. cbn. lia.
  - wp_step. eapply wp_mono; [apply skip_ws_safe; lia|]. cbn beta. intros q' Hq'.
    apply expect_colon_safe; [|lia]. split; [done|]. right. split; [done|]. cbn. lia.
Qed.

Lemma label_dc_end_safe p h : begin ≤ p → named_in p h →
  wp (label_dc_end m pend p h) (λ '(r, h), named_before r h).
Proof.
  intros Hp Hh. unfold label_dc_end.
  destruct (Z.leb_spec pend p); [apply label_error_named, Hh|].
  wp_step. eapply wp_mono; [apply skip_ws_safe; lia|]. cbn beta. intros q Hq.
  apply expect_colon_safe; [|lia]. eapply named_in_mono; [done|lia].
Qed.

Lemma label_dc_cont_safe p h : begin ≤ p → named_in p h → str_s (hdr_name h) = begin →
  wp (label_dc_cont m pend p h) (λ '(r, h), named_before r h).
Proof.
  intros Hp Hh Hs. unfold label_dc_cont.
  destruct (Z.leb_spec pend p); [apply label_error_named, Hh|].
  wp_step. wp_step. destruct (_ =? _).
  { wp_step. split; [eapply named_in_mono; [done|lia]|right; lia]. }
  destruct (is_sp _); [|apply label_other_safe; [done|done|apply Hh]].
  wp_step. eapply wp_mono; [apply skip_ws_safe; lia|]. cbn beta. intros q Hq.
  apply expect_colon_safe; [|lia]. eapply named_in_mono; [done|lia].
Qed.

Lemma bounded_safe t : ∀ o st val h, bounded t o st = true → st_ok st h →
  wp (x ← denote m t (begin + Z.of_nat o) val h; goto_label m pend x) (λ '(r, h), named_before r h).
Proof.
  induction t as [k| | | |k t IH|t IH|ty l t IH|d c IHc k IHk|i b c IHc k IHk|i b c IHc k IHk];
    intros o st val h Hb Hst; cbn [denote bounded] in *; rewrite ?andb_true_iff, ?Nat.leb_le, ?Nat.ltb_lt in Hb.
  - destruct st as [l|]; [|by destruct Hb]. rewrite Nat.leb_le in Hb. destruct Hst as (Hs & Hk & Hr & Hl).
    cbn. split; [|right; lia]. split; [done|]. right. split; [done|lia].
  - destruct st as [l|]; [|by destruct Hb]. rewrite Nat.leb_le in Hb. destruct Hst as (Hs & Hk & Hr & Hl).
    cbn. apply label_dc_end_safe; [lia|]. split; [done|]. right. split; [done|lia].
  - destruct Hst as (Hs & Hk & Hr & Hl). cbn. apply label_dc_cont_safe; [lia| |done].
    split; [done|]. destruct st as [l|]; [|by left]. rewrite Nat.leb_le in Hb. right. split; [done|lia].
  - destruct Hst as (Hs & Hk & Hr & Hl). cbn. apply label_other_safe; [lia|done|done].
  - unfold p_plus. replace (begin + Z.of_nat o + Z.of_nat k) with (begin + Z.of_nat (o + k)) by lia.
    by eapply IH.
  - unfold read_val, READ. destruct Hb as [Ho Hb].
    destruct (rd_valid m (begin + Z.of_nat o)) as [c0 ->]; [lia|].
    destruct (rd_valid m (begin + Z.of_nat o + 1)) as [c1 ->]; [lia|].
    destruct (rd_valid m (begin + Z.of_nat o + 2)) as [c2 ->]; [lia|].
    destruct (rd_valid m (begin + Z.of_nat o + 3)) as [c3 ->]; [lia|].
    by eapply IH.
  - unfold set_hdr. destruct Hb as [Hty Hb]. eapply IH; [done|]. by destruct Hst as (Hs & Hk & Hr & Hl).
  - unfold if_dword. destruct Hb as [Hc Hk]. destruct (_ =? _); [by eapply IHc|by eapply IHk].
  - unfold if_byte. destruct Hb as [[Hi Hc] Hk].
    destruct (rd_valid m (begin + Z.of_nat o + Z.of_nat i)) as [x ->]; [lia|]. cbn [mbind res_bind].
    destruct (_ =? _); [by eapply IHc|by eapply IHk].
  - unfold if_char. destruct Hb as [[Hi Hc] Hk].
    destruct (rd_valid m (begin + Z.of_nat o + Z.of_nat i)) as [x ->]; [lia|]. cbn [mbind res_bind].
    destruct (_ =? _); [by eapply IHc|by eapply IHk].
Qed.
End bounded.

Lemma parse_hname2_wp {P} m begin pend (hdr : hdr_field P) :
  mem_ok m → mbase m ≤ begin → begin ≤ pend → pend + 20 ≤ mlim m → hdr_type hdr = HDR_ERROR_T →
  wp (parse_hname2 m begin pend hdr) (λ '(r, h), named_before begin pend hdr r h).
Proof.
  intros Hm Hb Hle Hlim Hty. pose proof (mem_base _ Hm). pose proof (mem_size _ Hm).
  unfold parse_hname2. destruct (Z.ltb_spec (pend - begin) 4) as [|H4].
  { apply wp_ret. split; [split; [done|by left]|by left]. }
  unfold READ.
  destruct (rd_valid m begin) as [c0 ->]; [lia|]. destruct (rd_valid m (begin + 1)) as [c1 ->]; [lia|].
  destruct (rd_valid m (begin + 2)) as [c2 ->]; [lia|]. destruct (rd_valid m (begin + 3)) as [c3 ->]; [lia|].
  cbn [mbind res_bind mret res_ret].
  assert (Hst : st_ok begin hdr None (set_name (Str begin (str_len (hdr_name hdr))) hdr)).
  { split_and!; try done. cbn. by rewrite Hty. }
  pose proof (bounded_safe m begin pend Hb ltac:(lia) ltac:(lia) ltac:(lia) hdr hname_tree 0 None
    (LOWER_DWORD (word c0 c1 c2 c3)) _ hname_tree_bounded Hst) as H'.
  rewrite hname_tree_denotes, Z.add_0_r in H'. exact H'.
Qed.

(** C14: on every input [parse_hname2] terminates, reads at most 20 characters
    beyond the end that it was given, and either reports an error or a name that
    begins where it was told to. *)
Theorem parse_hname2_safe {P} m begin pend (hdr : hdr_field P) :
  mem_ok m → mbase m ≤ begin → begin ≤ pend → pend + 20 ≤ mlim m → hdr_type hdr = HDR_ERROR_T →
  wp (parse_hname2 m begin pend hdr) (λ '(r, h),
    hdr_type h = HDR_ERROR_T ∨
    str_s (hdr_name h) = begin ∧ 0 ≤ str_len (hdr_name h) ≤ r - begin ∧ begin ≤ r ≤ pend + 20).
Proof.
  intros Hm Hb Hle Hlim Hty. eapply wp_mono; [by apply parse_hname2_wp|].
  intros [r h] [[_ [Hh|(_ & Hh)]] _]; [by left|by right].
Qed.

Lemma parse_hname2_safe_witness :
  wp (parse_hname2 (block (chars "P-As" ++ repeat 0 20)) 4096 4100
    (HdrField HDR_ERROR_T null_str null_str 0 (@None unit) None None)) (λ '(r, h),
    hdr_type h = HDR_ERROR_T ∨
    str_s (hdr_name h) = 4096 ∧ 0 ≤ str_len (hdr_name h) ≤ r - 4096 ∧ 4096 ≤ r ≤ 4100 + 20).
Proof.
  apply parse_hname2_safe; [by apply mem_okb_ok|by vm_compute..].
Defined.

(** ** What the tree gets wrong *)

(** The type of the header field that a text begins with; [None] when memory
    behind the text is read. *)
Definition type_of (text : list Z) : option hdr_types_t :=
  match parse_hname2 (block text) 4096 (4096 + len text)
          (HdrField HDR_ERROR_T null_str null_str 0 (@None unit) None None) with
  | Ok (_, h) => Some (hdr_type h)
  | _ => None
  end.

(** With a blank, or with one more character, before the colon these two names get
    no type at all: the header field is an error. *)
Lemma feature_caps_blank :
  type_of (chars "Feature-Caps: a" ++ crlf) = Some HDR_FEATURE_CAPS_T ∧
  type_of (chars "Feature-Caps : a" ++ crlf) = Some HDR_ERROR_T ∧
  type_of (chars "Replacesx: a" ++ crlf) = Some HDR_ERROR_T.
Proof. by vm_compute. Qed.

(** [_pt_d_] is not ["pt-d"]. *)
Lemma accept_disposition_unknown :
  type_of (chars "Accept-Disposition: a" ++ crlf) = Some HDR_OTHER_T ∧
  type_of (chars "Acceptadisposition: a" ++ crlf) = Some HDR_ACCEPTDISPOSITION_T.
Proof. by vm_compute. Qed.

(** A tab before the colon: names that are compared with the separator, and the
    compact form of To, whose [case '\t'] is after a bit that no tab has. *)
Lemma tab_before_colon :
  type_of (chars "Via" ++ TAB :: chars ": a" ++ crlf) = Some HDR_OTHER_T ∧
  type_of (chars "From" ++ TAB :: chars ": a" ++ crlf) = Some HDR_FROM_T ∧
  type_of (chars "t" ++ TAB :: chars ": a" ++ crlf) = Some HDR_OTHER_T ∧
  type_of (chars "f" ++ TAB :: chars ": a" ++ crlf) = Some HDR_FROM_T.
Proof. by vm_compute. Qed.

(** The bit that makes letters lower case makes a zero a blank and a carriage
    return a hyphen. *)
Lemma lower_byte_of_controls :
  type_of (chars "Via" ++ NUL :: chars " : a" ++ crlf) = Some HDR_VIA_T ∧
  type_of (chars "Refer" ++ CR :: chars "To: a" ++ crlf) = Some HDR_REFER_TO_T.
Proof. by vm_compute. Qed.

(** Double words are read beyond the end. *)
Lemma hname_overrun : type_of (chars "p-as") = None ∧ type_of (chars "from") = Some HDR_ERROR_T.
Proof. by vm_compute. Qed.
