(* ===== verification/Digest.v ===== *)
(** * Digest credentials (digest/param_parser.c, digest_keys.h, digest_parser.c, digest.c)

    The macros of the parser of parameter names are one definition each, with the code
    that they fall through to as an argument. *)

From stdpp Require Import strings.
From S2P Require HName.
From S2P Require Export Param.
From S2P Require HNameTree.
From S2P Require Export ParamGrammar.

(** ** Data *)
Inductive dig_par :=
| PAR_USERNAME | PAR_REALM | PAR_NONCE | PAR_URI | PAR_RESPONSE | PAR_CNONCE | PAR_OPAQUE | PAR_QOP | PAR_NC
| PAR_ALGORITHM | PAR_OTHER.

#[export] Instance dig_par_eq_dec : EqDecision dig_par.
Proof. solve_decision. Defined.

Inductive alg := ALG_UNSPEC | ALG_MD5 | ALG_MD5SESS | ALG_OTHER.
Inductive qop_type := QOP_UNSPEC_D | QOP_AUTH_D | QOP_AUTHINT_D | QOP_OTHER_D.

Record username := MkUsername { whole : str; user : str; domain : str }.

Record dig_cred := MkCred {
  d_username : username; d_realm : str; d_nonce : str; d_uri : str; d_response : str;
  alg_str : str; alg_parsed : alg; d_cnonce : str; d_opaque : str; qop_str : str; qop_parsed : qop_type; d_nc : str }.

Definition init_dig_cred : dig_cred :=
  MkCred (MkUsername null_str null_str null_str) null_str null_str null_str null_str null_str ALG_UNSPEC null_str null_str
    null_str QOP_UNSPEC_D null_str.

Definition set_username (u : username) (c : dig_cred) : dig_cred :=
  MkCred u (d_realm c) (d_nonce c) (d_uri c) (d_response c) (alg_str c) (alg_parsed c) (d_cnonce c) (d_opaque c)
    (qop_str c) (qop_parsed c) (d_nc c).
Definition set_alg (x : str) (a : alg) (c : dig_cred) : dig_cred :=
  MkCred (d_username c) (d_realm c) (d_nonce c) (d_uri c) (d_response c) x a (d_cnonce c) (d_opaque c)
    (qop_str c) (qop_parsed c) (d_nc c).
Definition set_qop (x : str) (q : qop_type) (c : dig_cred) : dig_cred :=
  MkCred (d_username c) (d_realm c) (d_nonce c) (d_uri c) (d_response c) (alg_str c) (alg_parsed c) (d_cnonce c)
    (d_opaque c) x q (d_nc c).

(** [*ptr = x], for the attribute of a type; [dummy] for the other ones. *)
Definition set_value (t : dig_par) (x : str) (c : dig_cred) : dig_cred :=
  let 'MkCred u realm nonce uri response a ap cnonce opaque q qp nc := c in
  match t with
  | PAR_USERNAME => MkCred (MkUsername x (user u) (domain u)) realm nonce uri response a ap cnonce opaque q qp nc
  | PAR_REALM => MkCred u x nonce uri response a ap cnonce opaque q qp nc
  | PAR_NONCE => MkCred u realm x uri response a ap cnonce opaque q qp nc
  | PAR_URI => MkCred u realm nonce x response a ap cnonce opaque q qp nc
  | PAR_RESPONSE => MkCred u realm nonce uri x a ap cnonce opaque q qp nc
  | PAR_CNONCE => MkCred u realm nonce uri response a ap x opaque q qp nc
  | PAR_OPAQUE => MkCred u realm nonce uri response a ap cnonce x q qp nc
  | PAR_QOP => MkCred u realm nonce uri response a ap cnonce opaque x qp nc
  | PAR_NC => MkCred u realm nonce uri response a ap cnonce opaque q qp x
  | PAR_ALGORITHM => MkCred u realm nonce uri response x ap cnonce opaque q qp nc
  | PAR_OTHER => c
  end.

(** [*ptr], where it can be seen. *)
Definition value_of (t : dig_par) (c : dig_cred) : str :=
  match t with
  | PAR_USERNAME => whole (d_username c)
  | PAR_REALM => d_realm c
  | PAR_NONCE => d_nonce c
  | PAR_URI => d_uri c
  | PAR_RESPONSE => d_response c
  | PAR_CNONCE => d_cnonce c
  | PAR_OPAQUE => d_opaque c
  | PAR_QOP => qop_str c
  | PAR_NC => d_nc c
  | PAR_ALGORITHM => alg_str c
  | PAR_OTHER => null_str
  end.

(** ** digest_keys.h *)
Definition _user_ : Z := 0x72657375.
Definition _name_ : Z := 0x656d616e.
Definition _real_ : Z := 0x6c616572.
Definition _nonc_ : Z := 0x636e6f6e.
Definition _resp_ : Z := 0x70736572.
Definition _onse_ : Z := 0x65736e6f.
Definition _cnon_ : Z := 0x6e6f6e63.
Definition _opaq_ : Z := 0x7161706f.
Definition _algo_ : Z := 0x6f676c61.
Definition _rith_ : Z := 0x68746972.

Section parse.
Context (m : mem).

(** ** Names of parameters *)

(** How the macros end: [goto end] with a type, or [goto other], and [p]. *)
Inductive pname := Goto_end (t : dig_par) (p : Z) | Goto_other (p : Z).

Abbreviation LOWER_BYTE := HName.LOWER_BYTE.
Abbreviation LOWER_DWORD := HName.LOWER_DWORD.

(** [val] is an [int]. *)
Definition READ (p : Z) : res Z := v ← HName.READ m p; mret (to_int v).

Definition name_CASE (p val : Z) (next : Z → res pname) : res pname :=
if LOWER_DWORD val =? _name_ then mret (Goto_end PAR_USERNAME (p + 4)) else next p.

Definition goto_other (p : Z) : res pname := mret (Goto_other p).

Definition user_CASE (p : Z) : res pname := val ← READ (p + 4); name_CASE (p + 4) val goto_other.

(** These two go on with the case below them. *)
Definition real_CASE (p : Z) (next : Z → res pname) : res pname :=
c ← rd m (p + 4);
if LOWER_BYTE c =? ch "m" then mret (Goto_end PAR_REALM (p + 5)) else next (p + 4).

Definition nonc_CASE (p : Z) (next : Z → res pname) : res pname :=
c ← rd m (p + 4);
if LOWER_BYTE c =? ch "e" then mret (Goto_end PAR_NONCE (p + 5)) else next (p + 4).

Definition onse_CASE (p val : Z) (next : Z → res pname) : res pname :=
if LOWER_DWORD val =? _onse_ then mret (Goto_end PAR_RESPONSE (p + 4)) else next p.

Definition resp_CASE (p : Z) : res pname := val ← READ (p + 4); onse_CASE (p + 4) val goto_other.

Definition two_CASE (p : Z) (a b : Z) (t : dig_par) : res pname :=
c ← rd m (p + 4);
if LOWER_BYTE c =? a then
  d ← rd m (p + 5);
  if LOWER_BYTE d =? b then mret (Goto_end t (p + 6)) else goto_other (p + 5)
else goto_other (p + 4).

Definition cnon_CASE (p : Z) : res pname := two_CASE p (ch "c") (ch "e") PAR_CNONCE.
Definition opaq_CASE (p : Z) : res pname := two_CASE p (ch "u") (ch "e") PAR_OPAQUE.

Definition rith_CASE (p val : Z) (next : Z → res pname) : res pname :=
if LOWER_DWORD val =? _rith_ then
  c ← rd m (p + 4);
  if LOWER_BYTE c =? ch "m" then mret (Goto_end PAR_ALGORITHM (p + 5)) else goto_other (p + 4)
else next p.

Definition algo_CASE (p : Z) : res pname := val ← READ (p + 4); rith_CASE (p + 4) val goto_other.

Definition PARSE_SHORT (p : Z) (next : Z → res pname) : res pname :=
c ← rd m p;
if LOWER_BYTE c =? ch "u" then
  d ← rd m (p + 1);
  if LOWER_BYTE d =? ch "r" then
    e ← rd m (p + 2);
    if LOWER_BYTE e =? ch "i" then mret (Goto_end PAR_URI (p + 3)) else next p
  else next p
else if LOWER_BYTE c =? ch "q" then
  d ← rd m (p + 1);
  if LOWER_BYTE d =? ch "o" then
    e ← rd m (p + 2);
    if LOWER_BYTE e =? ch "p" then mret (Goto_end PAR_QOP (p + 3)) else next p
  else next p
else if LOWER_BYTE c =? ch "n" then
  d ← rd m (p + 1);
  if LOWER_BYTE d =? ch "c" then mret (Goto_end PAR_NC (p + 2)) else next p
else next p.

(** [switch(LOWER_DWORD(val))] with [FIRST_QUATERNIONS]. *)
Definition name_switch (p val : Z) : res pname :=
let v := LOWER_DWORD val in
if v =? _user_ then user_CASE p
else if v =? _real_ then real_CASE p (λ p, nonc_CASE p resp_CASE)
else if v =? _nonc_ then nonc_CASE p resp_CASE
else if v =? _resp_ then resp_CASE p
else if v =? _cnon_ then cnon_CASE p
else if v =? _opaq_ then opaq_CASE p
else if v =? _algo_ then algo_CASE p
else PARSE_SHORT p goto_other.

(** [other:], with the end of the text at [end_]; [None] is -1. *)
Definition other_name (end_ p : Z) (s : str) : res (option (str * dig_par)) :=
q ← q_memchr m p (ch "=") (to_uint (end_ - p));
match q with
| None => mret None
| Some q => mret (Some (Str q (str_len s - (q - str_s s)), PAR_OTHER))
end.

Definition parse_param_name (s : str) : res (option (str * dig_par)) :=
let end_ := str_s s + str_len s in
let p := str_s s in
val ← READ p;
r ← (if str_len s <? 4 then goto_other p else name_switch p val);
match r with
| Goto_other p => other_name end_ p s
| Goto_end t p =>
    s ← trim_leading m (Str p (str_len s - (p - str_s s)));
    c ← rd m (str_s s);
    if c =? ch "=" then mret (Some (s, t)) else other_name end_ p s
end.

(** ** Parameters *)
Definition parse_quoted (s : str) : res (option (str * str)) := parse_quoted_param m s.

Definition parse_token (s : str) : res (option (str * str)) :=
q ← scan (λ c, is_ws c || (c =? ch ",")) m (str_s s) (str_s s + str_len s);
let i := q - str_s s in
if i =? 0 then mret None else mret (Some (Str (str_s s + i) (str_len s - i), Str (str_s s) i)).

(** The text behind the parameter, [None] for an error, and the credentials; the
  address of a token is stored before its length is known. *)
Definition parse_digest_param (s : str) (c : dig_cred) : res (option str * dig_cred) :=
r ← parse_param_name s;
match r with
| None => mret (None, c)
| Some (s, t) =>
    s ← trim_leading m (Str (str_s s + 1) (str_len s - 1));
    if str_len s =? 0 then mret (None, c) else
    a ← rd m (str_s s);
    v ← (if a =? DQUOTE then parse_quoted s else parse_token s);
    match v with
    | None => mret (None, if a =? DQUOTE then c else set_value t (Str (str_s s) (str_len (value_of t c))) c)
    | Some (s, x) => mret (Some s, set_value t x c)
    end
end.

Definition is_text (x : str) (lit : string) : res bool :=
if str_len x =? len (chars lit) then strncasecmp_lit m (str_s x) (chars lit) else mret false.

Definition parse_qop (x : str) : res qop_type :=
s ← trim m x;
b ← is_text s "auth";
if b : bool then mret QOP_AUTH_D else
b ← is_text s "auth-int";
mret (if b : bool then QOP_AUTHINT_D else QOP_OTHER_D).

Definition parse_algorithm (x : str) : res alg :=
s ← trim m x;
b ← is_text s "MD5";
if b : bool then mret ALG_MD5 else
b ← is_text s "MD5-sess";
mret (if b : bool then ALG_MD5SESS else ALG_OTHER).

Definition parse_username (u : username) : res username :=
let w := whole u in
if str_len w <=? 2 then mret (MkUsername w w (domain u)) else
d ← q_memchr m (str_s w) (ch "@") (to_uint (str_len w));
match d with
| Some d => mret (MkUsername w (slice (str_s w) d) (Str (d + 1) (str_len w - (d - str_s w) - 1)))
| None => mret (MkUsername w w (domain u))
end.

(** One round of [do ... while(comma)]. *)
Definition digest_round (x : str * dig_cred) : res (str * dig_cred + bool * dig_cred) :=
let '(s, c) := x in
'(o, c) ← parse_digest_param s c;
match o with
| None => mret (inr (false, c))
| Some s =>
    comma ← q_memchr m (str_s s) (ch ",") (to_uint (str_len s));
    match comma with
    | Some q => s ← trim_leading m (Str (q + 1) (str_len s - (q - str_s s + 1))); mret (inl (s, c))
    | None => mret (inr (true, c))
    end
end.

(** What is done with the values when all of them are read. *)
Definition parse_values (c : dig_cred) : res dig_cred :=
q ← (if 0 <? str_len (qop_str c) then parse_qop (qop_str c) else mret (qop_parsed c));
a ← (if 0 <? str_len (alg_str c) then parse_algorithm (alg_str c) else mret (alg_parsed c));
u ← (if 0 <? str_len (whole (d_username c)) then parse_username (d_username c) else mret (d_username c));
mret (set_username u (set_alg (alg_str c) a (set_qop (qop_str c) q c))).

(** Whether the parameters could be read, and the credentials. *)
Definition parse_digest_params (s : str) (c : dig_cred) : res (bool * dig_cred) :=
'(ok, c) ← loop digest_round (S (S (Z.to_nat (mlim m - str_s s)))) (s, c);
if ok : bool then c ← parse_values c; mret (true, c) else mret (false, c).

Definition DIG_LEN : Z := 6.

(** The return value, and the credentials: after an error they hold what was read
  before it. *)
Definition parse_digest_cred (s : str) (c : dig_cred) : res (Z * dig_cred) :=
tmp ← trim_leading m s;
if str_len tmp <? DIG_LEN + 1 then mret (1, c) else
b ← strncasecmp_lit m (str_s tmp) (chars "digest");
if negb b then mret (1, c) else
a ← rd m (str_s tmp + DIG_LEN);
if is_ws a || (a =? ch ",") then
  tmp ← trim_leading m (Str (str_s tmp + (DIG_LEN + 1)) (str_len tmp - (DIG_LEN + 1)));
  '(ok, c) ← parse_digest_params tmp c;
  mret (if ok : bool then 0 else -2, c)
else mret (1, c).

(** ** digest.c; a header field is a number *)
Record auth_body := MkAuth { authorized : option nat; digest : dig_cred; stale : bool }.

(** [None]: the allocation failed. *)
Definition new_credentials (malloc : bool) : option auth_body :=
if malloc then Some (MkAuth None init_dig_cred false) else None.

(** The return value and [parsed]. *)
Definition parse_credentials (malloc : bool) (body : str) (parsed : option auth_body) : res (Z * option auth_body) :=
match parsed with
| Some _ => mret (0, parsed)
| None =>
    match new_credentials malloc with
    | None => mret (-1, None)
    | Some b =>
        r ← parse_digest_cred body (digest b);
        let '(rc, c) := r in
        mret (rc, if negb (rc =? 0) then None else Some (MkAuth (authorized b) c (stale b)))
    end
end.
End parse.

Definition E_DIG_USERNAME : Z := 1.
Definition E_DIG_REALM : Z := 2.
Definition E_DIG_NONCE : Z := 4.
Definition E_DIG_URI : Z := 8.
Definition E_DIG_RESPONSE : Z := 16.
Definition E_DIG_CNONCE : Z := 32.
Definition E_DIG_NC : Z := 64.

(** [if (x.s == 0) res |= e;]. *)
Definition missing (x : str) (e res : Z) : Z := if str_s x =? 0 then Z.lor res e else res.

Definition check_dig_cred (c : dig_cred) : Z :=
  let res := missing (user (d_username c)) E_DIG_USERNAME 0 in
  let res := missing (d_realm c) E_DIG_REALM res in
  let res := missing (d_nonce c) E_DIG_NONCE res in
  let res := missing (d_uri c) E_DIG_URI res in
  let res := missing (d_response c) E_DIG_RESPONSE res in
  match qop_parsed c with
  | QOP_AUTH_D | QOP_AUTHINT_D => missing (d_nc c) E_DIG_NC (missing (d_cnonce c) E_DIG_CNONCE res)
  | _ => res
  end.

(** [f] is what the first Authorization or Proxy-Authorization field, by the type of
    [_h], was parsed into; [None] is -1. *)
Definition mark_authorized_cred (malloc : bool) (type : HName.hdr_types_t) (h : nat) (f : option auth_body) :
  option (option auth_body) :=
  match type with
  | HName.HDR_AUTHORIZATION_T | HName.HDR_PROXYAUTH_T =>
      match (match f with Some b => Some b | None => new_credentials malloc end) with
      | None => None
      | Some b => Some (Some (MkAuth (Some h) (digest b) (stale b)))
      end
  | _ => None
  end.

(** [*_h]. *)
Definition get_authorized_cred (f : option (option auth_body)) : option nat :=
  match f with Some (Some b) => authorized b | _ => None end.

(** GET_REALM *)
Definition GET_REALM (c : dig_cred) : str :=
  if negb (str_len (domain (d_username c)) =? 0) && negb (str_s (domain (d_username c)) =? 0)
  then domain (d_username c) else d_realm c.

(** ** Digest credentials: well-formed credentials are parsed into their values *)

Abbreviation char_ok := HNameTree.char_ok.

(** ** The table of the names *)
Definition digest_names : list (string * dig_par) :=
  [("username", PAR_USERNAME); ("realm", PAR_REALM); ("nonce", PAR_NONCE); ("uri", PAR_URI); ("response", PAR_RESPONSE);
   ("cnonce", PAR_CNONCE); ("opaque", PAR_OPAQUE); ("qop", PAR_QOP); ("nc", PAR_NC); ("algorithm", PAR_ALGORITHM)]%string.

Fixpoint dig_lookup (tbl : list (string * dig_par)) (n : list Z) : dig_par :=
  match tbl with [] => PAR_OTHER | (w, t) :: tbl => if list_eqb (chars w) n then t else dig_lookup tbl n end.

Definition dig_type (n : list Z) : dig_par := dig_lookup digest_names (lower n).

(** Names that the cases without a [goto other] at their end take for another one. *)
Definition misnamed (n : list Z) : bool :=
  (prefixb (chars "real") (lower n) && negb (prefixb (chars "realm") (lower n))) ||
  (prefixb (chars "nonc") (lower n) && negb (prefixb (chars "nonce") (lower n))).

(** ** Names in memory *)
Definition letter (a : Z) : Prop := 97 ≤ a ≤ 122.

Lemma lower_byte_letter c a : char_ok c → letter a → (HName.LOWER_BYTE c =? a) = (tolower c =? a).
Proof.
  intros Hc Ha. enough (E : HName.LOWER_BYTE c = tolower c ∨ ¬ letter (HName.LOWER_BYTE c) ∧ ¬ letter (tolower c)).
  { destruct E as [-> |[E1 E2]]; [done|]. unfold letter in *.
    destruct (Z.eqb_spec (HName.LOWER_BYTE c) a), (Z.eqb_spec (tolower c) a); try done; lia. }
  clear a Ha. revert c Hc. unfold letter. refine (mem_char_cases _ _). refine (bool_decide_unpack _ _). by vm_compute.
Qed.

Definition key (w : list Z) : Z :=
  match w with [a; b; c; d] => a + 256 * (b + 256 * (c + 256 * d)) | _ => -1 end.

Lemma to_int_key v d : 0 ≤ v < 2 ^ 32 → 0 ≤ d < 2 ^ 31 → (HName.LOWER_DWORD (to_int v) =? d) = (HName.LOWER_DWORD v =? d).
Proof.
  intros Hv Hd. unfold HName.LOWER_DWORD. destruct (Z.lt_ge_cases v (2 ^ 31)) as [Hs|Hs]; [by rewrite to_int_small by lia|].
  rewrite !(proj2 (Z.eqb_neq _ _)); [done| |].
  - intros E. assert (Hb : Z.testbit (Z.lor v 538976288) 31 = true).
    { rewrite Z.lor_spec. apply orb_true_iff. left. apply Z.testbit_true; [lia|].
      replace (v / 2 ^ 31) with 1; [done|]. apply (Z.div_unique _ _ 1 (v - 2 ^ 31)); lia. }
    rewrite E in Hb. rewrite (Z.bits_above_log2 d 31) in Hb; [done|lia|].
    destruct (Z.eq_dec d 0) as [->|]; [done|]. apply Z.log2_lt_pow2; lia.
  - intros E. assert (Hn : to_int v = v - 2 ^ 32).
    { unfold to_int. rewrite <- (Z.mod_unique_pos (v + 2 ^ 31) (2 ^ 32) 1 (v - 2 ^ 31)) by lia. lia. }
    assert (0 ≤ Z.lor (to_int v) 538976288) by lia. apply Z.lor_nonneg in H. lia.
Qed.

Section at_.
Context (m : mem) (p : Z) (n r : list Z).
Hypothesis Hat : bytes_at m p (n ++ r).
Hypothesis Hok : Forall char_ok (n ++ r).
(** Behind the name there is white space or an equals sign, and enough of text. *)
Hypothesis Hr : (4 ≤ length r)%nat.
Hypothesis Hstop : head_is (λ c, is_ws c || (c =? ch "=")) r.

Abbreviation N := (lower n).

Lemma stop_tolower c : is_ws c || (c =? ch "=") = true → char_ok c → ¬ letter (tolower c).
Proof.
intros H Hc. revert c Hc H. unfold letter. refine (mem_char_cases _ _). refine (bool_decide_unpack _ _). by vm_compute.
Qed.

(** A word of letters behind a part of the name ends in the name. *)
Lemma word_prefix w o : Forall letter w → (o ≤ length n)%nat → prefixb w (drop o (lower (n ++ r))) = prefixb w (drop o N).
Proof.
intros Hw. revert o. induction Hw as [|a w Ha Hw IH]; intros o Ho; [done|].
destruct (decide (o < length n)%nat) as [Hlt|Hge].
- destruct (lookup_lt_is_Some_2 n o Hlt) as [c Hc].
  rewrite (drop_S (lower (n ++ r)) (tolower c)), (drop_S N (tolower c)).
  + cbn [prefixb]. by rewrite IH by lia.
  + unfold lower. rewrite list_lookup_fmap, Hc. done.
  + unfold lower. rewrite list_lookup_fmap, lookup_app_l, Hc by lia. done.
- assert (o = length n) as -> by lia. rewrite (drop_ge N) by (by rewrite length_lower).
  unfold lower. rewrite map_app, drop_app_length' by (by rewrite length_map). destruct r as [|c r']; [done|]. cbn in Hstop. cbn [map prefixb].
  apply Forall_app in Hok as [_ Hok']. apply Forall_cons in Hok' as [Hc _].
  pose proof (stop_tolower c Hstop Hc). destruct (Z.eqb_spec a (tolower c)) as [-> |]; [done|]. done.
Qed.

Lemma text_char o : (o < length n + 4)%nat → ∃ c, (n ++ r) !! o = Some c ∧ rd m (p + Z.of_nat o) = Ok c ∧ char_ok c.
Proof.
intros Ho. destruct (lookup_lt_is_Some_2 (n ++ r) o) as [c Hc]; [rewrite length_app; lia|]. exists c.
split; [done|]. split; [by eapply bytes_at_lookup|]. by eapply (Forall_lookup_1 char_ok).
Qed.

Lemma byte_is q o : (o ≤ length n)%nat → q = p + Z.of_nat o →
∃ c, rd m q = Ok c ∧ ∀ a, letter a → (HName.LOWER_BYTE c =? a) = prefixb [a] (drop o N).
Proof.
intros Ho ->. destruct (text_char o) as (c & Hl & Hrd & Hc); [lia|]. exists c. split; [done|]. intros a Ha.
rewrite lower_byte_letter by done. rewrite <- word_prefix by (done || by constructor).
rewrite (drop_S (lower (n ++ r)) (tolower c)) by (unfold lower; by rewrite list_lookup_fmap, Hl). cbn [prefixb].
by rewrite andb_true_r, Z.eqb_sym.
Qed.

Lemma dword_is q o : (o ≤ length n)%nat → q = p + Z.of_nat o →
∃ v, READ m q = Ok v ∧ ∀ w, Forall letter w → length w = 4%nat → (HName.LOWER_DWORD v =? key w) = prefixb w (drop o N).
Proof.
intros Ho ->. destruct (text_char o) as (c0 & L0 & R0 & C0); [lia|]. destruct (text_char (o + 1)) as (c1 & L1 & R1 & C1); [lia|].
destruct (text_char (o + 2)) as (c2 & L2 & R2 & C2); [lia|]. destruct (text_char (o + 3)) as (c3 & L3 & R3 & C3); [lia|].
exists (to_int (HNameTree.word c0 c1 c2 c3)). split.
{ unfold READ, HName.READ. rewrite R0. replace (p + Z.of_nat o + 1) with (p + Z.of_nat (o + 1)) by lia.
  replace (p + Z.of_nat o + 2) with (p + Z.of_nat (o + 2)) by lia. replace (p + Z.of_nat o + 3) with (p + Z.of_nat (o + 3)) by lia.
  by rewrite R1, R2, R3. }
intros w Hw Hlen. destruct w as [|a [|b [|c [|d [|]]]]]; try done. pose proof Hw as Hw'. rewrite !Forall_cons in Hw. destruct Hw as (Ha & Hb & Hc & Hd & _).
cbn [key]. pose proof (Z.mod_pos_bound (c0 + Z.shiftl c1 8 + Z.shiftl c2 16 + Z.shiftl c3 24) (2 ^ 32) ltac:(lia)).
rewrite to_int_key; [|done|unfold letter in *; lia]. rewrite <- word_prefix by done.
assert (Hd4 : drop o (lower (n ++ r)) = tolower c0 :: tolower c1 :: tolower c2 :: tolower c3 :: drop (o + 4) (lower (n ++ r))).
{ unfold lower. rewrite (drop_S _ (tolower c0) o), (drop_S _ (tolower c1) (S o)), (drop_S _ (tolower c2) (S (S o))), (drop_S _ (tolower c3) (S (S (S o)))).
  - by replace (S (S (S (S o)))) with (o + 4)%nat by lia.
  - rewrite list_lookup_fmap. replace (S (S (S o))) with (o + 3)%nat by lia. by rewrite L3.
  - rewrite list_lookup_fmap. replace (S (S o)) with (o + 2)%nat by lia. by rewrite L2.
  - rewrite list_lookup_fmap. replace (S o) with (o + 1)%nat by lia. by rewrite L1.
  - by rewrite list_lookup_fmap, L0. }
rewrite Hd4. cbn [prefixb]. rewrite andb_true_r.
pose proof (HNameTree.lower_dword_bytes c0 c1 c2 c3 a b c d ltac:(rewrite !Forall_cons, Forall_nil; done)
  ltac:(unfold letter in *; rewrite !Forall_cons, Forall_nil; lia)) as Hiff.
apply eq_true_iff_eq. rewrite Z.eqb_eq, Hiff, !andb_true_iff, !Z.eqb_eq.
rewrite <- !(Z.eqb_eq (HName.LOWER_BYTE _)), !lower_byte_letter, !Z.eqb_eq by done. intuition auto.
Qed.

(** ** The switch *)
Lemma prefix_at w o : prefixb w (drop o N) = true → (o + length w ≤ length n)%nat ∨ w = [].
Proof. intros H. apply prefixb_length in H. rewrite length_drop, length_lower in H. destruct w; [by right|left]. cbn [length] in *. lia. Qed.

Definition name_found (x : pname) : Prop :=
match x with
| Goto_end t q => ∃ w, In (w, t) digest_names ∧ prefixb (chars w) N = true ∧ q = p + len (chars w)
| Goto_other q => p ≤ q ≤ p + len n ∧ ∀ w t, In (w, t) digest_names → N ≠ chars w
end.

Lemma letters_word (l : list Z) : forallb (λ a, (97 <=? a) && (a <=? 122)) l = true → Forall letter l.
Proof. rewrite forallb_forall, Forall_forall. intros H a Ha. apply list_elem_of_In, H in Ha. unfold letter. lia. Qed.

Lemma prefixb_split a b l : prefixb (a ++ b) l = prefixb a l && prefixb b (drop (length a) l).
Proof.
revert l. induction a as [|c a IH]; intros l; [by destruct l|]. destruct l as [|d l]; [done|]. cbn [app prefixb length drop].
by rewrite IH, andb_assoc.
Qed.


Ltac no_word :=
  let w := fresh "w" in let t := fresh "t" in let Hin := fresh "Hin" in let HN := fresh "HN" in
  intros w t Hin HN; rewrite HN in *; cbn [In digest_names] in Hin;
  repeat (destruct Hin as [[= <- <-]|Hin]); try done;
  repeat match goal with E : _ = _ :> bool |- _ => vm_compute in E; try discriminate E; clear E end.

(** Reads a word of four letters, or one letter, at an offset. *)
Ltac at_word q o :=
  let v := fresh "v" in let Hv := fresh "Hv" in let Hk := fresh "Hk" in
  destruct (dword_is q o) as (v & Hv & Hk); [lia|lia|]; rewrite Hv; cbn [mbind res_bind].
Ltac at_byte q o :=
  let c := fresh "c" in let Hc := fresh "Hc" in let Hk := fresh "Hk" in
  destruct (byte_is q o) as (c & Hc & Hk); [lia|lia|]; rewrite Hc; cbn [mbind res_bind].
Ltac is_word H w :=
  rewrite (H (chars w)) by (by apply letters_word || done).
Ltac is_byte H a := rewrite (H (ch a)) by (unfold letter; by vm_compute).
Ltac found w := eexists; split; [reflexivity|]; exists w; split; [cbn; tauto|split; [|cbn [String.length]; change (len (chars w)) with (Z.of_nat (length (chars w))); cbn; lia]].
Ltac not_found := eexists; split; [reflexivity|]; split; [unfold len; lia|no_word].

(** One lemma for each case of the switch. *)
Abbreviation finds r := (∃ x, r = Ok x ∧ name_found x).

Lemma user_at : prefixb (chars "user") N = true → finds (user_CASE m p).
Proof.
intros E. pose proof (prefixb_length _ _ E) as L. rewrite length_lower in L. cbn in L. unfold user_CASE. at_word (p + 4) 4%nat.
unfold name_CASE. change _name_ with (key (chars "name")). is_word Hk "name". destruct (prefixb (chars "name") (drop 4 N)) eqn:E2.
- found "username"%string. change (chars "username") with (chars "user" ++ chars "name"). by rewrite prefixb_split, E.
- not_found.
Qed.

Lemma realm_at k : prefixb (chars "realm") N = true → finds (real_CASE m p k).
Proof.
intros E. pose proof (prefixb_length _ _ E) as L. rewrite length_lower in L. cbn in L. unfold real_CASE. at_byte (p + 4) 4%nat.
is_byte Hk "m"%char. change (chars "realm") with (chars "real" ++ [ch "m"]) in E. rewrite prefixb_split in E. apply andb_true_iff in E as [E1 E2].
change (drop (length (chars "real")) N) with (drop 4 N) in E2. rewrite E2.
found "realm"%string. change (chars "realm") with (chars "real" ++ [ch "m"]). by rewrite prefixb_split, E1.
Qed.

Lemma nonce_at k : prefixb (chars "nonce") N = true → finds (nonc_CASE m p k).
Proof.
intros E. pose proof (prefixb_length _ _ E) as L. rewrite length_lower in L. cbn in L. unfold nonc_CASE. at_byte (p + 4) 4%nat.
is_byte Hk "e"%char. change (chars "nonce") with (chars "nonc" ++ [ch "e"]) in E. rewrite prefixb_split in E. apply andb_true_iff in E as [E1 E2].
change (drop (length (chars "nonc")) N) with (drop 4 N) in E2. rewrite E2.
found "nonce"%string. change (chars "nonce") with (chars "nonc" ++ [ch "e"]). by rewrite prefixb_split, E1.
Qed.

Lemma resp_at : prefixb (chars "resp") N = true → finds (resp_CASE m p).
Proof.
intros E. pose proof (prefixb_length _ _ E) as L. rewrite length_lower in L. cbn in L. unfold resp_CASE. at_word (p + 4) 4%nat.
unfold onse_CASE. change _onse_ with (key (chars "onse")). is_word Hk "onse". destruct (prefixb (chars "onse") (drop 4 N)) eqn:E2.
- found "response"%string. change (chars "response") with (chars "resp" ++ chars "onse"). by rewrite prefixb_split, E.
- not_found.
Qed.

Lemma cnon_at : prefixb (chars "cnon") N = true → finds (cnon_CASE m p).
Proof.
intros E. pose proof (prefixb_length _ _ E) as L. rewrite length_lower in L. cbn in L. unfold cnon_CASE, two_CASE. at_byte (p + 4) 4%nat.
is_byte Hk "c"%char. destruct (prefixb [ch "c"] (drop 4 N)) eqn:E2; [|not_found].
pose proof (prefixb_length _ _ E2) as L2. rewrite length_drop, length_lower in L2. cbn [length] in L2. at_byte (p + 5) 5%nat. is_byte Hk0 "e"%char.
destruct (prefixb [ch "e"] (drop 5 N)) eqn:E3; [|not_found].
found "cnonce"%string. change (chars "cnonce") with (chars "cnon" ++ [ch "c"] ++ [ch "e"]). rewrite !prefixb_split, E, drop_drop.
change (length (chars "cnon")) with 4%nat. by rewrite E2.
Qed.

Lemma opaq_at : prefixb (chars "opaq") N = true → finds (opaq_CASE m p).
Proof.
intros E. pose proof (prefixb_length _ _ E) as L. rewrite length_lower in L. cbn in L. unfold opaq_CASE, two_CASE. at_byte (p + 4) 4%nat.
is_byte Hk "u"%char. destruct (prefixb [ch "u"] (drop 4 N)) eqn:E2; [|not_found].
pose proof (prefixb_length _ _ E2) as L2. rewrite length_drop, length_lower in L2. cbn [length] in L2. at_byte (p + 5) 5%nat. is_byte Hk0 "e"%char.
destruct (prefixb [ch "e"] (drop 5 N)) eqn:E3; [|not_found].
found "opaque"%string. change (chars "opaque") with (chars "opaq" ++ [ch "u"] ++ [ch "e"]). rewrite !prefixb_split, E, drop_drop.
change (length (chars "opaq")) with 4%nat. by rewrite E2.
Qed.

Lemma algo_at : prefixb (chars "algo") N = true → finds (algo_CASE m p).
Proof.
intros E. pose proof (prefixb_length _ _ E) as L. rewrite length_lower in L. cbn in L. unfold algo_CASE. at_word (p + 4) 4%nat.
unfold rith_CASE. change _rith_ with (key (chars "rith")). is_word Hk "rith". destruct (prefixb (chars "rith") (drop 4 N)) eqn:E2; [|not_found].
pose proof (prefixb_length _ _ E2) as L2. rewrite length_drop, length_lower in L2. cbn in L2. at_byte (p + 4 + 4) 8%nat. is_byte Hk0 "m"%char.
destruct (prefixb [ch "m"] (drop 8 N)) eqn:E3; [|not_found].
found "algorithm"%string. change (chars "algorithm") with (chars "algo" ++ chars "rith" ++ [ch "m"]). rewrite !prefixb_split, E, drop_drop.
change (length (chars "algo")) with 4%nat. by rewrite E2.
Qed.

(** The short names. *)
Lemma short_at : Forall (λ w, prefixb (chars w) N = false) ["user"; "real"; "nonc"; "resp"; "cnon"; "opaq"; "algo"]%string →
finds (PARSE_SHORT m p goto_other).
Proof.
rewrite !Forall_cons. intros (F1 & F2 & F3 & F4 & F5 & F6 & F7 & _). unfold PARSE_SHORT. at_byte p 0%nat. is_byte Hk "u"%char. is_byte Hk "q"%char. is_byte Hk "n"%char.
destruct (prefixb [ch "u"] (drop 0 N)) eqn:E1; [|destruct (prefixb [ch "q"] (drop 0 N)) eqn:E2; [|destruct (prefixb [ch "n"] (drop 0 N)) eqn:E3; [|not_found]]].
- pose proof (prefixb_length _ _ E1) as L. rewrite length_drop, length_lower in L. cbn [length] in L. at_byte (p + 1) 1%nat. is_byte Hk0 "r"%char.
  destruct (prefixb [ch "r"] (drop 1 N)) eqn:E4; [|not_found].
  pose proof (prefixb_length _ _ E4) as L2. rewrite length_drop, length_lower in L2. cbn [length] in L2. at_byte (p + 2) 2%nat. is_byte Hk1 "i"%char.
  destruct (prefixb [ch "i"] (drop 2 N)) eqn:E5; [|not_found].
  found "uri"%string. change (chars "uri") with ([ch "u"] ++ [ch "r"] ++ [ch "i"]). rewrite drop_0 in E1. rewrite !prefixb_split, E1, drop_drop. cbn [length Nat.add]. by rewrite E4, E5.
- pose proof (prefixb_length _ _ E2) as L. rewrite length_drop, length_lower in L. cbn [length] in L. at_byte (p + 1) 1%nat. is_byte Hk0 "o"%char.
  destruct (prefixb [ch "o"] (drop 1 N)) eqn:E4; [|not_found].
  pose proof (prefixb_length _ _ E4) as L2. rewrite length_drop, length_lower in L2. cbn [length] in L2. at_byte (p + 2) 2%nat. is_byte Hk1 "p"%char.
  destruct (prefixb [ch "p"] (drop 2 N)) eqn:E5; [|not_found].
  found "qop"%string. change (chars "qop") with ([ch "q"] ++ [ch "o"] ++ [ch "p"]). rewrite drop_0 in E2. rewrite !prefixb_split, E2, drop_drop. cbn [length Nat.add]. by rewrite E4, E5.
- pose proof (prefixb_length _ _ E3) as L. rewrite length_drop, length_lower in L. cbn [length] in L. at_byte (p + 1) 1%nat. is_byte Hk0 "c"%char.
  destruct (prefixb [ch "c"] (drop 1 N)) eqn:E4; [|not_found].
  found "nc"%string. change (chars "nc") with ([ch "n"] ++ [ch "c"]). rewrite drop_0 in E3. rewrite !prefixb_split, E3. cbn [length]. by rewrite E4.
Qed.

Lemma name_switch_at : misnamed n = false → ∃ v x, READ m p = Ok v ∧ name_switch m p v = Ok x ∧ name_found x.
Proof.
intros Hmis. unfold misnamed in Hmis. apply orb_false_iff in Hmis as [Hreal Hnonc].
destruct (dword_is p 0) as (v & Hv & Hk); [lia|lia|]. exists v. cut (finds (name_switch m p v)).
{ intros (x & ?). by exists x. }
unfold name_switch. change _user_ with (key (chars "user")). change _real_ with (key (chars "real")).
change _nonc_ with (key (chars "nonc")). change _resp_ with (key (chars "resp")). change _cnon_ with (key (chars "cnon")).
change _opaq_ with (key (chars "opaq")). change _algo_ with (key (chars "algo")). 
is_word Hk "user". is_word Hk "real". is_word Hk "nonc". is_word Hk "resp". is_word Hk "cnon". is_word Hk "opaq". is_word Hk "algo".
rewrite drop_0.
destruct (prefixb (chars "user") N) eqn:E1; [by apply user_at|].
destruct (prefixb (chars "real") N) eqn:E2; [apply realm_at; by destruct (prefixb (chars "realm") N)|].
destruct (prefixb (chars "nonc") N) eqn:E3; [apply nonce_at; by destruct (prefixb (chars "nonce") N)|].
destruct (prefixb (chars "resp") N) eqn:E4; [by apply resp_at|].
destruct (prefixb (chars "cnon") N) eqn:E5; [by apply cnon_at|].
destruct (prefixb (chars "opaq") N) eqn:E6; [by apply opaq_at|].
destruct (prefixb (chars "algo") N) eqn:E7; [by apply algo_at|].
apply short_at. by repeat constructor.
Qed.
End at_.

(** ** The table and the names *)
Lemma dig_lookup_other tbl n : (∀ w t, In (w, t) tbl → n ≠ chars w) → dig_lookup tbl n = PAR_OTHER.
Proof.
  induction tbl as [|[w t] tbl IH]; intros H; [done|]. cbn [dig_lookup]. destruct (list_eqb (chars w) n) eqn:E.
  - apply list_eqb_spec in E. exfalso. apply (H w t); [by left|done].
  - apply IH. intros w' t' Hin. apply (H w' t'). by right.
Qed.

Lemma dig_type_in n w t : In (w, t) digest_names → lower n = chars w → dig_type n = t.
Proof. unfold dig_type. intros Hin ->. cbn [In digest_names] in Hin. by repeat (destruct Hin as [[= <- <-]|Hin]). Qed.

Lemma dig_type_longer n w t : In (w, t) digest_names → prefixb (chars w) (lower n) = true → lower n ≠ chars w → dig_type n = PAR_OTHER.
Proof.
  intros Hin Hp Hne. apply dig_lookup_other. intros w' t' Hin' HN. rewrite HN in *. cbn [In digest_names] in Hin, Hin'.
  repeat (destruct Hin as [[= <- <-]|Hin]); try done;
    repeat (destruct Hin' as [[= <- <-]|Hin']); done.
Qed.

Lemma q_memchr_first m p c l r size : Forall (λ a, a ≠ c) l → bytes_at m p (l ++ c :: r) → len l < size →
  q_memchr m p c size = Ok (Some (p + len l)).
Proof.
  intros Hl Hat Hs. unfold q_memchr. rewrite (scan_at _ m p _ l); [|by apply bytes_at_first in Hat| |unfold len in *; lia|].
  - fold (len l). cbn [mbind res_bind]. by destruct (Z.ltb_spec (p + len l) (p + size)); [|lia].
  - eapply Forall_impl; [exact Hl|]. intros a Ha. cbn. by apply Z.eqb_neq.
  - intros _. exists c. apply bytes_at_from in Hat. destruct Hat as [Hc _]. fold (len l). split; [done|]. apply Z.eqb_refl.
Qed.

Lemma q_memchr_none m p c l r : Forall (λ a, a ≠ c) l → bytes_at m p (l ++ r) → q_memchr m p c (len l) = Ok None.
Proof.
  intros Hl Hat. unfold q_memchr. rewrite (scan_at _ m p _ l); [|by apply bytes_at_first in Hat| |unfold len; lia|unfold len; lia].
  - fold (len l). cbn [mbind res_bind]. by rewrite Z.ltb_irrefl.
  - eapply Forall_impl; [exact Hl|]. intros a Ha. cbn. by apply Z.eqb_neq.
Qed.

Definition dname_ok (n : list Z) : Prop :=
  n ≠ [] ∧ Forall (λ c, is_ws c = false ∧ c ≠ ch "=" ∧ c ≠ ch ",") n ∧ misnamed n = false.

Lemma white_no sp c : white sp → is_ws c = false → Forall (λ a, a ≠ c) sp.
Proof. intros H Hc. eapply Forall_impl; [exact (white_is_ws _ H)|]. cbn. intros a Ha ->. congruence. Qed.

Section name.
Context (m : mem) (p : Z) (n sp1 rest ext : list Z).
Hypothesis Hn : dname_ok n.
Hypothesis Hsp1 : white sp1.
Hypothesis Hrest : (1 ≤ length rest)%nat.
Hypothesis Hext : (2 ≤ length ext)%nat.
Hypothesis Hat : bytes_at m p (n ++ sp1 ++ ch "=" :: rest ++ ext).
Hypothesis Hok : Forall char_ok (n ++ sp1 ++ ch "=" :: rest ++ ext).
Hypothesis Hlen : len (n ++ sp1 ++ ch "=" :: rest) < 2 ^ 31.

Abbreviation e := (p + len (n ++ sp1 ++ ch "=" :: rest)).
Abbreviation Q := (p + len n + len sp1).

Lemma other_name_at k s : (k ≤ length n)%nat → str_s s + str_len s = e →
other_name m e (p + Z.of_nat k) s = Ok (Some (Str Q (len (ch "=" :: rest)), PAR_OTHER)).
Proof.
intros Hk Hs. unfold other_name. destruct Hn as (_ & Hc & _).
assert (Hb : bytes_at m (p + Z.of_nat k) ((drop k n ++ sp1) ++ ch "=" :: rest ++ ext)).
{ rewrite <- app_assoc. rewrite <- (take_drop k n), <- app_assoc in Hat. apply bytes_at_from in Hat. unfold len in Hat.
  by rewrite length_take, Nat.min_l in Hat by done. }
pose proof (len_nonneg sp1). pose proof (len_nonneg rest). rewrite !len_app, len_cons in *.
assert (Hd : len (drop k n) = len n - Z.of_nat k) by (unfold len; rewrite length_drop; lia).
rewrite (q_memchr_first m _ _ (drop k n ++ sp1) (rest ++ ext)); [| |done|].
- cbn [mbind res_bind]. rewrite len_app, Hd. cbn [mret res_ret]. do 4 f_equal; [lia|]. lia.
- apply Forall_app. split; [|apply white_no; [done|by vm_compute]]. apply Forall_drop. eapply Forall_impl; [exact Hc|]. by intros a (_ & H' & _).
- assert (Z.of_nat k ≤ len n) by (unfold len; lia). rewrite len_app, Hd, to_uint_small by lia. lia.
Qed.

Lemma name_stop_at : bytes_at m p (n ++ sp1 ++ ch "=" :: rest ++ ext) ∧ (4 ≤ length (sp1 ++ ch "=" :: rest ++ ext))%nat ∧
head_is (λ c, is_ws c || (c =? ch "=")) (sp1 ++ ch "=" :: rest ++ ext).
Proof.
split_and!; [done|rewrite length_app; cbn [length]; rewrite length_app; lia|].
destruct sp1 as [|c sp]; [done|]. apply white_is_ws in Hsp1. apply Forall_cons in Hsp1 as [Hc _]. cbn. cbn in Hc. by rewrite Hc.
Qed.

Lemma parse_digest_name_at : parse_param_name m (Str p (len (n ++ sp1 ++ ch "=" :: rest))) =
Ok (Some (Str Q (len (ch "=" :: rest)), dig_type n)).
Proof.
destruct name_stop_at as (_ & Hr & Hstop). pose proof Hn as (Hne & Hc & Hmis).
destruct (name_switch_at m p n _ Hat Hok Hr Hstop Hmis) as (v & x & Hv & Hx & Hf).
unfold parse_param_name. cbn [str_s str_len]. rewrite Hv. cbn [mbind res_bind].
assert (Hot : dig_type n = PAR_OTHER → ∀ k s, (k ≤ length n)%nat → str_s s + str_len s = e →
  other_name m e (p + Z.of_nat k) s = Ok (Some (Str Q (len (ch "=" :: rest)), dig_type n))).
{ intros -> k s Hk Hs. by apply other_name_at. }
destruct (Z.ltb_spec (len (n ++ sp1 ++ ch "=" :: rest)) 4) as [H4|H4].
{ assert (Hother : dig_type n = PAR_OTHER).
  { apply dig_lookup_other. intros w t Hin HN. apply (f_equal length) in HN. rewrite length_lower in HN.
    unfold len in H4. rewrite !length_app in H4. cbn [length] in H4. cbn [In digest_names] in Hin.
    repeat (destruct Hin as [[= <- <-]|Hin]); try done; cbn in HN; lia. }
  specialize (Hot Hother 0%nat (Str p (len (n ++ sp1 ++ ch "=" :: rest))) ltac:(lia) eq_refl). by replace (p + Z.of_nat 0) with p in Hot by lia. }
rewrite Hx. cbn [mbind res_bind]. destruct x as [t q|q]; cbn [name_found] in Hf.
- destruct Hf as (w & Hin & Hpre & ->). pose proof (prefixb_length _ _ Hpre) as Hw. rewrite length_lower in Hw.
  rewrite Z.add_simpl_l. destruct (decide (lower n = chars w)) as [E|E].
  + assert (Hl : len (chars w) = len n) by (unfold len; by rewrite <- E, length_lower). rewrite Hl.
    rewrite (len_app n), Z.add_simpl_l. apply bytes_at_from in Hat as Hat1.
    rewrite trim_leading_run; [|done|apply (bytes_at_first _ _ _ ext); by rewrite <- app_assoc|done].
    cbn [mbind res_bind str_s]. apply bytes_at_from in Hat1. destruct Hat1 as [-> _]. cbn [mbind res_bind]. rewrite Z.eqb_refl.
    by rewrite (dig_type_in n w t).
  + assert (Hlt : (length (chars w) < length n)%nat).
    { destruct (decide (length (chars w) = length n)) as [El|]; [|lia]. exfalso. apply E. apply prefixb_spec in Hpre.
      rewrite Hpre, El, take_ge; [done|]. by rewrite length_lower. }
    specialize (Hot (dig_type_longer n w t Hin Hpre E)). set (k := length (chars w)) in *. change (len (chars w)) with (Z.of_nat k).
    assert (Hd : drop k n ≠ []) by (intros H; apply (f_equal length) in H; rewrite length_drop in H; cbn in H; lia).
    assert (Hls : len (n ++ sp1 ++ ch "=" :: rest) - Z.of_nat k = len (drop k n ++ sp1 ++ ch "=" :: rest)).
    { rewrite !(len_app _ (sp1 ++ _)). unfold len at 3. rewrite length_drop. unfold len. lia. }
    assert (Hb : bytes_at m (p + Z.of_nat k) ((drop k n ++ sp1 ++ ch "=" :: rest) ++ ext)).
    { rewrite <- !app_assoc. cbn [app]. rewrite <- (take_drop k n), <- app_assoc in Hat. apply bytes_at_from in Hat. unfold len in Hat.
      by rewrite length_take, Nat.min_l in Hat by lia. }
    rewrite Hls. apply (Forall_drop _ k) in Hc. destruct (drop k n) as [|c n'] eqn:En; [done|].
    apply Forall_cons in Hc as [(Hc1 & Hc2 & _) _]. pose proof (trim_leading_run m (p + Z.of_nat k) [] ((c :: n') ++ sp1 ++ ch "=" :: rest)) as Ht.
    rewrite len_nil, Z.add_0_r in Ht. cbn [app] in Ht. cbn [app]. rewrite Ht; [|constructor|by apply bytes_at_first in Hb|cbn; by rewrite Hc1].
    cbn [mbind res_bind str_s]. destruct Hb as [Hb _]. rewrite Hb. cbn [mbind res_bind]. rewrite (proj2 (Z.eqb_neq _ _) Hc2).
    apply Hot; [lia|]. cbn [str_s str_len]. cbn [app] in Hls. lia.
- destruct Hf as [Hq Hno]. replace q with (p + Z.of_nat (Z.to_nat (q - p))) by lia. apply Hot; [by apply dig_lookup_other|unfold len in Hq; lia|done].
Qed.
End name.

(** ** Parameters *)
Definition dvalue_ok (v : pvalue) : Prop :=
  match v with
  | Token l => l ≠ [] ∧ Forall (λ c, is_ws c || (c =? ch ",") = false) l ∧ head l ≠ Some DQUOTE
  | Quoted l => Forall (λ c, c ≠ DQUOTE) l
  end.

Definition value_text (v : pvalue) : list Z := match v with Token l | Quoted l => l end.
Definition value_at (q : Z) (v : pvalue) : str := match v with Token l => Str q (len l) | Quoted l => Str (q + 1) (len l) end.

(** A name, an equals sign, and a value, between white space. *)
Record dparam := DParam { dt_name : list Z; dt_sp1 : list Z; dt_sp2 : list Z; dt_value : pvalue; dt_sp3 : list Z }.

Definition dparam_chars (x : dparam) : list Z :=
  dt_name x ++ dt_sp1 x ++ ch "=" :: dt_sp2 x ++ value_chars (dt_value x) ++ dt_sp3 x.

Definition dparam_ok (x : dparam) : Prop :=
  dname_ok (dt_name x) ∧ white (dt_sp1 x) ∧ white (dt_sp2 x) ∧ dvalue_ok (dt_value x) ∧ white (dt_sp3 x).

(** What is read of it at [p]: the type, the value, and the text of the value. *)
Definition dval (p : Z) (x : dparam) : dig_par * (str * list Z) :=
  (dig_type (dt_name x),
   (value_at (p + len (dt_name x) + len (dt_sp1 x) + 1 + len (dt_sp2 x)) (dt_value x), value_text (dt_value x))).

Fixpoint dlist_chars (x : dparam) (xs : list (list Z * dparam)) : list Z :=
  dparam_chars x ++ match xs with [] => [] | (sp, x') :: xs => ch "," :: sp ++ dlist_chars x' xs end.

Fixpoint dvals (p : Z) (x : dparam) (xs : list (list Z * dparam)) : list (dig_par * (str * list Z)) :=
  dval p x :: match xs with [] => [] | (sp, x') :: xs => dvals (p + len (dparam_chars x) + 1 + len sp) x' xs end.

Definition dlist_ok (x : dparam) (xs : list (list Z * dparam)) : Prop :=
  dparam_ok x ∧ Forall (λ y, white y.1 ∧ dparam_ok y.2) xs.

Definition set_dval (c : dig_cred) (v : dig_par * (str * list Z)) : dig_cred := set_value v.1 v.2.1 c.

Lemma dvalue_no_ws v r : dvalue_ok v → no_ws (value_chars v ++ r).
Proof.
  destruct v as [[|c l]|l]; [by intros (? & _)| |done]. intros (_ & H & _). apply Forall_cons in H as [H _].
  cbn. apply orb_false_iff in H as [-> _]. done.
Qed.

Lemma dvalue_pos v : dvalue_ok v → (1 ≤ length (value_chars v))%nat.
Proof. destruct v as [[|c l]|l]; [by intros (? & _)|cbn; lia|cbn; lia]. Qed.

Section params.
Context (m : mem).

Lemma parse_value_at p v r : dvalue_ok v → len (value_chars v) < 2 ^ 31 → head_is (λ c, is_ws c || (c =? ch ",")) r →
bytes_at m p (value_chars v ++ r) →
∃ a, rd m p = Ok a ∧ (if a =? DQUOTE then parse_quoted m (Str p (len (value_chars v ++ r))) else parse_token m (Str p (len (value_chars v ++ r)))) =
Ok (Some (Str (p + len (value_chars v)) (len r), value_at p v)).
Proof.
intros Hv Hlen Hr Hat. destruct v as [l|l]; cbn [value_chars value_at dvalue_ok] in *.
- destruct Hv as (Hne & Hl & Hq). destruct l as [|c l]; [done|]. pose proof Hat as [Hc _]. exists c. split; [done|].
  destruct (Z.eqb_spec c DQUOTE) as [->|_]; [done|]. unfold parse_token. cbn [str_s str_len].
  rewrite (scan_run _ m p _ (c :: l) r Hat); [|unfold len; lia|done|done]. fold (len (c :: l)). cbn [mbind res_bind].
  rewrite Z.add_simpl_l. pose proof (len_nonneg l). rewrite len_app, len_cons. destruct (Z.eqb_spec (1 + len l) 0); [lia|].
  cbn [mret res_ret]. do 4 f_equal. lia.
- exists DQUOTE. pose proof Hat as [Hc _]. split; [done|]. rewrite Z.eqb_refl. unfold parse_quoted.
  cbn [app] in *. rewrite <- app_assoc in *. cbn [app] in *. rewrite parse_quoted_at; [|done|done|rewrite len_cons, len_app in Hlen; change (len [DQUOTE]) with 1 in Hlen; lia].
  do 4 f_equal. rewrite len_cons, len_app. change (len [DQUOTE]) with 1. lia.
Qed.

Definition comma_end (r : list Z) : Prop := match r with [] => True | c :: _ => c = ch "," end.

Lemma parse_digest_param_at p x r ext c : dparam_ok x → comma_end r → (2 ≤ length ext)%nat →
len (dparam_chars x ++ r) < 2 ^ 31 → bytes_at m p (dparam_chars x ++ r ++ ext) → Forall char_ok (dparam_chars x ++ r ++ ext) →
parse_digest_param m (Str p (len (dparam_chars x ++ r))) c =
Ok (Some (Str (p + len (dparam_chars x) - len (dt_sp3 x)) (len (dt_sp3 x ++ r))), set_dval c (dval p x)).
Proof.
intros (Hn & Hsp1 & Hsp2 & Hv & Hsp3) Hr Hext Hlen Hat Hok. destruct x as [n sp1 sp2 v sp3].
unfold dparam_chars in *. cbn [dt_name dt_sp1 dt_sp2 dt_value dt_sp3] in *. unfold parse_digest_param.
set (rest := sp2 ++ value_chars v ++ sp3 ++ r).
assert (E : (n ++ sp1 ++ ch "=" :: sp2 ++ value_chars v ++ sp3) ++ r = n ++ sp1 ++ ch "=" :: rest).
{ unfold rest. rewrite <- !app_assoc. cbn [app]. by rewrite <- !app_assoc. }
rewrite E in *. assert (E2 : (n ++ sp1 ++ ch "=" :: sp2 ++ value_chars v ++ sp3) ++ r ++ ext = n ++ sp1 ++ ch "=" :: rest ++ ext).
{ rewrite app_assoc, E, <- !app_assoc. done. }
rewrite E2 in *. pose proof (dvalue_pos v Hv) as Hpos.
rewrite (parse_digest_name_at m p n sp1 rest ext); [|done|done|unfold rest; rewrite !length_app; lia|done|done|done|done].
cbn [mbind res_bind str_s str_len]. rewrite len_cons, Z.add_simpl_l. apply bytes_at_from in Hat. apply bytes_at_from in Hat. destruct Hat as [_ Hat].
apply bytes_at_first in Hat. unfold rest in Hat |- *. rewrite trim_leading_run; [|done|done|by apply dvalue_no_ws].
cbn [mbind res_bind str_s str_len]. apply bytes_at_from in Hat. rewrite !len_app, len_cons in Hlen. unfold rest in Hlen. rewrite !len_app in Hlen.
pose proof (len_nonneg n). pose proof (len_nonneg sp1). pose proof (len_nonneg sp2). pose proof (len_nonneg sp3). pose proof (len_nonneg r).
assert (0 < len (value_chars v)) by (unfold len; lia).
destruct (parse_value_at (p + len n + len sp1 + 1 + len sp2) v (sp3 ++ r)) as (a & Ha & Hval); [done|lia| |done|].
{ destruct sp3 as [|s sp3]; [by destruct r as [|b r]; [|cbn; rewrite (Hr : b = ch ",")]|].
  apply white_is_ws in Hsp3. apply Forall_cons in Hsp3 as [Hs _]. cbn in *. by rewrite Hs. }
rewrite Ha. cbn [mbind res_bind]. rewrite (len_app (value_chars v)). pose proof (len_nonneg (sp3 ++ r)).
destruct (Z.eqb_spec (len (value_chars v) + len (sp3 ++ r)) 0); [lia|]. rewrite <- (len_app (value_chars v)), Hval. cbn [mbind res_bind mret res_ret].
do 4 f_equal. rewrite !len_app, len_cons, !len_app. lia.
Qed.

Lemma digest_round_at p x r ext c : dparam_ok x → comma_end r → (2 ≤ length ext)%nat →
len (dparam_chars x ++ r) < 2 ^ 31 → bytes_at m p (dparam_chars x ++ r ++ ext) → Forall char_ok (dparam_chars x ++ r ++ ext) →
digest_round m (Str p (len (dparam_chars x ++ r)), c) =
let c := set_dval c (dval p x) in
match r with
| [] => Ok (inr (true, c))
| _ :: r => s ← trim_leading m (Str (p + len (dparam_chars x) + 1) (len r)); mret (inl (s, c))
end.
Proof.
intros Hx Hr Hext Hlen Hat Hok. unfold digest_round. rewrite (parse_digest_param_at p x r ext) by done. cbn [mbind res_bind str_s str_len].
pose proof Hx as (_ & _ & _ & _ & Hsp3). set (q := p + len (dparam_chars x) - len (dt_sp3 x)).
assert (Hb : bytes_at m q (dt_sp3 x ++ r ++ ext)).
{ unfold q. unfold dparam_chars in *. rewrite <- !app_assoc in Hat. cbn [app] in Hat. rewrite <- !app_assoc in Hat.
  do 2 apply bytes_at_from in Hat. destruct Hat as [_ Hat]. do 2 apply bytes_at_from in Hat. rewrite !len_app, len_cons, !len_app.
  match goal with H : bytes_at m ?a _ |- bytes_at m ?b _ => by replace b with a by lia end. }
rewrite len_app in Hlen. pose proof (len_nonneg (dparam_chars x)). pose proof (len_nonneg (dt_sp3 x)). pose proof (len_nonneg r).
assert (Hle : len (dt_sp3 x) ≤ len (dparam_chars x)).
{ unfold dparam_chars. rewrite !len_app, len_cons, !len_app. pose proof (len_nonneg (dt_name x)). pose proof (len_nonneg (dt_sp1 x)).
  pose proof (len_nonneg (dt_sp2 x)). pose proof (len_nonneg (value_chars (dt_value x))). lia. }
rewrite to_uint_small by (rewrite len_app; lia).
assert (Hno : Forall (λ a, a ≠ ch ",") (dt_sp3 x)) by (apply white_no; [done|by vm_compute]).
destruct r as [|a r].
- rewrite app_nil_r. by rewrite (q_memchr_none m q _ _ ext) by done.
- rewrite (Hr : a = ch ",") in *. rewrite len_app, len_cons in *. pose proof (len_nonneg r).
  rewrite (q_memchr_first m q _ (dt_sp3 x) (r ++ ext)) by (done || lia). cbn [mbind res_bind]. cbn zeta. f_equal. f_equal. unfold q. f_equal; lia.
Qed.

Lemma dparam_no_ws x r : dparam_ok x → no_ws (dparam_chars x ++ r).
Proof.
intros ((Hne & Hc & _) & _). unfold dparam_chars. destruct (dt_name x) as [|c n]; [done|]. apply Forall_cons in Hc as [[Hc _] _].
cbn. by rewrite Hc.
Qed.

Lemma dparam_pos x : 1 ≤ len (dparam_chars x).
Proof.
unfold dparam_chars. rewrite !len_app, len_cons. pose proof (len_nonneg (dt_name x)). pose proof (len_nonneg (dt_sp1 x)).
match goal with |- context [1 + len ?l] => pose proof (len_nonneg l) end. lia.
Qed.

Lemma dlist_head x xs : ∃ r, dlist_chars x xs = dparam_chars x ++ r.
Proof. destruct xs as [|[sp x'] xs]; cbn [dlist_chars]; eauto. Qed.

Lemma dlist_run p x xs ext c : dlist_ok x xs → (2 ≤ length ext)%nat → len (dlist_chars x xs) < 2 ^ 31 →
bytes_at m p (dlist_chars x xs ++ ext) → Forall char_ok (dlist_chars x xs ++ ext) →
lands (digest_round m) (λ s, mlim m - str_s s.1) (Str p (len (dlist_chars x xs)), c) (true, fold_left set_dval (dvals p x xs) c).
Proof.
intros [Hx Hxs] Hext. revert p x Hx c.
induction Hxs as [|[sp x'] xs [Hsp Hx'] _ IH]; intros p x Hx c Hlen Hat Hok; cbn [dlist_chars dvals fold_left fst snd] in *.
all: assert (Hlim : p < mlim m) by (apply bytes_at_range in Hat as [_ H]; [rewrite !length_app in H; lia|
  intros H; apply (f_equal length) in H; rewrite !length_app in H; cbn in H; lia]).
- apply lands_done; [|cbn [fst str_s]; lia]. rewrite <- app_assoc in Hat, Hok. by rewrite (digest_round_at p x [] ext c) by done.
- pose proof (dparam_pos x). pose proof Hlen as Hlen'. rewrite len_app, len_cons, len_app in Hlen'. pose proof (len_nonneg sp).
  destruct (dlist_head x' xs) as [r0 Hr0]. pose proof (len_nonneg (dlist_chars x' xs)).
  assert (Hb : bytes_at m (p + len (dparam_chars x) + 1) (sp ++ dlist_chars x' xs ++ ext)).
  { rewrite <- app_assoc in Hat. apply bytes_at_from in Hat. destruct Hat as [_ Hat]. by rewrite <- app_assoc in Hat. }
  assert (Hround : digest_round m (Str p (len (dparam_chars x ++ ch "," :: sp ++ dlist_chars x' xs)), c) =
    Ok (inl (Str (p + len (dparam_chars x) + 1 + len sp) (len (dlist_chars x' xs)), set_dval c (dval p x)))).
  { rewrite (digest_round_at p x _ ext) by (done || by rewrite <- app_assoc in Hat, Hok). cbn zeta.
    rewrite trim_leading_run; [done|done|rewrite app_assoc in Hb; by apply bytes_at_first in Hb|rewrite Hr0; by apply dparam_no_ws]. }
  apply (lands_next _ _ _ _ _ Hround); cbn [fst str_s]; [lia|lia|].
  apply IH; [done|lia|by apply bytes_at_from in Hb|].
  rewrite <- app_assoc in Hok. cbn [app] in Hok. apply Forall_app in Hok as [_ Hok]. apply Forall_cons in Hok as [_ Hok].
  rewrite <- app_assoc in Hok. by apply Forall_app in Hok as [_ Hok].
Qed.
End params.

(** ** The values *)

(** The last value of a type. *)
Fixpoint last_val (t : dig_par) (vs : list (dig_par * (str * list Z))) : option (str * list Z) :=
  match vs with
  | [] => None
  | (t', x) :: vs => match last_val t vs with Some y => Some y | None => if decide (t' = t) then Some x else None end
  end.

Definition val_str (t : dig_par) (vs : list (dig_par * (str * list Z))) : str := from_option fst null_str (last_val t vs).
Definition val_text (t : dig_par) (vs : list (dig_par * (str * list Z))) : list Z := from_option snd [] (last_val t vs).

Fixpoint drop_ws (l : list Z) : list Z := match l with [] => [] | c :: l' => if is_ws c then drop_ws l' else l end.

(** Without the white space around it. *)
Definition strip (l : list Z) : list Z := rev (drop_ws (rev (drop_ws l))).

Definition qop_of (l : list Z) : qop_type :=
  if bool_decide (l = []) then QOP_UNSPEC_D
  else if eq_nocase (chars "auth") (strip l) then QOP_AUTH_D
  else if eq_nocase (chars "auth-int") (strip l) then QOP_AUTHINT_D else QOP_OTHER_D.

Definition alg_of (l : list Z) : alg :=
  if bool_decide (l = []) then ALG_UNSPEC
  else if eq_nocase (chars "MD5") (strip l) then ALG_MD5
  else if eq_nocase (chars "MD5-sess") (strip l) then ALG_MD5SESS else ALG_OTHER.

(** What is in front of the first [@]. *)
Fixpoint before_at (l : list Z) : option (list Z) :=
  match l with [] => None | c :: l => if c =? ch "@" then Some [] else option_map (cons c) (before_at l) end.

(** A name of more than two characters is divided at its [@]. *)
Definition username_of (s : str) (l : list Z) : username :=
  if bool_decide (l = []) then MkUsername s null_str null_str
  else match (if 2 <? len l then before_at l else None) with
       | Some u => MkUsername s (Str (str_s s) (len u)) (Str (str_s s + len u + 1) (len l - len u - 1))
       | None => MkUsername s s null_str
       end.

Definition cred_of (vs : list (dig_par * (str * list Z))) : dig_cred :=
  let get t := val_str t vs in
  MkCred (username_of (get PAR_USERNAME) (val_text PAR_USERNAME vs)) (get PAR_REALM) (get PAR_NONCE) (get PAR_URI)
    (get PAR_RESPONSE) (get PAR_ALGORITHM) (alg_of (val_text PAR_ALGORITHM vs)) (get PAR_CNONCE) (get PAR_OPAQUE)
    (get PAR_QOP) (qop_of (val_text PAR_QOP vs)) (get PAR_NC).

(** Before they are looked at. *)
Definition raw_cred (vs : list (dig_par * (str * list Z))) : dig_cred :=
  let get t := val_str t vs in
  MkCred (MkUsername (get PAR_USERNAME) null_str null_str) (get PAR_REALM) (get PAR_NONCE) (get PAR_URI)
    (get PAR_RESPONSE) (get PAR_ALGORITHM) ALG_UNSPEC (get PAR_CNONCE) (get PAR_OPAQUE) (get PAR_QOP) QOP_UNSPEC_D (get PAR_NC).

Lemma last_val_snoc t vs v : last_val t (vs ++ [v]) = if decide (v.1 = t) then Some v.2 else last_val t vs.
Proof.
  destruct v as [t' x]. cbn [fst snd]. induction vs as [|[t'' y] vs IH]; cbn [app last_val]; [done|]. rewrite IH. by destruct (decide (t' = t)).
Qed.

Lemma fold_values vs : fold_left set_dval vs init_dig_cred = raw_cred vs.
Proof.
  induction vs as [|[t [s l]] vs IH] using rev_ind; [done|]. rewrite fold_left_app, IH. cbn [fold_left]. unfold set_dval, raw_cred, val_str.
  cbn [fst snd]. rewrite !last_val_snoc. cbn [fst snd]. by destruct t.
Qed.

Section values.
Context (m : mem).

Definition val_in (v : dig_par * (str * list Z)) : Prop :=
let '(s, l) := v.2 in str_len s = len l ∧ str_s s ≠ 0 ∧ bytes_at m (str_s s) l ∧ Forall char_ok l ∧ len l < 2 ^ 31.

Lemma is_ws_white c : char_ok c → is_ws c = true → c = SPC ∨ c = TAB ∨ c = CR ∨ c = LF.
Proof. revert c. refine (mem_char_cases _ _). refine (bool_decide_unpack _ _). by vm_compute. Qed.

Lemma drop_ws_split l : Forall char_ok l → ∃ w, l = w ++ drop_ws l ∧ white w ∧ no_ws (drop_ws l).
Proof.
induction 1 as [|c l Hc _ (w & E & Hw & Hn)]; [exists []; split_and!; [done|constructor|done]|]. cbn [drop_ws]. destruct (is_ws c) eqn:Ec.
- exists (c :: w). cbn [app]. split_and!; [by f_equal|constructor; [by apply is_ws_white|done]|done].
- exists []. split_and!; [done|constructor|cbn; by rewrite Ec].
Qed.

Lemma trim_strip p l : Forall char_ok l → bytes_at m p l → ∃ q, trim m (Str p (len l)) = Ok (Str q (len (strip l))) ∧ bytes_at m q (strip l).
Proof.
intros Hl Hat. destruct (drop_ws_split l Hl) as (w & E & Hw & Hn). unfold strip. set (k := drop_ws l) in *. exists (p + len w).
assert (Hk : Forall char_ok (rev k)) by (apply Forall_rev; rewrite E in Hl; by apply Forall_app in Hl as [_ Hl]).
destruct (drop_ws_split (rev k) Hk) as (w2 & E2 & Hw2 & Hn2). set (j := drop_ws (rev k)) in *.
assert (E3 : k = rev j ++ rev w2) by (rewrite <- rev_app_distr, <- E2; by rewrite rev_involutive).
rewrite E in *. unfold trim. rewrite trim_leading_run by done. cbn [mbind res_bind]. apply bytes_at_from in Hat. rewrite E3 in *.
rewrite trim_trailing_run; [|by apply Forall_rev|by rewrite rev_involutive|done]. split; [done|]. by apply bytes_at_first in Hat.
Qed.

Lemma is_text_at q l lit : bytes_at m q l → Forall (λ a, a ≠ 0) (chars lit) → is_text m (Str q (len l)) lit = Ok (eq_nocase (chars lit) l).
Proof.
intros Hat Hlit. unfold is_text. cbn [str_len str_s]. unfold eq_nocase. destruct (Z.eqb_spec (len l) (len (chars lit))) as [E|E].
- assert (El : length (lower (chars lit)) = length (lower l)) by (rewrite !length_lower; unfold len in E; lia).
  rewrite (strncasecmp_lit_at m q _ l) by (done || (rewrite !length_lower in El; lia)). f_equal.
  apply eq_true_iff_eq. rewrite prefixb_spec, list_eqb_spec, El, take_ge by done. done.
- symmetry. cbn [mret res_ret]. f_equal. apply not_true_iff_false. rewrite list_eqb_spec. intros H. apply (f_equal length) in H.
  rewrite !length_lower in H. unfold len in E. lia.
Qed.

Lemma val_at t vs : Forall val_in vs →
str_len (val_str t vs) = len (val_text t vs) ∧
match last_val t vs with
| Some (s, l) => str_s s ≠ 0 ∧ bytes_at m (str_s s) l ∧ Forall char_ok l ∧ len l < 2 ^ 31
| None => True
end.
Proof.
intros H. unfold val_str, val_text. induction H as [|[t' [s l]] vs (H1 & H2) _ IH]; [done|]. cbn [last_val].
destruct (last_val t vs) as [[s' l']|]; [done|]. by destruct (decide (t' = t)).
Qed.

Lemma val_text_at t vs : Forall val_in vs → val_text t vs ≠ [] →
∃ s, val_str t vs = Str s (len (val_text t vs)) ∧ bytes_at m s (val_text t vs) ∧ Forall char_ok (val_text t vs) ∧ len (val_text t vs) < 2 ^ 31.
Proof.
intros H Hne. destruct (val_at t vs H) as [Hl Hv]. unfold val_str, val_text in *. destruct (last_val t vs) as [[[a n] l]|]; [|done].
cbn [from_option fst snd str_s str_len] in *. exists a. subst n. split; [done|]. apply Hv.
Qed.

Lemma parse_qop_at p l : l ≠ [] → Forall char_ok l → bytes_at m p l → parse_qop m (Str p (len l)) = Ok (qop_of l).
Proof.
intros Hne Hl Hat. unfold parse_qop, qop_of. rewrite bool_decide_eq_false_2 by done.
destruct (trim_strip p l Hl Hat) as (q & -> & Hq). cbn [mbind res_bind].
rewrite !is_text_at by (done || (refine (bool_decide_unpack _ _); by vm_compute)). cbn [mbind res_bind].
by destruct (eq_nocase (chars "auth") (strip l)).
Qed.

Lemma parse_algorithm_at p l : l ≠ [] → Forall char_ok l → bytes_at m p l → parse_algorithm m (Str p (len l)) = Ok (alg_of l).
Proof.
intros Hne Hl Hat. unfold parse_algorithm, alg_of. rewrite bool_decide_eq_false_2 by done.
destruct (trim_strip p l Hl Hat) as (q & -> & Hq). cbn [mbind res_bind].
rewrite !is_text_at by (done || (refine (bool_decide_unpack _ _); by vm_compute)). cbn [mbind res_bind].
by destruct (eq_nocase (chars "MD5") (strip l)).
Qed.

Lemma before_at_split l : match before_at l with
| Some u => (∃ d, l = u ++ ch "@" :: d) ∧ Forall (λ a, a ≠ ch "@") u
| None => Forall (λ a, a ≠ ch "@") l
end.
Proof.
induction l as [|c l IH]; [constructor|]. cbn [before_at]. destruct (Z.eqb_spec c (ch "@")) as [->|Hc].
- split; [by exists l|constructor].
- destruct (before_at l) as [u|]; cbn [option_map]; [|by constructor]. destruct IH as [[d ->] Hu]. split; [by exists d|by constructor].
Qed.

Lemma parse_username_at p l : l ≠ [] → bytes_at m p l → len l < 2 ^ 31 →
parse_username m (MkUsername (Str p (len l)) null_str null_str) = Ok (username_of (Str p (len l)) l).
Proof.
intros Hne Hat Hlen. unfold parse_username, username_of. rewrite bool_decide_eq_false_2 by done. cbn [whole domain str_len str_s].
destruct (Z.leb_spec (len l) 2), (Z.ltb_spec 2 (len l)); try lia; [done|]. pose proof (len_nonneg l). rewrite to_uint_small by lia.
pose proof (before_at_split l) as Hb. destruct (before_at l) as [u|].
- destruct Hb as [[d ->] Hu]. rewrite len_app, len_cons in *. pose proof (len_nonneg u). pose proof (len_nonneg d).
  rewrite (q_memchr_first m p _ u d) by (done || lia). cbn [mbind res_bind]. rewrite (slice_len p u) by (done || lia).
  cbn [mret res_ret]. do 3 f_equal. lia.
- by rewrite (q_memchr_none m p _ l []) by (done || by rewrite app_nil_r).
Qed.

Lemma parse_values_at vs : Forall val_in vs → parse_values m (raw_cred vs) = Ok (cred_of vs).
Proof.
intros H. unfold parse_values, raw_cred, cred_of. cbn [qop_str alg_str qop_parsed alg_parsed d_username whole].
assert (Hpos : ∀ t, (0 <? str_len (val_str t vs)) = negb (bool_decide (val_text t vs = []))).
{ intros t. destruct (val_at t vs H) as [-> _]. destruct (val_text t vs) as [|c l]; [done|]. rewrite len_cons. pose proof (len_nonneg l).
  rewrite bool_decide_eq_false_2 by done. apply Z.ltb_lt. lia. }
rewrite !Hpos.
assert (Hq : (if negb (bool_decide (val_text PAR_QOP vs = [])) then parse_qop m (val_str PAR_QOP vs) else mret QOP_UNSPEC_D) = Ok (qop_of (val_text PAR_QOP vs))).
{ destruct (bool_decide_reflect (val_text PAR_QOP vs = [])) as [E|E]; cbn [negb]; [by rewrite E|].
  destruct (val_text_at _ _ H E) as (s & -> & Hat & Hok & _). by apply parse_qop_at. }
rewrite Hq. cbn [mbind res_bind]. clear Hq.
assert (Ha : (if negb (bool_decide (val_text PAR_ALGORITHM vs = [])) then parse_algorithm m (val_str PAR_ALGORITHM vs) else mret ALG_UNSPEC) = Ok (alg_of (val_text PAR_ALGORITHM vs))).
{ destruct (bool_decide_reflect (val_text PAR_ALGORITHM vs = [])) as [E|E]; cbn [negb]; [by rewrite E|].
  destruct (val_text_at _ _ H E) as (s & -> & Hat & Hok & _). by apply parse_algorithm_at. }
rewrite Ha. cbn [mbind res_bind]. clear Ha.
destruct (bool_decide_reflect (val_text PAR_USERNAME vs = [])) as [E|E]; cbn [negb].
- rewrite E. done.
- destruct (val_text_at _ _ H E) as (s & Es & Hat & Hok & Hl). rewrite Es, parse_username_at by done. done.
Qed.

(** The values lie in the text. *)
Lemma dval_in p x r : 0 < p → dparam_ok x → len (dparam_chars x) < 2 ^ 31 → bytes_at m p (dparam_chars x ++ r) →
Forall char_ok (dparam_chars x ++ r) → val_in (dval p x).
Proof.
intros Hp Hx Hlen Hat Hok. apply bytes_at_first in Hat. apply Forall_app in Hok as [Hok _]. unfold dparam_chars in *.
do 2 apply bytes_at_from in Hat. destruct Hat as [_ Hat]. apply bytes_at_from in Hat. apply bytes_at_first in Hat.
rewrite !Forall_app, Forall_cons, !Forall_app in Hok. destruct Hok as (_ & _ & _ & _ & Hok & _).
rewrite !len_app, len_cons, !len_app in Hlen. pose proof (len_nonneg (dt_name x)). pose proof (len_nonneg (dt_sp1 x)).
pose proof (len_nonneg (dt_sp2 x)). pose proof (len_nonneg (dt_sp3 x)).
unfold dval, val_in. destruct (dt_value x) as [l|l]; cbn [value_at value_text value_chars str_s str_len] in *.
- cbn [snd str_s str_len]. split_and!; try done; lia.
- destruct Hat as [_ Hat]. apply bytes_at_first in Hat. apply Forall_cons in Hok as [_ Hok]. apply Forall_app in Hok as [Hok _].
  rewrite len_cons, len_app in Hlen. change (len [DQUOTE]) with 1 in Hlen.
  cbn [snd str_s str_len]. split_and!; try done; lia.
Qed.

Lemma dvals_in p x xs ext : 0 < p → dlist_ok x xs → len (dlist_chars x xs) < 2 ^ 31 → bytes_at m p (dlist_chars x xs ++ ext) →
Forall char_ok (dlist_chars x xs ++ ext) → Forall val_in (dvals p x xs).
Proof.
intros Hp [Hx Hxs]. revert p x Hx Hp. induction Hxs as [|[sp x'] xs [Hsp Hx'] _ IH]; intros p x Hx Hp Hlen Hat Hok; cbn [dlist_chars dvals fst snd] in *.
- rewrite app_nil_r in *. constructor; [|constructor]. by apply (dval_in p x ext).
- pose proof (len_nonneg (dparam_chars x)). rewrite <- app_assoc in *. rewrite len_app, len_cons, len_app in Hlen. pose proof (len_nonneg sp).
  pose proof (len_nonneg (dlist_chars x' xs)). constructor; [apply (dval_in p x _ Hp Hx ltac:(lia) Hat Hok)|].
  apply bytes_at_from in Hat. destruct Hat as [_ Hat]. apply Forall_app in Hok as [_ Hok]. cbn [app] in Hok. apply Forall_cons in Hok as [_ Hok].
  rewrite <- app_assoc in *. apply Forall_app in Hok as [_ Hok]. apply bytes_at_from in Hat. apply IH; [done|lia|lia|done|done].
Qed.
End values.

(** ** The check of the semantics *)
Lemma missing_zero x e res : e ≠ 0 → missing x e res = 0 ↔ res = 0 ∧ str_s x ≠ 0.
Proof.
  intros He. unfold missing. destruct (Z.eqb_spec (str_s x) 0); [rewrite Z.lor_eq_0_iff|]; tauto.
Qed.

Lemma val_str_set m t vs : Forall (val_in m) vs → str_s (val_str t vs) ≠ 0 ↔ is_Some (last_val t vs).
Proof.
  intros H. destruct (val_at m t vs H) as [_ Hv]. unfold val_str. destruct (last_val t vs) as [[s l]|]; cbn [from_option fst].
  - split; [eauto|intros _; apply Hv].
  - cbn [str_s null_str]. split; [done|by intros [? ?]].
Qed.

Lemma user_set m vs : Forall (val_in m) vs →
  str_s (user (username_of (val_str PAR_USERNAME vs) (val_text PAR_USERNAME vs))) ≠ 0 ↔ val_text PAR_USERNAME vs ≠ [].
Proof.
  intros H. unfold username_of. destruct (bool_decide_reflect (val_text PAR_USERNAME vs = [])) as [E|E]; [cbn; naive_solver|].
  assert (Hs : str_s (val_str PAR_USERNAME vs) ≠ 0).
  { apply (val_str_set m); [done|]. unfold val_text in E. destruct (last_val PAR_USERNAME vs); [eauto|done]. }
  destruct (if 2 <? len (val_text PAR_USERNAME vs) then before_at (val_text PAR_USERNAME vs) else None); cbn [user str_s]; tauto.
Qed.

Definition has (t : dig_par) (vs : list (dig_par * (str * list Z))) : Prop := is_Some (last_val t vs).

Lemma check_ok m vs : Forall (val_in m) vs → check_dig_cred (cred_of vs) = 0 ↔
  val_text PAR_USERNAME vs ≠ [] ∧ Forall (λ t, has t vs) [PAR_REALM; PAR_NONCE; PAR_URI; PAR_RESPONSE] ∧
  (qop_of (val_text PAR_QOP vs) = QOP_AUTH_D ∨ qop_of (val_text PAR_QOP vs) = QOP_AUTHINT_D →
   has PAR_CNONCE vs ∧ has PAR_NC vs).
Proof.
  intros H. rewrite !Forall_cons, Forall_nil. unfold has. rewrite <- (user_set m), <- !(val_str_set m) by done.
  unfold check_dig_cred, cred_of. cbn [d_username d_realm d_nonce d_uri d_response qop_parsed d_cnonce d_nc].
  destruct (qop_of (val_text PAR_QOP vs)); rewrite !missing_zero by done; intuition discriminate.
Qed.

(** ** Properties *)
Definition digest_chars (lead scheme : list Z) (a : Z) (sp : list Z) (x : dparam) (xs : list (list Z * dparam)) : list Z :=
  lead ++ scheme ++ a :: sp ++ dlist_chars x xs.

(** C33: every well-formed Digest credentials, of any number of parameters, known and
    unknown, with quoted and unquoted values, are accepted: every attribute is the last value of
    its name, the algorithm and the quality of protection are the ones that their values
    name up to case, the user name is divided at its [@]; and the check of the
    semantics finds nothing missing exactly if there are a user name, a realm, a nonce, a URI and
    a response and, with a quality of protection, a client nonce and a count. *)
Theorem credentials_text m p lead scheme a sp x xs ext : 0 < p → white lead → lower scheme = chars "digest" →
  (is_ws a || (a =? ch ",")) = true → white sp → dlist_ok x xs → (2 ≤ length ext)%nat →
  len (digest_chars lead scheme a sp x xs) < 2 ^ 31 → Forall char_ok (dlist_chars x xs ++ ext) →
  bytes_at m p (digest_chars lead scheme a sp x xs ++ ext) →
  let vs := dvals (p + len lead + 7 + len sp) x xs in
  parse_credentials m true (Str p (len (digest_chars lead scheme a sp x xs))) None =
    Ok (0, Some (MkAuth None (cred_of vs) false)) ∧
  (check_dig_cred (cred_of vs) = 0 ↔
   val_text PAR_USERNAME vs ≠ [] ∧ Forall (λ t, has t vs) [PAR_REALM; PAR_NONCE; PAR_URI; PAR_RESPONSE] ∧
   (qop_of (val_text PAR_QOP vs) = QOP_AUTH_D ∨ qop_of (val_text PAR_QOP vs) = QOP_AUTHINT_D →
    has PAR_CNONCE vs ∧ has PAR_NC vs)).
Proof.
  intros Hp Hlead Hscheme Ha Hsp Hx Hext Hlen Hok Hat vs. unfold digest_chars in *.
  assert (Hl6 : len scheme = 6) by (unfold len; rewrite <- (length_lower scheme), Hscheme; done).
  pose proof (len_nonneg lead). pose proof (len_nonneg sp). pose proof (len_nonneg (dlist_chars x xs)).
  assert (Hb : bytes_at m (p + len lead + 7 + len sp) (dlist_chars x xs ++ ext)).
  { rewrite <- app_assoc in Hat. apply bytes_at_from in Hat. rewrite <- app_assoc in Hat. apply bytes_at_from in Hat. destruct Hat as [_ Hat].
    rewrite Hl6, <- app_assoc in Hat. apply bytes_at_from in Hat. by replace (p + len lead + 7 + len sp) with (p + len lead + 6 + 1 + len sp) by lia. }
  rewrite !len_app, len_cons, len_app in Hlen.
  assert (Hvs : Forall (val_in m) vs) by (apply (dvals_in m _ x xs ext); done || lia).
  split; [|by apply (check_ok m)]. unfold parse_credentials, new_credentials, parse_digest_cred. cbn [digest authorized stale].
  rewrite trim_leading_run; [|done|by apply bytes_at_first in Hat|destruct scheme as [|c s]; [done|]].
  - cbn [mbind res_bind str_s str_len]. rewrite <- app_assoc in Hat. apply bytes_at_from in Hat. rewrite <- app_assoc in Hat.
    unfold DIG_LEN. destruct (Z.ltb_spec (len (scheme ++ a :: sp ++ dlist_chars x xs)) (6 + 1)) as [Hs|_];
      [rewrite len_app, len_cons, len_app in Hs; lia|].
    rewrite (strncasecmp_lit_at m _ (chars "digest") scheme); [|by apply bytes_at_first in Hat|unfold len in Hl6; cbn; lia|by refine (bool_decide_unpack _ _); vm_compute].
    rewrite Hscheme. replace (prefixb (lower (chars "digest")) (chars "digest")) with true by (by vm_compute). cbn [mbind res_bind negb].
    apply bytes_at_from in Hat. rewrite Hl6 in Hat. destruct Hat as [Hra Hat]. rewrite Hra. cbn [mbind res_bind]. rewrite Ha.
    replace (len (scheme ++ a :: sp ++ dlist_chars x xs) - (6 + 1)) with (len (sp ++ dlist_chars x xs)) by (rewrite !len_app, len_cons, len_app; lia).
    replace (p + len lead + (6 + 1)) with (p + len lead + 6 + 1) by lia. destruct (dlist_head x xs) as [r Hr].
    rewrite trim_leading_run; [|done|apply (bytes_at_first _ _ _ ext); exact Hat|rewrite Hr; by apply dparam_no_ws, Hx].
    cbn [mbind res_bind]. unfold parse_digest_params. cbn [str_s].
    replace (p + len lead + 6 + 1 + len sp) with (p + len lead + 7 + len sp) by lia.
    rewrite (dlist_run m _ x xs ext init_dig_cred Hx Hext ltac:(lia) Hb Hok) by (cbn [fst str_s]; lia). cbn [mbind res_bind].
    rewrite fold_values, parse_values_at by done. done.
  - injection Hscheme as Hc _. change (tolower c = ch "d") in Hc. unfold tolower in Hc.
    assert (c = ch "d" ∨ c = ch "D") as [-> | ->]; [|done..]. destruct (is_upper c); [right|left; done].
    change (ch "d") with 100 in Hc. change (ch "D") with 68. lia.
Qed.

Definition sample_dparam : dparam := DParam (chars "userName") [] (chars " ") (Quoted (chars "bob@x")) (chars " ").
Definition sample_dparams : list (list Z * dparam) :=
  [(chars " ", DParam (chars "realm") (chars " ") [] (Quoted (chars "a, b")) []);
   (chars " ", DParam (chars "nonce") [] [] (Quoted (chars "84f1")) []);
   ([], DParam (chars "uri") [] [] (Quoted (chars "sip:x")) []);
   (chars " ", DParam (chars "response") [] [] (Quoted (chars "0a")) []);
   (chars " ", DParam (chars "x") [] [] (Token (chars "y=z")) []);
   (chars " ", DParam (chars "qop") [] [] (Token (chars "AUTH")) []);
   (chars " ", DParam (chars "nc") [] [] (Token (chars "1")) []);
   (chars " ", DParam (chars "cnonce") [] [] (Quoted (chars "c")) []);
   (chars " ", DParam (chars "algorithm") [] [] (Token (chars "md5")) (chars " "))].

Lemma sample_dparams_ok : dlist_ok sample_dparam sample_dparams.
Proof.
  unfold dlist_ok, sample_dparam, sample_dparams. rewrite !Forall_cons, Forall_nil. cbn [fst snd]. unfold dparam_ok, dname_ok, white.
  cbn [dt_name dt_sp1 dt_sp2 dt_value dt_sp3 dvalue_ok].
  split_and!; done || (refine (bool_decide_unpack _ _); by vm_compute).
Qed.

Lemma credentials_text_witness :
  let text := digest_chars (chars " ") (chars "Digest") SPC [] sample_dparam sample_dparams in
  let vs := dvals (4096 + len (chars " ") + 7 + len []) sample_dparam sample_dparams in
  parse_credentials (block (text ++ [CR; LF])) true (Str 4096 (len text)) None = Ok (0, Some (MkAuth None (cred_of vs) false)) ∧
  check_dig_cred (cred_of vs) = 0.
Proof.
  destruct (credentials_text (block (digest_chars (chars " ") (chars "Digest") SPC [] sample_dparam sample_dparams ++ [CR; LF])) 4096
    (chars " ") (chars "Digest") SPC [] sample_dparam sample_dparams [CR; LF]) as [H1 H2];
    [done|apply Forall_singleton; by left|done|done|constructor|apply sample_dparams_ok|done|by vm_compute
    |refine (bool_decide_unpack _ _); by vm_compute|by vm_compute|].
  split; [exact H1|]. apply H2. split; [by vm_compute|]. split.
  - repeat (apply Forall_cons; split); [by vm_compute; eexists..|by apply Forall_nil_2].
  - intros _. split; by vm_compute; eexists.
Defined.

(** A name that is not followed by an equals sign swallows the next parameter. *)
Lemma swallowed_param :
  let text := chars "Digest stale, realm=a, " ++ chars "nonce=b" in
  (λ r, match r with (_, Some a) => bool_decide (d_realm (digest a) = null_str ∧ d_nonce (digest a) = Str 4125 1) | _ => false end) <$>
    parse_credentials (block (text ++ [CR; LF])) true (Str 4096 (len text)) None = Ok true.
Proof. by vm_compute. Qed.

(** The cases of [real] and [nonc] fall through to the next ones. *)
Lemma digest_falls_through :
  (λ r, match r with Some (_, t) => bool_decide (t = PAR_NONCE) | None => false end) <$>
    parse_param_name (block (chars "realabcde=x")) (Str 4096 11) = Ok true ∧
  (λ r, match r with Some (_, t) => bool_decide (t = PAR_RESPONSE) | None => false end) <$>
    parse_param_name (block (chars "noncabcdonse=x")) (Str 4096 14) = Ok true.
Proof. by vm_compute. Qed.

(** Then [p] is behind the end of the text, and the search for an equals sign gets a
    negative length, as a large unsigned number. *)
Lemma digest_overrun l : Forall (λ a, a ≠ ch "=") l → len l < 2 ^ 31 →
  parse_param_name (block (chars "real=1abcdef" ++ chars "ghij" ++ l ++ chars "=")) (Str 4096 6) =
    Ok (Some (Str (4096 + 16 + len l) (6 - (16 + len l)), PAR_OTHER)).
Proof.
  intros Hl Hlen. set (m := block _). pose proof (bytes_at_data m) as Hat. change (mbase m) with 4096 in Hat.
  change (mdata m) with (chars "real=1abcdef" ++ chars "ghij" ++ l ++ chars "=") in Hat. apply bytes_at_from in Hat.
  unfold parse_param_name. cbn [str_s str_len]. assert (∃ v, READ m 4096 = Ok v ∧ name_switch m 4096 v = Ok (Goto_other 4108)) as (v & -> & E).
  { eexists. split; by vm_compute. }
  cbn [mbind res_bind Z.ltb Z.compare Pos.compare Pos.compare_cont]. rewrite E. cbn [mbind res_bind]. unfold other_name. cbn [str_s str_len].
  change (4096 + len (chars "real=1abcdef")) with 4108 in Hat. rewrite app_assoc in Hat. pose proof (len_nonneg l).
  change (to_uint (4096 + 6 - 4108)) with (2 ^ 32 - 6).
  rewrite (q_memchr_first m 4108 _ (chars "ghij" ++ l) []); [|apply Forall_app; split; [refine (bool_decide_unpack _ _); by vm_compute|done]|done|].
  - cbn [mbind res_bind mret res_ret]. rewrite len_app. change (len (chars "ghij")) with 4. do 4 f_equal; lia.
  - rewrite len_app. change (len (chars "ghij")) with 4. lia.
Qed.
