(* ===== verification/To.v ===== *)
(** * The To header: parse_to.c and the data of parse_to.h

    Every [case] of the two loops is one definition.  The two enumerations of
    states are one type; their values are different.  A parameter and a further
    body are allocated at a character of the header, at most one of them at each:
    [malloc tmp] tells if [pkg_malloc] succeeds at the character [tmp]. *)

From stdpp Require Import strings.
From S2P Require Export ParserF.

Module To.

(** The two enumerations of parse_to.c. *)
Inductive tstate :=
| START_TO | DISPLAY_QUOTED | E_DISPLAY_QUOTED | DISPLAY_TOKEN | DISPLAY_TOKEN2
| S_URI_ENCLOSED | URI_ENCLOSED | E_URI_ENCLOSED
| URI_OR_TOKEN | MAYBE_URI_END | END | F_CR | F_LF | F_CRLF
| S_PARA_NAME | PARA_NAME | S_EQUAL | S_PARA_VALUE | TAG1 | TAG2
| TAG3 | PARA_VALUE_TOKEN | PARA_VALUE_QUOTED | E_PARA_VALUE.

#[export] Instance tstate_eq_dec : EqDecision tstate.
Proof. solve_decision. Defined.

(** parse_to.h *)
Inductive to_type := TAG_PARAM | GENERAL_PARAM.

(** [struct to_param]; the link [next] is the order of the list. *)
Record to_param := ToParam { tp_type : to_type; tp_name : str; tp_value : str }.

(** [struct to_body], without the URI that [parse_to_uri] keeps there; [next] is
    the order of the list of bodies. *)
Record to_body := ToBody {
  tb_error : bool;              (* PARSE_ERROR *)
  tb_body : str;
  tb_uri : str;
  tb_display : str;
  tb_tag_value : str;
  tb_param_lst : list to_param;
}.

(** After [memset] and [error=PARSE_OK]. *)
Definition empty_body : to_body := ToBody false null_str null_str null_str null_str [].

(** [memset(param,0,sizeof(struct to_param)); param->type=GENERAL_PARAM;] *)
Definition new_param : to_param := ToParam GENERAL_PARAM null_str null_str.

Definition set_s (a : Z) (x : str) : str := Str a (str_len x).
(** [x.len = a - x.s] *)
Definition end_at (a : Z) (x : str) : str := slice (str_s x) a.

Definition tag_type (p : to_param) : to_param := ToParam TAG_PARAM (tp_name p) (tp_value p).
Definition on_name (f : str → str) (p : to_param) : to_param :=
  ToParam (tp_type p) (f (tp_name p)) (tp_value p).
Definition on_value (f : str → str) (p : to_param) : to_param :=
  ToParam (tp_type p) (tp_name p) (f (tp_value p)).

Definition on_body (f : str → str) (b : to_body) : to_body :=
  ToBody (tb_error b) (f (tb_body b)) (tb_uri b) (tb_display b) (tb_tag_value b) (tb_param_lst b).
Definition on_uri (f : str → str) (b : to_body) : to_body :=
  ToBody (tb_error b) (tb_body b) (f (tb_uri b)) (tb_display b) (tb_tag_value b) (tb_param_lst b).
Definition on_display (f : str → str) (b : to_body) : to_body :=
  ToBody (tb_error b) (tb_body b) (tb_uri b) (f (tb_display b)) (tb_tag_value b) (tb_param_lst b).

(** [free_to_params] and [error=PARSE_ERROR]. *)
Definition failed (b : to_body) : to_body :=
  ToBody true (tb_body b) (tb_uri b) (tb_display b) (tb_tag_value b) [].

(** ** [parse_to_param] *)

(** The local variables; [param] may be null. *)
Record tvars := TVars {
  t_status : tstate;
  t_saved : tstate;
  t_param : option to_param;
  t_body : to_body;
}.

Definition go (st : tstate) (x : tvars) : tvars := TVars st (t_saved x) (t_param x) (t_body x).
Definition save (st : tstate) (x : tvars) : tvars := TVars (t_status x) st (t_param x) (t_body x).

(** [param->...]: nothing is behind a null pointer. *)
Definition param (x : tvars) : res to_param :=
  match t_param x with Some p => mret p | None => Fault 0 end.

Definition on_param (f : to_param → to_param) (x : tvars) : res tvars :=
  p ← param x; mret (TVars (t_status x) (t_saved x) (Some (f p)) (t_body x)).

(** The macro [add_param]. *)
Definition add_param (x : tvars) : res tvars :=
  p ← param x;
  let b := t_body x in
  mret (TVars (t_status x) (t_saved x) None
    (ToBody (tb_error b) (tb_body b) (tb_uri b) (tb_display b)
      (match tp_type p with TAG_PARAM => tp_value p | GENERAL_PARAM => tb_tag_value b end)
      (tb_param_lst b ++ [p]))).

(** Where a [case] goes: on with the loop, on with one more character skipped, to
    a label. *)
Inductive tout (X : Type) :=
| TNext (x : X)
| TSkip (x : X)
| TEnd (x : X)          (* endofheader *)
| TParseError (x : X)   (* parse_error *)
| TError (x : X).       (* error *)
Arguments TNext {X}.
Arguments TSkip {X}.
Arguments TEnd {X}.
Arguments TParseError {X}.
Arguments TError {X}.

(** [pkg_malloc] never fails. *)
Definition always (tmp : Z) : bool := true.

Section param.
Context (malloc : Z → bool) (m : mem) (tmp : Z) (multi : bool) (x : tvars).
Let st := t_status x.

(** [param->name.len = tmp-param->name.s;] and the same for the value. *)
Definition name_end : tvars → res tvars := on_param (on_name (end_at tmp)).
Definition value_end : tvars → res tvars := on_param (on_value (end_at tmp)).

(** The name ends before a blank, a line break or [=]. *)
Definition name_done : res tvars :=
  match st with TAG3 => x ← on_param tag_type x; name_end x | _ => name_end x end.

(** A token ends, and its parameter is added. *)
Definition token_done (x : tvars) : res tvars := x ← value_end x; add_param x.

Definition tp_space : res (tout tvars) :=
  match st with
  | TAG3 | PARA_NAME | TAG1 | TAG2 => x ← name_done; mret (TNext (go S_EQUAL x))
  | PARA_VALUE_TOKEN => x ← token_done x; mret (TNext (go E_PARA_VALUE x))
  | F_CRLF | F_LF | F_CR => mret (TNext (go (t_saved x) x))
  | _ => mret (TNext x)
  end.

Definition tp_lf : res (tout tvars) :=
  match st with
  | S_PARA_NAME | S_EQUAL | S_PARA_VALUE | E_PARA_VALUE => mret (TNext (go F_LF (save st x)))
  | TAG3 | PARA_NAME | TAG1 | TAG2 => x ← name_done; mret (TNext (go F_LF (save S_EQUAL x)))
  | PARA_VALUE_TOKEN => x ← token_done x; mret (TNext (go F_LF (save E_PARA_VALUE x)))
  | F_CR => mret (TNext (go F_CRLF x))
  | F_CRLF | F_LF => mret (TEnd (go (t_saved x) x))
  | _ => mret (TParseError x)
  end.

Definition tp_cr : res (tout tvars) :=
  match st with
  | S_PARA_NAME | S_EQUAL | S_PARA_VALUE | E_PARA_VALUE => mret (TNext (go F_CR (save st x)))
  | TAG3 | PARA_NAME | TAG1 | TAG2 => x ← name_done; mret (TNext (go F_CR (save S_EQUAL x)))
  | PARA_VALUE_TOKEN => x ← token_done x; mret (TNext (go F_CR (save E_PARA_VALUE x)))
  | F_CRLF | F_CR | F_LF => mret (TEnd (go (t_saved x) x))
  | _ => mret (TParseError x)
  end.

(** [if (param->type==TAG_PARAM) goto parse_error; param->value.s = tmp;], and what
    follows for a token: [None] when the jump is taken. *)
Definition empty_value (x : tvars) : res (option tvars) :=
  p ← param x;
  match tp_type p with
  | TAG_PARAM => mret None
  | GENERAL_PARAM => Some <$> on_param (on_value (set_s tmp)) x
  end.

(** From [case PARA_NAME:] on: the parameter is ended and added. *)
Definition param_done : res (option tvars) :=
  match st with
  | PARA_NAME =>
      x ← name_end x; e ← empty_value x;
      match e with Some x => Some <$> token_done x | None => mret None end
  | S_EQUAL | S_PARA_VALUE =>
      e ← empty_value x;
      match e with Some x => Some <$> token_done x | None => mret None end
  | PARA_VALUE_TOKEN => Some <$> token_done x
  | _ => mret (Some x)
  end.

(** The variables at [goto parse_error] of [empty_value]. *)
Definition named : res tvars := match st with PARA_NAME => name_end x | _ => mret x end.

(** A comma or a NUL. *)
Definition tp_comma (c : Z) : res (tout tvars) :=
  match st with
  | PARA_VALUE_QUOTED => mret (TNext x)
  | PARA_NAME | S_EQUAL | S_PARA_VALUE | PARA_VALUE_TOKEN | E_PARA_VALUE =>
      e ← param_done;
      match e with
      | None => TParseError <$> named
      | Some x =>
          let x := save E_PARA_VALUE (go E_PARA_VALUE x) in
          if negb multi && (c =? ch ",") then mret (TParseError x) else mret (TEnd x)
      end
  | _ => mret (TParseError x)
  end.

Definition tp_backslash : res (tout tvars) :=
  match st with
  | PARA_VALUE_QUOTED =>
      c ← rd m (tmp + 1);
      if is_crlf c then mret (TNext x) else mret (TSkip x)
  | _ => mret (TParseError x)
  end.

Definition tp_quote : res (tout tvars) :=
  match st with
  | S_PARA_VALUE =>
      x ← on_param (on_value (set_s (tmp + 1))) x; mret (TNext (go PARA_VALUE_QUOTED x))
  | PARA_VALUE_QUOTED => x ← token_done x; mret (TNext (go E_PARA_VALUE x))
  | F_CRLF | F_LF | F_CR => mret (TEnd x)
  | _ => mret (TParseError x)
  end.

Definition tp_semicolon : res (tout tvars) :=
  match st with
  | PARA_VALUE_QUOTED => mret (TNext x)
  | PARA_NAME | S_EQUAL | S_PARA_VALUE | PARA_VALUE_TOKEN | E_PARA_VALUE =>
      e ← param_done;
      match e with
      | None => TParseError <$> named
      | Some x =>
          mret (if malloc tmp then TNext (TVars S_PARA_NAME (t_saved x) (Some new_param) (t_body x))
                else TError (TVars (t_status x) (t_saved x) None (t_body x)))
      end
  | F_CRLF | F_LF | F_CR => mret (TEnd x)
  | _ => mret (TParseError x)
  end.

(** The letters of [tag] and the other characters: [tag] gives the next state
    within the word [tag]. *)
Definition tp_letter (first : tstate) (tag : tstate → tstate) : res (tout tvars) :=
  match st with
  | PARA_VALUE_QUOTED | PARA_VALUE_TOKEN | PARA_NAME => mret (TNext x)
  | S_PARA_NAME => x ← on_param (on_name (set_s tmp)) x; mret (TNext (go first x))
  | S_PARA_VALUE => x ← on_param (on_value (set_s tmp)) x; mret (TNext (go PARA_VALUE_TOKEN x))
  | TAG1 | TAG2 | TAG3 => mret (TNext (go (tag st) x))
  | F_CRLF | F_LF | F_CR => mret (TEnd x)
  | _ => mret (TParseError x)
  end.

Definition tp_t : res (tout tvars) := tp_letter TAG1 (λ _, PARA_NAME).
Definition tp_a : res (tout tvars) :=
  tp_letter PARA_NAME (λ st, match st with TAG1 => TAG2 | _ => PARA_NAME end).
Definition tp_g : res (tout tvars) :=
  tp_letter PARA_NAME (λ st, match st with TAG2 => TAG3 | _ => PARA_NAME end).

Definition tp_equal : res (tout tvars) :=
  match st with
  | PARA_VALUE_QUOTED => mret (TNext x)
  | TAG3 | PARA_NAME | TAG1 | TAG2 => x ← name_done; mret (TNext (go S_PARA_VALUE x))
  | S_EQUAL => mret (TNext (go S_PARA_VALUE x))
  | F_CRLF | F_LF | F_CR => mret (TEnd x)
  | _ => mret (TParseError x)
  end.

(** [default:] differs from the letters only in the label of the errors. *)
Definition tp_default : res (tout tvars) :=
  o ← tp_letter PARA_NAME (λ _, PARA_NAME);
  mret (match o with TParseError x => TError x | o => o end).

Definition tp_step (c : Z) : res (tout tvars) :=
  if is_sp c then tp_space
  else if c =? LF then tp_lf
  else if c =? CR then tp_cr
  else if (c =? NUL) || (c =? ch ",") then tp_comma c
  else if c =? BSLASH then tp_backslash
  else if c =? DQUOTE then tp_quote
  else if c =? ch ";" then tp_semicolon
  else if one_of c "Tt" then tp_t
  else if one_of c "Aa" then tp_a
  else if one_of c "Gg" then tp_g
  else if c =? ch "=" then tp_equal
  else tp_default.
End param.

(** The loops [for( tmp=buffer; tmp<end; tmp++)]. *)
Definition t_round {X} (step : Z → X → Z → res (Z * tout X)) (m : mem) (pend : Z) (s : Z * X) :
    res (Z * X + Z * tout X) :=
  let '(tmp, x) := s in
  if tmp <? pend then
    c ← rd m tmp;
    '(tmp, o) ← step tmp x c;
    mret (match o with
          | TNext x => inl (tmp + 1, x)
          | TSkip x => inl (tmp + 2, x)
          | o => inr (tmp, o)
          end)
  else mret (inr (tmp, TEnd x)).

Definition t_loop {X} (step : Z → X → Z → res (Z * tout X)) (m : mem) (pend tmp : Z) (x : X) :
    res (Z * tout X) :=
  loop (t_round step m pend) (S (Z.to_nat (pend - tmp))) (tmp, x).

(** The label [endofheader]: the status that is returned, and the body. *)
Definition tp_end (x : tvars) : res (tstate * to_body) :=
  match t_param x with
  | None => mret (t_saved x, t_body x)
  | Some p =>
      if bool_decide (t_saved x = S_EQUAL) || bool_decide (t_saved x = S_PARA_VALUE) then
        let x := save E_PARA_VALUE x in
        x ← on_param (on_value (λ _, null_str)) x;
        match tp_type p with
        | TAG_PARAM => mret (t_status x, failed (t_body x))
        | GENERAL_PARAM => x ← add_param x; mret (t_saved x, t_body x)
        end
      else mret (t_saved x, t_body x)
  end.

(** The pointer, [*returned_status] and [*to_b]. *)
Definition parse_to_param (malloc : Z → bool) (m : mem) (buffer pend : Z) (to_b : to_body) (multi : bool) :
    res (Z * tstate * to_body) :=
  '(tmp, o) ← t_loop (λ tmp x c, pair tmp <$> tp_step malloc m tmp multi x c) m pend buffer
    (TVars E_PARA_VALUE E_PARA_VALUE None to_b);
  match o with
  | TParseError x | TError x => mret (tmp, t_status x, failed (t_body x))
  | TNext x | TSkip x | TEnd x => '(st, b) ← tp_end x; mret (tmp, st, b)
  end.

(** ** [_parse_to] *)

(** The local variables; [prev] are the bodies before [*to_b]. *)
Record mvars := MVars {
  m_status : tstate;
  m_saved : tstate;
  m_end_mark : Z;
  m_prev : list to_body;
  m_body : to_body;
}.

Definition at_status (st : tstate) (x : mvars) : mvars :=
  MVars st (m_saved x) (m_end_mark x) (m_prev x) (m_body x).
Definition saving (st : tstate) (x : mvars) : mvars :=
  MVars (m_status x) st (m_end_mark x) (m_prev x) (m_body x).
Definition mark (a : Z) (x : mvars) : mvars :=
  MVars (m_status x) (m_saved x) a (m_prev x) (m_body x).
Definition body_with (f : to_body → to_body) (x : mvars) : mvars :=
  MVars (m_status x) (m_saved x) (m_end_mark x) (m_prev x) (f (m_body x)).

(** A new body: [to_b = to_b->next; ... saved_status = status = START_TO; end_mark=0;] *)
Definition next_body (x : mvars) : mvars :=
  MVars START_TO START_TO 0 (m_prev x ++ [m_body x]) empty_body.

Section main.
Context (malloc : Z → bool) (m : mem) (pend : Z) (tmp : Z) (multi : bool) (x : mvars).
Let st := m_status x.

Definition uri_end (a : Z) : mvars → mvars := body_with (on_uri (end_at a)).

Definition mt_space : tout mvars :=
  match st with
  | F_CRLF | F_LF | F_CR => TNext (at_status (m_saved x) x)
  | URI_ENCLOSED => TNext (at_status E_URI_ENCLOSED (uri_end tmp x))
  | URI_OR_TOKEN => TNext (mark tmp (at_status MAYBE_URI_END x))
  | DISPLAY_TOKEN => TNext (at_status DISPLAY_TOKEN2 (mark tmp x))
  | _ => TNext x
  end.

(** A line break in a state that may be continued: [status] is saved. *)
Definition fold_line (brk : tstate) : tout mvars :=
  match st with
  | URI_OR_TOKEN => TNext (at_status brk (saving MAYBE_URI_END (mark tmp x)))
  | _ => TNext (at_status brk (saving st x))
  end.

Definition mt_lf : tout mvars :=
  match st with
  | URI_OR_TOKEN | MAYBE_URI_END | DISPLAY_TOKEN | DISPLAY_TOKEN2 | E_DISPLAY_QUOTED | END =>
      fold_line F_LF
  | F_CR => TNext (at_status F_CRLF x)
  | F_CRLF | F_LF => TEnd (at_status (m_saved x) x)
  | _ => TParseError x
  end.

Definition mt_cr : tout mvars :=
  match st with
  | URI_OR_TOKEN | MAYBE_URI_END | DISPLAY_TOKEN | DISPLAY_TOKEN2 | E_DISPLAY_QUOTED | END =>
      fold_line F_CR
  | F_CRLF | F_CR | F_LF => TEnd (at_status (m_saved x) x)
  | _ => TParseError x
  end.

Definition mt_nul : tout mvars :=
  match st with
  | URI_OR_TOKEN | MAYBE_URI_END => TEnd (saving END (at_status END (uri_end tmp x)))
  | END => TEnd (saving END (at_status END x))
  | _ => TParseError x
  end.

(** A further body, allocated at the character [tmp]. *)
Definition new_body (tmp : Z) (x : mvars) : tout mvars :=
  if malloc tmp then TNext (next_body x) else TError x.

Definition mt_comma : tout mvars :=
  match st with
  | DISPLAY_QUOTED | URI_ENCLOSED => TNext x
  | URI_OR_TOKEN => if negb multi then TNext x else new_body tmp (uri_end tmp x)
  | MAYBE_URI_END =>
      let x := uri_end tmp x in
      if negb multi then TParseError x else new_body tmp x
  | END => if negb multi then TParseError x else new_body tmp x
  | _ => TParseError x
  end.

Definition mt_backslash : tout mvars :=
  match st with
  | DISPLAY_QUOTED => TSkip x
  | _ => TParseError x
  end.

(** [to_b->display.len=end_mark-to_b->display.s; status = S_URI_ENCLOSED;] *)
Definition display_done (x : mvars) : tout mvars :=
  TNext (at_status S_URI_ENCLOSED (body_with (on_display (end_at (m_end_mark x))) x)).

Definition mt_open : tout mvars :=
  match st with
  | START_TO => TNext (at_status S_URI_ENCLOSED (body_with (on_body (set_s tmp)) x))
  | DISPLAY_QUOTED => TNext x
  | E_DISPLAY_QUOTED => TNext (at_status S_URI_ENCLOSED x)
  | URI_OR_TOKEN | DISPLAY_TOKEN => display_done (mark tmp x)
  | DISPLAY_TOKEN2 | MAYBE_URI_END => display_done x
  | F_CRLF | F_LF | F_CR => TEnd x
  | _ => TParseError x
  end.

Definition mt_close : tout mvars :=
  match st with
  | DISPLAY_QUOTED => TNext x
  | URI_ENCLOSED => TNext (at_status END (uri_end tmp x))
  | E_URI_ENCLOSED => TNext (at_status END x)
  | F_CRLF | F_LF | F_CR => TEnd x
  | _ => TParseError x
  end.

Definition mt_quote : tout mvars :=
  match st with
  | START_TO =>
      TNext (at_status DISPLAY_QUOTED
        (body_with (on_display (set_s tmp)) (body_with (on_body (set_s tmp)) x)))
  | DISPLAY_QUOTED =>
      TNext (at_status E_DISPLAY_QUOTED (body_with (on_display (end_at (tmp + 1))) x))
  | F_CRLF | F_LF | F_CR => TEnd x
  | _ => TParseError x
  end.

(** From [case END:] on: the parameters are parsed. *)
Definition to_params (x : mvars) : res (Z * tout mvars) :=
  '(tmp, saved, b) ← parse_to_param malloc m tmp pend (on_body (end_at tmp) (m_body x)) multi;
  let x := MVars (m_status x) saved (m_end_mark x) (m_prev x) b in
  if negb (tb_error b) && multi then
    c ← rd m tmp;
    mret (tmp, if c =? ch "," then new_body tmp x else TEnd x)
  else mret (tmp, TEnd x).

Definition mt_semicolon : res (Z * tout mvars) :=
  match st with
  | DISPLAY_QUOTED | DISPLAY_TOKEN | URI_ENCLOSED => mret (tmp, TNext x)
  | URI_OR_TOKEN => to_params (uri_end tmp (mark tmp x))
  | MAYBE_URI_END => to_params (uri_end (m_end_mark x) x)
  | END => to_params x
  | F_CRLF | F_LF | F_CR => mret (tmp, TEnd x)
  | _ => mret (tmp, TParseError x)
  end.

Definition mt_default : tout mvars :=
  match st with
  | START_TO =>
      TNext (at_status URI_OR_TOKEN (body_with
        (λ b, on_display (set_s tmp) (on_body (set_s tmp) (on_uri (set_s tmp) b))) x))
  | S_URI_ENCLOSED => TNext (at_status URI_ENCLOSED (body_with (on_uri (set_s tmp)) x))
  | MAYBE_URI_END | DISPLAY_TOKEN2 => TNext (at_status DISPLAY_TOKEN x)
  | DISPLAY_QUOTED | DISPLAY_TOKEN | URI_ENCLOSED | URI_OR_TOKEN => TNext x
  | F_CRLF | F_LF | F_CR => TEnd x
  | _ => TError x
  end.

Definition mt_step (c : Z) : res (Z * tout mvars) :=
  if is_sp c then mret (tmp, mt_space)
  else if c =? LF then mret (tmp, mt_lf)
  else if c =? CR then mret (tmp, mt_cr)
  else if c =? NUL then mret (tmp, mt_nul)
  else if c =? ch "," then mret (tmp, mt_comma)
  else if c =? BSLASH then mret (tmp, mt_backslash)
  else if c =? ch "<" then mret (tmp, mt_open)
  else if c =? ch ">" then mret (tmp, mt_close)
  else if c =? DQUOTE then mret (tmp, mt_quote)
  else if c =? ch ";" then mt_semicolon
  else mret (tmp, mt_default).
End main.

(** [if (to_b->display.len==0) to_b->display.s=0;] *)
Definition drop_empty_display : to_body → to_body :=
  on_display (λ d, if str_len d =? 0 then set_s 0 d else d).

(** The label [error]: the first body is marked, those after it are freed. *)
Definition mt_error (x : mvars) : list to_body :=
  match m_prev x with
  | [] => [failed (m_body x)]
  | first :: _ => [failed first]
  end.

(** The label [endofheader]. *)
Definition mt_end (tmp : Z) (x : mvars) : list to_body :=
  let x := body_with drop_empty_display x in
  match m_saved x with
  | MAYBE_URI_END =>
      m_prev x ++ [on_body (end_at tmp) (on_uri (end_at (m_end_mark x)) (m_body x))]
  | END => m_prev x ++ [on_body (end_at tmp) (m_body x)]
  | E_PARA_VALUE => m_prev x ++ [m_body x]
  | _ => mt_error x
  end.

(** The pointer that is returned, and the list that begins with [*to_b]. *)
Definition _parse_to (malloc : Z → bool) (m : mem) (buffer pend : Z) (multi : bool) : res (Z * list to_body) :=
  '(tmp, o) ← t_loop (λ tmp x c, mt_step malloc m pend tmp multi x c) m pend buffer
    (MVars START_TO START_TO 0 [] empty_body);
  mret (match o with
        | TParseError x | TError x => (tmp, mt_error x)
        | TNext x | TSkip x | TEnd x => (tmp, mt_end tmp x)
        end).

Definition parse_to (malloc : Z → bool) (m : mem) (buffer pend : Z) : res (Z * list to_body) :=
  _parse_to malloc m buffer pend false.
Definition parse_multi_to (malloc : Z → bool) (m : mem) (buffer pend : Z) : res (Z * list to_body) :=
  _parse_to malloc m buffer pend true.

End To.
