(* ===== verification/ToParamSafety.v ===== *)
(** * Memory safety of the parser of To headers: the parameters *)

From stdpp Require Import strings.
From S2P Require Export To.
Import To.

Section safe.
Context (malloc : Z → bool) (m : mem) (base pend : Z).
Context (Hbase : mbase m ≤ base) (Hpos : 0 < base) (Hlim : pend + 2 ≤ mlim m)
  (Hsize : pend + 2 - base < 2 ^ 31).

(** A string that was set lies in what was read. *)
Definition set_in (tmp : Z) (y : str) : Prop := y = null_str ∨ within base tmp y.
Definition begun (tmp : Z) (y : str) : Prop := base ≤ str_s y ≤ tmp.

Lemma set_in_mono tmp tmp' y : set_in tmp y → tmp ≤ tmp' → set_in tmp' y.
Proof. intros [->|H] Hle; [by left|right]. unfold within in *. lia. Qed.

Lemma end_at_in tmp y : begun tmp y → tmp ≤ pend + 2 → within base tmp (end_at tmp y).
Proof. intros H Ht. unfold begun in H. apply slice_within; lia. Qed.

(** ** Parameters *)
Definition param_in (tmp : Z) (p : to_param) : Prop :=
  set_in tmp (tp_name p) ∧ set_in tmp (tp_value p).

(** The state that a line break interrupts. *)
Definition eff (x : tvars) : tstate :=
  match t_status x with F_LF | F_CR | F_CRLF => t_saved x | st => st end.

(** What is known of the parameter that is being read. *)
Definition param_inv (tmp : Z) (st : tstate) (p : option to_param) : Prop :=
  match st, p with
  | E_PARA_VALUE, None => True
  | S_PARA_NAME, Some p => tp_name p = null_str ∧ tp_value p = null_str
  | (PARA_NAME | TAG1 | TAG2 | TAG3), Some p =>
      begun tmp (tp_name p) ∧ str_len (tp_name p) = 0 ∧ tp_value p = null_str
  | (S_EQUAL | S_PARA_VALUE), Some p => within base tmp (tp_name p) ∧ tp_value p = null_str
  | (PARA_VALUE_TOKEN | PARA_VALUE_QUOTED), Some p =>
      within base tmp (tp_name p) ∧ begun tmp (tp_value p)
  | _, _ => False
  end.

(** The parameters and the tag of a body. *)
Definition params_in (tmp : Z) (b : to_body) : Prop :=
  Forall (param_in tmp) (tb_param_lst b) ∧ set_in tmp (tb_tag_value b).

Context (b0 : to_body).

(** [parse_to_param] leaves the other fields alone. *)
Definition same_rest (b : to_body) : Prop :=
  tb_body b = tb_body b0 ∧ tb_uri b = tb_uri b0 ∧ tb_display b = tb_display b0.

Record tp_inv (tmp : Z) (x : tvars) : Prop := {
  ti_param : param_inv tmp (eff x) (t_param x);
  ti_saved : match t_saved x with
             | S_PARA_NAME | S_EQUAL | S_PARA_VALUE | E_PARA_VALUE => True | _ => False end;
  ti_params : params_in tmp (t_body x);
  ti_same : same_rest (t_body x);
}.

(** The states of this parser. *)
Definition param_state (st : tstate) : Prop :=
  match st with
  | START_TO | DISPLAY_QUOTED | E_DISPLAY_QUOTED | DISPLAY_TOKEN | DISPLAY_TOKEN2
  | S_URI_ENCLOSED | URI_ENCLOSED | E_URI_ENCLOSED | URI_OR_TOKEN | MAYBE_URI_END | END => False
  | _ => True
  end.

Definition tp_ok (tmp : Z) (o : tout tvars) : Prop :=
  match o with
  | TNext x => tp_inv (tmp + 1) x
  | TSkip x => tp_inv (tmp + 2) x
  | TEnd x => tp_inv tmp x ∨ t_param x = None ∧ params_in tmp (t_body x) ∧ same_rest (t_body x) ∧
                param_state (t_saved x)
  | TParseError x | TError x =>
      same_rest (t_body x) ∧ set_in tmp (tb_tag_value (t_body x)) ∧ param_state (t_status x)
  end.

Lemma param_in_mono tmp tmp' p : param_in tmp p → tmp ≤ tmp' → param_in tmp' p.
Proof. intros [H1 H2] Hle. split; by eapply set_in_mono. Qed.

Lemma params_in_mono tmp tmp' b : params_in tmp b → tmp ≤ tmp' → params_in tmp' b.
Proof.
  intros [H1 H2] Hle. split; [|by eapply set_in_mono]. eapply Forall_impl; [exact H1|].
  intros p Hp. by eapply param_in_mono.
Qed.

Lemma param_inv_mono tmp tmp' st p : param_inv tmp st p → tmp ≤ tmp' → param_inv tmp' st p.
Proof.
  destruct st, p; cbn; try done; unfold begun, within; intros; intuition lia.
Qed.

Lemma tp_inv_mono tmp tmp' x : tp_inv tmp x → tmp ≤ tmp' → tp_inv tmp' x.
Proof.
  intros [H1 H2 H3 H4] Hle. split; [by eapply param_inv_mono|done|by eapply params_in_mono|done].
Qed.

(** A parameter is added. *)
Lemma params_in_add tmp b p :
  params_in tmp b → param_in tmp p →
  params_in tmp (ToBody (tb_error b) (tb_body b) (tb_uri b) (tb_display b)
    (match tp_type p with TAG_PARAM => tp_value p | GENERAL_PARAM => tb_tag_value b end)
    (tb_param_lst b ++ [p])).
Proof.
  intros [H1 H2] Hp. split; cbn.
  - apply Forall_app. split; [done|]. by apply Forall_singleton.
  - destruct Hp as [_ Hv]. by destruct (tp_type p).
Qed.

Section step.
Context (tmp : Z) (Ht : base ≤ tmp < pend) (multi : bool).

Ltac strings :=
  try match goal with H : _ = null_str ∧ _ = null_str |- _ => destruct H as [-> ->] end;
  unfold param_in, set_in, begun, within, end_at, set_s, slice in *; cbn in *;
  rewrite ?to_int_small by lia; intuition (try lia; try (by left); try (right; lia)).

Ltac params Hps :=
  first
    [ eapply params_in_mono; [exact Hps|lia]
    | eapply params_in_mono; [apply params_in_add; [exact Hps|]|lia]; strings ].

Ltac to_inv Hps Hb :=
  split; [cbn; strings|cbn; done|cbn; params Hps|exact Hb].

Ltac solve_out Hps Hb :=
  first
    [ exact I
    | to_inv Hps Hb
    | left; to_inv Hps Hb
    | right; refine (conj eq_refl (conj _ (conj Hb I))); params Hps
    | refine (conj Hb (conj (proj2 Hps) I))
    | refine (conj Hb (conj _ I)); strings ].

(** Every case: the states that the invariant allows. *)
Ltac char_case :=
  intros [st sv p b] [Hp Hs Hps Hb]; cbn [eff t_status t_saved t_param t_body] in *;
  destruct st; try (destruct sv; try done); destruct p as [p|]; try done; try (destruct p as [[] nm vl]);
  cbn in Hp; cbn; repeat case_match; try done; cbn.

Lemma tp_space_ok x : tp_inv tmp x → wp (tp_space tmp x) (tp_ok tmp).
Proof. revert x. char_case. all: solve_out Hps Hb. Qed.
Lemma tp_lf_ok x : tp_inv tmp x → wp (tp_lf tmp x) (tp_ok tmp).
Proof. revert x. char_case. all: solve_out Hps Hb. Qed.
Lemma tp_cr_ok x : tp_inv tmp x → wp (tp_cr tmp x) (tp_ok tmp).
Proof. revert x. char_case. all: solve_out Hps Hb. Qed.
Lemma tp_comma_ok c x : tp_inv tmp x → wp (tp_comma tmp multi x c) (tp_ok tmp).
Proof. revert x. char_case. all: solve_out Hps Hb. Qed.
Lemma tp_quote_ok x : tp_inv tmp x → wp (tp_quote tmp x) (tp_ok tmp).
Proof. revert x. char_case. all: solve_out Hps Hb. Qed.
Lemma tp_semicolon_ok x : tp_inv tmp x → wp (tp_semicolon malloc tmp x) (tp_ok tmp).
Proof. revert x. char_case. all: solve_out Hps Hb. Qed.
Lemma tp_equal_ok x : tp_inv tmp x → wp (tp_equal tmp x) (tp_ok tmp).
Proof. revert x. char_case. all: solve_out Hps Hb. Qed.
Lemma tp_t_ok x : tp_inv tmp x → wp (tp_t tmp x) (tp_ok tmp).
Proof. revert x. char_case. all: solve_out Hps Hb. Qed.
Lemma tp_a_ok x : tp_inv tmp x → wp (tp_a tmp x) (tp_ok tmp).
Proof. revert x. char_case. all: solve_out Hps Hb. Qed.
Lemma tp_g_ok x : tp_inv tmp x → wp (tp_g tmp x) (tp_ok tmp).
Proof. revert x. char_case. all: solve_out Hps Hb. Qed.
Lemma tp_default_ok x : tp_inv tmp x → wp (tp_default tmp x) (tp_ok tmp).
Proof. revert x. char_case. all: solve_out Hps Hb. Qed.

Lemma tp_backslash_ok x : tp_inv tmp x → wp (tp_backslash m tmp x) (tp_ok tmp).
Proof.
  intros Hi. unfold tp_backslash.
  destruct (rd_valid m (tmp + 1)) as [c Hc]; [lia|]. rewrite Hc.
  revert x Hi. char_case. all: solve_out Hps Hb.
Qed.

Lemma tp_step_ok x c : tp_inv tmp x → wp (tp_step malloc m tmp multi x c) (tp_ok tmp).
Proof.
  intros Hi. unfold tp_step.
  repeat lazymatch goal with |- wp (if ?b then _ else _) _ => destruct b end;
    eauto using tp_space_ok, tp_lf_ok, tp_cr_ok, tp_comma_ok, tp_backslash_ok, tp_quote_ok,
      tp_semicolon_ok, tp_t_ok, tp_a_ok, tp_g_ok, tp_equal_ok, tp_default_ok.
Qed.
End step.

(** What [parse_to_param] leaves. *)
Definition tp_post (buffer : Z) (r : Z * tstate * to_body) : Prop :=
  let '(tmp, st, b) := r in
  buffer ≤ tmp ≤ Z.max buffer (pend + 1) ∧ param_state st ∧ same_rest b ∧ params_in tmp b.

Lemma failed_in tmp b : same_rest b → set_in tmp (tb_tag_value b) →
  same_rest (failed b) ∧ params_in tmp (failed b).
Proof. intros Hs Ht. split; [exact Hs|]. split; [by constructor|exact Ht]. Qed.

Lemma tp_end_ok tmp x : base ≤ tmp ≤ pend + 1 →
  tp_inv tmp x ∨ t_param x = None ∧ params_in tmp (t_body x) ∧ same_rest (t_body x) ∧
    param_state (t_saved x) →
  wp (tp_end x) (λ r, param_state r.1 ∧ same_rest r.2 ∧ params_in tmp r.2).
Proof.
  intros Ht [Hi|(Hp & Hps & Hs & Hst)].
  2: { unfold tp_end. rewrite Hp. by split_and!. }
  destruct x as [st sv p b]. destruct Hi as [Hp Hsv Hps Hs]. unfold tp_end. cbn in *.
  assert (Hst : param_state sv) by by destruct sv.
  destruct p as [p|]; [|by split_and!].
  destruct (bool_decide (sv = S_EQUAL) || bool_decide (sv = S_PARA_VALUE)) eqn:E; [|by split_and!].
  assert (Hn : set_in tmp (tp_name p)).
  { clear E. destruct p as [ty nm vl]. revert Hp. cbn [tp_name].
    destruct st; try (destruct sv; try done); cbn; unfold set_in, begun, within; intuition (right; lia). }
  assert (Hst' : param_state st).
  { clear E. destruct st; try done. }
  cbn. destruct p as [[] nm vl]; cbn in *.
  - split; [done|]. apply failed_in; [done|]. by destruct Hps.
  - split; [done|]. split; [done|]. split; cbn; [|by destruct Hps].
    apply Forall_app. split; [by destruct Hps|]. apply Forall_singleton. split; [done|by left].
Qed.

Lemma parse_to_param_ok buffer multi : base ≤ buffer ≤ pend → set_in buffer (tb_tag_value b0) →
  Forall (param_in buffer) (tb_param_lst b0) →
  wp (parse_to_param malloc m buffer pend b0 multi) (tp_post buffer).
Proof.
  intros Hb Htag Hpl. unfold parse_to_param. apply wp_bind. unfold t_loop.
  eapply wp_mono.
  { apply (wp_loop _ (λ s, buffer ≤ s.1 ≤ Z.max buffer (pend + 1) ∧ tp_inv s.1 s.2)
      (λ s, Z.max 0 (pend - s.1)) (λ r, buffer ≤ r.1 ≤ Z.max buffer (pend + 1) ∧ tp_ok r.1 r.2 ∧
        match r.2 with TNext _ | TSkip _ => False | _ => True end)).
    - intros [tmp x]; cbn [fst snd]. intros [Hr Hi]. split; [lia|]. unfold t_round.
      destruct (Z.ltb_spec tmp pend) as [Hlt|]; [|apply wp_ret; cbn; tauto].
      destruct (rd_valid m tmp) as [c Hc]; [lia|]. rewrite Hc. cbn [mbind res_bind].
      pose proof (tp_step_ok tmp ltac:(lia) multi x c Hi) as Hs.
      apply wp_inv in Hs as (o & Ho & Hok). rewrite Ho. cbn.
      destruct o; cbn in *; split_and?; solve [done | lia | exact Hok | apply Hok].
    - split; [cbn; lia|]. split; cbn; [done|done|by split|done].
    - cbn. lia. }
  intros [tmp o]; cbn [fst snd]. intros (Hr & Hok & Hno).
  destruct o as [x|x|x|x|x]; try done; cbn in Hok.
  - apply wp_bind. eapply wp_mono; [apply (tp_end_ok tmp x); [lia|done]|].
    intros [st b]; cbn. intros (H1 & H2 & H3). done.
  - cbn. split; [done|]. split; [tauto|]. apply failed_in; tauto.
  - cbn. split; [done|]. split; [tauto|]. apply failed_in; tauto.
Qed.
End safe.
