(* ===== verification/ToSafety.v ===== *)
(** * Memory safety of the parser of To headers *)

From stdpp Require Import strings.
From S2P Require Export ToParamSafety.
Import To.

Section safe.
Context (malloc : Z → bool) (m : mem) (base pend : Z).
Context (Hbase : mbase m ≤ base) (Hpos : 0 < base) (Hlim : pend + 2 ≤ mlim m)
  (Hsize : pend + 2 - base < 2 ^ 31).

Abbreviation set_in := (set_in base).
Abbreviation begun := (begun base).
Abbreviation params_in := (params_in base).

(** The state that a line break interrupts. *)
Definition m_eff (x : mvars) : tstate :=
  match m_status x with F_LF | F_CR | F_CRLF => m_saved x | st => st end.

(** The strings of a body that is finished. *)
Definition body_in (tmp : Z) (b : to_body) : Prop :=
  set_in tmp (tb_body b) ∧ set_in tmp (tb_uri b) ∧ set_in tmp (tb_display b) ∧ params_in tmp b.

(** A string whose end is not known yet. *)
Definition open_at (tmp : Z) (y : str) : Prop := begun tmp y ∧ str_len y = 0.

Definition body_inv (tmp : Z) (x : mvars) : Prop :=
  let b := m_body x in
  match m_eff x with
  | START_TO => tb_body b = null_str ∧ tb_uri b = null_str ∧ tb_display b = null_str
  | DISPLAY_QUOTED => open_at tmp (tb_body b) ∧ tb_uri b = null_str ∧ open_at tmp (tb_display b)
  | E_DISPLAY_QUOTED => open_at tmp (tb_body b) ∧ tb_uri b = null_str ∧ set_in tmp (tb_display b)
  | URI_OR_TOKEN | DISPLAY_TOKEN =>
      open_at tmp (tb_body b) ∧ open_at tmp (tb_uri b) ∧ open_at tmp (tb_display b)
  | MAYBE_URI_END | DISPLAY_TOKEN2 =>
      open_at tmp (tb_body b) ∧ open_at (m_end_mark x) (tb_uri b) ∧
      open_at (m_end_mark x) (tb_display b) ∧ m_end_mark x ≤ tmp
  | S_URI_ENCLOSED =>
      open_at tmp (tb_body b) ∧ (tb_uri b = null_str ∨ open_at tmp (tb_uri b)) ∧ set_in tmp (tb_display b)
  | URI_ENCLOSED => open_at tmp (tb_body b) ∧ open_at tmp (tb_uri b) ∧ set_in tmp (tb_display b)
  | E_URI_ENCLOSED | END =>
      open_at tmp (tb_body b) ∧ within base tmp (tb_uri b) ∧ set_in tmp (tb_display b)
  | _ => False
  end.

Record m_inv (tmp : Z) (x : mvars) : Prop := {
  mi_body : body_inv tmp x;
  mi_params : tb_param_lst (m_body x) = [] ∧ tb_tag_value (m_body x) = null_str;
  mi_saved : match m_saved x with
             | START_TO | MAYBE_URI_END | DISPLAY_TOKEN | DISPLAY_TOKEN2 | E_DISPLAY_QUOTED | END => True
             | _ => False
             end;
  mi_prev : Forall (body_in tmp) (m_prev x);
}.

(** At [endofheader]: the state that [saved_status] names is the one that ended,
    unless the end of the buffer was met. *)
Definition end_ok (tmp : Z) (x : mvars) : Prop :=
  pend ≤ tmp ∨
  Forall (body_in tmp) (m_prev x) ∧
  match m_saved x with
  | MAYBE_URI_END => begun tmp (tb_body (m_body x)) ∧ begun (m_end_mark x) (tb_uri (m_body x)) ∧
      m_end_mark x ≤ tmp ∧ set_in tmp (tb_display (m_body x)) ∧ params_in tmp (m_body x)
  | END => begun tmp (tb_body (m_body x)) ∧ set_in tmp (tb_uri (m_body x)) ∧
      set_in tmp (tb_display (m_body x)) ∧ params_in tmp (m_body x)
  | E_PARA_VALUE => body_in tmp (m_body x)
  | _ => True
  end.

Definition m_ok (tmp : Z) (o : tout mvars) : Prop :=
  match o with
  | TNext x => m_inv (tmp + 1) x
  | TSkip x => m_inv (tmp + 2) x
  | TEnd x => end_ok tmp x
  | TParseError _ | TError _ => True
  end.

Lemma params_none tmp b : tb_param_lst b = [] → tb_tag_value b = null_str → params_in tmp b.
Proof. intros H1 H2. split; rewrite ?H1, ?H2; [constructor|by left]. Qed.

Lemma body_in_mono tmp tmp' b : body_in tmp b → tmp ≤ tmp' → body_in tmp' b.
Proof.
  intros (H1 & H2 & H3 & H4) Hle.
  split_and!; try (by eapply set_in_mono). by eapply params_in_mono.
Qed.

Lemma prev_mono tmp tmp' l : Forall (body_in tmp) l → tmp ≤ tmp' → Forall (body_in tmp') l.
Proof. intros H Hle. eapply Forall_impl; [exact H|]. intros b Hb. by eapply body_in_mono. Qed.

Lemma body_inv_mono tmp tmp' x : body_inv tmp x → tmp ≤ tmp' → body_inv tmp' x.
Proof.
  unfold body_inv. intros H Hle. destruct (m_eff x); try done.
  all: unfold open_at, ToParamSafety.begun, ToParamSafety.set_in, within in *; intuition (try lia).
  all: try (right; lia).
Qed.

Lemma m_inv_mono tmp tmp' x : m_inv tmp x → tmp ≤ tmp' → m_inv tmp' x.
Proof.
  intros [H1 H2 H3 H4] Hle. split; [by eapply body_inv_mono|done|done|by eapply prev_mono].
Qed.

Section step.
Context (tmp : Z) (Ht : base ≤ tmp < pend) (multi : bool).

Ltac strings :=
  try match goal with H : _ = null_str ∧ _ = null_str ∧ _ = null_str |- _ => destruct H as (-> & -> & ->) end;
  unfold open_at, ToParamSafety.set_in, ToParamSafety.begun, within, end_at, set_s, slice in *; cbn in *;
  rewrite ?to_int_small by lia; intuition (subst; cbn; try lia; try (by left); try (right; lia);
    try (match goal with H : _ = null_str |- _ => rewrite H end; cbn; lia)).

Ltac m_solve :=
  match goal with
  | Hp : tb_param_lst _ = [] ∧ tb_tag_value _ = null_str, Hv : Forall (body_in tmp) _ |- _ =>
    first
      [ exact I
      | split; [unfold body_inv; cbn; strings|cbn; done|cbn; done|cbn; eapply prev_mono; [exact Hv|lia]]
      | right; split; [exact Hv|cbn; first [exact I|
          repeat match goal with |- _ ∧ _ => split; [solve [strings]|] end; apply params_none; apply Hp]] ]
  end.

Ltac m_case :=
  intros [st sv mk pv b] [Hi Hp Hs Hv]; unfold body_inv in Hi; cbn [m_eff m_status m_saved m_body m_end_mark m_prev] in *;
  destruct st; try (destruct sv; try done); cbn in Hi; cbn; try done.

Lemma mt_space_ok x : m_inv tmp x → m_ok tmp (mt_space tmp x).
Proof. revert x. m_case. all: m_solve. Qed.
Lemma mt_lf_ok x : m_inv tmp x → m_ok tmp (mt_lf tmp x).
Proof. revert x. m_case. all: m_solve. Qed.
Lemma mt_cr_ok x : m_inv tmp x → m_ok tmp (mt_cr tmp x).
Proof. revert x. m_case. all: m_solve. Qed.
Lemma mt_nul_ok x : m_inv tmp x → m_ok tmp (mt_nul tmp x).
Proof. revert x. m_case. all: m_solve. Qed.
Lemma mt_backslash_ok x : m_inv tmp x → m_ok tmp (mt_backslash x).
Proof. revert x. m_case. all: m_solve. Qed.
Lemma mt_open_ok x : m_inv tmp x → m_ok tmp (mt_open tmp x).
Proof. revert x. m_case. all: m_solve. Qed.
Lemma mt_close_ok x : m_inv tmp x → m_ok tmp (mt_close tmp x).
Proof. revert x. m_case. all: m_solve. Qed.
Lemma mt_quote_ok x : m_inv tmp x → m_ok tmp (mt_quote tmp x).
Proof. revert x. m_case. all: m_solve. Qed.
Lemma mt_default_ok x : m_inv tmp x → m_ok tmp (mt_default tmp x).
Proof. revert x. m_case. all: m_solve. Qed.

Lemma next_body_ok x : Forall (body_in tmp) (m_prev x) → body_in tmp (m_body x) →
  m_inv (tmp + 1) (next_body x).
Proof.
  intros Hp Hb. split; cbn; [done|done|done|].
  apply Forall_app. split; [eapply prev_mono; [exact Hp|lia]|]. apply Forall_singleton.
  eapply body_in_mono; [exact Hb|lia].
Qed.

Lemma new_body_ok x : Forall (body_in tmp) (m_prev x) → body_in tmp (m_body x) →
  m_ok tmp (new_body malloc tmp x).
Proof. intros Hp Hb. unfold new_body. destruct (malloc tmp); [by apply next_body_ok|done]. Qed.

Lemma mt_comma_ok x : m_inv tmp x → m_ok tmp (mt_comma malloc tmp multi x).
Proof.
  revert x. m_case. all: try m_solve.
  all: destruct multi; cbn; try m_solve; apply new_body_ok; [done|].
  all: unfold body_in; cbn; repeat match goal with |- _ ∧ _ => split; [solve [strings]|] end.
  all: apply params_none; apply Hp.
Qed.

(** What a step leaves: the parameters may end behind the end, a skipped
    character does not move the pointer further. *)
Definition step_ok (r : Z * tout mvars) : Prop :=
  tmp ≤ r.1 ≤ pend + 1 ∧ m_ok r.1 r.2 ∧ match r.2 with TSkip _ => r.1 = tmp | _ => True end.

#[local] Arguments to_params : simpl never.

Lemma to_params_ok x :
  Forall (body_in tmp) (m_prev x) → tb_param_lst (m_body x) = [] → tb_tag_value (m_body x) = null_str →
  begun tmp (tb_body (m_body x)) → set_in tmp (tb_uri (m_body x)) → set_in tmp (tb_display (m_body x)) →
  wp (to_params malloc m pend tmp multi x) step_ok.
Proof.
  intros Hv Hpl Htag Hb Hu Hd. unfold to_params. apply wp_bind.
  eapply wp_mono; [apply (parse_to_param_ok malloc m base pend Hbase Hlim Hsize
    (on_body (end_at tmp) (m_body x)) tmp multi); [lia| |]|].
  { cbn. rewrite Htag. by left. }
  { cbn. rewrite Hpl. constructor. }
  intros [[t st] b]. unfold tp_post. intros (Hr & Hst & (E1 & E2 & E3) & Hps). cbn in E1, E2, E3.
  assert (Hbody : body_in t b).
  { split_and!; rewrite ?E1, ?E2, ?E3; [|eapply set_in_mono; [done|lia]..|done].
    right. unfold ToParamSafety.begun in Hb. apply slice_within; lia. }
  assert (Hv' : Forall (body_in t) (m_prev x)) by (eapply prev_mono; [done|lia]).
  assert (Hend : m_ok t (TEnd (MVars (m_status x) st (m_end_mark x) (m_prev x) b))).
  { right. cbn. split; [done|]. by destruct st. }
  destruct (negb (tb_error b) && multi); [|by apply wp_ret; split_and!; cbn [fst snd]; [lia..|exact Hend|]].
  destruct (rd_valid m t) as [c Hc]; [lia|]. rewrite Hc. cbn [mbind res_bind].
  destruct (c =? ch ","); [unfold new_body; destruct (malloc t)|]; apply wp_ret;
    (split_and!; cbn [fst snd]; [lia..| |done]); [|done|done].
  split; cbn; [done|done|done|].
  apply Forall_app. split; [eapply prev_mono; [exact Hv'|lia]|]. apply Forall_singleton.
  eapply body_in_mono; [exact Hbody|lia].
Qed.

Lemma mt_semicolon_ok x : m_inv tmp x →
  wp (mt_semicolon malloc m pend tmp multi x) step_ok.
Proof.
  revert x. m_case. all: try (split_and!; [cbn; lia..|cbn [fst snd]; solve [m_solve]|done]).
  all: apply to_params_ok; cbn; [exact Hv|apply Hp|apply Hp|solve [strings]..].
Qed.

Lemma mt_step_ok x c : m_inv tmp x →
  wp (mt_step malloc m pend tmp multi x c) step_ok.
Proof.
  intros Hi. unfold mt_step.
  assert (Hret : ∀ o, m_ok tmp o → wp (mret (tmp, o)) step_ok).
  { intros o Ho. apply wp_ret. split_and!; cbn; [lia..|done|by destruct o]. }
  repeat lazymatch goal with |- wp (if ?b then _ else _) _ => destruct b end;
    eauto using mt_space_ok, mt_lf_ok, mt_cr_ok, mt_nul_ok, mt_comma_ok, mt_backslash_ok, mt_open_ok,
      mt_close_ok, mt_quote_ok, mt_semicolon_ok, mt_default_ok.
Qed.
End step.

(** The bodies that are returned: a string is where it should be unless the end
    of the buffer cut the header short. *)
Definition bodies_ok (tmp : Z) (l : list to_body) : Prop :=
  match l with
  | [] => False
  | b :: _ => tb_error b = true ∨ pend ≤ tmp ∨ Forall (body_in tmp) l
  end.

Lemma mt_error_ok tmp x : bodies_ok tmp (mt_error x).
Proof. unfold mt_error. destruct (m_prev x); by left. Qed.

Lemma mt_end_ok tmp x : base ≤ tmp → end_ok tmp x → bodies_ok tmp (mt_end tmp x).
Proof.
  intros Ht Hok. destruct (decide (pend ≤ tmp)) as [Hend|Hlt].
  { unfold mt_end. destruct (m_saved _); try apply mt_error_ok.
    all: cbn; unfold bodies_ok; destruct (m_prev x); cbn; by right; left. }
  destruct Hok as [|[Hv Hend]]; [lia|].
  assert (Hb : ∀ b, body_in tmp b → bodies_ok tmp (m_prev x ++ [b])).
  { intros b Hb. assert (H : Forall (body_in tmp) (m_prev x ++ [b])).
    { apply Forall_app. split; [done|]. by apply Forall_singleton. }
    unfold bodies_ok. destruct (m_prev x ++ [b]) eqn:E; [by apply app_eq_nil in E as [_ ?]|]. by right; right. }
  assert (Hdisp : ∀ b, set_in tmp (tb_display b) → set_in tmp (tb_display (drop_empty_display b))).
  { intros b H. cbn. destruct (Z.eqb_spec (str_len (tb_display b)) 0) as [E|]; [|done].
    left. unfold set_s. by rewrite E. }
  unfold mt_end. change (m_saved (body_with drop_empty_display x)) with (m_saved x).
  destruct (m_saved x); try apply mt_error_ok; apply Hb; cbn in *.
  - destruct Hend as (H1 & H2 & H3 & H4 & H5). split_and!; cbn.
    + right. apply slice_within; unfold ToParamSafety.begun in H1; lia.
    + right. eapply within_mono; [apply slice_within with (lo := base) (hi := tmp)|..];
        unfold ToParamSafety.begun in H2; lia.
    + by apply Hdisp.
    + done.
  - destruct Hend as (H1 & H2 & H3 & H5). split_and!; cbn; [|done|by apply Hdisp|done].
    right. apply slice_within; unfold ToParamSafety.begun in H1; lia.
  - destruct Hend as (H1 & H2 & H3 & H5). split_and!; cbn; [done|done|by apply Hdisp|done].
Qed.

Lemma _parse_to_ok multi : base ≤ pend →
  wp (_parse_to malloc m base pend multi) (λ '(r, l), base ≤ r ≤ pend + 2 ∧ bodies_ok r l).
Proof.
  intros Hle. unfold _parse_to. apply wp_bind. unfold t_loop. eapply wp_mono.
  { apply (wp_loop _ (λ s, base ≤ s.1 ≤ pend + 2 ∧ m_inv s.1 s.2)
      (λ s, Z.max 0 (pend - s.1)) (λ r, base ≤ r.1 ≤ pend + 2 ∧ m_ok r.1 r.2 ∧
        match r.2 with TNext _ | TSkip _ => False | _ => True end)).
    - intros [tmp x]; cbn [fst snd]. intros [Hr Hi]. split; [lia|]. unfold t_round.
      destruct (Z.ltb_spec tmp pend) as [Hlt|]; [|apply wp_ret; cbn; split_and!; try done; [lia..|by left]].
      destruct (rd_valid m tmp) as [c Hc]; [lia|]. rewrite Hc. cbn [mbind res_bind].
      pose proof (mt_step_ok tmp ltac:(lia) multi x c Hi) as Hs.
      apply wp_inv in Hs as ([t o] & Ho & Ht & Hok & Hsk). rewrite Ho. cbn in *.
      destruct o; cbn in *; split_and?; solve [done | lia | exact Hok].
    - split; [cbn; lia|]. split; cbn; try done.
    - cbn. lia. }
  intros [tmp o]; cbn [fst snd]. intros (Hr & Hok & Hno). apply wp_ret.
  destruct o as [x|x|x|x|x]; try done; cbn in Hok; (split; [lia|]);
    [apply mt_end_ok; [lia|done]|apply mt_error_ok..].
Qed.
End safe.

(** On every buffer the parser of To headers terminates, with one body or with
    several, reads at most two characters beyond the end, and the strings of the
    bodies that it accepts lie in what it read, or it met the end of the buffer. *)
Lemma parse_to_safe malloc m buffer pend multi :
  mem_ok m → mbase m ≤ buffer → buffer ≤ pend → pend + 2 ≤ mlim m →
  wp (_parse_to malloc m buffer pend multi) (λ '(r, l), buffer ≤ r ≤ pend + 2 ∧
    match l with
    | [] => False
    | b :: _ => tb_error b = true ∨ pend ≤ r ∨ Forall (body_in buffer r) l
    end).
Proof.
  intros Hm Hb Hle Hlim. pose proof (mem_size _ Hm).
  eapply wp_mono; [apply (_parse_to_ok malloc m buffer pend Hb ltac:(lia) ltac:(lia) multi Hle)|].
  by intros [r l].
Qed.

Lemma parse_to_safe_witness :
  wp (_parse_to always (block (chars "<sip:a@b>;tag=1" ++ crlf ++ chars "Via")) 4096 4114 false) (λ '(r, l),
    4096 ≤ r ≤ 4114 + 2 ∧
    match l with
    | [] => False
    | b :: _ => tb_error b = true ∨ 4114 ≤ r ∨ Forall (body_in 4096 r) l
    end).
Proof. apply parse_to_safe; [by apply mem_okb_ok|by vm_compute..]. Defined.

(** ** What the parser gets wrong *)

(** What is kept of the first body of a text: the error, the URI, the tag, and the
    number of its parameters. *)
Definition to_of (text : list Z) : option (bool * str * str * nat) :=
  match parse_to always (block text) 4096 (4096 + len text) with
  | Ok (_, b :: _) => Some (tb_error b, tb_uri b, tb_tag_value b, length (tb_param_lst b))
  | _ => None
  end.

(** Without a line break at its end the last parameter is lost, and the header
    accepted. *)
Lemma to_lost_tag :
  to_of (chars "<sip:b@c>;tag=abc") = Some (false, Str 4097 7, null_str, 0%nat) ∧
  to_of (chars "<sip:b@c>;tag=abc" ++ crlf) = Some (false, Str 4097 7, Str 4110 3, 1%nat).
Proof. by vm_compute. Qed.

(** A folded display name and an end in the middle of the URI: the length of the
    URI is negative, and the header is accepted. *)
Lemma to_negative_uri :
  to_of (chars "Bob" ++ crlf ++ chars " <sip:b@c") = Some (false, Str 4103 (-4), null_str, 0%nat).
Proof. by vm_compute. Qed.

(** A parameter whose whole name is a beginning of "tag" must have a value. *)
Lemma to_t_parameter :
  to_of (chars "<sip:b@c>;t;x=y" ++ crlf) = Some (true, Str 4097 7, null_str, 0%nat) ∧
  to_of (chars "<sip:b@c>;s;x=y" ++ crlf) = Some (false, Str 4097 7, null_str, 2%nat).
Proof. by vm_compute. Qed.

(** An error in the parameters of a later body does not mark the first one. *)
Lemma multi_error_unseen :
  match parse_multi_to always (block (chars "<sip:a>,<sip:b>;x=1 y" ++ crlf)) 4096 4119 with
  | Ok (_, l) => map tb_error l = [false; true]
  | _ => False
  end.
Proof. by vm_compute. Qed.
