(* ===== verification/ToParamRun.v ===== *)
(** * Parameters of To headers: what [parse_to_param] reads *)

From stdpp Require Import strings.
From S2P Require Export To.
Import To.

(** ** Runs of the two loops of parse_to.c over known characters *)

Section run.
Context {X : Type} (step : Z → X → Z → res (Z * tout X)) (m : mem) (pend : Z).

Definition left_to (s : Z * X) : Z := Z.max 0 (pend - fst s).

(** The loop, from these variables at this character, leaves with this result. *)
Definition leaves (tmp : Z) (x : X) (r : Z * tout X) : Prop :=
  lands (t_round step m pend) left_to (tmp, x) r.

Lemma leaves_loop tmp x r : leaves tmp x r → t_loop step m pend tmp x = Ok r.
Proof. intros H. apply H. unfold left_to. cbn. lia. Qed.

Lemma leaves_next tmp tmp' c x x' r :
  tmp < pend → rd m tmp = Ok c → step tmp x c = Ok (tmp', TNext x') → tmp ≤ tmp' →
  leaves (tmp' + 1) x' r → leaves tmp x r.
Proof.
  intros Hlt Hc Hs Hle H. eapply lands_next; [| | |exact H]; unfold left_to; cbn [fst]; [|lia..].
  unfold t_round. destruct (Z.ltb_spec tmp pend); [|lia]. by rewrite Hc; cbn; rewrite Hs.
Qed.

Lemma leaves_skip tmp c x x' r :
  tmp < pend → rd m tmp = Ok c → step tmp x c = Ok (tmp, TSkip x') →
  leaves (tmp + 2) x' r → leaves tmp x r.
Proof.
  intros Hlt Hc Hs H. eapply lands_next; [| | |exact H]; unfold left_to; cbn [fst]; [|lia..].
  unfold t_round. destruct (Z.ltb_spec tmp pend); [|lia]. by rewrite Hc; cbn; rewrite Hs.
Qed.

Lemma leaves_end tmp tmp' c x o :
  tmp < pend → rd m tmp = Ok c → step tmp x c = Ok (tmp', o) →
  match o with TNext _ | TSkip _ => False | _ => True end → leaves tmp x (tmp', o).
Proof.
  intros Hlt Hc Hs Ho. apply lands_done; unfold left_to; cbn [fst]; [|lia].
  unfold t_round. destruct (Z.ltb_spec tmp pend); [|lia]. rewrite Hc; cbn; rewrite Hs. by destruct o.
Qed.

Lemma leaves_stop tmp x : pend ≤ tmp → leaves tmp x (tmp, TEnd x).
Proof.
  intros Hle. apply lands_done; unfold left_to; cbn [fst]; [|lia].
  unfold t_round. destruct (Z.ltb_spec tmp pend); [lia|done].
Qed.

(** Characters that change nothing. *)
Lemma leaves_run tmp l x r :
  bytes_at m tmp l → tmp + len l ≤ pend →
  Forall (λ c, ∀ t, step t x c = Ok (t, TNext x)) l →
  leaves (tmp + len l) x r → leaves tmp x r.
Proof.
  revert tmp. induction l as [|c l IH]; intros tmp Hat Hle Hl H.
  { by replace (tmp + len []) with tmp in H by (rewrite len_nil; lia). }
  destruct Hat as [Hc Hat]. apply Forall_cons in Hl as [Hs Hl]. rewrite len_cons in *.
  pose proof (len_nonneg l). eapply leaves_next; [lia|exact Hc|apply Hs|lia|].
  apply IH; [done|lia|done|]. by replace (tmp + 1 + len l) with (tmp + (1 + len l)) by lia.
Qed.
End run.

(** ** The texts of parameters *)

(** Characters of names and values. *)
Definition pchar (c : Z) : bool :=
  negb (is_blank c || (c =? NUL) || (c =? DQUOTE) || one_of c ",\;=").

(** Characters of quoted strings: one, or one after a backslash. *)
Definition qitem : Type := bool * Z.
Definition qitem_ok (q : qitem) : bool :=
  let '(esc, c) := q in
  if esc then negb (is_crlf c) else negb (is_crlf c || (c =? NUL) || (c =? DQUOTE) || (c =? BSLASH)).
Definition qitem_chars (q : qitem) : list Z := let '(esc, c) := q in if esc then [BSLASH; c] else [c].
Definition qchars (q : list qitem) : list Z := flat_map qitem_chars q.

Inductive pvalue := NoValue | Token (t : list Z) | Quote (q : list qitem).

Definition pvalue_chars (v : pvalue) : list Z :=
  match v with
  | NoValue => []
  | Token t => ch "=" :: t
  | Quote q => ch "=" :: DQUOTE :: qchars q ++ [DQUOTE]
  end.

Definition is_tag (n : list Z) : bool := list_eqb (lower n) (chars "tag").
Definition tag_prefix (n : list Z) : bool := prefixb (lower n) (chars "tag").

Definition pitem_ok (it : list Z * pvalue) : bool :=
  let '(n, v) := it in
  forallb pchar n && negb (bool_decide (n = [])) &&
  match v with
  | NoValue => negb (tag_prefix n)
  | Token t => forallb pchar t && negb (bool_decide (t = []))
  | Quote q => forallb qitem_ok q
  end.

Definition pitem_chars (it : list Z * pvalue) : list Z := ch ";" :: fst it ++ pvalue_chars (snd it).
Definition pitems_chars (l : list (list Z * pvalue)) : list Z := flat_map pitem_chars l.

(** The parameter that an item at [p] (the semicolon) stands for; [last]: nothing
    but the end of the line follows. *)
Definition pitem_at (p : Z) (it : list Z * pvalue) (last : bool) : to_param :=
  let '(n, v) := it in
  ToParam (if is_tag n then TAG_PARAM else GENERAL_PARAM) (Str (p + 1) (len n))
    (match v with
     | NoValue => if last then null_str else Str (p + 1 + len n) 0
     | Token t => Str (p + 1 + len n + 1) (len t)
     | Quote q => Str (p + 1 + len n + 2) (len (qchars q))
     end).

Fixpoint pitems_at (p : Z) (l : list (list Z * pvalue)) : list to_param :=
  match l with
  | [] => []
  | it :: l => pitem_at p it (bool_decide (l = [])) :: pitems_at (p + len (pitem_chars it)) l
  end.

(** The tag is the value of the last parameter with that name. *)
Definition tag_of (l : list to_param) (t : str) : str :=
  fold_left (λ t p, match tp_type p with TAG_PARAM => tp_value p | GENERAL_PARAM => t end) l t.

(** ** The states within a name *)
Definition nstate (l : list Z) : tstate :=
  let l := lower l in
  if list_eqb l (chars "t") then TAG1
  else if list_eqb l (chars "ta") then TAG2
  else if list_eqb l (chars "tag") then TAG3
  else PARA_NAME.

Definition nnext (st : tstate) (c : Z) : tstate :=
  match st with
  | TAG1 => if one_of c "Aa" then TAG2 else PARA_NAME
  | TAG2 => if one_of c "Gg" then TAG3 else PARA_NAME
  | _ => PARA_NAME
  end.

Lemma tolower_of c a : 97 ≤ a ≤ 122 → (tolower c =? a) = (c =? a - 32) || ((c =? a) || false).
Proof.
  intros Ha. unfold tolower, is_upper. change (ch "A") with 65. change (ch "Z") with 90.
  destruct (Z.leb_spec 65 c), (Z.leb_spec c 90); cbn [andb];
    destruct (Z.eqb_spec c (a - 32)), (Z.eqb_spec c a); cbn [orb];
    try reflexivity; (apply Z.eqb_eq; lia) || (apply Z.eqb_neq; lia) || lia.
Qed.

Lemma tolower_t c : (tolower c =? ch "t") = one_of c "Tt".
Proof. exact (tolower_of c 116 ltac:(lia)). Qed.
Lemma tolower_a c : (tolower c =? ch "a") = one_of c "Aa".
Proof. exact (tolower_of c 97 ltac:(lia)). Qed.
Lemma tolower_g c : (tolower c =? ch "g") = one_of c "Gg".
Proof. exact (tolower_of c 103 ltac:(lia)). Qed.

Lemma chars_t : chars "t" = [ch "t"]. Proof. done. Qed.
Lemma chars_ta : chars "ta" = [ch "t"; ch "a"]. Proof. done. Qed.
Lemma chars_tag : chars "tag" = [ch "t"; ch "a"; ch "g"]. Proof. done. Qed.

Ltac names := rewrite ?chars_t, ?chars_ta, ?chars_tag; unfold lower; cbn [map app list_eqb];
  rewrite ?tolower_t, ?tolower_a, ?tolower_g, ?andb_false_r, ?andb_true_r.

Lemma nstate_one c : nstate [c] = if one_of c "Tt" then TAG1 else PARA_NAME.
Proof. unfold nstate. names. done. Qed.

Lemma nstate_snoc l c : l ≠ [] → nstate (l ++ [c]) = nnext (nstate l) c.
Proof.
  intros Hne. unfold nstate. unfold lower; rewrite map_app.
  destruct l as [|a [|b [|d [|e l]]]]; [done|..]; names;
    destruct (one_of a "Tt"); cbn [andb]; try done;
    try (destruct (one_of b "Aa"); cbn [andb]; try done);
    try (destruct (one_of d "Gg"); cbn [andb]; try done).
Qed.

Lemma nstate_tag l : is_tag l = bool_decide (nstate l = TAG3).
Proof.
  unfold is_tag, nstate. set (x := lower l).
  destruct (list_eqb x (chars "t")) eqn:E1.
  { apply list_eqb_spec in E1 as ->. done. }
  destruct (list_eqb x (chars "ta")) eqn:E2.
  { apply list_eqb_spec in E2 as ->. done. }
  by destruct (list_eqb x (chars "tag")).
Qed.

Lemma nstate_cases l : nstate l = TAG1 ∨ nstate l = TAG2 ∨ nstate l = TAG3 ∨ nstate l = PARA_NAME.
Proof. unfold nstate. repeat case_match; auto. Qed.

Lemma nstate_plain l : tag_prefix l = false → nstate l = PARA_NAME.
Proof.
  unfold tag_prefix, nstate. set (x := lower l). intros H.
  destruct (list_eqb x (chars "t")) eqn:E1; [apply list_eqb_spec in E1; by rewrite E1 in H|].
  destruct (list_eqb x (chars "ta")) eqn:E2; [apply list_eqb_spec in E2; by rewrite E2 in H|].
  destruct (list_eqb x (chars "tag")) eqn:E3; [apply list_eqb_spec in E3; by rewrite E3 in H|done].
Qed.

(** ** One character *)
Section chars.
Context (m : mem) (multi : bool).

Lemma tp_step_pchar tmp x c : pchar c = true →
  tp_step always m tmp multi x c =
    if one_of c "Tt" then tp_t tmp x else if one_of c "Aa" then tp_a tmp x
    else if one_of c "Gg" then tp_g tmp x else tp_default tmp x.
Proof.
  unfold pchar, is_blank, is_crlf. rewrite negb_true_iff, !orb_false_iff.
  intros [[[[Hsp [Hcr Hlf]] H0] Hq] Hone]. unfold tp_step. rewrite Hsp, Hlf, Hcr, H0, Hq. cbn [orb].
  cbn [one_of] in Hone. rewrite !orb_false_iff in Hone. destruct Hone as (Hc & Hb & Hs & He & _).
  rewrite Hc, Hs, He. change BSLASH with (ch "\"). by rewrite Hb.
Qed.

Lemma one_of_letters c : one_of c "Tt" = true → one_of c "Aa" = false ∧ one_of c "Gg" = false.
Proof. cbn. rewrite !orb_true_iff, !orb_false_iff, !Z.eqb_eq, !Z.eqb_neq. intros [-> | [-> | [=]]]; vm_compute; naive_solver. Qed.

Lemma one_of_letters' c : one_of c "Aa" = true → one_of c "Gg" = false.
Proof. cbn. rewrite !orb_true_iff, !orb_false_iff, !Z.eqb_eq, !Z.eqb_neq. intros [-> | [-> | [=]]]; vm_compute; naive_solver. Qed.

(** The first character of a name, and the next ones. *)
Lemma name_first tmp c sv b : pchar c = true →
  tp_step always m tmp multi (TVars S_PARA_NAME sv (Some new_param) b) c =
    Ok (TNext (TVars (nstate [c]) sv (Some (ToParam GENERAL_PARAM (Str tmp 0) null_str)) b)).
Proof.
  intros Hc. rewrite tp_step_pchar, nstate_one by done.
  destruct (one_of c "Tt"); [done|]. destruct (one_of c "Aa"); [done|]. by destruct (one_of c "Gg").
Qed.

Lemma name_next tmp c l sv p b : pchar c = true → l ≠ [] →
  tp_step always m tmp multi (TVars (nstate l) sv p b) c =
    Ok (TNext (TVars (nstate (l ++ [c])) sv p b)).
Proof.
  intros Hc Hl. rewrite tp_step_pchar, nstate_snoc by done.
  destruct (one_of c "Tt") eqn:Et.
  { destruct (one_of_letters c Et) as [Ea Eg].
    destruct (nstate_cases l) as [E|[E|[E|E]]]; rewrite E; cbn [nnext]; rewrite ?Ea, ?Eg; done. }
  destruct (one_of c "Aa") eqn:Ea.
  { pose proof (one_of_letters' c Ea) as Eg.
    destruct (nstate_cases l) as [E|[E|[E|E]]]; rewrite E; cbn [nnext]; rewrite ?Ea, ?Eg; done. }
  destruct (one_of c "Gg") eqn:Eg;
    destruct (nstate_cases l) as [E|[E|[E|E]]]; rewrite E; cbn [nnext]; rewrite ?Ea, ?Eg; done.
Qed.

Lemma token_first tmp c sv p b : pchar c = true →
  tp_step always m tmp multi (TVars S_PARA_VALUE sv (Some p) b) c =
    Ok (TNext (TVars PARA_VALUE_TOKEN sv (Some (on_value (set_s tmp) p)) b)).
Proof.
  intros Hc. rewrite tp_step_pchar by done.
  destruct (one_of c "Tt"); [done|]. destruct (one_of c "Aa"); [done|]. by destruct (one_of c "Gg").
Qed.

Lemma token_next tmp c sv p b : pchar c = true →
  tp_step always m tmp multi (TVars PARA_VALUE_TOKEN sv p b) c = Ok (TNext (TVars PARA_VALUE_TOKEN sv p b)).
Proof.
  intros Hc. rewrite tp_step_pchar by done.
  destruct (one_of c "Tt"); [done|]. destruct (one_of c "Aa"); [done|]. by destruct (one_of c "Gg").
Qed.

Lemma quote_next tmp c sv p b : qitem_ok (false, c) = true →
  tp_step always m tmp multi (TVars PARA_VALUE_QUOTED sv p b) c = Ok (TNext (TVars PARA_VALUE_QUOTED sv p b)).
Proof.
  cbn. unfold is_crlf. rewrite negb_true_iff, !orb_false_iff. intros [[[[Hcr Hlf] H0] Hq] Hb].
  unfold tp_step. rewrite Hlf, Hcr, H0, Hq, Hb. cbn [orb].
  repeat case_match; done.
Qed.

(** A line break and what follows it: the end of the header. *)
Definition ends_line (c : Z) : bool :=
  negb (is_sp c || (c =? NUL) || (c =? ch ",") || (c =? BSLASH)).

Lemma after_line tmp c x : ends_line c = true →
  (t_status x = F_LF ∨ t_status x = F_CRLF) → ∃ y,
  tp_step always m tmp multi x c = Ok (TEnd y) ∧ t_saved y = t_saved x ∧ t_param y = t_param x ∧ t_body y = t_body x.
Proof.
  unfold ends_line. rewrite negb_true_iff, !orb_false_iff. intros [[[Hsp H0] Hc] Hb] Hst.
  unfold tp_step. rewrite Hsp, H0, Hc, Hb. cbn [orb].
  destruct x as [st sv p b]. cbn in Hst. repeat case_match; destruct Hst as [-> | ->]; by eexists.
Qed.
End chars.

(** ** A parameter *)

(** [add_param] on the body. *)
Definition add_to (b : to_body) (p : to_param) : to_body :=
  ToBody (tb_error b) (tb_body b) (tb_uri b) (tb_display b)
    (match tp_type p with TAG_PARAM => tp_value p | GENERAL_PARAM => tb_tag_value b end)
    (tb_param_lst b ++ [p]).

Section run.
Context (m : mem) (pend : Z) (multi : bool).
Context (Hsmall : pend < 2 ^ 31 + mbase m).

Abbreviation pstep := (λ tmp x c, pair tmp <$> tp_step always m tmp multi x c).
Abbreviation pleaves := (leaves pstep m pend).

Definition reading (st : tstate) (p : option to_param) (b : to_body) : tvars :=
  TVars st E_PARA_VALUE p b.

(** The variables behind an item at [p]: a value that is not quoted still has to
    be ended. *)
Definition pending (p : Z) (it : list Z * pvalue) (b : to_body) : tvars :=
  let '(n, v) := it in
  match v with
  | NoValue => reading PARA_NAME (Some (ToParam GENERAL_PARAM (Str (p + 1) 0) null_str)) b
  | Token t => reading PARA_VALUE_TOKEN
      (Some (ToParam (if is_tag n then TAG_PARAM else GENERAL_PARAM) (Str (p + 1) (len n))
        (Str (p + 1 + len n + 1) 0))) b
  | Quote _ => reading E_PARA_VALUE None (add_to b (pitem_at p it false))
  end.

Lemma pleaves_next tmp c x x' r :
  tmp < pend → rd m tmp = Ok c → tp_step always m tmp multi x c = Ok (TNext x') →
  pleaves (tmp + 1) x' r → pleaves tmp x r.
Proof. intros Hlt Hc Hs H. eapply (leaves_next pstep m pend tmp tmp); [done|done| |lia|exact H]. by rewrite Hs. Qed.

(** The rest of a name. *)
Lemma name_rest l n p param b r : n ≠ [] →
  bytes_at m p l → p + len l ≤ pend → forallb pchar l = true →
  pleaves (p + len l) (reading (nstate (n ++ l)) param b) r →
  pleaves p (reading (nstate n) param b) r.
Proof.
  revert n p. induction l as [|c l IH]; intros n p Hn Hat Hle Hl H.
  { rewrite app_nil_r in H. by replace (p + len []) with p in H by (rewrite len_nil; lia). }
  destruct Hat as [Hc Hat]. cbn in Hl. apply andb_true_iff in Hl as [Hpc Hl]. rewrite len_cons in *.
  pose proof (len_nonneg l). eapply pleaves_next; [lia|exact Hc|by apply name_next|].
  apply IH; [by destruct n|done|lia|done|]. rewrite <- app_assoc. cbn [app].
  by replace (p + 1 + len l) with (p + (1 + len l)) by lia.
Qed.

(** The rest of a token. *)
Lemma token_rest l p param b r :
  bytes_at m p l → p + len l ≤ pend → forallb pchar l = true →
  pleaves (p + len l) (reading PARA_VALUE_TOKEN param b) r →
  pleaves p (reading PARA_VALUE_TOKEN param b) r.
Proof.
  intros Hat Hle Hl H. eapply leaves_run; [exact Hat|done| |exact H].
  apply Forall_forall. intros c Hc t. rewrite forallb_forall in Hl.
  apply list_elem_of_In, Hl in Hc. unfold reading. by rewrite token_next.
Qed.

(** The characters of a quoted value. *)
Lemma quote_rest q p param b r :
  bytes_at m p (qchars q) → p + len (qchars q) ≤ pend → forallb qitem_ok q = true →
  pleaves (p + len (qchars q)) (reading PARA_VALUE_QUOTED param b) r →
  pleaves p (reading PARA_VALUE_QUOTED param b) r.
Proof.
  revert p. induction q as [|[esc c] q IH]; intros p Hat Hle Hq H.
  { change (qchars []) with (@nil Z) in H. by rewrite len_nil, Z.add_0_r in H. }
  cbn [qchars flat_map] in *. fold (qchars q) in *.
  cbn [forallb] in Hq. apply andb_true_iff in Hq as [Hc Hq]. pose proof (len_nonneg (qchars q)).
  destruct esc; cbn [qitem_chars app bytes_at] in *; rewrite ?len_cons in *.
  - destruct Hat as (Hc0 & H1 & Hat). eapply (leaves_skip pstep m pend p); [lia|exact Hc0| |].
    { cbn. rewrite H1. cbn. cbn in Hc. apply negb_true_iff in Hc. by rewrite Hc. }
    replace (p + 1 + 1) with (p + 2) in Hat by lia. apply IH; [done|lia|done|].
    by replace (p + 2 + len (qchars q)) with (p + (1 + (1 + len (qchars q)))) by lia.
  - destruct Hat as (Hc0 & Hat). eapply pleaves_next; [lia|exact Hc0|by apply quote_next|].
    apply IH; [done|lia|done|].
    by replace (p + 1 + len (qchars q)) with (p + (1 + len (qchars q))) by lia.
Qed.

Lemma to_name_equal p n b tmp : tmp = p + len n → len n < 2 ^ 31 →
  tp_step always m tmp multi (reading (nstate n) (Some (ToParam GENERAL_PARAM (Str p 0) null_str)) b) (ch "=") =
  Ok (TNext (reading S_PARA_VALUE
    (Some (ToParam (if is_tag n then TAG_PARAM else GENERAL_PARAM) (Str p (len n)) null_str)) b)).
Proof.
  intros Ht Hl. change (tp_step always m tmp multi ?x (ch "=")) with (tp_equal tmp x). rewrite nstate_tag.
  unfold tp_equal, name_done, name_end. cbn [t_status reading].
  destruct (nstate_cases n) as [E|[E|[E|E]]]; rewrite E; cbn;
    unfold go, on_name, end_at; cbn; by rewrite (slice_len p n tmp) by done.
Qed.

Lemma item_run it p b r : pitem_ok it = true → bytes_at m p (pitem_chars it) →
  p + len (pitem_chars it) ≤ pend → len (pitem_chars it) < 2 ^ 31 →
  pleaves (p + len (pitem_chars it)) (pending p it b) r →
  pleaves (p + 1) (reading S_PARA_NAME (Some new_param) b) r.
Proof.
  destruct it as [n v]. unfold pitem_ok, pitem_chars. cbn [fst snd].
  rewrite !andb_true_iff. intros ((Hn & Hne) & Hv) Hat Hle Hlen H.
  apply negb_true_iff, bool_decide_eq_false in Hne.
  destruct n as [|c n]; [done|]. change ((c :: n) ++ pvalue_chars v) with (c :: n ++ pvalue_chars v) in *.
  cbn in Hn. apply andb_true_iff in Hn as [Hc Hn].
  rewrite !len_cons, len_app in Hle, H, Hlen. pose proof (len_nonneg n). pose proof (len_nonneg (pvalue_chars v)).
  cbn [bytes_at] in Hat. destruct Hat as (_ & Hc1 & Hat). apply bytes_at_app in Hat as [Hna Hva].
  rewrite <- (Z.add_assoc p 1 1) in Hna, Hva. change (1 + 1) with 2 in *.
  eapply pleaves_next; [lia|exact Hc1|by apply name_first|].
  replace (p + 1 + 1) with (p + 2) by lia.
  eapply name_rest; [done|exact Hna|lia|done|]. cbn [app].
  set (nm := c :: n) in *. assert (Hnm : len nm = 1 + len n) by (unfold nm; by rewrite len_cons).
  destruct v as [|t|q]; cbn [pvalue_chars pending] in *.
  - apply negb_true_iff in Hv. rewrite nstate_plain by done. rewrite len_nil in H.
    by replace (p + (1 + (1 + (len n + 0)))) with (p + 2 + len n) in H by lia.
  - apply andb_true_iff in Hv as [Ht Htn]. apply negb_true_iff, bool_decide_eq_false in Htn.
    destruct t as [|d t]; [done|]. cbn in Ht. apply andb_true_iff in Ht as [Hd Ht].
    destruct Hva as (He & Hd1 & Hta). rewrite !len_cons in *. pose proof (len_nonneg t).
    eapply pleaves_next; [lia|exact He|apply (to_name_equal (p + 1) nm); lia|].
    eapply pleaves_next; [lia|exact Hd1|by apply token_first|].
    eapply token_rest; [exact Hta|lia|done|].
    replace (p + (1 + (1 + (len n + (1 + (1 + len t)))))) with (p + 2 + len n + 1 + 1 + len t) in H by lia.
    unfold on_value, set_s; cbn. rewrite Hnm in *.
    by replace (p + 1 + (1 + len n) + 1) with (p + 2 + len n + 1) in H by lia.
  - destruct Hva as (He & Hq1 & Hqa). rewrite !len_cons, len_app, len_cons, len_nil in *.
    apply bytes_at_app in Hqa as [Hqa [Hq2 _]]. pose proof (len_nonneg (qchars q)).
    eapply pleaves_next; [lia|exact He|apply (to_name_equal (p + 1) nm); lia|].
    eapply pleaves_next; [lia|exact Hq1|done|].
    eapply quote_rest; [exact Hqa|lia|done|].
    eapply pleaves_next; [lia|exact Hq2|done|].
    replace (p + (1 + (1 + (len n + (1 + (1 + (len (qchars q) + (1 + 0)))))))) with
      (p + 2 + len n + 1 + 1 + len (qchars q) + 1) in H by lia.
    unfold add_to, pitem_at in H. rewrite Hnm in H.
    replace (p + 1 + (1 + len n) + 2) with (p + 2 + len n + 1 + 1) in H by lia.
    rewrite <- (slice_len _ (qchars q) (p + 2 + len n + 1 + 1 + len (qchars q))) in H by lia.
    rewrite Hnm. by destruct (is_tag nm).
Qed.

Lemma untagged n : pitem_ok (n, NoValue) = true → is_tag n = false.
Proof.
  unfold pitem_ok. rewrite !andb_true_iff. intros [_ Hv]. apply negb_true_iff in Hv.
  by rewrite nstate_tag, nstate_plain.
Qed.

(** The next semicolon ends an item. *)
Lemma pending_semicolon it p b : pitem_ok it = true → len (pitem_chars it) < 2 ^ 31 →
  tp_step always m (p + len (pitem_chars it)) multi (pending p it b) (ch ";") =
  Ok (TNext (reading S_PARA_NAME (Some new_param) (add_to b (pitem_at p it false)))).
Proof.
  destruct it as [n v]. intros Hok. unfold pitem_chars. cbn [fst snd]. rewrite len_cons, len_app.
  pose proof (len_nonneg n). pose proof (len_nonneg (pvalue_chars v)). intros Hl.
  change (tp_step always m ?t multi ?x (ch ";")) with (tp_semicolon always t x).
  destruct v as [|t|q]; cbn [pvalue_chars pending pitem_at] in *; [| |done];
    unfold tp_semicolon, param_done, token_done; cbn -[is_tag ch slice];
    unfold end_at, on_name, on_value, set_s, add_to, tag_type; cbn -[is_tag ch slice].
  - rewrite len_nil. rewrite (slice_len _ n) by lia. rewrite (slice_len _ []) by (rewrite len_nil; lia).
    rewrite len_nil, (untagged n) by done. by replace (p + (1 + (len n + 0))) with (p + 1 + len n) by lia.
  - rewrite len_cons in *. pose proof (len_nonneg t). by rewrite (slice_len _ t) by lia.
Qed.

(** So does the end of the line, after which the parser returns. *)
Lemma pending_eol it p b cr c : pitem_ok it = true → len (pitem_chars it) < 2 ^ 31 →
  bytes_at m (p + len (pitem_chars it)) (eol cr ++ [c]) → ends_line c = true →
  p + len (pitem_chars it) + len (eol cr) < pend →
  ∃ x, pleaves (p + len (pitem_chars it)) (pending p it b)
      (p + len (pitem_chars it) + len (eol cr), TEnd x) ∧
    tp_end x = Ok (E_PARA_VALUE, add_to b (pitem_at p it true)).
Proof.
  intros Hok Hl Hat Hc Hend. set (q := p + len (pitem_chars it)) in *.
  (* the first line break *)
  set (st := match snd it with NoValue => S_EQUAL | _ => E_PARA_VALUE end).
  set (pa := match snd it with NoValue => Some (pitem_at p it true) | _ => None end).
  set (b' := match snd it with NoValue => b | _ => add_to b (pitem_at p it true) end).
  assert (Hbrk : tp_step always m q multi (pending p it b) CR = Ok (TNext (TVars F_CR st pa b')) ∧
    tp_step always m q multi (pending p it b) LF = Ok (TNext (TVars F_LF st pa b'))).
  { change (tp_step always m q multi ?x CR) with (tp_cr q x). change (tp_step always m q multi ?x LF) with (tp_lf q x).
    destruct it as [n v]; subst st pa b' q. unfold pitem_chars in *. cbn [fst snd] in *.
    rewrite len_cons, len_app in *. pose proof (len_nonneg n). pose proof (len_nonneg (pvalue_chars v)).
    destruct v as [|t|qs]; cbn [pvalue_chars pending pitem_at] in *; [| |done];
      unfold tp_cr, tp_lf, token_done, name_done, name_end, value_end; cbn -[is_tag ch slice];
      unfold go, save, end_at, on_name, on_value, set_s, add_to; cbn -[is_tag ch slice].
    - rewrite len_nil, (untagged n), (slice_len _ n) by (done || (rewrite ?len_nil in *; lia)). done.
    - rewrite len_cons in *. pose proof (len_nonneg t). by rewrite (slice_len _ t) by lia. }
  destruct Hbrk as [Hcr Hlf].
  assert (Hfin : ∀ y, t_saved y = st → t_param y = pa → t_body y = b' →
    tp_end y = Ok (E_PARA_VALUE, add_to b (pitem_at p it true))).
  { intros [? sv py by_] Hs Hp Hb; cbn in Hs, Hp, Hb. subst sv py by_. subst st pa b'.
    destruct it as [n v]; destruct v; [|done..]. unfold tp_end; cbn -[is_tag].
    by rewrite (untagged n) by done. }
  destruct cr; cbn [eol app bytes_at] in Hat.
  - destruct Hat as (H1 & H2 & H3 & _). change (len (eol true)) with 2 in *.
    destruct (after_line m multi (q + 2) c (TVars F_CRLF st pa b') Hc) as (y & Hy & Hs & Hp & Hb);
      [by right|]. exists y. split; [|by apply Hfin].
    eapply pleaves_next; [lia|exact H1|exact Hcr|]. eapply pleaves_next; [lia|exact H2|done|].
    replace (q + 1 + 1) with (q + 2) in * by lia.
    apply (leaves_end pstep m pend (q + 2) (q + 2) c (TVars F_CRLF st pa b')); [lia|exact H3| |done].
    by rewrite Hy.
  - destruct Hat as (H1 & H2 & _). change (len (eol false)) with 1 in *.
    destruct (after_line m multi (q + 1) c (TVars F_LF st pa b') Hc) as (y & Hy & Hs & Hp & Hb);
      [by left|]. exists y. split; [|by apply Hfin].
    eapply pleaves_next; [lia|exact H1|exact Hlf|].
    apply (leaves_end pstep m pend (q + 1) (q + 1) c (TVars F_LF st pa b')); [lia|exact H2| |done].
    by rewrite Hy.
Qed.

(** All items of a header, the first of them at [p]. *)
Lemma items_leave l it p b cr c :
  forallb pitem_ok (it :: l) = true →
  bytes_at m p (pitems_chars (it :: l) ++ eol cr ++ [c]) → ends_line c = true →
  len (pitems_chars (it :: l)) < 2 ^ 31 →
  p + len (pitems_chars (it :: l)) + len (eol cr) < pend →
  ∃ x, pleaves (p + 1) (reading S_PARA_NAME (Some new_param) b)
      (p + len (pitems_chars (it :: l)) + len (eol cr), TEnd x) ∧
    tp_end x = Ok (E_PARA_VALUE, fold_left add_to (pitems_at p (it :: l)) b).
Proof.
  revert it p b. induction l as [|it' l IH]; intros it p b Hok Hat Hc Hl Hend;
    change (pitems_chars (it :: ?l)) with (pitem_chars it ++ pitems_chars l) in *;
    cbn [forallb] in Hok; apply andb_true_iff in Hok as [Hit Hok];
    rewrite len_app in *; rewrite <- app_assoc in Hat; apply bytes_at_app in Hat as [Hi Hr];
    change (Z.of_nat (length (pitem_chars it))) with (len (pitem_chars it)) in Hr;
    pose proof (len_nonneg (pitem_chars it)); assert (0 < len (eol cr)) by (by destruct cr).
  - change (pitems_chars []) with (@nil Z) in *. rewrite len_nil in *. cbn [app] in Hr.
    destruct (pending_eol it p b cr c) as (x & Hx & Ht); [done|lia|done|done|lia|].
    exists x. split; [|done]. eapply item_run; [done|exact Hi|lia|lia|].
    by replace (p + (len (pitem_chars it) + 0)) with (p + len (pitem_chars it)) by lia.
  - set (q := p + len (pitem_chars it)) in *.
    assert (0 < len (pitems_chars (it' :: l))).
    { change (pitems_chars (it' :: l)) with (ch ";" :: (it'.1 ++ pvalue_chars it'.2) ++ pitems_chars l).
      rewrite len_cons. pose proof (len_nonneg ((it'.1 ++ pvalue_chars it'.2) ++ pitems_chars l)). lia. }
    destruct (IH it' q (add_to b (pitem_at p it false)) Hok Hr Hc) as (x & Hx & Ht); [lia|lia|].
    exists x. split; [|exact Ht].
    replace (p + (len (pitem_chars it) + len (pitems_chars (it' :: l)))) with
      (q + len (pitems_chars (it' :: l))) by lia.
    eapply item_run; [done|exact Hi|fold q; lia|lia|]. fold q.
    assert (Hsc : rd m q = Ok (ch ";")) by (by destruct Hr as [Hr _]).
    eapply pleaves_next; [lia|exact Hsc|apply pending_semicolon; [done|lia]|exact Hx].
Qed.

(** [parse_to_param] on a list of parameters and the end of the line. *)
Lemma parse_to_param_items l p b cr c : l ≠ [] →
  forallb pitem_ok l = true →
  bytes_at m p (pitems_chars l ++ eol cr ++ [c]) → ends_line c = true →
  len (pitems_chars l) < 2 ^ 31 → p + len (pitems_chars l) + len (eol cr) < pend →
  parse_to_param always m p pend b multi =
    Ok (p + len (pitems_chars l) + len (eol cr), E_PARA_VALUE, fold_left add_to (pitems_at p l) b).
Proof.
  destruct l as [|it l]; [done|]. intros _ Hok Hat Hc Hl Hend.
  destruct (items_leave l it p b cr c Hok Hat Hc Hl Hend) as (x & Hx & Ht).
  pose proof (len_nonneg (pitems_chars (it :: l))). assert (0 < len (eol cr)) by (by destruct cr).
  unfold parse_to_param. erewrite (leaves_loop pstep m pend p).
  2: { eapply pleaves_next; [lia|by destruct Hat as [Hat _]|done|exact Hx]. }
  cbn. by rewrite Ht.
Qed.
End run.
