(* ===== verification/ToGrammar.v ===== *)
(** * To headers: every well-formed body is parsed into its parts *)

From stdpp Require Import strings.
From S2P Require Export ToParamRun.
Import To.

(** ** The grammar *)

(** Characters of words and addresses; between the brackets also [','] and [';']. *)
Definition dchar (c : Z) : bool :=
  negb (is_blank c || (c =? NUL) || (c =? DQUOTE) || (c =? BSLASH) || one_of c ",<>;").
Definition uchar (c : Z) : bool := dchar c || one_of c ",;".

(** What comes before the URI: nothing at all, only the bracket, a quoted display
    name, or words, each with the blanks before it. *)
Inductive to_name :=
| Bare
| Angle
| QuotedName (q : list qitem) (sp : list Z)
| Words (w : list Z) (ws : list (list Z * list Z)) (sp : list Z).

Record to_text := ToText {
  tt_blanks : list Z;
  tt_name : to_name;
  tt_uri : list Z;
  tt_params : list (list Z * pvalue);
}.

Definition words_chars (ws : list (list Z * list Z)) : list Z := flat_map (λ x, x.1 ++ x.2) ws.

(** The display name, without the blanks behind it. *)
Definition display_chars (n : to_name) : list Z :=
  match n with
  | Bare | Angle => []
  | QuotedName q _ => DQUOTE :: qchars q ++ [DQUOTE]
  | Words w ws _ => w ++ words_chars ws
  end.

Definition name_blanks (n : to_name) : list Z :=
  match n with Bare | Angle => [] | QuotedName _ sp | Words _ _ sp => sp end.

Definition addr_chars (t : to_text) : list Z :=
  match tt_name t with Bare => tt_uri t | _ => ch "<" :: tt_uri t ++ [ch ">"] end.

(** The body up to its parameters. *)
Definition main_chars (t : to_text) : list Z :=
  display_chars (tt_name t) ++ name_blanks (tt_name t) ++ addr_chars t.

Definition to_chars (t : to_text) : list Z :=
  tt_blanks t ++ main_chars t ++ pitems_chars (tt_params t).

(** A word begins with such a character. *)
Definition word_ok (w : list Z) : bool := forallb dchar w && negb (bool_decide (w = [])).

Definition name_ok (n : to_name) : bool :=
  match n with
  | Bare | Angle => true
  | QuotedName q sp => forallb qitem_ok q && forallb is_sp sp
  | Words w ws sp =>
      word_ok w && forallb is_sp sp &&
      forallb (λ x, forallb is_sp x.1 && negb (bool_decide (x.1 = [])) && word_ok x.2) ws
  end.

Definition uri_ok (n : to_name) (u : list Z) : bool :=
  match n with
  | Bare => word_ok u
  | _ => match u with [] => false | c :: u => dchar c && forallb uchar u end
  end.

Definition to_text_ok (t : to_text) : bool :=
  forallb is_sp (tt_blanks t) && name_ok (tt_name t) && uri_ok (tt_name t) (tt_uri t) &&
  forallb pitem_ok (tt_params t).

(** The body that the text at [p], whose end of line has [k] characters, stands for.
    Without parameters the end of the line is part of [body]. *)
Definition to_body_at (p k : Z) (t : to_text) : to_body :=
  let s := p + len (tt_blanks t) in
  let params := pitems_at (s + len (main_chars t)) (tt_params t) in
  ToBody false
    (Str s (len (main_chars t) + (if bool_decide (tt_params t = []) then k else 0)))
    (Str (s + len (display_chars (tt_name t)) + len (name_blanks (tt_name t)) +
        (match tt_name t with Bare => 0 | _ => 1 end))
      (len (tt_uri t)))
    (match tt_name t with
     | Bare | Angle => null_str
     | n => Str s (len (display_chars n))
     end)
    (tag_of params null_str) params.

Definition sample : to_text := ToText (chars " ")
  (Words (chars "Bob") [(chars " ", chars "B."); (chars "  ", chars "Smith")] (chars " "))
  (chars "sip:b@c;x=y") [(chars "tag", Token (chars "1x")); (chars "a", Quote [(true, 65)]); (chars "n", NoValue)].

Example sample_ok : to_text_ok sample = true.
Proof. by vm_compute. Qed.
Example sample_parsed : parse_to always (block (to_chars sample ++ eol true ++ [65])) 4096 4196 =
  Ok (4096 + len (to_chars sample) + 2, [to_body_at 4096 2 sample]).
Proof. by vm_compute. Qed.

(** ** The main loop over the parts *)
Section run.
Context (m : mem) (pend : Z) (multi : bool).

Abbreviation mstep := (λ tmp x c, mt_step always m pend tmp multi x c).
Abbreviation mleaves := (leaves mstep m pend).

Lemma mleaves_next tmp c x x' r :
  tmp < pend → rd m tmp = Ok c → mt_step always m pend tmp multi x c = Ok (tmp, TNext x') →
  mleaves (tmp + 1) x' r → mleaves tmp x r.
Proof. intros Hlt Hc Hs H. eapply (leaves_next mstep m pend tmp tmp); [done|done|done|lia|exact H]. Qed.

(** The characters by their class. *)
Lemma mt_step_dchar tmp x c : dchar c = true → mt_step always m pend tmp multi x c = mret (tmp, mt_default tmp x).
Proof.
  unfold dchar, is_blank, is_crlf. rewrite negb_true_iff, !orb_false_iff.
  intros [[[[[Hsp [Hcr Hlf]] H0] Hq] Hb] Hone]. unfold mt_step. rewrite Hsp, Hlf, Hcr, H0, Hb, Hq.
  cbn [one_of] in Hone. rewrite !orb_false_iff in Hone. destruct Hone as (-> & -> & -> & -> & _). done.
Qed.

Lemma mt_step_sp tmp x c : is_sp c = true → mt_step always m pend tmp multi x c = mret (tmp, mt_space tmp x).
Proof. intros H. unfold mt_step. by rewrite H. Qed.

(** Blanks that change nothing. *)
Lemma sp_run l p x r : forallb is_sp l = true → bytes_at m p l → p + len l ≤ pend →
  match m_status x with
  | START_TO | S_URI_ENCLOSED | E_DISPLAY_QUOTED | MAYBE_URI_END | DISPLAY_TOKEN2 => True | _ => False end →
  mleaves (p + len l) x r → mleaves p x r.
Proof.
  intros Hl Hat Hle Hst H. eapply leaves_run; [exact Hat|done| |exact H].
  apply Forall_forall. intros c Hc t. rewrite forallb_forall in Hl.
  apply list_elem_of_In, Hl in Hc. rewrite mt_step_sp by done. unfold mt_space. by destruct (m_status x).
Qed.

(** Characters of a word or an address that change nothing. *)
Lemma dchars_run l p x r : forallb dchar l = true → bytes_at m p l → p + len l ≤ pend →
  match m_status x with DISPLAY_TOKEN | URI_OR_TOKEN => True | _ => False end →
  mleaves (p + len l) x r → mleaves p x r.
Proof.
  intros Hl Hat Hle Hst H. eapply leaves_run; [exact Hat|done| |exact H].
  apply Forall_forall. intros c Hc t. rewrite forallb_forall in Hl.
  apply list_elem_of_In, Hl in Hc. rewrite mt_step_dchar by done. unfold mt_default. by destruct (m_status x).
Qed.

Lemma uchar_step tmp x c : uchar c = true → m_status x = URI_ENCLOSED →
  mt_step always m pend tmp multi x c = Ok (tmp, TNext x).
Proof.
  intros Hc Hst. unfold uchar in Hc. apply orb_true_iff in Hc as [Hc|Hc].
  { rewrite mt_step_dchar by done. unfold mt_default. by rewrite Hst. }
  cbn [one_of] in Hc. rewrite !orb_true_iff, !Z.eqb_eq in Hc. destruct Hc as [->|[->|[=]]].
  - change (mt_step always m pend tmp multi x (ch ",")) with (Ok (tmp, mt_comma always tmp multi x)).
    unfold mt_comma. by rewrite Hst.
  - change (mt_step always m pend tmp multi x (ch ";")) with (mt_semicolon always m pend tmp multi x).
    unfold mt_semicolon. by rewrite Hst.
Qed.

(** The URI between brackets. *)
Lemma enclosed_run u q em prev b r :
  uri_ok Angle u = true → bytes_at m q (u ++ [ch ">"]) → q + len u < pend → len u < 2 ^ 31 →
  mleaves (q + len u + 1) (MVars END START_TO em prev (on_uri (λ _, Str q (len u)) b)) r →
  mleaves q (MVars S_URI_ENCLOSED START_TO em prev b) r.
Proof.
  destruct u as [|c u]; [done|]. cbn [uri_ok]. rewrite andb_true_iff. intros [Hc Hu] Hat Hlt Hlen H.
  destruct Hat as [Hc0 Hat]. fold (app u [ch ">"]) in Hat. apply bytes_at_app in Hat as [Hua [Hgt _]].
  rewrite len_cons in *. pose proof (len_nonneg u).
  eapply mleaves_next; [lia|exact Hc0|by rewrite mt_step_dchar|].
  eapply leaves_run; [exact Hua|lia| |].
  { apply Forall_forall. intros d Hd t. rewrite forallb_forall in Hu.
    apply list_elem_of_In, Hu in Hd. by apply uchar_step. }
  eapply mleaves_next; [lia|exact Hgt|done|].
  replace (q + (1 + len u) + 1) with (q + 1 + len u + 1) in H by lia.
  unfold at_status, uri_end, body_with, on_uri, end_at, set_s in *; cbn in *.
  rewrite (slice_len _ (c :: u)) by (rewrite len_cons; lia). by rewrite len_cons.
Qed.

(** The rest of the words of a display name, the blanks behind them and the bracket. *)
Lemma words_run ws sp q st em prev b :
  (st = URI_OR_TOKEN ∨ st = DISPLAY_TOKEN) →
  forallb (λ x, forallb is_sp x.1 && negb (bool_decide (x.1 = [])) && word_ok x.2) ws = true →
  forallb is_sp sp = true →
  bytes_at m q (words_chars ws ++ sp ++ [ch "<"]) → q + len (words_chars ws ++ sp) < pend →
  ∃ em', ∀ r, mleaves (q + len (words_chars ws ++ sp) + 1)
    (MVars S_URI_ENCLOSED START_TO em' prev (on_display (end_at (q + len (words_chars ws))) b)) r →
  mleaves q (MVars st START_TO em prev b) r.
Proof.
  revert q st em. induction ws as [|[s w] ws IH]; intros q st em Hst Hws Hsp Hat Hle.
  - cbn [words_chars flat_map app] in *. exists q. intros r H. rewrite len_nil, Z.add_0_r in H.
    destruct sp as [|c sp].
    { rewrite len_nil, Z.add_0_r in *. destruct Hat as [Hc _].
      eapply mleaves_next; [lia|exact Hc| |exact H]. by destruct Hst as [-> | ->]. }
    cbn in Hsp. apply andb_true_iff in Hsp as [Hc Hsp]. rewrite len_cons in *. pose proof (len_nonneg sp).
    destruct Hat as [Hc0 Hat]. apply bytes_at_app in Hat as [Hspa [Hlt _]].
    eapply mleaves_next; [lia|exact Hc0| |].
    { rewrite mt_step_sp by done. instantiate (1 := MVars
        (match st with URI_OR_TOKEN => MAYBE_URI_END | _ => DISPLAY_TOKEN2 end) START_TO q prev b).
      by destruct Hst as [-> | ->]. }
    eapply sp_run; [done|exact Hspa|lia|by destruct Hst as [-> | ->]|].
    eapply mleaves_next; [lia|exact Hlt| |].
    2: { by replace (q + (1 + len sp) + 1) with (q + 1 + len sp + 1) in H by lia. }
    by destruct Hst as [-> | ->].
  - cbn [forallb fst snd] in Hws. apply andb_true_iff in Hws as [Hsw Hws].
    rewrite !andb_true_iff in Hsw. destruct Hsw as [[Hs Hsn] Hw].
    apply negb_true_iff, bool_decide_eq_false in Hsn.
    change (words_chars ((s, w) :: ws)) with ((s ++ w) ++ words_chars ws) in *.
    rewrite <- !app_assoc in Hat. rewrite !len_app in *.
    destruct s as [|c s]; [done|]. cbn in Hs. apply andb_true_iff in Hs as [Hc Hs].
    apply andb_true_iff in Hw as [Hw Hwn]. apply negb_true_iff, bool_decide_eq_false in Hwn.
    destruct w as [|d w]; [done|]. cbn in Hw. apply andb_true_iff in Hw as [Hd Hw].
    rewrite !len_cons in *. pose proof (len_nonneg s). pose proof (len_nonneg w).
    pose proof (len_nonneg (words_chars ws)). pose proof (len_nonneg sp).
    cbn [app bytes_at] in Hat. destruct Hat as [Hc0 Hat]. apply bytes_at_app in Hat as [Hsa [Hd0 Hat]].
    apply bytes_at_app in Hat as [Hwa Hat].
    set (q' := q + 1 + len s + 1 + len w). change (q + 1 + Z.of_nat (length s)) with (q + 1 + len s) in Hat.
    change (q + 1 + len s + 1 + Z.of_nat (length w)) with q' in Hat.
    destruct (IH q' DISPLAY_TOKEN q) as [em' Hrun]; [by right|done|done|exact Hat|lia|].
    exists em'. intros r Hr.
    eapply mleaves_next; [lia|exact Hc0| |].
    { rewrite mt_step_sp by done. instantiate (1 := MVars
        (match st with URI_OR_TOKEN => MAYBE_URI_END | _ => DISPLAY_TOKEN2 end) START_TO q prev b).
      by destruct Hst as [-> | ->]. }
    eapply sp_run; [exact Hs|exact Hsa|lia|by destruct Hst as [-> | ->]|].
    eapply mleaves_next; [lia|exact Hd0| |].
    { rewrite mt_step_dchar by done. instantiate (1 := MVars DISPLAY_TOKEN START_TO q prev b).
      by destruct Hst as [-> | ->]. }
    eapply dchars_run; [exact Hw|exact Hwa|lia|done|].
    apply Hrun.
    replace (q' + (len (words_chars ws) + len sp) + 1) with
      (q + (1 + len s + (1 + len w) + len (words_chars ws) + len sp) + 1) by lia.
    by replace (q' + len (words_chars ws)) with (q + (1 + len s + (1 + len w) + len (words_chars ws))) by lia.
Qed.

(** A line break and what follows it. *)
Lemma mt_after_line tmp c x : ends_line c = true →
  (m_status x = F_LF ∨ m_status x = F_CRLF) → ∃ st,
  mt_step always m pend tmp multi x c = Ok (tmp, TEnd (at_status st x)).
Proof.
  unfold ends_line. rewrite negb_true_iff, !orb_false_iff. intros [[[Hsp H0] Hc] Hb] Hst.
  unfold mt_step. rewrite Hsp, H0, Hc, Hb.
  destruct x as [st sv em prev b]. cbn in Hst. repeat case_match; destruct Hst as [-> | ->]; by eexists.
Qed.

(** The end of the body: its parameters, if there are any, and the end of the line.
    A URI without brackets ends here. *)
Definition tail_at (q : Z) (x : mvars) (b : to_body) : Prop :=
  m_status x = END ∧ m_body x = b ∨ m_status x = URI_OR_TOKEN ∧ on_uri (end_at q) (m_body x) = b.

Definition tail_body (q k : Z) (l : list (list Z * pvalue)) (b : to_body) : to_body :=
  if bool_decide (l = []) then on_body (end_at (q + k)) (drop_empty_display b)
  else drop_empty_display (fold_left add_to (pitems_at q l) (on_body (end_at q) b)).

Lemma tail_eol q x b cr c : tail_at q x b → m_prev x = [] →
  bytes_at m q (eol cr ++ [c]) → ends_line c = true → q + len (eol cr) < pend →
  ∃ y, mleaves q x (q + len (eol cr), TEnd y) ∧
    mt_end (q + len (eol cr)) y = [tail_body q (len (eol cr)) [] b].
Proof.
  intros Ht Hp Hat Hc Hend.
  assert (∃ sv em, mt_step always m pend q multi x CR = Ok (q, TNext (MVars F_CR sv em [] (m_body x))) ∧
    mt_step always m pend q multi x LF = Ok (q, TNext (MVars F_LF sv em [] (m_body x))) ∧
    ∀ st t, mt_end t (MVars st sv em [] (m_body x)) = [on_body (end_at t) (drop_empty_display b)])
    as (sv & em & Hcr & Hlf & Hfin).
  { change (mt_step always m pend q multi x CR) with (Ok (q, mt_cr q x)).
    change (mt_step always m pend q multi x LF) with (Ok (q, mt_lf q x)).
    destruct x as [st sv em prev b0]. cbn in Hp. subst prev.
    destruct Ht as [[Hst Hb]|[Hst Hb]]; cbn in Hst, Hb; subst st b; by do 2 eexists. }
  destruct cr; cbn [eol app bytes_at] in Hat.
  - destruct Hat as (Hc1 & Hc2 & Hc3 & _). change (len (eol true)) with 2 in *.
    destruct (mt_after_line (q + 2) c (MVars F_CRLF sv em [] (m_body x)) Hc) as (st & Hy); [by right|].
    eexists. split; [|exact (Hfin st (q + 2))].
    eapply mleaves_next; [lia|exact Hc1|exact Hcr|]. eapply mleaves_next; [lia|exact Hc2|done|].
    replace (q + 1 + 1) with (q + 2) in * by lia.
    eapply leaves_end; [lia|exact Hc3|exact Hy|done].
  - destruct Hat as (Hc1 & Hc2 & _). change (len (eol false)) with 1 in *.
    destruct (mt_after_line (q + 1) c (MVars F_LF sv em [] (m_body x)) Hc) as (st & Hy); [by left|].
    eexists. split; [|exact (Hfin st (q + 1))].
    eapply mleaves_next; [lia|exact Hc1|exact Hlf|].
    eapply leaves_end; [lia|exact Hc2|exact Hy|done].
Qed.

Lemma fold_add_error ps b : tb_error (fold_left add_to ps b) = tb_error b.
Proof. revert b. induction ps as [|p ps IH]; intros b; [done|]. cbn. by rewrite IH. Qed.

Lemma to_tail_run q x b l cr c : tail_at q x b → m_prev x = [] → tb_error b = false →
  forallb pitem_ok l = true → bytes_at m q (pitems_chars l ++ eol cr ++ [c]) → ends_line c = true →
  len (pitems_chars l) < 2 ^ 31 → q + len (pitems_chars l) + len (eol cr) < pend →
  ∃ y, mleaves q x (q + len (pitems_chars l) + len (eol cr), TEnd y) ∧
    mt_end (q + len (pitems_chars l) + len (eol cr)) y = [tail_body q (len (eol cr)) l b].
Proof.
  intros Ht Hp Herr Hl Hat Hc Hlen Hend. destruct l as [|it l].
  { cbn [pitems_chars flat_map app] in *. rewrite len_nil, Z.add_0_r in *. by eapply tail_eol. }
  set (r := q + len (pitems_chars (it :: l)) + len (eol cr)) in *.
  set (b' := fold_left add_to (pitems_at q (it :: l)) (on_body (end_at q) b)).
  exists (MVars (m_status x) E_PARA_VALUE (match m_status x with URI_OR_TOKEN => q | _ => m_end_mark x end) [] b').
  split; [|done].
  assert (Hsc : rd m q = Ok (ch ";")) by (by destruct Hat as [Hat _]).
  assert (Hrc : rd m r = Ok c).
  { rewrite app_assoc in Hat. apply bytes_at_app in Hat as [_ [Hat _]]. rewrite length_app in Hat.
    rewrite <- Hat. f_equal. unfold r, len. lia. }
  assert (Hpar : ∀ x', m_body x' = b → m_prev x' = [] → to_params always m pend q multi x' =
    Ok (r, TEnd (MVars (m_status x') E_PARA_VALUE (m_end_mark x') [] b'))).
  { intros [st sv em prev b0] Hb0 Hp0; cbn in Hb0, Hp0; subst prev b0. unfold to_params. cbn [m_body].
    erewrite (parse_to_param_items m pend multi (it :: l) q _ cr c) by done. fold r b'. cbn [mbind res_bind].
    assert (tb_error b' = false) as -> by (unfold b'; by rewrite fold_add_error).
    cbn [negb andb]. destruct multi; [|done]. rewrite Hrc. cbn [mbind res_bind].
    unfold ends_line in Hc. rewrite negb_true_iff, !orb_false_iff in Hc. by destruct Hc as [[[_ _] ->] _]. }
  assert (0 < len (eol cr)) by (by destruct cr). pose proof (len_nonneg (pitems_chars (it :: l))).
  eapply leaves_end; [lia|exact Hsc| |done].
  change (mt_step always m pend q multi ?y (ch ";")) with (mt_semicolon always m pend q multi y). unfold mt_semicolon.
  destruct x as [st sv em prev b0]; cbn in Hp; subst prev.
  destruct Ht as [[Hst Hb]|[Hst Hb]]; cbn in Hst, Hb; subst st; cbn [m_status]; by rewrite Hpar.
Qed.

(** The part before the parameters. *)
Definition head_body (s : Z) (t : to_text) : to_body :=
  ToBody false (Str s 0)
    (Str (s + len (display_chars (tt_name t)) + len (name_blanks (tt_name t)) +
        (match tt_name t with Bare => 0 | _ => 1 end))
      (match tt_name t with Bare => 0 | _ => len (tt_uri t) end))
    (match tt_name t with Bare => Str s 0 | Angle => null_str | n => Str s (len (display_chars n)) end)
    null_str [].

Definition head_state (t : to_text) : tstate :=
  match tt_name t with Bare => URI_OR_TOKEN | _ => END end.

(** The characters of a quoted display name. *)
Lemma quoted_run q p x r : m_status x = DISPLAY_QUOTED →
  bytes_at m p (qchars q) → p + len (qchars q) ≤ pend → forallb qitem_ok q = true →
  mleaves (p + len (qchars q)) x r → mleaves p x r.
Proof.
  intros Hst. revert p. induction q as [|[esc c] q IH]; intros p Hat Hle Hq H.
  { change (qchars []) with (@nil Z) in H. by rewrite len_nil, Z.add_0_r in H. }
  cbn [qchars flat_map] in *. fold (qchars q) in *.
  cbn [forallb] in Hq. apply andb_true_iff in Hq as [Hc Hq]. pose proof (len_nonneg (qchars q)).
  destruct esc; cbn [qitem_chars app bytes_at] in *; rewrite ?len_cons in *.
  - destruct Hat as (Hc0 & Hc1 & Hat). eapply (leaves_skip mstep m pend p); [lia|exact Hc0| |].
    { change (mt_step always m pend p multi x BSLASH) with (Ok (p, mt_backslash x)). unfold mt_backslash. by rewrite Hst. }
    replace (p + 1 + 1) with (p + 2) in Hat by lia. apply IH; [done|lia|done|].
    by replace (p + 2 + len (qchars q)) with (p + (1 + (1 + len (qchars q)))) by lia.
  - destruct Hat as (Hc0 & Hat). eapply (mleaves_next p c x x); [lia|exact Hc0| |].
    { cbn in Hc. unfold is_crlf in Hc. rewrite negb_true_iff, !orb_false_iff in Hc.
      destruct Hc as [[[[Hcr Hlf] Hz] Hdq] Hb]. unfold mt_step. rewrite Hlf, Hcr, Hz, Hdq, Hb.
      unfold mt_space, mt_comma, mt_open, mt_close, mt_semicolon, mt_default. rewrite Hst.
      repeat case_match; done. }
    apply IH; [done|lia|done|].
    by replace (p + 1 + len (qchars q)) with (p + (1 + len (qchars q))) by lia.
Qed.

Lemma head_run s t rest : name_ok (tt_name t) = true → uri_ok (tt_name t) (tt_uri t) = true →
  bytes_at m s (main_chars t ++ rest) → s + len (main_chars t) ≤ pend → len (main_chars t) < 2 ^ 31 →
  ∃ em, ∀ r, mleaves (s + len (main_chars t)) (MVars (head_state t) START_TO em [] (head_body s t)) r →
    mleaves s (MVars START_TO START_TO 0 [] empty_body) r.
Proof.
  destruct t as [bl n u l]. unfold main_chars, head_body, head_state, addr_chars. cbn [tt_name tt_uri].
  intros Hn Hu Hat Hle Hlen. rewrite !len_app in *.
  pose proof (len_nonneg (display_chars n)). pose proof (len_nonneg (name_blanks n)).
  destruct n as [| |qs sp|w ws sp].
  - cbn [display_chars name_blanks app] in *. rewrite !len_nil in *. cbn [uri_ok] in Hu.
    apply andb_true_iff in Hu as [Hu Hne]. apply negb_true_iff, bool_decide_eq_false in Hne.
    exists 0. intros r Hr. apply bytes_at_first in Hat. destruct u as [|c u]; [done|].
    cbn in Hu. apply andb_true_iff in Hu as [Hc Hu]. rewrite len_cons in *. pose proof (len_nonneg u).
    destruct Hat as [Hc0 Hat].
    eapply mleaves_next; [lia|exact Hc0|by rewrite mt_step_dchar|].
    eapply dchars_run; [exact Hu|exact Hat|lia|done|].
    replace (s + (0 + (0 + (1 + len u)))) with (s + 1 + len u) in Hr by lia.
    by replace (s + 0 + 0 + 0) with s in Hr by lia.
  - cbn [display_chars name_blanks app] in *. rewrite !len_nil, !len_cons, !len_app, len_cons, len_nil in *.
    destruct Hat as [Hc0 Hat]. rewrite <- app_assoc in Hat. pose proof (len_nonneg u).
    exists 0. intros r Hr. eapply mleaves_next; [lia|exact Hc0|done|].
    eapply enclosed_run; [done|exact (bytes_at_upto m _ u _ rest Hat)|lia|lia|].
    replace (s + (0 + (0 + (1 + (len u + (1 + 0)))))) with (s + 1 + len u + 1) in Hr by lia.
    by replace (s + 0 + 0 + 1) with (s + 1) in Hr by lia.
  - cbn [name_ok] in Hn. apply andb_true_iff in Hn as [Hq Hsp]. cbn [display_chars name_blanks] in *.
    rewrite !len_cons, !len_app in *. change (len [DQUOTE]) with 1 in *. change (len [ch ">"]) with 1 in *.
    pose proof (len_nonneg u). pose proof (len_nonneg (qchars qs)). pose proof (len_nonneg sp).
    cbn [app] in Hat. destruct Hat as [Hc0 Hat]. rewrite <- !app_assoc in Hat.
    apply bytes_at_app in Hat as [Hqa Hat]. cbn [app] in Hat. destruct Hat as [Hc1 Hat].
    apply bytes_at_app in Hat as [Hsa Hat]. destruct Hat as [Hc2 Hat]. rewrite <- app_assoc in Hat.
    apply bytes_at_upto in Hat.
    exists 0. intros r Hr. eapply mleaves_next; [lia|exact Hc0|done|].
    eapply quoted_run; [done|exact Hqa|lia|done|].
    eapply mleaves_next; [lia|exact Hc1|done|].
    eapply sp_run; [exact Hsp|exact Hsa|lia|done|].
    eapply mleaves_next; [lia|exact Hc2|done|].
    eapply enclosed_run; [done|exact Hat|lia|lia|].
    set (e := s + 1 + len (qchars qs) + 1) in *.
    replace (s + (1 + (len (qchars qs) + 1) + (len sp + (1 + (len u + 1)))))
      with (e + len sp + 1 + len u + 1) in Hr by lia.
    replace (s + (1 + (len (qchars qs) + 1)) + len sp + 1) with (e + len sp + 1) in Hr by lia.
    unfold at_status, body_with, on_uri, on_display, on_body, end_at, set_s, empty_body; cbn -[slice].
    rewrite (slice_len s (DQUOTE :: qchars qs ++ [DQUOTE]));
      rewrite ?len_cons, ?len_app; change (len [DQUOTE]) with 1; [exact Hr|lia..].
  - cbn [name_ok] in Hn. rewrite !andb_true_iff in Hn. destruct Hn as [[Hw Hsp] Hws].
    cbn [display_chars name_blanks] in *.
    apply andb_true_iff in Hw as [Hw Hwn]. apply negb_true_iff, bool_decide_eq_false in Hwn.
    destruct w as [|c w]; [done|]. cbn [forallb] in Hw. apply andb_true_iff in Hw as [Hc Hw].
    rewrite !len_app, !len_cons, !len_app in *. change (len [ch ">"]) with 1 in *.
    pose proof (len_nonneg u). pose proof (len_nonneg w). pose proof (len_nonneg sp).
    pose proof (len_nonneg (words_chars ws)).
    cbn [app] in Hat. destruct Hat as [Hc0 Hat]. rewrite <- !app_assoc in Hat.
    apply bytes_at_app in Hat as [Hwa Hat]. pose proof Hat as Hat'.
    change (sp ++ (ch "<" :: u ++ [ch ">"]) ++ rest) with (sp ++ ch "<" :: (u ++ [ch ">"]) ++ rest) in Hat.
    rewrite app_assoc in Hat. pose proof (bytes_at_after _ _ _ _ _ Hat) as Hua. apply bytes_at_upto in Hat.
    rewrite <- app_assoc in Hat, Hua. apply bytes_at_upto in Hua.
    set (e := s + 1 + len w) in *.
    destruct (words_run ws sp e URI_OR_TOKEN 0 []
      (ToBody false (Str s 0) (Str s 0) (Str s 0) null_str [])) as [em Hrun];
      [by left|done|done|exact Hat|rewrite len_app; lia|].
    exists em. intros r Hr. eapply mleaves_next; [lia|exact Hc0|by rewrite mt_step_dchar|].
    eapply dchars_run; [exact Hw|exact Hwa|lia|done|]. apply Hrun. rewrite len_app in *.
    eapply enclosed_run; [done|exact Hua|lia|lia|].
    replace (s + (1 + len w + len (words_chars ws) + (len sp + (1 + (len u + 1)))))
      with (e + (len (words_chars ws) + len sp) + 1 + len u + 1) in Hr by lia.
    replace (s + (1 + len w + len (words_chars ws)) + len sp + 1)
      with (e + (len (words_chars ws) + len sp) + 1) in Hr by lia.
    unfold on_uri, on_display, end_at; cbn -[slice].
    rewrite (slice_len s (c :: w ++ words_chars ws));
      rewrite ?len_cons, ?len_app; [|lia..].
    by replace (1 + (len w + len (words_chars ws))) with (1 + len w + len (words_chars ws)) by lia.
Qed.

(** The rest does not change what the head set. *)
Lemma drop_display_name b n : tb_display b = match n with
    | Bare => tb_display b | Angle => null_str | _ => Str (str_s (tb_display b)) (len (display_chars n)) end →
  name_ok n = true → (n = Bare → str_len (tb_display b) = 0) →
  drop_empty_display b = on_display (λ d, match n with Bare | Angle => null_str | _ => d end) b.
Proof.
  destruct b as [er bo ur [ds dl] tg ps]. unfold drop_empty_display, on_display, set_s; cbn.
  intros Hd Hn Hb. f_equal. destruct n as [| |q sp|w ws sp].
  - rewrite (Hb eq_refl). done.
  - injection Hd as -> ->. done.
  - injection Hd as Hd. destruct (Z.eqb_spec dl 0); [|done]. cbn in Hd. rewrite len_cons in Hd.
    pose proof (len_nonneg (qchars q ++ [DQUOTE])). lia.
  - injection Hd as Hd. destruct (Z.eqb_spec dl 0); [|done].
    destruct w as [|c w]; [done|]. cbn in Hd. rewrite len_cons in Hd.
    pose proof (len_nonneg (w ++ words_chars ws)). lia.
Qed.

Lemma fold_add ps b : fold_left add_to ps b =
  ToBody (tb_error b) (tb_body b) (tb_uri b) (tb_display b) (tag_of ps (tb_tag_value b)) (tb_param_lst b ++ ps).
Proof.
  revert b. induction ps as [|p ps IH]; intros b; cbn [fold_left].
  { rewrite app_nil_r. by destruct b. }
  rewrite IH. cbn. by rewrite <- app_assoc.
Qed.

Lemma tail_body_text s k t : to_text_ok t = true → len (main_chars t) + k < 2 ^ 31 → 0 ≤ k →
  let q := s + len (main_chars t) in
  tail_body q k (tt_params t) (on_uri (λ u, Str (str_s u) (len (tt_uri t))) (head_body s t)) =
  to_body_at (s - len (tt_blanks t)) k t.
Proof.
  intros Hok Hlen Hk q. unfold to_text_ok in Hok. rewrite !andb_true_iff in Hok.
  destruct Hok as [[[_ Hn] _] _]. pose proof (len_nonneg (main_chars t)).
  assert (Hsl : ∀ j, 0 ≤ j → len (main_chars t) + j < 2 ^ 31 →
    slice s (q + j) = Str s (len (main_chars t) + j)).
  { intros j Hj Hj'. unfold slice. f_equal. unfold q. rewrite to_int_small by lia. lia. }
  unfold tail_body, to_body_at. replace (s - len (tt_blanks t) + len (tt_blanks t)) with s by lia. fold q.
  case_bool_decide as Hp.
  - rewrite Hp. rewrite (drop_display_name _ (tt_name t)); [|cbn; by destruct (tt_name t)|done|cbn; by intros ->].
    unfold on_body, on_display, on_uri, head_body, end_at; cbn -[slice]. rewrite Hsl by lia.
    by destruct (tt_name t).
  - rewrite fold_add. rewrite (drop_display_name _ (tt_name t)); [|cbn; by destruct (tt_name t)|done|cbn; by intros ->].
    unfold on_body, on_display, on_uri, head_body, end_at; cbn -[slice].
    rewrite <- (Z.add_0_r q) at 1. rewrite Hsl by lia. by destruct (tt_name t).
Qed.
End run.

Lemma parse_to_at m p pend multi t cr c :
  to_text_ok t = true → bytes_at m p (to_chars t ++ eol cr ++ [c]) → ends_line c = true →
  p + len (to_chars t) + len (eol cr) < pend → len (to_chars t ++ eol cr) < 2 ^ 31 →
  _parse_to always m p pend multi =
    Ok (p + len (to_chars t) + len (eol cr), [to_body_at p (len (eol cr)) t]).
Proof.
  intros Hok Hat Hc Hend Hlen. pose proof Hok as Hok'. unfold to_text_ok in Hok'.
  rewrite !andb_true_iff in Hok'. destruct Hok' as [[[Hb Hn] Hu] Hps].
  unfold to_chars in *. rewrite !len_app in *.
  assert (0 < len (eol cr)) by (by destruct cr).
  pose proof (len_nonneg (tt_blanks t)). pose proof (len_nonneg (main_chars t)).
  pose proof (len_nonneg (pitems_chars (tt_params t))).
  rewrite <- !app_assoc in Hat. apply bytes_at_app in Hat as [Hbl Hat].
  set (s := p + len (tt_blanks t)) in *. change (p + Z.of_nat (length (tt_blanks t))) with s in Hat.
  destruct (head_run m pend multi s t (pitems_chars (tt_params t) ++ eol cr ++ [c])) as [em Hrun];
    [done|done|exact Hat|lia|lia|].
  apply bytes_at_from in Hat. set (q := s + len (main_chars t)) in *.
  set (b := on_uri (λ u, Str (str_s u) (len (tt_uri t))) (head_body s t)).
  destruct (to_tail_run m pend multi q (MVars (head_state t) START_TO em [] (head_body s t)) b
    (tt_params t) cr c) as (y & Hy & Hfin); [|done|done|done|exact Hat|done|lia|lia|].
  { unfold tail_at, head_state, b, on_uri, head_body, end_at. cbn -[slice].
    destruct t as [bl n u l]; cbn [tt_name tt_uri] in *. destruct n; [right|left..]; split; try done.
    unfold addr_chars, main_chars in *; cbn -[slice] in *. rewrite !Z.add_0_r.
    rewrite (slice_len s u) by (done || lia). done. }
  apply Hrun in Hy. unfold _parse_to.
  assert (Hall : leaves (λ tmp x c, mt_step always m pend tmp multi x c) m pend p
    (MVars START_TO START_TO 0 [] empty_body) (q + len (pitems_chars (tt_params t)) + len (eol cr), TEnd y)).
  { eapply sp_run; [exact Hb|exact Hbl|lia|done|exact Hy]. }
  rewrite (leaves_loop _ _ _ _ _ _ Hall). cbn [mbind res_bind]. rewrite Hfin.
  subst b. unfold q at 2. rewrite tail_body_text by (done || lia).
  replace (s - len (tt_blanks t)) with p by lia.
  by replace (q + len (pitems_chars (tt_params t)) + len (eol cr)) with
    (p + (len (tt_blanks t) + (len (main_chars t) + len (pitems_chars (tt_params t)))) + len (eol cr)) by lia.
Qed.

(** C8: every well-formed To or From header - with a URI alone or in brackets, a
    display name that is quoted or made of words, and parameters with or without
    values - is parsed into its URI, display name, parameters and tag, by
    [parse_to] and by [parse_multi_to], and the pointer returned is the next line,
    as long as there is memory for the parameters ([always]). *)
Theorem parse_to_text m p pend multi t cr c :
  to_text_ok t = true → bytes_at m p (to_chars t ++ eol cr ++ [c]) → ends_line c = true →
  p + len (to_chars t) + len (eol cr) < pend → len (to_chars t ++ eol cr) < 2 ^ 31 →
  _parse_to always m p pend multi =
    Ok (p + len (to_chars t) + len (eol cr), [to_body_at p (len (eol cr)) t]).
Proof. apply parse_to_at. Qed.

Lemma parse_to_text_witness :
  _parse_to always (block (to_chars sample ++ eol true ++ [65])) 4096 4196 true =
    Ok (4096 + len (to_chars sample) + len (eol true), [to_body_at 4096 (len (eol true)) sample]).
Proof.
  apply (parse_to_text _ _ _ _ sample true 65); [by vm_compute|apply block_bytes|by vm_compute..].
Defined.
