(* ===== verification/Msg.v ===== *)
(** * Messages (msg_parser.c, msg_parser.h): the header fields, the list of the
    headers with its hooks and siblings, and the parser of a whole message *)

From stdpp Require Import strings.
From S2P Require Export ParserF.
From S2P Require FirstLine.
From S2P Require CSeq.
From S2P Require ContentLength.
From S2P Require Via.
From S2P Require Export HName.
From S2P Require Import To.
From S2P Require Uri.

Module Msg.

(** ** Header fields *)

(** What [parsed] points to; for Content-Length it is the number itself.  A body of
    a Via carries the name of its header ([vb->hdr]); the list is the chain of the
    bodies of one header. *)
Inductive parsed :=
| PVia (hdr : str) (vbs : list Via.via_body)
| PCSeq (cb : CSeq.cseq_body)
| PTo (tb : To.to_body)
| PLength (n : Z).

Abbreviation field := (hdr_field parsed).

(** [memset(hf,0,...); hf->type=HDR_ERROR_T;] *)
Definition new_field : field := HdrField HDR_ERROR_T null_str null_str 0 None None None.

Definition set_body (b : str) (h : field) : field :=
  HdrField (hdr_type h) (hdr_name h) b (hdr_len h) (hdr_parsed h) (hdr_next h) (hdr_sibling h).
Definition set_len (n : Z) (h : field) : field :=
  HdrField (hdr_type h) (hdr_name h) (hdr_body h) n (hdr_parsed h) (hdr_next h) (hdr_sibling h).
Definition set_parsed (p : parsed) (h : field) : field :=
  HdrField (hdr_type h) (hdr_name h) (hdr_body h) (hdr_len h) (Some p) (hdr_next h) (hdr_sibling h).
Definition set_next (n : nat) (h : field) : field :=
  HdrField (hdr_type h) (hdr_name h) (hdr_body h) (hdr_len h) (hdr_parsed h) (Some n) (hdr_sibling h).
Definition set_sibling (n : nat) (h : field) : field :=
  HdrField (hdr_type h) (hdr_name h) (hdr_body h) (hdr_len h) (hdr_parsed h) (hdr_next h) (Some n).

(** The macro [trim_r] (ut.h).  The fuel is the number of characters of the block
    before the end of the string: beyond them the read faults. *)
Fixpoint trim_r_loop (m : mem) (s n : Z) (fuel : nat) : res str :=
  match fuel with
  | O => OutOfFuel
  | S fuel =>
      if n =? 0 then mret (Str s 0) else
      c ← rd m (s + n - 1);
      if (c =? 0) || (c =? CR) || (c =? LF) then trim_r_loop m s (n - 1) fuel
      else mret (Str s n)
  end.

Definition trim_r (m : mem) (x : str) : res str :=
  trim_r_loop m (str_s x) (str_len x) (S (Z.to_nat (str_s x + str_len x - mbase m))).

(** Which allocations succeed: header fields and their bodies, by the number of the
    header in the list, and what the parser of the body allocates: the parameters of a
    Via, one after the other, and those of a To, by the character where they begin. *)
Record allocs := Allocs { a_field : nat → bool; a_body : nat → bool; a_param : nat → nat → bool }.

Definition all_allocs : allocs := Allocs (λ _, true) (λ _, true) (λ _ _, true).

(** ** [get_hdr_field] *)

(** The label [error] (and [error_bad_hdr], which only sets the error info). *)
Definition hdr_error (tmp : Z) (h : field) : Z * field :=
  (tmp, set_len (to_int (tmp - str_s (hdr_name h))) (HName.set_type HDR_ERROR_T h)).

(** Behind the switch. *)
Definition hdr_done (m : mem) (tmp : Z) (h : field) : res (Z * field) :=
  b ← trim_r m (hdr_body h);
  mret (tmp, set_len (to_int (tmp - str_s (hdr_name h))) (set_body b h)).

(** [hdr->body.s=tmp;], and the body from there to [rest]. *)
Definition body_from (tmp : Z) (h : field) : field := set_body (Str tmp (str_len (hdr_body h))) h.
Definition body_to (rest : Z) (h : field) : field := set_body (slice (str_s (hdr_body h)) rest) h.

Section field.
Context (m : mem) (pend : Z) (alloc : bool) (param_alloc : nat → bool).

Definition via_field (tmp : Z) (h : field) : res (Z * field) :=
  if negb alloc then mret (hdr_error tmp h) else
  let h := body_from tmp h in
  '(tmp, vbs) ← Via.parse_via param_alloc m pend tmp Via.via_zero;
  if Via.vb_error (hd Via.via_zero vbs) =? CSeq.PARSE_ERROR then mret (hdr_error tmp h)
  else hdr_done m tmp (body_to tmp (set_parsed (PVia (hdr_name h) vbs) h)).

Definition cseq_field (tmp : Z) (h : field) : res (Z * field) :=
  if negb alloc then mret (hdr_error tmp h) else
  let h := body_from tmp h in
  '(tmp, cb) ← CSeq.parse_cseq m tmp pend (CSeq.CseqBody 0 null_str null_str 0);
  if CSeq.cseq_error cb =? CSeq.PARSE_ERROR then mret (hdr_error tmp h)
  else hdr_done m tmp (body_to tmp (set_parsed (PCSeq cb) h)).

Definition to_field (tmp : Z) (h : field) : res (Z * field) :=
  if negb alloc then mret (hdr_error tmp h) else
  let h := body_from tmp h in
  '(tmp, tbs) ← To.parse_to (λ p, param_alloc (Z.to_nat p)) m tmp pend;
  let tb := hd To.empty_body tbs in
  if To.tb_error tb then mret (hdr_error tmp h)
  else hdr_done m tmp (body_to tmp (set_parsed (PTo tb) h)).

(** A null pointer that [parse_content_length] returns becomes [tmp]. *)
Definition length_field (tmp : Z) (h : field) : res (Z * field) :=
  let h := body_from tmp h in
  r ← ContentLength.parse_content_length m tmp pend;
  match r with
  | None => mret (hdr_error 0 h)
  | Some (tmp, integer) => hdr_done m tmp (body_to tmp (set_parsed (PLength integer) h))
  end.

(** "find lf": [None] when there is none. *)
Definition skip_step (tmp : Z) : res (Z + option Z) :=
  nl ← q_memchr m tmp LF (pend - tmp);
  match nl with
  | None => mret (inr None)
  | Some nl =>
      let match_ := nl + 1 in
      if match_ <? pend then
        c ← rd m match_;
        mret (if is_sp c then inl match_ else inr (Some match_))
      else mret (inr (Some match_))
  end.

Definition skip_body (tmp : Z) : res (option Z) :=
  loop skip_step (S (Z.to_nat (pend - tmp))) tmp.

Definition skip_field (tmp : Z) (h : field) : res (Z * field) :=
  let h := body_from tmp h in
  r ← skip_body tmp;
  match r with
  | None => mret (hdr_error pend h)
  | Some tmp => hdr_done m tmp (body_to tmp h)
  end.

(** The switch over the type. *)
Definition parse_field (tmp : Z) (h : field) : res (Z * field) :=
  match hdr_type h with
  | HDR_VIA_T => via_field tmp h
  | HDR_CSEQ_T => cseq_field tmp h
  | HDR_TO_T => to_field tmp h
  | HDR_CONTENTLENGTH_T => length_field tmp h
  | HDR_SUPPORTED_T | HDR_CONTENTTYPE_T | HDR_FROM_T | HDR_CALLID_T | HDR_CONTACT_T | HDR_ROUTE_T
  | HDR_RECORDROUTE_T | HDR_PATH_T | HDR_MAXFORWARDS_T | HDR_AUTHORIZATION_T | HDR_EXPIRES_T
  | HDR_PROXYAUTH_T | HDR_PROXYREQUIRE_T | HDR_UNSUPPORTED_T | HDR_ALLOW_T | HDR_EVENT_T
  | HDR_ACCEPT_T | HDR_ACCEPTLANGUAGE_T | HDR_ORGANIZATION_T | HDR_PRIORITY_T | HDR_SUBJECT_T
  | HDR_USERAGENT_T | HDR_CONTENTDISPOSITION_T | HDR_ACCEPTDISPOSITION_T | HDR_DIVERSION_T
  | HDR_RPID_T | HDR_REFER_TO_T | HDR_SESSION_EXPIRES_T | HDR_MIN_SE_T | HDR_MIN_EXPIRES_T
  | HDR_PPI_T | HDR_PAI_T | HDR_PRIVACY_T | HDR_RETRY_AFTER_T | HDR_CALL_INFO_T
  | HDR_WWW_AUTHENTICATE_T | HDR_PROXY_AUTHENTICATE_T | HDR_FEATURE_CAPS_T | HDR_REPLACES_T
  | HDR_OTHER_T => skip_field tmp h
  | HDR_ERROR_T | HDR_VIA2_T | HDR_EOH_T => mret (hdr_error tmp h)
  end.

Definition get_hdr_field (buf : Z) (h : field) : res (Z * field) :=
  c ← rd m buf;
  if is_crlf c then mret (buf, HName.set_type HDR_EOH_T h) else
  '(tmp, h) ← parse_hname2 m buf pend h;
  if bool_decide (hdr_type h = HDR_ERROR_T) then mret (hdr_error tmp h) else
  tmp ← eat_lws_end m tmp pend;
  if pend <=? tmp then mret (hdr_error tmp h) else
  parse_field tmp h.
End field.

(** ** Messages *)

(** A private copy of a string ([new_uri]): a block of its own, and the length that
    is used of it. *)
Record owned := Owned { o_block : mem; o_len : Z }.

(** [struct sip_msg].  The header fields are numbered in the order of their
    allocation; [m_hook] holds the pointers to header fields ([callid], [to], ...)
    by type, [h_via1] and [h_via2] being those of the types [VIA] and [VIA2].  A
    pointer to a body of a Via is the number of the header and the place in its
    chain. *)
Record sip_msg := SipMsg {
  m_first_line : FirstLine.msg_start;
  m_fields : list field;
  m_headers : option nat;
  m_last_header : option nat;
  m_hook : hdr_types_t → option nat;
  m_via1 : option (nat * nat);
  m_via2 : option (nat * nat);
  m_parsed_flag : Z;
  m_eoh : Z;
  m_unparsed : Z;
  m_buf : Z;
  m_len : Z;
  m_new_uri : option owned;
  m_dst_uri : option owned;
  m_parsed_uri_ok : bool;
  m_parsed_uri : UriData.sip_uri;
}.

(** [memset(&msg_, 0, sizeof(msg_)); msg_.buf = buf; msg_.len = len;] *)
Definition new_msg (buf len : Z) : sip_msg :=
  SipMsg FirstLine.fl_zero [] None None (λ _, None) None None 0 0 0 buf len None None false
    UriData.uri_zero.

Definition set_line (fl : FirstLine.msg_start) (g : sip_msg) : sip_msg :=
  SipMsg fl (m_fields g) (m_headers g) (m_last_header g) (m_hook g) (m_via1 g) (m_via2 g)
    (m_parsed_flag g) (m_eoh g) (m_unparsed g) (m_buf g) (m_len g) (m_new_uri g) (m_dst_uri g)
    (m_parsed_uri_ok g) (m_parsed_uri g).
Definition set_fields (l : list field) (g : sip_msg) : sip_msg :=
  SipMsg (m_first_line g) l (m_headers g) (m_last_header g) (m_hook g) (m_via1 g) (m_via2 g)
    (m_parsed_flag g) (m_eoh g) (m_unparsed g) (m_buf g) (m_len g) (m_new_uri g) (m_dst_uri g)
    (m_parsed_uri_ok g) (m_parsed_uri g).
Definition set_list (first last : option nat) (g : sip_msg) : sip_msg :=
  SipMsg (m_first_line g) (m_fields g) first last (m_hook g) (m_via1 g) (m_via2 g)
    (m_parsed_flag g) (m_eoh g) (m_unparsed g) (m_buf g) (m_len g) (m_new_uri g) (m_dst_uri g)
    (m_parsed_uri_ok g) (m_parsed_uri g).
Definition set_hook (t : hdr_types_t) (i : nat) (g : sip_msg) : sip_msg :=
  SipMsg (m_first_line g) (m_fields g) (m_headers g) (m_last_header g)
    (λ u, if decide (u = t) then Some i else m_hook g u) (m_via1 g) (m_via2 g)
    (m_parsed_flag g) (m_eoh g) (m_unparsed g) (m_buf g) (m_len g) (m_new_uri g) (m_dst_uri g)
    (m_parsed_uri_ok g) (m_parsed_uri g).
Definition set_vias (v1 v2 : option (nat * nat)) (g : sip_msg) : sip_msg :=
  SipMsg (m_first_line g) (m_fields g) (m_headers g) (m_last_header g) (m_hook g) v1 v2
    (m_parsed_flag g) (m_eoh g) (m_unparsed g) (m_buf g) (m_len g) (m_new_uri g) (m_dst_uri g)
    (m_parsed_uri_ok g) (m_parsed_uri g).
Definition set_flags (f : Z) (g : sip_msg) : sip_msg :=
  SipMsg (m_first_line g) (m_fields g) (m_headers g) (m_last_header g) (m_hook g) (m_via1 g) (m_via2 g)
    f (m_eoh g) (m_unparsed g) (m_buf g) (m_len g) (m_new_uri g) (m_dst_uri g)
    (m_parsed_uri_ok g) (m_parsed_uri g).
Definition set_eoh (p : Z) (g : sip_msg) : sip_msg :=
  SipMsg (m_first_line g) (m_fields g) (m_headers g) (m_last_header g) (m_hook g) (m_via1 g) (m_via2 g)
    (m_parsed_flag g) p (m_unparsed g) (m_buf g) (m_len g) (m_new_uri g) (m_dst_uri g)
    (m_parsed_uri_ok g) (m_parsed_uri g).
Definition set_unparsed (p : Z) (g : sip_msg) : sip_msg :=
  SipMsg (m_first_line g) (m_fields g) (m_headers g) (m_last_header g) (m_hook g) (m_via1 g) (m_via2 g)
    (m_parsed_flag g) (m_eoh g) p (m_buf g) (m_len g) (m_new_uri g) (m_dst_uri g)
    (m_parsed_uri_ok g) (m_parsed_uri g).

(** [msg->buf+msg->len] *)
Definition m_end (g : sip_msg) : Z := m_buf g + m_len g.

(** [HDR_T2F] (hf.h): a bit of 64, or all of them. *)
Definition all_flags : Z := 2 ^ 64 - 1.
Definition HDR_T2F (t : hdr_types_t) : Z :=
  match t with HDR_EOH_T => all_flags | _ => Z.shiftl 1 (hdr_num t) end.

(** [msg->parsed_flag|=f] *)
Definition or_flag (t : hdr_types_t) (g : sip_msg) : sip_msg :=
  set_flags (Z.lor (m_parsed_flag g) (HDR_T2F t)) g.

(** ** [parse_headers] *)

Definition set_at (i : nat) (f : field → field) (g : sip_msg) : sip_msg :=
  set_fields (alter f i (m_fields g)) g.

(** [for(itr=hook;itr->sibling;itr=itr->sibling);] *)
Fixpoint last_sibling (l : list field) (i : nat) (fuel : nat) : res nat :=
  match fuel with
  | O => OutOfFuel
  | S fuel =>
      match l !! i with
      | None => Fault 0
      | Some h =>
          match hdr_sibling h with
          | None => mret i
          | Some j => last_sibling l j fuel
          end
      end
  end.

(** [link_sibling_hdr(hook, hdr)], with the header number [i]. *)
Definition link_sibling_hdr (t : hdr_types_t) (i : nat) (g : sip_msg) : res sip_msg :=
  match m_hook g t with
  | None => mret (set_hook t i g)
  | Some h =>
      itr ← last_sibling (m_fields g) h (S (length (m_fields g)));
      mret (set_at itr (set_sibling i) g)
  end.

(** [if (msg->hook==0) msg->hook=hf;] *)
Definition link_hdr (t : hdr_types_t) (i : nat) (g : sip_msg) : sip_msg :=
  match m_hook g t with None => set_hook t i g | Some _ => g end.

(** The bodies that [hf->parsed] points to under [case HDR_VIA_T]. *)
Definition via_bodies (h : field) : list Via.via_body :=
  match hdr_parsed h with Some (PVia _ vbs) => vbs | _ => [] end.

(** [case HDR_VIA_T]; nothing is behind a null pointer. *)
Definition link_via (i : nat) (h : field) (g : sip_msg) : res sip_msg :=
  g ← link_sibling_hdr HDR_VIA_T i g;
  let g := or_flag HDR_VIA_T g in
  match m_via1 g with
  | None =>
      let g := set_vias (Some (i, 0%nat)) (m_via2 g) (set_hook HDR_VIA_T i g) in
      match via_bodies h with
      | [] => Fault 0
      | _ :: _ :: _ => mret (or_flag HDR_VIA2_T (set_vias (m_via1 g) (Some (i, 1%nat)) g))
      | _ => mret g
      end
  | Some _ =>
      match m_via2 g with
      | None => mret (or_flag HDR_VIA2_T (set_vias (m_via1 g) (Some (i, 0%nat)) (set_hook HDR_VIA2_T i g)))
      | Some _ => mret g
      end
  end.

(** How the hook of a type is used. *)
Inductive link := LFirst | LSibling | LNone.

(** The switch of [parse_headers] but for Via: [None] for [default]. *)
Definition link_of (t : hdr_types_t) : option link :=
  match t with
  | HDR_OTHER_T | HDR_RETRY_AFTER_T => Some LNone
  | HDR_CALLID_T | HDR_TO_T | HDR_CSEQ_T | HDR_FROM_T | HDR_MAXFORWARDS_T | HDR_CONTENTTYPE_T
  | HDR_CONTENTLENGTH_T | HDR_EXPIRES_T | HDR_ORGANIZATION_T | HDR_PRIORITY_T | HDR_SUBJECT_T
  | HDR_USERAGENT_T | HDR_CONTENTDISPOSITION_T | HDR_RPID_T | HDR_REFER_TO_T
  | HDR_SESSION_EXPIRES_T | HDR_MIN_SE_T | HDR_MIN_EXPIRES_T | HDR_PRIVACY_T => Some LFirst
  | HDR_CONTACT_T | HDR_ROUTE_T | HDR_RECORDROUTE_T | HDR_PATH_T | HDR_AUTHORIZATION_T
  | HDR_PROXYAUTH_T | HDR_PROXYREQUIRE_T | HDR_SUPPORTED_T | HDR_UNSUPPORTED_T | HDR_ALLOW_T
  | HDR_EVENT_T | HDR_ACCEPT_T | HDR_ACCEPTLANGUAGE_T | HDR_ACCEPTDISPOSITION_T | HDR_DIVERSION_T
  | HDR_CALL_INFO_T | HDR_WWW_AUTHENTICATE_T | HDR_PROXY_AUTHENTICATE_T | HDR_PPI_T | HDR_PAI_T
  | HDR_FEATURE_CAPS_T | HDR_REPLACES_T => Some LSibling
  | HDR_ERROR_T | HDR_EOH_T | HDR_VIA_T | HDR_VIA2_T => None
  end.

(** One header field, number [i], is hooked; [None] for [default: ... goto error]. *)
Definition link_field (i : nat) (h : field) (g : sip_msg) : res (option sip_msg) :=
  match hdr_type h with
  | HDR_VIA_T => Some <$> link_via i h g
  | t =>
      match link_of t with
      | None => mret None
      | Some LNone => mret (Some g)
      | Some LFirst => mret (Some (or_flag t (link_hdr t i g)))
      | Some LSibling => g ← link_sibling_hdr t i g; mret (Some (or_flag t g))
      end
  end.

(** "add the header to the list" *)
Definition add_header (i : nat) (g : sip_msg) : sip_msg :=
  match m_last_header g with
  | None => set_list (Some i) (Some i) g
  | Some l => set_list (m_headers g) (Some i) (set_at l (set_next i) g)
  end.

Section headers.
Context (A : allocs) (m : mem) (flags : Z).

(** One round of the loop: the pointer at [skip], or [None] for [error]. *)
Definition ph_round (s : Z * sip_msg) : res (Z * sip_msg + option Z * sip_msg) :=
  let '(tmp, g) := s in
  if (tmp <? m_end g) && negb (Z.land flags (m_parsed_flag g) =? flags) then
    let i := length (m_fields g) in
    if negb (a_field A i) then mret (inr (None, g)) else
    '(rest, hf) ← get_hdr_field m (m_end g) (a_body A i) (a_param A i) tmp new_field;
    match hdr_type hf with
    | HDR_ERROR_T => mret (inr (None, g))
    | HDR_EOH_T => mret (inr (Some tmp, or_flag HDR_EOH_T (set_eoh tmp g)))
    | _ =>
        o ← link_field i hf (set_fields (m_fields g ++ [hf]) g);
        match o with
        | None => mret (inr (None, g))
        | Some g => mret (inl (rest, add_header i g))
        end
    end
  else mret (inr (Some tmp, g)).

(** The return value, and the message. *)
Definition parse_headers (next : bool) (g : sip_msg) : res (Z * sip_msg) :=
  let orig_flag := if next then m_parsed_flag g else 0 in
  let g := if next then set_flags (Z.ldiff (m_parsed_flag g) flags) g else g in
  '(o, g) ← loop ph_round (S (Z.to_nat (m_end g - m_unparsed g))) (m_unparsed g, g);
  match o with
  | Some tmp => mret (0, set_unparsed tmp g)
  | None => mret (-1, if next then set_flags (Z.lor (m_parsed_flag g) orig_flag) g else g)
  end.
End headers.

(** ** [parse_msg] *)

(** [for (tmp=buf; ( *tmp is a line break) && tmp-buf < len; tmp++);] *)
Fixpoint eat_crlf (m : mem) (p : Z) (n : nat) : res Z :=
  c ← rd m p;
  if is_crlf c then match n with O => mret p | S n => eat_crlf m (p + 1) n end else mret p.

Definition parse_msg (A : allocs) (m : mem) (buf len : Z) (g : sip_msg) : res (Z * sip_msg) :=
  tmp ← eat_crlf m buf (Z.to_nat len);
  '(rest, fl) ← FirstLine.parse_first_line m tmp (len - (tmp - buf)) (m_first_line g);
  let g := set_line fl g in
  if FirstLine.fl_type fl =? FirstLine.SIP_INVALID then mret (-1, set_unparsed (m_end g) g)
  else if (FirstLine.fl_type fl =? FirstLine.SIP_REQUEST) || (FirstLine.fl_type fl =? FirstLine.SIP_REPLY) then
    '(r, g) ← parse_headers A m (HDR_T2F HDR_EOH_T) false (set_unparsed rest g);
    mret (if r =? -1 then -1 else 0, g)
  else mret (-1, g).

(** ** Other operations on messages *)

(** Returns 1 or 0. *)
Definition check_transaction_quadruple (A : allocs) (m : mem) (g : sip_msg) : res (Z * sip_msg) :=
  '(r, g) ← parse_headers A m
    (Z.lor (Z.lor (Z.lor (HDR_T2F HDR_FROM_T) (HDR_T2F HDR_TO_T)) (HDR_T2F HDR_CALLID_T))
      (HDR_T2F HDR_CSEQ_T)) false g;
  let found t := bool_decide (is_Some (m_hook g t)) in
  mret (if negb (r =? -1) && found HDR_FROM_T && found HDR_TO_T && found HDR_CALLID_T && found HDR_CSEQ_T
        then 1 else 0, g).

(** [get_content_length(msg)] (parse_content.h) *)
Definition get_content_length (g : sip_msg) : res (option Z) :=
  match m_hook g HDR_CONTENTLENGTH_T with
  | None => mret None
  | Some i =>
      match m_fields g !! i with
      | Some h => match hdr_parsed h with Some (PLength n) => mret (Some n) | _ => mret (Some 0) end
      | None => Fault 0
      end
  end.

(** The return value and the body, a null string if there is none. *)
Definition get_body (A : allocs) (m : mem) (g : sip_msg) : res (Z * str * sip_msg) :=
  '(r, g) ← parse_headers A m (HDR_T2F HDR_EOH_T) false g;
  if r =? -1 then mret (-1, null_str, g) else
  let u := m_unparsed g in
  if u =? 0 then mret (-1, null_str, g) else
  let hdrs_len := to_uint (u - m_buf g) in
  two ← (if hdrs_len + 2 <=? m_len g then
           c ← rd m u; if c =? CR then c ← rd m (u + 1); mret (c =? LF) else mret false
         else mret false);
  one ← (if two then mret false
         else if hdrs_len + 1 <=? m_len g then c ← rd m u; mret (is_crlf c) else mret false);
  if two || one then
    let s := if two then u + 2 else u + 1 in
    let body := Str s (to_int (m_end g - s)) in
    ct_len ← get_content_length g;
    match ct_len with
    | Some n => mret (0, Str s (if n <? str_len body then n else str_len body), g)
    | None => mret (0, null_str, g)
    end
  else mret (0, null_str, g).

(** The return value and [*_cid]. *)
Definition get_callid (A : allocs) (m : mem) (g : sip_msg) : res (Z * str * sip_msg) :=
  '(r, g) ← parse_headers A m (HDR_T2F HDR_CALLID_T) false g;
  if r =? -1 then mret (-1, null_str, g) else
  match m_hook g HDR_CALLID_T with
  | None => mret (-1, null_str, g)
  | Some i =>
      match m_fields g !! i with
      | Some h => cid ← trim m (hdr_body h); mret (0, cid, g)
      | None => Fault 0
      end
  end.

(** [for( hdr=msg->headers ; hdr ; hdr=hdr->next )] over the names. *)
Fixpoint find_header (m : mem) (l : list field) (i : option nat) (name : list Z) (fuel : nat) :
    res (option nat) :=
  match fuel, i with
  | _, None => mret None
  | O, Some _ => OutOfFuel
  | S fuel, Some i =>
      match l !! i with
      | None => Fault 0
      | Some h =>
          if str_len (hdr_name h) =? len name then
            same ← strncasecmp_lit m (str_s (hdr_name h)) name;
            if same : bool then mret (Some i) else find_header m l (hdr_next h) name fuel
          else find_header m l (hdr_next h) name fuel
      end
  end.

Definition get_header_by_name (m : mem) (g : sip_msg) (name : list Z) : res (option nat) :=
  find_header m (m_fields g) (m_headers g) name (length (m_fields g)).

(** parse_uri.c *)
Definition set_parsed_uri (ok : bool) (u : UriData.sip_uri) (g : sip_msg) : sip_msg :=
  SipMsg (m_first_line g) (m_fields g) (m_headers g) (m_last_header g) (m_hook g) (m_via1 g) (m_via2 g)
    (m_parsed_flag g) (m_eoh g) (m_unparsed g) (m_buf g) (m_len g) (m_new_uri g) (m_dst_uri g) ok u.

Definition parse_sip_msg_uri (m : mem) (g : sip_msg) : res (Z * sip_msg) :=
  if m_parsed_uri_ok g then mret (1, g) else
  '(r, u) ← (match m_new_uri g with
             | Some o => Uri.parse_uri (o_block o) (mbase (o_block o)) (o_len o)
             | None => let uri := FirstLine.u_second (m_first_line g) in
                       Uri.parse_uri m (str_s uri) (str_len uri)
             end);
  if r <? 0 then mret (-1, set_parsed_uri false u g) else mret (0, set_parsed_uri true u g).

End Msg.
