(* ===== verification/MsgSafety.v ===== *)
(** * Memory safety of the parser of messages, and what it leaves in a message

    Each header field that [get_hdr_field] accepts has the parsed contents of its
    type; [parse_headers] keeps the list of the headers, the hooks and the siblings
    consistent, terminates, and stays inside of the block. *)

From stdpp Require Import strings.
From S2P Require Import ParserF CSeq ContentLength.
From S2P Require Import FirstLine.
From S2P Require Import HNameTheorems.
From S2P Require Import ViaSafety.
From S2P Require Import ToSafety.
From S2P Require Export Msg.
Import Msg.

(** The contents that [parsed] has for a header of a type; that of From is set
    later, if at all. *)
Definition parsed_for (t : hdr_types_t) (p : option parsed) : Prop :=
  match t, p with
  | HDR_VIA_T, Some (PVia _ (_ :: _)) | HDR_CSEQ_T, Some (PCSeq _) | HDR_TO_T, Some (PTo _)
  | HDR_CONTENTLENGTH_T, Some (PLength _) | HDR_FROM_T, Some (PTo _) => True
  | (HDR_VIA_T | HDR_CSEQ_T | HDR_TO_T | HDR_CONTENTLENGTH_T), None => False
  | _, None => True
  | _, Some _ => False
  end.

(** A header field that was read from [buf] to [r]. *)
Record field_in (buf r : Z) (h : field) : Prop := {
  fi_name : str_s (hdr_name h) = buf ∧ 0 ≤ str_len (hdr_name h) ≤ r - buf;
  fi_body : within buf r (hdr_body h);
  fi_type : hdr_type h ≠ HDR_ERROR_T ∧ regular (hdr_type h) = true;
  fi_parsed : parsed_for (hdr_type h) (hdr_parsed h);
  fi_links : hdr_next h = None ∧ hdr_sibling h = None;
}.

Lemma trim_r_loop_wp m s fuel : ∀ n, mbase m ≤ s → s + n ≤ mlim m → 0 ≤ n < Z.of_nat fuel →
  wp (trim_r_loop m s n fuel) (λ y, str_s y = s ∧ 0 ≤ str_len y ≤ n).
Proof.
  induction fuel as [|fuel IH]; intros n Hb Hl Hn; [lia|]. cbn [trim_r_loop].
  destruct (Z.eqb_spec n 0) as [->|]; [wp_step; cbn; lia|].
  destruct (rd_valid m (s + n - 1)) as [c ->]; [lia|]. cbn [mbind res_bind].
  destruct ((c =? 0) || (c =? CR) || (c =? LF)); [|wp_step; cbn; lia].
  eapply wp_mono; [apply IH; lia|]. intros y Hy. cbn beta in Hy. lia.
Qed.

Lemma trim_r_wp m x : mbase m ≤ str_s x → str_s x + str_len x ≤ mlim m → 0 ≤ str_len x →
  wp (trim_r m x) (λ y, str_s y = str_s x ∧ 0 ≤ str_len y ≤ str_len x).
Proof. intros Hb Hl H0. apply trim_r_loop_wp; lia. Qed.

Section field.
Context (m : mem) (pend z buf : Z) (alloc : bool) (param_alloc : nat → bool).
Hypothesis Hm : mem_ok m.
Hypothesis Hbuf : mbase m ≤ buf < pend.
Hypothesis Hlim : pend + 20 ≤ mlim m.
Hypothesis Hnul : rd m z = Ok NUL.
Hypothesis Hz : pend ≤ z.

(** Where a field may end. *)
Definition far : Z := Z.max z (pend + 2).

Definition field_post (x : Z * field) : Prop :=
  let '(r, h) := x in
  hdr_type h = HDR_ERROR_T ∨ hdr_type h = HDR_EOH_T ∧ r = buf ∨ buf < r ≤ far ∧ field_in buf r h.

(** What is known before the body is parsed. *)
Record field_start (tmp : Z) (h : field) : Prop := {
  fs_name : str_s (hdr_name h) = buf ∧ 0 ≤ str_len (hdr_name h) ≤ tmp - buf;
  fs_type : hdr_type h ≠ HDR_ERROR_T ∧ regular (hdr_type h) = true;
  fs_new : hdr_parsed h = None ∧ hdr_next h = None ∧ hdr_sibling h = None;
  fs_tmp : buf < tmp < pend;
}.

Lemma far_in : far ≤ mlim m.
Proof. unfold far. apply rd_Ok in Hnul. lia. Qed.

Lemma hdr_error_post tmp h : field_post (hdr_error tmp h).
Proof. by left. Qed.

(** The common end: the body reaches to [r]. *)
Lemma hdr_done_wp tmp h r p : field_start tmp h → tmp ≤ r ≤ far →
  parsed_for (hdr_type h) p →
  wp (hdr_done m r (body_to r (match p with
    | Some p => set_parsed p (body_from tmp h) | None => body_from tmp h end))) field_post.
Proof.
  intros [Hn Ht (Hp & Hne & Hs) Htmp] Hr Hpar. pose proof far_in. destruct Hm as [H0 Hsz _].
  unfold hdr_done. set (h' := match p with Some p => _ | None => _ end).
  assert (Hh : hdr_body (body_to r h') = slice tmp r ∧ hdr_name (body_to r h') = hdr_name h ∧
    hdr_type (body_to r h') = hdr_type h ∧ hdr_parsed (body_to r h') = p ∧
    hdr_next (body_to r h') = None ∧ hdr_sibling (body_to r h') = None).
  { subst h'. destruct p; cbn; split_and!; done. }
  destruct Hh as (Hbody & Hname & Hty & Hpa & Hnx & Hsi). wp_step.
  eapply wp_mono; [apply trim_r_wp; rewrite Hbody; cbn; rewrite ?to_int_small by lia; lia|].
  intros y [Hy1 Hy2]. rewrite Hbody in Hy1, Hy2. cbn in Hy1, Hy2. rewrite to_int_small in Hy2 by lia.
  wp_step. right; right. split; [lia|]. split; cbn.
  - cbn in Hname. rewrite Hname. lia.
  - unfold within. lia.
  - cbn in Hty. by rewrite Hty.
  - cbn in Hty, Hpa. by rewrite Hty, Hpa.
  - done.
Qed.

Lemma via_field_wp tmp h : field_start tmp h → hdr_type h = HDR_VIA_T →
  wp (via_field m pend alloc param_alloc tmp h) field_post.
Proof.
  intros Hs Ht. unfold via_field. destruct alloc; [|apply hdr_error_post]. cbn [negb].
  pose proof (fs_tmp _ _ Hs). destruct Hm as [H0 Hsz _]. pose proof far_in. unfold far in *.
  wp_step. eapply wp_mono.
  { apply (parse_via_wp param_alloc m pend z); try done; lia. }
  intros [r vbs] [Hr (vb & rest & Hv & Hok)]. cbn [fst snd] in *. subst vbs. cbn [hd].
  destruct (_ =? _); [apply hdr_error_post|].
  apply (hdr_done_wp tmp h r (Some (PVia (hdr_name (body_from tmp h)) (vb :: rest)))); [done|unfold far; lia|].
  by rewrite Ht.
Qed.

Lemma cseq_field_wp tmp h : field_start tmp h → hdr_type h = HDR_CSEQ_T →
  wp (cseq_field m pend alloc tmp h) field_post.
Proof.
  intros Hs Ht. unfold cseq_field. destruct alloc; [|apply hdr_error_post]. cbn [negb].
  pose proof (fs_tmp _ _ Hs). wp_step. eapply wp_mono; [apply parse_cseq_wp; [done|lia..]|].
  intros [r cb] [Hr Hok]. cbn [fst snd] in *. destruct (_ =? _); [apply hdr_error_post|].
  apply (hdr_done_wp tmp h r (Some (PCSeq cb))); [done|unfold far; lia|]. by rewrite Ht.
Qed.

Lemma to_field_wp tmp h : field_start tmp h → hdr_type h = HDR_TO_T →
  wp (to_field m pend alloc param_alloc tmp h) field_post.
Proof.
  intros Hs Ht. unfold to_field. destruct alloc; [|apply hdr_error_post]. cbn [negb].
  pose proof (fs_tmp _ _ Hs). destruct Hm as [H0 Hsz _].
  wp_step. eapply wp_mono; [apply (_parse_to_ok _ m tmp pend); lia|].
  intros [r l] [Hr Hok]. destruct (To.tb_error _); [apply hdr_error_post|].
  apply (hdr_done_wp tmp h r (Some (PTo (hd To.empty_body l)))); [done|unfold far; lia|]. by rewrite Ht.
Qed.

Lemma length_field_wp tmp h : field_start tmp h → hdr_type h = HDR_CONTENTLENGTH_T →
  wp (length_field m pend tmp h) field_post.
Proof.
  intros Hs Ht. unfold length_field. pose proof (fs_tmp _ _ Hs).
  wp_step. eapply wp_mono; [apply parse_content_length_wp; lia|].
  intros [[r n]|]; [|by left]. intros [Hr Hn].
  apply (hdr_done_wp tmp h r (Some (PLength n))); [done|unfold far; lia|]. by rewrite Ht.
Qed.

Lemma skip_body_wp tmp : mbase m ≤ tmp < pend →
  wp (skip_body m pend tmp) (λ r, match r with Some r => tmp < r ≤ pend | None => True end).
Proof.
  intros Ht. unfold skip_body.
  apply (wp_loop _ (λ s, tmp ≤ s < pend) (λ s, pend - s)); [|lia..].
  intros s Hs. split; [lia|]. unfold skip_step. wp_step.
  eapply wp_mono; [apply q_memchr_spec; lia|]. intros [q|] Hq; [|by wp_step].
  destruct Hq as (Hq & _). destruct (Z.ltb_spec (q + 1) pend); [|wp_step; lia].
  destruct (rd_valid m (q + 1)) as [c ->]; [lia|]. cbn [mbind res_bind].
  wp_step. destruct (is_sp c); lia.
Qed.

Lemma skip_field_wp tmp h : field_start tmp h → parsed_for (hdr_type h) None →
  wp (skip_field m pend tmp h) field_post.
Proof.
  intros Hs Ht. unfold skip_field. pose proof (fs_tmp _ _ Hs).
  wp_step. eapply wp_mono; [apply skip_body_wp; lia|]. intros [r|] Hr; [|by left].
  apply (hdr_done_wp tmp h r None); [done|unfold far; lia|done].
Qed.

Lemma parse_field_wp tmp h : field_start tmp h →
  wp (parse_field m pend alloc param_alloc tmp h) field_post.
Proof.
  intros Hs. unfold parse_field. destruct (hdr_type h) eqn:E;
    first [apply hdr_error_post
      | by apply via_field_wp | by apply cseq_field_wp | by apply to_field_wp | by apply length_field_wp
      | by apply skip_field_wp; [|rewrite E] ].
Qed.

Lemma get_hdr_field_wp : wp (get_hdr_field m pend alloc param_alloc buf new_field) field_post.
Proof.
  unfold get_hdr_field. destruct (rd_valid m buf) as [c ->]; [lia|]. cbn [mbind res_bind].
  destruct (is_crlf c); [by apply wp_ret; right; left|].
  wp_step. eapply wp_mono; [apply parse_hname2_wp; [done|lia..|done]|].
  intros [tmp h] [[Hk Hn] Hb]. case_bool_decide as He; [apply hdr_error_post|].
  destruct Hn as [|(Hreg & Hn)]; [done|]. destruct Hb as [|Hb]; [done|].
  wp_step. eapply wp_mono; [apply eat_lws_end_spec; lia|]. intros t [Ht _].
  destruct (Z.leb_spec pend t); [apply hdr_error_post|].
  apply parse_field_wp. destruct Hk as (_ & Hp & Hx & Hsi).
  split; [lia|done|done|lia].
Qed.
End field.
