(* ===== verification/MsgLists.v ===== *)
(** * The lists of a message: headers, hooks and siblings

    Chains of pointers described by the list of the places that they visit, and
    what [parse_headers] maintains: the headers are chained in their order, each
    hook points to the first header of its type, and the siblings of a type are
    chained in their order. *)

From stdpp Require Import strings.
From S2P Require Import HNameTheorems.
From S2P Require Export MsgSafety.
Import Msg.

(** ** Chains *)

(** From [o], following [f], the places [ps] are visited. *)
Fixpoint chain (f : field → option nat) (l : list field) (o : option nat) (ps : list nat) : Prop :=
  match ps with
  | [] => o = None
  | i :: ps => o = Some i ∧ ∃ h, l !! i = Some h ∧ chain f l (f h) ps
  end.

Lemma chain_lt f l o ps : chain f l o ps → Forall (λ i, i < length l)%nat ps.
Proof.
  revert o. induction ps as [|i ps IH]; intros o H; [done|].
  destruct H as (_ & h & Hh & H). constructor; [by eapply lookup_lt_Some|eauto].
Qed.

Lemma chain_app f l k o ps : chain f l o ps → chain f (l ++ k) o ps.
Proof.
  revert o. induction ps as [|i ps IH]; intros o H; [done|].
  destruct H as (Ho & h & Hh & H). split; [done|]. exists h. split; [by apply lookup_app_l_Some|auto].
Qed.

(** Changes that the chain does not see: elsewhere, or of other members. *)
Lemma chain_alter_notin f g l o ps k : k ∉ ps → chain f l o ps → chain f (alter g k l) o ps.
Proof.
  revert o. induction ps as [|i ps IH]; intros o Hk H; [done|].
  rewrite not_elem_of_cons in Hk. destruct Hk as [Hki Hk]. destruct H as (Ho & h & Hh & H).
  split; [done|]. exists h. rewrite list_lookup_alter_ne by done. auto.
Qed.

Lemma chain_alter_same f g l o ps k : (∀ h, f (g h) = f h) → chain f l o ps → chain f (alter g k l) o ps.
Proof.
  intros Hg. revert o. induction ps as [|i ps IH]; intros o H; [done|].
  destruct H as (Ho & h & Hh & H). split; [done|]. destruct (decide (i = k)) as [->|Hne].
  - exists (g h). rewrite list_lookup_alter_eq, Hh, Hg. split; [done|auto].
  - exists h. rewrite list_lookup_alter_ne by done. auto.
Qed.

(** A new element behind the last one. *)
Lemma chain_snoc f g l o ps i h : NoDup (ps ++ [i]) → chain f l o ps →
  l !! i = Some h → f h = None → (∀ h, f (g h) = Some i) →
  chain f (match last ps with Some k => alter g k l | None => l end)
    (match ps with [] => Some i | _ => o end) (ps ++ [i]).
Proof.
  intros Hnd Hc Hi Hf Hg. revert o Hc. induction ps as [|j ps IH]; intros o Hc.
  { split; [done|]. exists h. by split. }
  destruct Hc as (-> & hj & Hj & Hc). cbn [app] in *. apply NoDup_cons in Hnd as [Hnj Hnd].
  rewrite not_elem_of_app, list_elem_of_singleton in Hnj. destruct Hnj as [Hnj Hij].
  split; [done|]. destruct ps as [|j' ps].
  - cbn in Hc |- *. exists (g hj). rewrite list_lookup_alter_eq, Hj. split; [done|].
    split; [done|]. exists h. rewrite list_lookup_alter_ne by done. by split.
  - specialize (IH Hnd (f hj) Hc). rewrite last_cons_cons.
    destruct (last (j' :: ps)) as [k|] eqn:Hl; [|by apply last_None in Hl].
    exists hj. split; [|exact IH]. rewrite list_lookup_alter_ne; [done|].
    intros ->. apply last_Some_elem_of in Hl. done.
Qed.

(** The walk to the last sibling. *)
Lemma last_sibling_chain l i ps k fuel : chain hdr_sibling l (Some i) ps → last ps = Some k →
  (length ps ≤ fuel)%nat → last_sibling l i fuel = Ok k.
Proof.
  revert i fuel. induction ps as [|j ps IH]; intros i fuel Hc Hl Hf; [done|].
  destruct Hc as ([= <-] & h & Hh & Hc). destruct fuel as [|fuel]; [cbn in Hf; lia|].
  cbn [last_sibling]. rewrite Hh. destruct ps as [|j' ps].
  - cbn in Hc. rewrite Hc. by injection Hl as ->.
  - destruct Hc as (Hs & Hc). rewrite Hs. apply IH; [by split|done|cbn in *; lia].
Qed.

(** ** The places of the headers of a type *)
Fixpoint positions_from (n : nat) (t : hdr_types_t) (l : list field) : list nat :=
  match l with
  | [] => []
  | h :: l => if decide (hdr_type h = t) then n :: positions_from (S n) t l else positions_from (S n) t l
  end.

Definition positions (t : hdr_types_t) (l : list field) : list nat := positions_from 0 t l.

Lemma positions_from_app n t l k :
  positions_from n t (l ++ k) = positions_from n t l ++ positions_from (n + length l) t k.
Proof.
  revert n. induction l as [|h l IH]; intros n; cbn; [by rewrite Nat.add_0_r|].
  rewrite IH. replace (n + S (length l))%nat with (S n + length l)%nat by lia. by destruct (decide _).
Qed.

Lemma positions_snoc t l h : positions t (l ++ [h]) =
  positions t l ++ (if decide (hdr_type h = t) then [length l] else []).
Proof. unfold positions. by rewrite positions_from_app. Qed.

Lemma positions_from_in n t l i : i ∈ positions_from n t l →
  (n ≤ i)%nat ∧ ∃ h, l !! (i - n)%nat = Some h ∧ hdr_type h = t.
Proof.
  revert n. induction l as [|h l IH]; intros n; cbn; [by intros ?%elem_of_nil|].
  destruct (decide _) as [Ht|]; [rewrite elem_of_cons; intros [->|Hi]|intros Hi].
  { rewrite Nat.sub_diag. split; [done|]. by exists h. }
  all: destruct (IH (S n) Hi) as (Hle & h' & Hh & Ht'); split; [lia|]; exists h'; split; [|done];
    replace (i - n)%nat with (S (i - S n)) by lia; done.
Qed.

Lemma positions_in t l i : i ∈ positions t l → ∃ h, l !! i = Some h ∧ hdr_type h = t.
Proof. intros [_ H]%positions_from_in. by rewrite Nat.sub_0_r in H. Qed.

Lemma positions_from_nodup n t l : NoDup (positions_from n t l).
Proof.
  revert n. induction l as [|h l IH]; intros n; cbn; [constructor|].
  destruct (decide _); [|done]. constructor; [|done].
  intros [? _]%positions_from_in. lia.
Qed.

Lemma positions_length t l : (length (positions t l) ≤ length l)%nat.
Proof.
  unfold positions. generalize 0%nat. induction l as [|h l IH]; intros n; cbn; [done|].
  destruct (decide _); cbn; specialize (IH (S n)); lia.
Qed.

Lemma positions_nodup_snoc t l : NoDup (positions t l ++ [length l]).
Proof.
  apply NoDup_app. split; [apply positions_from_nodup|]. split; [|apply NoDup_singleton].
  intros i Hi. apply positions_in in Hi as (h & Hh & _). apply lookup_lt_Some in Hh.
  rewrite list_elem_of_singleton. lia.
Qed.

(** Fields that agree but for their links. *)
Definition same_field (a b : field) : Prop :=
  hdr_type a = hdr_type b ∧ hdr_name a = hdr_name b ∧ hdr_body a = hdr_body b ∧
  hdr_parsed a = hdr_parsed b ∧ hdr_len a = hdr_len b.

Definition same_next (a b : field) : Prop := same_field a b ∧ hdr_next a = hdr_next b.

#[export] Instance same_field_equiv : Equivalence same_field.
Proof.
  split; unfold same_field.
  - done.
  - intros a b. intuition congruence.
  - intros a b c. intuition congruence.
Qed.

#[export] Instance same_next_equiv : Equivalence same_next.
Proof.
  split; unfold same_next.
  - intros a. split; [reflexivity|done].
  - intros a b [H Hn]. split; [by symmetry|done].
  - intros a b c [H Hn] [H' Hn']. split; [by etrans|congruence].
Qed.

Lemma positions_same t l l' : Forall2 same_field l l' → positions t l = positions t l'.
Proof.
  unfold positions. generalize 0%nat. intros n H. revert n.
  induction H as [|a b l l' (Ht & _) _ IH]; intros n; [done|]. cbn. rewrite Ht, IH. done.
Qed.

(** What holds of the fields and does not depend on the links. *)
Lemma forall_same (P : field → Prop) l l' : (∀ a b, same_field a b → P a → P b) →
  Forall2 same_field l l' → Forall P l → Forall P l'.
Proof. intros HP H. induction H as [|a b l l' Hab _ IH]; [done|]. rewrite !Forall_cons. intros [? ?]; eauto. Qed.

Lemma alter_same (R : relation field) `{!Reflexive R} f k (l : list field) :
  (∀ h, R h (f h)) → Forall2 R l (alter f k l).
Proof.
  intros Hf. apply Forall2_same_length_lookup. split; [by rewrite length_alter|].
  intros i a b Ha Hb. destruct (decide (i = k)) as [->|Hne].
  - rewrite list_lookup_alter_eq, Ha in Hb. injection Hb as <-. done.
  - rewrite list_lookup_alter_ne, Ha in Hb by done. by injection Hb as <-.
Qed.

(** ** Well-formed messages *)

(** The first two bodies of Via, over all headers. *)
Definition vias_of (l : list field) : option (nat * nat) * option (nat * nat) :=
  match positions HDR_VIA_T l with
  | [] => (None, None)
  | i :: js =>
      (Some (i, 0%nat),
       match l !! i ≫= λ h, Some (via_bodies h) with
       | Some (_ :: _ :: _) => Some (i, 1%nat)
       | _ => match js with j :: _ => Some (j, 0%nat) | [] => None end
       end)
  end.

(** The types whose headers are chained as siblings. *)
Definition siblings (t : hdr_types_t) : bool :=
  match t, link_of t with HDR_VIA_T, _ | _, Some LSibling => true | _, _ => false end.

(** Hooks, siblings, contents and flags. *)
Record hooks_wf (g : sip_msg) : Prop := {
  hw_first : ∀ t, link_of t = Some LFirst → m_hook g t = head (positions t (m_fields g));
  hw_sibling : ∀ t, siblings t = true →
    chain hdr_sibling (m_fields g) (m_hook g t) (positions t (m_fields g));
  hw_none : ∀ t, link_of t = Some LNone → m_hook g t = None;
  hw_vias : (m_via1 g, m_via2 g) = vias_of (m_fields g);
  hw_fields : Forall (λ h, (hdr_type h ≠ HDR_ERROR_T ∧ regular (hdr_type h) = true) ∧
    parsed_for (hdr_type h) (hdr_parsed h)) (m_fields g);
  hw_flags : ∀ t, regular t = true → 0 < hdr_num t → Z.testbit (m_parsed_flag g) (hdr_num t) = true →
    positions t (m_fields g) ≠ [] ∨ m_eoh g ≠ 0;
}.

Record msg_wf (g : sip_msg) : Prop := {
  wf_list : chain hdr_next (m_fields g) (m_headers g) (seq 0 (length (m_fields g)));
  wf_last : m_last_header g = last (seq 0 (length (m_fields g)));
  wf_hooks : hooks_wf g;
}.

Lemma hdr_num_inj t u : hdr_num t = hdr_num u → t = u.
Proof. destruct t; destruct u; (reflexivity || discriminate). Qed.

Lemma hdr_num_range t : -1 ≤ hdr_num t < 64.
Proof. by destruct t. Qed.

Lemma T2F_bit t n : 0 ≤ n → 0 ≤ hdr_num t → t ≠ HDR_EOH_T → Z.testbit (HDR_T2F t) n = (n =? hdr_num t).
Proof.
  intros Hn Ht Hne. assert (HDR_T2F t = Z.shiftl 1 (hdr_num t)) as -> by (by destruct t).
  rewrite Z.shiftl_spec by done. destruct (Z.eqb_spec n (hdr_num t)) as [->|]; [by rewrite Z.sub_diag|].
  destruct (Z.ltb_spec n (hdr_num t)); [by rewrite Z.testbit_neg_r by lia|].
  destruct (n - hdr_num t) eqn:E; [lia| |lia]. by apply Z.bits_above_log2; cbn; lia.
Qed.

Lemma new_msg_wf buf len : msg_wf (new_msg buf len).
Proof. split; [done..|]. split; try done. intros t _ _. by rewrite Z.testbit_0_l. Qed.

(** ** One header field is hooked *)

(** The switch when it is not a Via. *)
Lemma link_field_other i h g : hdr_type h ≠ HDR_VIA_T → link_field i h g =
  match link_of (hdr_type h) with
  | None => mret None
  | Some LNone => mret (Some g)
  | Some LFirst => mret (Some (or_flag (hdr_type h) (link_hdr (hdr_type h) i g)))
  | Some LSibling => g ← link_sibling_hdr (hdr_type h) i g; mret (Some (or_flag (hdr_type h) g))
  end.
Proof. unfold link_field. by destruct (hdr_type h). Qed.

Section link.
Context (g : sip_msg) (hf : field).
Hypothesis Hwf : hooks_wf g.
Hypothesis Htype : hdr_type hf ≠ HDR_ERROR_T ∧ regular (hdr_type hf) = true.
Hypothesis Hpar : parsed_for (hdr_type hf) (hdr_parsed hf).
Hypothesis Hnew : hdr_sibling hf = None.

Let l := m_fields g.
Let i := length l.
Let t := hdr_type hf.
Let g1 := set_fields (l ++ [hf]) g.

(** What the hooks have to be afterwards, whatever the type. *)
Lemma positions_new u : positions u (l ++ [hf]) = positions u l ++ (if decide (t = u) then [i] else []).
Proof. apply positions_snoc. Qed.

(** [link_sibling_hdr] in one equation. *)
Lemma link_sibling_ok : siblings t = true →
  link_sibling_hdr t i g1 = Ok (match last (positions t l) with
    | Some k => set_at k (set_sibling i) g1 | None => set_hook t i g1 end).
Proof.
  intros Hs. pose proof (hw_sibling _ Hwf t Hs) as Hc. fold l in Hc. unfold link_sibling_hdr.
  change (m_hook g1 t) with (m_hook g t). change (m_fields g1) with (l ++ [hf]).
  pose proof (positions_length t l). destruct (positions t l) as [|j ps] eqn:E; [cbn in Hc; by rewrite Hc|].
  destruct (last (j :: ps)) as [k|] eqn:Hl; [|by apply last_None in Hl].
  destruct (m_hook g t) as [i0|] eqn:Hi0; [|by destruct Hc].
  rewrite (last_sibling_chain _ _ (j :: ps) k); [done| |done|rewrite length_app; cbn in *; lia].
  by apply chain_app.
Qed.

(** The chain of the type, and those of the others, after the siblings are linked. *)
Lemma linked_chains g2 : siblings t = true →
  g2 = (match last (positions t l) with
    | Some k => set_at k (set_sibling i) g1 | None => set_hook t i g1 end) →
  Forall2 same_next (l ++ [hf]) (m_fields g2) ∧
  ∀ u, siblings u = true → chain hdr_sibling (m_fields g2) (m_hook g2 u) (positions u (l ++ [hf])).
Proof.
  intros Hs ->. pose proof (hw_sibling _ Hwf) as Hch. fold l in Hch.
  assert (Hi : (l ++ [hf]) !! i = Some hf) by (by apply list_lookup_middle).
  split.
  { destruct (last (positions t l)); [|reflexivity]. apply alter_same; [apply _|]. intros h. done. }
  intros u Hu. rewrite positions_new. destruct (decide (t = u)) as [<-|Hne].
  - pose proof (chain_snoc hdr_sibling (set_sibling i) (l ++ [hf]) (m_hook g t) (positions t l) i hf
      (positions_nodup_snoc t l) (chain_app _ _ _ _ _ (Hch t Hs)) Hi Hnew ltac:(done)) as H.
    destruct (positions t l) as [|j ps] eqn:E.
    + cbn. by rewrite decide_True by done.
    + destruct (last (j :: ps)) as [k|] eqn:Hl; [|by apply last_None in Hl]. exact H.
  - rewrite app_nil_r. pose proof (chain_app _ l [hf] _ _ (Hch u Hu)) as H.
    destruct (last (positions t l)) as [k|] eqn:Hl.
    + apply chain_alter_notin; [|exact H]. intros Hk. apply last_Some_elem_of in Hl.
      apply positions_in in Hk as (h & Hh & Hht), Hl as (h' & Hh' & Hht'). congruence.
    + cbn. by rewrite decide_False by done.
Qed.

Lemma flag_bit f u : regular u = true → 0 < hdr_num u →
  Z.testbit (Z.lor f (HDR_T2F t)) (hdr_num u) = true → Z.testbit f (hdr_num u) = true ∨ u = t.
Proof.
  intros Hu H0 Hb. rewrite Z.lor_spec in Hb. apply orb_true_iff in Hb as [|Hb]; [by left|].
  right. destruct Htype as [Hne Hr]. rewrite T2F_bit in Hb; [by apply Z.eqb_eq, hdr_num_inj in Hb|lia| |].
  - by destruct (hdr_type hf).
  - unfold t. by intros E; rewrite E in Hr.
Qed.

Lemma flag_via2 f u : regular u = true → 0 < hdr_num u →
  Z.testbit (Z.lor f (HDR_T2F HDR_VIA2_T)) (hdr_num u) = true → Z.testbit f (hdr_num u) = true.
Proof.
  intros Hu H0 Hb. rewrite Z.lor_spec in Hb. apply orb_true_iff in Hb as [|Hb]; [done|].
  rewrite T2F_bit in Hb by (done || lia). apply Z.eqb_eq, hdr_num_inj in Hb. by subst u.
Qed.

Lemma flags_new f : (∀ u, regular u = true → 0 < hdr_num u → Z.testbit f (hdr_num u) = true →
    Z.testbit (m_parsed_flag g) (hdr_num u) = true ∨ u = t) →
  ∀ u, regular u = true → 0 < hdr_num u → Z.testbit f (hdr_num u) = true →
  positions u (l ++ [hf]) ≠ [] ∨ m_eoh g ≠ 0.
Proof.
  intros Hf u Hu H0 Hb. rewrite positions_new. destruct (Hf u Hu H0 Hb) as [Hold|Heq].
  - destruct (hw_flags _ Hwf u Hu H0 Hold) as [Hp|He]; [|by right]. left.
    intros [E _]%app_eq_nil. done.
  - left. rewrite decide_True by done. by intros [_ ?]%app_eq_nil.
Qed.

Lemma fields_new : Forall (λ h, (hdr_type h ≠ HDR_ERROR_T ∧ regular (hdr_type h) = true) ∧
    parsed_for (hdr_type h) (hdr_parsed h)) (l ++ [hf]).
Proof. apply Forall_app. split; [apply (hw_fields _ Hwf)|]. by apply Forall_singleton. Qed.

Lemma fields_same l2 : Forall2 same_field (l ++ [hf]) l2 →
  Forall (λ h, (hdr_type h ≠ HDR_ERROR_T ∧ regular (hdr_type h) = true) ∧
    parsed_for (hdr_type h) (hdr_parsed h)) l2.
Proof.
  intros H. eapply forall_same; [|exact H|apply fields_new].
  intros a b (Ht & _ & _ & Hp & _). by rewrite Ht, Hp.
Qed.

Lemma vias_same k k2 : Forall2 same_field k k2 → vias_of k = vias_of k2.
Proof.
  intros H. unfold vias_of. rewrite (positions_same _ _ _ H). destruct (positions _ k2) as [|j js]; [done|].
  assert (E : (k !! j ≫= λ h, Some (via_bodies h)) = (k2 !! j ≫= λ h, Some (via_bodies h))).
  { destruct (k !! j) as [a|] eqn:Ha.
    - destruct (Forall2_lookup_l _ _ _ _ _ H Ha) as (b & -> & (_ & _ & _ & Hp & _)). cbn.
      unfold via_bodies. by rewrite Hp.
    - apply lookup_ge_None in Ha. rewrite (Forall2_length _ _ _ H) in Ha.
      by rewrite lookup_ge_None_2 by done. }
  by rewrite E.
Qed.

Lemma vias_other : t ≠ HDR_VIA_T → vias_of (l ++ [hf]) = vias_of l.
Proof.
  intros Hne. unfold vias_of. rewrite positions_new, decide_False, app_nil_r by done.
  destruct (positions HDR_VIA_T l) as [|j js] eqn:E; [done|].
  assert (Hj : j ∈ positions HDR_VIA_T l) by (rewrite E; by left).
  apply positions_in in Hj as (h & Hh & _). by rewrite (lookup_app_l_Some _ _ _ _ Hh), Hh.
Qed.

(** What linking leaves alone. *)
Definition same_rest (g2 : sip_msg) : Prop :=
  m_headers g2 = m_headers g ∧ m_last_header g2 = m_last_header g ∧ m_buf g2 = m_buf g ∧
  m_len g2 = m_len g ∧ m_eoh g2 = m_eoh g ∧ m_unparsed g2 = m_unparsed g ∧
  m_first_line g2 = m_first_line g ∧ m_new_uri g2 = m_new_uri g ∧ m_parsed_uri_ok g2 = m_parsed_uri_ok g.

Definition linked (g2 : sip_msg) : Prop :=
  hooks_wf g2 ∧ Forall2 same_next (l ++ [hf]) (m_fields g2) ∧ same_rest g2.

(** The hooks are well formed when those of the type are, and the others are kept. *)
Lemma linked_intro g2 : Forall2 same_next (l ++ [hf]) (m_fields g2) → same_rest g2 →
  (∀ u, u ≠ t → u ≠ HDR_VIA2_T → m_hook g2 u = m_hook g u) →
  (link_of t = Some LFirst → m_hook g2 t = head (positions t (l ++ [hf]))) →
  (link_of t = Some LNone → m_hook g2 t = None) →
  (∀ u, siblings u = true → chain hdr_sibling (m_fields g2) (m_hook g2 u) (positions u (l ++ [hf]))) →
  (m_via1 g2, m_via2 g2) = vias_of (l ++ [hf]) →
  (∀ u, regular u = true → 0 < hdr_num u → Z.testbit (m_parsed_flag g2) (hdr_num u) = true →
    Z.testbit (m_parsed_flag g) (hdr_num u) = true ∨ u = t) →
  linked g2.
Proof.
  intros Hf Hr Hh H1 HN Hc Hv Hfl. split; [|done].
  assert (Hf' : Forall2 same_field (l ++ [hf]) (m_fields g2)) by (eapply Forall2_impl; [exact Hf|by intros ?? []]).
  assert (Hp : ∀ u, positions u (m_fields g2) = positions u (l ++ [hf])).
  { intros u. symmetry. by apply positions_same. }
  split.
  - intros u Hu. rewrite Hp. destruct (decide (u = t)) as [->|Hne]; [auto|].
    rewrite Hh by (by intros -> || done). rewrite (hw_first _ Hwf u Hu), positions_new.
    by rewrite decide_False, app_nil_r by done.
  - intros u Hu. rewrite Hp. auto.
  - intros u Hu. destruct (decide (u = t)) as [->|Hne]; [auto|].
    rewrite Hh by (by intros -> || done). by apply (hw_none _ Hwf).
  - rewrite Hv. by apply vias_same.
  - by apply fields_same.
  - intros u Hu H0 Hb. rewrite Hp. destruct Hr as (_ & _ & _ & _ & -> & _).
    by apply (flags_new (m_parsed_flag g2)).
Qed.

Lemma link_via_ok : t = HDR_VIA_T → ∃ g2, link_via i hf g1 = Ok g2 ∧ linked g2.
Proof.
  intros Ht. assert (Hs : siblings t = true) by (by rewrite Ht).
  pose proof (link_sibling_ok Hs) as Hl. rewrite Ht in Hl. unfold link_via. rewrite Hl. cbn [mbind res_bind].
  set (gs := match last _ with Some k => _ | None => _ end).
  assert (Hgs : gs = match last (positions t l) with
    | Some k => set_at k (set_sibling i) g1 | None => set_hook t i g1 end) by (by rewrite Ht).
  destruct (linked_chains gs Hs Hgs) as [Hf Hc].
  assert (Hsame : same_rest gs ∧ m_via1 gs = m_via1 g ∧ m_via2 gs = m_via2 g ∧
    m_parsed_flag gs = m_parsed_flag g ∧ (∀ u, u ≠ t → m_hook gs u = m_hook g u)).
  { rewrite Hgs. destruct (last (positions t l)); split_and!; try done; intros u Hu; cbn; by rewrite decide_False by done. }
  destruct Hsame as (Hr & Hv1 & Hv2 & Hfl & Hh). change (m_via1 (or_flag _ gs)) with (m_via1 gs).
  change (m_via2 (or_flag _ gs)) with (m_via2 gs). rewrite Hv1, Hv2.
  pose proof (hw_vias _ Hwf) as Hvias. fold l in Hvias.
  assert (Hbod : via_bodies hf ≠ []).
  { unfold parsed_for in Hpar. fold t in Hpar. rewrite Ht in Hpar. unfold via_bodies.
    destruct (hdr_parsed hf) as [[? [|]| | |]|]; done. }
  assert (Hbit : ∀ u, regular u = true → 0 < hdr_num u →
    Z.testbit (Z.lor (m_parsed_flag g) (HDR_T2F HDR_VIA_T)) (hdr_num u) = true →
    Z.testbit (m_parsed_flag g) (hdr_num u) = true ∨ u = t).
  { intros u Hu H0. rewrite <- Ht. by apply flag_bit. }
  assert (Hat : (l ++ [hf]) !! i = Some hf) by (by apply list_lookup_middle).
  destruct (m_via1 g) as [v1|] eqn:E1.
  - destruct (positions HDR_VIA_T l) as [|j js] eqn:Ep; [unfold vias_of in Hvias; by rewrite Ep in Hvias|].
    assert (Hvn : vias_of (l ++ [hf]) = (Some v1, match m_via2 g with Some v => Some v | None => Some (i, 0%nat) end)).
    { unfold vias_of in Hvias |- *. rewrite positions_new, Ep in *. rewrite decide_True by done. cbn [app].
      assert (Hj : j ∈ positions HDR_VIA_T l) by (rewrite Ep; by left).
      apply positions_in in Hj as (h & Hj & _). rewrite (lookup_app_l_Some _ _ _ _ Hj). rewrite Hj in Hvias.
      cbn in Hvias |- *. injection Hvias as -> Hv. rewrite Hv.
      destruct (via_bodies h) as [|? [|]]; destruct js; done. }
    destruct (m_via2 g) as [v2|] eqn:E2.
    + eexists. split; [done|]. apply linked_intro; try done; cbn; rewrite ?Hv1, ?Hv2, ?Hfl; try done.
      * intros u Hu _. auto.
      * by rewrite Ht.
      * by rewrite Ht.
    + eexists. split; [done|]. apply linked_intro; try done; cbn; rewrite ?Hv1, ?Hfl; try done.
      * intros u Hu Hu2. rewrite decide_False by done. auto.
      * by rewrite Ht.
      * by rewrite Ht.
      * intros u Hu. rewrite decide_False by (by intros ->). auto.
      * intros u Hu H0 Hb. apply flag_via2 in Hb; auto.
  - destruct (positions HDR_VIA_T l) as [|j js] eqn:Ep; [|unfold vias_of in Hvias; by rewrite Ep in Hvias].
    assert (E2 : m_via2 g = None) by (unfold vias_of in Hvias; rewrite Ep in Hvias; by injection Hvias).
    assert (Hhv : m_hook gs HDR_VIA_T = Some i).
    { rewrite Hgs, Ht, Ep. cbn. by rewrite decide_True by done. }
    assert (Hvn : vias_of (l ++ [hf]) = (Some (i, 0%nat),
      match via_bodies hf with _ :: _ :: _ => Some (i, 1%nat) | _ => None end)).
    { unfold vias_of. rewrite positions_new, Ep, decide_True by done. cbn [app]. rewrite Hat. cbn.
      by destruct (via_bodies hf) as [|? [|]]. }
    assert (Hk : ∀ u, (if decide (u = HDR_VIA_T) then Some i else m_hook gs u) = m_hook gs u).
    { intros u. destruct (decide _) as [->|]; [by rewrite Hhv|done]. }
    destruct (via_bodies hf) as [|b [|b' bs]] eqn:Eb; [done|..].
    + eexists. split; [done|]. apply linked_intro; try done; cbn; rewrite ?Hfl, ?E2; try done.
      * intros u Hu _. rewrite Hk. auto.
      * by rewrite Ht.
      * by rewrite Ht.
      * intros u Hu. rewrite Hk. auto.
    + eexists. split; [done|]. apply linked_intro; try done; cbn; rewrite ?Hfl; try done.
      * intros u Hu _. rewrite Hk. auto.
      * by rewrite Ht.
      * by rewrite Ht.
      * intros u Hu. rewrite Hk. auto.
      * intros u Hu H0 Hb. apply flag_via2 in Hb; auto.
Qed.

Lemma link_field_ok : ∃ g2, link_field i hf g1 = Ok (Some g2) ∧ linked g2.
Proof.
  destruct (decide (t = HDR_VIA_T)) as [Ht|Hne].
  { destruct (link_via_ok Ht) as (g2 & H & Hl). exists g2. split; [|done].
    unfold link_field. fold t. rewrite Ht. by rewrite H. }
  rewrite (link_field_other i hf g1 Hne). fold t. pose proof (vias_other Hne) as Hv. pose proof (hw_vias _ Hwf) as Hvg. fold l in Hvg.
  assert (Hsib : siblings t = true → link_of t = Some LSibling).
  { unfold siblings. destruct t; try done. }
  assert (Hkeep : siblings t = false → ∀ u, siblings u = true →
    chain hdr_sibling (l ++ [hf]) (m_hook g u) (positions u (l ++ [hf]))).
  { intros Hs u Hu. rewrite positions_new, decide_False, app_nil_r by congruence.
    by apply chain_app, (hw_sibling _ Hwf). }
  destruct (link_of t) as [[| |]|] eqn:E.
  - eexists. split; [done|].
    assert (Hs : siblings t = false) by (apply not_true_iff_false; by intros H%Hsib).
    pose proof (hw_first _ Hwf t E) as Hfst. fold l in Hfst.
    assert (Hhk : ∀ u, m_hook (link_hdr t i g1) u =
      if decide (u = t) then Some (default i (m_hook g t)) else m_hook g u).
    { intros u. unfold link_hdr. change (m_hook g1 t) with (m_hook g t). destruct (m_hook g t) eqn:Eh.
      - destruct (decide (u = t)) as [->|]; done.
      - cbn. by destruct (decide (u = t)). }
    assert (Hrest : m_fields (link_hdr t i g1) = l ++ [hf] ∧ same_rest (link_hdr t i g1) ∧
      m_via1 (link_hdr t i g1) = m_via1 g ∧ m_via2 (link_hdr t i g1) = m_via2 g ∧
      m_parsed_flag (link_hdr t i g1) = m_parsed_flag g).
    { unfold link_hdr. by destruct (m_hook g1 t). }
    destruct Hrest as (Hfs & Hsr & Hv1 & Hv2 & Hpf).
    apply linked_intro; try done; cbn.
    + by rewrite Hfs.
    + intros u Hu _. rewrite Hhk, decide_False by done. done.
    + intros _. rewrite Hhk, decide_True, positions_new, decide_True, Hfst by done.
      by destruct (positions t l).
    + by rewrite E.
    + intros u Hu. rewrite Hhk, decide_False, Hfs by congruence. auto.
    + rewrite Hv1, Hv2, Hv. done.
    + rewrite Hpf. intros u. apply flag_bit.
  - assert (Hs : siblings t = true) by (unfold siblings; by destruct t).
    rewrite (link_sibling_ok Hs). set (gs := match last _ with Some k => _ | None => _ end).
    destruct (linked_chains gs Hs eq_refl) as [Hf Hc]. cbn [mbind res_bind]. eexists. split; [done|].
    assert (Hsame : same_rest gs ∧ m_via1 gs = m_via1 g ∧ m_via2 gs = m_via2 g ∧
      m_parsed_flag gs = m_parsed_flag g ∧ (∀ u, u ≠ t → m_hook gs u = m_hook g u)).
    { subst gs. destruct (last (positions t l)); split_and!; try done; intros u Hu; cbn; by rewrite decide_False by done. }
    destruct Hsame as (Hr & Hv1 & Hv2 & Hfl & Hh).
    apply linked_intro; try done; cbn; rewrite ?E, ?Hv1, ?Hv2, ?Hfl, ?Hv; try done.
    + intros u Hu _. auto.
    + intros u. apply flag_bit.
  - eexists. split; [done|].
    assert (Hs : siblings t = false) by (apply not_true_iff_false; by intros H%Hsib).
    apply linked_intro; try done; rewrite ?E; try done.
    + intros _. by apply (hw_none _ Hwf).
    + by apply Hkeep.
    + by rewrite Hv.
    + intros u _ _ Hb. by left.
  - exfalso. destruct Htype as [Hne' Hr]. fold t in Hne', Hr. destruct t; done.
Qed.
End link.
