(* ===== verification/MsgHeaders.v ===== *)
(** * [parse_headers] and [parse_msg] on every input

    They terminate, stay inside of the block, and leave a well-formed message. *)

From stdpp Require Import strings.
From S2P Require Import HNameTheorems.
From S2P Require Import FirstLine.
From S2P Require Export MsgLists.
Import Msg.

(** ** The list of the headers *)
Lemma chain_same f l l' o ps : Forall2 (λ a b, f a = f b) l l' → chain f l o ps → chain f l' o ps.
Proof.
  intros HF. revert o. induction ps as [|i ps IH]; intros o H; [done|].
  destruct H as (Ho & h & Hh & H). split; [done|].
  destruct (Forall2_lookup_l _ _ _ _ _ HF Hh) as (h' & Hh' & E). exists h'. split; [done|].
  rewrite <- E. auto.
Qed.

(** Changing the links of the list changes no hook. *)
Lemma hooks_wf_next g k i : hooks_wf g → hooks_wf (set_at k (set_next i) g).
Proof.
  intros [H1 H2 H3 H4 H5 H6].
  assert (Hf : Forall2 same_field (m_fields g) (alter (set_next i) k (m_fields g))).
  { apply alter_same; [apply _|]. done. }
  assert (Hp : ∀ u, positions u (alter (set_next i) k (m_fields g)) = positions u (m_fields g)).
  { intros u. symmetry. by apply positions_same. }
  split; cbn.
  - intros t Ht. rewrite Hp. auto.
  - intros t Ht. rewrite Hp. apply chain_alter_same; [done|auto].
  - done.
  - rewrite H4. by apply vias_same.
  - eapply forall_same; [|exact Hf|exact H5]. intros a b (Ht & _ & _ & Hpa & _). by rewrite Ht, Hpa.
  - intros t Ht. rewrite Hp. auto.
Qed.

Lemma hooks_wf_list g a b : hooks_wf g → hooks_wf (set_list a b g).
Proof. by intros [H1 H2 H3 H4 H5 H6]. Qed.

Lemma seq_snoc n : seq 0 (S n) = seq 0 n ++ [n].
Proof. replace (S n) with (n + 1)%nat by lia. by rewrite seq_app. Qed.

Lemma add_header_wf g hf g2 : msg_wf g → hdr_next hf = None → linked g hf g2 →
  msg_wf (add_header (length (m_fields g)) g2).
Proof.
  intros [Hl Hla _] Hn (Hh & Hf & (Hhd & Hlast & _)).
  set (n := length (m_fields g)) in *.
  assert (Hlen : length (m_fields g2) = S n).
  { rewrite <- (Forall2_length _ _ _ Hf), length_app. cbn. fold n. lia. }
  assert (Hc : chain hdr_next (m_fields g2) (m_headers g2) (seq 0 n)).
  { rewrite Hhd. eapply chain_same; [|by apply chain_app].
    eapply Forall2_impl; [exact Hf|]. by intros ?? []. }
  assert (Hnew : ∃ h, m_fields g2 !! n = Some h ∧ hdr_next h = None).
  { assert (H : (m_fields g ++ [hf]) !! n = Some hf) by (by apply list_lookup_middle).
    destruct (Forall2_lookup_l _ _ _ _ _ Hf H) as (h & Hh2 & [_ E]). exists h. split; [done|congruence]. }
  destruct Hnew as (h & Hat & Hhn).
  pose proof (chain_snoc hdr_next (set_next n) (m_fields g2) (m_headers g2) (seq 0 n) n h) as Hs.
  rewrite <- seq_snoc in Hs. specialize (Hs (NoDup_seq 0 (S n)) Hc Hat Hhn ltac:(done)).
  unfold add_header. rewrite Hlast, Hla. destruct (last (seq 0 n)) as [k|] eqn:Hk.
  - assert (Hseq : seq 0 n ≠ []) by (by intros E; rewrite E in Hk).
    split; cbn.
    + rewrite length_alter, Hlen, Hhd. destruct (seq 0 n) eqn:E; [done|]. by rewrite Hhd in Hs.
    + by rewrite length_alter, Hlen, seq_snoc, last_snoc.
    + by apply hooks_wf_list, hooks_wf_next.
  - apply last_None in Hk. rewrite Hk in Hs. split; cbn.
    + by rewrite Hlen.
    + by rewrite Hlen, seq_snoc, last_snoc.
    + by apply hooks_wf_list.
Qed.

(** ** Where the strings of the headers are *)
Definition field_within (lo hi : Z) (h : field) : Prop :=
  lo ≤ str_s (hdr_name h) ∧ 0 ≤ str_len (hdr_name h) ∧
  str_s (hdr_name h) + str_len (hdr_name h) ≤ hi ∧ within lo hi (hdr_body h).

Lemma field_within_mono lo hi lo' hi' h : lo' ≤ lo → hi ≤ hi' → field_within lo hi h → field_within lo' hi' h.
Proof. unfold field_within, within. lia. Qed.

Lemma fields_within_same lo hi l l' : Forall2 same_field l l' →
  Forall (field_within lo hi) l → Forall (field_within lo hi) l'.
Proof.
  intros H. apply forall_same; [|done]. intros a b (_ & Hn & Hb & _ & _). unfold field_within. by rewrite Hn, Hb.
Qed.

(** ** What a run of [parse_headers] keeps *)
Record grows (g g2 : sip_msg) : Prop := {
  gr_fields : ∀ u, positions u (m_fields g) ≠ [] → positions u (m_fields g2) ≠ [];
  gr_eoh : m_eoh g ≠ 0 → m_eoh g2 ≠ 0;
  gr_buf : m_buf g2 = m_buf g;
  gr_len : m_len g2 = m_len g;
  gr_line : m_first_line g2 = m_first_line g;
  gr_uri : m_new_uri g2 = m_new_uri g ∧ m_parsed_uri_ok g2 = m_parsed_uri_ok g;
}.

#[export] Instance grows_preorder : PreOrder grows.
Proof.
  split; [by intros g; split|]. intros a b c [H1 H2 H3 H4 H5 [H6 H7]] [K1 K2 K3 K4 K5 [K6 K7]].
  split; [naive_solver..|congruence|congruence|congruence|split; congruence].
Qed.

Lemma set_flags_wf g f : msg_wf g →
  (∀ u, regular u = true → 0 < hdr_num u → Z.testbit f (hdr_num u) = true →
    positions u (m_fields g) ≠ [] ∨ m_eoh g ≠ 0) → msg_wf (set_flags f g).
Proof. by intros [H1 H2 [H3 H4 H5 H6 H7 H8]] Hf. Qed.

Lemma set_unparsed_wf g p : msg_wf g → msg_wf (set_unparsed p g).
Proof. by intros [H1 H2 [H3 H4 H5 H6 H7 H8]]. Qed.

Lemma set_line_wf g fl : msg_wf g → msg_wf (set_line fl g).
Proof. by intros [H1 H2 [H3 H4 H5 H6 H7 H8]]. Qed.

Lemma eoh_wf g tmp : msg_wf g → tmp ≠ 0 → msg_wf (or_flag HDR_EOH_T (set_eoh tmp g)).
Proof. intros [H1 H2 [H3 H4 H5 H6 H7 H8]] Ht. split; [done..|]. split; try done. intros. by right. Qed.

Section headers.
Context (A : allocs) (m : mem) (flags z : Z).
Hypothesis Hm : mem_ok m.
Hypothesis Hnul : rd m z = Ok NUL.

(** A message in the block, which is followed by a NUL and has 20 more bytes. *)
Definition msg_in (g : sip_msg) : Prop :=
  mbase m ≤ m_buf g ≤ m_unparsed g ∧ m_end g + 20 ≤ mlim m ∧ m_end g ≤ z.

Definition ph_inv (g0 : sip_msg) (s : Z * sip_msg) : Prop :=
  let '(tmp, g) := s in
  msg_wf g ∧ grows g0 g ∧ m_unparsed g = m_unparsed g0 ∧ m_unparsed g0 ≤ tmp ≤ Z.max (m_unparsed g0) (far (m_end g0) z) ∧
  Forall (field_within (m_buf g0) (far (m_end g0) z)) (m_fields g).

Definition ph_result (g0 : sip_msg) (r : option Z * sip_msg) : Prop :=
  let '(o, g) := r in
  msg_wf g ∧ grows g0 g ∧ Forall (field_within (m_buf g0) (far (m_end g0) z)) (m_fields g) ∧
  match o with
  | Some tmp => m_unparsed g0 ≤ tmp ≤ Z.max (m_unparsed g0) (far (m_end g0) z) ∧
      (m_end g0 ≤ tmp ∨ Z.land flags (m_parsed_flag g) = flags ∨
       ∃ f, m_parsed_flag g = Z.lor f all_flags)
  | None => m_unparsed g = m_unparsed g0
  end.

Lemma ph_round_wp g0 s : msg_in g0 → ph_inv g0 s →
  wp (ph_round A m flags s) (λ r, match r with
    | inl s' => ph_inv g0 s' ∧ Z.max 0 (m_end g0 - s'.1) < Z.max 0 (m_end g0 - s.1)
    | inr r => ph_result g0 r end).
Proof.
  destruct s as [tmp g]. intros (Hb & Hlim & Hz) (Hwf & Hgr & Hun & Ht & Hin). cbn [fst].
  assert (Hend : m_end g = m_end g0) by (unfold m_end; by rewrite (gr_buf _ _ Hgr), (gr_len _ _ Hgr)).
  unfold ph_round. rewrite Hend.
  destruct (Z.ltb_spec tmp (m_end g0)) as [Hlt|Hge]; cbn [andb].
  2: { apply wp_ret. split_and!; try done; [lia|lia|]. by left. }
  destruct (Z.eqb_spec (Z.land flags (m_parsed_flag g)) flags) as [Heq|Hne]; cbn [negb].
  { apply wp_ret. split_and!; try done; [lia|lia|]. by right; left. }
  destruct (a_field A _); cbn [negb]; [|by apply wp_ret].
  apply wp_bind. eapply wp_mono.
  { apply (get_hdr_field_wp m (m_end g0) z tmp); try done; lia. }
  intros [rest hf] Hf. cbn [field_post] in Hf.
  destruct Hf as [He|[[He ->]|[Hr Hf]]]; [rewrite He; by apply wp_ret|rewrite He|].
  - assert (tmp ≠ 0) by (destruct Hm; lia). apply wp_ret. split_and!; try done.
    + by apply eoh_wf.
    + etrans; [exact Hgr|]. split; done.
    + lia.
    + lia.
    + right; right. by eexists.
  - destruct Hf as [Hnm Hbo [Hty Hreg] Hpa [Hnx Hsb]].
    destruct (link_field_ok g hf (wf_hooks _ Hwf) (conj Hty Hreg) Hpa Hsb) as (g2 & Hl & Hlk).
    assert (Hgoal : wp (o ← link_field (length (m_fields g)) hf (set_fields (m_fields g ++ [hf]) g);
      match o with
      | None => mret (inr (None, g))
      | Some g3 => mret (inl (rest, add_header (length (m_fields g)) g3))
      end) (λ r, match r with
        | inl s' => ph_inv g0 s' ∧ Z.max 0 (m_end g0 - s'.1) < Z.max 0 (m_end g0 - tmp)
        | inr r => ph_result g0 r end)).
    { rewrite Hl. cbn [mbind res_bind]. apply wp_ret. split; [|cbn; lia].
      assert (Hfs : Forall2 same_field (m_fields g ++ [hf]) (m_fields (add_header (length (m_fields g)) g2))).
      { destruct Hlk as (_ & Hf2 & _). etrans; [eapply Forall2_impl; [exact Hf2|by intros ?? []]|].
        unfold add_header. destruct (m_last_header g2); [|reflexivity]. apply alter_same; [apply _|]. done. }
      split_and!.
      + by eapply add_header_wf.
      + etrans; [exact Hgr|]. destruct Hlk as (_ & _ & (_ & _ & Hb1 & Hb2 & Hb3 & _ & Hb4 & Hb5 & Hb6)).
        split.
        * intros u Hu. rewrite <- (positions_same _ _ _ Hfs), positions_snoc. by intros [? _]%app_eq_nil.
        * unfold add_header. destruct (m_last_header g2); cbn; by rewrite Hb3.
        * unfold add_header. destruct (m_last_header g2); cbn; by rewrite Hb1.
        * unfold add_header. destruct (m_last_header g2); cbn; by rewrite Hb2.
        * unfold add_header. destruct (m_last_header g2); cbn; by rewrite Hb4.
        * unfold add_header. by destruct (m_last_header g2).
      + destruct Hlk as (_ & _ & (_ & _ & _ & _ & _ & Hu & _)). rewrite <- Hun, <- Hu.
        unfold add_header. by destruct (m_last_header g2).
      + lia.
      + lia.
      + eapply fields_within_same; [exact Hfs|]. apply Forall_app. split; [done|].
        apply Forall_singleton. unfold field_within, within in *. unfold far in *. lia. }
    destruct (hdr_type hf); done.
Qed.

Lemma parse_headers_wp next g : msg_in g → msg_wf g →
  Forall (field_within (m_buf g) (far (m_end g) z)) (m_fields g) → 0 ≤ flags < 2 ^ 64 →
  wp (parse_headers A m flags next g) (λ '(r, g2), msg_wf g2 ∧ grows g g2 ∧
    Forall (field_within (m_buf g) (far (m_end g) z)) (m_fields g2) ∧
    m_unparsed g ≤ m_unparsed g2 ≤ Z.max (m_unparsed g) (far (m_end g) z) ∧
    (r = -1 ∨ r = 0 ∧ (m_end g ≤ m_unparsed g2 ∨ Z.land flags (m_parsed_flag g2) = flags))).
Proof.
  intros Hin Hwf Hfs Hfl. unfold parse_headers.
  set (g' := if next then set_flags (Z.ldiff (m_parsed_flag g) flags) g else g).
  assert (Hg' : msg_wf g' ∧ grows g g' ∧ m_fields g' = m_fields g ∧ m_end g' = m_end g ∧
    m_unparsed g' = m_unparsed g ∧ m_buf g' = m_buf g).
  { subst g'. destruct next; [|done]. split_and!; try done. apply set_flags_wf; [done|].
    intros u Hu H0 Hbit. rewrite Z.ldiff_spec in Hbit. apply andb_true_iff in Hbit as [Hbit _].
    by apply (hw_flags _ (wf_hooks _ Hwf)). }
  destruct Hg' as (Hwf' & Hgr & Hfs' & Hend & Hun & Hbu).
  assert (Hin' : msg_in g') by (unfold msg_in; by rewrite Hend, Hun, Hbu).
  assert (Hinv : ph_inv g' (m_unparsed g', g')).
  { split_and!; [done|reflexivity|done|lia|lia|]. by rewrite Hfs', Hend, Hbu. }
  apply wp_bind. eapply wp_mono.
  { apply (wp_loop _ (ph_inv g') (λ s, Z.max 0 (m_end g' - s.1)) (ph_result g')); [|exact Hinv|cbn; lia].
    intros s Hs. split; [lia|]. by apply ph_round_wp. }
  intros [[tmp|] g2] (Hwf2 & Hgr2 & Hfs2 & Ho); cbn [ph_result].
  - destruct Ho as (Ht & Hd). apply wp_ret. rewrite Hend, Hun, Hbu in *. split_and!.
    + by apply set_unparsed_wf.
    + etrans; [exact Hgr|]. by destruct Hgr2.
    + done.
    + cbn. lia.
    + cbn. lia.
    + right. split; [done|]. cbn. destruct Hd as [|[|[f Hf]]]; [by left|by right|right].
      rewrite Hf, Z.land_lor_distr_r. unfold all_flags.
      change (2 ^ 64 - 1) with (Z.ones 64). rewrite Z.land_ones, Z.mod_small by lia.
      apply Z.bits_inj'. intros n Hn. rewrite Z.lor_spec, Z.land_spec.
      destruct (Z.testbit flags n); [apply orb_true_r|done].
  - apply wp_ret. rewrite Hend, Hbu in Hfs2. rewrite Hun in Ho. destruct next.
    + assert (H : msg_wf (set_flags (Z.lor (m_parsed_flag g2) (m_parsed_flag g)) g2)).
      { apply set_flags_wf; [done|]. intros u Hu H0 Hbit.
        rewrite Z.lor_spec in Hbit. apply orb_true_iff in Hbit as [Hbit|Hbit].
        - by apply (hw_flags _ (wf_hooks _ Hwf2)).
        - destruct (hw_flags _ (wf_hooks _ Hwf) u Hu H0 Hbit) as [Hp|He].
          + left. apply (gr_fields _ _ Hgr2), (gr_fields _ _ Hgr), Hp.
          + right. apply (gr_eoh _ _ Hgr2), (gr_eoh _ _ Hgr), He. }
      split_and!; [done| |done|cbn; lia..|by left].
      etrans; [exact Hgr|]. by destruct Hgr2.
    + split_and!; [done| |done|lia..|by left]. by etrans.
Qed.
End headers.

(** The hook of a type is its first header. *)
Lemma hook_first g t : msg_wf g → t = HDR_VIA_T ∨ link_of t = Some LFirst →
  m_hook g t = head (positions t (m_fields g)).
Proof.
  intros [_ _ Hw] [->|Ht]; [|by apply Hw].
  pose proof (hw_sibling _ Hw HDR_VIA_T eq_refl) as Hc.
  destruct (positions HDR_VIA_T (m_fields g)); [done|by destruct Hc].
Qed.

Lemma set_parsed_uri_wf ok u g : msg_wf g → msg_wf (set_parsed_uri ok u g).
Proof. intros [Hl Hla [Hw1 Hw2 Hw3 Hw4 Hw5 Hw6]]. by repeat split. Qed.

(** ** The whole message *)
Lemma eat_crlf_wp m p n : mbase m ≤ p → p + Z.of_nat n < mlim m →
  wp (eat_crlf m p n) (λ q, p ≤ q ≤ p + Z.of_nat n).
Proof.
  revert p. induction n as [|n IH]; intros p Hb Hl; cbn [eat_crlf];
    (destruct (rd_valid m p) as [c ->]; [lia|]); cbn [mbind res_bind]; destruct (is_crlf c);
    try (apply wp_ret; lia).
  eapply wp_mono; [apply IH; lia|]. cbn beta. lia.
Qed.

(** What [parse_msg] leaves: a well-formed message whose headers lie between the
    beginning of the text and the end of what was read. *)
Definition msg_post (buf len z : Z) (x : Z * sip_msg) : Prop :=
  let '(r, g) := x in
  msg_wf g ∧ m_buf g = buf ∧ m_len g = len ∧
  Forall (field_within buf (far (buf + len) z)) (m_fields g) ∧ (m_new_uri g = None ∧ m_parsed_uri_ok g = false) ∧
  (r = -1 ∨ r = 0 ∧ fl_type (m_first_line g) ≠ SIP_INVALID ∧
   (∃ b nl, buf ≤ b ∧ fl_layout b (buf + len) nl (m_first_line g)) ∧
   (buf + len ≤ m_unparsed g ∨ Z.land all_flags (m_parsed_flag g) = all_flags)).

Lemma parse_msg_wp A m buf len z : mem_ok m → rd m z = Ok NUL →
  mbase m ≤ buf → 0 ≤ len → buf + len + 20 ≤ mlim m → buf + len ≤ z →
  wp (parse_msg A m buf len (new_msg buf len)) (msg_post buf len z).
Proof.
  intros Hm Hnul Hb Hl Hlim Hz. unfold parse_msg. wp_step.
  eapply wp_mono; [apply eat_crlf_wp; lia|]. cbn beta. intros tmp Ht. wp_step.
  eapply wp_mono; [apply (parse_first_line_wp m tmp (len - (tmp - buf)) Hm); lia|].
  intros [rest fl] [Hr Hfl]. cbn [fst snd] in *.
  set (g := set_line fl (new_msg buf len)).
  assert (Hwf : msg_wf g) by apply set_line_wf, new_msg_wf.
  destruct (Z.eqb_spec (fl_type fl) SIP_INVALID) as [He|He].
  { apply wp_ret. split_and!; [by apply set_unparsed_wf|done..|by left]. }
  destruct (_ || _); [|apply wp_ret; split_and!; try done; by left].
  destruct Hfl as [|[_ Hlay]]; [done|].
  wp_step. eapply wp_mono.
  { apply (parse_headers_wp A m _ z Hm Hnul false (set_unparsed rest g)).
    - unfold msg_in, m_end. cbn. lia.
    - by apply set_unparsed_wf.
    - done.
    - done. }
  intros [r g2] (Hwf2 & Hgr & Hfs & Hun & Hd). apply wp_ret.
  split; [done|]. split; [by rewrite (gr_buf _ _ Hgr)|]. split; [by rewrite (gr_len _ _ Hgr)|]. split; [done|].
  split; [by destruct (gr_uri _ _ Hgr) as [-> ->]|].
  destruct Hd as [->|[-> Hd]]; [by left|right]. rewrite (gr_line _ _ Hgr).
  replace (tmp + (len - (tmp - buf))) with (buf + len) in Hlay by lia.
  split_and!; [done|done| |].
  - exists tmp, rest. split; [lia|done].
  - destruct Hd as [Hd|Hd]; [by left|by right].
Qed.

(** ** The theorems *)


Definition two_vias : list Z :=
  chars "v: SIP/2.0/UDP a" ++ crlf ++ chars "m: <sip:a>" ++ crlf ++ chars "Via: SIP/2.0/UDP b" ++ crlf ++
  chars "Contact: <sip:b>" ++ crlf ++ crlf.


(** C10: with a NUL at or after the end of the message and 20 readable bytes behind
    it [parse_msg] terminates on every text, stays inside of the block, and leaves a
    well-formed message, whose headers lie between the beginning of the text and
    the NUL (or two characters behind the end).  An accepted message has the three
    tokens of its first line in order, and the end of its headers was met, or the
    end of the text. *)
Theorem parse_msg_safe A m buf len z : mem_ok m → rd m z = Ok NUL →
  mbase m ≤ buf → 0 ≤ len → buf + len + 20 ≤ mlim m → buf + len ≤ z →
  wp (parse_msg A m buf len (new_msg buf len)) (msg_post buf len z).
Proof. apply parse_msg_wp. Qed.

Definition short_request : list Z :=
  chars "OPTIONS sip:a SIP/2.0" ++ crlf ++ two_vias.

Lemma parse_msg_safe_witness :
  wp (parse_msg all_allocs (block (short_request ++ replicate 24 0)) 4096 (len short_request)
      (new_msg 4096 (len short_request)))
    (msg_post 4096 (len short_request) (4096 + len short_request)).
Proof. apply parse_msg_safe; [by apply mem_okb_ok|by vm_compute..]. Defined.
