(* ===== verification/MsgText.v ===== *)
(** * Messages: every well-formed header field, and every well-formed message, is
    parsed into its parts *)

From stdpp Require Import strings.
From S2P Require Import ParserF CSeq ContentLength.
From S2P Require Import FirstLine.
From S2P Require Import HNameTree HNameTheorems.
From S2P Require ViaMain.
From S2P Require ViaGrammar.
From S2P Require Import ToGrammar.
From S2P Require Export MsgHeaders.
Import Msg.

(** ** The grammar of header fields *)

(** The bodies, with their end of line; a body of lines goes on in a line that
    begins with a blank. *)
Inductive body_text :=
| BVia (t : ViaMain.via_text) (cr : bool)
| BCSeq (num sp meth sp2 : list Z) (cr : bool)
| BTo (t : to_text) (cr : bool)
| BLength (ds sp : list Z) (cr : bool)
| BLines (first : list Z) (conts : list (bool * list Z)) (cr : bool).

Definition body_chars (b : body_text) : list Z :=
  match b with
  | BVia t cr => ViaMain.via_chars t ++ eol cr
  | BCSeq num sp meth sp2 cr => num ++ sp ++ meth ++ sp2 ++ eol cr
  | BTo t cr => to_chars t ++ eol cr
  | BLength ds sp cr => ds ++ sp ++ eol cr
  | BLines first conts cr => first ++ flat_map (λ x, eol x.1 ++ x.2) conts ++ eol cr
  end.

Record header_text := HeaderText {
  ht_name : list Z;
  ht_ws : list Z;
  ht_sp : list Z;
  ht_body : body_text;
}.

Definition header_chars (h : header_text) : list Z :=
  ht_name h ++ ht_ws h ++ 58 :: ht_sp h ++ body_chars (ht_body h).

Definition no_lf (l : list Z) : Prop := Forall (λ c, c ≠ LF) l.

(** The body suits the type of the name. *)
Definition body_for (t : hdr_types_t) (b : body_text) : Prop :=
  match b with
  | BVia vt _ => t = HDR_VIA_T ∧ ViaMain.text_ok vt
  | BCSeq num sp meth sp2 _ => t = HDR_CSEQ_T ∧ Forall (λ c, solid c = true) num ∧ spaces sp ∧ sp ≠ [] ∧
      Methods.is_token meth ∧ spaces sp2
  | BTo tx _ => t = HDR_TO_T ∧ to_text_ok tx = true
  | BLength ds sp _ => t = HDR_CONTENTLENGTH_T ∧ digits ds ∧ ds ≠ [] ∧ decimal ds < 2 ^ 31 ∧ spaces sp
  | BLines first conts _ =>
      (t ≠ HDR_VIA_T ∧ t ≠ HDR_CSEQ_T ∧ t ≠ HDR_TO_T ∧ t ≠ HDR_CONTENTLENGTH_T) ∧
      no_lf first ∧ Forall (λ x, no_lf x.2 ∧ match x.2 with c :: _ => is_sp c = true | [] => False end) conts
  end.

(** What may follow a header, and so begin the next one. *)
Definition begins_header (l : list Z) : Prop :=
  match l with c :: _ => ends_line c = true | [] => False end.

Record header_ok (h : header_text) : Prop := {
  hk_name : forallb name_char (ht_name h) = true;
  hk_begin : begins_header (ht_name h);
  hk_ws : spaces (ht_ws h) ∧ head_is (λ c, c =? SPC) (ht_ws h);
  hk_known : misread (ht_name h) (ht_ws h) = false;
  hk_sp : spaces (ht_sp h);
  hk_first : match body_chars (ht_body h) with
             | c :: _ => is_blank c = false ∧ c ≠ NUL | [] => False end;
  hk_body : body_for (hname_type (ht_name h)) (ht_body h);
}.

(** ** The field that a text stands for *)

(** [trim_r] on characters. *)
Fixpoint rtrim (l : list Z) : list Z :=
  match l with
  | [] => []
  | c :: l =>
      match rtrim l with
      | [] => if (c =? 0) || (c =? CR) || (c =? LF) then [] else [c]
      | l => c :: l
      end
  end.

(** Where the body of a header at [p] begins. *)
Definition body_pos (p : Z) (h : header_text) : Z :=
  p + len (ht_name h) + len (ht_ws h) + 1 + len (ht_sp h).

Definition body_parsed (name : str) (b : Z) (t : body_text) (p : option parsed) : Prop :=
  match t with
  | BVia vt cr => ∃ vb, p = Some (PVia name [vb]) ∧ ViaGrammar.via_parsed b (len (eol cr)) vt vb
  | BCSeq num sp meth sp2 cr => p = Some (PCSeq (cseq_parsed b num sp meth sp2 cr).2)
  | BTo tx cr => p = Some (PTo (to_body_at b (len (eol cr)) tx))
  | BLength ds _ _ => p = Some (PLength (decimal ds))
  | BLines _ _ _ => p = None
  end.

(** All members but the links. *)
Record field_parsed (p : Z) (h : header_text) (f : field) : Prop := {
  fp_type : hdr_type f = hname_type (ht_name h);
  fp_name : hdr_name f = Str p (len (ht_name h));
  fp_body : hdr_body f = Str (body_pos p h) (len (rtrim (body_chars (ht_body h))));
  fp_len : hdr_len f = len (header_chars h);
  fp_parsed : body_parsed (hdr_name f) (body_pos p h) (ht_body h) (hdr_parsed f);
}.

(** ** Lemmas *)
Lemma rtrim_snoc l c : rtrim (l ++ [c]) =
  if (c =? 0) || (c =? CR) || (c =? LF) then rtrim l else l ++ [c].
Proof.
  induction l as [|a l IH]; cbn [app rtrim]; [by destruct (_ || _)|].
  rewrite IH. destruct ((c =? 0) || (c =? CR) || (c =? LF)); [done|].
  destruct (l ++ [c]) eqn:E; [by apply app_eq_nil in E as [_ ?]|done].
Qed.

Lemma rtrim_length l : (length (rtrim l) ≤ length l)%nat.
Proof.
  induction l as [|c l IH]; [done|]. cbn [rtrim]. destruct (rtrim l) as [|d k]; [|cbn in *; lia].
  destruct (_ || _); cbn; lia.
Qed.

Lemma trim_r_at m s l : mbase m ≤ s → bytes_at m s l → trim_r m (Str s (len l)) = Ok (Str s (len (rtrim l))).
Proof.
  intros Hb Hat. unfold trim_r. cbn [str_s str_len].
  assert (Hf : len l < Z.of_nat (S (Z.to_nat (s + len l - mbase m)))) by (pose proof (len_nonneg l); lia).
  revert Hf. generalize (S (Z.to_nat (s + len l - mbase m))). intros fuel.
  revert fuel. induction l as [|c l IH] using rev_ind; intros fuel Hf.
  { destruct fuel as [|fuel]; [unfold len in Hf; cbn in Hf; lia|done]. }
  apply bytes_at_app in Hat as [Hat [Hc _]]. rewrite len_app in *. change (len [c]) with 1 in *.
  pose proof (len_nonneg l). destruct fuel as [|fuel]; [lia|]. cbn [trim_r_loop].
  destruct (Z.eqb_spec (len l + 1) 0); [lia|].
  replace (s + (len l + 1) - 1) with (s + len l) by lia. change (Z.of_nat (length l)) with (len l) in Hc.
  rewrite Hc. cbn [mbind res_bind]. rewrite rtrim_snoc.
  destruct ((c =? 0) || (c =? CR) || (c =? LF)).
  - replace (len l + 1 - 1) with (len l) by lia. apply IH; [done|lia].
  - by rewrite len_app.
Qed.

Lemma q_memchr_at m p l size : no_lf l → bytes_at m p (l ++ [LF]) → len l < size →
  q_memchr m p LF size = Ok (Some (p + len l)).
Proof.
  intros Hl Hat Hs. apply bytes_at_app in Hat as [Hat [Hc _]].
  change (Z.of_nat (length l)) with (len l) in Hc. pose proof (len_nonneg l).
  unfold q_memchr. rewrite (scan_at _ m p _ l); [|done| |unfold len in *; lia|].
  - cbn. change (Z.of_nat (length l)) with (len l). destruct (Z.ltb_spec (p + len l) (p + size)); [done|lia].
  - eapply Forall_impl; [exact Hl|]. intros c Hne. by apply Z.eqb_neq.
  - intros _. exists LF. done.
Qed.

Section field.
Context (m : mem) (pend : Z) (Hm : mem_ok m).

(** A line and what follows. *)
Lemma skip_step_line tmp l cr c : no_lf l → bytes_at m tmp (l ++ eol cr ++ [c]) →
  tmp + len l + len (eol cr) < pend →
  skip_step m pend tmp = Ok (let r := tmp + len l + len (eol cr) in if is_sp c then inl r else inr (Some r)).
Proof.
  intros Hl Hat Hle. unfold skip_step. set (l' := if cr then l ++ [CR] else l).
  assert (Hl' : no_lf l' ∧ l ++ eol cr = l' ++ [LF] ∧ len l' + 1 = len l + len (eol cr)).
  { subst l'. unfold no_lf. destruct cr; cbn [eol]; [|done]. split_and!.
    - apply Forall_app. split; [done|]. by apply Forall_singleton.
    - by rewrite <- app_assoc.
    - rewrite len_app. change (len [CR]) with 1. change (len [CR; LF]) with 2. lia. }
  destruct Hl' as (Hn & E & Hlen). rewrite app_assoc, E, <- app_assoc in Hat.
  apply bytes_at_app in Hat as Hat2. destruct Hat2 as [_ [_ [Hc _]]].
  rewrite app_assoc in Hat. apply bytes_at_app in Hat as [Hat _].
  rewrite (q_memchr_at _ _ l') by (done || lia). cbn [mbind res_bind].
  replace (tmp + len l' + 1) with (tmp + len l + len (eol cr)) by lia.
  destruct (Z.ltb_spec (tmp + len l + len (eol cr)) pend); [|lia].
  replace (tmp + Z.of_nat (length l') + 1) with (tmp + len l + len (eol cr)) in Hc by (unfold len in *; lia).
  rewrite Hc. cbn [mbind res_bind]. by destruct (is_sp c).
Qed.

Lemma skip_body_lines tmp first conts cr c : no_lf first →
  Forall (λ x, no_lf x.2 ∧ match x.2 with c :: _ => is_sp c = true | [] => False end) conts →
  bytes_at m tmp (body_chars (BLines first conts cr) ++ [c]) → is_sp c = false →
  tmp + len (body_chars (BLines first conts cr)) < pend →
  skip_body m pend tmp = Ok (Some (tmp + len (body_chars (BLines first conts cr)))).
Proof.
  intros Hf Hconts Hat Hc Hle. unfold skip_body.
  enough (Hl : lands (skip_step m pend) (λ s, Z.max 0 (pend - s)) tmp
    (Some (tmp + len (body_chars (BLines first conts cr))))) by (apply Hl; lia).
  revert tmp first Hf Hat Hle. induction Hconts as [|[cr' l] conts [Hl Hsp] _ IH]; intros tmp first Hf Hat Hle;
    cbn [body_chars flat_map app] in *.
  - rewrite <- app_assoc in Hat. rewrite len_app in *. apply lands_done; [|lia].
    rewrite (skip_step_line tmp first cr c Hf Hat) by lia. rewrite Hc. do 2 f_equal. cbn. f_equal. lia.
  - rewrite <- !app_assoc in *. cbn [fst snd] in *. destruct l as [|d l]; [done|].
    assert (0 < len (eol cr')) by (by destruct cr'). pose proof (len_nonneg first).
    assert (Hat' : bytes_at m tmp (first ++ eol cr' ++ [d])).
    { rewrite app_assoc in Hat |- *. eapply bytes_at_upto. exact Hat. }
    rewrite len_app, (len_app (eol cr')) in *.
    pose proof (len_nonneg ((d :: l) ++ flat_map (λ x, eol x.1 ++ x.2) conts ++ eol cr)).
    set (q := tmp + len first + len (eol cr')).
    eapply lands_next with (s' := q); [|lia|subst q; lia|].
    { rewrite (skip_step_line tmp first cr' d Hf Hat') by lia. by rewrite Hsp. }
    assert (Hrest : bytes_at m q ((d :: l) ++ (flat_map (λ x, eol x.1 ++ x.2) conts ++ eol cr) ++ [c])).
    { rewrite app_assoc in Hat. apply bytes_at_from in Hat. rewrite len_app in Hat.
      rewrite Z.add_assoc in Hat. fold q in Hat. by rewrite <- app_assoc. }
    specialize (IH q (d :: l) Hl).
    replace (tmp + (len first + (len (eol cr') + len ((d :: l) ++ flat_map (λ x, eol x.1 ++ x.2) conts ++ eol cr))))
      with (q + len ((d :: l) ++ flat_map (λ x, eol x.1 ++ x.2) conts ++ eol cr)) by (subst q; lia).
    apply IH; [|subst q; lia]. by rewrite <- app_assoc.
Qed.
End field.

(** ** [get_hdr_field] on a header *)
(** The types of names are types of headers; those without a parser of their own
    are skipped. *)
Lemma hname_type_regular n : hname_type n ≠ HDR_ERROR_T ∧ regular (hname_type n) = true.
Proof.
  unfold hname_type, hname_lookup. destruct (find _ hname_table) as [e|] eqn:E; [|done].
  apply find_some in E as [He _]. cbn.
  assert (H : forallb (λ e, negb (bool_decide (snd e = HDR_ERROR_T)) && regular (snd e)) hname_table = true)
    by (by vm_compute).
  rewrite forallb_forall in H. specialize (H e He). apply andb_true_iff in H as [H1 H2].
  by apply negb_true_iff, bool_decide_eq_false in H1.
Qed.

Lemma parse_field_lines m pend alloc pal tmp h0 :
  (hdr_type h0 ≠ HDR_ERROR_T ∧ regular (hdr_type h0) = true) ∧
  hdr_type h0 ≠ HDR_VIA_T ∧ hdr_type h0 ≠ HDR_CSEQ_T ∧ hdr_type h0 ≠ HDR_TO_T ∧
  hdr_type h0 ≠ HDR_CONTENTLENGTH_T →
  parse_field m pend alloc pal tmp h0 = skip_field m pend tmp h0.
Proof.
  unfold parse_field. destruct (hdr_type h0); intros ((? & Hr) & ? & ? & ? & ?); (reflexivity || done).
Qed.

Lemma body_last b : last (body_chars b) = Some LF.
Proof.
  assert (He : ∀ l cr, last (l ++ eol cr) = Some LF) by (intros l cr; rewrite last_app; by destruct cr).
  destruct b; cbn [body_chars]; rewrite ?app_assoc; apply He.
Qed.

Section header.
Context (m : mem) (p pend : Z) (h : header_text) (c : Z) (rest : list Z).
Hypothesis Hm : mem_ok m.
Hypothesis Hok : header_ok h.
Hypothesis Hat : bytes_at m p (header_chars h ++ c :: rest).
Hypothesis Hend : pend = p + len (header_chars h ++ c :: rest).
Hypothesis Hc : ends_line c = true.

Let b := body_pos p h.
Let bd := body_chars (ht_body h).

Lemma begin_at : mbase m ≤ p ∧ 0 < p.
Proof.
  destruct Hm as [H0 _ _]. destruct Hok as [_ Hb _ _ _ _ _]. unfold header_chars in Hat.
  destruct (ht_name h) as [|d n]; [done|]. destruct Hat as [Hd _]. apply rd_Ok in Hd. lia.
Qed.

Lemma pend_bound : len (header_chars h ++ c :: rest) < 2 ^ 31.
Proof. by eapply bytes_at_size. Qed.

Lemma header_len : len (header_chars h) = b - p + len bd ∧ p < b.
Proof.
  unfold header_chars, b, body_pos, bd. rewrite !len_app, len_cons, len_app.
  pose proof (len_nonneg (ht_name h)). pose proof (len_nonneg (ht_ws h)). pose proof (len_nonneg (ht_sp h)). lia.
Qed.

Lemma body_at : bytes_at m b (bd ++ c :: rest).
Proof.
  unfold header_chars in Hat. rewrite <- !app_assoc in Hat. cbn [app] in Hat. rewrite <- app_assoc in Hat.
  do 2 apply bytes_at_from in Hat. destruct Hat as [_ Hat']. apply bytes_at_from in Hat'.
  unfold b, body_pos. exact Hat'.
Qed.

Lemma end_eq : pend = b + len (bd ++ c :: rest).
Proof. pose proof header_len as [Hl _]. rewrite Hend, !len_app, Hl. lia. Qed.

Lemma next_not_sp : is_sp c = false ∧ (c =? NUL) = false.
Proof.
  unfold ends_line in Hc. rewrite negb_true_iff, !orb_false_iff in Hc. by destruct Hc as [[[-> ->] _] _].
Qed.

(** The common end. *)
Lemma hdr_done_at h0 pa : hdr_name h0 = Str p (len (ht_name h)) → hdr_type h0 = hname_type (ht_name h) →
  hdr_parsed h0 = pa → body_parsed (hdr_name h0) b (ht_body h) pa → hdr_next h0 = None → hdr_sibling h0 = None →
  hdr_body h0 = slice b (p + len (header_chars h)) →
  ∃ f, hdr_done m (p + len (header_chars h)) h0 = Ok (p + len (header_chars h), f) ∧ field_parsed p h f ∧
    hdr_next f = None ∧ hdr_sibling f = None.
Proof.
  intros Hn Ht Hp Hpar Hnx Hs Hb. pose proof header_len as [Hl Hlt]. pose proof begin_at. pose proof pend_bound as Hpb.
  rewrite len_app in Hpb. pose proof (len_nonneg (c :: rest)). pose proof (len_nonneg bd).
  pose proof body_at as Hba. apply bytes_at_first in Hba.
  unfold hdr_done. rewrite Hb, (slice_len b bd) by lia.
  rewrite (trim_r_at m b bd) by (done || lia). cbn [mbind res_bind]. eexists. split; [done|].
  rewrite Hn. cbn [str_s]. split_and!; [|done|done]. split; cbn; try done.
  - rewrite to_int_small by lia. lia.
  - by rewrite Hp.
Qed.

Lemma parse_field_at h0 : hdr_name h0 = Str p (len (ht_name h)) → hdr_type h0 = hname_type (ht_name h) →
  hdr_parsed h0 = None → hdr_next h0 = None → hdr_sibling h0 = None →
  ∃ f, parse_field m pend true (λ _, true) b h0 = Ok (p + len (header_chars h), f) ∧ field_parsed p h f ∧
    hdr_next f = None ∧ hdr_sibling f = None.
Proof.
  intros Hn Ht Hp Hnx Hs. pose proof header_len as [Hl Hlt]. pose proof begin_at as [Hb0 Hp0].
  pose proof pend_bound as Hpb. rewrite len_app, len_cons in Hpb. pose proof (len_nonneg rest).
  pose proof body_at as Hba. pose proof end_eq as Hpe. pose proof next_not_sp as [Hcs Hcn].
  pose proof (hk_body _ Hok) as Hfor. rewrite <- Ht in Hfor. unfold bd in *.
  assert (Hend' : p + len (header_chars h) = b + len (body_chars (ht_body h))) by lia.
  assert (Hb1 : bytes_at m b (body_chars (ht_body h) ++ [c])).
  { eapply bytes_at_upto. exact Hba. }
  pose proof (λ h1 pa Hn1 Ht1 Hp1 Hpar1 Hx1 Hs1 Hbo1, hdr_done_at h1 pa Hn1 Ht1 Hp1 Hpar1 Hx1 Hs1 Hbo1) as Hdone.
  pose proof (len_nonneg (body_chars (ht_body h))).
  assert (Hpl : pend = b + len (body_chars (ht_body h)) + (1 + len rest)) by (rewrite Hpe, len_app, len_cons; lia).
  assert (Hsz : 0 < b ∧ len (body_chars (ht_body h)) + 1 + len rest < 2 ^ 31) by lia.
  rewrite Hend' in Hdone |- *.
  destruct (ht_body h) as [vt cr|num sp meth sp2 cr|tx cr|ds sp cr|first conts cr] eqn:E; cbn [body_for] in Hfor.
  - destruct Hfor as [Hty Hvt]. unfold parse_field. rewrite Hty. unfold via_field. cbn [negb]. cbn [body_chars] in *.
    destruct (ViaGrammar.parse_via_at (λ _, true) m pend b vt cr c) as (vb & Hv & Hvp);
      [done|done|apply Hsz|by rewrite <- app_assoc in Hb1|done|done| |lia|].
    { lia. }
    rewrite Hv. cbn [mbind res_bind hd]. rewrite (ViaGrammar.vp_ok _ _ _ _ Hvp). cbn [Z.eqb].
    apply (Hdone _ (Some (PVia (hdr_name h0) [vb]))); try done. by exists vb.
  - destruct Hfor as (Hty & Hnum & Hsp & Hspn & Hmeth & Hsp2). unfold parse_field. rewrite Hty. unfold cseq_field. cbn [negb].
    cbn [body_chars] in *.
    assert (Hcf : (num ++ sp ++ meth ++ sp2 ++ eol cr) ++ c :: rest =
      CSeq.cseq_field num sp meth sp2 cr (c :: rest)) by (unfold CSeq.cseq_field; by rewrite <- !app_assoc).
    assert (Hlf : len (CSeq.cseq_field num sp meth sp2 cr (c :: rest)) < 2 ^ 31)
      by (rewrite <- Hcf, len_app, len_cons; lia).
    rewrite Hcf in Hba, Hpe. pose proof (parse_cseq_at m b (CseqBody 0 null_str null_str 0) num sp meth sp2 cr
      (c :: rest) ltac:(by split) ltac:(lia) Hba Hlf) as Hcs'.
    change (Z.of_nat (length (CSeq.cseq_field num sp meth sp2 cr (c :: rest)))) with
      (len (CSeq.cseq_field num sp meth sp2 cr (c :: rest))) in Hcs'.
    rewrite <- Hpe in Hcs'. rewrite Hcs'.
    unfold cseq_parsed. cbn [mbind res_bind]. cbn [cseq_error]. cbn [Z.eqb].
    replace (b + Z.of_nat (length num) + Z.of_nat (length sp) + Z.of_nat (length meth) +
      Z.of_nat (length sp2) + Z.of_nat (length (eol cr))) with
      (b + len (num ++ sp ++ meth ++ sp2 ++ eol cr)) by (rewrite !len_app; unfold len; lia).
    apply (Hdone _ (Some (PCSeq (cseq_parsed b num sp meth sp2 cr).2))); done.
  - destruct Hfor as (Hty & Htx). unfold parse_field. rewrite Hty. unfold to_field. cbn [negb]. cbn [body_chars] in *.
    unfold To.parse_to. change (To._parse_to (λ p : Z, true)) with (To._parse_to To.always).
    rewrite (parse_to_at m b pend false tx cr c);
      [|done|by rewrite <- app_assoc in Hb1|done| |lia].
    2: { rewrite len_app in Hpl. lia. }
    cbn [mbind res_bind hd]. cbn [To.tb_error to_body_at].
    replace (b + len (to_chars tx) + len (eol cr)) with (b + len (to_chars tx ++ eol cr)) by (rewrite len_app; lia).
    apply (Hdone _ (Some (PTo (to_body_at b (len (eol cr)) tx)))); done.
  - destruct Hfor as (Hty & Hds & Hdn & Hdec & Hsp). unfold parse_field. rewrite Hty. unfold length_field. cbn [body_chars] in *.
    assert (Hcf : (ds ++ sp ++ eol cr) ++ c :: rest = cl_field [] ds sp cr (c :: rest))
      by (unfold cl_field; by rewrite <- !app_assoc).
    rewrite Hcf in Hba, Hpe. pose proof (parse_content_length_at m b [] ds sp cr (c :: rest)
      ltac:(by constructor) Hds Hdn Hdec Hsp ltac:(cbn; by rewrite Hcs) ltac:(done) Hba) as Hcl.
    change (Z.of_nat (length (cl_field [] ds sp cr (c :: rest)))) with
      (len (cl_field [] ds sp cr (c :: rest))) in Hcl.
    rewrite <- Hpe in Hcl. rewrite Hcl.
    cbn [mbind res_bind].
    replace (b + Z.of_nat (length []) + Z.of_nat (length ds) + Z.of_nat (length sp) + Z.of_nat (length (eol cr)))
      with (b + len (ds ++ sp ++ eol cr)) by (rewrite !len_app; unfold len; cbn; lia).
    apply (Hdone _ (Some (PLength (decimal ds)))); done.
  - destruct Hfor as (Hty & Hf & Hconts).
    rewrite parse_field_lines by (rewrite Ht; split; [apply hname_type_regular|by rewrite <- Ht]).
    unfold skip_field. rewrite (skip_body_lines m pend b first conts cr c) by (done || lia).
    cbn [mbind res_bind]. by apply (Hdone _ None).
Qed.

Lemma get_hdr_field_at : ∃ f,
  get_hdr_field m pend true (λ _, true) p new_field = Ok (p + len (header_chars h), f) ∧ field_parsed p h f ∧
    hdr_next f = None ∧ hdr_sibling f = None.
Proof.
  pose proof pend_bound as Hpb. pose proof header_len as [Hl Hlt]. pose proof end_eq as Hpe.
  destruct Hok as [Hn Hbg [Hws Hhd] Hmis Hsp Hfst _]. fold bd in Hfst.
  set (tl := ht_sp h ++ bd ++ c :: rest).
  assert (Htext : header_chars h ++ c :: rest = ht_name h ++ ht_ws h ++ 58 :: tl).
  { unfold header_chars, tl. rewrite <- !app_assoc. cbn [app]. by rewrite <- app_assoc. }
  assert (Hbd : ∃ d k, bd = d :: k ∧ is_blank d = false ∧ d ≠ NUL).
  { destruct bd as [|d k]; [done|]. exists d, k. split; [done|exact Hfst]. }
  destruct Hbd as (d & k & Hbd & Hdb & Hdn).
  assert (Hk : k ≠ []).
  { intros ->. pose proof (body_last (ht_body h)) as Hla. fold bd in Hla. rewrite Hbd in Hla.
    by injection Hla as ->. }
  assert (Htl : (3 ≤ length tl)%nat).
  { unfold tl. rewrite Hbd, !length_app. destruct k; [done|]. cbn. lia. }
  assert (Hnul : head_is (λ c, negb (c =? NUL)) tl).
  { unfold tl. rewrite Hbd. destruct (ht_sp h) as [|a sp]; cbn.
    - by apply negb_true_iff, Z.eqb_neq.
    - apply Forall_cons in Hsp as [Ha _]. destruct (Z.eqb_spec a NUL) as [->|]; done. }
  assert (Hend' : pend = p + len (ht_name h ++ ht_ws h ++ 58 :: tl)) by (by rewrite <- Htext).
  pose proof Hat as Hat'. rewrite Htext in Hat'.
  destruct (parse_hname2_at m p (ht_name h) (ht_ws h) tl new_field Hm Hat' Hn Hws Hhd Htl Hnul Hmis)
    as (k' & Hr & Hk'). rewrite <- Hend' in Hr.
  set (q := p + len (ht_name h) + len (ht_ws h) + 1) in *.
  (* the blanks behind the colon, but for one that may have been read *)
  assert (Hbk : is_sp d = false ∧ is_crlf d = false) by (unfold is_blank in Hdb; by apply orb_false_iff in Hdb).
  assert (Hqt : bytes_at m q tl ∧ pend = q + len tl).
  { unfold q. split.
    - do 2 apply bytes_at_from in Hat'. by destruct Hat' as [_ Hat'].
    - rewrite Hend', !len_app, len_cons. lia. }
  destruct Hqt as [Hqt Hqe].
  assert (Hlws : eat_lws_end m (q + k') pend = Ok b).
  { assert (Hrun : ∀ x sp, bytes_at m x (sp ++ bd ++ c :: rest) → pend = x + len (sp ++ bd ++ c :: rest) →
      spaces sp → eat_lws_end m x pend = Ok (x + len sp)).
    { intros x sp Hx Hxe Hxs. apply (eat_lws_run m x pend sp (bd ++ c :: rest)); [done|done|done|].
      rewrite Hbd. cbn. destruct Hbk as [H1 H2]. unfold is_crlf in H2. apply orb_false_iff in H2 as [H2 H3].
      assert (d ≠ 10 ∧ d ≠ 13) by (by apply Z.eqb_neq in H2; apply Z.eqb_neq in H3).
      repeat case_match; (done || lia). }
    assert (Hb : b = q + len (ht_sp h)) by (unfold b, body_pos; fold q; lia).
    destruct Hk' as [->|(-> & Hsp1 & Hws0)].
    - rewrite Z.add_0_r, Hb. by apply Hrun.
    - unfold tl in Hqt, Hqe, Hsp1. destruct (ht_sp h) as [|a sp].
      + rewrite Hbd in Hsp1. cbn in Hsp1. apply Z.eqb_eq in Hsp1 as ->. by destruct Hbk.
      + apply Forall_cons in Hsp as [_ Hsp]. destruct Hqt as [_ Hqt]. rewrite Hb, len_cons.
        replace (q + (1 + len sp)) with (q + 1 + len sp) by lia. apply Hrun; [done| |done].
        rewrite Hqe. cbn [app]. rewrite len_cons. lia. }
  unfold get_hdr_field. destruct (ht_name h) as [|n0 n'] eqn:En; [done|].
  assert (Hn0 : rd m p = Ok n0) by (by destruct Hat' as [? _]).
  rewrite Hn0. cbn [mbind res_bind].
  assert (Hn1 : is_crlf n0 = false).
  { cbn in Hn. apply andb_true_iff in Hn as [Hn _]. unfold name_char in Hn.
    rewrite !andb_true_iff, !Z.leb_le in Hn. unfold is_crlf. apply orb_false_iff. split; apply Z.eqb_neq; unfold CR, LF; lia. }
  rewrite Hn1, Hr. cbn [mbind res_bind].
  pose proof (hname_type_regular (n0 :: n')) as [Ht1 Ht2].
  rewrite bool_decide_eq_false_2 by done. rewrite Hlws. cbn [mbind res_bind].
  pose proof (len_nonneg rest). rewrite Hpe, len_app, len_cons. pose proof (len_nonneg bd).
  destruct (Z.leb_spec (b + (len bd + (1 + len rest))) b); [lia|].
  rewrite <- (len_cons c rest), <- len_app, <- Hpe.
  apply parse_field_at; by rewrite ?En.
Qed.
End header.
