(* ===== verification/MsgRun.v ===== *)
(** * Messages: the headers of a well-formed message one after the other *)

From stdpp Require Import strings.
From S2P Require Import ParserF.
From S2P Require Import FirstLine.
From S2P Require Import HNameTree HNameTheorems.
From S2P Require Import ToGrammar.
From S2P Require Export MsgText.
Import Msg.

Definition headers_chars (hs : list header_text) : list Z := flat_map header_chars hs.

(** The fields of headers that follow each other from [p] on. *)
Fixpoint fields_parsed (p : Z) (hs : list header_text) (fs : list field) : Prop :=
  match hs, fs with
  | [], [] => True
  | h :: hs, f :: fs => field_parsed p h f ∧ fields_parsed (p + len (header_chars h)) hs fs
  | _, _ => False
  end.

Lemma field_parsed_same p h a b : same_field a b → field_parsed p h a → field_parsed p h b.
Proof.
  intros (Ht & Hn & Hb & Hp & Hl) [H1 H2 H3 H4 H5]. split; [congruence|congruence|congruence|congruence|].
  by rewrite <- Hn, <- Hp.
Qed.

Lemma fields_parsed_same p hs fs fs' : Forall2 same_field fs fs' →
  fields_parsed p hs fs → fields_parsed p hs fs'.
Proof.
  intros HF. revert p hs. induction HF as [|a b l l' Hab _ IH]; intros p [|h hs]; cbn; try done.
  intros [H1 H2]. split; [by eapply field_parsed_same|auto].
Qed.

Lemma field_parsed_wf p h f : header_ok h → field_parsed p h f →
  (hdr_type f ≠ HDR_ERROR_T ∧ regular (hdr_type f) = true) ∧ parsed_for (hdr_type f) (hdr_parsed f).
Proof.
  intros Hok [Ht Hn _ _ Hp]. split; [rewrite Ht; apply hname_type_regular|].
  pose proof (hk_body _ Hok) as Hb. rewrite <- Ht in Hb.
  destruct (ht_body h); cbn in Hb, Hp.
  - destruct Hb as [-> _]. by destruct Hp as (vb & -> & _).
  - destruct Hb as [-> _]. by rewrite Hp.
  - destruct Hb as [-> _]. by rewrite Hp.
  - destruct Hb as [-> _]. by rewrite Hp.
  - rewrite Hp. destruct Hb as [(? & ? & ? & ?) _]. by destruct (hdr_type f).
Qed.

Lemma header_begins h : header_ok h → ∃ c l, header_chars h = c :: l ∧ ends_line c = true ∧ is_crlf c = false ∧
  0 < len (header_chars h).
Proof.
  intros [Hn Hb _ _ _ _ _]. unfold header_chars. destruct (ht_name h) as [|c n]; [done|].
  exists c, (n ++ ht_ws h ++ 58 :: ht_sp h ++ body_chars (ht_body h)). split_and!; [done|exact Hb| |].
  - cbn in Hn. apply andb_true_iff in Hn as [Hn _]. unfold name_char in Hn.
    rewrite !andb_true_iff, !Z.leb_le in Hn. unfold is_crlf. apply orb_false_iff.
    split; apply Z.eqb_neq; unfold CR, LF; lia.
  - cbn [app]. rewrite len_cons.
    pose proof (len_nonneg (n ++ ht_ws h ++ 58 :: ht_sp h ++ body_chars (ht_body h))). lia.
Qed.

Section run.
Context (m : mem) (Hm : mem_ok m).

Abbreviation round := (ph_round all_allocs m all_flags).

(** The end of the headers was not met yet. *)
Definition open_flags (g : sip_msg) : Prop := Z.testbit (m_parsed_flag g) 63 = false.

Lemma open_flags_go g : open_flags g → (Z.land all_flags (m_parsed_flag g) =? all_flags) = false.
Proof.
  intros H. apply Z.eqb_neq. intros E. apply (f_equal (λ x, Z.testbit x 63)) in E.
  rewrite Z.land_spec in E. unfold open_flags in H. by rewrite H, andb_false_r in E.
Qed.

(** Linking sets no more than a flag of a type. *)
Lemma link_field_open i h g g2 : regular (hdr_type h) = true → hdr_type h ≠ HDR_ERROR_T →
  open_flags g → link_field i h g = Ok (Some g2) → open_flags g2.
Proof.
  intros Hr Hne Ho. unfold open_flags in *.
  assert (Hlor : ∀ f t, regular t = true ∨ t = HDR_VIA2_T → 0 ≤ hdr_num t → Z.testbit f 63 = false →
    Z.testbit (Z.lor f (HDR_T2F t)) 63 = false).
  { intros f t Ht H0 Hf. rewrite Z.lor_spec, Hf. cbn [orb].
    rewrite T2F_bit; [|lia|done|by intros ->; destruct Ht]. apply Z.eqb_neq.
    pose proof (hdr_num_range t). by destruct t. }
  assert (Hsib : ∀ t i g g', link_sibling_hdr t i g = Ok g' → m_parsed_flag g' = m_parsed_flag g).
  { intros t j g0 g'. unfold link_sibling_hdr. destruct (m_hook g0 t); [|by intros [= <-]].
    destruct (last_sibling _ _ _); try done. by intros [= <-]. }
  assert (Hnum : 0 ≤ hdr_num (hdr_type h)) by (by destruct (hdr_type h)).
  destruct (decide (hdr_type h = HDR_VIA_T)) as [E|E].
  - unfold link_field. rewrite E. unfold link_via.
    destruct (link_sibling_hdr HDR_VIA_T i g) as [gs| |] eqn:Es; try done. apply Hsib in Es. cbn.
    destruct (m_via1 gs); [destruct (m_via2 gs); intros [= <-]|destruct (via_bodies h) as [|? [|]]; try done; intros [= <-]];
      cbn -[Z.testbit HDR_T2F]; rewrite Es; repeat (apply Hlor; [by (left + right)|done|]); done.
  - change (link_field i h g = Ok (Some g2) → Z.testbit (m_parsed_flag g2) 63 = false).
    rewrite (link_field_other i h g E). destruct (link_of (hdr_type h)) as [[| |]|]; try done.
    + intros [= <-]. cbn -[Z.testbit HDR_T2F]. apply Hlor; [by left|done|]. unfold link_hdr. by destruct (m_hook g _).
    + destruct (link_sibling_hdr _ i g) as [gs| |] eqn:Es; try done. apply Hsib in Es. intros [= <-].
      cbn -[Z.testbit HDR_T2F]. rewrite Es. apply Hlor; [by left|done|done].
    + by intros [= <-].
Qed.

(** What the run over headers does to a message. *)
Record ran (p : Z) (hs : list header_text) (g g2 : sip_msg) : Prop := {
  ran_wf : msg_wf g2;
  ran_grows : grows g g2;
  ran_open : open_flags g2;
  ran_unparsed : m_unparsed g2 = m_unparsed g;
  ran_fields : ∃ fs, fields_parsed p hs fs ∧ Forall2 same_field (m_fields g ++ fs) (m_fields g2);
}.

Lemma header_round p g h c rest : msg_wf g → open_flags g → header_ok h →
  bytes_at m p (header_chars h ++ c :: rest) → m_end g = p + len (header_chars h ++ c :: rest) →
  ends_line c = true →
  ∃ g2, round (p, g) = Ok (inl (p + len (header_chars h), g2)) ∧ ran p [h] g g2.
Proof.
  intros Hwf Ho Hok Hat Hend Hc.
  destruct (header_begins h Hok) as (c0 & l0 & Hh & _ & _ & Hpos).
  pose proof (len_nonneg rest). rewrite len_app, len_cons in Hend.
  destruct (get_hdr_field_at m p (m_end g) h c rest Hm Hok Hat ltac:(rewrite len_app, len_cons; lia) Hc)
    as (f & Hf & Hfp & Hnx & Hsb).
  destruct (field_parsed_wf p h f Hok Hfp) as [[Hne Hreg] Hpar].
  destruct (link_field_ok g f (wf_hooks _ Hwf) (conj Hne Hreg) Hpar Hsb) as (g1 & Hl & Hlk).
  exists (add_header (length (m_fields g)) g1). split.
  - unfold round. destruct (Z.ltb_spec p (m_end g)); [|lia]. rewrite (open_flags_go g Ho). cbn [andb negb].
    cbn [all_allocs a_field a_body negb]. change (a_param all_allocs (length (m_fields g))) with (λ _ : nat, true).
    rewrite Hf. cbn [mbind res_bind].
    assert (Hgoal : (o ← link_field (length (m_fields g)) f (set_fields (m_fields g ++ [f]) g);
      match o with
      | None => mret (inr (None, g))
      | Some g3 => mret (inl (p + len (header_chars h), add_header (length (m_fields g)) g3))
      end) = (Ok (inl (p + len (header_chars h), add_header (length (m_fields g)) g1))
             : res (Z * sip_msg + option Z * sip_msg))).
    { by rewrite Hl. }
    destruct (hdr_type f); done.
  - pose proof Hlk as (_ & Hf2 & (_ & _ & Hb1 & Hb2 & Hb3 & Hb4 & Hb5 & Hb6)).
    assert (Hsame : Forall2 same_field (m_fields g ++ [f]) (m_fields (add_header (length (m_fields g)) g1))).
    { etrans; [eapply Forall2_impl; [exact Hf2|by intros ?? []]|].
      unfold add_header. destruct (m_last_header g1); [|reflexivity]. apply alter_same; [apply _|]. done. }
    split.
    + by eapply add_header_wf.
    + split.
      * intros u Hu. rewrite <- (positions_same _ _ _ Hsame), positions_snoc. by intros [? _]%app_eq_nil.
      * unfold add_header. destruct (m_last_header g1); cbn; by rewrite Hb3.
      * unfold add_header. by destruct (m_last_header g1).
      * unfold add_header. by destruct (m_last_header g1).
      * unfold add_header. by destruct (m_last_header g1).
      * unfold add_header. by destruct (m_last_header g1).
    + assert (Hog : open_flags g1) by (by eapply (link_field_open _ f); [..|exact Hl]).
      unfold add_header, open_flags in *. by destruct (m_last_header g1).
    + rewrite <- Hb4. unfold add_header. by destruct (m_last_header g1).
    + by exists [f].
Qed.

Lemma fields_parsed_app p h hs fs f : field_parsed p h f →
  fields_parsed (p + len (header_chars h)) hs fs → fields_parsed p (h :: hs) (f :: fs).
Proof. by split. Qed.

Lemma ran_cons p h hs g g1 g2 : ran p [h] g g1 → ran (p + len (header_chars h)) hs g1 g2 →
  ran p (h :: hs) g g2.
Proof.
  intros [_ Hg1 _ Hu1 (fs1 & Hf1 & Hs1)] [Hw Hg2 Ho Hu2 (fs2 & Hf2 & Hs2)].
  split; [done|by etrans|done|congruence|].
  destruct fs1 as [|f [|]]; [done| |by destruct Hf1]. destruct Hf1 as [Hf1 _].
  exists (f :: fs2). split; [by split|].
  etrans; [|exact Hs2]. change (m_fields g ++ f :: fs2) with (m_fields g ++ [f] ++ fs2).
  rewrite app_assoc. by apply Forall2_app.
Qed.

(** All headers up to the empty line. *)
Lemma msg_headers_run hs : ∀ p g e rest, msg_wf g → open_flags g → Forall header_ok hs →
  is_crlf e = true →
  bytes_at m p (headers_chars hs ++ e :: rest) → m_end g = p + len (headers_chars hs ++ e :: rest) →
  ∃ g2, lands round (λ s, Z.max 0 (m_end g - s.1)) (p, g)
      (Some (p + len (headers_chars hs)), or_flag HDR_EOH_T (set_eoh (p + len (headers_chars hs)) g2)) ∧
    ran p hs g g2.
Proof.
  induction hs as [|h hs IH]; intros p g e rest Hwf Ho Hok He Hat Hend.
  - exists g. cbn [headers_chars flat_map app] in *. rewrite len_nil, Z.add_0_r.
    rewrite len_cons in Hend. pose proof (len_nonneg rest). split.
    + apply lands_done; [|lia]. unfold round. destruct (Z.ltb_spec p (m_end g)); [|lia].
      rewrite (open_flags_go g Ho). cbn [andb negb all_allocs a_field]. destruct Hat as [Hc _].
      unfold get_hdr_field. by rewrite Hc; cbn [mbind res_bind]; rewrite He.
    + split; [done|done|done|done|]. exists []. by rewrite app_nil_r.
  - apply Forall_cons in Hok as [Hh Hok].
    change (headers_chars (h :: hs)) with (header_chars h ++ headers_chars hs) in *.
    rewrite <- app_assoc in Hat, Hend.
    assert (Hnext : ∃ c l, headers_chars hs ++ e :: rest = c :: l ∧ ends_line c = true).
    { destruct hs as [|h' hs].
      - exists e, rest. split; [done|]. unfold is_crlf in He. apply orb_true_iff in He as [->%Z.eqb_eq| ->%Z.eqb_eq]; done.
      - apply Forall_cons in Hok as [Hh' _]. destruct (header_begins h' Hh') as (c & l & E & Hc & _).
        change (headers_chars (h' :: hs)) with (header_chars h' ++ headers_chars hs). rewrite E. by do 2 eexists. }
    destruct Hnext as (c & l & E & Hc). rewrite E in Hat, Hend.
    destruct (header_round p g h c l Hwf Ho Hh Hat Hend Hc) as (g1 & Hr & Hran).
    destruct (header_begins h Hh) as (_ & _ & _ & _ & _ & Hpos).
    assert (Hend1 : m_end g1 = m_end g).
    { pose proof (ran_grows _ _ _ _ Hran) as Hg. unfold m_end. by rewrite (gr_buf _ _ Hg), (gr_len _ _ Hg). }
    rewrite <- E in Hat, Hend.
    destruct (IH (p + len (header_chars h)) g1 e rest) as (g2 & Hl & Hran2).
    + apply Hran.
    + apply Hran.
    + done.
    + done.
    + by apply bytes_at_from in Hat.
    + rewrite Hend1, Hend, len_app. lia.
    + exists g2. rewrite Hend1 in Hl. rewrite len_app, Z.add_assoc. split; [|by eapply ran_cons].
      eapply lands_next; [exact Hr| | |exact Hl]; cbn [fst]; [lia|].
      assert (0 < len (headers_chars hs ++ e :: rest)).
      { rewrite len_app, len_cons. pose proof (len_nonneg (headers_chars hs)). pose proof (len_nonneg rest). lia. }
      rewrite len_app in Hend. lia.
Qed.
End run.

(** ** Requests *)

(** A request: line breaks before it, its line, its headers, an empty line and a
    body. *)
Record request_text := RequestText {
  rt_lead : list Z;
  rt_meth : list Z;
  rt_uri : list Z;
  rt_sp : list Z;
  rt_ver : list Z;
  rt_sp2 : list Z;
  rt_headers : list header_text;
  rt_eoh : bool;
  rt_body : list Z;
}.

Definition after_line_chars (r : request_text) : list Z :=
  headers_chars (rt_headers r) ++ eol (rt_eoh r) ++ rt_body r.

Definition line_chars (r : request_text) : list Z :=
  request_line (rt_meth r) (rt_uri r) (rt_sp r) (rt_ver r) (rt_sp2 r) (after_line_chars r).

Definition request_chars (r : request_text) : list Z := rt_lead r ++ line_chars r.

Record request_text_ok (r : request_text) : Prop := {
  ro_lead : Forall (λ c, is_crlf c = true) (rt_lead r);
  ro_line : request_ok (rt_meth r) (rt_uri r) (rt_sp r) (rt_ver r) (rt_sp2 r) (after_line_chars r);
  ro_headers : rt_headers r ≠ [] ∧ Forall header_ok (rt_headers r);
}.

(** Where the line, the headers and the empty line are. *)
Definition line_pos (p : Z) (r : request_text) : Z := p + len (rt_lead r).
Definition headers_pos (p : Z) (r : request_text) : Z :=
  line_pos p r + len (line_chars r) - len (after_line_chars r).
Definition eoh_pos (p : Z) (r : request_text) : Z := headers_pos p r + len (headers_chars (rt_headers r)).

Definition request_start (p : Z) (r : request_text) : msg_start :=
  (request_parsed (line_pos p r) (rt_meth r) (rt_uri r) (rt_sp r) (rt_ver r) (rt_sp2 r) (after_line_chars r)).2.

(** The message that the text at [p] stands for; the list, the hooks, the siblings
    and the shortcuts to Via follow from [msg_wf]. *)
Record msg_parsed (p : Z) (r : request_text) (g : sip_msg) : Prop := {
  mp_wf : msg_wf g;
  mp_line : m_first_line g = request_start p r;
  mp_fields : fields_parsed (headers_pos p r) (rt_headers r) (m_fields g);
  mp_eoh : m_eoh g = eoh_pos p r ∧ m_unparsed g = eoh_pos p r;
  mp_text : m_buf g = p ∧ m_len g = len (request_chars r);
  mp_uri : m_new_uri g = None ∧ m_parsed_uri_ok g = false;
}.

Lemma eat_crlf_at m p l c k : Forall (λ c, is_crlf c = true) l → is_crlf c = false →
  bytes_at m p (l ++ [c]) → (length l ≤ k)%nat → eat_crlf m p k = Ok (p + len l).
Proof.
  intros Hl Hc. revert p k. induction Hl as [|a l Ha _ IH]; intros p k [Hr Hat] Hk.
  - rewrite len_nil, Z.add_0_r. destruct k; cbn [eat_crlf]; rewrite Hr; cbn; by rewrite Hc.
  - destruct k as [|k]; [cbn in Hk; lia|]. cbn [eat_crlf]. rewrite Hr. cbn [mbind res_bind]. rewrite Ha.
    rewrite (IH (p + 1) k Hat) by (cbn in Hk; lia). f_equal. rewrite len_cons. lia.
Qed.

Lemma request_next p r : request_text_ok r →
  (request_parsed (line_pos p r) (rt_meth r) (rt_uri r) (rt_sp r) (rt_ver r) (rt_sp2 r) (after_line_chars r)).1 =
  headers_pos p r.
Proof.
  intros [_ _ [Hne Hok]]. unfold request_parsed, headers_pos, line_chars, request_line. cbn [fst].
  assert (Haf : after_lf (after_line_chars r) = 1).
  { unfold after_line_chars. destruct (rt_headers r) as [|h hs]; [done|]. apply Forall_cons in Hok as [Hh _].
    destruct (header_begins h Hh) as (c & l & E & _ & Hc & _).
    change (headers_chars (h :: hs)) with (header_chars h ++ headers_chars hs). rewrite E. cbn [app].
    assert (Hl : l ++ headers_chars hs ++ eol (rt_eoh r) ++ rt_body r ≠ []).
    { intros [_ [_ [E' _]%app_eq_nil]%app_eq_nil]%app_eq_nil. by destruct (rt_eoh r). }
    rewrite <- !app_assoc. destruct (l ++ _); [done|]. cbn.
    unfold is_crlf in Hc. apply orb_false_iff in Hc as [Hc _]. by rewrite Hc. }
  rewrite Haf. unfold len. repeat (rewrite length_app || cbn [length]). lia.
Qed.

(** The parts of the line, and what follows it. *)
Lemma line_parts m p r : bytes_at m (line_pos p r) (line_chars r) →
  bytes_at m (line_pos p r) (rt_meth r) ∧ bytes_at m (line_pos p r + len (rt_meth r) + 1) (rt_uri r) ∧
  bytes_at m (headers_pos p r) (after_line_chars r).
Proof.
  intros Hat. unfold headers_pos, line_chars in *. unfold request_line in Hat |- *.
  set (pre := rt_meth r ++ SPC :: rt_uri r ++ rt_sp r ++ rt_ver r ++ rt_sp2 r ++ [CR; LF]).
  assert (E : rt_meth r ++ SPC :: rt_uri r ++ rt_sp r ++ rt_ver r ++ rt_sp2 r ++ CR :: LF :: after_line_chars r =
    pre ++ after_line_chars r).
  { unfold pre. rewrite <- app_assoc. cbn [app]. by rewrite <- !app_assoc. }
  split_and!.
  - by apply bytes_at_app in Hat as [? _].
  - apply bytes_at_after in Hat. by apply bytes_at_app in Hat as [? _].
  - rewrite E in Hat |- *. rewrite len_app.
    replace (line_pos p r + (len pre + len (after_line_chars r)) - len (after_line_chars r))
      with (line_pos p r + len pre) by lia. by apply bytes_at_from in Hat.
Qed.

Lemma parse_msg_at m p r : mem_ok m → request_text_ok r → bytes_at m p (request_chars r) →
  ∃ g, parse_msg all_allocs m p (len (request_chars r)) (new_msg p (len (request_chars r))) = Ok (0, g) ∧
    msg_parsed p r g.
Proof.
  intros Hm Hok Hat. pose proof Hok as [Hlead Hline [Hne Hhs]].
  assert (Hp : 0 < line_pos p r ∧ 0 ≤ len (rt_lead r)).
  { pose proof (len_nonneg (rt_lead r)). destruct Hm as [H0 _ _]. unfold line_pos.
    assert (Hx : ∃ c l, request_chars r = c :: l).
    { unfold request_chars. destruct (rt_lead r); [|by do 2 eexists]. cbn.
      unfold line_chars, request_line. destruct (rt_meth r); by do 2 eexists. }
    destruct Hx as (c & l & E). rewrite E in Hat. destruct Hat as [Hc _]. apply rd_Ok in Hc. lia. }
  destruct Hp as [Hp Hl0]. unfold request_chars in Hat |- *. rewrite len_app.
  pose proof (len_nonneg (line_chars r)).
  assert (Hfirst : ∃ c k, line_chars r = c :: k ∧ is_crlf c = false).
  { destruct Hline as [[Hmn Hmc] _ _ _ _ _ _]. unfold line_chars, request_line.
    destruct (rt_meth r) as [|c k]; [done|]. do 2 eexists. split; [done|].
    cbn in Hmc. apply andb_true_iff in Hmc as [Hmc _].
    unfold is_crlf. apply orb_false_iff. split; apply Z.eqb_neq; by intros ->. }
  destruct Hfirst as (c & k & Ec & Hc).
  unfold parse_msg. rewrite (eat_crlf_at m p (rt_lead r) c); [|done|done| |unfold len; lia].
  2: { rewrite Ec in Hat. by eapply bytes_at_upto. }
  cbn [mbind res_bind]. apply bytes_at_app in Hat as [_ Hat].
  change (p + Z.of_nat (length (rt_lead r))) with (line_pos p r) in Hat. fold (line_pos p r).
  replace (len (rt_lead r) + len (line_chars r) - (line_pos p r - p)) with (len (line_chars r))
    by (unfold line_pos; lia).
  unfold line_chars in Hat |- * at 2. rewrite (parse_request m (line_pos p r) _ _ _ _ _ _ _ (after_line_chars r) Hline Hp Hat) by done.
  pose proof (request_next p r Hok) as Hnext.
  set (rp := request_parsed _ _ _ _ _ _ _) in *. rewrite (surjective_pairing rp), Hnext. cbn [mbind res_bind].
  set (g0 := set_line rp.2 (new_msg p (len (rt_lead r) + len (line_chars r)))).
  change (fl_type rp.2) with SIP_REQUEST. cbn [Z.eqb orb]. change (SIP_REQUEST =? SIP_INVALID) with false.
  change ((SIP_REQUEST =? SIP_REQUEST) || (SIP_REQUEST =? SIP_REPLY)) with true. cbn beta iota.
  set (g1 := set_unparsed (headers_pos p r) g0).
  assert (Hend : m_end g1 = headers_pos p r + len (after_line_chars r)).
  { unfold m_end, headers_pos, line_pos. cbn. lia. }
  assert (Hhat := proj2 (proj2 (line_parts m p r Hat))).
  assert (Heoh : ∃ e k, eol (rt_eoh r) ++ rt_body r = e :: k ∧ is_crlf e = true).
  { destruct (rt_eoh r); by do 2 eexists. }
  destruct Heoh as (e & k' & Ee & He).
  destruct (msg_headers_run m Hm (rt_headers r) (headers_pos p r) g1 e k') as (g2 & Hl & [Hw Hg Ho Hu (fs & Hfs & Hsame)]).
  - by apply set_unparsed_wf, set_line_wf, new_msg_wf.
  - done.
  - done.
  - done.
  - unfold after_line_chars in Hhat. by rewrite Ee in Hhat.
  - rewrite Hend. unfold after_line_chars. by rewrite Ee.
  - fold (eoh_pos p r) in Hl. set (g3 := or_flag HDR_EOH_T (set_eoh (eoh_pos p r) g2)).
    exists (set_unparsed (eoh_pos p r) g3). split.
    + unfold parse_headers. cbn beta iota.
      rewrite Hl by (cbn [fst]; change (m_unparsed g1) with (headers_pos p r); lia). done.
    + assert (Hpos : eoh_pos p r ≠ 0).
      { destruct Hm as [H0 _ _]. unfold eoh_pos. unfold after_line_chars in Hhat.
        destruct (rt_headers r) as [|h hs]; [done|].
        apply Forall_cons in Hhs as [Hh _]. destruct (header_begins h Hh) as (c' & l' & E & _).
        change (headers_chars (h :: hs)) with (header_chars h ++ headers_chars hs) in Hhat |- *.
        rewrite E in Hhat. destruct Hhat as [Hr _]. apply rd_Ok in Hr.
        pose proof (len_nonneg (header_chars h ++ headers_chars hs)). lia. }
      split.
      * by apply set_unparsed_wf, eoh_wf.
      * cbn. by rewrite (gr_line _ _ Hg).
      * cbn. eapply fields_parsed_same; [exact Hsame|exact Hfs].
      * done.
      * cbn. rewrite (gr_buf _ _ Hg), (gr_len _ _ Hg). split; [done|]. unfold request_chars. by rewrite len_app.
      * cbn. destruct (gr_uri _ _ Hg) as [-> ->]. done.
Qed.

(** ** Properties *)

(** C3: every request of the grammar is parsed, wherever it lies in memory:
    [parse_msg] returns 0; the first line has the parts of the text; the list of
    headers has one header per header of the text, in its order, each with the
    type of its name, the exact name, the body without its line break and the
    length, and with the parsed Via, CSeq, To or Content-Length; [eoh] and [unparsed] are
    the empty line before the body; and the message is well-formed, so that the
    hooks, the siblings and the flags are those of the list. *)
Theorem parse_msg_text m p r : mem_ok m → request_text_ok r → bytes_at m p (request_chars r) →
  ∃ g, parse_msg all_allocs m p (len (request_chars r)) (new_msg p (len (request_chars r))) = Ok (0, g) ∧
    msg_parsed p r g.
Proof. apply parse_msg_at. Qed.

Definition request_sample : request_text := RequestText [CR; LF]
  (chars "INVITE") (chars "sip:12025550123@10.0.0.1") (chars " ") (chars "SIP/2.0") []
  [HeaderText (chars "v") [] (chars " ") (BVia (ViaMain.ViaText (chars "SIP") (chars "UDP")
     (ViaMain.VName (chars "10.0.0.2")) (Some (chars "5060")) [(chars "branch", Some (chars "z9hG4bK1"))]) true);
   HeaderText (chars "CSeq") (chars " ") (chars " ") (BCSeq (chars "1") (chars " ") (chars "INVITE") [] true);
   HeaderText (chars "To") [] [] (BTo (ToText [] (Words (chars "Bob") [(chars " ", chars "B.")] (chars " "))
     (chars "sip:b@c;x=y") [(chars "tag", Token (chars "1x")); (chars "n", NoValue)]) false);
   HeaderText (chars "Call-ID") [] (chars "  ") (BLines (chars "a b") [(true, chars "	c")] true);
   HeaderText (chars "l") [] (chars " ") (BLength (chars "4") [] true)] true (chars "v=0").

Lemma is_sp_spaces l : forallb is_sp l = true → spaces l.
Proof. intros H. apply List.Forall_forall. by apply forallb_forall. Qed.

Ltac header_check := split; [by vm_compute|by vm_compute|by split; [apply is_sp_spaces|]|by vm_compute|
  by apply is_sp_spaces|by vm_compute|].

Lemma request_sample_ok : request_text_ok request_sample.
Proof.
  split; [by repeat constructor|line_ok|split; [done|]].
  repeat apply Forall_cons_2; [..|apply Forall_nil_2].
  - header_check. split; [by vm_compute|]. split; [by vm_compute| |by split; [|repeat constructor]|by split; [repeat constructor|cbn; lia]|].
    + split; [by vm_compute|]. split; [plain_ok|by vm_compute].
    + repeat constructor; by vm_compute.
  - header_check. split; [by vm_compute|]. by repeat constructor.
  - header_check. by split; vm_compute.
  - header_check. split; [by vm_compute|]. repeat constructor; try by vm_compute.
  - header_check. split; [by vm_compute|]. by repeat constructor.
Qed.

Lemma parse_msg_text_witness : ∃ g,
  parse_msg all_allocs (block (request_chars request_sample)) 4096 (len (request_chars request_sample))
    (new_msg 4096 (len (request_chars request_sample))) = Ok (0, g) ∧ msg_parsed 4096 request_sample g.
Proof.
  apply (parse_msg_text (block (request_chars request_sample)) 4096 request_sample).
  - by apply mem_okb_ok.
  - apply request_sample_ok.
  - apply block_bytes.
Defined.
