(* ===== verification/UriOps.v ===== *)
(** * The URIs of a message: setting, rewriting (msg_parser.c), and printing them
    ([print_uri] of parse_uri.c)

    A new URI is written into a buffer of its own.  What is written so far is the
    argument of a [writer]; a write beyond the end of the buffer is a [Fault]. *)

From stdpp Require Import strings.
From S2P Require FirstLine.
From S2P Require Import Msg.
From S2P Require Import RoutePrint.
From S2P Require Import ParserF UriData Uri UriParamRun UriGrammar.

(** config.h *)
Definition MAX_URI_SIZE : Z := 1024.

(** [enum rw_ruri_part] *)
Inductive rw_ruri_part :=
| RW_RURI_HOST | RW_RURI_HOSTPORT | RW_RURI_USER | RW_RURI_USERPASS
| RW_RURI_PORT | RW_RURI_PREFIX | RW_RURI_STRIP | RW_RURI_STRIP_TAIL.

#[export] Instance rw_ruri_part_eq_dec : EqDecision rw_ruri_part.
Proof. solve_decision. Defined.

(** ** Private copies of a string *)

(** [pkg_malloc], [pkg_realloc]: the address, or a null pointer. *)
Definition allocation := option Z.

(** The whole of [set_path_vector], and what [set_ruri] and [set_dst_uri] do to their
    member: the return value and the member; [size] is what is asked for.  The bytes
    of a block that were never written are not part of it. *)
Definition set_copy (malloc : allocation) (size : Z) (old : option Msg.owned) (ms : mem) (x : option str) :
    res (Z * option Msg.owned) :=
  match x with
  | None => mret (-1, old)
  | Some x =>
      if (str_s x =? 0) || (str_len x =? 0) then mret (0, None) else
      let fresh := match malloc with
                   | None => mret (-1, None)
                   | Some a =>
                       if str_len x <? 0 then Fault a else
                       l ← memcpy ms (str_s x) (Z.to_nat (str_len x));
                       if size <? len l then Fault a else
                       mret (0, Some (Msg.Owned (Mem a l) (str_len x)))
                   end in
      match old with
      | Some o =>
          if str_len x <=? Msg.o_len o then
            if str_len x <? 0 then Fault (mbase (Msg.o_block o)) else
            l ← memcpy ms (str_s x) (Z.to_nat (str_len x));
            let old := mdata (Msg.o_block o) in
            if len old <? len l then Fault (mlim (Msg.o_block o)) else
            mret (0, Some (Msg.Owned (Mem (mbase (Msg.o_block o)) (l ++ drop (length l) old)) (str_len x)))
          else fresh
      | None => fresh
      end
  end.

Definition set_new_uri (o : option Msg.owned) (ok : bool) (g : Msg.sip_msg) : Msg.sip_msg :=
  Msg.SipMsg (Msg.m_first_line g) (Msg.m_fields g) (Msg.m_headers g) (Msg.m_last_header g) (Msg.m_hook g)
    (Msg.m_via1 g) (Msg.m_via2 g) (Msg.m_parsed_flag g) (Msg.m_eoh g) (Msg.m_unparsed g) (Msg.m_buf g) (Msg.m_len g)
    o (Msg.m_dst_uri g) ok (Msg.m_parsed_uri g).

Definition set_dst (o : option Msg.owned) (g : Msg.sip_msg) : Msg.sip_msg :=
  Msg.SipMsg (Msg.m_first_line g) (Msg.m_fields g) (Msg.m_headers g) (Msg.m_last_header g) (Msg.m_hook g)
    (Msg.m_via1 g) (Msg.m_via2 g) (Msg.m_parsed_flag g) (Msg.m_eoh g) (Msg.m_unparsed g) (Msg.m_buf g) (Msg.m_len g)
    (Msg.m_new_uri g) o (Msg.m_parsed_uri_ok g) (Msg.m_parsed_uri g).

(** The member [ruri_q], which only the functions of qvalue.h use, is left out. *)
Definition set_ruri (malloc : allocation) (g : Msg.sip_msg) (ms : mem) (uri : option str) : res (Z * Msg.sip_msg) :=
  '(r, o) ← set_copy malloc (match uri with Some x => str_len x + 1 | None => 0 end) (Msg.m_new_uri g) ms uri;
  let copied := match uri with
                | Some x => (r =? 0) && negb ((str_s x =? 0) || (str_len x =? 0)) | None => false end in
  mret (r, set_new_uri o (if copied then false else Msg.m_parsed_uri_ok g) g).

Definition set_dst_uri (malloc : allocation) (g : Msg.sip_msg) (ms : mem) (uri : option str) : res (Z * Msg.sip_msg) :=
  '(r, o) ← set_copy malloc (match uri with Some x => str_len x | None => 0 end) (Msg.m_dst_uri g) ms uri;
  mret (r, set_dst o g).

Definition reset_dst_uri (g : Msg.sip_msg) : Msg.sip_msg := set_dst None g.

(** On the member [path_vec]. *)
Definition set_path_vector (malloc : allocation) (path_vec : option Msg.owned) (ms : mem) (path : option str) :
    res (Z * option Msg.owned) :=
  set_copy malloc (match path with Some x => str_len x | None => 0 end) path_vec ms path.

Definition clear_path_vector (path_vec : option Msg.owned) : option Msg.owned := None.

(** [parse_orig_ruri], with the members [parsed_orig_ruri_ok] and [parsed_orig_ruri]. *)
Definition parse_orig_ruri (m : mem) (fl : FirstLine.msg_start) (x : bool * sip_uri) : res (Z * (bool * sip_uri)) :=
  if fst x : bool then mret (1, x) else
  let uri := FirstLine.u_second fl in
  '(r, u) ← parse_uri m (str_s uri) (str_len uri);
  mret (if r <? 0 then (-1, (false, u)) else (0, (true, u))).

(** ** Writing into a buffer of [size] bytes *)
Definition writer := list Z → res (option (list Z)).

(** [None]: there is no more space. *)
Definition seqW (a b : writer) : writer := λ out,
  r ← a out; match r with None => mret None | Some out => b out end.

Declare Scope writer_scope.
Delimit Scope writer_scope with writer.
Notation "a >>> b" := (seqW a b) (at level 60, right associativity) : writer_scope.
Local Open Scope writer_scope.

Definition skipW : writer := λ out, mret (Some out).
Definition whenW (b : bool) (w : writer) : writer := if b then w else skipW.

Section writers.
Context (size : Z).

(** [if (crt+n>end) goto error;] *)
Definition room (n : Z) : writer := λ out, mret (if size <? len out + n then None else Some out).

(** [memcpy(crt,p,n);crt+=n;]: a negative [n] is a huge one. *)
Definition copy (m : mem) (p n : Z) : writer := λ out,
if (n <? 0) || (size <? len out + n) then Fault p else
l ← memcpy m p (Z.to_nat n); mret (Some (out ++ l)).

Definition copy_str (m : mem) (x : str) : writer := copy m (str_s x) (str_len x).

(** [*crt=c; crt++;] *)
Definition put_char (c : Z) : writer := λ out,
if size <? len out + 1 then Fault 0 else mret (Some (out ++ [c])).

(** [if(crt+len+1>end) goto error; *crt=c; crt++; memcpy(crt,tmp,len);crt+=len;] *)
Definition put_after (c : Z) (m : mem) (x : str) : writer :=
room (str_len x + 1) >>> put_char c >>> copy_str m x.

Definition is_null (x : str) : bool := str_s x =? 0.
End writers.

(** ** [rewrite_ruri] *)

(** The URI of a message, with the block that it is in. *)
Definition current_uri (m : mem) (g : Msg.sip_msg) : mem * str :=
  match Msg.m_new_uri g with
  | Some o => (Msg.o_block o, Str (mbase (Msg.o_block o)) (Msg.o_len o))
  | None => (m, FirstLine.u_second (Msg.m_first_line g))
  end.

(** Up to the user, or the host: the scheme. *)
Definition copy_scheme (m : mem) (tmp : Z) (uri : sip_uri) : writer :=
  let user := u_str uri F_user in
  let n := to_int ((if negb (str_len user =? 0) then str_s user else str_s (u_str uri F_host)) - tmp) in
  room MAX_URI_SIZE n >>> copy MAX_URI_SIZE m tmp n.

Section rewrite.
Context (m : mem) (tmp : Z) (uri : sip_uri) (ms : mem) (sval : str) (ival : Z) (part : rw_ruri_part).
Let user := u_str uri F_user.

(** What is written for the user name: the block and the string. *)
Definition user_source : mem * str :=
match part with
| RW_RURI_USER | RW_RURI_USERPASS => (ms, sval)
| RW_RURI_STRIP =>
    if str_len user <? ival then (m, Str tmp 0)
    else if ival =? str_len user then (m, Str tmp 0)
    else (m, Str (str_s user + ival) (to_int (str_len user - ival)))
| RW_RURI_STRIP_TAIL =>
    if str_len user <? ival then (m, Str tmp 0)
    else if ival =? str_len user then (m, Str tmp 0)
    else (m, Str (str_s user) (to_int (str_len user - ival)))
| _ => (m, user)
end.

Definition host_source : mem * str :=
match part with RW_RURI_HOST | RW_RURI_HOSTPORT => (ms, sval) | _ => (m, u_str uri F_host) end.

Definition port_source : mem * str :=
match part with
| RW_RURI_HOSTPORT => (m, null_str) | RW_RURI_PORT => (ms, sval) | _ => (m, u_str uri F_port)
end.

Definition write_user : writer :=
let '(mu, x) := user_source in
whenW (bool_decide (part = RW_RURI_PREFIX)) (room MAX_URI_SIZE (str_len sval) >>> copy_str MAX_URI_SIZE ms sval) >>>
whenW (negb (str_len x =? 0)) (room MAX_URI_SIZE (str_len x) >>> copy_str MAX_URI_SIZE mu x).

(** [user]: there is a user name. *)
Definition has_user : bool :=
bool_decide (part = RW_RURI_PREFIX) || negb (str_len (snd user_source) =? 0).

Definition write_passwd : writer :=
let passwd := if bool_decide (part = RW_RURI_USERPASS) then null_str else u_str uri F_passwd in
whenW (negb (is_null passwd)) (put_after MAX_URI_SIZE (ch ":") m passwd) >>>
whenW (has_user || negb (is_null passwd)) (room MAX_URI_SIZE 1 >>> put_char MAX_URI_SIZE (ch "@")).

Definition write_host_port : writer :=
let '(mh, h) := host_source in
let '(mp, p) := port_source in
whenW (negb (is_null h)) (room MAX_URI_SIZE (str_len h) >>> copy_str MAX_URI_SIZE mh h) >>>
whenW (negb (is_null p) && (0 <? str_len p)) (put_after MAX_URI_SIZE (ch ":") mp p).

Definition write_params : writer :=
let params := u_str uri F_params in
let maddr := u_str uri F_maddr in
let maddr_val := u_str uri F_maddr_val in
let tmp := str_s params - 1 in
let n := to_int (str_len params + 1) in
whenW (negb (is_null params)) (room MAX_URI_SIZE (n + 1) >>>
  if negb (str_len maddr =? 0) && bool_decide (part = RW_RURI_HOSTPORT ∨ part = RW_RURI_HOST) then
    copy MAX_URI_SIZE m tmp (str_s maddr - tmp - 1) >>>
    copy MAX_URI_SIZE m (str_s maddr_val + str_len maddr_val) (tmp + n - str_s maddr_val - str_len maddr_val)
  else copy MAX_URI_SIZE m tmp n).

Definition write_headers : writer :=
let headers := u_str uri F_headers in
whenW (negb (is_null headers)) (put_after MAX_URI_SIZE (ch "?") m headers).

Definition rewrite_parts : writer :=
copy_scheme m tmp uri >>> write_user >>> write_passwd >>> write_host_port >>> write_params >>> write_headers.
End rewrite.

(** [*crt=0;]: the new URI at the address [a]. *)
Definition finish_uri (a : Z) (out : list Z) : res Msg.owned :=
  if MAX_URI_SIZE <? len out + 1 then Fault (a + len out) else mret (Msg.Owned (Mem a (out ++ [NUL])) (len out)).

Definition rewrite_ruri (m : mem) (malloc : allocation) (g : Msg.sip_msg) (ms : mem) (sval : str) (ival : Z)
    (part : rw_ruri_part) : res (Z * Msg.sip_msg) :=
  let '(mu, x) := current_uri m g in
  '(r, uri) ← parse_uri mu (str_s x) (str_len x);
  if r <? 0 then mret (-1, g) else
  match malloc with
  | None => mret (-1, g)
  | Some a =>
      out ← rewrite_parts mu (str_s x) uri ms sval ival part [];
      match out with
      | None => mret (-1, g)
      | Some out => o ← finish_uri a out; mret (0, set_new_uri (Some o) false g)
      end
  end.

(** ** [set_dst_host_port]: [None] is a null pointer *)
Definition dst_parts (m : mem) (tmp : Z) (uri : sip_uri) (ms : mem) (host port : option str) : writer :=
  let user := u_str uri F_user in
  let passwd := u_str uri F_passwd in
  let '(mh, h) := match host with Some h => (ms, h) | None => (m, u_str uri F_host) end in
  let '(mp, p) := match port with Some p => (ms, p) | None => (m, u_str uri F_port) end in
  let params := u_str uri F_params in
  let headers := u_str uri F_headers in
  copy_scheme m tmp uri >>>
  whenW (negb (is_null user)) (room MAX_URI_SIZE (str_len user) >>> copy_str MAX_URI_SIZE m user) >>>
  whenW (negb (is_null passwd)) (put_after MAX_URI_SIZE (ch ":") m passwd) >>>
  whenW (negb (is_null h))
    (whenW (negb (is_null user)) (room MAX_URI_SIZE 1 >>> put_char MAX_URI_SIZE (ch "@")) >>>
     room MAX_URI_SIZE (str_len h + 1) >>> copy_str MAX_URI_SIZE mh h) >>>
  whenW (negb (is_null p) && (0 <? str_len p)) (put_after MAX_URI_SIZE (ch ":") mp p) >>>
  whenW (negb (is_null params)) (put_after MAX_URI_SIZE (ch ";") m params) >>>
  whenW (negb (is_null headers)) (put_after MAX_URI_SIZE (ch "?") m headers).

Definition set_dst_host_port (malloc : allocation) (g : Msg.sip_msg) (ms : mem) (host port : option str) :
    res (Z * Msg.sip_msg) :=
  match Msg.m_dst_uri g with
  | None => mret (-1, g)
  | Some o =>
      if Msg.o_len o =? 0 then mret (-1, g) else
      if match host with Some h => (str_s h =? 0) || (str_len h =? 0) | None => false end then mret (-1, g) else
      let m := Msg.o_block o in
      '(r, uri) ← parse_uri m (mbase m) (Msg.o_len o);
      if r <? 0 then mret (-1, g) else
      match malloc with
      | None => mret (-1, g)
      | Some a =>
          out ← dst_parts m (mbase m) uri ms host port [];
          match out with
          | None => mret (-1, g)
          | Some out => o ← finish_uri a out; mret (0, set_dst (Some o) g)
          end
      end
  end.

(** ** [print_uri] into a buffer of [size] bytes *)
Section print.
Context (size : Z) (m : mem) (uri : sip_uri).

(** [append_str_chunk], [append_char] *)
Definition append_str_chunk (x : str) : writer := room size (str_len x) >>> copy_str size m x.
Definition append_char (c : Z) : writer := room size 1 >>> put_char size c.

Definition append_param (f : uri_field) : writer :=
let x := u_str uri f in whenW (negb (is_null x)) (append_char (ch ";") >>> append_str_chunk x).

Definition append_uk_param (idx : nat) : writer :=
match u_name uri !! idx, u_val uri !! idx with
| Some n, Some v =>
    whenW (negb (is_null n)) (append_char (ch ";") >>> append_str_chunk n >>>
      whenW (negb (is_null v)) (append_char (ch "=") >>> append_str_chunk v))
| _, _ => λ _, Fault 0 (* beyond [u_name] *)
end.

(** The name of the scheme is written without a check. *)
Definition put_type : writer := λ out,
if size <? len (chars (uri_type_name (u_type uri))) then Fault 0 else
mret (Some (out ++ chars (uri_type_name (u_type uri)))).

Fixpoint all_w (l : list writer) : writer := match l with [] => skipW | w :: l => w >>> all_w l end.

Definition printed_fields : list uri_field :=
[F_transport; F_ttl; F_user_param; F_maddr; F_method; F_lr; F_r2; F_gr;
 F_pn_provider; F_pn_prid; F_pn_param; F_pn_purr].

Definition print_parts : writer :=
let passwd := u_str uri F_passwd in
let host := u_str uri F_host in
let port := u_str uri F_port in
put_type >>> append_char (ch ":") >>> append_str_chunk (u_str uri F_user) >>>
whenW (negb (is_null passwd)) (append_char (ch ":") >>> append_str_chunk passwd) >>>
whenW (negb (is_null host)) (append_char (ch "@") >>> append_str_chunk host) >>>
whenW (negb (is_null port)) (append_char (ch ":") >>> append_str_chunk port) >>>
all_w (map append_param printed_fields) >>>
all_w (map append_uk_param (seq 0 (Z.to_nat (u_params_no uri)))).

(** What is in the buffer; [None] is -1. *)
Definition print_uri : res (option (list Z)) := print_parts [].
End print.

(** ** What a writer writes

    [emits size w l n]: if [n] bytes are left then [w] writes [l]; if not then it may
    also give up. *)
Definition emits (size : Z) (w : writer) (l : list Z) (n : Z) : Prop :=
  len l ≤ n ∧ ∀ out, len out ≤ size →
    (w out = Ok (Some (out ++ l)) ∧ len out + len l ≤ size) ∨ (w out = Ok None ∧ size < len out + n).

Section emits.
Context (size : Z).

Lemma emits_skip : emits size skipW [] 0.
Proof. split; [done|]. intros out Ho. left. unfold skipW. rewrite app_nil_r. split; [done|]. rewrite len_nil. lia. Qed.

Lemma emits_seq a b la lb na nb : emits size a la na → emits size b lb nb → emits size (a >>> b) (la ++ lb) (na + nb).
Proof.
intros [La Ha] [Lb Hb]. pose proof (len_nonneg lb). split; [rewrite len_app; lia|]. intros out Ho. unfold seqW.
destruct (Ha out Ho) as [[-> Hl]|[-> Hn]]; cbn [mbind res_bind]; [|right; split; [done|lia]].
destruct (Hb (out ++ la)) as [[-> Hl']|[-> Hn']]; rewrite len_app in *; [lia|left|right].
- rewrite app_assoc. split; [done|lia].
- split; [done|lia].
Qed.

Lemma emits_seq_eq a b l la lb n na nb : emits size a la na → emits size b lb nb → l = la ++ lb → n = na + nb →
emits size (a >>> b) l n.
Proof. intros Ha Hb -> ->. by apply emits_seq. Qed.

Lemma emits_assoc a b c l n : emits size ((a >>> b) >>> c) l n → emits size (a >>> b >>> c) l n.
Proof.
intros [L H]. split; [done|]. intros out Ho. specialize (H out Ho). unfold seqW in *.
destruct (a out) as [[x|]| |]; exact H.
Qed.

Lemma emits_room w l n k : emits size w l n → n ≤ k → emits size (room size k >>> w) l k.
Proof.
intros [L H] Hk. split; [lia|]. intros out Ho. unfold seqW, room. destruct (Z.ltb_spec size (len out + k)); cbn [mbind res_bind].
- right. split; [done|lia].
- destruct (H out Ho) as [Hw|[_ Hw]]; [by left|lia].
Qed.

(** A write that is not checked needs its own room before it. *)
Definition writes (w : writer) (l : list Z) : Prop :=
∀ out, len out + len l ≤ size → w out = Ok (Some (out ++ l)).

Lemma writes_seq a b la lb : writes a la → writes b lb → writes (a >>> b) (la ++ lb).
Proof.
intros Ha Hb out Ho. rewrite len_app in Ho. pose proof (len_nonneg lb). unfold seqW. rewrite Ha by lia. cbn [mbind res_bind].
rewrite Hb by (rewrite len_app; lia). by rewrite app_assoc.
Qed.

Lemma room_writes w l k : writes w l → len l ≤ k → emits size (room size k >>> w) l k.
Proof.
intros H Hk. split; [lia|]. intros out Ho. unfold seqW, room. destruct (Z.ltb_spec size (len out + k)); cbn [mbind res_bind].
- right. split; [done|lia].
- left. split; [exact (H out ltac:(lia))|lia].
Qed.

Lemma writes_copy m p l : bytes_at m p l → writes (copy size m p (len l)) l.
Proof.
intros Hat out Ho. unfold copy. pose proof (len_nonneg l). destruct (Z.ltb_spec (len l) 0), (Z.ltb_spec size (len out + len l)); try lia.
cbn [orb]. unfold len. rewrite Nat2Z.id, (memcpy_at m p l Hat). done.
Qed.

Lemma writes_char c : writes (put_char size c) [c].
Proof. intros out Ho. unfold put_char. change (len [c]) with 1 in Ho. by destruct (Z.ltb_spec size (len out + 1)); [lia|]. Qed.

Lemma emits_copy m x l k : holds m x l → k = len l → emits size (room size k >>> copy_str size m x) l (len l).
Proof. intros [El Hat] ->. apply room_writes; [|done]. unfold copy_str. rewrite El. by apply writes_copy. Qed.

Lemma emits_char c : emits size (room size 1 >>> put_char size c) [c] 1.
Proof. by apply room_writes; [apply writes_char|]. Qed.

Lemma emits_after c m x l : holds m x l → emits size (put_after size c m x) (c :: l) (1 + len l).
Proof.
intros [El Hat]. unfold put_after. fold (len l) in El. rewrite El, (Z.add_comm 1 (len l)). apply room_writes; [|rewrite len_cons; lia].
apply (writes_seq _ _ [c] l); [apply writes_char|]. unfold copy_str. rewrite El. by apply writes_copy.
Qed.

Lemma emits_when b w l n : (b = true → emits size w l n) →
emits size (whenW b w) (if b then l else []) (if b then n else 0).
Proof. intros H. destruct b; [by apply H|apply emits_skip]. Qed.
End emits.

(** ** The parts of a URI in memory *)
Record uri_in (m : mem) (tmp : Z) (sch : list Z) (ty : uri_type) (t : uri_text) (u : sip_uri) : Prop := {
  ui_pos : 0 < tmp;
  ui_at : bytes_at m tmp (sch ++ text_chars t);
  ui_ok : text_ok t;
  ui_size : len (sch ++ text_chars t) < 2 ^ 31;
  ui_put : u ≡ text_put (tmp + len sch) t (set_uri_type ty uri_zero);
}.

(** A string that is not there is a null pointer. *)
Definition field_in (m : mem) (x : str) (l : option (list Z)) : Prop :=
  match l with None => x = null_str | Some l => str_s x ≠ 0 ∧ holds m x l end.

Lemma in_field m p l : 0 < p → bytes_at m p l → field_in m (Str p (len l)) (Some l).
Proof. intros Hp Hat. split; [cbn; lia|]. by split. Qed.

Definition user_name (t : uri_text) : option (list Z) := fst <$> a_user (t_authority t).
Definition user_passwd (t : uri_text) : option (list Z) := a_user (t_authority t) ≫= snd.

Section parts.
Context {m tmp sch ty t u} (H : uri_in m tmp sch ty t u).
Let s := tmp + len sch.
Let a := t_authority t.

Lemma parts_at :
bytes_at m tmp sch ∧ bytes_at m s (user_chars (a_user a)) ∧
bytes_at m (s + len (user_chars (a_user a))) (host_chars (a_host a)) ∧
bytes_at m (s + len (user_chars (a_user a)) + len (host_chars (a_host a))) (port_chars (a_port a)) ∧
bytes_at m (s + len (authority_chars a)) (params_chars (t_params t)) ∧
bytes_at m (s + len (authority_chars a) + len (params_chars (t_params t))) (headers_chars (t_headers t)).
Proof.
pose proof (ui_at _ _ _ _ _ _ H) as Hat. unfold text_chars in Hat. fold a in Hat.
apply bytes_at_app in Hat as [H0 Hat]. apply bytes_at_app in Hat as [Ha Hat]. apply bytes_at_app in Hat as [Hp Hh].
unfold authority_chars in Ha. apply bytes_at_app in Ha as [Hu Ha]. apply bytes_at_app in Ha as [Hho Hpo].
subst s. unfold len in *. split_and!; done.
Qed.

Lemma s_pos : 0 < s.
Proof. pose proof (ui_pos _ _ _ _ _ _ H). pose proof (len_nonneg sch). subst s. lia. Qed.

Lemma authority_in f : authority_field f = true → u_str u f = u_str (authority_put s a uri_zero) f.
Proof.
intros Hf. destruct (ui_put _ _ _ _ _ _ H) as (E & _). rewrite E, text_put_authority by done.
unfold authority_put, port_put, user_put. fold a. by destruct (a_port a), (a_user a) as [[n [pw|]]|]; destruct f.
Qed.

(** *** The authority *)
Lemma authority_fields :
u_str u F_user = match a_user a with Some (n, _) => Str s (len n) | None => null_str end ∧
u_str u F_passwd = match a_user a with Some (n, Some pw) => Str (s + len n + 1) (len pw) | _ => null_str end ∧
u_str u F_host = Str (s + len (user_chars (a_user a))) (len (host_chars (a_host a))) ∧
u_str u F_port = match a_port a with
                 | Some ds => Str (s + len (user_chars (a_user a)) + len (host_chars (a_host a)) + 1) (len ds)
                 | None => null_str end.
Proof.
rewrite !authority_in by done. unfold authority_put, port_put, user_put.
by destruct (a_port a), (a_user a) as [[n [pw|]]|].
Qed.

Lemma user_in : field_in m (u_str u F_user) (user_name t).
Proof.
destruct authority_fields as (-> & _). destruct parts_at as (_ & Hu & _). unfold user_name. fold a.
destruct (a_user a) as [[n pw]|]; [|done]. apply in_field; [apply s_pos|].
destruct pw; cbn [user_chars] in Hu; by apply bytes_at_app in Hu as [? _].
Qed.

Lemma passwd_in : field_in m (u_str u F_passwd) (user_passwd t).
Proof.
destruct authority_fields as (_ & -> & _). destruct parts_at as (_ & Hu & _). unfold user_passwd. fold a.
destruct (a_user a) as [[n [pw|]]|]; [|done..]. apply in_field; [pose proof s_pos; pose proof (len_nonneg n); lia|].
cbn [user_chars] in Hu. apply bytes_at_app in Hu as [_ [_ Hu]]. by apply bytes_at_app in Hu as [? _].
Qed.

Lemma host_in : field_in m (u_str u F_host) (Some (host_chars (a_host a))).
Proof.
destruct authority_fields as (_ & _ & -> & _). destruct parts_at as (_ & _ & Hh & _). apply in_field; [|done].
pose proof s_pos. pose proof (len_nonneg (user_chars (a_user a))). lia.
Qed.

Lemma port_in : field_in m (u_str u F_port) (a_port a).
Proof.
destruct authority_fields as (_ & _ & _ & ->). destruct parts_at as (_ & _ & _ & Hp & _).
destruct (a_port a) as [ds|]; [|done]. destruct Hp as [_ Hp]. apply in_field; [|done].
pose proof s_pos. pose proof (len_nonneg (user_chars (a_user a))). pose proof (len_nonneg (host_chars (a_host a))). lia.
Qed.

(** *** The parameters and the headers *)
Lemma q_pos : 0 < s + len (authority_chars a).
Proof. pose proof s_pos. pose proof (len_nonneg (authority_chars a)). lia. Qed.

Lemma params_field : u_str u F_params =
match t_params t with
| [] => null_str
| ps => Str (s + len (authority_chars a) + 1) (len (params_chars ps) - 1)
end.
Proof. destruct (ui_put _ _ _ _ _ _ H) as (E & _). rewrite E, text_put_params. fold a. by destruct (t_params t). Qed.

Lemma headers_in : field_in m (u_str u F_headers) (t_headers t).
Proof.
destruct (ui_put _ _ _ _ _ _ H) as (E & _). rewrite E, text_put_headers. fold a s.
destruct parts_at as (_ & _ & _ & _ & _ & Hh). destruct (t_headers t) as [l|]; [|done].
destruct Hh as [_ Hh]. apply in_field; [|done]. pose proof q_pos. pose proof (len_nonneg (params_chars (t_params t))). lia.
Qed.

(** A recognised parameter, and its value. *)
Lemma row_in r : r ∈ param_rows →
let q := s + len (authority_chars a) in
match last_at (r_field r) (q + 1) (t_params t) with
| Some (p, (n, v)) =>
    u_str u (r_field r) = Str p (len (param_text n v)) ∧
    match v with Some val => u_str u (r_val r) = Str (p + len n + 1) (len val) | None => True end
| None => u_str u (r_field r) = null_str
end.
Proof.
intros Hr q. destruct (ui_put _ _ _ _ _ _ H) as (E & _). rewrite !E.
assert (Ha : r_field r ≠ F_params ∧ r_field r ≠ F_headers ∧ authority_field (r_field r) = false).
{ revert r Hr. apply (Forall_forall (λ r, _)). by repeat constructor. }
pose proof (text_put_params_value s t (set_uri_type ty uri_zero) r Hr) as Hv. fold a q in Hv.
destruct Ha as (H1 & H2 & H3). rewrite text_put_params_field by (done || by apply row_value_field). fold a q.
destruct (last_at _ _ _) as [[p [n [val|]]]|]; [done|done|]. by rewrite authority_put_other.
Qed.
End parts.

(** ** The last parameter of a name *)
Definition named (f : uri_field) (it : list Z * option (list Z)) : bool := names_field f (fst it).

(** The parameters without the last one that is recorded in the member [f]. *)
Fixpoint without_last (f : uri_field) (ps : list (list Z * option (list Z))) : list (list Z * option (list Z)) :=
  match ps with
  | [] => []
  | it :: ps => if named f it && negb (existsb (named f) ps) then ps else it :: without_last f ps
  end.

Lemma params_chars_app ps ps' : params_chars (ps ++ ps') = params_chars ps ++ params_chars ps'.
Proof.
  induction ps as [|[n v] ps IH]; [done|]. cbn [app params_chars]. rewrite IH. cbn [app]. by rewrite <- app_assoc.
Qed.

Lemma params_chars_cons n v ps : params_chars ((n, v) :: ps) = ch ";" :: param_text n v ++ params_chars ps.
Proof. done. Qed.

Lemma last_at_split f b ps :
  match last_at f b ps with
  | None => existsb (named f) ps = false
  | Some (p, (n, v)) => ∃ ps1 ps2, ps = ps1 ++ (n, v) :: ps2 ∧ p = b + len (params_chars ps1) ∧
      named f (n, v) = true ∧ existsb (named f) ps2 = false
  end.
Proof.
  revert b. induction ps as [|[n v] ps IH]; intros b; [done|]. cbn [last_at].
  specialize (IH (b + len (param_text n v) + 1)). destruct (last_at _ _ ps) as [[p [n' v']]|].
  - destruct IH as (ps1 & ps2 & -> & -> & Hn & Hps). exists ((n, v) :: ps1), ps2. split; [done|]. split; [|done].
    rewrite params_chars_cons, len_cons, len_app. lia.
  - destruct (names_field f n) eqn:Hn.
    + exists [], ps. cbn [params_chars]. rewrite len_nil. split; [done|]. split; [lia|done].
    + cbn [existsb]. unfold named at 1. cbn [fst]. by rewrite Hn.
Qed.

Lemma without_last_none f ps : existsb (named f) ps = false → without_last f ps = ps.
Proof.
  induction ps as [|it ps IH]; [done|]. cbn [existsb without_last]. intros [Hit Hps]%orb_false_iff.
  by rewrite Hit, IH.
Qed.

Lemma without_last_split f ps1 it ps2 : named f it = true → existsb (named f) ps2 = false →
  without_last f (ps1 ++ it :: ps2) = ps1 ++ ps2.
Proof.
  intros Hit Hps. induction ps1 as [|i ps1 IH]; cbn [app without_last].
  - by rewrite Hit, Hps.
  - rewrite existsb_app. cbn [existsb]. rewrite Hit, orb_true_l, orb_true_r, andb_false_r. by rewrite IH.
Qed.

(** ** What [rewrite_ruri] makes of a URI *)
Definition keep_nonempty (l : list Z) : option (list Z) := match l with [] => None | _ => Some l end.

Section rewritten.
Context (part : rw_ruri_part) (v : list Z) (ival : Z).

Definition rewritten_name (n : list Z) : list Z :=
match part with
| RW_RURI_USER | RW_RURI_USERPASS => v
| RW_RURI_PREFIX => v ++ n
| RW_RURI_STRIP => drop (Z.to_nat ival) n
| RW_RURI_STRIP_TAIL => take (length n - Z.to_nat ival) n
| _ => n
end.

Definition replaces_host : bool := bool_decide (part = RW_RURI_HOSTPORT ∨ part = RW_RURI_HOST).

(** Where there is no user name and no password there is no at sign either, but for a
    prefix. *)
Definition rewritten_user (t : uri_text) : option (list Z * option (list Z)) :=
let n := rewritten_name (default [] (user_name t)) in
let pw := if bool_decide (part = RW_RURI_USERPASS) then None else user_passwd t in
if bool_decide (n = [] ∧ pw = None ∧ part ≠ RW_RURI_PREFIX) then None else Some (n, pw).

Definition rewritten_port (t : uri_text) : option (list Z) :=
match part with
| RW_RURI_HOSTPORT => None
| RW_RURI_PORT => keep_nonempty v
| _ => a_port (t_authority t) ≫= keep_nonempty
end.

Definition rewritten_authority (t : uri_text) : authority :=
Authority (rewritten_user t) (if replaces_host then HName v else a_host (t_authority t)) (rewritten_port t).

Definition rewritten (t : uri_text) : uri_text :=
UriText (rewritten_authority t)
  (if replaces_host then without_last F_maddr (t_params t) else t_params t) (t_headers t).

(** The length with all parameters. *)
Definition rewrite_room (sch : list Z) (t : uri_text) : Z :=
len sch + len (authority_chars (rewritten_authority t)) + len (params_chars (t_params t)) + len (headers_chars (t_headers t)).
End rewritten.

Lemma is_null_in m x l : field_in m x l → is_null x = negb (bool_decide (is_Some l)).
Proof.
  intros Hx. unfold is_null. destruct l as [l|]; cbn in Hx.
  - destruct Hx as [Hx _]. destruct (Z.eqb_spec (str_s x) 0); [done|]. by rewrite bool_decide_true by eauto.
  - rewrite Hx. by rewrite bool_decide_false by (intros [? ?]; done).
Qed.

Lemma without_last_len f ps : len (params_chars (without_last f ps)) ≤ len (params_chars ps).
Proof.
  induction ps as [|[n v] ps IH]; [done|]. cbn [without_last]. rewrite params_chars_cons, len_cons, len_app.
  pose proof (len_nonneg (param_text n v)). destruct (_ && _); [lia|]. rewrite params_chars_cons, len_cons, len_app. lia.
Qed.

Lemma rewrite_room_le part v ival sch t : len (sch ++ text_chars (rewritten part v ival t)) ≤ rewrite_room part v ival sch t.
Proof.
  unfold text_chars, rewrite_room. rewrite !len_app. cbn [rewritten t_authority t_params t_headers].
  pose proof (without_last_len F_maddr (t_params t)). destruct (replaces_host part); lia.
Qed.

Section rewrite_text.
Context {m tmp sch ty t u} (H : uri_in m tmp sch ty t u).
Context (ms : mem) (sval : str) (v : list Z) (ival : Z) (part : rw_ruri_part).
Hypothesis Hval : str_s sval ≠ 0 ∧ holds ms sval v.
Hypothesis Hival : 0 ≤ ival.

Lemma scheme_emits : emits MAX_URI_SIZE (copy_scheme m tmp u) sch (len sch).
Proof.
destruct (authority_fields H) as (Hu & _ & Hh & _). destruct (parts_at H) as (Hs & _).
assert (E : to_int ((if negb (str_len (u_str u F_user) =? 0) then str_s (u_str u F_user) else str_s (u_str u F_host)) - tmp) = len sch).
{ pose proof (ui_size _ _ _ _ _ _ H) as Hsz. rewrite len_app in Hsz.
  pose proof (len_nonneg (text_chars t)). pose proof (len_nonneg sch). rewrite Hu, Hh.
  pose proof (ao_user _ (to_authority _ (ui_ok _ _ _ _ _ _ H))) as Ha.
  destruct (a_user (t_authority t)) as [[n pw]|].
  - destruct Ha as [Hne _]. cbn [str_len str_s]. assert (len n ≠ 0) by (destruct n; [done|rewrite len_cons; pose proof (len_nonneg n); lia]).
    destruct (Z.eqb_spec (len n) 0); [done|]. cbn [negb]. rewrite to_int_small; lia.
  - cbn [str_len null_str Z.eqb negb str_s user_chars]. rewrite len_nil, to_int_small; lia. }
unfold copy_scheme. rewrite E. apply room_writes; [by apply writes_copy|done].
Qed.

(** *** The user *)
Let name := default [] (user_name t).

(** The name behind a prefix. *)
Let rest := if bool_decide (part = RW_RURI_PREFIX) then name else rewritten_name part v ival name.

Lemma name_in : str_len (u_str u F_user) = len name ∧ bytes_at m (str_s (u_str u F_user)) name.
Proof.
pose proof (user_in H) as Hu. unfold name. destruct (user_name t) as [n|]; cbn in Hu.
- by destruct Hu as [_ Hu].
- by rewrite Hu.
Qed.

Lemma name_bytes_drop k p l : bytes_at m p l → (k ≤ length l)%nat → bytes_at m (p + Z.of_nat k) (drop k l).
Proof.
intros Hat Hk. rewrite <- (take_drop k l) in Hat. apply bytes_at_app in Hat as [_ Hat].
by rewrite length_take, Nat.min_l in Hat by done.
Qed.

Lemma name_bytes_take k p l : bytes_at m p l → bytes_at m p (take k l).
Proof. intros Hat. rewrite <- (take_drop k l) in Hat. by apply bytes_at_app in Hat as [? _]. Qed.

Lemma name_size : len name < 2 ^ 31.
Proof.
pose proof (ui_size _ _ _ _ _ _ H) as Hsz. unfold text_chars, authority_chars in Hsz. rewrite !len_app in Hsz.
pose proof (len_nonneg sch). pose proof (len_nonneg (host_chars (a_host (t_authority t)))). pose proof (len_nonneg (port_chars (a_port (t_authority t)))).
pose proof (len_nonneg (params_chars (t_params t))). pose proof (len_nonneg (headers_chars (t_headers t))).
assert (len name ≤ len (user_chars (a_user (t_authority t)))); [|lia]. unfold name, user_name.
destruct (a_user (t_authority t)) as [[n [pw|]]|]; cbn [fmap option_fmap option_map fst default user_chars];
  rewrite ?len_app, ?len_cons; [pose proof (len_nonneg (pw ++ [ch "@"]))|pose proof (len_nonneg (@nil Z))|]; cbn [default from_option id]; rewrite ?len_nil; try lia.
Qed.

Lemma user_source_in : let '(mu, x) := user_source m tmp u ms sval ival part in holds mu x rest.
Proof.
destruct name_in as [El Hat]. destruct Hval as [_ [Ev Hv]]. pose proof name_size as Hn. fold (len v) in Ev.
assert (Hstrip : (str_len (u_str u F_user) <? ival) = true ∨ (ival =? str_len (u_str u F_user)) = true → len name ≤ ival).
{ rewrite El. destruct (Z.ltb_spec (len name) ival), (Z.eqb_spec ival (len name)); intros [?|?]; lia || done. }
unfold rest, user_source. destruct part; cbn [rewritten_name]; try (rewrite bool_decide_false by done); try (by split).
- destruct (_ <? ival) eqn:E1; [|destruct (ival =? _) eqn:E2].
  + rewrite drop_ge by (specialize (Hstrip (or_introl eq_refl)); unfold len in *; lia). by split.
  + rewrite drop_ge by (specialize (Hstrip (or_intror eq_refl)); unfold len in *; lia). by split.
  + apply Z.ltb_ge in E1. apply Z.eqb_neq in E2. rewrite El in *. unfold holds. cbn [str_len str_s]. split.
    * rewrite length_drop, to_int_small by lia. unfold len in *. lia.
    * rewrite <- (Z2Nat.id ival Hival) at 1. apply name_bytes_drop; [done|]. unfold len in *. lia.
- destruct (_ <? ival) eqn:E1; [|destruct (ival =? _) eqn:E2].
  + replace (length name - Z.to_nat ival)%nat with 0%nat by (specialize (Hstrip (or_introl eq_refl)); unfold len in *; lia). by split.
  + replace (length name - Z.to_nat ival)%nat with 0%nat by (specialize (Hstrip (or_intror eq_refl)); unfold len in *; lia). by split.
  + apply Z.ltb_ge in E1. apply Z.eqb_neq in E2. rewrite El in *. unfold holds. cbn [str_len str_s]. split.
    * rewrite length_take, to_int_small by lia. unfold len in *. lia.
    * by apply name_bytes_take.
Qed.

Lemma write_user_emits :
emits MAX_URI_SIZE (write_user m tmp u ms sval ival part) (rewritten_name part v ival name) (len (rewritten_name part v ival name)).
Proof.
pose proof user_source_in as Hu. unfold write_user. destruct (user_source _ _ _ _ _ _ _) as [mu x].
destruct Hval as [_ Hv].
assert (Hx : emits MAX_URI_SIZE (whenW (negb (str_len x =? 0)) (room MAX_URI_SIZE (str_len x) >>> copy_str MAX_URI_SIZE mu x)) rest (len rest)).
{ destruct (Z.eqb_spec (str_len x) 0) as [E|_]; cbn [negb whenW].
  - destruct Hu as [El _]. destruct rest as [|c r]; [apply emits_skip|]. cbn [length] in El. lia.
  - apply emits_copy; [done|]. by destruct Hu. }
eapply emits_seq_eq; [|exact Hx|..].
- apply emits_when. intros _. apply (emits_copy _ _ _ v); [done|]. by destruct Hv.
- unfold rest. case_bool_decide as E; [by rewrite E|done].
- unfold rest. case_bool_decide as E; [|lia]. rewrite E. cbn [rewritten_name]. rewrite len_app. lia.
Qed.

Lemma has_user_eq : has_user m tmp u ms sval ival part = negb (bool_decide (rewritten_name part v ival name = [] ∧ part ≠ RW_RURI_PREFIX)).
Proof.
pose proof user_source_in as Hu. unfold has_user. destruct (user_source _ _ _ _ _ _ _) as [mu x]. destruct Hu as [El _].
cbn [snd]. rewrite El. unfold rest. case_bool_decide as E; cbn [orb].
- by rewrite bool_decide_false by (intros [_ ?]; done).
- destruct (rewritten_name part v ival name) as [|c l] eqn:En; cbn [length].
  + by rewrite bool_decide_true.
  + rewrite bool_decide_false by (intros [? _]; done). destruct (Z.eqb_spec (Z.of_nat (S (length l))) 0); [lia|done].
Qed.

Lemma write_passwd_emits w n (Hw : emits MAX_URI_SIZE w (rewritten_name part v ival name) n) : n = len (rewritten_name part v ival name) →
emits MAX_URI_SIZE (w >>> write_passwd m tmp u ms sval ival part)
  (user_chars (rewritten_user part v ival t)) (len (user_chars (rewritten_user part v ival t))).
Proof.
intros ->. unfold write_passwd. rewrite has_user_eq. unfold rewritten_user. fold name.
set (n := rewritten_name part v ival name) in *. set (pw := if bool_decide (part = RW_RURI_USERPASS) then None else user_passwd t).
set (x := if bool_decide (part = RW_RURI_USERPASS) then null_str else u_str u F_passwd).
assert (Hx : field_in m x pw). { unfold x, pw. case_bool_decide; [done|]. apply (passwd_in H). }
cbn zeta. clearbody x pw. rewrite (is_null_in m x pw Hx), negb_involutive.
assert (Hat : emits MAX_URI_SIZE (room MAX_URI_SIZE 1 >>> put_char MAX_URI_SIZE (ch "@")) [ch "@"] 1) by apply emits_char.
destruct pw as [pw|]; cbn in Hx.
- rewrite (bool_decide_true (is_Some (Some pw))) by eauto. rewrite (bool_decide_false (n = [] ∧ Some pw = None ∧ part ≠ RW_RURI_PREFIX)) by (intros (_ & ? & _); done).
  rewrite orb_true_r. destruct Hx as [_ Hx]. cbn [whenW user_chars].
  eapply emits_seq_eq; [exact Hw|eapply emits_seq; [by apply emits_after|exact Hat]|done|].
  cbn [app]. rewrite len_app, !len_cons, len_app. change (len [ch "@"]) with 1. lia.
- rewrite (bool_decide_false (is_Some None)) by (intros [? ?]; done). rewrite orb_false_r. cbn [whenW].
  case_bool_decide as E1; cbn [negb whenW].
  + rewrite bool_decide_true by (destruct E1; done). destruct E1 as [E1 _]. rewrite E1 in Hw.
    eapply emits_seq_eq; [exact Hw|apply emits_seq; apply emits_skip|done|done].
  + rewrite bool_decide_false by (intros (? & _ & ?); apply E1; done). cbn [user_chars].
    eapply emits_seq_eq; [exact Hw|apply emits_seq; [apply emits_skip|exact Hat]|done|].
    rewrite len_app. change (len [ch "@"]) with 1. lia.
Qed.

(** *** The host and the port *)
Lemma write_host_port_emits :
emits MAX_URI_SIZE (write_host_port m u ms sval part)
  (host_chars (a_host (rewritten_authority part v ival t)) ++ port_chars (rewritten_port part v t))
  (len (host_chars (a_host (rewritten_authority part v ival t)) ++ port_chars (rewritten_port part v t))).
Proof.
unfold write_host_port.
assert (Hh : let '(mh, h) := host_source m u ms sval part in
  field_in mh h (Some (host_chars (a_host (rewritten_authority part v ival t))))).
{ unfold host_source, rewritten_authority, replaces_host. cbn [a_host]. pose proof (host_in H) as Hh.
  by destruct part. }
assert (Hp : let '(mp, p) := port_source m u ms sval part in
  ∃ o, field_in mp p o ∧ rewritten_port part v t = o ≫= keep_nonempty).
{ unfold port_source, rewritten_port. pose proof (port_in H) as Hp.
  destruct part; first [by exists None | by exists (Some v) | by exists (a_port (t_authority t))]. }
destruct (host_source _ _ _ _ _) as [mh h], (port_source _ _ _ _ _) as [mp p]. destruct Hp as (o & Hp & ->).
rewrite (is_null_in mh h _ Hh), (is_null_in mp p _ Hp), bool_decide_true by eauto. cbn [negb whenW]. destruct Hh as [_ Hh].
eapply emits_seq_eq; [eapply emits_copy; [exact Hh|by destruct Hh]| |done|rewrite len_app; done].
destruct o as [[|c l]|]; cbn in Hp.
- destruct Hp as [_ [El _]]. rewrite El, andb_false_r. apply emits_skip.
- destruct Hp as [_ Hp]. pose proof Hp as [El _]. rewrite El. rewrite bool_decide_true by eauto. cbn [negb andb mbind option_bind keep_nonempty port_chars].
  destruct (Z.ltb_spec 0 (Z.of_nat (length (c :: l)))) as [_|Hle]; [|cbn [length] in Hle; lia]. rewrite (len_cons (ch ":")). by apply emits_after.
- rewrite bool_decide_false by (intros [? ?]; done). apply emits_skip.
Qed.

(** *** The parameters and the headers *)
Lemma copy_writes size mm p n l : bytes_at mm p l → n = len l → writes size (copy size mm p n) l.
Proof. intros Hat ->. by apply writes_copy. Qed.

Lemma write_params_emits :
emits MAX_URI_SIZE (write_params m u part) (params_chars (t_params (rewritten part v ival t))) (len (params_chars (t_params t)) + 1).
Proof.
unfold write_params. rewrite (params_field H). cbn [rewritten t_params]. pose proof (q_pos H) as Hq.
destruct (parts_at H) as (_ & _ & _ & _ & Hps & _). set (q := tmp + len sch + len (authority_chars (t_authority t))) in *.
pose proof (to_params _ (ui_ok _ _ _ _ _ _ H)) as Hok. pose proof (ui_size _ _ _ _ _ _ H) as Hsz. unfold text_chars in Hsz. rewrite !len_app in Hsz.
pose proof (len_nonneg sch). pose proof (len_nonneg (authority_chars (t_authority t))). pose proof (len_nonneg (headers_chars (t_headers t))).
pose proof (row_in H (ParamRow "maddr" [PM_M; PMA_A; PMA_D; PMA_D2; PMA_R] PMA_eq F_maddr F_maddr_val) ltac:(by repeat constructor)) as Hm.
cbn [r_field r_val] in Hm. fold q in Hm. pose proof (last_at_split F_maddr (q + 1) (t_params t)) as Hsplit.
destruct (t_params t) as [|it ps] eqn:Eps.
{ cbn [params_chars]. rewrite len_nil. destruct replaces_host; (split; [done|]); intros out Ho; left; unfold whenW, skipW; cbn;
    rewrite app_nil_r, len_nil; (split; [done|lia]). }
rewrite <- Eps in *. clear it ps Eps. set (ps := t_params t) in *. cbn [str_s str_len].
assert (Hnn : is_null (Str (q + 1) (len (params_chars ps) - 1)) = false) by (unfold is_null; cbn; lia). rewrite Hnn. cbn [negb whenW].
replace (len (params_chars ps) - 1 + 1) with (len (params_chars ps)) by lia. replace (q + 1 - 1) with q by lia.
pose proof (len_nonneg (params_chars ps)). rewrite to_int_small by lia.
change (bool_decide (part = RW_RURI_HOSTPORT ∨ part = RW_RURI_HOST)) with (replaces_host part).
destruct (last_at F_maddr (q + 1) ps) as [[p [n o]]|].
- destruct Hsplit as (ps1 & ps2 & E & Ep & Hn & Hlast). destruct Hm as [-> Hval'].
  assert (Ho : ∃ val, o = Some val).
  { rewrite E in Hok. apply Forall_app in Hok as [_ Hok]. apply Forall_cons in Hok as [[_ Hok] _]. cbn [fst snd] in Hok.
    unfold named, names_field in Hn. cbn [fst] in Hn. destruct (known n) as [r|] eqn:Hr; [|done]. apply known_spec in Hr as [Hin _].
    destruct o as [val|]; [by exists val|]. exfalso. apply bool_decide_eq_true in Hn. clear - Hin Hok Hn. revert r Hin Hok Hn.
    refine (proj1 (Forall_forall (λ r, _ → _ → False) param_rows) _). by repeat constructor. }
  destruct Ho as [val ->]. rewrite Hval'. cbn [str_s str_len].
  assert (Hl : len (param_text n (Some val)) = len n + 1 + len val) by (unfold param_text; rewrite len_app, len_cons; lia).
  pose proof (len_nonneg n). pose proof (len_nonneg val). rewrite Hl. destruct (Z.eqb_spec (len n + 1 + len val) 0); [lia|]. cbn [negb andb].
  destruct (replaces_host part); [|apply room_writes; [by apply copy_writes|lia]].
  rewrite E, params_chars_app, params_chars_cons in *. rewrite without_last_split by done.
  apply bytes_at_app in Hps as [Hp1 Hps]. destruct Hps as [_ Hps]. apply bytes_at_app in Hps as [_ Hp2].
  apply room_writes; [|rewrite params_chars_app, !len_app, len_cons, len_app; pose proof (len_nonneg (param_text n (Some val))); lia].
  rewrite params_chars_app. apply writes_seq; apply copy_writes; [done|lia| |].
  + fold (len (params_chars ps1)) in Hp2. fold (len (param_text n (Some val))) in Hp2. rewrite Hl in Hp2.
    replace (p + len n + 1 + len val) with (q + len (params_chars ps1) + 1 + (len n + 1 + len val)) by lia. done.
  + rewrite !len_app, len_cons, len_app, Hl. lia.
- rewrite Hm. cbn [str_len null_str Z.eqb negb andb]. rewrite without_last_none by done.
  replace (if replaces_host part then ps else ps) with ps by by destruct (replaces_host part).
  apply room_writes; [by apply copy_writes|lia].
Qed.

Lemma write_headers_emits : emits MAX_URI_SIZE (write_headers m u) (headers_chars (t_headers t)) (len (headers_chars (t_headers t))).
Proof.
unfold write_headers. pose proof (headers_in H) as Hh. rewrite (is_null_in _ _ _ Hh), negb_involutive.
destruct (t_headers t) as [l|]; cbn in Hh.
- rewrite bool_decide_true by eauto. cbn [whenW headers_chars]. rewrite len_cons. destruct Hh as [_ Hh]. by apply emits_after.
- rewrite bool_decide_false by (intros [? ?]; done). apply emits_skip.
Qed.

Lemma rewrite_parts_emits :
emits MAX_URI_SIZE (rewrite_parts m tmp u ms sval ival part) (sch ++ text_chars (rewritten part v ival t)) (rewrite_room part v ival sch t + 1).
Proof.
unfold rewrite_parts. eapply emits_seq_eq; [apply scheme_emits| |done|].
- pose proof (write_passwd_emits _ _ write_user_emits eq_refl) as Hu.
  pose proof (emits_seq _ _ _ _ _ _ _ write_host_port_emits (emits_seq _ _ _ _ _ _ _ write_params_emits write_headers_emits)) as Hr.
  pose proof (emits_seq _ _ _ _ _ _ _ Hu Hr) as He. unfold text_chars, authority_chars. cbn [rewritten t_authority t_headers a_user a_host a_port rewritten_authority].
  rewrite <- !app_assoc in *. apply emits_assoc. exact He.
- unfold rewrite_room, authority_chars. rewrite !len_app. cbn [rewritten_authority a_user a_host a_port]. lia.
Qed.
End rewrite_text.

(** ** Whole operations *)

(** The string [x] in [m] is a URI of the grammar. *)
Record uri_at (m : mem) (x : str) (sch : list Z) (ty : uri_type) (t : uri_text) : Prop := {
  ua_pos : 0 < str_s x;
  ua_scheme : scheme_ok sch ty;
  ua_ok : text_ok t;
  ua_holds : holds m x (sch ++ text_chars t);
  ua_size : len (sch ++ text_chars t) < 2 ^ 31;
}.

Lemma parse_in m x sch ty t : uri_at m x sch ty t →
  ∃ u, parse_uri m (str_s x) (str_len x) = Ok (0, u) ∧ uri_in m (str_s x) sch ty t u.
Proof.
  intros [Hpos Hsch Hok [El Hat] Hsize]. rewrite El. destruct (parse_uri_at m (str_s x) sch ty t Hsch Hok Hpos Hat Hsize) as (u & Hu & E).
  exists u. by split.
Qed.

(** A whole URI with a slack of one byte, and the NUL behind it. *)
Lemma finish_emits w l n a : emits MAX_URI_SIZE w l (n + 1) → len l ≤ n →
  (n < MAX_URI_SIZE → w [] = Ok (Some l) ∧ finish_uri a l = Ok (Msg.Owned (Mem a (l ++ [NUL])) (len l))) ∧
  (MAX_URI_SIZE < len l → w [] = Ok None).
Proof.
  intros [_ H] Hl. destruct (H [] ltac:(done)) as [[Hw Hs]|[Hw Hs]]; rewrite len_nil in Hs.
  - split; [|lia]. intros Hn. split; [done|]. unfold finish_uri. by destruct (Z.ltb_spec MAX_URI_SIZE (len l + 1)); [lia|].
  - split; [lia|done].
Qed.

(** The URI of the message [g] is then that of [l]. *)
Lemma parsed_anew m g a sch ty t l : scheme_ok sch ty → 0 < a → l = sch ++ text_chars t → text_ok t → len l < 2 ^ 31 →
  let g' := set_new_uri (Some (Msg.Owned (Mem a (l ++ [NUL])) (len l))) false g in
  ∃ u, Msg.parse_sip_msg_uri m g' = Ok (0, Msg.set_parsed_uri true u g') ∧
    u ≡ text_put (a + len sch) t (set_uri_type ty uri_zero).
Proof.
  intros Hsch Ha -> Ht Hlen g'. pose proof (bytes_at_data (Mem a ((sch ++ text_chars t) ++ [NUL]))) as Hat. cbn [mbase mdata] in Hat.
  apply bytes_at_app in Hat as [Hat _]. destruct (parse_uri_at _ a sch ty t Hsch Ht Ha Hat Hlen) as (u & Hu & E).
  exists u. split; [|done]. unfold Msg.parse_sip_msg_uri. cbn [g' set_new_uri Msg.m_parsed_uri_ok Msg.m_new_uri Msg.o_block Msg.o_len mbase].
  rewrite Hu. cbn [mbind res_bind]. by destruct (Z.ltb_spec 0 0).
Qed.

Lemma rewrite_ruri_emits m g a sch ty t ms sval v ival part :
  uri_at (fst (current_uri m g)) (snd (current_uri m g)) sch ty t →
  str_s sval ≠ 0 → holds ms sval v → 0 ≤ ival →
  let l := sch ++ text_chars (rewritten part v ival t) in
  (rewrite_room part v ival sch t < MAX_URI_SIZE →
   rewrite_ruri m (Some a) g ms sval ival part =
     Ok (0, set_new_uri (Some (Msg.Owned (Mem a (l ++ [NUL])) (len l))) false g)) ∧
  (MAX_URI_SIZE < len l → rewrite_ruri m (Some a) g ms sval ival part = Ok (-1, g)).
Proof.
  intros Hx Hs Hv Hi l. destruct (parse_in _ _ _ _ _ Hx) as (u & Hu & Hin).
  pose proof (rewrite_parts_emits Hin ms sval v ival part (conj Hs Hv) Hi) as He. fold l in He.
  destruct (finish_emits _ _ _ a He (rewrite_room_le _ _ _ _ _)) as [Hfit Hlong].
  unfold rewrite_ruri. destruct (current_uri m g) as [mu x]. cbn [fst snd] in *. rewrite Hu. cbn [mbind res_bind].
  change (0 <? 0) with false. cbv iota. split.
  - intros Hroom. destruct (Hfit Hroom) as [-> Hf]. cbn [mbind res_bind]. by rewrite Hf.
  - intros Hl. by rewrite (Hlong Hl).
Qed.

(** *** [set_dst_host_port] *)

(** The destination with another host and port; an empty port is dropped. *)
Definition redirected (host port : option (list Z)) (t : uri_text) : uri_text :=
  let a := t_authority t in
  UriText (Authority (a_user a) (match host with Some h => HName h | None => a_host a end)
            ((match port with Some p => Some p | None => a_port a end) ≫= keep_nonempty))
    (t_params t) (t_headers t).

(** An argument: a null pointer, or a string that is not null. *)
Definition arg_in (ms : mem) (x : option str) (l : option (list Z)) : Prop :=
  match x, l with
  | None, None => True
  | Some x, Some l => str_s x ≠ 0 ∧ holds ms x l
  | _, _ => False
  end.

Section dst_text.
Context {m tmp sch ty t u} (H : uri_in m tmp sch ty t u).
Context (ms : mem) (host port : option str) (h p : option (list Z)).
Hypothesis Hhost : arg_in ms host h.
Hypothesis Hport : arg_in ms port p.

Lemma field_after f c l : field_in m (u_str u f) l →
emits MAX_URI_SIZE (whenW (negb (is_null (u_str u f))) (put_after MAX_URI_SIZE c m (u_str u f)))
  (match l with Some l => c :: l | None => [] end) (len (match l with Some l => c :: l | None => [] end)).
Proof.
intros Hf. rewrite (is_null_in _ _ _ Hf), negb_involutive. destruct l as [l|]; cbn in Hf.
- rewrite bool_decide_true by eauto. rewrite len_cons. destruct Hf as [_ Hf]. by apply emits_after.
- rewrite bool_decide_false by (intros [? ?]; done). apply emits_skip.
Qed.

Lemma dst_params_emits :
emits MAX_URI_SIZE (whenW (negb (is_null (u_str u F_params))) (put_after MAX_URI_SIZE (ch ";") m (u_str u F_params)))
  (params_chars (t_params t)) (len (params_chars (t_params t))).
Proof.
pose proof (q_pos H) as Hq. destruct (parts_at H) as (_ & _ & _ & _ & Hps & _). rewrite (params_field H).
destruct (t_params t) as [|[n v] ps]; [apply emits_skip|]. unfold is_null. cbn [str_s].
rewrite params_chars_cons in *. rewrite len_cons in *. destruct Hps as [_ Hps].
destruct (Z.eqb_spec (tmp + len sch + len (authority_chars (t_authority t)) + 1) 0); [lia|]. cbn [negb whenW].
apply emits_after. split; [cbn [str_len]; unfold len; lia|done].
Qed.

Definition at_sign (t : uri_text) : list Z := match user_name t with Some _ => [ch "@"] | None => [] end.

Lemma dst_parts_emits :
emits MAX_URI_SIZE (dst_parts m tmp u ms host port) (sch ++ text_chars (redirected h p t)) (len (sch ++ text_chars (redirected h p t)) + 1).
Proof.
unfold dst_parts.
assert (Hh : let '(mh, x) := match host with Some h => (ms, h) | None => (m, u_str u F_host) end in
  field_in mh x (Some (host_chars (a_host (t_authority (redirected h p t)))))).
{ pose proof (host_in H) as Hh. unfold arg_in in Hhost. destruct host, h; done. }
assert (Hp : let '(mp, x) := match port with Some p => (ms, p) | None => (m, u_str u F_port) end in
  field_in mp x (match p with Some p => Some p | None => a_port (t_authority t) end)).
{ pose proof (port_in H) as Hp. unfold arg_in in Hport. destruct port, p; done. }
destruct (match host with Some _ => _ | None => _ end) as [mh xh], (match port with Some _ => _ | None => _ end) as [mp xp].
set (po := match p with Some _ => _ | None => _ end) in *.
assert (Eh : negb (is_null xh) = true) by (rewrite (is_null_in _ _ _ Hh), bool_decide_true by eauto; done). rewrite Eh. clear Eh.
destruct Hh as [_ Hh]. cbn [whenW].
assert (Hpe : emits MAX_URI_SIZE (whenW (negb (is_null xp) && (0 <? str_len xp)) (put_after MAX_URI_SIZE (ch ":") mp xp))
  (port_chars (po ≫= keep_nonempty)) (len (port_chars (po ≫= keep_nonempty)))).
{ rewrite (is_null_in _ _ _ Hp), negb_involutive. destruct po as [[|c l]|]; cbn in Hp.
  - destruct Hp as [_ [El _]]. rewrite El, andb_false_r. apply emits_skip.
  - destruct Hp as [_ Hp]. pose proof Hp as [El _]. rewrite El. rewrite bool_decide_true by eauto.
    cbn [andb mbind option_bind keep_nonempty port_chars]. destruct (Z.ltb_spec 0 (Z.of_nat (length (c :: l)))) as [_|Hle]; [|cbn [length] in Hle; lia].
    rewrite (len_cons (ch ":")). by apply emits_after.
  - rewrite bool_decide_false by (intros [? ?]; done). apply emits_skip. }
pose proof (field_after F_headers (ch "?") _ (headers_in H)) as Hhe.
pose proof (field_after F_passwd (ch ":") _ (passwd_in H)) as Hpw.
assert (Hus : emits MAX_URI_SIZE (whenW (negb (is_null (u_str u F_user))) (room MAX_URI_SIZE (str_len (u_str u F_user)) >>> copy_str MAX_URI_SIZE m (u_str u F_user)))
  (default [] (user_name t)) (len (default [] (user_name t)))).
{ pose proof (user_in H) as Hu. rewrite (is_null_in _ _ _ Hu), negb_involutive. destruct (user_name t) as [n|]; cbn in Hu.
  - rewrite bool_decide_true by eauto. destruct Hu as [_ Hu]. apply emits_copy; [done|]. by destruct Hu.
  - rewrite bool_decide_false by (intros [? ?]; done). apply emits_skip. }
assert (Hat : emits MAX_URI_SIZE (whenW (negb (is_null (u_str u F_user))) (room MAX_URI_SIZE 1 >>> put_char MAX_URI_SIZE (ch "@")))
  (at_sign t) (len (at_sign t))).
{ rewrite (is_null_in _ _ _ (user_in H)), negb_involutive. unfold at_sign. destruct (user_name t) as [n|].
  - rewrite bool_decide_true by eauto. apply emits_char.
  - rewrite bool_decide_false by (intros [? ?]; done). apply emits_skip. }
assert (Hho : emits MAX_URI_SIZE (room MAX_URI_SIZE (str_len xh + 1) >>> copy_str MAX_URI_SIZE mh xh)
  (host_chars (a_host (t_authority (redirected h p t)))) (len (host_chars (a_host (t_authority (redirected h p t)))) + 1)).
{ destruct Hh as [El Hh]. fold (len (host_chars (a_host (t_authority (redirected h p t))))) in El. rewrite El.
  apply room_writes; [|lia]. unfold copy_str. rewrite El. by apply writes_copy. }
eapply emits_seq_eq; [apply (scheme_emits H)|repeat (eapply emits_seq; [eassumption|])| |].
- eapply emits_seq; [eapply emits_seq; [exact Hat|exact Hho]|]. eapply emits_seq; [exact Hpe|]. eapply emits_seq; [exact dst_params_emits|exact Hhe].
- f_equal. unfold text_chars, authority_chars, redirected, at_sign, user_name, user_passwd. cbn [t_authority t_params t_headers a_user a_host a_port].
  subst po. destruct (a_user (t_authority t)) as [[n [pw|]]|];
    cbn [fmap option_fmap option_map fst snd default from_option id mbind option_bind user_chars];
    repeat (rewrite <- !app_assoc; cbn [app]); done.
- unfold text_chars, authority_chars, redirected, at_sign, user_name, user_passwd. cbn [t_authority t_params t_headers a_user a_host a_port].
  cbn zeta. destruct (a_user (t_authority t)) as [[n [pw|]]|]; cbn [fmap option_fmap option_map fst snd default from_option id mbind option_bind user_chars];
    rewrite ?len_app, ?len_cons, ?len_app, ?len_nil; change (len [ch "@"]) with 1; destruct (t_headers t); cbn [headers_chars]; subst po; lia.
Qed.
End dst_text.

(** The destination with the new host and port, or -1 if it is too long. *)
Lemma set_dst_host_port_text g o a sch ty t ms host port h p :
  Msg.m_dst_uri g = Some o → uri_at (Msg.o_block o) (Str (mbase (Msg.o_block o)) (Msg.o_len o)) sch ty t →
  arg_in ms host h → arg_in ms port p → h ≠ Some [] →
  let l := sch ++ text_chars (redirected h p t) in
  (len l < MAX_URI_SIZE →
   set_dst_host_port (Some a) g ms host port = Ok (0, set_dst (Some (Msg.Owned (Mem a (l ++ [NUL])) (len l))) g)) ∧
  (MAX_URI_SIZE < len l → set_dst_host_port (Some a) g ms host port = Ok (-1, g)).
Proof.
  intros Ho Hx Hh Hp Hne l. destruct (parse_in _ _ _ _ _ Hx) as (u & Hu & Hin). cbn [str_s str_len] in Hu, Hin.
  pose proof (dst_parts_emits Hin ms host port h p Hh Hp) as He. fold l in He.
  destruct (finish_emits _ _ _ a He ltac:(lia)) as [Hfit Hlong]. unfold set_dst_host_port. rewrite Ho.
  assert (E1 : (Msg.o_len o =? 0) = false).
  { destruct Hx as [_ Hsch _ [El _] _]. cbn [str_len] in El. destruct (Z.eqb_spec (Msg.o_len o) 0) as [E|]; [|done].
    destruct sch; [by destruct Hsch as [[? _]|[? _]]|]. cbn [app length] in El. lia. }
  rewrite E1.
  assert (E2 : match host with Some h => (str_s h =? 0) || (str_len h =? 0) | None => false end = false).
  { destruct host as [x|], h as [y|]; try done. destruct Hh as [Hs [El _]]. destruct (Z.eqb_spec (str_s x) 0); [done|].
    destruct (Z.eqb_spec (str_len x) 0); [|done]. destruct y; [done|]. cbn [length] in El. lia. }
  rewrite E2, Hu. cbn [mbind res_bind]. change (0 <? 0) with false. cbv iota. split.
  - intros Hroom. destruct (Hfit Hroom) as [-> Hf]. cbn [mbind res_bind]. by rewrite Hf.
  - intros Hl. by rewrite (Hlong Hl).
Qed.

(** *** The setters *)

(** A member that may be written in place: the length lies inside of its block. *)
Definition owned_ok (o : option Msg.owned) : Prop :=
  match o with Some o => Msg.o_len o ≤ len (mdata (Msg.o_block o)) ∧ 0 < mbase (Msg.o_block o) | None => True end.

Lemma set_copy_text old ms x l a size : owned_ok old → 0 < a → len l ≤ size → str_s x ≠ 0 → l ≠ [] → holds ms x l →
  ∃ o, set_copy (Some a) size old ms (Some x) = Ok (0, Some o) ∧ Msg.o_len o = len l ∧ owned_ok (Some o) ∧
    bytes_at (Msg.o_block o) (mbase (Msg.o_block o)) l.
Proof.
  intros Hold Ha Hsize Hs Hne [El Hat]. fold (len l) in El. pose proof (len_nonneg l).
  assert (Hpos : len l ≠ 0) by (destruct l; [done|rewrite len_cons; pose proof (len_nonneg l); lia]).
  unfold set_copy. rewrite El. destruct (Z.eqb_spec (str_s x) 0), (Z.eqb_spec (len l) 0); try done. cbn [orb].
  destruct (Z.ltb_spec (len l) 0); [lia|]. replace (memcpy ms (str_s x) (Z.to_nat (len l))) with (Ok l)
    by (unfold len; rewrite Nat2Z.id; symmetry; by apply memcpy_at).
  assert (Hfresh : ∃ o, (l0 ← Ok l; if size <? len l0 then Fault a else mret (0, Some (Msg.Owned (Mem a l0) (len l)))) = Ok (0, Some o) ∧
    Msg.o_len o = len l ∧ owned_ok (Some o) ∧ bytes_at (Msg.o_block o) (mbase (Msg.o_block o)) l).
  { cbn [mbind res_bind]. destruct (Z.ltb_spec size (len l)); [lia|]. eexists. split; [done|]. split; [done|]. split; [done|].
    exact (bytes_at_data (Mem a l)). }
  destruct old as [o|]; [|exact Hfresh]. destruct (Z.leb_spec (len l) (Msg.o_len o)) as [Hle|_]; [|exact Hfresh].
  destruct Hold as [Ho Hb]. cbn [mbind res_bind]. destruct (Z.ltb_spec (len (mdata (Msg.o_block o))) (len l)); [lia|].
  eexists. split; [done|]. split; [done|]. cbn [owned_ok Msg.o_len Msg.o_block mdata mbase]. split; [split; [|done]|].
  - rewrite len_app. pose proof (len_nonneg (drop (length l) (mdata (Msg.o_block o)))). lia.
  - pose proof (bytes_at_data (Mem (mbase (Msg.o_block o)) (l ++ drop (length l) (mdata (Msg.o_block o))))) as Hd.
    cbn [mbase mdata] in Hd. by apply bytes_at_app in Hd as [? _].
Qed.

(** After [set_ruri] the request URI is the one that was given. *)
Lemma set_ruri_text m g ms x l a sch ty t : owned_ok (Msg.m_new_uri g) → 0 < a → str_s x ≠ 0 → holds ms x l →
  l = sch ++ text_chars t → scheme_ok sch ty → text_ok t → len l < 2 ^ 31 →
  ∃ o g', set_ruri (Some a) g ms (Some x) = Ok (0, g') ∧ g' = set_new_uri (Some o) false g ∧ owned_ok (Some o) ∧
    ∃ u, Msg.parse_sip_msg_uri m g' = Ok (0, Msg.set_parsed_uri true u g') ∧
      u ≡ text_put (mbase (Msg.o_block o) + len sch) t (set_uri_type ty uri_zero).
Proof.
  intros Hold Ha Hs Hx -> Hsch Ht Hlen.
  assert (Hne : sch ++ text_chars t ≠ []).
  { intros [E _]%app_eq_nil. rewrite E in Hsch. by destruct Hsch as [[? _]|[? _]]. }
  pose proof Hx as [El _]. fold (len (sch ++ text_chars t)) in El.
  destruct (set_copy_text (Msg.m_new_uri g) ms x (sch ++ text_chars t) a (str_len x + 1) Hold Ha ltac:(lia) Hs Hne Hx) as (o & Ho & Hl & Hok & Hat).
  exists o, (set_new_uri (Some o) false g). unfold set_ruri. rewrite Ho. cbn [mbind res_bind].
  assert (Hn0 : (str_s x =? 0) || (str_len x =? 0) = false).
  { destruct (Z.eqb_spec (str_s x) 0); [done|]. destruct (Z.eqb_spec (str_len x) 0) as [E|]; [|done].
    rewrite El in E. destruct (sch ++ text_chars t) as [|c r]; [done|]. rewrite len_cons in E. pose proof (len_nonneg r). lia. }
  rewrite Hn0. split; [done|]. split; [done|]. split; [done|].
  destruct (parse_uri_at _ (mbase (Msg.o_block o)) sch ty t Hsch Ht ltac:(by destruct Hok) Hat Hlen) as (u & Hu & E).
  exists u. split; [|done]. unfold Msg.parse_sip_msg_uri. cbn [set_new_uri Msg.m_parsed_uri_ok Msg.m_new_uri]. rewrite Hl, Hu. done.
Qed.

(** An empty URI removes the new URI of the message, but what was parsed from it is
    still taken for the parsed URI: its strings point into the block that is freed. *)
Lemma set_ruri_stale m g ms malloc : Msg.m_parsed_uri_ok g = true →
  set_ruri malloc g ms (Some null_str) = Ok (0, set_new_uri None true g) ∧
  Msg.parse_sip_msg_uri m (set_new_uri None true g) = Ok (1, set_new_uri None true g).
Proof. intros Hok. split; [|done]. unfold set_ruri. cbn. by rewrite Hok. Qed.

(** When no memory is left the URI that the message had is lost, although -1 is
    returned; the other callers of [pkg_realloc] do the same. *)
Lemma set_ruri_loses g ms x o : Msg.m_new_uri g = Some o → Msg.o_len o < str_len x → 0 < str_s x → 0 < str_len x →
  set_ruri None g ms (Some x) = Ok (-1, set_new_uri None (Msg.m_parsed_uri_ok g) g).
Proof.
  intros Ho Hlen Hs Hl. unfold set_ruri, set_copy. rewrite Ho.
  assert (E1 : (str_s x =? 0) = false) by lia. assert (E2 : (str_len x =? 0) = false) by lia.
  assert (E3 : (str_len x <=? Msg.o_len o) = false) by lia. rewrite E1, E2. cbn [orb]. by rewrite E3.
Qed.

(** The original URI is that of the request line, whatever the message was given since. *)
Lemma parse_orig_ruri_text m g u0 sch ty t : uri_at m (FirstLine.u_second (Msg.m_first_line g)) sch ty t →
  ∃ u, parse_orig_ruri m (Msg.m_first_line g) (false, u0) = Ok (0, (true, u)) ∧
    u ≡ text_put (str_s (FirstLine.u_second (Msg.m_first_line g)) + len sch) t (set_uri_type ty uri_zero) ∧
    parse_orig_ruri m (Msg.m_first_line g) (true, u) = Ok (1, (true, u)).
Proof.
  intros Hx. destruct (parse_in _ _ _ _ _ Hx) as (u & Hu & Hin). exists u. split; [|split; [by destruct Hin|done]].
  unfold parse_orig_ruri. cbn [fst]. rewrite Hu. done.
Qed.

(** ** Properties *)

(** C37: [rewrite_ruri] replaces, in every URI of the grammar, the part that it is asked
    for (the host without or with the port, the user without or with the password, the
    port, a prefix of the user, characters stripped at its beginning or end) and keeps
    all others, but for the last [maddr] parameter that is dropped with the host and an
    empty port that is dropped; the message then has the new URI, whose parts are
    those of any text of the grammar with these characters.  A URI that would be
    longer than 1024 characters is refused and the message stays as it is. *)
Theorem rewrite_ruri_text m g a sch ty t ms sval v ival part :
  uri_at (fst (current_uri m g)) (snd (current_uri m g)) sch ty t → 0 < a →
  str_s sval ≠ 0 → holds ms sval v → 0 ≤ ival →
  let l := sch ++ text_chars (rewritten part v ival t) in
  let g' := set_new_uri (Some (Msg.Owned (Mem a (l ++ [NUL])) (len l))) false g in
  (rewrite_room part v ival sch t < MAX_URI_SIZE →
   rewrite_ruri m (Some a) g ms sval ival part = Ok (0, g') ∧
   ∀ t', text_ok t' → text_chars t' = text_chars (rewritten part v ival t) →
     ∃ u, Msg.parse_sip_msg_uri m g' = Ok (0, Msg.set_parsed_uri true u g') ∧
       u ≡ text_put (a + len sch) t' (set_uri_type ty uri_zero)) ∧
  (MAX_URI_SIZE < len l → rewrite_ruri m (Some a) g ms sval ival part = Ok (-1, g)).
Proof.
  intros Hx Ha Hs Hv Hi l g'. destruct (rewrite_ruri_emits m g a sch ty t ms sval v ival part Hx Hs Hv Hi) as [Hfit Hlong].
  split; [|exact Hlong]. intros Hroom. split; [by apply Hfit|]. intros t' Ht' E.
  pose proof (rewrite_room_le part v ival sch t) as Hle. fold l in Hle. unfold MAX_URI_SIZE in Hroom.
  apply parsed_anew; [by destruct Hx|done|unfold l; by rewrite E|done|lia].
Qed.

(** A request with the URI [uri]. *)
Definition uri_msg (uri : list Z) : Msg.sip_msg :=
  Msg.set_line (FirstLine.MsgStart FirstLine.SIP_REQUEST 0 null_str (Str 4096 (len uri)) null_str 0) (Msg.new_msg 4096 (len uri)).

Definition rewrite_example : uri_text :=
  UriText (Authority (Some (chars "bob", Some (chars "pw"))) (HName (chars "a.b")) (Some (chars "5060")))
    [(chars "maddr", Some (chars "1.2.3.4")); (chars "lr", None)] (Some (chars "h=1")).

Lemma rewrite_ruri_text_witness :
  let uri := chars "sip:" ++ text_chars rewrite_example in
  let l := chars "sip:bob:pw@c.d:7:5060;lr?h=1" in
  let g' := set_new_uri (Some (Msg.Owned (Mem 9000 (l ++ [NUL])) (len l))) false (uri_msg uri) in
  (rewrite_room RW_RURI_HOST (chars "c.d:7") 0 (chars "sip:") rewrite_example < MAX_URI_SIZE →
   rewrite_ruri (block uri) (Some 9000) (uri_msg uri) (block (chars "c.d:7")) (Str 4096 5) 0 RW_RURI_HOST = Ok (0, g') ∧
   ∀ t', text_ok t' → text_chars t' = text_chars (rewritten RW_RURI_HOST (chars "c.d:7") 0 rewrite_example) →
     ∃ u, Msg.parse_sip_msg_uri (block uri) g' = Ok (0, Msg.set_parsed_uri true u g') ∧
       u ≡ text_put (9000 + 4) t' (set_uri_type SIP_URI_T uri_zero)) ∧
  (MAX_URI_SIZE < len l →
   rewrite_ruri (block uri) (Some 9000) (uri_msg uri) (block (chars "c.d:7")) (Str 4096 5) 0 RW_RURI_HOST = Ok (-1, uri_msg uri)).
Proof.
  apply (rewrite_ruri_text _ (uri_msg (chars "sip:" ++ text_chars rewrite_example)) 9000 (chars "sip:") SIP_URI_T rewrite_example).
  - split; [done|by left| |split; [done|apply block_bytes]|done]. split.
    + split; [split; [done|split; plain_ok]|split; [done|plain_ok]|repeat constructor; by vm_compute].
    + repeat apply Forall_cons_2; [..|apply Forall_nil_2]; (split; [split; [done|split; [plain_ok|done]]|]); [|done]. split; [done|plain_ok].
    + plain_ok.
  - done.
  - done.
  - split; [done|apply block_bytes].
  - done.
Defined.

(** The NUL is written without a check: a new URI of exactly 1024 characters, here of a
    host name of 1020, ends with a write behind the buffer. *)
Lemma rewrite_ruri_overflow :
  let v := replicate 1020 (ch "h") in
  rewrite_ruri (block (chars "sip:h")) (Some 9000) (uri_msg (chars "sip:h")) (block v) (Str 4096 1020) 0 RW_RURI_HOST =
  Fault (9000 + 1024).
Proof. by vm_compute. Qed.

(** Without a user name a password is written behind the colon alone; the result is
    not accepted by [parse_uri]. *)
Lemma rewrite_ruri_no_user :
  match rewrite_ruri (block (chars "sip:bob:pw@h")) (Some 9000) (uri_msg (chars "sip:bob:pw@h")) (block []) (Str 4096 0) 3 RW_RURI_STRIP with
  | Ok (0, g) => match Msg.m_new_uri g with Some o => mdata (Msg.o_block o) = chars "sip::pw@h" ++ [NUL] | None => False end ∧
      match Msg.parse_sip_msg_uri (block []) g with Ok (r, _) => r = -1 | _ => False end
  | _ => False
  end.
Proof. by vm_compute. Qed.
