(* ===== verification/UriPrint.v ===== *)
(** * What [print_uri] prints for a parsed URI, and what is parsed from it *)

From stdpp Require Import strings.
From S2P Require Import ParserF UriData Uri UriParamRun UriGrammar.
From S2P Require Import UriOps.

Local Open Scope writer_scope.

Abbreviation uri_params := (list (list Z * option (list Z))).

(** ** The canonical text *)

(** The last parameter that is recorded in the member [f]. *)
Fixpoint last_param (f : uri_field) (ps : uri_params) : uri_params :=
  match ps with
  | [] => []
  | it :: ps => match last_param f ps with [] => if named f it then [it] else [] | l => l end
  end.

Definition is_unknown (it : list Z * option (list Z)) : bool := match known (fst it) with None => true | Some _ => false end.

Fixpoint unknown_params (ps : uri_params) : uri_params :=
  match ps with [] => [] | it :: ps => (if is_unknown it then [it] else []) ++ unknown_params ps end.

(** An empty value is not recorded. *)
Definition drop_empty (it : list Z * option (list Z)) : list Z * option (list Z) := (fst it, snd it ≫= keep_nonempty).

(** First the recognised parameters, in a fixed order; then the first ten others. *)
Definition printed_params (ps : uri_params) : uri_params :=
  flat_map (λ f, last_param f ps) printed_fields ++ map drop_empty (take 10 (unknown_params ps)).

(** The at sign is there even where there is no user; the headers are not printed. *)
Definition printed (t : uri_text) : uri_text :=
  let a := t_authority t in
  UriText (Authority (Some (default [] (user_name t), user_passwd t)) (a_host a) (a_port a)) (printed_params (t_params t)) None.

Definition printed_scheme (ty : uri_type) : list Z := chars (uri_type_name ty) ++ [ch ":"].

(** ** Facts about the parameters *)
Lemma last_param_at f b ps : last_param f ps = match last_at f b ps with Some (_, it) => [it] | None => [] end.
Proof.
  revert b. induction ps as [|[n v] ps IH]; intros b; [done|]. cbn [last_param last_at].
  rewrite (IH (b + len (param_text n v) + 1)). destruct (last_at _ _ ps) as [[p it]|]; [done|]. unfold named. cbn [fst].
  by destruct (names_field f n).
Qed.

Lemma unknown_params_at b ps : unknown_params ps = map snd (unknown_at b ps).
Proof.
  revert b. induction ps as [|[n v] ps IH]; intros b; [done|]. cbn [unknown_params unknown_at]. rewrite map_app, <- IH.
  unfold is_unknown. cbn [fst]. by destruct (known n).
Qed.

Lemma unknown_at_bytes m b ps : bytes_at m (b - 1) (params_chars ps) →
  Forall (λ x, b ≤ fst x ∧ bytes_at m (fst x) (param_text (fst (snd x)) (snd (snd x)))) (unknown_at b ps).
Proof.
  revert b. induction ps as [|[n v] ps IH]; intros b Hat; [done|]. rewrite params_chars_cons in Hat. destruct Hat as [_ Hat].
  replace (b - 1 + 1) with b in Hat by lia. apply bytes_at_app in Hat as [Hn Hat]. fold (len (param_text n v)) in Hat.
  cbn [unknown_at]. apply Forall_app. split.
  - destruct (known n); [done|]. apply Forall_cons_2; [by split; cbn; [lia|]|done].
  - specialize (IH (b + len (param_text n v) + 1)). replace (b + len (param_text n v) + 1 - 1) with (b + len (param_text n v)) in IH by lia.
    specialize (IH Hat). eapply Forall_impl; [exact IH|]. intros x [Hx ?]. pose proof (len_nonneg (param_text n v)). split; [lia|done].
Qed.

(** ** Emission *)
Lemma emits_all size ws ls : Forall2 (λ w l, emits size w l (len l)) ws ls → emits size (all_w ws) (concat ls) (len (concat ls)).
Proof.
  induction 1 as [|w l ws ls Hw _ IH]; [apply emits_skip|]. cbn [all_w concat]. rewrite len_app. by apply emits_seq.
Qed.

Section print.
Context (size : Z) {m tmp sch ty t u} (H : uri_in m tmp sch ty t u).

Lemma chunk_emits x l : holds m x l → emits size (append_str_chunk size m x) l (len l).
Proof. intros Hx. apply emits_copy; [done|]. by destruct Hx. Qed.

Lemma char_chunk_emits c x l : holds m x l → emits size (append_char size c >>> append_str_chunk size m x) (c :: l) (len (c :: l)).
Proof. intros Hx. rewrite len_cons. apply (emits_seq size _ _ [c] l); [apply emits_char|by apply chunk_emits]. Qed.

(** A member with a character before it. *)
Lemma field_emits c x l : field_in m x l →
emits size (whenW (negb (is_null x)) (append_char size c >>> append_str_chunk size m x))
  (match l with Some l => c :: l | None => [] end) (len (match l with Some l => c :: l | None => [] end)).
Proof.
intros Hf. rewrite (is_null_in _ _ _ Hf), negb_involutive. destruct l as [l|]; cbn in Hf.
- rewrite bool_decide_true by eauto. destruct Hf as [_ Hf]. by apply char_chunk_emits.
- rewrite bool_decide_false by (intros [? ?]; done). apply emits_skip.
Qed.

Lemma row_emits r : r ∈ param_rows →
emits size (append_param size m u (r_field r)) (params_chars (last_param (r_field r) (t_params t)))
  (len (params_chars (last_param (r_field r) (t_params t)))).
Proof.
intros Hr. pose proof (row_in H r Hr) as Hf. cbn zeta in Hf. pose proof (q_pos H) as Hq.
destruct (parts_at H) as (_ & _ & _ & _ & Hps & _). set (q := tmp + len sch + len (authority_chars (t_authority t))) in *.
rewrite (last_param_at _ (q + 1)). pose proof (last_at_split (r_field r) (q + 1) (t_params t)) as Hsplit. unfold append_param.
destruct (last_at _ _ _) as [[p [n v]]|].
- destruct Hf as [-> _]. destruct Hsplit as (ps1 & ps2 & E & -> & _ & _). rewrite E, params_chars_app, params_chars_cons in Hps.
  apply bytes_at_app in Hps as [_ [_ Hps]]. apply bytes_at_app in Hps as [Hps _]. fold (len (params_chars ps1)) in Hps.
  replace (q + len (params_chars ps1) + 1) with (q + 1 + len (params_chars ps1)) in Hps by lia.
  rewrite params_chars_cons. cbn [params_chars]. rewrite app_nil_r. pose proof (len_nonneg (params_chars ps1)).
  apply (field_emits (ch ";") _ (Some (param_text n v))). apply in_field; [lia|done].
- rewrite Hf. apply emits_skip.
Qed.

(** An entry of the table of the unknown parameters. *)
Lemma entry_in i x : unknown_at (tmp + len sch + len (authority_chars (t_authority t)) + 1) (t_params t) !! i = Some x → (i < 10)%nat →
∃ a b, u_name u !! i = Some a ∧ u_val u !! i = Some b ∧
  field_in m a (Some (fst (snd x))) ∧ field_in m b (snd (snd x) ≫= keep_nonempty).
Proof.
intros Hi Hlt. pose proof (q_pos H) as Hq. destruct (parts_at H) as (_ & _ & _ & _ & Hps & _).
pose proof (text_put_table (tmp + len sch) t (set_uri_type ty uri_zero) [] (table_zero ty)) as Ht. cbn [app] in Ht.
set (q := tmp + len sch + len (authority_chars (t_authority t))) in *.
eapply table_equiv in Ht; [|symmetry; exact (ui_put _ _ _ _ _ _ H)]. destruct Ht as [_ _ En Ev].
set (l := take 10 (map unknown_entry (unknown_at (q + 1) (t_params t)))) in *.
assert (Hl : l !! i = Some (unknown_entry x)).
{ unfold l. rewrite lookup_take_lt by done. change (map unknown_entry) with (fmap (M:=list) unknown_entry). by rewrite list_lookup_fmap, Hi. }
exists (fst (unknown_entry x)), (snd (unknown_entry x)). rewrite En, Ev.
rewrite !lookup_app_l by (rewrite length_map; by apply lookup_lt_Some in Hl).
rewrite (list_lookup_fmap fst l i : map fst l !! i = _), (list_lookup_fmap snd l i : map snd l !! i = _), Hl. split; [done|]. split; [done|].
pose proof (unknown_at_bytes m (q + 1) (t_params t)) as Hat. replace (q + 1 - 1) with q in Hat by lia. specialize (Hat Hps).
eapply Forall_lookup_1 in Hat; [|exact Hi]. destruct x as [p [n v]]. cbn [fst snd] in Hat. destruct Hat as [Hp Hat].
unfold param_text in Hat. apply bytes_at_app in Hat as [Hn Hv]. fold (len n) in Hv. pose proof (len_nonneg n).
unfold unknown_entry. cbn [fst snd]. split; [apply in_field; [lia|done]|].
destruct v as [[|c v]|]; cbn [mbind option_bind keep_nonempty snd]; [done| |done].
destruct Hv as [_ Hv]. apply in_field; [lia|done].
Qed.

Lemma uk_emits i x : unknown_at (tmp + len sch + len (authority_chars (t_authority t)) + 1) (t_params t) !! i = Some x → (i < 10)%nat →
emits size (append_uk_param size m u i) (params_chars [drop_empty (snd x)]) (len (params_chars [drop_empty (snd x)])).
Proof.
intros Hi Hlt. destruct (entry_in i x Hi Hlt) as (a & b & Ha & Hb & Hn & Hv). unfold append_uk_param. rewrite Ha, Hb.
rewrite (is_null_in m a _ Hn), bool_decide_true by eauto. cbn [negb whenW]. destruct x as [p [n v]]. unfold drop_empty.
cbn [fst snd params_chars] in *. rewrite app_nil_r. destruct Hn as [_ Hn]. apply emits_assoc.
pose proof (field_emits (ch "=") b (v ≫= keep_nonempty) Hv) as Hw. pose proof (emits_seq _ _ _ _ _ _ _ (char_chunk_emits (ch ";") a n Hn) Hw) as He.
rewrite <- len_app in He. unfold param_text. by destruct (v ≫= keep_nonempty).
Qed.

Lemma type_put : u_type u = ty.
Proof. destruct (ui_put _ _ _ _ _ _ H) as (_ & _ & _ & E & _). by rewrite E, text_put_type. Qed.

Lemma put_type_emits : len (chars (uri_type_name ty)) ≤ size → put_type size u [] = Ok (Some (chars (uri_type_name ty))).
Proof. intros Hs. unfold put_type. rewrite type_put. by destruct (Z.ltb_spec size (len (chars (uri_type_name ty)))); [lia|]. Qed.

Lemma rows_emits :
emits size (all_w (map (append_param size m u) printed_fields))
  (params_chars (flat_map (λ f, last_param f (t_params t)) printed_fields))
  (len (params_chars (flat_map (λ f, last_param f (t_params t)) printed_fields))).
Proof.
assert (E : ∀ fs, params_chars (flat_map (λ f, last_param f (t_params t)) fs) = concat (map (λ f, params_chars (last_param f (t_params t))) fs)).
{ induction fs as [|f fs IH]; [done|]. cbn [flat_map map concat]. by rewrite params_chars_app, IH. }
rewrite E. apply emits_all. apply Forall2_fmap. apply Forall_Forall2_diag.
assert (Hrow : ∀ f, existsb (λ r, bool_decide (r_field r = f)) param_rows = true →
  emits size (append_param size m u f) (params_chars (last_param f (t_params t))) (len (params_chars (last_param f (t_params t))))).
{ intros f (r & Hr & Hf)%existsb_exists. apply bool_decide_eq_true in Hf as <-. apply row_emits. by apply list_elem_of_In. }
repeat (apply Forall_cons_2; [by apply Hrow|]). apply Forall_nil_2.
Qed.

Lemma table_emits :
emits size (all_w (map (append_uk_param size m u) (seq 0 (Z.to_nat (u_params_no u)))))
  (params_chars (map drop_empty (take 10 (unknown_params (t_params t)))))
  (len (params_chars (map drop_empty (take 10 (unknown_params (t_params t)))))).
Proof.
pose proof (text_put_table (tmp + len sch) t (set_uri_type ty uri_zero) [] (table_zero ty)) as Ht. cbn [app] in Ht.
eapply table_equiv in Ht; [|symmetry; exact (ui_put _ _ _ _ _ _ H)]. destruct Ht as [_ Hno _ _]. rewrite Hno, Nat2Z.id.
set (b := tmp + len sch + len (authority_chars (t_authority t)) + 1) in *. rewrite (unknown_params_at b).
assert (E : ∀ l, params_chars (map drop_empty l) = concat (map (λ it, params_chars [drop_empty it]) l)).
{ induction l as [|it l IH]; [done|]. cbn [map concat]. rewrite <- IH. apply (params_chars_app [drop_empty it]). }
rewrite E. apply emits_all. rewrite length_take, length_map. apply Forall2_same_length_lookup_2.
- rewrite !length_map, length_seq, length_take, length_map. done.
- intros i w l Hw Hl. apply list_lookup_fmap_Some in Hw as (j & -> & Hj). apply lookup_seq in Hj as [-> Hj].
  apply list_lookup_fmap_Some in Hl as (it & -> & Hit). rewrite Nat.add_0_l in *.
  apply lookup_take_Some in Hit as [Hit Hlt]. apply list_lookup_fmap_Some in Hit as (x & -> & Hx). by apply uk_emits.
Qed.

Lemma print_emits : len (chars (uri_type_name ty)) ≤ size →
let l := printed_scheme ty ++ text_chars (printed t) in
print_uri size m u = Ok (if len l <=? size then Some l else None).
Proof.
intros Hs l. set (name := chars (uri_type_name ty)) in *.
assert (Huser : emits size (append_str_chunk size m (u_str u F_user)) (default [] (user_name t)) (len (default [] (user_name t)))).
{ apply chunk_emits. pose proof (user_in H) as Hu. destruct (user_name t) as [n|]; cbn in Hu; [by destruct Hu|]. by rewrite Hu. }
pose proof (emits_seq _ _ _ _ _ _ _ (emits_char size (ch ":")) (emits_seq _ _ _ _ _ _ _ Huser
  (emits_seq _ _ _ _ _ _ _ (field_emits (ch ":") _ _ (passwd_in H))
  (emits_seq _ _ _ _ _ _ _ (field_emits (ch "@") _ _ (host_in H))
  (emits_seq _ _ _ _ _ _ _ (field_emits (ch ":") _ _ (port_in H)) (emits_seq _ _ _ _ _ _ _ rows_emits table_emits)))))) as [_ He].
specialize (He name Hs). match type of He with (?w = _ ∧ _) ∨ _ => assert (Ew : print_uri size m u = w) end.
{ unfold print_uri, print_parts. unfold seqW at 1. by rewrite put_type_emits. }
rewrite Ew. clear Ew. match type of He with (?w = _ ∧ len name + len ?k ≤ _) ∨ _ => assert (E : l = name ++ k) end.
{ unfold l, printed_scheme. fold name. rewrite <- app_assoc. f_equal. cbn [app]. f_equal. unfold text_chars, authority_chars, printed, printed_params.
  cbn [t_authority t_params t_headers a_user a_host a_port user_chars headers_chars]. rewrite params_chars_app, app_nil_r.
  change (match a_port (t_authority t) with Some l => ch ":" :: l | None => [] end) with (port_chars (a_port (t_authority t))).
  destruct (user_passwd t) as [pw|]; cbn [user_chars]; repeat (rewrite <- !app_assoc; cbn [app]); done. }
match type of He with _ ∨ (_ ∧ _ < _ + ?n) => assert (En : len name + n = len l) end.
{ rewrite E, !len_app. change (len [ch ":"]) with 1. lia. }
rewrite En in He. rewrite <- E in He.
assert (El : len l ≤ size ↔ len name + len _ ≤ size) by (rewrite E, len_app; reflexivity). rewrite <- El in He.
destruct He as [[-> Hl]|[-> Hl]]; destruct (Z.leb_spec (len l) size); lia || done.
Qed.
End print.

(** ** The canonical text is well-formed, and its own canonical text *)
Lemma last_param_sub f ps : Forall (λ it, it ∈ ps) (last_param f ps).
Proof.
  induction ps as [|it ps IH]; [done|]. cbn [last_param]. destruct (last_param f ps) as [|i l].
  - destruct (named f it); [apply Forall_cons_2; [left|done]|done].
  - eapply Forall_impl; [exact IH|]. intros x Hx. by right.
Qed.

Lemma unknown_params_sub ps : Forall (λ it, it ∈ ps ∧ known (fst it) = None) (unknown_params ps).
Proof.
  induction ps as [|it ps IH]; [done|]. cbn [unknown_params]. apply Forall_app. split.
  - unfold is_unknown. destruct (known (fst it)) eqn:E; [done|]. apply Forall_cons_2; [split; [left|done]|done].
  - eapply Forall_impl; [exact IH|]. intros x [Hx ?]. split; [by right|done].
Qed.

Lemma printed_params_ok ps : params_ok ps → params_ok (printed_params ps).
Proof.
  intros Hps. apply Forall_app. split.
  - apply Forall_flat_map, Forall_forall. intros f _. eapply Forall_impl; [apply last_param_sub|].
    intros it Hit. by eapply Forall_forall in Hps.
  - apply Forall_map, Forall_take. eapply Forall_impl; [apply unknown_params_sub|]. intros [n v] [Hit Hk].
    eapply Forall_forall in Hps; [|exact Hit]. unfold drop_empty. cbn [fst snd] in *. destruct Hps as [Hn Hok]. split; [done|].
    rewrite Hk in *. destruct v as [[|c v]|]; cbn [mbind option_bind keep_nonempty]; [by destruct Hok|done|done].
Qed.

Lemma printed_ok t : text_ok t → a_user (t_authority t) ≠ None → text_ok (printed t).
Proof.
  intros [[Hu Hh Hp] Hps _] Hne. split; [|by apply printed_params_ok|done]. unfold printed. cbn [t_authority]. split; [|done|done].
  cbn [a_user]. unfold user_name, user_passwd. destruct (a_user (t_authority t)) as [[n pw]|]; [|done]. exact Hu.
Qed.

Lemma printed_scheme_ok sch ty : scheme_ok sch ty → scheme_ok (printed_scheme ty) ty.
Proof. intros [[_ ->]|[_ ->]]; [by left|by right]. Qed.

Lemma last_param_app f ps ps' :
  last_param f (ps ++ ps') = match last_param f ps' with [] => last_param f ps | l => l end.
Proof.
  induction ps as [|it ps IH]; cbn [app last_param]; [by destruct (last_param f ps')|]. rewrite IH.
  by destruct (last_param f ps').
Qed.

Lemma last_param_named f ps : Forall (λ it, named f it = true) (last_param f ps).
Proof.
  induction ps as [|it ps IH]; [done|]. cbn [last_param]. destruct (last_param f ps) as [|i l]; [|exact IH].
  destruct (named f it) eqn:E; [by apply Forall_cons_2|done].
Qed.

Lemma last_param_none f ps : Forall (λ it, named f it = false) ps → last_param f ps = [].
Proof. induction 1 as [|it ps Hit _ IH]; [done|]. cbn [last_param]. by rewrite IH, Hit. Qed.

Lemma last_param_last f ps : last_param f (last_param f ps) = last_param f ps.
Proof.
  induction ps as [|it ps IH]; [done|]. cbn [last_param]. destruct (last_param f ps) as [|i l]; [|exact IH].
  destruct (named f it) eqn:E; [|done]. cbn [last_param]. by rewrite E.
Qed.

Lemma named_fun f g it : named f it = true → named g it = true → f = g.
Proof.
  unfold named, names_field. destruct (known (fst it)) as [r|]; [|done].
  intros ->%bool_decide_eq_true ->%bool_decide_eq_true. done.
Qed.

Lemma last_of_printed f ps fs : NoDup fs →
  last_param f (flat_map (λ g, last_param g ps) fs) = if bool_decide (f ∈ fs) then last_param f ps else [].
Proof.
  induction 1 as [|g fs Hg _ IH]; [done|]. cbn [flat_map]. rewrite last_param_app, IH. case_bool_decide as Hf.
  - rewrite bool_decide_true by (by right). destruct (last_param f ps) eqn:E; [|done].
    apply last_param_none. destruct (decide (f = g)) as [->|Hne]; [done|]. eapply Forall_impl; [apply last_param_named|].
    intros it Hit. destruct (named f it) eqn:Ef; [|done]. destruct Hne. by eapply named_fun.
  - destruct (decide (f = g)) as [->|Hne].
    + rewrite bool_decide_true by (by left). apply last_param_last.
    + rewrite bool_decide_false by (rewrite elem_of_cons; tauto). apply last_param_none.
      eapply Forall_impl; [apply last_param_named|]. intros it Hit. destruct (named f it) eqn:Ef; [|done].
      destruct Hne. by eapply named_fun.
Qed.

Lemma unknown_named f it : known (fst it) = None → named f it = false.
Proof. unfold named, names_field. by intros ->. Qed.

Lemma unknown_params_app ps ps' : unknown_params (ps ++ ps') = unknown_params ps ++ unknown_params ps'.
Proof. induction ps as [|it ps IH]; [done|]. cbn [app unknown_params]. by rewrite IH, app_assoc. Qed.

Lemma unknown_of_known ps fs : unknown_params (flat_map (λ g, last_param g ps) fs) = [].
Proof.
  induction fs as [|g fs IH]; [done|]. cbn [flat_map]. rewrite unknown_params_app, IH, app_nil_r.
  pose proof (last_param_named g ps) as Hn. induction Hn as [|it l Hit _ IHl]; [done|]. cbn [unknown_params]. rewrite IHl, app_nil_r.
  unfold is_unknown. unfold named, names_field in Hit. by destruct (known (fst it)).
Qed.

Lemma unknown_of_unknown ps : Forall (λ it, known (fst it) = None) ps → unknown_params ps = ps.
Proof. induction 1 as [|it ps Hit _ IH]; [done|]. cbn [unknown_params]. unfold is_unknown. by rewrite Hit, IH. Qed.

Lemma drop_empty_idem it : drop_empty (drop_empty it) = drop_empty it.
Proof. by destruct it as [n [[|c v]|]]. Qed.

Lemma printed_params_idem ps : printed_params (printed_params ps) = printed_params ps.
Proof.
  set (k := flat_map (λ f, last_param f ps) printed_fields). set (l := map drop_empty (take 10 (unknown_params ps))).
  change (printed_params ps) with (k ++ l).
  assert (Hl : Forall (λ it, known (fst it) = None) l).
  { apply Forall_map, Forall_take. eapply Forall_impl; [apply unknown_params_sub|]. by intros [n v] [_ ?]. }
  assert (El : map drop_empty (take 10 l) = l).
  { unfold l. rewrite take_ge by (rewrite length_map, length_take; lia). rewrite map_map. apply map_ext. apply drop_empty_idem. }
  unfold printed_params. f_equal.
  - assert (Hk : ∀ f, f ∈ printed_fields → last_param f (k ++ l) = last_param f ps).
    { intros f Hf. rewrite last_param_app, (last_param_none f l) by (eapply Forall_impl; [exact Hl|]; intros it; apply unknown_named).
      unfold k. rewrite last_of_printed by (apply (bool_decide_unpack _); by vm_compute). by rewrite bool_decide_true by done. }
    unfold k at 2. clearbody k l. revert Hk. generalize printed_fields as fs. induction fs as [|f fs IH]; intros Hk; [done|].
    cbn [flat_map]. rewrite Hk by left. f_equal. apply IH. intros g Hg. apply Hk. by right.
  - rewrite unknown_params_app. unfold k at 1. by rewrite unknown_of_known, (unknown_of_unknown l Hl), app_nil_l, El.
Qed.

Lemma printed_idem t : printed (printed t) = printed t.
Proof.
  unfold printed at 1. cbn [t_authority t_params printed a_host a_port user_name user_passwd a_user]. rewrite printed_params_idem.
  done.
Qed.

(** ** Properties *)

(** C38: printing a parsed URI.  If the buffer has room for the scheme then [print_uri]
    writes the canonical text of the URI, or fails if there is no room for it: the
    scheme in lower case, the user (and an at sign in any case) with the password, the
    host, the port, the last parameter of every recognised name in a fixed order, the
    first ten others, no headers.  The canonical text of a URI with a user is a URI
    of the grammar; it is parsed into its parts, and printing them yields it again. *)
Theorem print_uri_text m x sch ty t size :
  uri_at m x sch ty t → len (printed_scheme ty) ≤ size →
  let l := printed_scheme ty ++ text_chars (printed t) in
  ∃ u, parse_uri m (str_s x) (str_len x) = Ok (0, u) ∧
    print_uri size m u = Ok (if len l <=? size then Some l else None) ∧
    (a_user (t_authority t) ≠ None → ∀ m' x', 0 < str_s x' → holds m' x' l → len l < 2 ^ 31 →
     ∃ u', parse_uri m' (str_s x') (str_len x') = Ok (0, u') ∧
       u' ≡ text_put (str_s x' + len (printed_scheme ty)) (printed t) (set_uri_type ty uri_zero) ∧
       print_uri size m' u' = Ok (if len l <=? size then Some l else None)).
Proof.
  intros Hx Hs l. destruct (parse_in _ _ _ _ _ Hx) as (u & Hu & Hin). exists u.
  assert (Hs' : len (chars (uri_type_name ty)) ≤ size).
  { unfold printed_scheme in Hs. rewrite len_app in Hs. change (len [ch ":"]) with 1 in Hs. lia. }
  split; [exact Hu|]. split; [exact (print_emits size Hin Hs')|]. intros Hne m' x' Hpos Hx' Hlen.
  destruct Hx as [_ Hsch Hok _ _].
  assert (Hat : uri_at m' x' (printed_scheme ty) ty (printed t)).
  { split; [done|by eapply printed_scheme_ok|by apply printed_ok|done..]. }
  destruct (parse_in _ _ _ _ _ Hat) as (u' & Hu' & Hin'). exists u'. split; [exact Hu'|]. split; [by destruct Hin'|].
  pose proof (print_emits size Hin' Hs') as He. cbn zeta in He. by rewrite printed_idem in He.
Qed.

(** SIPS:bob@h:5;LR;a=;transport=tcp?x *)
Definition print_example : uri_text :=
  UriText (Authority (Some (chars "bob", None)) (HName (chars "h")) (Some (chars "5")))
    [(chars "LR", None); (chars "a", Some []); (chars "transport", Some (chars "tcp"))] (Some (chars "x")).

Lemma print_uri_text_witness :
  let uri := chars "SIPS:" ++ text_chars print_example in
  let l := chars "sips:bob@h:5;transport=tcp;LR;a" in
  ∃ u, parse_uri (block uri) 4096 (len uri) = Ok (0, u) ∧
    print_uri 100 (block uri) u = Ok (if len l <=? 100 then Some l else None) ∧
    (a_user (t_authority print_example) ≠ None → ∀ m' x', 0 < str_s x' → holds m' x' l → len l < 2 ^ 31 →
     ∃ u', parse_uri m' (str_s x') (str_len x') = Ok (0, u') ∧
       u' ≡ text_put (str_s x' + 5) (printed print_example) (set_uri_type SIPS_URI_T uri_zero) ∧
       print_uri 100 m' u' = Ok (if len l <=? 100 then Some l else None)).
Proof.
  apply (print_uri_text (block (chars "SIPS:" ++ text_chars print_example)) (Str 4096 34) (chars "SIPS:") SIPS_URI_T print_example 100).
  - split; [done|by right| |split; [done|apply block_bytes]|done]. split.
    + split; [split; [done|split; [plain_ok|done]]|split; [done|plain_ok]|repeat constructor; by vm_compute].
    + repeat apply Forall_cons_2; [..|apply Forall_nil_2].
      * split; [split; [done|split; [plain_ok|done]]|done].
      * split; [split; [done|split; [plain_ok|done]]|]. split; [done|plain_ok].
      * split; [split; [done|split; [plain_ok|done]]|]. split; [done|plain_ok].
    + plain_ok.
  - by vm_compute.
Defined.

Definition print_text (size : Z) (s : string) : option (list Z) :=
  match parse_uri (block (chars s)) 4096 (Z.of_nat (String.length s)) with
  | Ok (0, u) => match print_uri size (block (chars s)) u with Ok r => r | _ => None end
  | _ => None
  end.

(** A URI without a user is printed with an at sign that makes it another text, which
    [parse_uri] rejects; and the headers are lost. *)
Lemma print_uri_no_user :
  print_text 100 "sip:h"%string = Some (chars "sip:@h") ∧
  parse_text (λ _, tt) "sip:@h"%string = Some (E_BAD_URI, tt) ∧
  print_text 100 "sip:a@h?b=c"%string = Some (chars "sip:a@h").
Proof. by vm_compute. Qed.

(** The scheme is written whatever room there is. *)
Lemma print_uri_overflow u m : u_type u = SIP_URI_T → print_uri 2 m u = Fault 0.
Proof. intros E. unfold print_uri, print_parts, seqW at 1, put_type. by rewrite E. Qed.
