(* ===== verification/UriCompare.v ===== *)
(** * Comparing SIP URIs: [compare_uris], and [parse_uri_headers] (parse_uri.c) *)

From stdpp Require Import strings.
From S2P Require Import Escape.
From S2P Require Import ParserF UriData Uri UriParamRun UriGrammar.
From S2P Require Import UriOps.
From S2P Require Import UriPrint.

(** ** [compare_uris] *)

(** [strncmp(p, q, n) == 0], and with [tolower] for [f] [strncasecmp]. *)
Fixpoint strncmp_n (f : Z → Z) (ma : mem) (p : Z) (mb : mem) (q : Z) (n : nat) : res bool :=
  match n with
  | O => mret true
  | S n =>
      a ← rd ma p; b ← rd mb q;
      if f a =? f b then if a =? 0 then mret true else strncmp_n f ma (p + 1) mb (q + 1) n
      else mret false
  end.

(** [compare_uri_val]: [false] is [return 1]. *)
Definition compare_uri_val (f : Z → Z) (ma : mem) (x : str) (mb : mem) (y : str) : res bool :=
  if negb (str_len x =? str_len y) then mret false
  else if str_len x <? 0 then Fault (str_s x)
  else strncmp_n f ma (str_s x) mb (str_s y) (Z.to_nat (str_len x)).

Section compare.
Context (ma mb : mem).

(** [for (j=0;j<second.u_params_no;j++)], [n] of them left: [None] is [return 1]. *)
Fixpoint match_param (first second : sip_uri) (i j : nat) (matched : list bool) (n : nat) : res (option (list bool)) :=
match n with
| O => mret (Some matched)
| S n =>
    match matched !! j, u_name first !! i, u_name second !! j, u_val first !! i, u_val second !! j with
    | Some m, Some x, Some y, Some v, Some w =>
        same ← (if negb m && (str_len x =? str_len y) then compare_uri_val tolower ma x mb y else mret false);
        if same : bool then
          if negb (str_len v =? str_len w) then mret None
          else if str_len v =? 0 then mret (Some (<[j := true]> matched))
          else
            eq ← compare_uri_val tolower ma v mb w;
            mret (if eq : bool then Some (<[j := true]> matched) else None)
        else match_param first second i (S j) matched n
    | _, _, _, _, _ => Fault 0 (* beyond the tables *)
    end
end.

(** [for (i=0;i<first.u_params_no;i++)] *)
Fixpoint match_all (first second : sip_uri) (i : nat) (matched : list bool) (n : nat) : res bool :=
match n with
| O => mret true
| S n =>
    r ← match_param first second i 0 matched (Z.to_nat (u_params_no second));
    match r with None => mret false | Some matched => match_all first second (S i) matched n end
end.

(** The members that are compared without regard to case. *)
Definition compared_values : list uri_field :=
[F_transport_val; F_ttl_val; F_user_param_val; F_maddr_val; F_method_val; F_lr_val; F_r2_val].

Fixpoint all_equal (l : list (res bool)) : res bool :=
match l with [] => mret true | r :: l => b ← r; if b : bool then all_equal l else mret false end.

(** From the comparison of the user names on; the local buffers with the unescaped user
    names are blocks of their own. *)
Definition compare_parsed (first second : sip_uri) (ua ub : list Z) : res bool :=
let val f cmp := compare_uri_val cmp ma (u_str first f) mb (u_str second f) in
all_equal ([compare_uri_val id (Mem 1 ua) (Str 1 (len ua)) (Mem 1 ub) (Str 1 (len ub));
            val F_passwd id; val F_host tolower; val F_port id] ++ map (λ f, val f tolower) compared_values ++
           [if (u_params_no first =? 0) || (u_params_no second =? 0) then mret true
            else match_all first second 0 (replicate (Z.to_nat URI_MAX_U_PARAMS) false) (Z.to_nat (u_params_no first));
            val F_headers tolower]).

Definition UNESCAPED_BUF_LEN : Z := 1024.

(** [None] is a null pointer. *)
Definition the_uri (m : mem) (raw : option str) (parsed : option sip_uri) : res (option sip_uri) :=
match parsed, raw with
| Some u, _ => mret (Some u)
| None, Some x => '(r, u) ← parse_uri m (str_s x) (str_len x); mret (if r <? 0 then None else Some u)
| None, None => mret None
end.

Definition compare_uris (raw_a : option str) (parsed_a : option sip_uri) (raw_b : option str) (parsed_b : option sip_uri) : res Z :=
if match raw_a, parsed_a with None, None => true | _, _ => false end ||
   match raw_b, parsed_b with None, None => true | _, _ => false end then mret (-1) else
same ← (match raw_a, raw_b with Some a, Some b => compare_uri_val tolower ma a mb b | _, _ => mret false end);
if same : bool then mret 0 else
first ← the_uri ma raw_a parsed_a;
match first with
| None => mret (-1)
| Some first =>
    second ← the_uri mb raw_b parsed_b;
    match second with
    | None => mret (-1)
    | Some second =>
        if negb (bool_decide (u_type first = u_type second)) then mret 1 else
        '(ra, ua) ← unescape_user ma (u_str first F_user) UNESCAPED_BUF_LEN;
        if ra <? 0 then mret (-1) else
        '(rb, ub) ← unescape_user mb (u_str second F_user) UNESCAPED_BUF_LEN;
        if rb <? 0 then mret (-1) else
        eq ← compare_parsed first second ua ub;
        mret (if eq : bool then 0 else 1)
    end
end.
End compare.

(** ** [parse_uri_headers] *)
Record hstate := HState { hs_value : bool; hs_h : Z; hs_v : Z; hs_i : nat; hs_names : list str; hs_vals : list str }.

Section headers.
Context (m : mem) (h_size : nat).

(** A header is stored, and the next one begins at [p+1]; [None] is -1. *)
Definition next_header (p : Z) (x : hstate) : option hstate :=
let x := if hs_value x
  then HState false (p + 1) (hs_v x) (S (hs_i x)) (hs_names x) (<[hs_i x := slice (hs_v x) p]> (hs_vals x))
  else HState false (p + 1) (hs_v x) (S (hs_i x)) (<[hs_i x := slice (p + 1) p]> (hs_names x)) (<[hs_i x := null_str]> (hs_vals x)) in
if (hs_i x <? h_size)%nat then Some x else None.

Definition header_step (p c : Z) (x : hstate) : option hstate :=
if hs_value x then if c =? ch "?" then next_header p x else Some x
else if c =? ch "=" then
  Some (HState true (hs_h x) (p + 1) (hs_i x) (<[hs_i x := slice (hs_h x) p]> (hs_names x)) (hs_vals x))
else if c =? ch "?" then next_header p x
else Some x.

Fixpoint headers_loop (p : Z) (n : nat) (x : hstate) : res (option hstate) :=
match n with
| O => mret (Some x)
| S n =>
    c ← rd m p;
    match header_step p c x with None => mret None | Some x => headers_loop (p + 1) n x end
end.

(** The [switch] behind the loop. *)
Definition headers_end (p : Z) (x : hstate) : list str * list str :=
if hs_value x then (hs_names x, <[hs_i x := slice (hs_v x) p]> (hs_vals x))
else (<[hs_i x := slice (hs_h x) p]> (hs_names x), <[hs_i x := null_str]> (hs_vals x)).

(** The two arrays, of [h_size] elements; [None] is -1. *)
Definition parse_uri_headers (headers : str) : res (option (list str * list str)) :=
if (h_size =? 0)%nat then Fault 0 (* [h_name[0]] does not exist *) else
let e := str_s headers + str_len headers in
r ← headers_loop (str_s headers) (Z.to_nat (str_len headers))
      (HState false (str_s headers) 0 0 (replicate h_size null_str) (replicate h_size null_str));
match r with
| None => mret None
| Some x => mret (Some (headers_end (Z.max (str_s headers) e) x))
end.
End headers.

(** ** What is compared, on the texts *)

(** [unescape_user]: [None] for a bad escape. *)
Fixpoint unescaped (l : list Z) : option (list Z) :=
  match l with
  | [] => Some []
  | c :: l =>
      if c =? ch "%" then
        match l with
        | a :: b :: l =>
            match hex2int a, hex2int b with
            | Some hi, Some lo =>
                let c := schar ((schar (Z.shiftl hi 4 mod 256) + lo) mod 256) in
                if (c <? 32) || (126 <? c) then None else cons c <$> unescaped l
            | _, _ => None
            end
        | _ => None
        end
      else cons c <$> unescaped l
  end.

(** There is room for 1023 characters. *)
Definition unescaped_user (l : list Z) : option (list Z) := if len l <? UNESCAPED_BUF_LEN then unescaped l else None.

(** The last value that is recorded for the parameters of [f]. *)
Fixpoint last_value (f : uri_field) (ps : uri_params) : option (list Z) :=
  match ps with
  | [] => None
  | it :: ps => match last_value f ps with Some v => Some v | None => if named f it then snd it else None end
  end.

(** The first parameter with the name [n], up to case, and the others. *)
Fixpoint take_first (n : list Z) (ps : uri_params) : option (list Z * uri_params) :=
  match ps with
  | [] => None
  | (n', v) :: ps =>
      if eq_nocase n n' then Some (default [] v, ps)
      else match take_first n ps with Some (w, ps) => Some (w, (n', v) :: ps) | None => None end
  end.

(** Every parameter of the first list has the value of its partner in the second one. *)
Fixpoint params_match (ps ps' : uri_params) : bool :=
  match ps with
  | [] => true
  | (n, v) :: ps =>
      match take_first n ps' with
      | None => params_match ps ps'
      | Some (w, ps') => eq_nocase (default [] v) w && params_match ps ps'
      end
  end.

Definition compared_fields : list uri_field :=
  [F_transport; F_ttl; F_user_param; F_maddr; F_method; F_lr; F_r2].

Definition compared_params (t : uri_text) : uri_params := take 10 (unknown_params (t_params t)).

(** The comparison of two URIs of the grammar. *)
Definition same_parts (t t' : uri_text) (ua ub : list Z) : bool :=
  let a := t_authority t in
  let b := t_authority t' in
  list_eqb ua ub && list_eqb (default [] (user_passwd t)) (default [] (user_passwd t')) &&
  eq_nocase (host_chars (a_host a)) (host_chars (a_host b)) && list_eqb (default [] (a_port a)) (default [] (a_port b)) &&
  forallb (λ f, eq_nocase (default [] (last_value f (t_params t))) (default [] (last_value f (t_params t')))) compared_fields &&
  params_match (compared_params t) (compared_params t') &&
  eq_nocase (default [] (t_headers t)) (default [] (t_headers t')).

Definition uris_match (sch sch' : list Z) (ty ty' : uri_type) (t t' : uri_text) : Z :=
  if eq_nocase (sch ++ text_chars t) (sch' ++ text_chars t') then 0
  else if negb (bool_decide (ty = ty')) then 1
  else
    match unescaped_user (default [] (user_name t)), unescaped_user (default [] (user_name t')) with
    | Some ua, Some ub => if same_parts t t' ua ub then 0 else 1
    | _, _ => -1
    end.

(** ** The order of the arguments does not matter *)
Lemma list_eqb_sym k l : list_eqb k l = list_eqb l k.
Proof. apply eq_true_iff_eq. rewrite !list_eqb_spec. done. Qed.

Lemma eq_nocase_sym k l : eq_nocase k l = eq_nocase l k.
Proof. apply list_eqb_sym. Qed.

(** The values of the parameters with the name [n]. *)
Definition values_of (n : list Z) (ps : uri_params) : list (list Z) :=
  flat_map (λ it, if eq_nocase n (fst it) then [default [] (snd it)] else []) ps.

Fixpoint pairs_match (k l : list (list Z)) : bool :=
  match k, l with v :: k, w :: l => eq_nocase v w && pairs_match k l | _, _ => true end.

Lemma pairs_match_sym k l : pairs_match k l = pairs_match l k.
Proof. revert l. induction k as [|v k IH]; intros [|w l]; cbn; try done. by rewrite IH, eq_nocase_sym. Qed.

Lemma pairs_match_nil_r k : pairs_match k [] = true.
Proof. by destruct k. Qed.

Lemma eq_nocase_spec k l : eq_nocase k l = true ↔ lower k = lower l.
Proof. apply list_eqb_spec. Qed.

Lemma eq_nocase_false k l : eq_nocase k l = false ↔ lower k ≠ lower l.
Proof. rewrite <- not_true_iff_false, eq_nocase_spec. done. Qed.

Lemma take_first_values n ps :
  match take_first n ps with
  | None => values_of n ps = []
  | Some (w, ps') => values_of n ps = w :: values_of n ps' ∧ ∀ n', lower n' ≠ lower n → values_of n' ps' = values_of n' ps
  end.
Proof.
  induction ps as [|[n' v] ps IH]; [done|]. cbn [take_first]. destruct (eq_nocase n n') eqn:E.
  - split; [cbn [values_of flat_map fst snd]; by rewrite E|]. intros x Hx. cbn [values_of flat_map fst snd].
    assert (eq_nocase x n' = false) as ->; [|done]. apply eq_nocase_spec in E. apply eq_nocase_false. congruence.
  - destruct (take_first n ps) as [[w ps']|].
    + destruct IH as [IH IH']. split; [cbn [values_of flat_map fst snd]; by rewrite E|]. intros x Hx. cbn [values_of flat_map fst snd].
      unfold values_of in IH'. by rewrite IH'.
    + cbn [values_of flat_map fst snd]. by rewrite E.
Qed.

Lemma values_of_lower n n' ps : lower n = lower n' → values_of n ps = values_of n' ps.
Proof. intros E. induction ps as [|it ps IH]; [done|]. cbn [values_of flat_map]. unfold values_of in IH. rewrite IH. unfold eq_nocase. by rewrite E. Qed.

Lemma params_match_values ps ps' : params_match ps ps' = true ↔ ∀ n, pairs_match (values_of n ps) (values_of n ps') = true.
Proof.
  revert ps'. induction ps as [|[n v] ps IH]; intros ps'; [done|]. cbn [params_match].
  pose proof (take_first_values n ps') as Ht. destruct (take_first n ps') as [[w qs]|].
  - destruct Ht as [Hn Ho]. rewrite andb_true_iff, IH. split.
    + intros [Hv H] x. destruct (decide (lower x = lower n)) as [E|E].
      * rewrite !(values_of_lower x n) by done. rewrite Hn. cbn [values_of flat_map fst snd]. rewrite (proj2 (eq_nocase_spec n n) eq_refl).
        cbn [app pairs_match]. rewrite Hv. apply H.
      * rewrite <- (Ho x E). cbn [values_of flat_map fst snd]. rewrite (proj2 (eq_nocase_false x n) E). apply H.
    + intros H. pose proof (H n) as Hx. rewrite Hn in Hx. cbn [values_of flat_map fst snd] in Hx.
      rewrite (proj2 (eq_nocase_spec n n) eq_refl) in Hx. cbn [app pairs_match] in Hx. apply andb_prop in Hx as [Hv Hx]. split; [done|].
      intros x. destruct (decide (lower x = lower n)) as [E|E]; [by rewrite !(values_of_lower x n)|]. rewrite (Ho x E).
      specialize (H x). cbn [values_of flat_map fst snd] in H. by rewrite (proj2 (eq_nocase_false x n) E) in H.
  - rewrite IH. split; intros H x; specialize (H x); destruct (decide (lower x = lower n)) as [E|E].
    + rewrite !(values_of_lower x n) by done. rewrite Ht. apply pairs_match_nil_r.
    + cbn [values_of flat_map fst snd]. by rewrite (proj2 (eq_nocase_false x n) E).
    + rewrite !(values_of_lower x n) by done. rewrite Ht. apply pairs_match_nil_r.
    + cbn [values_of flat_map fst snd] in H. by rewrite (proj2 (eq_nocase_false x n) E) in H.
Qed.

Lemma params_match_sym ps ps' : params_match ps ps' = params_match ps' ps.
Proof.
  apply eq_true_iff_eq. rewrite !params_match_values. by split; intros H n; rewrite pairs_match_sym.
Qed.

Lemma uris_match_sym sch sch' ty ty' t t' : uris_match sch sch' ty ty' t t' = uris_match sch' sch ty' ty t' t.
Proof.
  unfold uris_match. rewrite eq_nocase_sym. destruct (eq_nocase _ _); [done|].
  rewrite (bool_decide_ext (ty = ty') (ty' = ty)) by done. destruct (negb _); [done|].
  destruct (unescaped_user (default [] (user_name t))) as [ua|], (unescaped_user (default [] (user_name t'))) as [ub|]; try done.
  assert (E : same_parts t t' ua ub = same_parts t' t ub ua); [|by rewrite E].
  unfold same_parts. rewrite (list_eqb_sym ua), (list_eqb_sym (default [] (user_passwd t))), (list_eqb_sym (default [] (a_port (t_authority t)))).
  rewrite (eq_nocase_sym (host_chars _)), (eq_nocase_sym (default [] (t_headers t))), params_match_sym.
  assert (E : ∀ fs, forallb (λ f, eq_nocase (default [] (last_value f (t_params t))) (default [] (last_value f (t_params t')))) fs =
    forallb (λ f, eq_nocase (default [] (last_value f (t_params t'))) (default [] (last_value f (t_params t)))) fs).
  { induction fs as [|f fs IH]; [done|]. cbn [forallb]. by rewrite IH, eq_nocase_sym. }
  by rewrite E.
Qed.

(** ** The comparison computes it *)

(** Strings that C takes for what they are. *)
Definition no_nul (l : list Z) : Prop := Forall (λ c, c ≠ 0) l.

Lemma strncmp_n_at f ma p mb q k l : bytes_at ma p k → bytes_at mb q l → length k = length l → no_nul k →
  strncmp_n f ma p mb q (length k) = Ok (list_eqb (map f k) (map f l)).
Proof.
  revert p q l. induction k as [|a k IH]; intros p q [|b l] Hk Hl E Hn; try done.
  destruct Hk as [Ha Hk], Hl as [Hb Hl]. apply Forall_cons in Hn as [Ha0 Hn]. cbn [length strncmp_n map list_eqb] in *.
  rewrite Ha. cbn [mbind res_bind]. rewrite Hb. cbn [mbind res_bind]. destruct (f a =? f b); [|done].
  destruct (Z.eqb_spec a 0); [done|]. cbn [andb]. apply IH; try done. lia.
Qed.

Lemma list_eqb_length k l : length k ≠ length l → list_eqb k l = false.
Proof. intros H. apply not_true_iff_false. rewrite list_eqb_spec. by intros ->. Qed.

Lemma compare_uri_val_at f ma x mb y k l : holds ma x k → holds mb y l → no_nul k →
  compare_uri_val f ma x mb y = Ok (list_eqb (map f k) (map f l)).
Proof.
  intros [Ek Hk] [El Hl] Hn. unfold compare_uri_val. rewrite Ek, El. destruct (Z.eqb_spec (Z.of_nat (length k)) (Z.of_nat (length l))) as [E|E]; cbn [negb].
  - destruct (Z.ltb_spec (Z.of_nat (length k)) 0); [lia|]. rewrite Nat2Z.id. apply strncmp_n_at; try done. lia.
  - rewrite list_eqb_length; [done|]. rewrite !length_map. lia.
Qed.

Lemma map_id_eqb k l : list_eqb (map id k) (map id l) = list_eqb k l.
Proof. by rewrite !map_id. Qed.

Lemma opt_holds m x l : field_in m x l → holds m x (default [] l).
Proof. destruct l as [l|]; cbn; [by intros [_ ?]|]. by intros ->. Qed.

(** *** Unescaping *)
Section unescape.
Context (m : mem).

Lemma round_end e p out : e ≤ p → unescape_user_round m e (p, out) = Ok (inr (0, out)).
Proof. intros H. unfold unescape_user_round. by destruct (Z.ltb_spec p e); [lia|]. Qed.

Lemma round_plain e p out a : p < e → rd m p = Ok a → a ≠ ch "%" → unescape_user_round m e (p, out) = Ok (inl (p + 1, out ++ [a])).
Proof.
intros H Ha Hne. unfold unescape_user_round. destruct (Z.ltb_spec p e); [|lia]. rewrite Ha. cbn [mbind res_bind].
by destruct (Z.eqb_spec a (ch "%")).
Qed.

Lemma round_bad_first e p out x : p < e → rd m p = Ok (ch "%") → rd m (p + 1) = Ok x → hex2int x = None →
unescape_user_round m e (p, out) = Ok (inr (-1, out)).
Proof.
intros H Ha Hx Hh. unfold unescape_user_round. destruct (Z.ltb_spec p e); [|lia]. rewrite Ha. cbn [mbind res_bind].
rewrite Z.eqb_refl, Hx. cbn [mbind res_bind]. by rewrite Hh.
Qed.

Lemma round_escape e p out x y hi : p < e → rd m p = Ok (ch "%") → rd m (p + 1) = Ok x → hex2int x = Some hi → rd m (p + 2) = Ok y →
unescape_user_round m e (p, out) =
Ok (match hex2int y with
    | Some lo => let c := schar ((schar (Z.shiftl hi 4 mod 256) + lo) mod 256) in
        if (c <? 32) || (126 <? c) then inr (-1, out) else inl (p + 3, out ++ [c])
    | None => inr (-1, out)
    end).
Proof.
intros H Ha Hx Hh Hy. unfold unescape_user_round. destruct (Z.ltb_spec p e); [|lia]. rewrite Ha. cbn [mbind res_bind].
rewrite Z.eqb_refl, Hx. cbn [mbind res_bind]. rewrite Hh, Hy. cbn [mbind res_bind]. destruct (hex2int y); [|done]. cbn zeta. by destruct (_ || _).
Qed.

Lemma unescape_user_run l p out c fuel : bytes_at m p (l ++ [c]) → hex2int c = None → c ≠ ch "%" → (length l < fuel)%nat →
∃ out', loop (unescape_user_round m (p + len l)) fuel (p, out) =
  Ok (match unescaped l with Some r => (0, out ++ r) | None => (-1, out') end).
Proof.
remember (length l) as n eqn:Hn. revert l p out fuel Hn. induction (lt_wf n) as [n _ IH]. intros l p out fuel -> Hat Hc Hc' Hf.
destruct fuel as [|fuel]; [lia|]. destruct l as [|a l]; cbn [loop].
{ rewrite round_end by (rewrite len_nil; lia). exists []. cbn. by rewrite app_nil_r. }
destruct Hat as [Ha Hat]. pose proof (len_nonneg l). assert (Hlt : p < p + len (a :: l)) by (rewrite len_cons; lia). cbn [unescaped].
destruct (Z.eqb_spec a (ch "%")) as [->|Hne].
- destruct l as [|x l]; [exists out; by rewrite (round_bad_first _ p out c) by (done || apply Hat)|].
  destruct Hat as [Hx Hat]. destruct (hex2int x) as [hi|] eqn:Ex; [|exists out; rewrite (round_bad_first _ p out x) by done; by destruct l].
  destruct l as [|y l].
  { destruct Hat as [Hy _]. replace (p + 1 + 1) with (p + 2) in Hy by lia. exists out. rewrite (round_escape _ p out x c hi) by done. by rewrite Hc. }
  destruct Hat as [Hy Hat]. replace (p + 1 + 1) with (p + 2) in * by lia. rewrite (round_escape _ p out x y hi) by done.
  destruct (hex2int y) as [lo|]; [|by exists out]. cbn zeta. set (d := schar _). destruct (_ || _); [by exists out|]. cbn [mbind res_bind].
  replace (p + 2 + 1) with (p + 3) in Hat by lia.
  destruct (IH (length l) ltac:(cbn; lia) l (p + 3) (out ++ [d]) fuel eq_refl Hat Hc Hc' ltac:(cbn [length] in Hf; lia)) as (o & Ho).
  exists o. rewrite !len_cons. replace (p + (1 + (1 + (1 + len l)))) with (p + 3 + len l) by lia. rewrite Ho.
  destruct (unescaped l) as [r|]; [|done]. cbn. by rewrite <- app_assoc.
- rewrite (round_plain _ p out a) by done. cbn [mbind res_bind].
  destruct (IH (length l) ltac:(cbn; lia) l (p + 1) (out ++ [a]) fuel eq_refl Hat Hc Hc' ltac:(cbn [length] in Hf; lia)) as (o & Ho).
  exists o. rewrite len_cons. replace (p + (1 + len l)) with (p + 1 + len l) by lia. rewrite Ho.
  destruct (unescaped l) as [r|]; [|done]. cbn. by rewrite <- app_assoc.
Qed.

(** A character that ends a user name. *)
Definition stops (c : Z) : Prop := c = ch "@" ∨ c = ch ":".

Lemma unescape_user_at p l c : 0 < p → bytes_at m p (l ++ [c]) → stops c →
∃ out, unescape_user m (Str p (len l)) UNESCAPED_BUF_LEN =
  Ok (match unescaped_user l with Some r => (0, r) | None => (-1, out) end).
Proof.
intros Hp Hat Hc. unfold unescape_user, unescaped_user. cbn [str_len str_s]. pose proof (len_nonneg l).
destruct (Z.ltb_spec (len l) 0); [lia|]. cbn [orb].
destruct (Z.ltb_spec UNESCAPED_BUF_LEN (len l + 1)), (Z.ltb_spec (len l) UNESCAPED_BUF_LEN); try lia; [by exists []|].
destruct (Z.eqb_spec p 0); [lia|]. destruct (Z.eqb_spec (len l) 0) as [E|_]; cbn [orb].
- destruct l; [by exists []|]. rewrite len_cons in E. pose proof (len_nonneg l). lia.
- destruct (unescape_user_run l p [] c (S (Z.to_nat (len l))) Hat) as (out & Ho).
  { by destruct Hc as [-> | ->]. } { by destruct Hc as [-> | ->]. } { unfold len. lia. }
  exists out. rewrite Ho. by destruct (unescaped l).
Qed.
End unescape.

(** *** The values of the recognised parameters *)
Fixpoint last_value_at (f : uri_field) (b : Z) (ps : uri_params) : option (Z * list Z) :=
  match ps with
  | [] => None
  | (n, v) :: ps =>
      match last_value_at f (b + len (param_text n v) + 1) ps with
      | Some x => Some x
      | None => if names_field f n then pair (b + len n + 1) <$> v else None
      end
  end.

Lemma last_value_eq f b ps : last_value f ps = snd <$> last_value_at f b ps.
Proof.
  revert b. induction ps as [|[n v] ps IH]; intros b; [done|]. cbn [last_value last_value_at]. rewrite (IH (b + len (param_text n v) + 1)).
  destruct (last_value_at _ _ ps) as [[p w]|]; [done|]. unfold named. cbn [fst snd]. destruct (names_field f n); [|done]. by destruct v.
Qed.

Lemma params_put_last_value b ps u r : r ∈ param_rows →
  u_str (params_put b ps u) (r_val r) =
  match last_value_at (r_field r) b ps with Some (p, val) => Str p (len val) | None => u_str u (r_val r) end.
Proof.
  intros Hr. revert b u. induction ps as [|[n v] ps IH]; intros b u; cbn [params_put last_value_at]; [done|].
  rewrite IH. destruct (last_value_at _ _ ps) as [[p w]|]; [done|]. rewrite param_put_value by done.
  by destruct v as [val|], (names_field _ n).
Qed.

Lemma last_value_bytes m f b ps : bytes_at m (b - 1) (params_chars ps) →
  match last_value_at f b ps with Some (p, val) => b ≤ p ∧ bytes_at m p val | None => True end.
Proof.
  revert b. induction ps as [|[n v] ps IH]; intros b Hat; [done|]. rewrite params_chars_cons in Hat. destruct Hat as [_ Hat].
  replace (b - 1 + 1) with b in Hat by lia. apply bytes_at_app in Hat as [Hn Hat]. fold (len (param_text n v)) in Hat.
  cbn [last_value_at]. specialize (IH (b + len (param_text n v) + 1)).
  replace (b + len (param_text n v) + 1 - 1) with (b + len (param_text n v)) in IH by lia. specialize (IH Hat).
  pose proof (len_nonneg (param_text n v)). pose proof (len_nonneg n). destruct (last_value_at _ _ ps) as [[p w]|].
  - destruct IH. split; [lia|done].
  - destruct (names_field f n); [|done]. destruct v as [val|]; [|done]. cbn. split; [lia|]. unfold param_text in Hn.
    apply bytes_at_app in Hn as [_ [_ Hn]]. done.
Qed.

Section values.
Context {m tmp sch ty t u} (H : uri_in m tmp sch ty t u).

Lemma value_holds r : r ∈ param_rows → holds m (u_str u (r_val r)) (default [] (last_value (r_field r) (t_params t))).
Proof.
intros Hr. destruct (ui_put _ _ _ _ _ _ H) as (E & _). rewrite E.
destruct (text_put_value (tmp + len sch) t (set_uri_type ty uri_zero) r Hr) as [-> Ha].
rewrite params_put_last_value by done. destruct (parts_at H) as (_ & _ & _ & _ & Hps & _).
set (q := tmp + len sch + len (authority_chars (t_authority t))) in *. rewrite (last_value_eq _ (q + 1)).
pose proof (last_value_bytes m (r_field r) (q + 1) (t_params t)) as Hb. replace (q + 1 - 1) with q in Hb by lia. specialize (Hb Hps).
destruct (last_value_at _ _ _) as [[p val]|]; [|by rewrite Ha]. destruct Hb as [_ Hb]. by split.
Qed.

(** The table of the unknown parameters. *)
Lemma table_holds i it : compared_params t !! i = Some it →
∃ a b, u_name u !! i = Some a ∧ u_val u !! i = Some b ∧ holds m a (fst it) ∧ holds m b (default [] (snd it)).
Proof.
unfold compared_params. rewrite (unknown_params_at (tmp + len sch + len (authority_chars (t_authority t)) + 1)).
intros [Hi Hlt]%lookup_take_Some. apply list_lookup_fmap_Some in Hi as (x & -> & Hx).
destruct (entry_in H i x Hx Hlt) as (a & b & Ha & Hb & [_ Hn] & Hv). exists a, b. split_and!; [done..|].
apply opt_holds in Hv. by destruct (snd (snd x)) as [[|c v]|].
Qed.

Lemma table_no : u_params_no u = Z.of_nat (length (compared_params t)) ∧ (length (compared_params t) ≤ 10)%nat.
Proof.
pose proof (text_put_table (tmp + len sch) t (set_uri_type ty uri_zero) [] (table_zero ty)) as Ht. cbn [app] in Ht.
eapply table_equiv in Ht; [|symmetry; exact (ui_put _ _ _ _ _ _ H)]. destruct Ht as [Hr Hno _ _].
unfold compared_params. rewrite (unknown_params_at (tmp + len sch + len (authority_chars (t_authority t)) + 1)).
rewrite Hno. rewrite !length_take, !length_map. split; [done|]. lia.
Qed.
End values.

(** *** The unknown parameters *)

(** Those that are not matched yet. *)
Fixpoint unmatched (ps : uri_params) (flags : list bool) : uri_params :=
  match ps, flags with
  | it :: ps, b :: flags => if b : bool then unmatched ps flags else it :: unmatched ps flags
  | _, _ => []
  end.

Section tables.
Context (ma mb : mem) (first second : sip_uri) (ps ps' : uri_params).
Hypothesis Hfirst : ∀ i it, ps !! i = Some it →
∃ a b, u_name first !! i = Some a ∧ u_val first !! i = Some b ∧ holds ma a (fst it) ∧ holds ma b (default [] (snd it)).
Hypothesis Hsecond : ∀ i it, ps' !! i = Some it →
∃ a b, u_name second !! i = Some a ∧ u_val second !! i = Some b ∧ holds mb a (fst it) ∧ holds mb b (default [] (snd it)).
Hypothesis Hno : u_params_no second = Z.of_nat (length ps').
Hypothesis Hnul : Forall (λ it, no_nul (fst it) ∧ no_nul (default [] (snd it))) ps.

Lemma match_param_at i n v : ps !! i = Some (n, v) → ∀ suf pre fpre fsuf, ps' = pre ++ suf → length fpre = length pre → (length suf ≤ length fsuf)%nat →
∃ fsuf', length fsuf' = length fsuf ∧
match_param ma mb first second i (length pre) (fpre ++ fsuf) (length suf) =
  Ok (match take_first n (unmatched suf fsuf) with
      | None => Some (fpre ++ fsuf)
      | Some (w, _) => if eq_nocase (default [] v) w then Some (fpre ++ fsuf') else None
      end) ∧
match take_first n (unmatched suf fsuf) with Some (_, rest) => unmatched suf fsuf' = rest | None => True end.
Proof.
intros Hi. destruct (Hfirst i _ Hi) as (x & vx & Hx & Hvx & Hhx & Hhv). cbn [fst snd] in *.
assert (Hn : no_nul n ∧ no_nul (default [] v)) by (by eapply Forall_lookup_1 in Hnul; [|exact Hi]). destruct Hn as [Hn Hnv].
induction suf as [|[n' v'] suf IH]; intros pre fpre fsuf E Hf Hl; [by exists fsuf|].
destruct fsuf as [|b fsuf]; [cbn in Hl; lia|]. cbn [length] in *.
assert (Hj : ps' !! length pre = Some (n', v')) by (rewrite E; by rewrite list_lookup_middle).
destruct (Hsecond _ _ Hj) as (y & vy & Hy & Hvy & Hhy & Hhvy). cbn [fst snd] in *.
assert (Hb : (fpre ++ b :: fsuf) !! length pre = Some b) by (by rewrite list_lookup_middle).
cbn [match_param length]. rewrite Hb, Hx, Hy, Hvx, Hvy. cbn [unmatched].
destruct (IH (pre ++ [(n', v')]) (fpre ++ [b]) fsuf) as (f & Hlf & Hm & Hrest).
{ rewrite E, <- app_assoc. done. } { rewrite !length_app. cbn. lia. } { lia. }
rewrite length_app, Nat.add_1_r, <- !app_assoc in Hm. cbn [app] in Hm.
assert (Hsame : (if negb b && (str_len x =? str_len y) then compare_uri_val tolower ma x mb y else mret false) = Ok (negb b && eq_nocase n n')).
{ destruct b; [done|]. cbn [negb andb]. rewrite (compare_uri_val_at tolower ma x mb y n n') by done.
  destruct Hhx as [Ex _], Hhy as [Ey _]. rewrite Ex, Ey. destruct (Z.eqb_spec (Z.of_nat (length n)) (Z.of_nat (length n'))); [done|].
  unfold eq_nocase. rewrite list_eqb_length; [done|]. rewrite !length_lower. lia. }
rewrite Hsame. cbn [mbind res_bind]. destruct b; cbn [negb andb].
- exists (true :: f). split; [cbn; lia|]. rewrite Hm. split; [|exact Hrest]. done.
- cbn [take_first]. destruct (eq_nocase n n') eqn:En.
  + exists (true :: fsuf). split; [done|]. split; [|done]. pose proof Hhv as [Ev _]. pose proof Hhvy as [Ew _]. rewrite Ev, Ew.
    assert (Hset : <[length pre:=true]> (fpre ++ false :: fsuf) = fpre ++ true :: fsuf).
    { rewrite <- Hf. rewrite insert_app_r_alt by lia. by rewrite Nat.sub_diag. }
    rewrite Hset. destruct (Z.eqb_spec (Z.of_nat (length (default [] v))) (Z.of_nat (length (default [] v')))) as [El|El]; cbn [negb].
    * destruct (Z.eqb_spec (Z.of_nat (length (default [] v))) 0) as [E0|E0].
      -- destruct (default [] v), (default [] v'); done.
      -- rewrite (compare_uri_val_at tolower ma vx mb vy (default [] v) (default [] v')) by done. cbn [mbind res_bind]. done.
    * unfold eq_nocase. rewrite list_eqb_length; [done|]. rewrite !length_lower. lia.
  + exists (false :: f). split; [cbn; lia|]. rewrite Hm. destruct (take_first n (unmatched suf fsuf)) as [[w rest]|]; [|done].
    split; [done|]. cbn [unmatched]. by rewrite Hrest.
Qed.

Lemma match_all_at suf pre flags : ps = pre ++ suf → (length ps' ≤ length flags)%nat →
match_all ma mb first second (length pre) flags (length suf) = Ok (params_match suf (unmatched ps' flags)).
Proof.
revert pre flags. induction suf as [|[n v] suf IH]; intros pre flags E Hl; [done|]. cbn [match_all length params_match].
rewrite Hno, Nat2Z.id.
destruct (match_param_at (length pre) n v ltac:(rewrite E; by rewrite list_lookup_middle) ps' [] [] flags eq_refl eq_refl Hl) as (f & Hf & Hm & Hrest).
cbn [app length] in Hm. rewrite Hm. cbn [mbind res_bind].
specialize (IH (pre ++ [(n, v)])). rewrite length_app, Nat.add_1_r in IH.
destruct (take_first n (unmatched ps' flags)) as [[w rest]|].
- destruct (eq_nocase (default [] v) w); [|done]. rewrite IH by (first [lia | by rewrite <- app_assoc]). by rewrite Hrest.
- apply IH; [by rewrite <- app_assoc|done].
Qed.
End tables.

Lemma unmatched_all ps n : (length ps ≤ n)%nat → unmatched ps (replicate n false) = ps.
Proof. revert n. induction ps as [|it ps IH]; intros [|n] H; cbn in *; [done..|lia|]. by rewrite IH by lia. Qed.

(** *** The parts have no NUL *)
Lemma no_nul_app k l : no_nul (k ++ l) ↔ no_nul k ∧ no_nul l.
Proof. apply Forall_app. Qed.

Lemma no_nul_cons c l : no_nul (c :: l) → no_nul l.
Proof. by intros [_ H]%Forall_cons. Qed.

Lemma no_nul_params ps : no_nul (params_chars ps) → Forall (λ it, no_nul (fst it) ∧ no_nul (default [] (snd it))) ps.
Proof.
  induction ps as [|[n v] ps IH]; [done|]. rewrite params_chars_cons. intros [Hp Hps]%no_nul_cons%no_nul_app.
  apply Forall_cons_2; [|by apply IH]. unfold param_text in Hp. apply no_nul_app in Hp as [Hn Hv]. split; [done|].
  destruct v as [v|]; [by apply no_nul_cons in Hv|apply Forall_nil_2].
Qed.

Lemma no_nul_value f ps : no_nul (params_chars ps) → no_nul (default [] (last_value f ps)).
Proof.
  intros H%no_nul_params. induction H as [|it ps [_ Hv] _ IH]; [apply Forall_nil_2|]. cbn [last_value].
  destruct (last_value f ps) as [v|]; [exact IH|]. destruct (named f it); [exact Hv|apply Forall_nil_2].
Qed.

Lemma no_nul_compared t : no_nul (params_chars (t_params t)) →
  Forall (λ it, no_nul (fst it) ∧ no_nul (default [] (snd it))) (compared_params t).
Proof.
  intros H%no_nul_params. apply Forall_take. eapply Forall_impl; [apply unknown_params_sub|]. intros it [Hit _].
  by eapply Forall_forall in H.
Qed.

(** ** Comparing parsed URIs *)
Lemma all_equal_ok l : all_equal (map Ok l) = Ok (forallb id l).
Proof. induction l as [|b l IH]; [done|]. cbn [map all_equal forallb mbind res_bind]. destruct b; [exact IH|done]. Qed.

Section both.
Context {ma tmpa scha tya ta first} (Ha : uri_in ma tmpa scha tya ta first).
Context {mb tmpb schb tyb tb second} (Hb : uri_in mb tmpb schb tyb tb second).
Hypothesis Hnul : no_nul (text_chars ta).

Lemma compare_val_at f cmp k l : field_in ma (u_str first f) k → field_in mb (u_str second f) l → no_nul (default [] k) →
compare_uri_val cmp ma (u_str first f) mb (u_str second f) = Ok (list_eqb (map cmp (default [] k)) (map cmp (default [] l))).
Proof. intros Hk Hl Hn. apply compare_uri_val_at; [by apply opt_holds..|done]. Qed.

Lemma values_at fs : Forall (λ f, existsb (λ r, bool_decide (r_field r = f)) param_rows = true) fs → no_nul (params_chars (t_params ta)) →
map (λ f, compare_uri_val tolower ma (u_str first f) mb (u_str second f)) (flat_map (λ f, map r_val (filter (λ r, r_field r = f) param_rows)) fs) =
map Ok (flat_map (λ f, map (λ _, eq_nocase (default [] (last_value f (t_params ta))) (default [] (last_value f (t_params tb))))
  (filter (λ r, r_field r = f) param_rows)) fs).
Proof.
intros Hfs Hps. induction Hfs as [|f fs Hf _ IH]; [done|]. cbn [flat_map]. rewrite !map_app, IH. f_equal.
rewrite !map_map. apply map_ext_in. intros r Hr%list_elem_of_In. apply list_elem_of_filter in Hr as [<- Hr].
rewrite (compare_uri_val_at tolower ma _ mb _ (default [] (last_value (r_field r) (t_params ta))) (default [] (last_value (r_field r) (t_params tb))));
  [done|by apply (value_holds Ha)|by apply (value_holds Hb)|by apply no_nul_value].
Qed.

Lemma unknown_compared :
(if (u_params_no first =? 0) || (u_params_no second =? 0) then mret true
 else match_all ma mb first second 0 (replicate (Z.to_nat URI_MAX_U_PARAMS) false) (Z.to_nat (u_params_no first))) =
Ok (params_match (compared_params ta) (compared_params tb)).
Proof.
destruct (table_no Ha) as [Ea La]. destruct (table_no Hb) as [Eb Lb]. rewrite Ea, Eb.
assert (Hpm : ∀ ps, params_match ps [] = true) by (induction ps as [|[n v] ps IH]; [done|exact IH]).
assert (Hnps : no_nul (params_chars (t_params ta))).
{ unfold text_chars in Hnul. apply no_nul_app in Hnul as [_ Hn]. by apply no_nul_app in Hn as [? _]. }
destruct (compared_params ta) as [|x ps] eqn:Ex; [done|]. rewrite <- Ex in *.
destruct (Z.eqb_spec (Z.of_nat (length (compared_params ta))) 0) as [E|_]; [rewrite Ex in E; cbn in E; lia|]. cbn [orb].
destruct (Z.eqb_spec (Z.of_nat (length (compared_params tb))) 0) as [E|_].
{ destruct (compared_params tb); [by rewrite Hpm|cbn in E; lia]. }
rewrite Nat2Z.id. change (Z.to_nat URI_MAX_U_PARAMS) with 10%nat.
pose proof (match_all_at ma mb first second (compared_params ta) (compared_params tb) (table_holds Ha) (table_holds Hb) Eb
  (no_nul_compared ta Hnps) (compared_params ta) [] (replicate 10 false) eq_refl) as Hm.
cbn [length] in Hm. rewrite Hm by (rewrite length_replicate; lia). by rewrite unmatched_all.
Qed.

Lemma compare_parsed_at ua ub : no_nul ua → compare_parsed ma mb first second ua ub = Ok (same_parts ta tb ua ub).
Proof.
intros Hua. unfold compare_parsed. rewrite unknown_compared.
assert (Hn := Hnul). unfold text_chars, authority_chars in Hn. apply no_nul_app in Hn as [Hn Hn'].
apply no_nul_app in Hn as [Hu Hn]. apply no_nul_app in Hn as [Hh Hp]. apply no_nul_app in Hn' as [Hps Hhd].
assert (Hpw : no_nul (default [] (user_passwd ta))).
{ unfold user_passwd. destruct (a_user (t_authority ta)) as [[n [pw|]]|]; [|apply Forall_nil_2..]. cbn [user_chars] in Hu.
  apply no_nul_app in Hu as [_ Hu]. apply no_nul_cons, no_nul_app in Hu as [? _]. done. }
rewrite (compare_val_at F_passwd id _ _ (passwd_in Ha) (passwd_in Hb) Hpw).
rewrite (compare_val_at F_host tolower _ _ (host_in Ha) (host_in Hb)) by exact Hh.
rewrite (compare_val_at F_port id _ _ (port_in Ha) (port_in Hb)).
2: { destruct (a_port (t_authority ta)); [by apply no_nul_cons in Hp|apply Forall_nil_2]. }
rewrite (compare_val_at F_headers tolower _ _ (headers_in Ha) (headers_in Hb)).
2: { destruct (t_headers ta); [by apply no_nul_cons in Hhd|apply Forall_nil_2]. }
rewrite (compare_uri_val_at id (Mem 1 ua) _ (Mem 1 ub) _ ua ub)
  by (done || (split; [done|exact (bytes_at_data (Mem 1 _))])).
change compared_values with (flat_map (λ f, map r_val (filter (λ r, r_field r = f) param_rows)) compared_fields).
rewrite values_at by (done || by repeat constructor).
match goal with |- all_equal (?a ++ map Ok ?b ++ ?c) = _ => 
  transitivity (all_equal (map Ok ([list_eqb (map id ua) (map id ub); list_eqb (map id (default [] (user_passwd ta))) (map id (default [] (user_passwd tb)));
    eq_nocase (host_chars (a_host (t_authority ta))) (host_chars (a_host (t_authority tb)));
    list_eqb (map id (default [] (a_port (t_authority ta)))) (map id (default [] (a_port (t_authority tb))))] ++ b ++
    [params_match (compared_params ta) (compared_params tb); eq_nocase (default [] (t_headers ta)) (default [] (t_headers tb))])));
  [by rewrite !map_app|] end.
rewrite all_equal_ok, !forallb_app, !map_id_eqb. unfold same_parts. cbn [forallb id]. rewrite !andb_true_r.
assert (Ef : forallb id (flat_map (λ f, map (λ _, eq_nocase (default [] (last_value f (t_params ta))) (default [] (last_value f (t_params tb))))
    (filter (λ r, r_field r = f) param_rows)) compared_fields) =
  forallb (λ f, eq_nocase (default [] (last_value f (t_params ta))) (default [] (last_value f (t_params tb)))) compared_fields).
{ assert (Hone : Forall (λ f, length (filter (λ r, r_field r = f) param_rows) = 1%nat) compared_fields) by by repeat constructor.
  induction Hone as [|f fs Hf _ IH]; [done|]. cbn [flat_map forallb]. rewrite forallb_app, IH. f_equal.
  destruct (filter _ param_rows) as [|r [|]]; [done| |done]. cbn [map forallb id]. by rewrite andb_true_r. }
rewrite Ef. f_equal. by rewrite !andb_assoc.
Qed.
End both.

Lemma unescaped_no_nul l r : no_nul l → unescaped l = Some r → no_nul r.
Proof.
  remember (length l) as n eqn:Hn. revert l r Hn. induction (lt_wf n) as [n _ IH]. intros l r -> Hl H.
  destruct l as [|c l]; [injection H as <-; apply Forall_nil_2|]. apply Forall_cons in Hl as [Hc Hl]. cbn [unescaped] in H.
  destruct (c =? ch "%").
  - destruct l as [|x [|y l]]; try done. apply no_nul_cons, no_nul_cons in Hl. destruct (hex2int x), (hex2int y); try done.
    cbn zeta in H. set (d := schar _) in *. destruct ((d <? 32) || (126 <? d)) eqn:Ed; [done|].
    destruct (unescaped l) as [r'|] eqn:E; [|done]. injection H as <-. apply Forall_cons_2.
    + apply orb_false_iff in Ed as [Ed _]. apply Z.ltb_ge in Ed. lia.
    + apply (IH (length l)) with (l := l); [cbn; lia|done..].
  - destruct (unescaped l) as [r'|] eqn:E; [|done]. injection H as <-. apply Forall_cons_2; [done|].
    apply (IH (length l)) with (l := l); [cbn; lia|done..].
Qed.

(** The user name in memory, with what stands behind it. *)
Lemma user_unescaped {m tmp sch ty t u} (H : uri_in m tmp sch ty t u) :
  ∃ out, unescape_user m (u_str u F_user) UNESCAPED_BUF_LEN =
    Ok (match unescaped_user (default [] (user_name t)) with Some r => (0, r) | None => (-1, out) end).
Proof.
  destruct (authority_fields H) as (-> & _). destruct (parts_at H) as (_ & Hu & _). unfold user_name.
  destruct (a_user (t_authority t)) as [[n pw]|]; [|by exists []]. cbn [fmap option_fmap option_map fst default from_option id].
  pose proof (s_pos H) as Hs. destruct pw as [pw|]; cbn [user_chars] in Hu.
  - apply (unescape_user_at m _ n (ch ":")); [done| |by right].
    change (ch ":" :: pw ++ [ch "@"]) with ([ch ":"] ++ pw ++ [ch "@"]) in Hu. rewrite app_assoc in Hu. by apply bytes_at_app in Hu as [? _].
  - apply (unescape_user_at m _ n (ch "@")); [done|exact Hu|by left].
Qed.

Lemma compare_uris_at ma mb xa xb scha schb tya tyb ta tb :
  uri_at ma xa scha tya ta → uri_at mb xb schb tyb tb → no_nul (scha ++ text_chars ta) →
  compare_uris ma mb (Some xa) None (Some xb) None = Ok (uris_match scha schb tya tyb ta tb).
Proof.
  intros Ha Hb Hnul. destruct (parse_in _ _ _ _ _ Ha) as (u & Hu & Hin). destruct (parse_in _ _ _ _ _ Hb) as (w & Hw & Hin').
  assert (Hnt : no_nul (text_chars ta)) by (by apply no_nul_app in Hnul as [_ ?]).
  unfold compare_uris, uris_match. cbn [orb].
  rewrite (compare_uri_val_at tolower ma xa mb xb _ _ (ua_holds _ _ _ _ _ Ha) (ua_holds _ _ _ _ _ Hb) Hnul). cbn [mbind res_bind].
  fold (lower (scha ++ text_chars ta)) (lower (schb ++ text_chars tb)). fold (eq_nocase (scha ++ text_chars ta) (schb ++ text_chars tb)).
  destruct (eq_nocase _ _); [done|]. unfold the_uri. rewrite Hu. cbn [mbind res_bind]. change (0 <? 0) with false. cbv iota.
  cbn [mbind res_bind mret res_ret]. rewrite Hw. cbn [mbind res_bind mret res_ret]. change (0 <? 0) with false. cbv iota.
  rewrite (type_put Hin), (type_put Hin'). destruct (negb _); [done|].
  destruct (user_unescaped Hin) as (oa & ->). destruct (user_unescaped Hin') as (ob & ->). cbn [mbind res_bind].
  destruct (unescaped_user (default [] (user_name ta))) as [ua|] eqn:Eu; [|done]. change (0 <? 0) with false. cbv iota. cbn [mbind res_bind].
  destruct (unescaped_user (default [] (user_name tb))) as [ub|]; [|done]. change (0 <? 0) with false. cbv iota.
  rewrite (compare_parsed_at Hin Hin' Hnt ua ub); [done|].
  unfold unescaped_user in Eu. destruct (_ <? _); [|done]. eapply unescaped_no_nul; [|exact Eu].
  unfold text_chars, authority_chars in Hnt. apply no_nul_app in Hnt as [Hnt _]. apply no_nul_app in Hnt as [Hus _].
  unfold user_name. destruct (a_user (t_authority ta)) as [[n [pw|]]|]; [..|apply Forall_nil_2]; cbn [user_chars] in Hus;
    by apply no_nul_app in Hus as [? _].
Qed.

(** ** [parse_uri_headers] on well-formed text *)
Abbreviation header_text := (list Z * list Z)%type.

Fixpoint headers_text (hs : list header_text) : list Z :=
  match hs with
  | [] => []
  | [(n, v)] => n ++ ch "=" :: v
  | (n, v) :: hs => n ++ ch "=" :: v ++ ch "?" :: headers_text hs
  end.

Definition header_ok (h : header_text) : Prop := plain "=?" (fst h) ∧ plain "?" (snd h).

(** Where the names and values are. *)
Fixpoint headers_at (p : Z) (hs : list header_text) : list (str * str) :=
  match hs with
  | [] => []
  | (n, v) :: hs => (Str p (len n), Str (p + len n + 1) (len v)) :: headers_at (p + len n + 1 + len v + 1) hs
  end.

Section headers_run.
Context (m : mem) (k : nat).

Fixpoint headers_run (l : list Z) (p : Z) (x : hstate) : option hstate :=
match l with
| [] => Some x
| c :: l => match header_step k p c x with None => None | Some x => headers_run l (p + 1) x end
end.

Lemma headers_loop_at l p x : bytes_at m p l → headers_loop m k p (length l) x = Ok (headers_run l p x).
Proof.
revert p x. induction l as [|c l IH]; intros p x; [done|]. intros [Hc Hl]. cbn [length headers_loop headers_run]. rewrite Hc.
cbn [mbind res_bind]. destruct (header_step k p c x); [by apply IH|done].
Qed.

Lemma headers_run_app l l' p x :
headers_run (l ++ l') p x = match headers_run l p x with None => None | Some x => headers_run l' (p + len l) x end.
Proof.
revert p x. induction l as [|c l IH]; intros p x; cbn [app headers_run]; [by rewrite len_nil, Z.add_0_r|].
destruct (header_step k p c x); [|done]. rewrite IH, len_cons. by replace (p + 1 + len l) with (p + (1 + len l)) by lia.
Qed.

Lemma name_headers_run n p h v i ns vs : plain "=?" n → headers_run n p (HState false h v i ns vs) = Some (HState false h v i ns vs).
Proof.
intros Hn. revert p. induction Hn as [|c n [_ Hc] _ IH]; intros p; [done|]. cbn [headers_run]. unfold header_step. cbn [hs_value].
rewrite (plain_step _ _ "=" Hc eq_refl), (plain_step _ _ "?" Hc eq_refl). apply IH.
Qed.

Lemma value_headers_run n p h v i ns vs : plain "?" n → headers_run n p (HState true h v i ns vs) = Some (HState true h v i ns vs).
Proof.
intros Hn. revert p. induction Hn as [|c n [_ Hc] _ IH]; intros p; [done|]. cbn [headers_run]. unfold header_step. cbn [hs_value].
rewrite (plain_step _ _ "?" Hc eq_refl). apply IH.
Qed.

(** The arrays with [l], and null strings behind it. *)
Definition filled (l : list (str * str)) : list str * list str :=
(map fst l ++ replicate (k - length l) null_str, map snd l ++ replicate (k - length l) null_str).

Lemma filled_next l x y : (length l < k)%nat →
filled (l ++ [(x, y)]) = (<[length l := x]> (fst (filled l)), <[length l := y]> (snd (filled l))).
Proof.
intros Hl. unfold filled. cbn [fst snd]. rewrite !map_app, length_app. cbn [map length fst snd]. rewrite Nat.add_1_r.
pose proof (insert_next (map fst l) x null_str k) as I1. pose proof (insert_next (map snd l) y null_str k) as I2. rewrite length_map in I1, I2.
by rewrite I1, I2.
Qed.

Lemma header_run n v p old pre : header_ok (n, v) → (length pre < k)%nat → len (n ++ ch "=" :: v) < 2 ^ 31 →
headers_run (n ++ ch "=" :: v) p (HState false p old (length pre) (fst (filled pre)) (snd (filled pre))) =
Some (HState true p (p + len n + 1) (length pre) (fst (filled (pre ++ [(Str p (len n), null_str)]))) (snd (filled pre))).
Proof.
intros [Hn Hv] Hd Hl. rewrite len_app, len_cons in Hl. pose proof (len_nonneg n). pose proof (len_nonneg v).
rewrite headers_run_app, name_headers_run by done. cbn [headers_run]. unfold header_step. cbn [hs_value].
change (ch "=" =? ch "=") with true. cbv iota. cbn [hs_h hs_i hs_names hs_vals]. rewrite value_headers_run by done.
rewrite filled_next by done. cbn [fst]. by rewrite (slice_len p n) by lia.
Qed.

Lemma headers_text_run hs p old pre : hs ≠ [] → Forall header_ok hs → (length pre < k)%nat → len (headers_text hs) < 2 ^ 31 →
match headers_run (headers_text hs) p (HState false p old (length pre) (fst (filled pre)) (snd (filled pre))) with
| Some x => (length pre + length hs ≤ k)%nat ∧ headers_end (p + len (headers_text hs)) x = filled (pre ++ headers_at p hs)
| None => (k < length pre + length hs)%nat
end.
Proof.
revert p old pre. induction hs as [|[n v] hs IH]; intros p old pre Hne Hok Hd Hl; [done|]. apply Forall_cons in Hok as [Hh Hok].
destruct hs as [|h hs].
- cbn [headers_text headers_at length] in *. rewrite header_run by done. split; [lia|]. unfold headers_end. cbn [hs_value hs_names hs_vals hs_i hs_v].
  rewrite !filled_next by done. cbn [fst]. f_equal. f_equal. rewrite !len_app, !len_cons in *.
  pose proof (len_nonneg n). pose proof (len_nonneg v). unfold slice. rewrite to_int_small by lia. f_equal. lia.
- assert (E : headers_text ((n, v) :: h :: hs) = (n ++ ch "=" :: v) ++ ch "?" :: headers_text (h :: hs)) by (cbn [headers_text]; by rewrite <- app_assoc).
  rewrite E. rewrite E in Hl. rewrite len_app, len_cons in Hl. pose proof (len_nonneg (headers_text (h :: hs))). pose proof (len_nonneg (n ++ ch "=" :: v)).
  rewrite headers_run_app, header_run by (done || lia). cbn [headers_run]. unfold header_step. cbn [hs_value].
  change (ch "?" =? ch "?") with true. cbv iota. unfold next_header. cbn [hs_value hs_v hs_i hs_names hs_vals].
  assert (En : len (n ++ ch "=" :: v) = len n + 1 + len v) by (rewrite len_app, len_cons; lia). rewrite En in *.
  pose proof (len_nonneg n). pose proof (len_nonneg v).
  replace (slice (p + len n + 1) (p + (len n + 1 + len v))) with (Str (p + len n + 1) (len v)) by (unfold slice; rewrite to_int_small by lia; f_equal; lia).
  specialize (IH (p + (len n + 1 + len v) + 1) (p + len n + 1) (pre ++ [(Str p (len n), Str (p + len n + 1) (len v))]) ltac:(done) Hok).
  rewrite filled_next in IH by done. rewrite filled_next by done. rewrite length_app, Nat.add_1_r in IH. cbn [fst snd] in *.
  destruct (Nat.ltb_spec (S (length pre)) k) as [Hk|Hk]; [|cbn [length]; lia]. specialize (IH Hk ltac:(lia)).
  destruct (headers_run _ _ _) as [x|]; [|cbn [length] in *; lia]. destruct IH as [IHl IH]. split; [cbn [length] in *; lia|].
  rewrite len_app, len_cons, En. replace (p + (len n + 1 + len v + (1 + len (headers_text (h :: hs))))) with
    (p + (len n + 1 + len v) + 1 + len (headers_text (h :: hs))) by lia. rewrite IH, <- app_assoc. cbn [app].
  assert (Ep : headers_at p ((n, v) :: h :: hs) = (Str p (len n), Str (p + len n + 1) (len v)) :: headers_at (p + (len n + 1 + len v) + 1) (h :: hs)).
  { cbn [headers_at]. by replace (p + len n + 1 + len v + 1) with (p + (len n + 1 + len v) + 1) by lia. }
  by rewrite Ep.
Qed.

(** Every well-formed text: the names and values in order, or -1 for too many. *)
Lemma parse_uri_headers_text hs p : hs ≠ [] → Forall header_ok hs → k ≠ 0%nat → bytes_at m p (headers_text hs) → len (headers_text hs) < 2 ^ 31 →
parse_uri_headers m k (Str p (len (headers_text hs))) =
Ok (if (length hs <=? k)%nat then Some (filled (headers_at p hs)) else None).
Proof.
intros Hne Hok Hk Hat Hl. unfold parse_uri_headers. destruct (Nat.eqb_spec k 0); [done|]. cbn [str_s str_len].
replace (Z.to_nat (len (headers_text hs))) with (length (headers_text hs)) by (unfold len; lia).
rewrite (headers_loop_at _ _ _ Hat). cbn [mbind res_bind]. pose proof (headers_text_run hs p 0 [] Hne Hok ltac:(cbn; lia) Hl) as H.
unfold filled at 1 2 in H. cbn [map app fst snd length] in H. rewrite Nat.sub_0_r in H. pose proof (len_nonneg (headers_text hs)).
destruct (headers_run _ _ _) as [x|].
- destruct H as [Hh He]. rewrite Z.max_r by lia. rewrite He. cbn [app]. by destruct (Nat.leb_spec (length hs) k); [|lia].
- by destruct (Nat.leb_spec (length hs) k); [lia|].
Qed.
End headers_run.

(** The headers of a URI are separated by [&], which the parser does not know: it takes
    the second header for a part of the value of the first one.  Of a header without a
    value only the position behind it is kept, with the length -1. *)
Lemma parse_uri_headers_separator :
  parse_uri_headers (block (chars "a=b&c=d")) 2 (Str 4096 7) =
    Ok (Some ([Str 4096 1; null_str], [Str 4098 5; null_str])) ∧
  parse_uri_headers (block (chars "a?b=c")) 2 (Str 4096 5) =
    Ok (Some ([Str 4098 (-1); Str 4098 1], [null_str; Str 4100 1])).
Proof. by vm_compute. Qed.

(** ** Properties *)

(** C39: the comparison of two URIs of the grammar, without NUL characters, is that of
    their parts: the unescaped users, the passwords and the ports as they are; the host,
    the values of seven parameters, and the headers up to case; of the other parameters
    the values of every name that both have, in order; it is 0 as well if the texts
    are equal up to case, and -1 if a user cannot be unescaped.  It does not depend on the
    order of the two. *)
Theorem compare_uris_text ma mb xa xb scha schb tya tyb ta tb :
  uri_at ma xa scha tya ta → uri_at mb xb schb tyb tb →
  no_nul (scha ++ text_chars ta) → no_nul (schb ++ text_chars tb) →
  compare_uris ma mb (Some xa) None (Some xb) None = Ok (uris_match scha schb tya tyb ta tb) ∧
  compare_uris mb ma (Some xb) None (Some xa) None = Ok (uris_match scha schb tya tyb ta tb).
Proof.
  intros Ha Hb Hna Hnb. rewrite (compare_uris_at _ _ _ _ _ _ _ _ _ _ Ha Hb Hna), (compare_uris_at _ _ _ _ _ _ _ _ _ _ Hb Ha Hnb).
  by rewrite (uris_match_sym schb).
Qed.

(** sip:b%6Fb@H;x=1;lr=on;Y=2 *)
Definition compare_example : uri_text :=
  UriText (Authority (Some (chars "b%6Fb", None)) (HName (chars "H")) None)
    [(chars "x", Some (chars "1")); (chars "lr", Some (chars "on")); (chars "Y", Some (chars "2"))] None.

(** sip:bob@h;lr=ON;y=2;z=3 *)
Definition compare_example' : uri_text :=
  UriText (Authority (Some (chars "bob", None)) (HName (chars "h")) None)
    [(chars "lr", Some (chars "ON")); (chars "y", Some (chars "2")); (chars "z", Some (chars "3"))] None.

Lemma compare_example_ok : text_ok compare_example.
Proof.
  split; [split; [split; [done|split; [plain_ok|done]]|split; [done|plain_ok]|done]| |done].
  repeat apply Forall_cons_2; [..|apply Forall_nil_2].
  - split; [split; [done|split; [plain_ok|done]]|]. split; [done|plain_ok].
  - split; [split; [done|split; [plain_ok|done]]|]. split; [done|plain_ok].
  - split; [split; [done|split; [plain_ok|done]]|]. split; [done|plain_ok].
Qed.

Lemma compare_example_ok' : text_ok compare_example'.
Proof.
  split; [split; [split; [done|split; [plain_ok|done]]|split; [done|plain_ok]|done]| |done].
  repeat apply Forall_cons_2; [..|apply Forall_nil_2].
  - split; [split; [done|split; [plain_ok|done]]|]. split; [done|plain_ok].
  - split; [split; [done|split; [plain_ok|done]]|]. split; [done|plain_ok].
  - split; [split; [done|split; [plain_ok|done]]|]. split; [done|plain_ok].
Qed.

Lemma compare_uris_text_witness :
  let a := chars "sip:" ++ text_chars compare_example in
  let b := chars "sip:" ++ text_chars compare_example' in
  compare_uris (block a) (block b) (Some (Str 4096 (len a))) None (Some (Str 4096 (len b))) None = Ok 0 ∧
  compare_uris (block b) (block a) (Some (Str 4096 (len b))) None (Some (Str 4096 (len a))) None = Ok 0.
Proof.
  apply (compare_uris_text (block (chars "sip:" ++ text_chars compare_example)) (block (chars "sip:" ++ text_chars compare_example'))
    (Str 4096 25) (Str 4096 23) (chars "sip:") (chars "sip:") SIP_URI_T SIP_URI_T compare_example compare_example').
  - split; [done|by left|apply compare_example_ok|split; [done|apply block_bytes]|done].
  - split; [done|by left|apply compare_example_ok'|split; [done|apply block_bytes]|done].
  - refine (bool_decide_unpack _ _). by vm_compute.
  - refine (bool_decide_unpack _ _). by vm_compute.
Defined.

Definition compare_texts (a b : string) : res Z :=
  compare_uris (block (chars a)) (block (chars b)) (Some (Str 4096 (len (chars a)))) None (Some (Str 4096 (len (chars b)))) None.

(** RFC 3261, which the comparison is to follow, lets the case of the user name
    count, and does not let that of a password be ignored either.  Texts that are equal up
    to case are taken for equal all the same, while the user names count where the texts
    differ elsewhere; and the parameters [gr] and [pn-*] are never compared. *)
Lemma compare_uris_case :
  compare_texts "sip:Alice:PW@h" "sip:alice:pw@h" = Ok 0 ∧ compare_texts "sip:Alice@h" "sip:alice@h;x" = Ok 1 ∧
  compare_texts "sip:a@h;gr=1" "sip:a@h;gr=2" = Ok 0.
Proof. by vm_compute. Qed.
