(* ===== verification/Stl.v ===== *)
(** * The C++ standard library, as far as the server uses it

    Characters and strings are those of [Memory]: a [std::string] is the list of
    its characters.  Containers are lists.  Vectors are read and written through
    [vget] and [vset], which fault out of range, where C++ leaves the behaviour
    undefined. *)

From stdpp Require Import strings sorting sets.
From S2P Require Export ParserF.

(** ** Machine words *)

(** [uint64_t]. *)
Definition u64 (z : Z) : Z := z mod 2 ^ 64.
Arguments u64 z : simpl never.

Lemma u64_small z : 0 ≤ z < 2 ^ 64 → u64 z = z.
Proof. apply Z.mod_small. Qed.

Lemma u64_range z : 0 ≤ u64 z < 2 ^ 64.
Proof. apply Z.mod_pos_bound. lia. Qed.

(** ** Exceptions

    A function that may throw yields [inl e] for an exception [e].  The classes
    are those that the handlers tell apart: [ios_failure], [conversion_error]
    (of folly) and [runtime_error] are [std::runtime_error]s, [invalid_argument]
    and [out_of_range] are [std::logic_error]s; [bad_alloc] stands for what an
    allocation throws. *)
Inductive exn : Type :=
| runtime_error (what : string)
| conversion_error
| ios_failure
| invalid_argument
| out_of_range
| bad_alloc.

#[export] Instance exn_eq_dec : EqDecision exn.
Proof. solve_decision. Defined.

(** The handler [catch (std::runtime_error &e)]. *)
Definition is_runtime_error (e : exn) : bool :=
  match e with
  | runtime_error _ | conversion_error | ios_failure => true
  | invalid_argument | out_of_range | bad_alloc => false
  end.

Definition throws (A : Type) : Type := res (exn + A).

Definition throw {A} (e : exn) : throws A := Ok (inl e).
Definition ret {A} (a : A) : throws A := Ok (inr a).
Definition tbind {A B} (r : throws A) (f : A → throws B) : throws B :=
  match r with
  | Ok (inr a) => f a
  | Ok (inl e) => Ok (inl e)
  | Fault p => Fault p
  | OutOfFuel => OutOfFuel
  end.
Lemma tbind_ret {A B} (r : throws A) (f : A → throws B) b :
  tbind r f = ret b → ∃ a, r = ret a ∧ f a = ret b.
Proof. destruct r as [[e|a]|p|]; cbn; [done| |done..]. intros H. by exists a. Qed.

(** A computation that does not throw. *)
Definition lift {A} (r : res A) : throws A :=
  match r with Ok a => ret a | Fault p => Fault p | OutOfFuel => OutOfFuel end.

Notation "x ←? e ; k" := (tbind e (λ x, k))
  (at level 20, e at level 100, k at level 200, only parsing) : stdpp_scope.
Notation "' p ←? e ; k" := (tbind e (λ x, match x with p => k end))
  (at level 20, p pattern, e at level 100, k at level 200, only parsing) : stdpp_scope.

(** ** Vectors *)
Definition vget {A} (v : list A) (i : Z) : res A :=
  if i <? 0 then Fault i else
  match v !! Z.to_nat i with Some a => Ok a | None => Fault i end.

Definition vset {A} (v : list A) (i : Z) (a : A) : res (list A) :=
  if i <? 0 then Fault i else
  match v !! Z.to_nat i with Some _ => Ok (<[Z.to_nat i := a]> v) | None => Fault i end.

(** [v.at(i)]. *)
Definition vat {A} (v : list A) (i : Z) : throws A :=
  if i <? 0 then throw out_of_range else
  match v !! Z.to_nat i with Some a => ret a | None => throw out_of_range end.

Definition vsize {A} (v : list A) : Z := Z.of_nat (length v).

Lemma vget_nat {A} (v : list A) (i : nat) a : v !! i = Some a → vget v (Z.of_nat i) = Ok a.
Proof.
  intros H. unfold vget. destruct (Z.ltb_spec (Z.of_nat i) 0); [lia|]. by rewrite Nat2Z.id, H.
Qed.

Lemma vset_nat {A} (v : list A) (i : nat) a :
  (i < length v)%nat → vset v (Z.of_nat i) a = Ok (<[i := a]> v).
Proof.
  intros H. unfold vset. destruct (Z.ltb_spec (Z.of_nat i) 0); [lia|]. rewrite Nat2Z.id.
  destruct (lookup_lt_is_Some_2 v i H) as [b Hb]. by rewrite Hb.
Qed.

Lemma vget_range {A} (v : list A) i a : vget v i = Ok a → 0 ≤ i < vsize v.
Proof.
  unfold vget, vsize. destruct (Z.ltb_spec i 0); [done|]. destruct (v !! _) eqn:E; [|done].
  intros _. apply lookup_lt_Some in E. lia.
Qed.

(** [for (i = a; i < a + n; ++i) s = body(i, s);] *)
Fixpoint for_n {S} (body : Z → S → res S) (a : Z) (n : nat) (s : S) : res S :=
  match n with
  | O => mret s
  | Datatypes.S n => s ← body a s; for_n body (a + 1) n s
  end.

(** ** Algorithms *)

(** [std::stable_sort]: elements that neither is before the other keep their
    order. *)
Section sort.
Context {A : Type} (lt : A → A → bool).

Fixpoint sort_insert (x : A) (l : list A) : list A :=
match l with
| [] => [x]
| y :: l' => if lt y x then y :: sort_insert x l' else x :: y :: l'
end.

Definition stable_sort (l : list A) : list A := foldr sort_insert [] l.

(** [std::lower_bound] on [[first, end)], where the elements before [v] come
  first: the index of the first one that is not. *)
Fixpoint leading (f : A → bool) (l : list A) : nat :=
match l with
| [] => O
| y :: l => if f y then Datatypes.S (leading f l) else O
end.
Definition lower_bound (l : list A) (first : nat) (v : A) : nat :=
(first + leading (λ y, lt y v) (drop first l))%nat.

(** [std::unique] and [erase]: the first element of every run of equals. *)
Fixpoint unique_from (eqb : A → A → bool) (x : A) (l : list A) : list A :=
match l with
| [] => []
| y :: l => if eqb x y then unique_from eqb x l else y :: unique_from eqb y l
end.
Definition unique (eqb : A → A → bool) (l : list A) : list A :=
match l with [] => [] | x :: l => x :: unique_from eqb x l end.
End sort.

(** ** Facts about the algorithms *)
Section sort_facts.
Context {A : Type} (lt : A → A → bool) (key : A → Z).
Hypothesis lt_key : ∀ x y, lt x y = (key x <? key y).

Let sorted := StronglySorted (λ x y, key x ≤ key y).

Lemma sort_insert_perm x l : sort_insert lt x l ≡ₚ x :: l.
Proof.
induction l as [|y l IH]; [done|]. cbn. destruct (lt y x); [|done].
rewrite IH. apply Permutation_swap.
Qed.

Lemma stable_sort_perm l : stable_sort lt l ≡ₚ l.
Proof. induction l as [|x l IH]; [done|]. cbn. by rewrite sort_insert_perm, IH. Qed.

Lemma sort_insert_sorted x l : sorted l → sorted (sort_insert lt x l).
Proof.
induction 1 as [|y l Hl IH Hy]; cbn; [repeat constructor|]. rewrite lt_key.
destruct (Z.ltb_spec (key y) (key x)) as [Hlt|Hge].
- constructor; [done|]. rewrite sort_insert_perm. constructor; [lia|done].
- constructor; [by constructor|]. constructor; [lia|].
  eapply Forall_impl; [exact Hy|]. cbn. intros. lia.
Qed.

Lemma stable_sort_cons x l : stable_sort lt (x :: l) = sort_insert lt x (stable_sort lt l).
Proof. done. Qed.

Lemma stable_sort_sorted l : sorted (stable_sort lt l).
Proof. induction l; cbn; [constructor|by apply sort_insert_sorted]. Qed.

Lemma sort_insert_first x l : Forall (λ y, key x ≤ key y) l → sort_insert lt x l = x :: l.
Proof.
intros H. destruct l as [|y l]; [done|]. apply Forall_cons in H as [H _]. cbn. rewrite lt_key.
by destruct (Z.ltb_spec (key y) (key x)); [lia|].
Qed.

(** Sorting and selecting commute. *)
Lemma sort_insert_filter (f : A → bool) x l : sorted l →
List.filter f (sort_insert lt x l) = if f x then sort_insert lt x (List.filter f l) else List.filter f l.
Proof.
induction 1 as [|y l Hl IH Hy]; cbn; [done|]. rewrite lt_key.
destruct (Z.ltb_spec (key y) (key x)) as [Hlt|Hge]; cbn.
- rewrite IH. destruct (f x), (f y); try done. cbn. rewrite lt_key.
  by destruct (Z.ltb_spec (key y) (key x)); [|lia].
- destruct (f x); [|done]. symmetry. apply sort_insert_first.
  assert (Hall : Forall (λ z, key x ≤ key z) (y :: l)).
  { constructor; [lia|]. eapply Forall_impl; [exact Hy|]. cbn. intros. lia. }
  rewrite Forall_forall in Hall |- *. intros z Hz. apply Hall.
  change (z ∈ List.filter f (y :: l)) in Hz. apply list_elem_of_In, List.filter_In in Hz as [Hz _].
  by apply list_elem_of_In.
Qed.

Lemma stable_sort_filter (f : A → bool) l :
List.filter f (stable_sort lt l) = stable_sort lt (List.filter f l).
Proof.
induction l as [|x l IH]; [done|]. rewrite stable_sort_cons, sort_insert_filter by apply stable_sort_sorted.
rewrite IH. cbn. by destruct (f x).
Qed.

(** On a sorted list, the elements before a bound come first. *)
Lemma sorted_below l v : sorted l →
List.filter (λ y, key y <? v) l = take (leading (λ y, key y <? v) l) l ∧
List.filter (λ y, negb (key y <? v)) l = drop (leading (λ y, key y <? v) l) l.
Proof.
induction 1 as [|y l Hl [IH1 IH2] Hy]; [done|]. cbn.
destruct (Z.ltb_spec (key y) v) as [Hlt|Hge]; cbn.
- by rewrite IH1, IH2.
- assert (Hall : Forall (λ z, v ≤ key z) l).
  { eapply Forall_impl; [exact Hy|]. cbn. intros. lia. }
  cut (List.filter (λ y, key y <? v) l = [] ∧ List.filter (λ y, negb (key y <? v)) l = l).
  { intros [-> ->]. done. }
  clear -Hall. induction Hall as [|z l Hz _ [IH1 IH2]]; [done|]. cbn.
  destruct (Z.ltb_spec (key z) v); [lia|]. cbn. by rewrite IH1, IH2.
Qed.
End sort_facts.

Lemma sort_insert_ext {A} (lt lt' : A → A → bool) x l :
  Forall (λ y, lt y x = lt' y x) l → sort_insert lt x l = sort_insert lt' x l.
Proof. induction 1 as [|y l E _ IH]; [done|]. cbn. by rewrite E, IH. Qed.

Lemma stable_sort_ext {A} (lt lt' : A → A → bool) l :
  Forall (λ x, Forall (λ y, lt y x = lt' y x) l) l → stable_sort lt l = stable_sort lt' l.
Proof.
  intros H. assert (G : ∀ k, k ⊆ l → stable_sort lt k = stable_sort lt' k); [|by apply G].
  induction k as [|x k IH]; intros Hk; [done|]. rewrite !stable_sort_cons, IH by set_solver.
  apply sort_insert_ext. rewrite stable_sort_perm.
  rewrite Forall_forall in H. assert (Hx : x ∈ l) by set_solver. specialize (H x Hx).
  rewrite Forall_forall in H |- *. set_solver.
Qed.

Lemma sort_insert_map {A B} (lt : A → A → bool) (f : B → A) x l :
  sort_insert lt (f x) (map f l) = map f (sort_insert (λ a b, lt (f a) (f b)) x l).
Proof. induction l as [|y l IH]; [done|]. cbn. destruct (lt (f y) (f x)); [|done]. cbn. by rewrite IH. Qed.

Lemma stable_sort_map {A B} (lt : A → A → bool) (f : B → A) l :
  stable_sort lt (map f l) = map f (stable_sort (λ a b, lt (f a) (f b)) l).
Proof. induction l as [|x l IH]; [done|]. cbn [map]. by rewrite !stable_sort_cons, IH, sort_insert_map. Qed.

(** A tie-break by a key in which the list ascends does not change the order. *)
Lemma stable_sort_tie {A} (lt lt' : A → A → bool) (tie : A → Z) l :
  StronglySorted (λ x y, tie x < tie y) l →
  (∀ x y, tie x < tie y → lt' y x = lt y x) →
  stable_sort lt' l = stable_sort lt l.
Proof.
  intros Hl Htie. induction Hl as [|x l Hl IH Hx]; [done|]. rewrite !stable_sort_cons, IH.
  apply sort_insert_ext. rewrite stable_sort_perm. eapply Forall_impl; [exact Hx|]. cbn. auto.
Qed.
