(* ===== verification/Text.v ===== *)
(** * Streams and numbers of the C++ standard library

    The input streams that the loaders read ([std::ifstream] with exceptions for
    [failbit] and [badbit]), [std::getline], and the conversions of numbers. *)

From stdpp Require Import strings.
From S2P Require Export Stl.

(** ** Input streams *)

(** The characters that are left, and [eofbit]. *)
Record istream := IStream { in_rest : list Z; in_eof : bool }.

Definition open_stream (contents : list Z) : istream := IStream contents false.
Definition good (s : istream) : bool := negb (in_eof s).

(** On a stream that is not good, the sentry of an input function sets
    [failbit], which throws. *)
Definition peek (s : istream) : throws (option Z * istream) :=
  if in_eof s then throw ios_failure else
  match in_rest s with
  | [] => ret (None, IStream [] true)
  | c :: _ => ret (Some c, s)
  end.

(** The characters before the delimiter, and what follows it, if there is one. *)
Fixpoint until (delim : Z) (l : list Z) : list Z * option (list Z) :=
  match l with
  | [] => ([], None)
  | c :: l =>
      if c =? delim then ([], Some l)
      else let (p, r) := until delim l in (c :: p, r)
  end.

(** [std::getline(in, line)]: nothing extracted sets [failbit]. *)
Definition getline (s : istream) : throws (list Z * istream) :=
  if in_eof s then throw ios_failure else
  match until LF (in_rest s) with
  | (p, Some r) => ret (p, IStream r false)
  | (p, None) => match p with [] => throw ios_failure | _ => ret (p, IStream [] true) end
  end.

(** [while (std::getline(ss, part, delim)) parts.push_back(part);] on a
    [std::stringstream] without exceptions. *)
Fixpoint getlines_n (n : nat) (delim : Z) (l : list Z) : list (list Z) :=
  match n with
  | O => []
  | S n =>
      match until delim l with
      | (p, Some r) => p :: getlines_n n delim r
      | (p, None) => match p with [] => [] | _ => [p] end
      end
  end.
Definition getlines (delim : Z) (l : list Z) : list (list Z) :=
  getlines_n (S (length l)) delim l.

(** ** Numbers *)

(** [isspace] in the C locale. *)
Definition isspace (c : Z) : bool := (c =? 32) || ((9 <=? c) && (c <=? 13)).

Fixpoint skip_space (l : list Z) : list Z :=
  match l with
  | c :: l' => if isspace c then skip_space l' else l
  | [] => []
  end.

(** An optional sign: negative or not, and what follows. *)
Definition take_sign (l : list Z) : bool * list Z :=
  match l with
  | c :: l' => if c =? ch "-" then (true, l') else if c =? ch "+" then (false, l') else (false, l)
  | [] => (false, l)
  end.

(** [std::stoll(s)]. *)
Definition stoll (s : list Z) : throws Z :=
  let (neg, l) := take_sign (skip_space s) in
  match take_while is_digit l with
  | [] => throw invalid_argument
  | ds =>
      let n := if neg then - decimal ds else decimal ds in
      if (- 2 ^ 63 <=? n) && (n <? 2 ^ 63) then ret n else throw out_of_range
  end.

(** [iss >> n] for a [uint64_t]: [None] leaves [n] alone (nothing but white
    space); a failed conversion stores 0, one out of range the largest value. *)
Definition extract_u64 (s : list Z) : option Z :=
  match skip_space s with
  | [] => None
  | l =>
      let (neg, l) := take_sign l in
      match take_while is_digit l with
      | [] => Some 0
      | ds =>
          Some (if 2 ^ 64 <=? decimal ds then 2 ^ 64 - 1
                else u64 (if neg then - decimal ds else decimal ds))
      end
  end.

(** [out << n] for a [uint64_t]. *)
Fixpoint dec_n (n : nat) (z : Z) (acc : list Z) : list Z :=
  match n with
  | O => acc
  | S n =>
      if z <? 10 then (48 + z) :: acc else dec_n n (z / 10) ((48 + z mod 10) :: acc)
  end.
Definition dec (z : Z) : list Z := dec_n 20 z [].

(** ** Facts *)
Lemma until_app delim l r :
  Forall (λ c, (c =? delim) = false) l → until delim (l ++ delim :: r) = (l, Some r).
Proof.
  induction 1 as [|c l Hc _ IH]; cbn; [by rewrite Z.eqb_refl|]. by rewrite Hc, IH.
Qed.

Lemma until_end delim l :
  Forall (λ c, (c =? delim) = false) l → until delim l = (l, None).
Proof. induction 1 as [|c l Hc _ IH]; cbn; [done|]. by rewrite Hc, IH. Qed.

Lemma until_spec delim l p r : until delim l = (p, r) →
  Forall (λ c, (c =? delim) = false) p ∧
  l = p ++ match r with Some r => delim :: r | None => [] end.
Proof.
  revert p r. induction l as [|c l IH]; cbn; intros p r; [by intros [= <- <-]|].
  destruct (Z.eqb_spec c delim) as [->|Hne]; [by intros [= <- <-]|].
  destruct (until delim l) as [p' r'] eqn:E. intros [= <- <-]. destruct (IH _ _ eq_refl) as [H1 ->].
  split; [|done]. constructor; [|done]. by apply Z.eqb_neq.
Qed.

Lemma until_length delim l p r : until delim l = (p, Some r) → (length r < length l)%nat.
Proof. intros [_ ->]%until_spec. rewrite length_app. cbn. lia. Qed.

Lemma getlines_n_fuel delim n l : (length l < n)%nat → getlines_n n delim l = getlines delim l.
Proof.
  unfold getlines. revert l. induction n as [n IH] using lt_wf_ind. intros l Hl.
  destruct n as [|n]; [lia|]. cbn. destruct (until delim l) as [p [r|]] eqn:E; [|done].
  apply until_length in E. f_equal. rewrite (IH n) by lia.
  destruct (decide (length l = n)) as [->|]; [by rewrite (IH n) by lia|].
  by rewrite (IH (length l)) by lia.
Qed.

(** The fields of a line, each behind a separator. *)
Lemma getlines_cons delim p r :
  Forall (λ c, (c =? delim) = false) p → getlines delim (p ++ delim :: r) = p :: getlines delim r.
Proof.
  intros Hp. unfold getlines at 1. cbn [getlines_n]. rewrite until_app by done. f_equal.
  apply getlines_n_fuel. rewrite length_app. cbn. lia.
Qed.

Lemma getlines_last delim p :
  Forall (λ c, (c =? delim) = false) p → p ≠ [] → getlines delim p = [p].
Proof. intros Hp Hne. unfold getlines. cbn. rewrite until_end by done. by destruct p. Qed.

Lemma getlines_nil delim : getlines delim [] = [].
Proof. done. Qed.

Lemma digit_not_space d : 48 ≤ d ≤ 57 → isspace d = false ∧ (d =? ch "-") = false ∧ (d =? ch "+") = false.
Proof.
  intros Hd. unfold isspace. change (ch "-") with 45. change (ch "+") with 43.
  repeat match goal with
  | |- context [?a =? ?b] => destruct (Z.eqb_spec a b); [lia|]
  | |- context [?a <=? ?b] => destruct (Z.leb_spec a b); try lia
  end; done.
Qed.

Lemma take_digits ds r : digits ds → head_is (λ c, negb (is_digit c)) r →
  take_while is_digit (ds ++ r) = ds.
Proof.
  intros Hds Hr. induction Hds as [|d ds Hd _ IH]; cbn.
  - destruct r as [|c r]; [done|]. cbn in *. apply negb_true_iff in Hr. by rewrite Hr.
  - rewrite (proj2 (is_digit_spec d) Hd). by rewrite IH.
Qed.

(** A number that begins with a digit. *)
Lemma stoll_digits ds r : digits ds → ds ≠ [] → head_is (λ c, negb (is_digit c)) r →
  decimal ds < 2 ^ 63 → stoll (ds ++ r) = ret (decimal ds).
Proof.
  intros Hds Hne Hr Hlt. unfold stoll. destruct ds as [|d ds]; [done|].
  pose proof (Forall_inv Hds) as Hd. destruct (digit_not_space d Hd) as (E1 & E2 & E3).
  change ((d :: ds) ++ r) with (d :: (ds ++ r)). cbn [skip_space]. rewrite E1. cbn [take_sign]. rewrite E2, E3.
  change (d :: (ds ++ r)) with ((d :: ds) ++ r). rewrite take_digits by done.
  destruct (decimal_from (d :: ds) 0 Hds) as [_ Hpos].
  destruct (Z.leb_spec (- 2 ^ 63) (decimal (d :: ds))); [|lia].
  by destruct (Z.ltb_spec (decimal (d :: ds)) (2 ^ 63)); [|lia].
Qed.

Lemma decimal_bound ds : digits ds → 0 ≤ decimal ds < 10 ^ Z.of_nat (length ds).
Proof.
  intros Hds. induction ds as [|d ds IH] using rev_ind; [cbn; lia|].
  apply Forall_app in Hds as [Hds Hd]. apply Forall_cons in Hd as [Hd _]. specialize (IH Hds).
  rewrite decimal_snoc, length_app. cbn [length]. rewrite Nat2Z.inj_add, Z.pow_add_r by lia.
  change (10 ^ Z.of_nat 1) with 10. lia.
Qed.

(** Printing a number gives its digits. *)
Lemma dec_n_spec n z acc : 0 ≤ z < 10 ^ Z.of_nat n → (0 < n)%nat →
  ∃ ds, dec_n n z acc = ds ++ acc ∧ digits ds ∧ ds ≠ [] ∧ decimal ds = z.
Proof.
  revert z acc. induction n as [|n IH]; intros z acc Hz Hn; [lia|]. cbn [dec_n].
  destruct (Z.ltb_spec z 10).
  { exists [48 + z]. split_and!; [done|repeat constructor; lia|done|]. unfold decimal. cbn. lia. }
  rewrite Nat2Z.inj_succ, Z.pow_succ_r in Hz by lia.
  destruct n as [|n]; [cbn in Hz; lia|].
  pose proof (Z.div_mod z 10 ltac:(lia)). pose proof (Z.mod_pos_bound z 10 ltac:(lia)).
  destruct (IH (z / 10) ((48 + z mod 10) :: acc)) as (ds & E & Hds & Hne & Hdec); [lia|lia|].
  exists (ds ++ [48 + z mod 10]). rewrite E, <- app_assoc. split_and!; [done| |by destruct ds|].
  - apply Forall_app. split; [done|]. repeat constructor; lia.
  - rewrite decimal_snoc, Hdec. lia.
Qed.

Lemma dec_spec z : 0 ≤ z < 2 ^ 64 → digits (dec z) ∧ dec z ≠ [] ∧ decimal (dec z) = z.
Proof.
  intros Hz. destruct (dec_n_spec 20 z []) as (ds & E & H); [lia|lia|].
  unfold dec. by rewrite E, app_nil_r.
Qed.
