(* ===== verification/Folly.v ===== *)
(** * The folly library, as the server sees it

    Folly is not part of the repository.  What the server calls is collected in
    the class [Folly]; [FollyOk] states what the documentation of these functions
    promises, and is what the proofs use.  [folly_model] is an implementation
    that keeps the promises, for evaluating the model. *)

From stdpp Require Import strings gmap.
From S2P Require Export Text.

(** [folly::trimWhitespace]: the white space it removes. *)
Definition is_trim (c : Z) : bool := (c =? 32) || (c =? 9) || (c =? 10) || (c =? 13).

(** The pieces between delimiters, empty ones included. *)
Fixpoint pieces (delim : Z) (l : list Z) : list (list Z) :=
  match l with
  | [] => [[]]
  | c :: l =>
      if c =? delim then [] :: pieces delim l
      else match pieces delim l with
           | p :: ps => (c :: p) :: ps
           | [] => [[c]]
           end
  end.

(** [folly::format] of texts: the placeholders [{}] take the arguments in turn, and
    [{{] and [}}] stand for braces. *)
Fixpoint placeholders (fmt : string) (args : list (list Z)) : list Z :=
  match fmt with
  | EmptyString => []
  | String "{" (String "{" fmt) => ch "{" :: placeholders fmt args
  | String "}" (String "}" fmt) => ch "}" :: placeholders fmt args
  | String "{" (String "}" fmt) =>
      match args with
      | a :: args => a ++ placeholders fmt args
      | [] => placeholders fmt []
      end
  | String c fmt => ch c :: placeholders fmt args
  end.

Class Folly := {
  (** [F14ValueMap<uint64_t, V>]; a token carries the hash of a key. *)
  F14ValueMap : Type → Type;
  F14HashToken : Type;
  f14_empty {V} : F14ValueMap V;
  f14_count {V} : F14ValueMap V → Z → bool;
  f14_emplace {V} : F14ValueMap V → Z → V → F14ValueMap V;
  f14_prehash {V} : F14ValueMap V → Z → F14HashToken;
  f14_find {V} : F14ValueMap V → F14HashToken → Z → option V;
  (** [folly::tryTo<uint64_t>]. *)
  tryTo_u64 : list Z → option Z;
  (** [folly::split(delim, line, row)] into a vector of [uint64_t]; [None] for
      the [ConversionError] that is thrown. *)
  split_u64 : Z → list Z → option (list Z);
  (** [folly::trimWhitespace], [folly::rtrimWhitespace] and
      [StringPiece::removePrefix]. *)
  trimWhitespace : list Z → list Z;
  rtrimWhitespace : list Z → list Z;
  removePrefix : list Z → list Z → list Z;
  (** [folly::dynamic]: the metadata of a mapping, and the messages of the control
      socket.  [msg[key].asString()], [msg.getDefault(key, v).asString()] and
      [.asInt()] throw ([None]) where the value has another type. *)
  dynamic : Type;
  dynamic_null : dynamic;
  parseJson : list Z → option dynamic;
  at_asString : dynamic → list Z → option (list Z);
  getDefault_asString : dynamic → list Z → list Z → option (list Z);
  getDefault_asInt : dynamic → list Z → Z → option Z;
  dynamic_erase : dynamic → list Z → dynamic;
  (** Whether [reserve(n)] of the containers finds the memory. *)
  reserve : Z → bool;
  (** [folly::IPAddress], with the constructor from text ([None]: it throws). *)
  IPAddress : Type;
  IPAddress_dec : EqDecision IPAddress;
  IPAddress_parse : list Z → option IPAddress;
  (** [folly::TokenBucket]: [reset(rate, burst)] and [consume(tokens)] at a time. *)
  double : Type;
  tryTo_double : list Z → option double;
  max_one : double → double;
  TokenBucket : Type;
  default_bucket : TokenBucket;
  bucket_reset : TokenBucket → double → double → TokenBucket;
  bucket_consume : TokenBucket → Z → Z → bool * TokenBucket;
  (** [folly::format]; a number is given by its digits. *)
  format : string → list (list Z) → list Z;
  (** What is left of a [folly::Optional] that was moved from. *)
  optional_moved : option Z → option Z;
}.
#[export] Existing Instance IPAddress_dec.

(** A search with the token of the key. *)
Definition f14_lookup `{Folly} {V} (m : F14ValueMap V) (k : Z) : option V :=
  f14_find m (f14_prehash m k) k.

Class FollyOk `{Folly} : Prop := {
  f14_lookup_empty V k : f14_lookup (@f14_empty _ V) k = None;
  f14_lookup_emplace V (m : F14ValueMap V) k v j :
    f14_lookup (f14_emplace m k v) j =
    if j =? k then Some (default v (f14_lookup m k)) else f14_lookup m j;
  f14_count_lookup V (m : F14ValueMap V) k : f14_count m k = bool_decide (is_Some (f14_lookup m k));
  tryTo_digits ds ws : digits ds → ds ≠ [] → decimal ds < 2 ^ 64 →
    Forall (λ c, isspace c = true) ws → tryTo_u64 (ds ++ ws) = Some (decimal ds);
  tryTo_bad s c : c ∈ s → is_digit c = false → isspace c = false → tryTo_u64 s = None;
  tryTo_empty : tryTo_u64 [] = None;
  tryTo_range s n : tryTo_u64 s = Some n → 0 ≤ n < 2 ^ 64;
  tryTo_length s n : tryTo_u64 s = Some n → n < 10 ^ Z.of_nat (length s);
  split_pieces d l : split_u64 d l = mapM tryTo_u64 (pieces d l);
  trim_spec a s b :
    Forall (λ c, is_trim c = true) a → Forall (λ c, is_trim c = true) b →
    head_is (λ c, negb (is_trim c)) s → head_is (λ c, negb (is_trim c)) (rev s) →
    trimWhitespace (a ++ s ++ b) = s;
  rtrim_spec s b : Forall (λ c, is_trim c = true) b → head_is (λ c, negb (is_trim c)) (rev s) →
    rtrimWhitespace (s ++ b) = s;
  format_placeholders fmt args : format fmt args = placeholders fmt args;
  removePrefix_spec s p :
    removePrefix s p = if prefixb p s then drop (length p) s else s;
}.

(** ** Command line flags ([DEFINE_uint32], [DEFINE_bool]) *)
Class Flags := {
  FLAGS_f14map_prefetch : nat;
  FLAGS_dnc_f14map_prefetch : nat;
  FLAGS_dno_f14map_prefetch : nat;
  FLAGS_tollfree_f14map_prefetch : nat;
  FLAGS_lerg_f14map_prefetch : nat;
  FLAGS_youmail_f14map_prefetch : nat;
  FLAGS_geo_f14map_prefetch : nat;
  FLAGS_ftc_f14map_prefetch : nat;
  FLAGS_F404_f14map_prefetch : nat;
  FLAGS_F606_f14map_prefetch : nat;
  FLAGS_max_query_length : Z;
  FLAGS_sip_max_length : Z;
  FLAGS_rfc4694 : bool;
}.

(** The constructors of the mappings [CHECK] the sizes of the batches. *)
Class FlagsOk `{Flags} : Prop := {
  f14map_pos : (0 < FLAGS_f14map_prefetch)%nat;
  dnc_pos : (0 < FLAGS_dnc_f14map_prefetch)%nat;
  dno_pos : (0 < FLAGS_dno_f14map_prefetch)%nat;
  tollfree_pos : (0 < FLAGS_tollfree_f14map_prefetch)%nat;
  lerg_pos : (0 < FLAGS_lerg_f14map_prefetch)%nat;
  youmail_pos : (0 < FLAGS_youmail_f14map_prefetch)%nat;
  geo_pos : (0 < FLAGS_geo_f14map_prefetch)%nat;
  ftc_pos : (0 < FLAGS_ftc_f14map_prefetch)%nat;
  F404_pos : (0 < FLAGS_F404_f14map_prefetch)%nat;
  F606_pos : (0 < FLAGS_F606_f14map_prefetch)%nat;
}.

(** The defaults. *)
#[export] Instance default_flags : Flags := {
  FLAGS_f14map_prefetch := 16;
  FLAGS_dnc_f14map_prefetch := 16;
  FLAGS_dno_f14map_prefetch := 16;
  FLAGS_tollfree_f14map_prefetch := 16;
  FLAGS_lerg_f14map_prefetch := 16;
  FLAGS_youmail_f14map_prefetch := 16;
  FLAGS_geo_f14map_prefetch := 16;
  FLAGS_ftc_f14map_prefetch := 16;
  FLAGS_F404_f14map_prefetch := 16;
  FLAGS_F606_f14map_prefetch := 16;
  FLAGS_max_query_length := 32768;
  FLAGS_sip_max_length := 1500;
  FLAGS_rfc4694 := false;
}.

#[export] Instance default_flags_ok : FlagsOk.
Proof. split; cbn; lia. Qed.

(** ** Lookups in batches

    [while (N > 0) { M = min(N, prefetch); ... pn += M; out += M; N -= M; }]:
    the tokens of a batch are computed before its searches; [body] is what is
    done to one element of the output. *)
Fixpoint fill {T B} (body : T → Z → B → B) (token : list T) (pn : list Z) (out : list B) : list B :=
  match token, pn, out with
  | t :: token, k :: pn, o :: out => body t k o :: fill body token pn out
  | _, _, _ => []
  end.

Section batch.
Context {T B : Type} (prefetch : nat) (tok : Z → T) (body : T → Z → B → B).

Definition batch_step (s : list Z * list B * list B) : res (list Z * list B * list B + list B) :=
let '(pn, out, filled) := s in
match pn with
| [] => mret (inr filled)
| _ =>
    let M := Nat.min (length pn) prefetch in
    let token := map tok (take M pn) in
    mret (inl (drop M pn, drop M out, filled ++ fill body token (take M pn) (take M out)))
end.

Definition batch (pn : list Z) (out : list B) : res (list B) :=
loop batch_step (S (length pn)) (pn, out, []).

Lemma fill_zip pn out : fill body (map tok pn) pn out = zip_with (λ k o, body (tok k) k o) pn out.
Proof. revert out. induction pn as [|k pn IH]; intros [|o out]; cbn; [done..|]. by rewrite IH. Qed.

(** Every element of the output is computed once, from its own key; the batch
  size is not seen, as long as it is positive. *)
Lemma batch_ok pn out : (0 < prefetch)%nat → length out = length pn →
batch pn out = Ok (zip_with (λ k o, body (tok k) k o) pn out).
Proof.
intros Hpos. unfold batch.
cut (∀ fuel filled, length out = length pn → (length pn < fuel)%nat → loop batch_step fuel (pn, out, filled) =
  Ok (filled ++ zip_with (λ k o, body (tok k) k o) pn out)); [intros H Hl; by rewrite H by lia|].
remember (length pn) as n eqn:Hn. revert pn out Hn.
induction n as [n IH] using lt_wf_ind. intros pn out Hn fuel filled Hout Hfuel.
destruct fuel as [|fuel]; [lia|]. destruct pn as [|k pn].
{ rewrite (loop_inr _ _ _ filled) by done. by rewrite app_nil_r. }
set (M := Nat.min (length (k :: pn)) prefetch). set (l := k :: pn) in *.
rewrite (loop_inl _ _ _ (drop M l, drop M out, filled ++ fill body (map tok (take M l)) (take M l) (take M out))) by done.
assert (HM : (0 < M ≤ length l)%nat) by (unfold M, l; cbn [length]; lia).
rewrite (IH (length (drop M l))); [|rewrite length_drop; lia|done|rewrite !length_drop; lia|rewrite length_drop; lia].
rewrite <- app_assoc, fill_zip, <- zip_with_app by (rewrite !length_take; lia). by rewrite !take_drop.
Qed.
End batch.

(** ** An implementation *)
Fixpoint skip_trim (l : list Z) : list Z :=
  match l with
  | c :: l' => if is_trim c then skip_trim l' else l
  | [] => []
  end.

Definition model_tryTo (s : list Z) : option Z :=
  let l := skip_space s in
  match take_while is_digit l with
  | [] => None
  | ds =>
      if (decimal ds <? 2 ^ 64) && forallb isspace (drop (length ds) l) then Some (decimal ds) else None
  end.

Definition model_find {V} (m : gmap Z V) (t k : Z) : option V := if t =? k then m !! k else None.
Definition model_emplace {V} (m : gmap Z V) (k : Z) (v : V) : gmap Z V :=
  match m !! k with Some _ => m | None => <[k := v]> m end.

Lemma model_find_emplace {V} (m : gmap Z V) k v j :
  model_find (model_emplace m k v) j j =
  if j =? k then Some (default v (model_find m k k)) else model_find m j j.
Proof.
  unfold model_find, model_emplace. rewrite !Z.eqb_refl.
  destruct (Z.eqb_spec j k) as [->|Hne]; destruct (m !! k) eqn:E; try done.
  - apply lookup_insert_eq.
  - by apply lookup_insert_ne.
Qed.

(** An object has strings and numbers as its members. *)
Definition model_member (d : list (list Z * (list Z + Z))) (k : list Z) : option (list Z + Z) :=
  snd <$> find (λ e, list_eqb k e.1) d.
Definition MAXRESERVE : Z := 2 ^ 32.

(** Messages of the form [command,country], with one descriptor. *)
Definition model_parse (s : list Z) : option (list (list Z * (list Z + Z))) :=
  match pieces (ch ",") s with
  | [cmd; country] =>
      Some [(chars "cmd", inl cmd); (chars "stdin", inr 0); (chars "stdout", inr 0); (chars "country", inl country)]
  | _ => None
  end.

#[export] Instance folly_model : Folly := {
  F14ValueMap := gmap Z;
  F14HashToken := Z;
  f14_empty V := ∅;
  f14_count V m k := bool_decide (is_Some (model_find m k k));
  f14_emplace V m k v := model_emplace m k v;
  f14_prehash V m k := k;
  f14_find V m t k := model_find m t k;
  tryTo_u64 := model_tryTo;
  split_u64 d l := mapM model_tryTo (pieces d l);
  trimWhitespace s := rev (skip_trim (rev (skip_trim s)));
  rtrimWhitespace s := rev (skip_trim (rev s));
  removePrefix s p := if prefixb p s then drop (length p) s else s;
  dynamic := list (list Z * (list Z + Z));
  dynamic_null := [];
  parseJson := model_parse;
  at_asString d k := match model_member d k with Some (inl s) => Some s | _ => None end;
  getDefault_asString d k v :=
    match model_member d k with Some (inl s) => Some s | Some (inr _) => None | None => Some v end;
  getDefault_asInt d k v :=
    match model_member d k with Some (inr n) => Some n | Some (inl _) => None | None => Some v end;
  dynamic_erase d k := List.filter (λ e, negb (list_eqb k e.1)) d;
  reserve n := n <=? MAXRESERVE;
  IPAddress := list Z;
  IPAddress_dec := _;
  IPAddress_parse s := match s with [] => None | _ => Some s end;
  double := Z;
  tryTo_double := model_tryTo;
  max_one := Z.max 1;
  TokenBucket := Z;
  default_bucket := 10 ^ 10;
  bucket_reset _ rate burst := burst;
  bucket_consume b now n := if n <=? b then (true, b - n) else (false, b);
  format := placeholders;
  optional_moved _ := None;
}.

Lemma skip_trim_app a s : Forall (λ c, is_trim c = true) a → head_is (λ c, negb (is_trim c)) s →
  skip_trim (a ++ s) = s.
Proof.
  intros Ha Hs. induction Ha as [|c a Hc _ IH]; cbn.
  - destruct s as [|c s]; [done|]. cbn in *. apply negb_true_iff in Hs. by rewrite Hs.
  - by rewrite Hc.
Qed.

Lemma skip_space_suffix s : ∃ a, s = a ++ skip_space s ∧ Forall (λ c, isspace c = true) a.
Proof.
  induction s as [|c s (a & E & Ha)]; [by exists []|]. cbn. destruct (isspace c) eqn:Hc; [|by exists []].
  exists (c :: a). split; [cbn; by rewrite <- E|by constructor].
Qed.

Lemma take_while_prefix f l : l = take_while f l ++ drop (length (take_while f l)) l.
Proof. induction l as [|c l IH]; [done|]. cbn. destruct (f c); [|done]. cbn. by rewrite <- IH. Qed.

Lemma take_while_forall f l : Forall (λ c, f c = true) (take_while f l).
Proof. induction l as [|c l IH]; cbn; [done|]. destruct (f c) eqn:E; by constructor. Qed.

Lemma digits_take_while l : digits (take_while is_digit l).
Proof.
  eapply Forall_impl; [apply take_while_forall|]. intros c H. by apply is_digit_spec.
Qed.

Lemma space_not_digit c : isspace c = true → is_digit c = false.
Proof.
  intros H. apply not_true_is_false. intros Hd%is_digit_spec%digit_not_space. destruct Hd as [Hd _]. congruence.
Qed.

Lemma model_tryTo_spec s n : model_tryTo s = Some n → 0 ≤ n < 2 ^ 64 ∧ n < 10 ^ Z.of_nat (length s).
Proof.
  unfold model_tryTo. destruct (skip_space_suffix s) as (a & E & _). set (l := skip_space s) in *.
  pose proof (take_while_length is_digit l) as Hlen.
  pose proof (decimal_bound _ (digits_take_while l)) as Hb.
  destruct (take_while is_digit l) as [|d ds]; [done|].
  destruct (Z.ltb_spec (decimal (d :: ds)) (2 ^ 64)); [|done]. cbn [andb].
  destruct (forallb _ _); [|done]. intros [= <-]. split; [lia|].
  eapply Z.lt_le_trans; [apply Hb|]. apply Z.pow_le_mono_r; [lia|]. rewrite E, length_app. lia.
Qed.

Lemma model_tryTo_digits ds ws : digits ds → ds ≠ [] → decimal ds < 2 ^ 64 →
  Forall (λ c, isspace c = true) ws → model_tryTo (ds ++ ws) = Some (decimal ds).
Proof.
  intros Hds Hne Hlt Hws. unfold model_tryTo.
  replace (skip_space (ds ++ ws)) with (ds ++ ws).
  2: { destruct ds as [|d ds]; [done|]. destruct (digit_not_space d (Forall_inv Hds)) as [E _]. cbn. by rewrite E. }
  rewrite take_digits; [|done|]. 2: { destruct Hws as [|c ws Hc]; [done|]. cbn. by rewrite space_not_digit. }
  destruct ds as [|d ds]; [done|]. rewrite drop_app_length. destruct (Z.ltb_spec (decimal (d :: ds)) (2 ^ 64)); [|lia].
  replace (forallb isspace ws) with true; [done|].
  symmetry. apply forallb_forall. intros c Hc. rewrite Forall_forall in Hws. by apply Hws, list_elem_of_In.
Qed.

Lemma model_tryTo_bad s c : c ∈ s → is_digit c = false → isspace c = false → model_tryTo s = None.
Proof.
  intros Hc Hd Hs. unfold model_tryTo. destruct (skip_space_suffix s) as (a & E & Ha).
  rewrite E in Hc. apply elem_of_app in Hc as [Hc|Hc].
  { rewrite Forall_forall in Ha. specialize (Ha _ Hc). congruence. }
  set (l := skip_space s) in *. rewrite (take_while_prefix is_digit l) in Hc.
  destruct (take_while is_digit l) as [|d ds] eqn:Et; [done|].
  destruct (forallb isspace (drop (length (d :: ds)) l)) eqn:Ef; [|by rewrite andb_false_r].
  apply elem_of_app in Hc as [Hc|Hc].
  - pose proof (take_while_forall is_digit l) as H. rewrite Et, Forall_forall in H.
    specialize (H _ Hc). congruence.
  - rewrite forallb_forall in Ef. specialize (Ef c (proj1 (list_elem_of_In _ _) Hc)). congruence.
Qed.

#[export] Instance folly_model_ok : FollyOk.
Proof.
  split.
  - intros V k. change (model_find (∅ : gmap Z V) k k = None). unfold model_find.
    by rewrite Z.eqb_refl, lookup_empty.
  - intros V m k v j. apply (model_find_emplace (V:=V)).
  - done.
  - apply model_tryTo_digits.
  - apply model_tryTo_bad.
  - done.
  - intros s n Hs. apply (proj1 (model_tryTo_spec s n Hs)).
  - intros s n Hs. apply (proj2 (model_tryTo_spec s n Hs)).
  - done.
  - intros a s b Ha Hb Hs Hr. cbn. destruct s as [|c s].
    + rewrite app_nil_l. replace (skip_trim (a ++ b)) with (@nil Z); [done|].
      rewrite <- (app_nil_r (a ++ b)). rewrite skip_trim_app; [done|by apply Forall_app|done].
    + rewrite skip_trim_app by done. rewrite rev_app_distr, skip_trim_app; [by rewrite rev_involutive|..|done].
      by apply Forall_rev.
  - intros s b Hb Hs. cbn. rewrite rev_app_distr, skip_trim_app; [by rewrite rev_involutive| |done].
    by apply Forall_rev.
  - done.
  - done.
Qed.
