(* ===== verification/AccessLog.v ===== *)
(** * The access log (AccessLog.h, AccessLog.cpp)

    Lines are built in an [std::ostringstream] and written by a writer that is
    replaced when the log is rotated.  The sockets of folly and the calendar of
    the C library are parameters. *)

From stdpp Require Import strings.
From S2P Require Export Folly.

Class Sockets `{Folly} := {
  (** [folly::SocketAddress], the default one, and its text. *)
  SocketAddress : Type;
  no_address : SocketAddress;
  getIPAddress : SocketAddress → IPAddress;
  show_address : SocketAddress → list Z;
  (** [std::put_time(&date, "%d/%b/%Y:%H:%M:%S %z")] after [gmtime_r]. *)
  put_time : Z → list Z;
}.

(** Sockets for evaluating the model: the address is the text. *)
#[export] Instance sockets_model : Sockets := {
  SocketAddress := list Z;
  no_address := [];
  getIPAddress a := a;
  show_address a := a;
  put_time := dec;
}.

Section AccessLog.
Context `{Sockets}.

(** ** [AccessLogFormatter] *)
Record AccessLogFormatter := MkFormatter { message_ : list Z }.

Definition new_formatter : AccessLogFormatter := MkFormatter [].

Definition quote : list Z := [34].

(** What a request adds to the message. *)
Definition request_part (peer : SocketAddress) (method uri : list Z) (startTime : Z) : list Z :=
show_address peer ++ chars " - - " ++ chars "[" ++ put_time startTime ++ chars "] " ++ quote ++
method ++ chars " " ++ uri ++ quote ++ chars " ".

(** [message_.clear()] clears the error flags of the stream, not its text. *)
Definition onRequest (f : AccessLogFormatter) (peer : SocketAddress) (method uri : list Z) (startTime : Z) :
  AccessLogFormatter :=
MkFormatter (message_ f ++ request_part peer method uri startTime).

Definition response_part (status bytes : Z) : list Z := dec status ++ chars " " ++ dec bytes ++ [LF].

(** [has_log]: [accessLog] is not null.  The formatter, and what is written; [str]
  copies the text (C++17). *)
Definition onResponse (f : AccessLogFormatter) (has_log : bool) (status bytes : Z) :
  AccessLogFormatter * list (list Z) :=
let f := MkFormatter (message_ f ++ response_part status bytes) in
(f, if has_log then [message_ f] else []).

(** ** [AccessLogHandler], the filter of the HTTP server *)
Record AccessLogHandler := MkLogHandler { log_ : AccessLogFormatter; status_ : Z; bytes_ : Z }.

Definition new_log_handler : AccessLogHandler := MkLogHandler new_formatter 0 0.

Definition log_onRequest (h : AccessLogHandler) (client : SocketAddress) (method url : list Z) (start : Z) :
  AccessLogHandler :=
MkLogHandler (onRequest (log_ h) client method url start) (status_ h) (bytes_ h).

Definition log_sendHeaders (h : AccessLogHandler) (code : Z) : AccessLogHandler :=
MkLogHandler (log_ h) (to_uint code) (bytes_ h).

Definition log_sendBody (h : AccessLogHandler) (length : Z) : AccessLogHandler :=
MkLogHandler (log_ h) (status_ h) (u64 (bytes_ h + length)).

(** The handler is deleted. *)
Definition log_requestComplete (h : AccessLogHandler) (has_log : bool) : list (list Z) :=
(onResponse (log_ h) has_log (status_ h) (bytes_ h)).2.

(** [AccessLogHandlerFactory::onRequest]: without a log there is no filter. *)
Definition log_factory_onRequest (has_log : bool) : option AccessLogHandler :=
if has_log then Some new_log_handler else None.

(** The calls of the HTTP library for one request: the headers and the pieces of
  the body of the answer, after which the log may have been closed. *)
Definition logged_request (before after : bool) (client : SocketAddress) (method url : list Z) (start : Z)
  (code : Z) (pieces : list Z) : list (list Z) :=
match log_factory_onRequest before with
| None => []
| Some h =>
    let h := log_onRequest h client method url start in
    let h := log_sendHeaders h code in
    log_requestComplete (foldl log_sendBody h pieces) after
end.

(** ** [AccessLogRotator] *)

(** The writers by number: the current one ([accessLog]), how many there were,
  and those that were flushed and retired. *)
Record writers := MkWriters { accessLog : option nat; opened : nat; retired : list nat }.

Definition no_writers : writers := MkWriters None 0 [].

(** [opens path]: the constructor of the writer does not throw.  The exception is
  caught. *)
Definition signalReceived (opens : list Z → bool) (FLAGS_access_log : list Z) (w : writers) : writers :=
if bool_decide (FLAGS_access_log = []) then w else
if opens FLAGS_access_log then
  MkWriters (Some (opened w)) (S (opened w))
    (retired w ++ match accessLog w with Some veteran => [veteran] | None => [] end)
else w.

Definition rotator_destroy (w : writers) : writers :=
match accessLog w with
| Some veteran => MkWriters None (opened w) (retired w ++ [veteran])
| None => w
end.

(** ** Lemmas *)

(** One request that is logged through a formatter that is kept. *)
Record logged := Logged { lg_peer : SocketAddress; lg_method : list Z; lg_uri : list Z; lg_time : Z; lg_status : Z }.

Definition line_of (x : logged) : list Z :=
request_part (lg_peer x) (lg_method x) (lg_uri x) (lg_time x) ++ response_part (lg_status x) 0.

Definition log_one (has_log : bool) (s : AccessLogFormatter * list (list Z)) (x : logged) :
  AccessLogFormatter * list (list Z) :=
let '(f, w) := onResponse (onRequest s.1 (lg_peer x) (lg_method x) (lg_uri x) (lg_time x)) has_log (lg_status x) 0 in
(f, s.2 ++ w).

Lemma log_one_all l x :
  foldl (log_one true) (new_formatter, []) (l ++ [x]) =
  let '(f, w) := foldl (log_one true) (new_formatter, []) l in
  (MkFormatter (message_ f ++ line_of x), w ++ [message_ f ++ line_of x]).
Proof.
  rewrite foldl_app. cbn [foldl]. destruct (foldl _ _ l) as [f w]. unfold log_one, onRequest, onResponse, line_of. cbn.
  by rewrite <- !app_assoc.
Qed.

(** The message of a formatter that is kept is never emptied: what is written for a
    request repeats the lines of all the requests before it. *)
Lemma kept_formatter_repeats l : foldl (log_one true) (new_formatter, []) l =
  (MkFormatter (flat_map line_of l), map (λ n, flat_map line_of (take (S n) l)) (seq 0 (length l))).
Proof.
  induction l as [|x l IH] using rev_ind; [done|]. rewrite log_one_all, IH. cbn [message_].
  assert (E : flat_map line_of l ++ line_of x = flat_map line_of (l ++ [x])) by (rewrite flat_map_app; cbn; by rewrite app_nil_r).
  rewrite E, length_app, seq_app, map_app. cbn [map seq Nat.add length]. f_equal. f_equal.
  - apply map_ext_in. intros n Hn%in_seq. rewrite take_app_le by lia. done.
  - rewrite take_ge by (rewrite length_app; cbn; lia). done.
Qed.

Lemma sendBody_bytes h l : foldl log_sendBody h l =
  MkLogHandler (log_ h) (status_ h) (if decide (l = []) then bytes_ h else u64 (bytes_ h + foldr Z.add 0 l)).
Proof.
  revert h. induction l as [|n l IH]; intros [f s b]; [done|]. cbn [foldl]. rewrite IH. cbn [log_ status_ bytes_ log_sendBody foldr].
  f_equal. rewrite (decide_False (P := n :: l = [])) by done. case_decide as Hl.
  - subst l. cbn. by rewrite Z.add_0_r.
  - unfold u64. rewrite Zplus_mod_idemp_l. f_equal. lia.
Qed.

(** A request of the HTTP server is logged in exactly one line, with the status and
    the number of bytes of the body, if there is a log before and after it. *)
Lemma http_request_logged client method url start code pieces :
  0 ≤ code < 2 ^ 32 → Forall (λ n, 0 ≤ n) pieces → foldr Z.add 0 pieces < 2 ^ 64 →
  logged_request true true client method url start code pieces =
  [request_part client method url start ++ response_part code (foldr Z.add 0 pieces)].
Proof.
  intros Hcode Hl Hs. unfold logged_request, log_factory_onRequest. rewrite sendBody_bytes.
  cbn [log_ status_ bytes_ log_sendHeaders log_onRequest new_log_handler log_requestComplete onResponse onRequest
    new_formatter message_ snd app].
  assert (Hpos : 0 ≤ foldr Z.add 0 pieces) by (clear Hs; induction Hl; cbn; lia).
  unfold to_uint. rewrite (Z.mod_small code) by lia. do 3 f_equal.
  case_decide as E; [by subst|]. unfold u64. apply Z.mod_small. lia.
Qed.

(** Every writer but the current one was flushed and retired, once. *)
Definition writers_ok (w : writers) : Prop :=
match accessLog w with
| Some i => opened w = S i ∧ retired w = seq 0 i
| None => retired w = seq 0 (opened w)
end.

Lemma signalReceived_ok opens path w : writers_ok w → writers_ok (signalReceived opens path w).
Proof.
  unfold signalReceived, writers_ok. intros Hw. case_bool_decide; [done|]. destruct (opens path); [|done].
  cbn [accessLog opened retired]. split; [done|]. destruct (accessLog w) as [i|].
  - destruct Hw as [-> ->]. by rewrite seq_S.
  - by rewrite app_nil_r.
Qed.

Lemma rotator_retires opens path (signals : nat) :
  let w := rotator_destroy (Nat.iter signals (signalReceived opens path) no_writers) in
  accessLog w = None ∧ retired w = seq 0 (opened w).
Proof.
  assert (Hw : writers_ok (Nat.iter signals (signalReceived opens path) no_writers)).
  { induction signals; [done|]. by apply signalReceived_ok. }
  cbn zeta. unfold rotator_destroy, writers_ok in *. destruct (accessLog _) as [i|] eqn:E; [|done].
  destruct Hw as [Ho Hr]. cbn. rewrite Ho, Hr. by rewrite seq_S.
Qed.
End AccessLog.
