(* ===== verification/PhoneList.v ===== *)
(** * Columns and indexes ([struct PhoneList])

    Every mapping of the server keeps two vectors of [PhoneList]: a column with
    the keys in the order of the rows, and an index that [build] sorts and makes
    unique.  [build] also wires the rows of the column into a list, in the order
    of the index.  The code is the same in all the mappings; it is modelled and
    proved once here. *)

From stdpp Require Import sorting sets.
From S2P Require Export Stl.

(** Bit fields of 34 and 30 bits: storing truncates. *)
Record PhoneList := PL { phone : Z; next : Z }.

#[export] Instance PhoneList_eq_dec : EqDecision PhoneList.
Proof. solve_decision. Defined.

Definition mkPhoneList (p n : Z) : PhoneList := PL (p mod 2 ^ 34) (n mod 2 ^ 30).

Definition MAXROWS : Z := 2 ^ 30 - 1.

(** [rnIndex[i].next = i;] *)
Definition connect_step (i : Z) (rnIndex : list PhoneList) : res (list PhoneList) :=
  e ← vget rnIndex i; vset rnIndex i (PL (phone e) (i mod 2 ^ 30)).

Definition cmp (lhs rhs : PhoneList) : bool :=
  if phone lhs =? phone rhs then next lhs <? next rhs else phone lhs <? phone rhs.

(** [pnColumn[rnIndex[i].next].next = rnIndex[i+1].next;] *)
Definition wire_step (rnIndex : list PhoneList) (i : Z) (pnColumn : list PhoneList) : res (list PhoneList) :=
  b ← vget rnIndex (i + 1);
  a ← vget rnIndex i;
  e ← vget pnColumn (next a);
  vset pnColumn (next a) (PL (phone e) (next b)).

Definition equal (lhs rhs : PhoneList) : bool := phone lhs =? phone rhs.

(** [Data::build()]: the new column and the new index. *)
Definition build_index (pnColumn rnIndex : list PhoneList) : res (list PhoneList * list PhoneList) :=
  let N := length pnColumn in
  rnIndex ← for_n connect_step 0 N rnIndex;
  let rnIndex := stable_sort cmp rnIndex in
  pnColumn ← for_n (wire_step rnIndex) 0 (N - 1) pnColumn;
  mret (pnColumn, unique equal rnIndex).

(** ** The index *)

(** The index after sorting: the values with the rows that they come from. *)
Definition connected (rnIndex : list PhoneList) : list PhoneList :=
  imap (λ i e, PL (phone e) (Z.of_nat i)) rnIndex.
Definition sorted_index (rnIndex : list PhoneList) : list PhoneList :=
  stable_sort cmp (connected rnIndex).

Lemma connect_step_at pre e todo :
  connect_step (Z.of_nat (length pre)) (pre ++ e :: todo) =
  Ok (pre ++ PL (phone e) (Z.of_nat (length pre) mod 2 ^ 30) :: todo).
Proof.
  unfold connect_step. rewrite (vget_nat _ _ e) by by apply list_lookup_middle. cbn [mbind res_bind].
  rewrite vset_nat by (rewrite length_app; cbn; lia). f_equal.
  by rewrite insert_app_r_alt, Nat.sub_diag.
Qed.

Lemma connect_loop pre todo :
  vsize (pre ++ todo) ≤ MAXROWS →
  for_n connect_step (vsize pre) (length todo) (pre ++ todo) =
  Ok (pre ++ imap (λ i e, PL (phone e) (vsize pre + Z.of_nat i)) todo).
Proof.
  revert pre. induction todo as [|e todo IH]; intros pre Hlen; [done|]. cbn [length for_n].
  unfold vsize in *. rewrite length_app in Hlen. cbn [length] in Hlen.
  rewrite connect_step_at. cbn [mbind res_bind].
  rewrite (Z.mod_small _ (2 ^ 30)) by (unfold MAXROWS in *; lia).
  specialize (IH (pre ++ [PL (phone e) (Z.of_nat (length pre))])).
  rewrite <- !app_assoc, !length_app in IH. cbn [app length] in IH.
  replace (Z.of_nat (length pre) + 1) with (Z.of_nat (length pre + 1)) by lia.
  rewrite IH by lia. rewrite imap_cons, Z.add_0_r. do 3 f_equal.
  apply imap_ext. intros i x _. unfold compose. f_equal. lia.
Qed.

Lemma connect_ok rx :
  vsize rx ≤ MAXROWS → for_n connect_step 0 (length rx) rx = Ok (connected rx).
Proof. intros H. exact (connect_loop [] rx H). Qed.

(** The keys by which [cmp] compares, as one number. *)
Definition cmp_key (e : PhoneList) : Z := phone e * 2 ^ 30 + next e.

Lemma length_connected rx : length (connected rx) = length rx.
Proof. apply length_imap. Qed.

Lemma connected_next rx : map next (connected rx) = seqZ 0 (vsize rx).
Proof.
  apply list_eq. intros i. change (map next (connected rx)) with (next <$> connected rx).
  unfold connected. rewrite list_lookup_fmap, list_lookup_imap.
  destruct (rx !! i) as [e|] eqn:E; cbn.
  - symmetry. apply lookup_seqZ. apply lookup_lt_Some in E. unfold vsize. lia.
  - symmetry. apply lookup_seqZ_ge. apply lookup_ge_None in E. unfold vsize. lia.
Qed.

Lemma sorted_next_perm rx : map next (sorted_index rx) ≡ₚ seqZ 0 (vsize rx).
Proof.
  unfold sorted_index. rewrite <- connected_next.
  apply (fmap_Permutation next). apply stable_sort_perm.
Qed.

Lemma length_sorted_index rx : length (sorted_index rx) = length rx.
Proof. unfold sorted_index. by rewrite stable_sort_perm, length_connected. Qed.

(** ** The list through the column *)

(** The rows [l] follow one another in the column; the last one leads to [e]. *)
Fixpoint linked (pc : list PhoneList) (l : list Z) (e : Z) : Prop :=
  match l with
  | [] => True
  | i :: l => ∃ p, vget pc i = Ok (PL p (List.hd e l)) ∧ linked pc l e
  end.

Lemma linked_app pc l k e : linked pc (l ++ k) e → linked pc l (List.hd e k) ∧ linked pc k e.
Proof.
  induction l as [|i l IH]; cbn; [done|]. intros (p & Hp & Hl). destruct (IH Hl) as [H1 H2].
  split; [|done]. exists p. split; [|done]. rewrite Hp. by destruct l.
Qed.

Lemma vget_fmap_phone pc i e : vget pc i = Ok e → vget (phone <$> pc) i = Ok (phone e).
Proof.
  unfold vget. destruct (i <? 0); [done|]. rewrite list_lookup_fmap.
  destruct (pc !! _) eqn:E; [|done]. by intros [= ->].
Qed.

Lemma vget_total {A} (v : list A) i : 0 ≤ i < vsize v → ∃ a, vget v i = Ok a.
Proof.
  unfold vget, vsize. intros H. destruct (Z.ltb_spec i 0); [lia|].
  destruct (lookup_lt_is_Some_2 v (Z.to_nat i)) as [a Ha]; [lia|]. rewrite Ha. eauto.
Qed.

Lemma vset_spec {A} (v : list A) i a : 0 ≤ i < vsize v →
  ∃ w, vset v i a = Ok w ∧ vsize w = vsize v ∧
    ∀ j, vget w j = if j =? i then Ok a else vget v j.
Proof.
  intros H. unfold vset. destruct (Z.ltb_spec i 0); [lia|]. unfold vsize in *.
  destruct (lookup_lt_is_Some_2 v (Z.to_nat i)) as [b Hb]; [lia|]. rewrite Hb.
  eexists. split_and!; [done|by rewrite length_insert|]. intros j. unfold vget.
  destruct (Z.eqb_spec j i) as [->|Hne].
  - destruct (Z.ltb_spec i 0); [lia|]. by rewrite list_lookup_insert_eq by lia.
  - destruct (Z.ltb_spec j 0); [done|]. by rewrite list_lookup_insert_ne by lia.
Qed.

Lemma vget_ext {A} (v w : list A) : (∀ i, vget v i = vget w i) → vsize v = vsize w → v = w.
Proof.
  intros H Hs. apply list_eq. intros i. specialize (H (Z.of_nat i)). unfold vget in H.
  destruct (Z.ltb_spec (Z.of_nat i) 0); [lia|]. rewrite Nat2Z.id in H.
  destruct (v !! i), (w !! i); congruence.
Qed.

Lemma vget_app_r {A} (l k : list A) (j : nat) a :
  k !! j = Some a → vget (l ++ k) (vsize l + Z.of_nat j) = Ok a.
Proof.
  intros H. unfold vsize. rewrite <- Nat2Z.inj_add. apply vget_nat.
  rewrite lookup_app_r by lia. by replace (length l + j - length l)%nat with j by lia.
Qed.

(** Wiring the rest [b :: l] of the index, behind the row of [a]. *)
Lemma wire_loop pre a l pc :
  NoDup (map next (a :: l)) → Forall (λ e, 0 ≤ next e < vsize pc) (a :: l) →
  ∃ pc', for_n (wire_step (pre ++ a :: l)) (vsize pre) (length l) pc = Ok pc' ∧
    vsize pc' = vsize pc ∧
    (∀ i, i ∉ map next (a :: l) → vget pc' i = vget pc i) ∧
    (∀ e, vget pc (List.last (map next (a :: l)) 0) = Ok e → linked pc' (map next (a :: l)) (next e)) ∧
    phone <$> pc' = phone <$> pc.
Proof.
  revert pre a pc. induction l as [|b l IH]; intros pre a pc Hnd Hr.
  { exists pc. split_and!; try done. cbn. intros [p n] Hp. by exists p. }
  apply Forall_cons in Hr as [Ha Hr]. cbn [map] in Hnd. apply NoDup_cons in Hnd as [Hna Hnd].
  destruct (vget_total pc (next a) Ha) as [e He].
  destruct (vset_spec pc (next a) (PL (phone e) (next b)) Ha) as (pc1 & Hset & Hsize & Hget).
  assert (Hstep : wire_step (pre ++ a :: b :: l) (vsize pre) pc = Ok pc1).
  { unfold wire_step. pose proof (vget_app_r pre (a :: b :: l) 1 b eq_refl) as E1.
    pose proof (vget_app_r pre (a :: b :: l) 0 a eq_refl) as E0. change (Z.of_nat 1) with 1 in E1.
    rewrite Z.add_0_r in E0. rewrite E1, E0. cbn [mbind res_bind]. rewrite He. exact Hset. }
  destruct (IH (pre ++ [a]) b pc1) as (pc2 & Hloop & Hs2 & Hout & Hlink & Hph); [done|by rewrite Hsize|].
  exists pc2. cbn [length for_n]. rewrite Hstep. cbn [mbind res_bind].
  replace (vsize pre + 1) with (vsize (pre ++ [a])) by (unfold vsize; rewrite length_app; cbn; lia).
  rewrite <- app_assoc in Hloop. cbn [app] in Hloop. rewrite Hloop.
  assert (Hph1 : phone <$> pc1 = phone <$> pc).
  { apply vget_ext; [|unfold vsize in *; by rewrite !length_fmap].
    intros j. unfold vsize in *. destruct (decide (0 ≤ j < Z.of_nat (length pc))) as [Hj|Hj].
    - destruct (vget_total pc j Hj) as [x Hx]. rewrite (vget_fmap_phone _ _ _ Hx).
      destruct (Z.eqb_spec j (next a)) as [->|Hne].
      + erewrite vget_fmap_phone by by rewrite Hget, Z.eqb_refl. cbn. congruence.
      + apply vget_fmap_phone. rewrite Hget. by destruct (Z.eqb_spec j (next a)).
    - unfold vget. destruct (Z.ltb_spec j 0); [done|].
      rewrite !lookup_ge_None_2 by (rewrite length_fmap; lia). done. }
  split_and!; [done|congruence| | |congruence].
  - intros i Hi. cbn [map] in Hi. apply not_elem_of_cons in Hi as [Hi1 Hi2].
    rewrite Hout, Hget by done. by destruct (Z.eqb_spec i (next a)).
  - intros x Hx. cbn [map linked]. exists (phone e). split.
    + rewrite Hout by done. by rewrite Hget, Z.eqb_refl.
    + apply Hlink. change (List.last (map next (a :: b :: l)) 0) with (List.last (map next (b :: l)) 0) in Hx.
      rewrite Hget. destruct (Z.eqb_spec (List.last (map next (b :: l)) 0) (next a)) as [E|]; [|done].
      exfalso. apply Hna. cbn [map] in E |- *. rewrite <- E. apply list_elem_of_In.
      destruct (exists_last (l := next b :: map next l)) as (l' & z & Hz); [done|].
      rewrite Hz, last_last. apply in_or_app. right. by left.
Qed.

(** What [build] makes of a column whose rows are not linked yet. *)
Lemma build_index_spec pc rx :
  length rx = length pc → vsize pc ≤ MAXROWS → Forall (λ e, next e = MAXROWS) pc →
  ∃ pc', build_index pc rx = Ok (pc', unique equal (sorted_index rx)) ∧
    phone <$> pc' = phone <$> pc ∧ linked pc' (map next (sorted_index rx)) MAXROWS.
Proof.
  intros Hlen Hmax Hpc. unfold build_index. rewrite <- Hlen, connect_ok.
  2: { unfold vsize in *. lia. }
  cbn [mbind res_bind]. fold (sorted_index rx).
  pose proof (sorted_next_perm rx) as Hperm. pose proof (length_sorted_index rx) as Hls.
  assert (Hnd : NoDup (map next (sorted_index rx))) by (rewrite Hperm; apply NoDup_seqZ).
  assert (Hr : Forall (λ e, 0 ≤ next e < vsize pc) (sorted_index rx)).
  { apply Forall_forall. intros e He. assert (Hin : next e ∈ map next (sorted_index rx)).
    { apply list_elem_of_In, in_map, list_elem_of_In, He. }
    rewrite Hperm in Hin. apply elem_of_seqZ in Hin. unfold vsize in *. lia. }
  destruct (sorted_index rx) as [|a l] eqn:E.
  { destruct rx; [|done]. destruct pc; [|done]. by exists []. }
  destruct (wire_loop [] a l pc Hnd Hr) as (pc' & Hloop & Hsize & _ & Hlink & Hph).
  exists pc'. replace (length rx - 1)%nat with (length l) by (cbn in Hls; lia).
  change (vsize []) with 0 in Hloop. cbn [app] in Hloop. rewrite Hloop. split_and!; [done|done|].
  assert (Hin : List.last (map next (a :: l)) 0 ∈ map next (a :: l)).
  { destruct (exists_last (l := map next (a :: l))) as (l' & z & Hz); [done|].
    rewrite Hz, last_last. set_solver. }
  apply (elem_of_Permutation_proper _ _ _ Hperm), elem_of_seqZ in Hin.
  destruct (vget_total pc (List.last (map next (a :: l)) 0)) as [e He]; [unfold vsize in *; lia|].
  specialize (Hlink e He). assert (next e = MAXROWS) as <-; [|done].
  unfold vget in He. destruct (Z.ltb_spec (List.last (map next (a :: l)) 0) 0); [done|].
  destruct (pc !! _) eqn:Epc; [|done]. injection He as <-. by eapply Forall_lookup_1 in Hpc.
Qed.
