(* ===== verification/Csv.v ===== *)
(** * Reading the rows of a file

    All the mappings are loaded in the same way: [fromCSV] reads at most [limit]
    lines from the stream, and the loaders of Control.cpp call it with
    [limit = 10000] as long as the stream is good.  Only what is done with a
    line is particular to a mapping: it is the parameter [row]. *)

From stdpp Require Import strings.
From S2P Require Export Text.

Section csv.
Context {D : Type} (row : D → list Z → throws D).

(** One round of the loop of [fromCSV]; [None] breaks. *)
Definition csv_round (d : D) (in_ : istream) : throws (option D * istream) :=
'(c, in_) ←? peek in_;
match c with
| None => ret (None, in_)
| Some _ => '(linebuf, in_) ←? getline in_; d ←? row d linebuf; ret (Some d, in_)
end.

(** [for (limit += line; line < limit; ++line)] makes at most [limit] rounds. *)
Fixpoint csv_rows (d : D) (in_ : istream) (line : Z) (limit : nat) : throws (D * istream * Z) :=
match limit with
| O => ret (d, in_, line)
| S limit =>
    '(d', in_) ←? csv_round d in_;
    match d' with
    | None => ret (d, in_, line)
    | Some d => csv_rows d in_ (line + 1) limit
    end
end.

(** [while (in.good()) builder.fromCSV(in, nrows, chunk);]: every round reads a
  line or meets the end. *)
Fixpoint csv_chunks (fuel chunk : nat) (d : D) (in_ : istream) (line : Z) : throws (D * Z) :=
match fuel with
| O => OutOfFuel
| S fuel =>
    if good in_ then
      '(d, in_, line) ←? csv_rows d in_ line chunk;
      csv_chunks fuel chunk d in_ line
    else ret (d, line)
end.

Definition csv_file (chunk : nat) (d : D) (contents : list Z) : throws (D * Z) :=
csv_chunks (S (S (length contents))) chunk d (open_stream contents) 0.

(** ** What a file stands for *)

(** The rows taken in turn. *)
Fixpoint rows_in_turn (d : D) (lines : list (list Z)) : throws D :=
match lines with
| [] => ret d
| l :: lines => d ←? row d l; rows_in_turn d lines
end.

Definition line_text (lines : list (list Z)) : list Z := concat (map (λ l, l ++ [LF]) lines).
Definition a_line (l : list Z) : Prop := Forall (λ c, (c =? LF) = false) l.

Lemma csv_round_line d l rest : a_line l →
csv_round d (IStream (l ++ LF :: rest) false) = (d ←? row d l; ret (Some d, IStream rest false)).
Proof.
intros Hl. unfold csv_round, peek, getline. cbn [in_eof in_rest].
assert (E : ∃ c k, l ++ LF :: rest = c :: k) by (destruct l; cbn; eauto). destruct E as (c & k & E).
rewrite E. cbn [tbind ret in_rest in_eof]. rewrite <- E. by rewrite until_app.
Qed.

Lemma csv_round_end d : csv_round d (IStream [] false) = ret (None, IStream [] true).
Proof. done. Qed.

(** A chunk of a file whose lines are complete. *)
Lemma csv_rows_lines d lines rest line limit : Forall a_line lines → (length lines ≤ limit)%nat →
csv_rows d (IStream (line_text lines ++ rest) false) line limit =
(d ←? rows_in_turn d lines;
 csv_rows d (IStream rest false) (line + Z.of_nat (length lines)) (limit - length lines)).
Proof.
intros Hl. revert d line limit. induction Hl as [|l lines Hl _ IH]; intros d line limit Hlim.
{ cbn. by rewrite Z.add_0_r, Nat.sub_0_r. }
destruct limit as [|limit]; [cbn in Hlim; lia|]. cbn [csv_rows rows_in_turn].
unfold line_text. cbn [map concat]. rewrite <- !app_assoc. cbn [app]. rewrite csv_round_line by done.
destruct (row d l) as [[e|d']|p|]; cbn; try done. fold (line_text lines).
rewrite IH by (cbn in Hlim; lia). cbn [length]. destruct (rows_in_turn d' lines) as [[e|d2]|p|]; cbn; try done.
f_equal. lia.
Qed.

Lemma rows_in_turn_app d l k : rows_in_turn d (l ++ k) = (d ←? rows_in_turn d l; rows_in_turn d k).
Proof.
revert d. induction l as [|x l IH]; intros d; cbn [app rows_in_turn]; [by cbn|].
by destruct (row d x) as [[e|d']|p|]; cbn.
Qed.

Lemma line_text_app l k : line_text (l ++ k) = line_text l ++ line_text k.
Proof. unfold line_text. by rewrite map_app, concat_app. Qed.

Lemma line_text_length l : (length l ≤ length (line_text l))%nat.
Proof.
induction l as [|x l IH]; [done|]. unfold line_text in *. cbn. rewrite !length_app. cbn. lia.
Qed.

Lemma csv_chunks_lines fuel chunk d lines line : (0 < chunk)%nat → Forall a_line lines →
(S (length lines) < fuel)%nat →
csv_chunks fuel chunk d (IStream (line_text lines) false) line =
(d ←? rows_in_turn d lines; ret (d, line + Z.of_nat (length lines))).
Proof.
intros Hc. revert d lines line. induction fuel as [fuel IH] using lt_wf_ind.
intros d lines line Hl Hf. destruct fuel as [|fuel]; [lia|]. cbn [csv_chunks good in_eof negb].
destruct (decide (length lines < chunk)%nat) as [Hlt|Hge].
- rewrite <- (app_nil_r (line_text lines)), csv_rows_lines by (done || lia).
  destruct (rows_in_turn d lines) as [[e|d']|p|]; cbn; try done.
  destruct (chunk - length lines)%nat as [|n] eqn:E; [lia|]. cbn.
  destruct fuel; [lia|]. done.
- rewrite <- (take_drop chunk lines), line_text_app, csv_rows_lines, rows_in_turn_app.
  2: by apply Forall_take. 2: rewrite length_take; lia.
  destruct (rows_in_turn d (take chunk lines)) as [[e|d']|p|]; cbn; try done.
  rewrite !length_take. replace (chunk - Nat.min chunk (length lines))%nat with O by lia. cbn.
  rewrite IH; [|lia|by apply Forall_drop|rewrite length_drop; lia].
  destruct (rows_in_turn d' (drop chunk lines)) as [[e|d2]|p|]; cbn; try done.
  apply (f_equal (λ n, ret (d2, n))). rewrite length_app, length_take, length_drop. lia.
Qed.

(** A file of complete lines is its rows taken in turn, however it is cut into
  chunks. *)
Lemma csv_file_lines chunk d lines : (0 < chunk)%nat → Forall a_line lines →
csv_file chunk d (line_text lines) =
(d ←? rows_in_turn d lines; ret (d, Z.of_nat (length lines))).
Proof.
intros Hc Hl. unfold csv_file, open_stream. apply csv_chunks_lines; [done|done|].
pose proof (line_text_length lines). lia.
Qed.

(** A last line without its line feed makes the stream fail when the loop looks
  for another line, after the row was taken; only at the end of a chunk it does
  not look. *)
Lemma csv_file_unterminated chunk d lines last : (0 < chunk)%nat → Forall a_line lines →
a_line last → last ≠ [] →
csv_file chunk d (line_text lines ++ last) =
(d ←? rows_in_turn d (lines ++ [last]);
 if (S (length lines) mod chunk =? 0)%nat then ret (d, Z.of_nat (S (length lines))) else throw ios_failure).
Proof.
intros Hc Hl Hlast Hne. unfold csv_file, open_stream.
cut (∀ fuel d line, (S (length lines) < fuel)%nat →
  csv_chunks fuel chunk d (IStream (line_text lines ++ last) false) line =
  (d ←? rows_in_turn d (lines ++ [last]);
   if (S (length lines) mod chunk =? 0)%nat then ret (d, line + Z.of_nat (S (length lines))) else throw ios_failure)).
{ intros Hcut. rewrite Hcut; [done|]. pose proof (line_text_length lines). rewrite length_app.
  destruct last; [done|]. cbn. lia. }
clear d. intros fuel. revert lines Hl. induction fuel as [fuel IH] using lt_wf_ind.
intros lines Hl d line Hf. destruct fuel as [|fuel]; [lia|]. cbn [csv_chunks good in_eof negb].
destruct (decide (length lines < chunk)%nat) as [Hlt|Hge].
- rewrite csv_rows_lines, rows_in_turn_app by (done || lia).
  destruct (rows_in_turn d lines) as [[e|d']|p|]; cbn [tbind]; try done.
  destruct (chunk - length lines)%nat as [|n] eqn:E; [lia|]. cbn [csv_rows].
  assert (Hround : csv_round d' (IStream last false) = (d ←? row d' last; ret (Some d, IStream [] true))).
  { unfold csv_round, peek, getline. cbn [in_eof in_rest]. destruct last as [|c last]; [done|].
    cbn [tbind ret in_rest in_eof]. by rewrite until_end. }
  rewrite Hround. cbn [rows_in_turn]. destruct (row d' last) as [[e|d2]|p|]; cbn [tbind ret]; try done.
  destruct n as [|n]; cbn [csv_rows].
  + replace (S (length lines)) with chunk by lia. rewrite Nat.Div0.mod_same. cbn.
    destruct fuel; [lia|]. cbn [csv_chunks good in_eof negb]. apply (f_equal (λ n, ret (d2, n))). lia.
  + rewrite Nat.mod_small by lia. done.
- rewrite <- (take_drop chunk lines), line_text_app, <- !app_assoc, csv_rows_lines, rows_in_turn_app.
  2: by apply Forall_take. 2: rewrite length_take; lia.
  destruct (rows_in_turn d (take chunk lines)) as [[e|d']|p|]; cbn [tbind]; try done.
  rewrite !length_take. replace (chunk - Nat.min chunk (length lines))%nat with O by lia. cbn [csv_rows tbind ret].
  rewrite IH; [|lia|by apply Forall_drop|rewrite length_drop; lia].
  destruct (rows_in_turn d' (drop chunk lines ++ [last])) as [[e|d2]|p|]; cbn [tbind]; try done.
  rewrite length_app, length_take, length_drop.
  replace (S (Nat.min chunk (length lines) + (length lines - chunk)))
    with (S (length lines - chunk) + 1 * chunk)%nat by lia.
  rewrite Nat.Div0.mod_add. destruct (_ =? 0)%nat; [|done].
  apply (f_equal (λ n, ret (d2, n))). lia.
Qed.

(** Every text is complete lines, and what is behind the last line feed. *)
Lemma text_lines contents : ∃ lines last,
contents = line_text lines ++ last ∧ Forall a_line lines ∧ a_line last ∧
getlines LF contents = lines ++ (if bool_decide (last = []) then [] else [last]).
Proof.
induction contents as [contents IH] using (induction_ltof1 _ length). unfold ltof in IH.
destruct (until LF contents) as [p [r|]] eqn:E; pose proof (until_spec _ _ _ _ E) as [Hp ->].
- apply until_length in E. destruct (IH r E) as (lines & last & Hr & Hl & Hlast & Hg).
  exists (p :: lines), last. rewrite getlines_cons, Hg by done. split_and!; [|by constructor|done..].
  rewrite Hr. unfold line_text. cbn. by rewrite <- !app_assoc.
- rewrite app_nil_r in *. exists [], p. split_and!; [done|constructor|done|].
  case_bool_decide; [by subst|]. by rewrite getlines_last.
Qed.

(** A file that is read without an error is all of its lines, taken in turn. *)
Lemma csv_file_getlines chunk d contents b n : (0 < chunk)%nat → csv_file chunk d contents = ret (b, n) →
rows_in_turn d (getlines LF contents) = ret b ∧ n = Z.of_nat (length (getlines LF contents)).
Proof.
intros Hc. destruct (text_lines contents) as (lines & last & -> & Hl & Hlast & ->).
case_bool_decide as Hne; [subst last; rewrite !app_nil_r, csv_file_lines by done|rewrite csv_file_unterminated by done].
- intros (b' & -> & [= -> <-])%tbind_ret. done.
- intros (b' & -> & Hk)%tbind_ret. destruct (_ =? 0)%nat; [|done]. injection Hk as -> <-.
  rewrite length_app. cbn. split; [done|lia].
Qed.

(** ** What the rows keep

  A property of the data that every row keeps holds for what a file yields. *)
Section keeps.
Context (I : D → Prop) (row_keeps : ∀ d l d', I d → row d l = ret d' → I d').

Lemma csv_rows_keeps d in_ line limit d' in' line' : I d →
csv_rows d in_ line limit = ret (d', in', line') → I d'.
Proof.
revert d in_ line. induction limit as [|limit IH]; intros d in_ line Hd; cbn [csv_rows].
{ by intros [= <- _ _]. }
intros ([o in1] & Eo & Hk)%tbind_ret. unfold csv_round in Eo.
apply tbind_ret in Eo as ([c in2] & _ & Eo). destruct c as [c|].
- apply tbind_ret in Eo as ([l in3] & _ & Eo). apply tbind_ret in Eo as (d1 & Ed & Eo).
injection Eo as <- <-. eapply IH, Hk. by eapply row_keeps.
- injection Eo as <- <-. by injection Hk as <- _ _.
Qed.

Lemma csv_file_keeps chunk d contents d' n : I d → csv_file chunk d contents = ret (d', n) → I d'.
Proof.
unfold csv_file. generalize (S (S (length contents))) (open_stream contents) 0. intros fuel.
revert d. induction fuel as [|fuel IH]; intros d in_ line Hd; cbn [csv_chunks]; [done|].
destruct (good in_).
- intros ([[d1 in1] line1] & E & Hk)%tbind_ret. eapply IH, Hk. by eapply csv_rows_keeps.
- by intros [= <- _].
Qed.
End keeps.
End csv.
