(* ===== verification/PhoneMapping.v ===== *)
(** * The mapping of phone numbers to routing numbers (PhoneMapping.h,
    PhoneMapping.cpp) *)

From stdpp Require Import strings gmap.
From S2P Require Export Folly PhoneList Csv.

(** [PhoneNumber::NONE]. *)
Definition NONE : Z := 2 ^ 64 - 1.

Section PhoneMapping.
Context `{Folly, Flags}.

(** ** The data *)
Record Data := MkData {
meta : dynamic;
dict : F14ValueMap Z;
pnColumn : list PhoneList;
rnIndex : list PhoneList;
}.

(** [Data::getRNs]. *)
Definition getRNs (d : Data) (pn : list Z) : res (list Z) :=
batch FLAGS_f14map_prefetch (f14_prehash (dict d))
  (λ token pn _, match f14_find (dict d) token pn with Some rn => rn | None => NONE end)
  pn (replicate (length pn) 0).

(** [PhoneMapping::getRN]. *)
Definition getRN (d : Data) (pn : Z) : res Z :=
rn ← getRNs d [pn]; vget rn 0.

(** [PhoneMapping::size]. *)
Definition size (d : Data) : Z := vsize (pnColumn d).

(** ** Cursors *)

(** The two subclasses of [Cursor], with the iterators that they keep. *)
Inductive visitor :=
| InverseRNVisitor (it end_ : Z)
| RowVisitor (it end_ : Z).

(** [pn_] and [rn_] are the first [size_] elements of the arrays. *)
Record Cursor := MkCursor { visit : visitor; pn_ : list Z; rn_ : list Z; pos_ : Z }.

Definition size_ (c : Cursor) : Z := vsize (pn_ c).
Definition PN_SIZE : nat := 8.

(** [for (; it_ != end_ && size_ < pn_.size(); it_ = base_[it_].next)]; [n] is the
  room left in [pn_]. *)
Fixpoint inverse_refill (base : list PhoneList) (n : nat) (it end_ : Z) (pn : list Z) : res (Z * list Z) :=
match n with
| O => mret (it, pn)
| S n =>
    if it =? end_ then mret (it, pn) else
    e ← vget base it;
    inverse_refill base n (next e) end_ (pn ++ [phone e])
end.

Fixpoint row_refill (base : list PhoneList) (n : nat) (it end_ : Z) (pn : list Z) : res (Z * list Z) :=
match n with
| O => mret (it, pn)
| S n =>
    if it =? end_ then mret (it, pn) else
    e ← vget base it;
    row_refill base n (it + 1) end_ (pn ++ [phone e])
end.

Definition refill (d : Data) (v : visitor) : res (visitor * list Z) :=
match v with
| InverseRNVisitor it end_ =>
    '(it, pn) ← inverse_refill (pnColumn d) PN_SIZE it end_ []; mret (InverseRNVisitor it end_, pn)
| RowVisitor it end_ =>
    '(it, pn) ← row_refill (pnColumn d) PN_SIZE it end_ []; mret (RowVisitor it end_, pn)
end.

Definition prefetch (d : Data) (v : visitor) : res Cursor :=
'(v, pn) ← refill d v;
rn ← getRNs d pn;
mret (MkCursor v pn rn 0).

Definition cursor_advance (d : Data) (c : Cursor) : res Cursor :=
let c := MkCursor (visit c) (pn_ c) (rn_ c) (pos_ c + 1) in
if pos_ c =? size_ c then prefetch d (visit c) else mret c.

(** [Cursor::hasRow]. *)
Definition cursor_hasRow (c : Cursor) : bool := negb (size_ c =? 0).

(** [Data::inverseRNs]: [None] is the null pointer. *)
Definition rn_cmp (lhs rhs : PhoneList) : bool := phone lhs <? phone rhs.

Definition index_next (index : list PhoneList) (it : nat) : res Z :=
if (it =? length index)%nat then mret MAXROWS else e ← vget index (Z.of_nat it); mret (next e).

Definition data_inverseRNs (d : Data) (fromRN toRN : Z) : res (option Cursor) :=
let rnLeft := lower_bound rn_cmp (rnIndex d) 0 (mkPhoneList fromRN 0) in
let rnRight := lower_bound rn_cmp (rnIndex d) rnLeft (mkPhoneList toRN 0) in
pnBegin ← index_next (rnIndex d) rnLeft;
pnEnd ← index_next (rnIndex d) rnRight;
if negb (pnBegin =? pnEnd) then
  c ← prefetch d (InverseRNVisitor pnBegin pnEnd); mret (Some c)
else mret None.

Definition data_visitRows (d : Data) : res (option Cursor) :=
if 0 <? vsize (pnColumn d) then
  c ← prefetch d (RowVisitor 0 (vsize (pnColumn d))); mret (Some c)
else mret None.

(** ** The handle: the data and the cursor ([class PhoneMapping]) *)
Record PhoneMapping := MkPhoneMapping { data_ : Data; cursor_ : option Cursor }.

Definition inverseRNs (m : PhoneMapping) (fromRN toRN : Z) : res PhoneMapping :=
c ← data_inverseRNs (data_ m) fromRN toRN; mret (MkPhoneMapping (data_ m) c).

Definition visitRows (m : PhoneMapping) : res PhoneMapping :=
c ← data_visitRows (data_ m); mret (MkPhoneMapping (data_ m) c).

Definition hasRow (m : PhoneMapping) : bool :=
match cursor_ m with Some _ => true | None => false end.

(** Without a cursor these dereference a null pointer. *)
Definition currentPN (m : PhoneMapping) : res Z :=
match cursor_ m with Some c => vget (pn_ c) (pos_ c) | None => Fault 0 end.

Definition currentRN (m : PhoneMapping) : res Z :=
match cursor_ m with Some c => vget (rn_ c) (pos_ c) | None => Fault 0 end.

Definition advance (m : PhoneMapping) : res PhoneMapping :=
match cursor_ m with
| None => Fault 0
| Some c =>
    c ← cursor_advance (data_ m) c;
    mret (MkPhoneMapping (data_ m) (if cursor_hasRow c then Some c else None))
end.

(** [for (; db.hasRow(); db.advance())] with the current row handed to the body
  of the loop; [fuel] bounds the number of rows. *)
Definition rows_step (s : PhoneMapping * list (Z * Z)) : res (PhoneMapping * list (Z * Z) + list (Z * Z)) :=
let (m, rows) := s in
if hasRow m then
  pn ← currentPN m;
  rn ← currentRN m;
  m ← advance m;
  mret (inl (m, rows ++ [(pn, rn)]))
else mret (inr rows).

Definition rows_of (m : PhoneMapping) : res (list (Z * Z)) :=
loop rows_step (S (length (pnColumn (data_ m)))) (m, []).

(** ** The builder *)

Definition new_data : Data := MkData dynamic_null f14_empty [] [].

Definition setMetadata (b : Data) (meta : dynamic) : Data :=
MkData meta (dict b) (pnColumn b) (rnIndex b).

Definition addRow (b : Data) (pn rn : Z) : throws Data :=
if f14_count (dict b) pn then throw (runtime_error "PhoneMapping::Builder: duplicate key") else
if MAXROWS <=? vsize (pnColumn b) then throw (runtime_error "PhoneMapping::Builder: too much rows") else
ret (MkData (meta b) (f14_emplace (dict b) pn rn)
       (pnColumn b ++ [mkPhoneList pn MAXROWS]) (rnIndex b ++ [mkPhoneList rn MAXROWS])).

(** What [fromCSV] does with a line. *)
Definition csv_line (b : Data) (linebuf : list Z) : throws Data :=
match split_u64 (ch ",") linebuf with
| None => throw conversion_error
| Some [pn; rn] => addRow b pn rn
| Some _ => throw (runtime_error "bad number of columns")
end.

Definition fromCSV (b : Data) (in_ : istream) (line : Z) (limit : nat) : throws (Data * istream * Z) :=
csv_rows csv_line b in_ line limit.

(** [Data::build], and [Builder::build]. *)
Definition build (b : Data) : res Data :=
'(pnColumn, rnIndex) ← build_index (pnColumn b) (rnIndex b);
mret (MkData (meta b) (dict b) pnColumn rnIndex).

Definition builder_build (b : Data) : res PhoneMapping :=
d ← build b; mret (MkPhoneMapping d None).

(** [PhoneNumber::fromString]. *)
Definition is_punct (c : Z) : bool := one_of c " -()" || (c =? 0).

Definition fromString (s : list Z) : Z :=
let s := trimWhitespace s in
if 30 <? vsize s then NONE else
let s := List.filter (λ c, negb (is_punct c)) s in
let s := if vsize s =? 12 then removePrefix s (chars "+1")
         else if vsize s =? 11 then removePrefix s (chars "1") else s in
if negb (vsize s =? 10) then NONE else
match tryTo_u64 s with Some asInt => asInt | None => NONE end.
End PhoneMapping.
