(* ===== verification/PhoneRows.v ===== *)
(** * PhoneMapping implements a table of rows

    The data that a builder makes of its rows represents the rows: lookups find
    the routing number of a phone number, the cursor of [visitRows] yields the
    rows in their order, and the cursor of [inverseRNs] those with a routing
    number in the range, by routing number. *)

From stdpp Require Import strings gmap sorting sets.
From S2P Require Export PhoneMapping.

(** ** The specification: a list of rows *)

Abbreviation row := (Z * Z)%type.

(** The finite map that the rows stand for. *)
Definition rows_map (rows : list row) : gmap Z Z := list_to_map rows.

Definition lookup_rn (rows : list row) (pn : Z) : Z := default NONE (rows_map rows !! pn).

Definition rn_lt (x y : row) : bool := x.2 <? y.2.
Definition rn_between (lo hi : Z) (r : row) : bool := (lo <=? r.2) && (r.2 <? hi).

(** The rows with a routing number in [[lo, hi)], by routing number; rows with
    the same one in the order of the table. *)
Definition inverse_rows (rows : list row) (lo hi : Z) : list row :=
  stable_sort rn_lt (List.filter (rn_between lo hi) rows).

(** Numbers that fit the columns. *)
Definition narrow (r : row) : Prop := 0 ≤ r.1 < 2 ^ 34 ∧ 0 ≤ r.2 < 2 ^ 34.

Section rows.
Context `{FollyOk} `{FlagsOk}.

(** A builder after its rows. *)
Record builds (b : Data) (rows : list row) : Prop := {
builds_dict : ∀ k, f14_lookup (dict b) k = rows_map rows !! k;
builds_keys : NoDup (map fst rows);
builds_max : Z.of_nat (length rows) ≤ MAXROWS;
builds_pn : pnColumn b = map (λ r, mkPhoneList r.1 MAXROWS) rows;
builds_rn : rnIndex b = map (λ r, mkPhoneList r.2 MAXROWS) rows;
}.

(** The data after [build]. *)
Definition rn_index (rows : list row) : list PhoneList :=
sorted_index (map (λ r, mkPhoneList r.2 MAXROWS) rows).

Record represents (d : Data) (rows : list row) : Prop := {
rep_dict : ∀ k, f14_lookup (dict d) k = rows_map rows !! k;
rep_keys : NoDup (map fst rows);
rep_max : Z.of_nat (length rows) ≤ MAXROWS;
rep_pn : phone <$> pnColumn d = map (λ r, r.1 mod 2 ^ 34) rows;
rep_rn : rnIndex d = unique equal (rn_index rows);
rep_linked : linked (pnColumn d) (map next (rn_index rows)) MAXROWS;
}.

(** ** The builder *)
Lemma builds_new : builds new_data [].
Proof.
split; cbn; try done. intros k. by rewrite f14_lookup_empty.
constructor.
Qed.

Lemma addRow_builds b rows pn rn : builds b rows →
addRow b pn rn =
  if bool_decide (pn ∈ map fst rows) then throw (runtime_error "PhoneMapping::Builder: duplicate key")
  else if bool_decide (Z.of_nat (length rows) = MAXROWS)
  then throw (runtime_error "PhoneMapping::Builder: too much rows")
  else ret (MkData (meta b) (f14_emplace (dict b) pn rn)
              (pnColumn b ++ [mkPhoneList pn MAXROWS]) (rnIndex b ++ [mkPhoneList rn MAXROWS])).
Proof.
intros [Hd Hk Hm Hp Hr]. unfold addRow. rewrite f14_count_lookup, Hd.
replace (bool_decide (is_Some (rows_map rows !! pn))) with (bool_decide (pn ∈ map fst rows)).
2: { apply bool_decide_ext. unfold rows_map. rewrite <- elem_of_dom, dom_list_to_map_L.
     rewrite elem_of_list_to_set. done. }
case_bool_decide; [done|]. rewrite Hp. unfold vsize. rewrite length_map.
destruct (Z.leb_spec MAXROWS (Z.of_nat (length rows))); case_bool_decide; done || lia.
Qed.

Lemma builds_snoc b rows pn rn : builds b rows → pn ∉ map fst rows → Z.of_nat (length rows) ≠ MAXROWS →
builds (MkData (meta b) (f14_emplace (dict b) pn rn)
          (pnColumn b ++ [mkPhoneList pn MAXROWS]) (rnIndex b ++ [mkPhoneList rn MAXROWS]))
       (rows ++ [(pn, rn)]).
Proof.
intros [Hd Hk Hm Hp Hr] Hn Hlen. split; cbn.
- intros k. unfold rows_map. rewrite list_to_map_snoc by done. rewrite f14_lookup_emplace, !Hd.
  fold (rows_map rows). destruct (Z.eqb_spec k pn) as [->|Hne].
  + rewrite lookup_insert_eq. replace (rows_map rows !! pn) with (@None Z); [done|].
    symmetry. apply not_elem_of_list_to_map_1. exact Hn.
  + by rewrite lookup_insert_ne.
- rewrite map_app. apply NoDup_app. split_and!; [done| |by apply NoDup_singleton].
  intros k Hk1 ->%list_elem_of_singleton. done.
- rewrite length_app. cbn. lia.
- by rewrite Hp, map_app.
- by rewrite Hr, map_app.
Qed.

Lemma build_represents_aux b rows : builds b rows → ∃ d, build b = Ok d ∧ represents d rows.
Proof.
intros [Hd Hk Hm Hp Hr]. unfold build.
destruct (build_index_spec (pnColumn b) (rnIndex b)) as (pc & E & Hph & Hl).
- by rewrite Hp, Hr, !length_map.
- rewrite Hp. unfold vsize. by rewrite length_map.
- rewrite Hp. apply Forall_forall. intros e He. apply list_elem_of_In, in_map_iff in He as (r & <- & _). done.
- rewrite E. eexists. split; [done|]. split; cbn; try done.
  + rewrite Hph, Hp. apply map_map.
  + by rewrite Hr.
  + unfold rn_index. by rewrite <- Hr.
Qed.
(** ** Lookups *)
Lemma getRNs_ok d rows pns : represents d rows → getRNs d pns = Ok (map (lookup_rn rows) pns).
Proof.
intros Hd. unfold getRNs. rewrite batch_ok; [|apply f14map_pos|by rewrite length_replicate].
rewrite zip_with_replicate_r by done. f_equal. apply list_fmap_ext. intros _ k _.
unfold flip. fold (f14_lookup (dict d) k). by rewrite (rep_dict _ _ Hd).
Qed.

Lemma getRN_ok d rows pn : represents d rows → getRN d pn = Ok (lookup_rn rows pn).
Proof. intros Hd. unfold getRN. by rewrite (getRNs_ok d rows). Qed.

(** ** Cursors *)

(** The numbers that a visitor has still to deliver. *)
Inductive visits (d : Data) : visitor → list Z → Prop :=
| visits_rows pre rest :
  phone <$> pnColumn d = pre ++ rest →
  visits d (RowVisitor (vsize pre) (vsize (pnColumn d))) rest
| visits_inverse ix e :
  linked (pnColumn d) ix e → e ∉ ix →
  visits d (InverseRNVisitor (List.hd e ix) e) (map (λ i, nth (Z.to_nat i) (phone <$> pnColumn d) 0) ix).

Lemma visits_refill d v ps : visits d v ps →
∃ v', refill d v = Ok (v', take PN_SIZE ps) ∧ visits d v' (drop PN_SIZE ps).
Proof.
unfold refill. generalize PN_SIZE as n. intros n [pre rest Hp|ix e Hl He].
- cut (∀ acc, ∃ pre', row_refill (pnColumn d) n (vsize pre) (vsize (pnColumn d)) acc =
    Ok (vsize pre', acc ++ take n rest) ∧ phone <$> pnColumn d = pre' ++ drop n rest).
  { intros Hc. destruct (Hc []) as (pre' & -> & E). cbn. eexists. split; [done|]. by apply visits_rows. }
  revert pre rest Hp. induction n as [|n IH]; intros pre rest Hp acc; cbn [row_refill take drop].
  { exists pre. by rewrite app_nil_r. }
  assert (Hsz : vsize (pnColumn d) = vsize pre + vsize rest).
  { unfold vsize. rewrite <- (length_fmap phone (pnColumn d)), Hp, length_app. lia. }
  destruct rest as [|p rest].
  { rewrite Hsz. change (vsize []) with 0. rewrite Z.add_0_r, Z.eqb_refl. exists pre.
    by rewrite app_nil_r. }
  destruct (Z.eqb_spec (vsize pre) (vsize (pnColumn d))) as [E|_].
  { unfold vsize in *. cbn [length] in *. lia. }
  destruct (vget_total (pnColumn d) (vsize pre)) as [x Hx].
  { unfold vsize in *. cbn [length] in *. lia. }
  pose proof (vget_fmap_phone _ _ _ Hx) as Hp1. rewrite Hp in Hp1.
  pose proof (vget_app_r pre (p :: rest) 0 p eq_refl) as Hp2. rewrite Z.add_0_r, Hp1 in Hp2.
  injection Hp2 as Hp2. rewrite Hx. cbn [mbind res_bind]. rewrite Hp2.
  destruct (IH (pre ++ [p]) rest) with (acc := acc ++ [p]) as (pre' & E & Hpre').
  { by rewrite <- app_assoc. }
  exists pre'. split; [|done]. rewrite <- app_assoc in E. cbn [app take] in *. rewrite <- E.
  f_equal. unfold vsize. rewrite length_app. cbn. lia.
- cut (∀ acc, ∃ ix', inverse_refill (pnColumn d) n (List.hd e ix) e acc =
    Ok (List.hd e ix', acc ++ take n (map (λ i, nth (Z.to_nat i) (phone <$> pnColumn d) 0) ix)) ∧
    ix' = drop n ix).
  { intros Hc. destruct (Hc []) as (ix' & -> & ->). cbn. eexists. split; [done|].
    change (visits d (InverseRNVisitor (List.hd e (drop n ix)) e) (drop n ((λ i, nth (Z.to_nat i) (phone <$> pnColumn d) 0) <$> ix))).
    rewrite <- fmap_drop. apply visits_inverse.
    - rewrite <- (take_drop n ix) in Hl. by apply linked_app in Hl as [_ Hl].
    - intros Hin. apply He. rewrite <- (take_drop n ix). set_solver. }
  revert ix Hl He. induction n as [|n IH]; intros ix Hl He acc; cbn [inverse_refill].
  { exists ix. by rewrite app_nil_r. }
  destruct ix as [|i ix].
  { cbn. rewrite Z.eqb_refl. exists []. by rewrite app_nil_r. }
  cbn [List.hd map take drop]. apply not_elem_of_cons in He as [Hne He].
  destruct (Z.eqb_spec i e) as [|_]; [congruence|]. destruct Hl as (p & Hp & Hl). rewrite Hp.
  cbn [mbind res_bind phone next].
  destruct (IH ix Hl He (acc ++ [p])) as (ix' & E & ->). exists (drop n ix). split; [|done].
  rewrite E, <- app_assoc. do 3 f_equal. cbn [app]. f_equal.
  apply vget_fmap_phone in Hp. unfold vget in Hp. destruct (i <? 0); [done|].
  symmetry. apply nth_lookup_Some. cbn in Hp. by destruct ((phone <$> pnColumn d) !! Z.to_nat i) eqn:E2; [injection Hp as ->|].
Qed.
(** A cursor, and the rows from its current one on. *)
Definition with_rn (rows : list row) (pn : Z) : row := (pn, lookup_rn rows pn).

Record cursor_at (d : Data) (rows : list row) (c : Cursor) (l : list row) : Prop := {
at_pos : 0 ≤ pos_ c < size_ c;
at_rn : rn_ c = map (lookup_rn rows) (pn_ c);
at_rows : ∃ ps, visits d (visit c) ps ∧
  l = map (with_rn rows) (drop (Z.to_nat (pos_ c)) (pn_ c) ++ ps);
}.

Lemma prefetch_at d rows v ps : represents d rows → visits d v ps →
∃ c, prefetch d v = Ok c ∧ (ps = [] → cursor_hasRow c = false) ∧
  (ps ≠ [] → cursor_hasRow c = true ∧ cursor_at d rows c (map (with_rn rows) ps)).
Proof.
intros Hd (v' & E & Hv)%visits_refill. unfold prefetch. rewrite E. cbn [mbind res_bind].
rewrite (getRNs_ok d rows) by done. eexists. split; [done|]. split.
{ intros ->. by rewrite take_nil. }
intros Hne. assert (Hlen : 0 < vsize (take PN_SIZE ps)).
{ unfold vsize. rewrite length_take. destruct ps; [done|]. cbn. lia. }
split; [|split].
- unfold cursor_hasRow, size_. cbn [pn_]. destruct (Z.eqb_spec (vsize (take PN_SIZE ps)) 0); [lia|done].
- unfold size_. cbn [pos_ pn_]. lia.
- done.
- exists (drop PN_SIZE ps). split; [done|]. cbn [pos_ pn_]. rewrite drop_0. by rewrite take_drop.
Qed.

Definition handle_at (rows : list row) (m : PhoneMapping) (l : list row) : Prop :=
match cursor_ m with
| None => l = []
| Some c => cursor_at (data_ m) rows c l
end.

Lemma handle_of d rows v ps : represents d rows → visits d v ps → ps ≠ [] →
∃ c, prefetch d v = Ok c ∧ handle_at rows (MkPhoneMapping d (Some c)) (map (with_rn rows) ps).
Proof. intros Hd Hv Hne. destruct (prefetch_at d rows v ps Hd Hv) as (c & -> & _ & Hc). exists c. split; [done|]. by apply Hc. Qed.

Lemma vget_drop {A} (v : list A) i a : vget v i = Ok a → drop (Z.to_nat i) v = a :: drop (Z.to_nat (i + 1)) v.
Proof.
unfold vget. destruct (Z.ltb_spec i 0); [done|]. destruct (v !! _) eqn:E; [|done]. intros [= ->].
rewrite (drop_S _ _ _ E). do 2 f_equal. lia.
Qed.

Lemma handle_step rows m r l : represents (data_ m) rows → handle_at rows m (r :: l) →
currentPN m = Ok r.1 ∧ currentRN m = Ok r.2 ∧
∃ m', advance m = Ok m' ∧ data_ m' = data_ m ∧ handle_at rows m' l.
Proof.
intros Hd. unfold handle_at, currentPN, currentRN, advance. destruct (cursor_ m) as [c|]; [|done].
intros [Hpos Hrn (ps & Hv & Hl)]. destruct (vget_total (pn_ c) (pos_ c) Hpos) as [pn Hpn].
rewrite (vget_drop _ _ _ Hpn) in Hl. cbn [app map] in Hl. injection Hl as -> ->.
split; [done|]. split.
{ rewrite Hrn. unfold vget in *. destruct (pos_ c <? 0); [done|].
  change (map ?f (pn_ c)) with (f <$> pn_ c). rewrite list_lookup_fmap.
  destruct (pn_ c !! _); [|done]. by injection Hpn as ->. }
unfold cursor_advance. cbn [pos_ size_ visit pn_]. unfold size_ in *. cbn [pn_].
destruct (Z.eqb_spec (pos_ c + 1) (vsize (pn_ c))) as [E|Hne].
- rewrite drop_ge by (unfold vsize in *; lia). cbn [app].
  destruct (prefetch_at _ rows _ _ Hd Hv) as (c' & -> & Hnone & Hsome). cbn [mbind res_bind].
  eexists. split; [done|]. split; [done|]. cbn [cursor_ data_].
  destruct ps as [|p ps]; [by rewrite Hnone|]. destruct Hsome as [-> Hc']; [done|]. exact Hc'.
- cbn [mbind res_bind]. eexists. split; [done|]. split; [done|]. cbn [cursor_ data_].
  unfold cursor_hasRow, size_. cbn [pn_]. destruct (Z.eqb_spec (vsize (pn_ c)) 0); [lia|]. cbn [negb].
  split; cbn; [unfold size_; cbn; lia|done|]. by exists ps.
Qed.

Lemma handle_hasRow rows m l : handle_at rows m l → hasRow m = match l with [] => false | _ => true end.
Proof.
unfold handle_at, hasRow. destruct (cursor_ m) as [c|]; [|by intros ->].
intros [Hpos _ (ps & _ & Hl)]. destruct (vget_total (pn_ c) (pos_ c) Hpos) as [pn Hpn].
rewrite (vget_drop _ _ _ Hpn) in Hl. by rewrite Hl.
Qed.

(** A cursor delivers its rows, and comes to an end. *)
Lemma rows_of_ok rows m l : represents (data_ m) rows → handle_at rows m l →
(length l ≤ length (pnColumn (data_ m)))%nat → rows_of m = Ok l.
Proof.
unfold rows_of. intros Hd Hm Hlen. apply le_n_S in Hlen. revert Hlen.
generalize (S (length (pnColumn (data_ m)))) as fuel. intros fuel.
cut (∀ acc, (length l < fuel)%nat → loop rows_step fuel (m, acc) = Ok (acc ++ l)).
{ intros Hc. apply (Hc []). }
revert m l Hd Hm. induction fuel as [|fuel IH]; intros m l Hd Hm acc Hlen; [lia|].
destruct l as [|r l].
- apply loop_inr. unfold rows_step. by rewrite (handle_hasRow rows m []), app_nil_r.
- destruct (handle_step rows m r l Hd Hm) as (H1' & H2' & m' & E & Hdata & Hm').
  rewrite (loop_inl _ _ _ (m', acc ++ [r])).
  + rewrite (IH m' l); [by rewrite <- app_assoc|by rewrite Hdata|done|cbn in Hlen; lia].
  + unfold rows_step. rewrite (handle_hasRow rows m (r :: l)), H1', H2', E by done. cbn. by destruct r.
Qed.
End rows.
