(* ===== verification/PhoneInverse.v ===== *)
(** * The inverse index, and the theorems of PhoneMapping *)

From stdpp Require Import strings gmap sorting sets.
From Stdlib Require Import ZifyBool.
From S2P Require Export PhoneRows.

(** ** The elements of an index behind a bound *)
Definition below (v : Z) (e : PhoneList) : bool := phone e <? v.
Definition behind (v : Z) (l : list PhoneList) : list PhoneList := drop (leading (below v) l) l.

Lemma behind_cons v x l : behind v (x :: l) = if below v x then behind v l else x :: l.
Proof. unfold behind. cbn. by destruct (below v x). Qed.

Lemma behind_unique_from v x l : below v x = true →
  behind v (unique_from equal x l) = unique equal (behind v l).
Proof.
  revert x. induction l as [|y l IH]; intros x Hx; [done|]. cbn [unique_from]. rewrite (behind_cons v y l).
  unfold equal at 1. destruct (Z.eqb_spec (phone x) (phone y)) as [E|Hne].
  - assert (Hy : below v y = true) by (unfold below in *; by rewrite <- E). rewrite Hy. by apply IH.
  - rewrite behind_cons. destruct (below v y) eqn:Hy; [by apply IH|done].
Qed.

Lemma behind_unique v l : behind v (unique equal l) = unique equal (behind v l).
Proof.
  destruct l as [|x l]; [done|]. cbn [unique]. rewrite !behind_cons.
  destruct (below v x) eqn:Hx; [by apply behind_unique_from|done].
Qed.

Lemma behind_filter v l : StronglySorted (λ x y, phone x ≤ phone y) l →
  behind v l = List.filter (λ e, negb (below v e)) l ∧
  l = List.filter (below v) l ++ List.filter (λ e, negb (below v e)) l.
Proof.
  intros Hs. destruct (sorted_below phone l v Hs) as [E1 E2]. split; [by symmetry|].
  etrans; [symmetry; apply (take_drop (leading (λ y, phone y <? v) l))|]. by rewrite <- E1, <- E2.
Qed.

Definition hd_next (l : list PhoneList) : Z := List.hd MAXROWS (map next l).

Lemma hd_next_unique l : hd_next (unique equal l) = hd_next l.
Proof. by destruct l. Qed.

Lemma leading_le {A} (f : A → bool) l : (leading f l ≤ length l)%nat.
Proof. induction l as [|x l IH]; cbn; [done|]. destruct (f x); lia. Qed.

Lemma index_next_at U k : (k ≤ length U)%nat → index_next U k = Ok (hd_next (drop k U)).
Proof.
  intros Hk. unfold index_next. destruct (Nat.eqb_spec k (length U)) as [->|Hne].
  - by rewrite drop_all.
  - destruct (lookup_lt_is_Some_2 U k) as [e He]; [lia|]. rewrite (vget_nat _ _ e He).
    by rewrite (drop_S _ _ _ He).
Qed.

Lemma leading_ext {A} (f g : A → bool) l : Forall (λ x, f x = g x) l → leading f l = leading g l.
Proof. induction 1 as [|x l E _ IH]; cbn; [done|]. by rewrite E, IH. Qed.

(** The second search goes on where the first one stopped. *)
Lemma leading_from v w l : StronglySorted (λ x y, phone x ≤ phone y) l →
  (leading (below v) l + leading (below w) (drop (leading (below v) l) l))%nat =
  leading (below (Z.max v w)) l.
Proof.
  induction 1 as [|x l Hl IH Hx]; [done|]. cbn [leading].
  destruct (below v x) eqn:Hv; unfold below in Hv.
  - replace (below (Z.max v w) x) with true by (unfold below; symmetry; apply Z.ltb_lt; lia).
    cbn [drop plus]. by rewrite IH.
  - cbn [drop]. rewrite Nat.add_0_l. change (leading (below w) (x :: l) = leading (below (Z.max v w)) (x :: l)).
    apply leading_ext. constructor; [unfold below; lia|].
    eapply Forall_impl; [exact Hx|]. cbn. intros y Hy. unfold below. lia.
Qed.

Section inverse.
Context `{FollyOk} `{FlagsOk}.

(** ** The index of narrow rows *)
Definition index_entries (rows : list row) : list PhoneList :=
connected (map (λ r, mkPhoneList r.2 MAXROWS) rows).
Definition row_at (rows : list row) (e : PhoneList) : row := nth (Z.to_nat (next e)) rows (0, 0).

Lemma connected_sorted rx : StronglySorted (λ x y, next x < next y) (connected rx).
Proof.
unfold connected. cut (∀ k, StronglySorted (λ x y, next x < next y)
  (imap (λ i e, PL (phone e) (Z.of_nat (k + i))) rx)); [intros Hc; exact (Hc O)|].
induction rx as [|e rx IH]; intros k; [constructor|]. rewrite imap_cons. constructor.
- rewrite (imap_ext _ (λ i e, PL (phone e) (Z.of_nat (S k + i)))); [apply IH|].
  intros i x _. unfold compose. f_equal. lia.
- apply Forall_forall. intros x Hx. apply elem_of_lookup_imap in Hx as (i & y & -> & _). cbn. lia.
Qed.

Lemma index_entries_rows rows : Forall narrow rows →
map (row_at rows) (index_entries rows) = rows ∧
Forall (λ e, phone e = (row_at rows e).2) (index_entries rows).
Proof.
intros Hn. assert (Hat : ∀ i r, rows !! i = Some r →
  row_at rows (PL (mkPhoneList r.2 MAXROWS).(phone) (Z.of_nat i)) = r ∧
  (mkPhoneList r.2 MAXROWS).(phone) = r.2).
{ intros i r Hr. pose proof (Forall_lookup_1 _ _ _ _ Hn Hr) as [_ Hr2]. cbn.
  rewrite Z.mod_small by done. split; [|done]. unfold row_at. cbn. rewrite Nat2Z.id.
  by apply nth_lookup_Some. }
split.
- apply list_eq. intros i. change (map (row_at rows) ?l) with (row_at rows <$> l).
  unfold index_entries, connected. change (map ?f rows) with (f <$> rows).
  rewrite list_lookup_fmap, list_lookup_imap, list_lookup_fmap.
  destruct (rows !! i) as [r|] eqn:E; [|done]. cbn. f_equal. by apply Hat.
- apply Forall_forall. intros e He. apply elem_of_lookup_imap in He as (i & x & -> & Hx).
  change (map ?f rows) with (f <$> rows) in Hx. rewrite list_lookup_fmap in Hx.
  destruct (rows !! i) as [r|] eqn:E; [|done]. injection Hx as <-. destruct (Hat i r E) as [E1 E2].
  cbn [phone]. by rewrite E1.
Qed.

Lemma rn_index_sort rows : rn_index rows = stable_sort rn_cmp (index_entries rows).
Proof.
unfold rn_index, sorted_index. fold (index_entries rows).
apply (stable_sort_tie rn_cmp cmp next); [apply connected_sorted|].
intros x y Hxy. unfold cmp, rn_cmp. destruct (Z.eqb_spec (phone y) (phone x)) as [->|]; [|done].
rewrite Z.ltb_irrefl. by apply Z.ltb_ge; lia.
Qed.

Lemma rn_index_sorted rows : StronglySorted (λ x y, phone x ≤ phone y) (rn_index rows).
Proof. rewrite rn_index_sort. by apply stable_sort_sorted. Qed.

(** The entries between two bounds. *)
Definition segment (rows : list row) (lo hi : Z) : list PhoneList :=
List.filter (λ e, below hi e) (List.filter (λ e, negb (below lo e)) (rn_index rows)).

Lemma segment_rows rows lo hi : Forall narrow rows →
map (row_at rows) (segment rows lo hi) = inverse_rows rows lo hi.
Proof.
intros Hn. destruct (index_entries_rows rows Hn) as [Hrows Hph].
unfold segment, inverse_rows. rewrite rn_index_sort, !(stable_sort_filter rn_cmp phone) by done.
set (C := index_entries rows) in *.
rewrite (stable_sort_ext rn_cmp (λ a b, rn_lt (row_at rows a) (row_at rows b))).
- rewrite <- stable_sort_map. f_equal. rewrite <- Hrows at 2. clear Hrows.
  induction Hph as [|e l He _ IH]; [done|]. cbn [List.filter map].
  replace (rn_between lo hi (row_at rows e)) with (negb (below lo e) && below hi e).
  2: { unfold rn_between, below. rewrite <- He. lia. }
  destruct (below lo e); cbn [negb andb List.filter]; [done|].
  destruct (below hi e); [|done]. cbn [map]. by rewrite IH.
- assert (Hin : ∀ e, e ∈ List.filter (below hi) (List.filter (λ e, negb (below lo e)) C) → phone e = (row_at rows e).2).
  { intros e He. rewrite Forall_forall in Hph. apply Hph. apply list_elem_of_In in He.
    apply filter_In in He as [He _]. apply filter_In in He as [He _]. by apply list_elem_of_In. }
  apply Forall_forall. intros x Hx. apply Forall_forall. intros y Hy.
  unfold rn_cmp, rn_lt. by rewrite (Hin x), (Hin y).
Qed.

Lemma behind_split rows lo hi : lo ≤ hi →
behind lo (rn_index rows) = segment rows lo hi ++ behind hi (rn_index rows).
Proof.
intros Hle. unfold segment. pose proof (rn_index_sorted rows) as Hs.
rewrite (proj1 (behind_filter lo _ Hs)), (proj1 (behind_filter hi _ Hs)).
set (f := λ e, negb (below lo e)).
assert (Hs1 : StronglySorted (λ x y, phone x ≤ phone y) (List.filter f (rn_index rows))).
{ rewrite rn_index_sort, (stable_sort_filter rn_cmp phone) by done. by apply stable_sort_sorted. }
etrans; [exact (proj2 (behind_filter hi _ Hs1))|]. f_equal. unfold f. clear -Hle.
induction (rn_index rows) as [|x l IH]; [done|]. cbn [List.filter].
destruct (below lo x) eqn:E1; cbn [negb List.filter].
- replace (below hi x) with true by (unfold below in *; lia). done.
- destruct (below hi x); cbn [negb]; [done|]. by rewrite IH.
Qed.

(** The entries of the segment are wired from its first one to the first one
  behind it. *)
Lemma segment_linked d rows lo hi : represents d rows → lo ≤ hi →
linked (pnColumn d) (map next (segment rows lo hi)) (hd_next (behind hi (rn_index rows))) ∧
(hd_next (behind hi (rn_index rows)) ∉ map next (segment rows lo hi)) ∧
hd_next (behind lo (rn_index rows)) =
  List.hd (hd_next (behind hi (rn_index rows))) (map next (segment rows lo hi)).
Proof.
intros Hd Hle. pose proof (behind_split rows lo hi Hle) as E. set (B := behind hi (rn_index rows)) in *.
set (seg := segment rows lo hi) in *.
assert (∃ A, rn_index rows = A ++ seg ++ B) as [A Eall].
{ exists (take (leading (below lo) (rn_index rows)) (rn_index rows)). rewrite <- E. symmetry. apply take_drop. }
pose proof (rep_linked _ _ Hd) as Hl. pose proof (sorted_next_perm (map (λ r, mkPhoneList r.2 MAXROWS) rows)) as Hp.
fold (rn_index rows) in Hp. rewrite Eall, !map_app in Hl, Hp.
apply linked_app in Hl as [_ Hl]. apply linked_app in Hl as [Hl _]. split_and!; [exact Hl| |].
- assert (Hnd : NoDup (map next seg ++ map next B)).
  { assert (Hnd : NoDup (map next A ++ map next seg ++ map next B)) by (rewrite Hp; apply NoDup_seqZ).
    by apply NoDup_app in Hnd as (_ & _ & Hnd). }
  unfold hd_next. destruct B as [|b B].
  + cbn. intros Hin. assert (Hin2 : MAXROWS ∈ seqZ 0 (vsize (map (λ r, mkPhoneList r.2 MAXROWS) rows))).
    { apply (elem_of_Permutation_proper _ _ _ Hp). rewrite app_nil_r. apply elem_of_app. by right. }
    apply elem_of_seqZ in Hin2. unfold vsize in Hin2. rewrite length_map in Hin2.
    pose proof (rep_max _ _ Hd). lia.
  + cbn. apply NoDup_app in Hnd as (_ & Hnd & _). intros Hin. apply (Hnd _ Hin). by left.
- rewrite E. unfold hd_next. rewrite map_app. by destruct (map next seg).
Qed.

(** The numbers that the segment delivers. *)
Lemma segment_delivers d rows lo hi : represents d rows → Forall narrow rows →
map (with_rn rows) (map (λ i, nth (Z.to_nat i) (phone <$> pnColumn d) 0) (map next (segment rows lo hi))) =
inverse_rows rows lo hi.
Proof.
intros Hd Hn. rewrite <- segment_rows by done. rewrite !map_map. apply map_ext_in. intros e He.
apply list_elem_of_In in He. assert (Hin : e ∈ index_entries rows).
{ rewrite <- (stable_sort_perm rn_cmp), <- rn_index_sort. apply list_elem_of_In.
  apply list_elem_of_In in He. unfold segment in He. rewrite !filter_In in He. tauto. }
apply elem_of_lookup_imap in Hin as (i & x & -> & Hx).
change (map ?f rows) with (f <$> rows) in Hx. rewrite list_lookup_fmap in Hx.
destruct (rows !! i) as [[pn rn]|] eqn:Er; [|done]. unfold row_at. cbn [next]. rewrite Nat2Z.id.
rewrite (rep_pn _ _ Hd). pose proof (Forall_lookup_1 _ _ _ _ Hn Er) as [Hr1 _].
rewrite (nth_lookup_Some _ _ _ pn).
2: { change (map ?f rows) with (f <$> rows). rewrite list_lookup_fmap, Er. cbn. by rewrite Z.mod_small. }
rewrite (nth_lookup_Some _ _ _ _ Er). unfold with_rn, lookup_rn, rows_map. f_equal.
rewrite (elem_of_list_to_map_1 rows pn rn); [done|apply (rep_keys _ _ Hd)|].
by eapply list_elem_of_lookup_2.
Qed.

(** The searches in the index. *)
Lemma bounds_at rows lo hi U : U = unique equal (rn_index rows) →
let l := lower_bound rn_cmp U 0 (mkPhoneList lo 0) in
let r := lower_bound rn_cmp U l (mkPhoneList hi 0) in
0 ≤ lo < 2 ^ 34 → 0 ≤ hi < 2 ^ 34 →
index_next U l = Ok (hd_next (behind lo (rn_index rows))) ∧
index_next U r = Ok (hd_next (behind (Z.max lo hi) (rn_index rows))).
Proof.
intros HU l r Hlo Hhi.
assert (Hs : StronglySorted (λ x y, phone x ≤ phone y) U).
{ subst U. pose proof (rn_index_sorted rows) as Hs. clear -Hs.
  destruct Hs as [|x l Hl Hx]; cbn; [constructor|]. revert x Hx.
  induction Hl as [|y l Hl IH Hy]; intros x Hx; cbn [unique_from]; [repeat constructor|].
  apply Forall_cons in Hx as [Hxy Hx]. destruct (equal x y); [by apply IH|].
  constructor; [by apply IH|]. constructor; [done|]. cbn.
  specialize (IH y Hy). inversion_clear IH. eapply Forall_impl; [eassumption|]. cbn. lia. }
assert (El : l = leading (below lo) U).
{ unfold l, lower_bound. cbn. apply leading_ext. apply Forall_forall. intros e _.
  unfold rn_cmp, below, mkPhoneList. cbn. by rewrite Z.mod_small. }
assert (Er : r = leading (below (Z.max lo hi)) U).
{ rewrite <- leading_from by done. rewrite <- El. unfold r, lower_bound. f_equal.
  apply leading_ext. apply Forall_forall. intros e _.
  unfold rn_cmp, below, mkPhoneList. cbn. by rewrite Z.mod_small. }
rewrite El, Er, !index_next_at by apply leading_le. fold (behind lo U) (behind (Z.max lo hi) U).
rewrite HU, !behind_unique, !hd_next_unique. done.
Qed.

Lemma inverseRNs_ok m rows lo hi : represents (data_ m) rows → Forall narrow rows →
0 ≤ lo < 2 ^ 34 → 0 ≤ hi < 2 ^ 34 →
∃ m', inverseRNs m lo hi = Ok m' ∧ data_ m' = data_ m ∧ handle_at rows m' (inverse_rows rows lo hi).
Proof.
intros Hd Hn Hlo Hhi. unfold inverseRNs, data_inverseRNs.
destruct (bounds_at rows lo hi (rnIndex (data_ m)) (rep_rn _ _ Hd) Hlo Hhi) as [-> ->].
cbn [mbind res_bind].
destruct (segment_linked _ rows lo (Z.max lo hi) Hd ltac:(lia)) as (Hl & Hout & Ehd).
assert (Einv : inverse_rows rows lo hi = inverse_rows rows lo (Z.max lo hi)).
{ unfold inverse_rows. f_equal. apply filter_ext. intros r. unfold rn_between. lia. }
rewrite Einv, <- (segment_delivers (data_ m)) by done. rewrite Ehd.
set (ix := map next (segment rows lo (Z.max lo hi))) in *.
set (e := hd_next (behind (Z.max lo hi) (rn_index rows))) in *.
clearbody ix e. destruct ix as [|i ix].
- cbn [List.hd]. rewrite Z.eqb_refl. cbn. by eexists.
- cbn [List.hd]. destruct (Z.eqb_spec i e) as [->|_]; [exfalso; apply Hout; by left|]. cbn [negb].
  destruct (handle_of (data_ m) rows _ _ Hd (visits_inverse _ _ _ Hl Hout)) as (c & Hpre & Hc); [done|].
  cbn [List.hd] in Hpre. rewrite Hpre. cbn [mbind res_bind]. by eexists.
Qed.

Lemma visitRows_ok m rows : represents (data_ m) rows → Forall narrow rows →
∃ m', visitRows m = Ok m' ∧ data_ m' = data_ m ∧ handle_at rows m' rows.
Proof.
intros Hd Hn. unfold visitRows, data_visitRows.
assert (Hrows : map (with_rn rows) (phone <$> pnColumn (data_ m)) = rows).
{ rewrite (rep_pn _ _ Hd), map_map. etrans; [|apply map_id]. apply map_ext_in.
  intros [pn rn] Hin. apply list_elem_of_In in Hin. rewrite Forall_forall in Hn.
  destruct (Hn _ Hin) as [Hr _]. cbn in *. rewrite Z.mod_small by done.
  unfold with_rn, lookup_rn, rows_map. f_equal.
  by rewrite (elem_of_list_to_map_1 rows pn rn); [|apply (rep_keys _ _ Hd)|]. }
destruct (Z.ltb_spec 0 (vsize (pnColumn (data_ m)))) as [Hlt|Hle].
- destruct (handle_of (data_ m) rows _ _ Hd (visits_rows _ [] _ eq_refl)) as (c & Hc & Hat).
  { unfold vsize in Hlt. by destruct (pnColumn (data_ m)). }
  change (vsize []) with 0 in Hc. rewrite Hc. cbn [mbind res_bind]. rewrite Hrows in Hat. by eexists.
- cbn. eexists. split; [done|]. split; [done|]. rewrite <- Hrows. unfold vsize in Hle.
  destruct (pnColumn (data_ m)); [done|]. cbn in Hle. lia.
Qed.

Lemma rep_length d rows : represents d rows → length (pnColumn d) = length rows.
Proof.
intros Hd. rewrite <- (length_fmap phone (pnColumn d)), (rep_pn _ _ Hd). apply length_map.
Qed.

Lemma inverse_rows_length rows lo hi : (length (inverse_rows rows lo hi) ≤ length rows)%nat.
Proof.
unfold inverse_rows. rewrite stable_sort_perm. induction rows as [|r rows IH]; cbn; [done|].
destruct (rn_between lo hi r); cbn; lia.
Qed.

End inverse.
