(* ===== verification/PhoneTheorems.v ===== *)
(** * What PhoneMapping promises *)

From stdpp Require Import strings gmap sorting sets.
From S2P Require Export PhoneInverse.

(** A builder that is given rows one by one. *)
Fixpoint add_rows `{Folly} (b : Data) (rows : list row) : throws Data :=
  match rows with
  | [] => ret b
  | r :: rows => b ←? addRow b r.1 r.2; add_rows b rows
  end.

(** What [f] makes of the mapping with the given rows. *)
Definition on_rows `{Folly} {A} (rows : list row) (f : PhoneMapping → res A) : throws A :=
  b ←? add_rows new_data rows; m ←? lift (builder_build b); lift (f m).

Section phone.
Context `{FollyOk} `{FlagsOk}.

Lemma add_rows_ok b rows more : builds b rows → NoDup (map fst (rows ++ more)) →
Z.of_nat (length (rows ++ more)) ≤ MAXROWS → ∃ b', add_rows b more = ret b' ∧ builds b' (rows ++ more).
Proof.
revert b rows. induction more as [|[pn rn] more IH]; intros b rows Hb Hnd Hmax; cbn.
{ rewrite app_nil_r. by exists b. }
rewrite (addRow_builds b rows) by done.
assert (Hn : pn ∉ map fst rows).
{ rewrite map_app in Hnd. apply NoDup_app in Hnd as (_ & Hnd & _). cbn in Hnd. intros Hin.
  apply (Hnd _ Hin). by left. }
rewrite length_app in Hmax. cbn in Hmax. rewrite bool_decide_eq_false_2 by done.
rewrite bool_decide_eq_false_2 by lia. cbn.
destruct (IH _ (rows ++ [(pn, rn)]) (builds_snoc b rows pn rn Hb Hn ltac:(lia))) as (b' & E & Hb').
- by rewrite <- app_assoc.
- rewrite !length_app. cbn. lia.
- exists b'. split; [exact E|]. by rewrite <- app_assoc in Hb'.
Qed.

(** C24: a builder is the list of its rows: [addRow] rejects a phone number that
  is in the table, and the row behind the largest table, and otherwise appends
  the row to the table that the builder stands for. *)
Theorem addRow_invariant b rows pn rn : builds b rows →
(pn ∈ map fst rows ∧ addRow b pn rn = throw (runtime_error "PhoneMapping::Builder: duplicate key")) ∨
((pn ∉ map fst rows) ∧ Z.of_nat (length rows) = MAXROWS ∧
 addRow b pn rn = throw (runtime_error "PhoneMapping::Builder: too much rows")) ∨
((pn ∉ map fst rows) ∧ Z.of_nat (length rows) < MAXROWS ∧
 ∃ b', addRow b pn rn = ret b' ∧ builds b' (rows ++ [(pn, rn)])).
Proof.
intros Hb. rewrite (addRow_builds b rows) by done. pose proof (builds_max _ _ Hb).
case_bool_decide; [by left|]. case_bool_decide; right; [by left|right].
split_and!; [done|lia|]. eexists. split; [done|]. by apply builds_snoc.
Qed.

(** C15: PhoneMapping implements the table of its rows.  For rows with distinct
  phone numbers, all numbers below 2^34, the builder accepts the rows, [build]
  succeeds, and of the mapping that it returns: [size] is the number of rows,
  [getRN] is the lookup in the table, the cursor of [visitRows] yields exactly
  the rows in their order and comes to an end, and the cursor of
  [inverseRNs] yields exactly the rows whose routing number is in the range,
  by routing number and then in their order, and comes to an end. *)
Theorem phone_mapping_refines rows :
NoDup (map fst rows) → Z.of_nat (length rows) ≤ MAXROWS → Forall narrow rows →
∃ b m, add_rows new_data rows = ret b ∧ builder_build b = Ok m ∧
  size (data_ m) = Z.of_nat (length rows) ∧
  (∀ pn, getRN (data_ m) pn = Ok (default NONE (rows_map rows !! pn))) ∧
  (m' ← visitRows m; rows_of m') = Ok rows ∧
  (∀ fromRN toRN, 0 ≤ fromRN < 2 ^ 34 → 0 ≤ toRN < 2 ^ 34 →
    (m' ← inverseRNs m fromRN toRN; rows_of m') = Ok (inverse_rows rows fromRN toRN)).
Proof.
intros Hnd Hmax Hn. destruct (add_rows_ok new_data [] rows builds_new Hnd Hmax) as (b & Eb & Hb).
destruct (build_represents_aux b rows Hb) as (d & Ed & Hd).
exists b, (MkPhoneMapping d None). unfold builder_build. rewrite Ed. cbn [mbind res_bind data_].
split_and!; [done|done| | | |].
- unfold size, vsize. by rewrite (rep_length d rows).
- intros pn. by apply getRN_ok.
- destruct (visitRows_ok (MkPhoneMapping d None) rows Hd Hn) as (m' & -> & Hdata & Hat).
  cbn [mbind res_bind]. apply (rows_of_ok rows); [by rewrite Hdata|done|].
  rewrite Hdata. cbn [data_]. by rewrite (rep_length d rows).
- intros lo hi Hlo Hhi.
  destruct (inverseRNs_ok (MkPhoneMapping d None) rows lo hi Hd Hn Hlo Hhi) as (m' & -> & Hdata & Hat).
  cbn [mbind res_bind]. apply (rows_of_ok rows); [by rewrite Hdata|done|].
  rewrite Hdata. cbn [data_]. rewrite (rep_length d rows) by done. apply inverse_rows_length.
Qed.

(** Looking up a batch of keys is looking up every key, whatever the size
  of the batches in which the hashes are computed ahead. *)
Lemma getRNs_batch (d : Data) (pns : list Z) :
getRNs d pns = Ok (map (λ pn, default NONE (f14_lookup (dict d) pn)) pns).
Proof.
unfold getRNs. rewrite batch_ok; [|apply f14map_pos|by rewrite length_replicate].
rewrite zip_with_replicate_r by done. done.
Qed.

(** ** Phone numbers *)
Lemma filter_digits ds : digits ds → List.filter (λ c, negb (is_punct c)) ds = ds.
Proof.
induction 1 as [|d ds Hd _ IH]; [done|]. cbn [List.filter]. rewrite IH.
replace (is_punct d) with false; [done|]. symmetry. unfold is_punct. cbn [one_of].
change (ch " ") with 32. change (ch "-") with 45. change (ch "(") with 40. change (ch ")") with 41.
repeat match goal with |- context [d =? ?a] => destruct (Z.eqb_spec d a); [lia|] end. done.
Qed.

(** C26: [fromString] reads every North American number: ten digits, optionally
  behind 1 or +1, with blanks, dashes and parentheses anywhere and white space
  around, at most 30 characters, is the number that the ten digits denote. *)
Theorem fromString_number a s b pre ds :
Forall (λ c, is_trim c = true) a → Forall (λ c, is_trim c = true) b →
head_is (λ c, negb (is_trim c)) s → head_is (λ c, negb (is_trim c)) (rev s) →
vsize s ≤ 30 → List.filter (λ c, negb (is_punct c)) s = pre ++ ds →
pre ∈ [[]; chars "1"; chars "+1"] → digits ds → length ds = 10%nat →
fromString (a ++ s ++ b) = decimal ds.
Proof.
intros Ha Hb Hs Hr Hlen Hf Hpre Hds H10. unfold fromString. rewrite trim_spec by done.
destruct (Z.ltb_spec 30 (vsize s)); [lia|]. rewrite Hf.
assert (Hlt : decimal ds < 2 ^ 64).
{ pose proof (decimal_bound ds Hds) as Hb10.
  rewrite H10 in Hb10. change (10 ^ Z.of_nat 10) with 10000000000 in Hb10. lia. }
assert (Ht : tryTo_u64 ds = Some (decimal ds)).
{ rewrite <- (app_nil_r ds) at 1. apply tryTo_digits; try done. by destruct ds. }
assert (Hv : ∀ p, vsize (p ++ ds) = Z.of_nat (length p) + 10).
{ intros p. unfold vsize. rewrite length_app. lia. }
assert (E10 : negb (vsize ds =? 10) = false) by (unfold vsize; by rewrite H10).
rewrite !elem_of_cons in Hpre. destruct Hpre as [->|[->|[->|Hn]]]; [..|by apply elem_of_nil in Hn];
  rewrite !Hv; cbn [length chars Z.of_nat]; cbn [Z.eqb]; rewrite ?removePrefix_spec.
- change (Z.of_nat 0 + 10 =? 12) with false. change (Z.of_nat 0 + 10 =? 11) with false.
  cbv iota. cbn [app].
  by rewrite E10, Ht.
- change (Z.of_nat 1 + 10 =? 12) with false. change (Z.of_nat 1 + 10 =? 11) with true.
  cbv iota. rewrite (proj2 (prefixb_spec _ _)) by (by rewrite take_app_length).
  by rewrite drop_app_length, E10, Ht.
- change (Z.of_nat 2 + 10 =? 12) with true.
  cbv iota. rewrite (proj2 (prefixb_spec _ _)) by (by rewrite take_app_length).
  by rewrite drop_app_length, E10, Ht.
Qed.

(** [fromString] rejects everything else that has a character which is not
  a digit where the ten digits should be, or another number of characters. *)
Lemma fromString_rejects a s b t :
Forall (λ c, is_trim c = true) a → Forall (λ c, is_trim c = true) b →
head_is (λ c, negb (is_trim c)) s → head_is (λ c, negb (is_trim c)) (rev s) →
t = List.filter (λ c, negb (is_punct c)) s →
30 < vsize s ∨ vsize t ∉ [10; 11; 12] ∨
(vsize t = 12 ∧ prefixb (chars "+1") t = false) ∨ (vsize t = 11 ∧ prefixb (chars "1") t = false) ∨
(∃ c, c ∈ drop (length t - 10) t ∧ is_digit c = false ∧ isspace c = false) →
fromString (a ++ s ++ b) = NONE.
Proof.
intros Ha Hb Hs Hr -> Hbad. unfold fromString. rewrite trim_spec by done.
destruct (Z.ltb_spec 30 (vsize s)) as [|Hlen]; [done|].
set (t := List.filter _ s) in *. destruct Hbad as [?|Hbad]; [lia|].
rewrite !removePrefix_spec. rewrite !not_elem_of_cons in Hbad. unfold vsize in *.
destruct (Z.eqb_spec (Z.of_nat (length t)) 12) as [H12|N12].
- destruct (prefixb (chars "+1") t) eqn:Ep; [|by rewrite H12].
  destruct Hbad as [[? [? [? _]]]|[[_ ?]|[[? _]|(c & Hc & Hd & Hsp)]]]; [lia|congruence|lia|].
  rewrite length_drop. replace (length t) with 12%nat by lia. cbn [length chars Nat.sub Z.of_nat].
  replace (length t - 10)%nat with 2%nat in Hc by lia.
  change (negb (10 =? 10)) with false. cbv iota. by rewrite (tryTo_bad _ c).
- destruct (Z.eqb_spec (Z.of_nat (length t)) 11) as [H11|N11].
  + destruct (prefixb (chars "1") t) eqn:Ep; [|by rewrite H11].
    destruct Hbad as [[? [? [? _]]]|[[? _]|[[_ ?]|(c & Hc & Hd & Hsp)]]]; [lia|lia|congruence|].
    rewrite length_drop. replace (length t) with 11%nat by lia. cbn [length chars Nat.sub Z.of_nat].
    replace (length t - 10)%nat with 1%nat in Hc by lia.
  change (negb (10 =? 10)) with false. cbv iota. by rewrite (tryTo_bad _ c).
  + destruct (Z.eqb_spec (Z.of_nat (length t)) 10) as [H10|]; [|done]. cbn [negb].
    destruct Hbad as [[? [? [? _]]]|[[? _]|[[? _]|(c & Hc & Hd & Hsp)]]]; [lia..|].
    replace (length t - 10)%nat with 0%nat in Hc by lia. by rewrite (tryTo_bad _ c).
Qed.
End phone.

(** ** Instances *)
Definition some_rows : list row :=
  [(2012000001, 2018209999); (9899999992, 9895010081); (9899999995, 2018209999)].

Lemma addRow_invariant_witness :
  let b := MkData dynamic_null f14_empty [] [] in
  (5 ∈ map fst (@nil row) ∧ addRow b 5 7 = throw (runtime_error "PhoneMapping::Builder: duplicate key")) ∨
  ((5 ∉ map fst (@nil row)) ∧ Z.of_nat (length (@nil row)) = MAXROWS ∧
   addRow b 5 7 = throw (runtime_error "PhoneMapping::Builder: too much rows")) ∨
  ((5 ∉ map fst (@nil row)) ∧ Z.of_nat (length (@nil row)) < MAXROWS ∧
   ∃ b', addRow b 5 7 = ret b' ∧ builds b' ([] ++ [(5, 7)])).
Proof. apply (addRow_invariant _ []), builds_new. Defined.

Lemma phone_mapping_refines_witness :
  ∃ b m, add_rows new_data some_rows = ret b ∧ builder_build b = Ok m ∧
    size (data_ m) = Z.of_nat (length some_rows) ∧
    (∀ pn, getRN (data_ m) pn = Ok (default NONE (rows_map some_rows !! pn))) ∧
    (m' ← visitRows m; rows_of m') = Ok some_rows ∧
    (∀ fromRN toRN, 0 ≤ fromRN < 2 ^ 34 → 0 ≤ toRN < 2 ^ 34 →
      (m' ← inverseRNs m fromRN toRN; rows_of m') = Ok (inverse_rows some_rows fromRN toRN)).
Proof.
  apply phone_mapping_refines; [|done|].
  - refine (bool_decide_unpack _ _). by vm_compute.
  - unfold some_rows, narrow. repeat (apply Forall_cons; split; [cbn; lia|]). apply Forall_nil_2.
Defined.

Lemma fromString_number_witness :
  fromString (chars "  (484)-424-96-83  ") = 4844249683.
Proof.
  apply (fromString_number (chars "  ") (chars "(484)-424-96-83") (chars "  ") [] (chars "4844249683"));
    try done; try (by repeat constructor); by left.
Defined.

Lemma fromString_rejects_witness : fromString (chars "0x23456789") = NONE.
Proof.
  apply (fromString_rejects [] (chars "0x23456789") [] (chars "0x23456789")); try done.
  do 4 right. exists (ch "x"). split_and!; [|done|done]. vm_compute. right. left.
Defined.

(** The cases of the project's own test of [fromString]. *)
Example fromString_tests :
  map (λ s, fromString (chars s))
    ["+14844249683"; "14844249683"; "4844249683"; "+1484424968"; "1484424968"; "+1 148-442-4968";
     "+1 484-424-968"; "1 484-424-968"; "+8524844249683"; "8524844249683"; "+0123456789"; "+223456789";
     "-223456789"; "-0123456789"]%string =
  [4844249683; 4844249683; 4844249683; NONE; 1484424968; 1484424968;
   NONE; 1484424968; NONE; NONE; NONE; NONE;
   NONE; 123456789].
Proof. by vm_compute. Qed.

(** A phone number of 2^34 or more is found by [getRN], but the columns keep
    its lower 34 bits: the cursor yields another number, with the routing number
    of that other number, and a range of routing numbers is cut to 34 bits. *)
Lemma phone_wide_numbers :
  let rows := [(5, 11); (2 ^ 34 + 5, 22); (2 ^ 34 + 6, 33)] in
  on_rows rows (λ m, getRN (data_ m) (2 ^ 34 + 5)) = ret 22 ∧
  on_rows rows (λ m, m' ← visitRows m; rows_of m') = ret [(5, 11); (5, 11); (6, NONE)] ∧
  on_rows rows (λ m, m' ← inverseRNs m (2 ^ 34 + 20) 30; rows_of m') = ret [(5, 11)].
Proof. split_and!; vm_compute; reflexivity. Qed.

Lemma getRNs_batch_witness : getRNs new_data [5; 7] = Ok [NONE; NONE].
Proof. exact (getRNs_batch new_data [5; 7]). Defined.
