(* ===== verification/BatchMapping.v ===== *)
(** * What the mappings promise to the request handlers

    Every mapping answers a batch of numbers in an array of the caller.  The
    interface says that the answer to a number depends on this number alone, and
    on what was in its place of the array. *)

From S2P Require Export Folly PhoneList Csv.

Class BatchMapping (D A : Type) := {
  getMany : D → list Z → list A → res (list A);
  answer : D → Z → A → A;
  getMany_answer d pns out : length out = length pns →
    getMany d pns out = Ok (zip_with (answer d) pns out);
}.

(** A [long long] result; an overflow is undefined. *)
Definition llong (z : Z) : throws Z :=
  if (- 2 ^ 63 <=? z) && (z <? 2 ^ 63) then ret z else Fault 0.

(** [deleteCharacter]: the loop over the characters. *)
Definition delete_char (input : list Z) (c : Z) : list Z := List.filter (λ a, negb (a =? c)) input.

(** [linebuf[0] >= '0' && linebuf[0] <= '9'], where [linebuf[0]] of an empty
    string is the terminating NUL. *)
Definition first_digit (linebuf : list Z) : bool :=
  match linebuf with c :: _ => is_digit c | [] => false end.
