(* ===== verification/DncMapping.v ===== *)
(** * The do-not-call list (DncMapping.h, DncMapping.cpp) *)

From stdpp Require Import strings.
From S2P Require Export BatchMapping.

Section DncMapping.
Context `{Folly, Flags}.

Record Data := MkData {
meta : dynamic;
dict : F14ValueMap Z;
pnColumn : list PhoneList;
dncIndex : list PhoneList;
}.

Definition getDNCs (d : Data) (pn dnc : list Z) : res (list Z) :=
batch FLAGS_dnc_f14map_prefetch (f14_prehash (dict d))
  (λ token pn _, match f14_find (dict d) token pn with Some _ => 1 | None => 0 end) pn dnc.

Definition getDNC (d : Data) (pn : Z) : res Z :=
dnc ← getDNCs d [pn] [0]; vget dnc 0.

Definition size (d : Data) : Z := vsize (pnColumn d).

Definition new_data : Data := MkData dynamic_null f14_empty [] [].

Definition setMetadata (b : Data) (meta : dynamic) : Data :=
MkData meta (dict b) (pnColumn b) (dncIndex b).

Definition addRow (b : Data) (pn dnc : Z) : throws Data :=
if f14_count (dict b) pn then throw (runtime_error "DncMapping::Builder: duplicate key") else
if MAXROWS <=? vsize (pnColumn b) then throw (runtime_error "DncMapping::Builder: too much rows") else
ret (MkData (meta b) (f14_emplace (dict b) pn dnc)
       (pnColumn b ++ [mkPhoneList pn MAXROWS]) (dncIndex b ++ [mkPhoneList dnc MAXROWS])).

Definition deleteCharacter (input : list Z) (character : Z) : list Z := delete_char input character.

(** [iss >> pn] leaves [pn] uninitialised on a line without characters. *)
Definition csv_line (b : Data) (linebuf : list Z) : throws Data :=
let number := deleteCharacter linebuf (ch ",") in
match extract_u64 number with
| None => Fault 0
| Some pn => addRow b pn 1
end.

Definition fromCSV (b : Data) (in_ : istream) (line : Z) (limit : nat) : throws (Data * istream * Z) :=
csv_rows csv_line b in_ line limit.

Definition build (b : Data) : res Data :=
'(pnColumn, dncIndex) ← build_index (pnColumn b) (dncIndex b);
mret (MkData (meta b) (dict b) pnColumn dncIndex).
End DncMapping.

Lemma getDNCs_ok `{Folly, Flags, !FlagsOk} d pn dnc : length dnc = length pn →
  getDNCs d pn dnc = Ok (zip_with (λ k _, match f14_lookup (dict d) k with Some _ => 1 | None => 0 end) pn dnc).
Proof. intros Hl. unfold getDNCs. rewrite batch_ok; [done|apply dnc_pos|done]. Qed.

#[export] Instance dnc_batch `{Folly, Flags, !FlagsOk} : BatchMapping Data Z := {
  getMany := getDNCs;
  answer d pn _ := match f14_lookup (dict d) pn with Some _ => 1 | None => 0 end;
  getMany_answer := getDNCs_ok;
}.
