(* ===== verification/TollFreeMapping.v ===== *)
(** * The toll-free numbers (TollFreeMapping.h, TollFreeMapping.cpp) *)

From stdpp Require Import strings.
From S2P Require Export BatchMapping.

Section TollFreeMapping.
Context `{Folly, Flags}.

Record Data := MkData {
meta : dynamic;
dict : F14ValueMap Z;
pnColumn : list PhoneList;
tollfreeIndex : list PhoneList;
}.

Definition getTollFrees (d : Data) (pn tollfree : list Z) : res (list Z) :=
batch FLAGS_tollfree_f14map_prefetch (f14_prehash (dict d))
  (λ token pn _, match f14_find (dict d) token pn with Some _ => 1 | None => 0 end) pn tollfree.

Definition getTollFree (d : Data) (pn : Z) : res Z :=
tollfree ← getTollFrees d [pn] [0]; vget tollfree 0.

Definition size (d : Data) : Z := vsize (pnColumn d).

Definition new_data : Data := MkData dynamic_null f14_empty [] [].

Definition setMetadata (b : Data) (meta : dynamic) : Data :=
MkData meta (dict b) (pnColumn b) (tollfreeIndex b).

Definition addRow (b : Data) (pn tollfree : Z) : throws Data :=
if f14_count (dict b) pn then throw (runtime_error "TollFreeMapping::Builder: duplicate key") else
if MAXROWS <=? vsize (pnColumn b) then throw (runtime_error "TollFreeMapping::Builder: too much rows") else
ret (MkData (meta b) (f14_emplace (dict b) pn tollfree)
       (pnColumn b ++ [mkPhoneList pn MAXROWS]) (tollfreeIndex b ++ [mkPhoneList tollfree MAXROWS])).

Definition deleteCharacter (input : list Z) (character : Z) : list Z := delete_char input character.

Definition csv_line (b : Data) (linebuf : list Z) : throws Data :=
if negb (first_digit linebuf) then ret b else
match getlines (ch ",") linebuf with
| [number; _; _] => pn ←? stoll number; addRow b (u64 pn) 1
| _ => throw (runtime_error "bad number of columns")
end.

Definition fromCSV (b : Data) (in_ : istream) (line : Z) (limit : nat) : throws (Data * istream * Z) :=
csv_rows csv_line b in_ line limit.

Definition build (b : Data) : res Data :=
'(pnColumn, tollfreeIndex) ← build_index (pnColumn b) (tollfreeIndex b);
mret (MkData (meta b) (dict b) pnColumn tollfreeIndex).
End TollFreeMapping.

Lemma getTollFrees_ok `{Folly, Flags, !FlagsOk} d pn tollfree : length tollfree = length pn →
  getTollFrees d pn tollfree = Ok (zip_with (λ k _, match f14_lookup (dict d) k with Some _ => 1 | None => 0 end) pn tollfree).
Proof. intros Hl. unfold getTollFrees. rewrite batch_ok; [done|apply tollfree_pos|done]. Qed.

#[export] Instance tollfree_batch `{Folly, Flags, !FlagsOk} : BatchMapping Data Z := {
  getMany := getTollFrees;
  answer d pn _ := match f14_lookup (dict d) pn with Some _ => 1 | None => 0 end;
  getMany_answer := getTollFrees_ok;
}.
