(* ===== verification/DnoMapping.v ===== *)
(** * The do-not-originate lists (DnoMapping.h, DnoMapping.cpp)

    Four dictionaries: whole numbers, area codes (NPA), exchanges (NPA-NXX) and
    thousands blocks (NPA-NXX-X). *)

From stdpp Require Import strings.
From S2P Require Export BatchMapping.

Section DnoMapping.
Context `{Folly, Flags}.

Record Data := MkData {
meta : dynamic;
dict : F14ValueMap Z;
dict_npa : F14ValueMap Z;
dict_npa_nxx : F14ValueMap Z;
dict_npa_nxx_x : F14ValueMap Z;
}.

Record tokens := Tokens { token : F14HashToken; token_npa : F14HashToken;
token_npa_nxx : F14HashToken; token_npa_nxx_x : F14HashToken }.

Definition prehash (d : Data) (pn : Z) : tokens := {|
token := f14_prehash (dict d) pn;
token_npa := f14_prehash (dict_npa d) (pn / 10000000);
token_npa_nxx := f14_prehash (dict_npa_nxx d) (pn / 10000);
token_npa_nxx_x := f14_prehash (dict_npa_nxx_x d) (pn / 1000);
|}.

(** [if (dno[i] == 0) { ... }] with one of the dictionaries. *)
Definition search (m : F14ValueMap Z) (t : F14HashToken) (key dno : Z) : Z :=
if dno =? 0 then match f14_find m t key with Some _ => 1 | None => 0 end else dno.

Definition find_dno (d : Data) (t : tokens) (pn dno : Z) : Z :=
let dno := search (dict_npa d) (token_npa t) (pn / 10000000) dno in
let dno := search (dict_npa_nxx d) (token_npa_nxx t) (pn / 10000) dno in
let dno := search (dict_npa_nxx_x d) (token_npa_nxx_x t) (pn / 1000) dno in
search (dict d) (token t) pn dno.

Definition getDNOs (d : Data) (pn dno : list Z) : res (list Z) :=
batch FLAGS_dno_f14map_prefetch (prehash d) (find_dno d) pn dno.

(** The variable that [getDNO] passes is not initialised: [dno] is its value. *)
Definition getDNO (d : Data) (dno pn : Z) : res Z :=
dno ← getDNOs d [pn] [dno]; vget dno 0.

Definition new_data : Data := MkData dynamic_null f14_empty f14_empty f14_empty f14_empty.

Definition setMetadata (b : Data) (meta : dynamic) : Data :=
MkData meta (dict b) (dict_npa b) (dict_npa_nxx b) (dict_npa_nxx_x b).

Definition add_to (m : F14ValueMap Z) (pn dno : Z) (store : F14ValueMap Z → Data) : throws Data :=
if f14_count m pn then throw (runtime_error "DnoMapping::Builder: duplicate key")
else ret (store (f14_emplace m pn dno)).

Definition addRow (b : Data) (pn : Z) (dnotype : string) (dno : Z) : throws Data :=
let '(MkData meta dict dict_npa dict_npa_nxx dict_npa_nxx_x) := b in
if String.eqb dnotype "dno" then
  add_to dict pn dno (λ m, MkData meta m dict_npa dict_npa_nxx dict_npa_nxx_x)
else if String.eqb dnotype "dno_npa" then
  add_to dict_npa pn dno (λ m, MkData meta dict m dict_npa_nxx dict_npa_nxx_x)
else if String.eqb dnotype "dno_npa_nxx" then
  add_to dict_npa_nxx pn dno (λ m, MkData meta dict dict_npa m dict_npa_nxx_x)
else if String.eqb dnotype "dno_npa_nxx_x" then
  add_to dict_npa_nxx_x pn dno (λ m, MkData meta dict dict_npa dict_npa_nxx m)
else ret b.

Definition deleteCharacter (input : list Z) (character : Z) : list Z := delete_char input character.

Definition csv_line (dnotype : string) (b : Data) (linebuf : list Z) : throws Data :=
if negb (first_digit linebuf) then ret b else
match getlines (ch ",") linebuf with
| [part; _; _] =>
    let number := deleteCharacter part (ch "-") in
    pn ←? stoll number; addRow b (u64 pn) dnotype 1
| _ => throw (runtime_error "bad number of columns")
end.

Definition fromCSV (b : Data) (dnotype : string) (in_ : istream) (line : Z) (limit : nat) :
  throws (Data * istream * Z) :=
csv_rows (csv_line dnotype) b in_ line limit.

(** [Data::build] is empty. *)
Definition build (b : Data) : res Data := mret b.
End DnoMapping.

(** A number is listed when one of the dictionaries has it, or its beginning. *)
Definition listed `{Folly} (d : Data) (pn : Z) : bool :=
  bool_decide (is_Some (f14_lookup (dict_npa d) (pn / 10000000))) ||
  bool_decide (is_Some (f14_lookup (dict_npa_nxx d) (pn / 10000))) ||
  bool_decide (is_Some (f14_lookup (dict_npa_nxx_x d) (pn / 1000))) ||
  bool_decide (is_Some (f14_lookup (dict d) pn)).

Lemma search_lookup `{Folly} m key dno :
  search m (f14_prehash m key) key dno =
  if dno =? 0 then if bool_decide (is_Some (f14_lookup m key)) then 1 else 0 else dno.
Proof. unfold search, f14_lookup. by destruct (dno =? 0), (f14_find m (f14_prehash m key) key). Qed.

Lemma find_dno_listed `{Folly} d pn dno :
  find_dno d (prehash d pn) pn dno = if dno =? 0 then if listed d pn then 1 else 0 else dno.
Proof.
  unfold find_dno, listed. cbn [token token_npa token_npa_nxx token_npa_nxx_x prehash].
  rewrite !search_lookup. destruct (dno =? 0) eqn:E; [|by rewrite !E].
  repeat (case_bool_decide; cbn [Z.eqb orb]; try done).
Qed.

Lemma getDNOs_ok `{Folly, Flags, !FlagsOk} d pn dno : length dno = length pn →
  getDNOs d pn dno = Ok (zip_with (λ k o, if o =? 0 then if listed d k then 1 else 0 else o) pn dno).
Proof.
  intros Hl. unfold getDNOs. rewrite batch_ok; [|apply dno_pos|done]. f_equal.
  apply zip_with_ext; [|done..]. intros k o. apply find_dno_listed.
Qed.

#[export] Instance dno_batch `{Folly, Flags, !FlagsOk} : BatchMapping Data Z := {
  getMany := getDNOs;
  answer d k o := if o =? 0 then if listed d k then 1 else 0 else o;
  getMany_answer := getDNOs_ok;
}.
