(* ===== verification/LergMapping.v ===== *)
(** * Routing guide data (LergMapping.h, LergMapping.cpp)

    Two dictionaries: thousands blocks (NPA-NXX-X), which are searched first, and
    exchanges (NPA-NXX). *)

From stdpp Require Import strings.
From S2P Require Export BatchMapping.

Record LergData := MkLergData {
  lerg_key : Z; state : list Z; company : list Z; ocn : list Z;
  rate_center : list Z; ocn_type : list Z; lata : list Z; country : list Z }.

(** What an entry of an array is when it is resized. *)
Definition no_lerg : LergData := MkLergData 0 [] [] [] [] [] [] [].

Section LergMapping.
Context `{Folly, Flags}.

Record Data := MkData {
meta : dynamic;
dic_npa_nxx_x : F14ValueMap LergData;
dic_npa_nxx : F14ValueMap LergData;
pnColumn : list PhoneList;
lergIndex : list PhoneList;
}.

Record tokens := Tokens { token_npa_nxx_x : F14HashToken; token_npa_nxx : F14HashToken }.

Definition prehash (d : Data) (pn : Z) : tokens :=
let npa_nxx_x := pn / 1000 in
Tokens (f14_prehash (dic_npa_nxx_x d) npa_nxx_x) (f14_prehash (dic_npa_nxx d) (npa_nxx_x / 10)).

Definition set_lerg_key (o : LergData) (v : Z) : LergData :=
MkLergData v (state o) (company o) (ocn o) (rate_center o) (ocn_type o) (lata o) (country o).

Definition find_lerg (d : Data) (t : tokens) (pn : Z) (lerg : LergData) : LergData :=
let npa_nxx_x := pn / 1000 in
let lerg := match f14_find (dic_npa_nxx_x d) (token_npa_nxx_x t) npa_nxx_x with
            | Some data => data | None => set_lerg_key lerg 0 end in
if lerg_key lerg =? 0 then
  match f14_find (dic_npa_nxx d) (token_npa_nxx t) (npa_nxx_x / 10) with
  | Some data => data | None => set_lerg_key lerg 0 end
else lerg.

Definition getLergs (d : Data) (pn : list Z) (lerg : list LergData) : res (list LergData) :=
batch FLAGS_lerg_f14map_prefetch (prehash d) (find_lerg d) pn lerg.

Definition getLerg (d : Data) (pn : Z) : res LergData :=
lerg ← getLergs d [pn] [no_lerg]; vget lerg 0.

Definition size (d : Data) : Z := vsize (pnColumn d).

Definition new_data : Data := MkData dynamic_null f14_empty f14_empty [] [].

Definition setMetadata (b : Data) (meta : dynamic) : Data :=
MkData meta (dic_npa_nxx_x b) (dic_npa_nxx b) (pnColumn b) (lergIndex b).

(** The columns of a row, as they are ([f = id]) or with a blank for an empty one. *)
Definition lerg_data (f : list Z → list Z) (lerg_key : Z) (rowbuf : list (list Z)) : res LergData :=
state ← vget rowbuf 3; company ← vget rowbuf 4; ocn ← vget rowbuf 5;
rate_center ← vget rowbuf 6; ocn_type ← vget rowbuf 7; lata ← vget rowbuf 8; country ← vget rowbuf 9;
mret (MkLergData lerg_key (f state) (f company) (f ocn) (f rate_center) (f ocn_type) (f lata) (f country)).

Definition blank_empty (s : list Z) : list Z := match s with [] => chars " " | _ => s end.

Definition check_row {V} (b : Data) (m : F14ValueMap V) (lerg_key : Z) : throws unit :=
if f14_count m lerg_key then throw (runtime_error "LergMapping::Builder: duplicate key") else
if MAXROWS <=? vsize (pnColumn b) then throw (runtime_error "LergMapping::Builder: too much rows") else
ret tt.

Definition push_row (b : Data) (dic_npa_nxx_x dic_npa_nxx : F14ValueMap LergData) (lerg_key : Z) : Data :=
MkData (meta b) dic_npa_nxx_x dic_npa_nxx
  (pnColumn b ++ [mkPhoneList lerg_key MAXROWS]) (lergIndex b ++ [mkPhoneList lerg_key MAXROWS]).

Definition addRow (b : Data) (rowbuf : list (list Z)) : throws Data :=
npa ←? lift (vget rowbuf 0);
nxx ←? lift (vget rowbuf 1);
x ←? lift (vget rowbuf 2);
if list_eqb x [] then
  npa ←? stoll npa; nxx ←? stoll nxx;
  hi ←? llong (npa * 1000); key ←? llong (hi + nxx); let key := u64 key in
  _ ←? check_row b (dic_npa_nxx b) key;
  data ←? lift (lerg_data id key rowbuf);
  ret (push_row b (dic_npa_nxx_x b) (f14_emplace (dic_npa_nxx b) key data) key)
else
  npa ←? stoll npa; nxx ←? stoll nxx; x ←? stoll x;
  hi ←? llong (npa * 10000); mid ←? llong (nxx * 10); sum ←? llong (hi + mid);
  key ←? llong (sum + x); let key := u64 key in
  _ ←? check_row b (dic_npa_nxx_x b) key;
  data ←? lift (lerg_data blank_empty key rowbuf);
  ret (push_row b (f14_emplace (dic_npa_nxx_x b) key data) (dic_npa_nxx b) key).

Definition deleteCharacter (input : list Z) (character : Z) : list Z := delete_char input character.

Definition csv_line (b : Data) (linebuf : list Z) : throws Data :=
if negb (first_digit linebuf) then ret b else
let parts := getlines (ch ",") linebuf in
if vsize parts =? 10 then addRow b parts
else throw (runtime_error "bad number of columns").

Definition fromCSV (b : Data) (in_ : istream) (line : Z) (limit : nat) : throws (Data * istream * Z) :=
csv_rows csv_line b in_ line limit.

Definition build (b : Data) : res Data :=
'(pnColumn, lergIndex) ← build_index (pnColumn b) (lergIndex b);
mret (MkData (meta b) (dic_npa_nxx_x b) (dic_npa_nxx b) pnColumn lergIndex).
End LergMapping.

(** The entry for a number: that of its thousands block, or of its exchange. *)
Definition lerg_answer `{Folly} (d : Data) (pn : Z) (o : LergData) : LergData :=
  let block := f14_lookup (dic_npa_nxx_x d) (pn / 1000) in
  let o := default (set_lerg_key o 0) block in
  if lerg_key o =? 0 then default (set_lerg_key o 0) (f14_lookup (dic_npa_nxx d) (pn / 10000)) else o.

Lemma find_lerg_answer `{Folly} d pn o : find_lerg d (prehash d pn) pn o = lerg_answer d pn o.
Proof.
  unfold find_lerg, lerg_answer, prehash. cbn [token_npa_nxx token_npa_nxx_x].
  assert (E : pn / 1000 / 10 = pn / 10000) by (rewrite Z.div_div by lia; done). rewrite E.
  fold (f14_lookup (dic_npa_nxx_x d) (pn / 1000)) (f14_lookup (dic_npa_nxx d) (pn / 10000)). done.
Qed.

Lemma getLergs_ok `{Folly, Flags, !FlagsOk} d pns out : length out = length pns →
  getLergs d pns out = Ok (zip_with (lerg_answer d) pns out).
Proof.
  intros Hl. unfold getLergs. rewrite batch_ok; [|apply lerg_pos|done]. f_equal.
  apply zip_with_ext; [|done..]. intros. apply find_lerg_answer.
Qed.

#[export] Instance lerg_batch `{Folly, Flags, !FlagsOk} : BatchMapping Data LergData := {
  getMany := getLergs;
  answer := lerg_answer;
  getMany_answer := getLergs_ok;
}.
