(* ===== verification/YoumailMapping.v ===== *)
(** * Spam scores (YoumailMapping.h, YoumailMapping.cpp) *)

From stdpp Require Import strings.
From S2P Require Export BatchMapping.

Record YoumailData := MkYoumailData { youmail_pn : Z; sapmscore : list Z; fraudprobability : list Z; unlawful : list Z; tcpafraud : list Z }.

(** What an entry of an array is when it is resized. *)
Definition no_youmail : YoumailData := MkYoumailData 0 [] [] [] [].

Section YoumailMapping.
Context `{Folly, Flags}.

Record Data := MkData {
meta : dynamic;
dict : F14ValueMap YoumailData;
pnColumn : list PhoneList;
youmailIndex : list PhoneList;
}.

(** A number that is not found sets only the first field of its entry. *)
Definition set_youmail_pn (o : YoumailData) (v : Z) : YoumailData :=
MkYoumailData v (sapmscore o) (fraudprobability o) (unlawful o) (tcpafraud o).

Definition getYoumails (d : Data) (pn : list Z) (youmail : list YoumailData) : res (list YoumailData) :=
batch FLAGS_youmail_f14map_prefetch (λ pn, f14_prehash (dict d) pn)
  (λ token pn o, match f14_find (dict d) token pn with Some data => data | None => set_youmail_pn o 0 end)
  pn youmail.

Definition getYoumail (d : Data) (pn : Z) : res YoumailData :=
youmail ← getYoumails d [pn] [no_youmail]; vget youmail 0.

Definition size (d : Data) : Z := vsize (pnColumn d).

Definition new_data : Data := MkData dynamic_null f14_empty [] [].

Definition setMetadata (b : Data) (meta : dynamic) : Data :=
MkData meta (dict b) (pnColumn b) (youmailIndex b).

(** [s.find(w)] and [s.erase(found, w.length())], once. *)
Fixpoint erase_first (w s : list Z) : list Z :=
if prefixb w s then drop (length w) s else
match s with c :: s => c :: erase_first w s | [] => [] end.

Definition addRow (b : Data) (rowbuf : list (list Z)) : throws Data :=
phoneNumberStr ←? lift (vget rowbuf 0);
let phoneNumberStr := erase_first (chars "+1") phoneNumberStr in
pn ←? stoll phoneNumberStr; let pn := u64 pn in
if f14_count (dict b) pn then throw (runtime_error "YoumailMapping::Builder: duplicate key") else
if MAXROWS <=? vsize (pnColumn b) then throw (runtime_error "YoumailMapping::Builder: too much rows") else
sapmscore ←? lift (vget rowbuf 1);
fraudprobability ←? lift (vget rowbuf 2);
unlawful ←? lift (vget rowbuf 3);
tcpafraud ←? (if vsize rowbuf =? 4 then ret [] else lift (vget rowbuf 4));
let data := MkYoumailData pn sapmscore fraudprobability unlawful tcpafraud in
ret (MkData (meta b) (f14_emplace (dict b) pn data)
       (pnColumn b ++ [mkPhoneList pn MAXROWS]) (youmailIndex b ++ [mkPhoneList pn MAXROWS])).

Definition deleteCharacter (input : list Z) (character : Z) : list Z := delete_char input character.

Definition csv_line (b : Data) (linebuf : list Z) : throws Data :=
if negb (list_eqb (take 1 linebuf) (chars "+")) then ret b else
let parts := getlines (ch ",") linebuf in
if vsize parts =? 5 then addRow b parts
else if (vsize parts =? 4) && list_eqb (take 1 (rev linebuf)) (chars ",") then addRow b parts
else throw (runtime_error "bad number of columns").

Definition fromCSV (b : Data) (in_ : istream) (line : Z) (limit : nat) : throws (Data * istream * Z) :=
csv_rows csv_line b in_ line limit.

Definition build (b : Data) : res Data :=
'(pnColumn, youmailIndex) ← build_index (pnColumn b) (youmailIndex b);
mret (MkData (meta b) (dict b) pnColumn youmailIndex).
End YoumailMapping.

Lemma getYoumails_ok `{Folly, Flags, !FlagsOk} d pns out : length out = length pns →
  getYoumails d pns out =
  Ok (zip_with (λ pn o, match f14_lookup (dict d) pn with Some data => data | None => set_youmail_pn o 0 end) pns out).
Proof. intros Hl. unfold getYoumails. rewrite batch_ok; [done|apply youmail_pos|done]. Qed.

#[export] Instance youmail_batch `{Folly, Flags, !FlagsOk} : BatchMapping Data YoumailData := {
  getMany := getYoumails;
  answer d pn o := match f14_lookup (dict d) pn with Some data => data | None => set_youmail_pn o 0 end;
  getMany_answer := getYoumails_ok;
}.
