(* ===== verification/GeoMapping.v ===== *)
(** * Places of area codes and exchanges (GeoMapping.h, GeoMapping.cpp) *)

From stdpp Require Import strings.
From S2P Require Export BatchMapping.

Record GeoData := MkGeoData { geo_npanxx : Z; zipcode : list Z; county : list Z; city : list Z; latitude : list Z; longitude : list Z; timezone : list Z }.

(** What an entry of an array is when it is resized. *)
Definition no_geo : GeoData := MkGeoData 0 [] [] [] [] [] [].

Section GeoMapping.
Context `{Folly, Flags}.

Record Data := MkData {
meta : dynamic;
dict : F14ValueMap GeoData;
pnColumn : list PhoneList;
geoIndex : list PhoneList;
}.

(** A number that is not found sets only the first field of its entry. *)
Definition set_geo_npanxx (o : GeoData) (v : Z) : GeoData :=
MkGeoData v (zipcode o) (county o) (city o) (latitude o) (longitude o) (timezone o).

Definition getGeos (d : Data) (pn : list Z) (geo : list GeoData) : res (list GeoData) :=
batch FLAGS_geo_f14map_prefetch (λ pn, f14_prehash (dict d) (pn / 10000))
  (λ token pn o, match f14_find (dict d) token (pn / 10000) with Some data => data | None => set_geo_npanxx o 0 end)
  pn geo.

Definition getGeo (d : Data) (pn : Z) : res GeoData :=
geo ← getGeos d [pn] [no_geo]; vget geo 0.

Definition size (d : Data) : Z := vsize (pnColumn d).

Definition new_data : Data := MkData dynamic_null f14_empty [] [].

Definition setMetadata (b : Data) (meta : dynamic) : Data :=
MkData meta (dict b) (pnColumn b) (geoIndex b).

Definition addRow (b : Data) (rowbuf : list (list Z)) : throws Data :=
phoneNumberStr ←? lift (vget rowbuf 0);
npanxx ←? stoll phoneNumberStr; let npanxx := u64 npanxx in
if f14_count (dict b) npanxx then throw (runtime_error "GeoMapping::Builder: duplicate key") else
if MAXROWS <=? vsize (pnColumn b) then throw (runtime_error "GeoMapping::Builder: too much rows") else
zipcode ←? lift (vget rowbuf 1);
county ←? lift (vget rowbuf 10);
city ←? lift (vget rowbuf 6);
latitude ←? lift (vget rowbuf 9);
longitude ←? lift (vget rowbuf 11);
timezone ←? lift (vget rowbuf 19);
let data := MkGeoData npanxx zipcode county city latitude longitude timezone in
ret (MkData (meta b) (f14_emplace (dict b) npanxx data)
       (pnColumn b ++ [mkPhoneList npanxx MAXROWS]) (geoIndex b ++ [mkPhoneList npanxx MAXROWS])).

Definition deleteCharacter (input : list Z) (character : Z) : list Z := delete_char input character.

Definition csv_line (b : Data) (linebuf : list Z) : throws Data :=
let parts := getlines (ch ",") linebuf in
if 19 <=? vsize parts then addRow b parts
else throw (runtime_error "bad number of columns").

Definition fromCSV (b : Data) (in_ : istream) (line : Z) (limit : nat) : throws (Data * istream * Z) :=
csv_rows csv_line b in_ line limit.

Definition build (b : Data) : res Data :=
'(pnColumn, geoIndex) ← build_index (pnColumn b) (geoIndex b);
mret (MkData (meta b) (dict b) pnColumn geoIndex).
End GeoMapping.

Lemma getGeos_ok `{Folly, Flags, !FlagsOk} d pns out : length out = length pns →
  getGeos d pns out =
  Ok (zip_with (λ pn o, match f14_lookup (dict d) (pn / 10000) with Some data => data | None => set_geo_npanxx o 0 end) pns out).
Proof. intros Hl. unfold getGeos. rewrite batch_ok; [done|apply geo_pos|done]. Qed.

#[export] Instance geo_batch `{Folly, Flags, !FlagsOk} : BatchMapping Data GeoData := {
  getMany := getGeos;
  answer d pn o := match f14_lookup (dict d) (pn / 10000) with Some data => data | None => set_geo_npanxx o 0 end;
  getMany_answer := getGeos_ok;
}.
