(* ===== verification/FtcMapping.v ===== *)
(** * Complaints (FtcMapping.h, FtcMapping.cpp) *)

From stdpp Require Import strings.
From S2P Require Export BatchMapping.

Record FtcData := MkFtcData { ftc_pn : Z; last_ftc_on : list Z; first_ftc_on : list Z; ftc_count : list Z }.

(** What an entry of an array is when it is resized. *)
Definition no_ftc : FtcData := MkFtcData 0 [] [] [].

Section FtcMapping.
Context `{Folly, Flags}.

Record Data := MkData {
meta : dynamic;
dict : F14ValueMap FtcData;
pnColumn : list PhoneList;
FtcIndex : list PhoneList;
}.

(** A number that is not found sets only the first field of its entry. *)
Definition set_ftc_pn (o : FtcData) (v : Z) : FtcData :=
MkFtcData v (last_ftc_on o) (first_ftc_on o) (ftc_count o).

Definition getFtcs (d : Data) (pn : list Z) (ftc : list FtcData) : res (list FtcData) :=
batch FLAGS_ftc_f14map_prefetch (λ pn, f14_prehash (dict d) pn)
  (λ token pn o, match f14_find (dict d) token pn with Some data => data | None => set_ftc_pn o 0 end)
  pn ftc.

Definition getFtc (d : Data) (pn : Z) : res FtcData :=
ftc ← getFtcs d [pn] [no_ftc]; vget ftc 0.

Definition size (d : Data) : Z := vsize (pnColumn d).

Definition new_data : Data := MkData dynamic_null f14_empty [] [].

Definition setMetadata (b : Data) (meta : dynamic) : Data :=
MkData meta (dict b) (pnColumn b) (FtcIndex b).

Definition addRow (b : Data) (rowbuf : list (list Z)) : throws Data :=
phoneNumberStr ←? lift (vget rowbuf 1);
pn ←? stoll phoneNumberStr; let pn := u64 pn in
if f14_count (dict b) pn then throw (runtime_error "FtcMapping::Builder: duplicate key") else
if MAXROWS <=? vsize (pnColumn b) then throw (runtime_error "FtcMapping::Builder: too much rows") else
first_ftc_on ←? lift (vget rowbuf 2);
last_ftc_on ←? lift (vget rowbuf 3);
ftc_count ←? lift (vget rowbuf 5);
let data := MkFtcData pn last_ftc_on first_ftc_on ftc_count in
ret (MkData (meta b) (f14_emplace (dict b) pn data)
       (pnColumn b ++ [mkPhoneList pn MAXROWS]) (FtcIndex b ++ [mkPhoneList pn MAXROWS])).

Definition deleteCharacter (input : list Z) (character : Z) : list Z := delete_char input character.

Definition csv_line (b : Data) (linebuf : list Z) : throws Data :=
let parts := getlines (ch ",") linebuf in
if negb (first_digit linebuf) then ret b else
if 5 <=? vsize parts then addRow b parts
else throw (runtime_error "bad number of columns").

Definition fromCSV (b : Data) (in_ : istream) (line : Z) (limit : nat) : throws (Data * istream * Z) :=
csv_rows csv_line b in_ line limit.

Definition build (b : Data) : res Data :=
'(pnColumn, FtcIndex) ← build_index (pnColumn b) (FtcIndex b);
mret (MkData (meta b) (dict b) pnColumn FtcIndex).
End FtcMapping.

Lemma getFtcs_ok `{Folly, Flags, !FlagsOk} d pns out : length out = length pns →
  getFtcs d pns out =
  Ok (zip_with (λ pn o, match f14_lookup (dict d) pn with Some data => data | None => set_ftc_pn o 0 end) pns out).
Proof. intros Hl. unfold getFtcs. rewrite batch_ok; [done|apply ftc_pos|done]. Qed.

#[export] Instance ftc_batch `{Folly, Flags, !FlagsOk} : BatchMapping Data FtcData := {
  getMany := getFtcs;
  answer d pn o := match f14_lookup (dict d) pn with Some data => data | None => set_ftc_pn o 0 end;
  getMany_answer := getFtcs_ok;
}.
