(* ===== verification/F404Mapping.v ===== *)
(** * Calls that failed with 404 (F404Mapping.h, F404Mapping.cpp) *)

From stdpp Require Import strings.
From S2P Require Export BatchMapping.

Record F404Data := MkF404Data { F404_pn : Z; last_F404_on : list Z; first_F404_on : list Z }.

(** What an entry of an array is when it is resized. *)
Definition no_f404 : F404Data := MkF404Data 0 [] [].

Section F404Mapping.
Context `{Folly, Flags}.

Record Data := MkData {
meta : dynamic;
dict : F14ValueMap F404Data;
pnColumn : list PhoneList;
F404Index : list PhoneList;
}.

(** A number that is not found sets only the first field of its entry. *)
Definition set_F404_pn (o : F404Data) (v : Z) : F404Data :=
MkF404Data v (last_F404_on o) (first_F404_on o).

Definition getF404s (d : Data) (pn : list Z) (f404 : list F404Data) : res (list F404Data) :=
batch FLAGS_F404_f14map_prefetch (λ pn, f14_prehash (dict d) pn)
  (λ token pn o, match f14_find (dict d) token pn with Some data => data | None => set_F404_pn o 0 end)
  pn f404.

Definition getF404 (d : Data) (pn : Z) : res F404Data :=
f404 ← getF404s d [pn] [no_f404]; vget f404 0.

Definition size (d : Data) : Z := vsize (pnColumn d).

Definition new_data : Data := MkData dynamic_null f14_empty [] [].

Definition setMetadata (b : Data) (meta : dynamic) : Data :=
MkData meta (dict b) (pnColumn b) (F404Index b).

Definition addRow (b : Data) (rowbuf : list (list Z)) : throws Data :=
phoneNumberStr ←? lift (vget rowbuf 0);
phoneNumberStr ←? (match phoneNumberStr with _ :: s => ret s | [] => throw out_of_range end);
pn ←? stoll phoneNumberStr; let pn := u64 pn in
if f14_count (dict b) pn then throw (runtime_error "F404Mapping::Builder: duplicate key") else
if MAXROWS <=? vsize (pnColumn b) then throw (runtime_error "F404Mapping::Builder: too much rows") else
first_F404_on ←? lift (vget rowbuf 1);
last_F404_on ←? lift (vget rowbuf 2);
let data := MkF404Data pn last_F404_on first_F404_on in
ret (MkData (meta b) (f14_emplace (dict b) pn data)
       (pnColumn b ++ [mkPhoneList pn MAXROWS]) (F404Index b ++ [mkPhoneList pn MAXROWS])).

Definition deleteCharacter (input : list Z) (character : Z) : list Z := delete_char input character.

Definition csv_line (b : Data) (linebuf : list Z) : throws Data :=
let parts := getlines (ch ",") linebuf in
if negb (first_digit linebuf) then ret b else
if 3 <=? vsize parts then addRow b parts
else throw (runtime_error "bad number of columns").

Definition fromCSV (b : Data) (in_ : istream) (line : Z) (limit : nat) : throws (Data * istream * Z) :=
csv_rows csv_line b in_ line limit.

Definition build (b : Data) : res Data :=
'(pnColumn, F404Index) ← build_index (pnColumn b) (F404Index b);
mret (MkData (meta b) (dict b) pnColumn F404Index).
End F404Mapping.

Lemma getF404s_ok `{Folly, Flags, !FlagsOk} d pns out : length out = length pns →
  getF404s d pns out =
  Ok (zip_with (λ pn o, match f14_lookup (dict d) pn with Some data => data | None => set_F404_pn o 0 end) pns out).
Proof. intros Hl. unfold getF404s. rewrite batch_ok; [done|apply F404_pos|done]. Qed.

#[export] Instance f404_batch `{Folly, Flags, !FlagsOk} : BatchMapping Data F404Data := {
  getMany := getF404s;
  answer d pn o := match f14_lookup (dict d) pn with Some data => data | None => set_F404_pn o 0 end;
  getMany_answer := getF404s_ok;
}.
