(* ===== verification/F606Mapping.v ===== *)
(** * Calls that failed with 6xx (F606Mapping.h, F606Mapping.cpp) *)

From stdpp Require Import strings.
From S2P Require Export BatchMapping.

Record F606Data := MkF606Data { F606_pn : Z; last_F606_on : list Z; first_F606_on : list Z }.

(** What an entry of an array is when it is resized. *)
Definition no_f606 : F606Data := MkF606Data 0 [] [].

Section F606Mapping.
Context `{Folly, Flags}.

Record Data := MkData {
meta : dynamic;
dict : F14ValueMap F606Data;
pnColumn : list PhoneList;
F606Index : list PhoneList;
}.

(** A number that is not found sets only the first field of its entry. *)
Definition set_F606_pn (o : F606Data) (v : Z) : F606Data :=
MkF606Data v (last_F606_on o) (first_F606_on o).

Definition getF606s (d : Data) (pn : list Z) (f606 : list F606Data) : res (list F606Data) :=
batch FLAGS_F606_f14map_prefetch (λ pn, f14_prehash (dict d) pn)
  (λ token pn o, match f14_find (dict d) token pn with Some data => data | None => set_F606_pn o 0 end)
  pn f606.

Definition getF606 (d : Data) (pn : Z) : res F606Data :=
f606 ← getF606s d [pn] [no_f606]; vget f606 0.

Definition size (d : Data) : Z := vsize (pnColumn d).

Definition new_data : Data := MkData dynamic_null f14_empty [] [].

Definition setMetadata (b : Data) (meta : dynamic) : Data :=
MkData meta (dict b) (pnColumn b) (F606Index b).

Definition addRow (b : Data) (rowbuf : list (list Z)) : throws Data :=
phoneNumberStr ←? lift (vget rowbuf 0);
phoneNumberStr ←? (match phoneNumberStr with _ :: s => ret s | [] => throw out_of_range end);
pn ←? stoll phoneNumberStr; let pn := u64 pn in
if f14_count (dict b) pn then throw (runtime_error "F606Mapping::Builder: duplicate key") else
if MAXROWS <=? vsize (pnColumn b) then throw (runtime_error "F606Mapping::Builder: too much rows") else
first_F606_on ←? lift (vget rowbuf 1);
last_F606_on ←? lift (vget rowbuf 2);
let data := MkF606Data pn last_F606_on first_F606_on in
ret (MkData (meta b) (f14_emplace (dict b) pn data)
       (pnColumn b ++ [mkPhoneList pn MAXROWS]) (F606Index b ++ [mkPhoneList pn MAXROWS])).

Definition deleteCharacter (input : list Z) (character : Z) : list Z := delete_char input character.

Definition csv_line (b : Data) (linebuf : list Z) : throws Data :=
let parts := getlines (ch ",") linebuf in
if negb (first_digit linebuf) then ret b else
if 3 <=? vsize parts then addRow b parts
else throw (runtime_error "bad number of columns").

Definition fromCSV (b : Data) (in_ : istream) (line : Z) (limit : nat) : throws (Data * istream * Z) :=
csv_rows csv_line b in_ line limit.

Definition build (b : Data) : res Data :=
'(pnColumn, F606Index) ← build_index (pnColumn b) (F606Index b);
mret (MkData (meta b) (dict b) pnColumn F606Index).
End F606Mapping.

Lemma getF606s_ok `{Folly, Flags, !FlagsOk} d pns out : length out = length pns →
  getF606s d pns out =
  Ok (zip_with (λ pn o, match f14_lookup (dict d) pn with Some data => data | None => set_F606_pn o 0 end) pns out).
Proof. intros Hl. unfold getF606s. rewrite batch_ok; [done|apply F606_pos|done]. Qed.

#[export] Instance f606_batch `{Folly, Flags, !FlagsOk} : BatchMapping Data F606Data := {
  getMany := getF606s;
  answer d pn o := match f14_lookup (dict d) pn with Some data => data | None => set_F606_pn o 0 end;
  getMany_answer := getF606s_ok;
}.
