(* ===== verification/ACL.v ===== *)
(** * Access control (ACL.h, ACL.cpp)

    Who may send calls, and how many.  The clock, the time zone and the parser of
    dates of the C library are parameters ([get_time], [mktime]); the token
    buckets are those of folly. *)

From stdpp Require Import strings.
From S2P Require Export Folly.

Class Clock := {
  (** [ss >> std::get_time(&tm, "%Y-%m-%d %H:%M:%S")] and [std::mktime(&tm)]; the
      [tm] is not looked at. *)
  tm : Type;
  get_time : list Z → option tm;
  mktime : tm → Z;
}.

(** A clock for evaluating the model. *)
#[export] Instance clock_model : Clock := {
  tm := Z;
  get_time s := Some (decimal s);
  mktime t := t;
}.

Section ACL.
Context `{Folly, Clock}.

Record Rule := MkRule { created : Z; expire : option Z; callBudget : TokenBucket }.

Definition new_rule : Rule := MkRule 0 None default_bucket.

(** [std::unordered_map<IPAddress, Rule>]. *)
Definition Data : Type := list (IPAddress * Rule).

Definition origin_find (d : Data) (peer : IPAddress) : option Rule :=
snd <$> find (λ e, bool_decide (e.1 = peer)) d.

Fixpoint origin_set (d : Data) (peer : IPAddress) (r : Rule) : Data :=
match d with
| [] => [(peer, r)]
| e :: d => if bool_decide (e.1 = peer) then (peer, r) :: d else e :: origin_set d peer r
end.

(** [ACL::isCallAllowed] at the time [now]: the status, and the rules with the
  token taken. *)
Definition isCallAllowed (data_ : option Data) (now : Z) (peer : IPAddress) : Z * option Data :=
match data_ with
| None => (401, None)
| Some d =>
    match origin_find d peer with
    | None => (401, Some d)
    | Some rule =>
        if match expire rule with Some e => e <=? now | None => false end then (401, Some d) else
        let (ok, b) := bucket_consume (callBudget rule) now 1 in
        (if ok : bool then 200 else 429, Some (origin_set d peer (MkRule (created rule) (expire rule) b)))
    end
end.

Definition parsePostgresTime (value : list Z) : throws Z :=
match get_time value with Some t => ret (mktime t) | None => throw ios_failure end.

(** One row; [rule] is the variable that is used for all of them. *)
Definition acl_row (s : Data * Rule) (row : list (list Z)) : throws (Data * Rule) :=
let (data, rule) := s in
match row with
| [c0; c1; c2; c3] =>
    created ←? (if list_eqb c1 [] then ret (created rule) else parsePostgresTime c1);
    expire ←? (if list_eqb c2 [] then ret (expire rule) else t ←? parsePostgresTime c2; ret (Some t));
    let callBudget := match tryTo_double c3 with
                      | Some cps => bucket_reset (callBudget rule) cps (max_one cps)
                      | None => callBudget rule
                      end in
    match IPAddress_parse c0 with
    | None => throw conversion_error
    | Some peer => ret (origin_set data peer (MkRule created expire callBudget),
                        MkRule created (optional_moved expire) callBudget)
    end
| _ => throw (runtime_error "bad number of columns")
end.

(** [while (in.peek() != EOF)]; [fuel] bounds the lines. *)
Fixpoint acl_rows (fuel : nat) (s : Data * Rule) (in_ : istream) (line : Z) : throws (Data * Z) :=
match fuel with
| O => OutOfFuel
| S fuel =>
    '(c, in_) ←? peek in_;
    match c with
    | None => ret (s.1, line)
    | Some _ =>
        '(linebuf, in_) ←? getline in_;
        s ←? acl_row s (pieces (ch ",") linebuf);
        acl_rows fuel s in_ (line + 1)
    end
end.

Definition fromCSV (contents : list Z) : throws (Data * Z) :=
acl_rows (S (length contents)) ([], new_rule) (open_stream contents) 0.
End ACL.

(** ** Who is answered what *)
Section facts.
Context `{Folly, Clock}.

Lemma origin_find_set d peer r p :
origin_find (origin_set d peer r) p = if bool_decide (p = peer) then Some r else origin_find d p.
Proof.
unfold origin_find. induction d as [|e d IH]; cbn.
- rewrite (bool_decide_ext (peer = p) (p = peer)) by (split; congruence). by case_bool_decide.
- destruct (decide (e.1 = peer)) as [E|Hne]; cbn.
  + rewrite bool_decide_eq_true_2 by done. cbn.
    rewrite (bool_decide_ext (peer = p) (p = peer)) by (split; congruence). case_bool_decide as Hp; [done|].
    rewrite (bool_decide_eq_false_2 (e.1 = p)) by congruence. done.
  + rewrite (bool_decide_eq_false_2 (e.1 = peer)) by done. cbn.
    destruct (decide (e.1 = p)) as [<-|Hp].
    * rewrite (bool_decide_eq_true_2 (e.1 = e.1)), (bool_decide_eq_false_2 (e.1 = peer)) by done. done.
    * rewrite (bool_decide_eq_false_2 (e.1 = p)) by done. exact IH.
Qed.

(** C27: a peer is answered 401 unless there is a rule for it that has not
  expired, 200 when its bucket has a token left, and 429 otherwise; the call
  takes a token from its own bucket and leaves every other rule alone. *)
Theorem isCallAllowed_decision (acl : option Data) (now : Z) (peer : IPAddress) :
let (status, acl') := isCallAllowed acl now peer in
match acl ≫= λ d, origin_find d peer with
| None => status = 401 ∧ acl' = acl
| Some rule =>
    (∃ e, expire rule = Some e ∧ e ≤ now ∧ status = 401 ∧ acl' = acl) ∨
    ((∀ e, expire rule = Some e → now < e) ∧
     let (ok, b) := bucket_consume (callBudget rule) now 1 in
     status = (if ok then 200 else 429) ∧
     ∃ d', acl' = Some d' ∧ ∀ p, origin_find d' p =
       if bool_decide (p = peer) then Some (MkRule (created rule) (expire rule) b)
       else acl ≫= λ d, origin_find d p)
end.
Proof.
unfold isCallAllowed. destruct acl as [d|]; cbn [mbind option_bind]; [|done].
destruct (origin_find d peer) as [rule|]; [|done].
destruct (expire rule) as [e|] eqn:Ee.
- destruct (Z.leb_spec e now).
  + left. by exists e.
  + destruct (bucket_consume _ _ _) as [ok b]. right. split; [by intros ? [= ->]|]. split; [done|].
    eexists. split; [done|]. intros p. rewrite <- Ee. apply origin_find_set.
- destruct (bucket_consume _ _ _) as [ok b]. right. split; [done|]. split; [done|].
  eexists. split; [done|]. intros p. rewrite <- Ee. apply origin_find_set.
Qed.
End facts.
