(* ===== verification/Control.v ===== *)
(** * The control socket (Control.cpp)

    The published mappings, the loaders that replace them, and the thread that
    takes commands from the control socket.  A command runs on a thread of its
    own; it reads the published mappings at one point ([dispatch]) and replaces at
    most one of them, by an atomic exchange, at a later one ([publish]). *)

From stdpp Require Import strings relations.
From S2P Require Export PhoneTheorems ACL.
From S2P Require DncMapping.
From S2P Require DnoMapping.
From S2P Require TollFreeMapping.
From S2P Require LergMapping.
From S2P Require YoumailMapping.
From S2P Require GeoMapping.
From S2P Require FtcMapping.
From S2P Require F404Mapping.
From S2P Require F606Mapping.

Section Control.
Context `{Folly, Flags, Clock}.

(** ** The published mappings; [None] is the null pointer *)
Record globals := MkGlobals {
mappingUS : option PhoneMapping.Data;
mappingCA : option PhoneMapping.Data;
mappingDNC : option DncMapping.Data;
mappingDNO : option DnoMapping.Data;
mappingTollFree : option TollFreeMapping.Data;
currentACL : option ACL.Data;
mappingLerg : option LergMapping.Data;
mappingYoumail : option YoumailMapping.Data;
mappingGeo : option GeoMapping.Data;
mappingFtc : option FtcMapping.Data;
mapping404 : option F404Mapping.Data;
mapping606 : option F606Mapping.Data;
}.

Definition no_globals : globals :=
MkGlobals None None None None None None None None None None None None.

(** [PhoneMapping::isAvailable]. *)
Definition isAvailable (g : globals) : bool :=
match mappingUS g, mappingCA g with Some _, Some _ => true | _, _ => false end.

(** What a command exchanges. *)
Inductive update :=
| NoCommit
| CommitUS (d : PhoneMapping.Data)
| CommitCA (d : PhoneMapping.Data)
| CommitDNC (d : DncMapping.Data)
| CommitDNO (d : DnoMapping.Data)
| CommitTollFree (d : TollFreeMapping.Data)
| CommitACL (d : ACL.Data)
| CommitLerg (d : LergMapping.Data)
| CommitYoumail (d : YoumailMapping.Data)
| CommitGeo (d : GeoMapping.Data)
| CommitFtc (d : FtcMapping.Data)
| Commit404 (d : F404Mapping.Data)
| Commit606 (d : F606Mapping.Data).

(** [global.exchange(data.release())]. *)
Definition commit (u : update) (g : globals) : globals :=
let '(MkGlobals us ca dnc dno tf acl lerg ym geo ftc f404 f606) := g in
match u with
| NoCommit => g
| CommitUS d => MkGlobals (Some d) ca dnc dno tf acl lerg ym geo ftc f404 f606
| CommitCA d => MkGlobals us (Some d) dnc dno tf acl lerg ym geo ftc f404 f606
| CommitDNC d => MkGlobals us ca (Some d) dno tf acl lerg ym geo ftc f404 f606
| CommitDNO d => MkGlobals us ca dnc (Some d) tf acl lerg ym geo ftc f404 f606
| CommitTollFree d => MkGlobals us ca dnc dno (Some d) acl lerg ym geo ftc f404 f606
| CommitACL d => MkGlobals us ca dnc dno tf (Some d) lerg ym geo ftc f404 f606
| CommitLerg d => MkGlobals us ca dnc dno tf acl (Some d) ym geo ftc f404 f606
| CommitYoumail d => MkGlobals us ca dnc dno tf acl lerg (Some d) geo ftc f404 f606
| CommitGeo d => MkGlobals us ca dnc dno tf acl lerg ym (Some d) ftc f404 f606
| CommitFtc d => MkGlobals us ca dnc dno tf acl lerg ym geo (Some d) f404 f606
| Commit404 d => MkGlobals us ca dnc dno tf acl lerg ym geo ftc (Some d) f606
| Commit606 d => MkGlobals us ca dnc dno tf acl lerg ym geo ftc f404 (Some d)
end.

(** ** Files

  The contents of a descriptor that can be opened for reading through
  [/proc/self/fd], and whether it can be opened for writing. *)
Record files := MkFiles { read_fd : Z → option (list Z); write_fd : Z → bool }.

(** [in.open(path)] of a stream that throws. *)
Definition open_in (fs : files) (fd : Z) : throws (list Z) :=
match (if fd <? 0 then None else read_fd fs fd) with
| Some contents => ret contents
| None => throw ios_failure
end.

Definition open_out (fs : files) (fd : Z) : throws unit :=
if negb (fd <? 0) && write_fd fs fd then ret () else throw ios_failure.

(** [try { ... } catch (std::runtime_error &e) { return false; }]. *)
Definition catch_runtime {A} (r : throws A) : throws (option A) :=
match r with
| Ok (inl e) => if is_runtime_error e then ret None else throw e
| Ok (inr a) => ret (Some a)
| Fault p => Fault p
| OutOfFuel => OutOfFuel
end.

(** ** The loaders *)
Definition or_throw {A} (o : option A) : throws A :=
match o with Some a => ret a | None => throw conversion_error end.

Definition sizeHint (numRecords : Z) : throws unit :=
if reserve numRecords then ret () else throw bad_alloc.

(** The rows of a chunk of [fromCSV]. *)
Definition CHUNK : nat := Z.to_nat 10000.

Section load.
Context {D : Type} (new : D) (setMetadata : D → dynamic → D)
(row : D → list Z → throws D) (build : D → res D).

(** What is between [try] and [catch]. *)
Definition read_rows (fs : files) (fd estimate : Z) (meta : dynamic) : throws D :=
contents ←? open_in fs fd;
'() ←? sizeHint (u64 (estimate + Z.quot estimate 20));
'(b, nrows) ←? csv_file row CHUNK (setMetadata new meta) contents;
ret b.

(** The data that is committed, [None] where the loader returns [false]. *)
Definition load (fs : files) (fd estimate : Z) (meta : dynamic) : throws (option D) :=
b ←? catch_runtime (read_rows fs fd estimate meta);
match b with
| None => ret None
| Some b => d ←? lift (build b); ret (Some d)
end.

(** The beginning that the loaders share; [path] is the default of the name that
the log shows. *)
Definition load_mapping (publish : D → update) (fs : files) (fd : Z) (meta : dynamic) : throws (bool * update) :=
estimate ←? or_throw (getDefault_asInt meta (chars "row_estimate") 0);
name ←? or_throw (getDefault_asString meta (chars "file_name") []);
d ←? load fs fd estimate meta;
ret (match d with Some d => (true, publish d) | None => (false, NoCommit) end).
End load.

Definition loadMappingFile (fs : files) (fd : Z) (meta : dynamic) : throws (bool * update) :=
estimate ←? or_throw (getDefault_asInt meta (chars "row_estimate") 0);
name ←? or_throw (getDefault_asString meta (chars "file_name") []);
country ←? or_throw (getDefault_asString meta (chars "country") (chars "US"));
d ←? load PhoneMapping.new_data PhoneMapping.setMetadata PhoneMapping.csv_line PhoneMapping.build
       fs fd estimate meta;
ret (match d with
     | Some d => (true, if list_eqb country (chars "CA") then CommitCA d else CommitUS d)
     | None => (false, NoCommit)
     end).

Definition loadDNCMappingFile : files → Z → dynamic → throws (bool * update) :=
load_mapping DncMapping.new_data DncMapping.setMetadata DncMapping.csv_line DncMapping.build CommitDNC.

Definition loadDnoMappingFile (dnotype : string) : files → Z → dynamic → throws (bool * update) :=
load_mapping DnoMapping.new_data DnoMapping.setMetadata (DnoMapping.csv_line dnotype) DnoMapping.build CommitDNO.

Definition loadTollFreeMappingFile : files → Z → dynamic → throws (bool * update) :=
load_mapping TollFreeMapping.new_data TollFreeMapping.setMetadata TollFreeMapping.csv_line
  TollFreeMapping.build CommitTollFree.

Definition loadLergMappingFile : files → Z → dynamic → throws (bool * update) :=
load_mapping LergMapping.new_data LergMapping.setMetadata LergMapping.csv_line LergMapping.build CommitLerg.

Definition loadYoumailMappingFile : files → Z → dynamic → throws (bool * update) :=
load_mapping YoumailMapping.new_data YoumailMapping.setMetadata YoumailMapping.csv_line
  YoumailMapping.build CommitYoumail.

Definition loadGeoMappingFile : files → Z → dynamic → throws (bool * update) :=
load_mapping GeoMapping.new_data GeoMapping.setMetadata GeoMapping.csv_line GeoMapping.build CommitGeo.

Definition loadFtcMappingFile : files → Z → dynamic → throws (bool * update) :=
load_mapping FtcMapping.new_data FtcMapping.setMetadata FtcMapping.csv_line FtcMapping.build CommitFtc.

Definition load404MappingFile : files → Z → dynamic → throws (bool * update) :=
load_mapping F404Mapping.new_data F404Mapping.setMetadata F404Mapping.csv_line F404Mapping.build Commit404.

Definition load606MappingFile : files → Z → dynamic → throws (bool * update) :=
load_mapping F606Mapping.new_data F606Mapping.setMetadata F606Mapping.csv_line F606Mapping.build Commit606.

(** Here the handler catches every [std::exception]. *)
Definition loadACLFile (fs : files) (fd : Z) : throws (bool * update) :=
match (contents ←? open_in fs fd; ACL.fromCSV contents) with
| Ok (inr (data, line)) => ret (true, CommitACL data)
| Ok (inl e) => ret (false, NoCommit)
| Fault p => Fault p
| OutOfFuel => OutOfFuel
end.

(** ** Verification *)

(** The mapping of the country; dereferencing a null pointer faults. *)
Definition country_db (g : globals) (meta : dynamic) : throws (option PhoneMapping.Data) :=
country ←? or_throw (getDefault_asString meta (chars "country") (chars "US"));
ret (if list_eqb country (chars "CA") then mappingCA g else mappingUS g).

Definition deref {A} (p : option A) : throws A :=
match p with Some a => ret a | None => Fault 0 end.

(** A line; [None] where [verifyMappingFile] returns [false]. *)
Definition verify_line (db : option PhoneMapping.Data) (nrows maxdiff : Z) (linebuf : list Z) :
  throws (option (Z * Z)) :=
row ←? or_throw (split_u64 (ch ",") linebuf);
let nrows := nrows + 1 in
db ←? deref db;
pn ←? lift (vget row 0);
rn ←? lift (getRN db pn);
expected ←? lift (vget row 1);
if rn =? expected then ret (Some (nrows, maxdiff)) else
let maxdiff := maxdiff - 1 in
ret (if maxdiff =? 0 then None else Some (nrows, maxdiff)).

(** [for (size_t i = 0; i < 10000; ++i)]; the end of the file breaks. *)
Fixpoint verify_rows (db : option PhoneMapping.Data) (n : nat) (in_ : istream) (nrows maxdiff : Z) :
  throws (option (istream * Z * Z)) :=
match n with
| O => ret (Some (in_, nrows, maxdiff))
| S n =>
    '(c, in_) ←? peek in_;
    match c with
    | None => ret (Some (in_, nrows, maxdiff))
    | Some _ =>
        '(linebuf, in_) ←? getline in_;
        r ←? verify_line db nrows maxdiff linebuf;
        match r with
        | None => ret None
        | Some (nrows, maxdiff) => verify_rows db n in_ nrows maxdiff
        end
    end
end.

(** [while (in.good())]; the number of rows, or [None] for [return false]. *)
Fixpoint verify_chunks (fuel : nat) (db : option PhoneMapping.Data) (in_ : istream) (nrows maxdiff : Z) :
  throws (option Z) :=
match fuel with
| O => OutOfFuel
| S fuel =>
    if good in_ then
      r ←? verify_rows db CHUNK in_ nrows maxdiff;
      match r with
      | None => ret None
      | Some (in_, nrows, maxdiff) => verify_chunks fuel db in_ nrows maxdiff
      end
    else ret (Some nrows)
end.

Definition verifyMappingFile (g : globals) (fs : files) (fd : Z) (meta : dynamic) : throws (bool * update) :=
db ←? country_db g meta;
r ←? catch_runtime (contents ←? open_in fs fd;
       verify_chunks (S (S (length contents))) db (open_stream contents) 0 100);
match r with
| Some (Some nrows) => db ←? deref db; ret (nrows =? PhoneMapping.size db, NoCommit)
| _ => ret (false, NoCommit)
end.

(** ** Dump

  [out << db.currentPN() << "," << db.currentRN() << "\r\n"]; the chunks of the
  loop only pace the reports of progress. *)
Definition row_line (r : row) : list Z := dec r.1 ++ chars "," ++ dec r.2 ++ [CR].

Definition dumpMappingFile (g : globals) (fs : files) (fd : Z) (meta : dynamic) :
  throws (bool * option (list Z)) :=
db ←? country_db g meta;
r ←? catch_runtime ('() ←? open_out fs fd;
       db ←? deref db;
       lift (m ← visitRows (MkPhoneMapping db None); rows_of m));
ret (match r with
     | Some rows => (true, Some (line_text (map row_line rows)))
     | None => (false, None)
     end).

(** ** Commands *)

(** What is left of a command when it has run: the character of the reply, the
  exchange that it makes before it replies, what it wrote to its output, and the
  descriptors that it closes.  A command that throws does not reply, and leaves
  its descriptors open. *)
Record outcome := MkOutcome {
status : option Z;
exchange : update;
dumped : option (list Z);
closed : list Z;
}.

(** [mapfd]: its parameter is an [int], to which the [int64_t] of the message is
  converted. *)
Definition mapfd (argfd : list Z) (index : Z) : throws Z :=
let index := to_int index in if 0 <=? index then vat argfd index else ret index.

(** The chain of [else if (cmd == ...)]: the status, the exchange, the output. *)
Definition run_command (g : globals) (fs : files) (cmd : list Z) (stdin stdout : Z) (msg : dynamic) :
  throws (bool * update * option (list Z)) :=
let load r := '(ok, u) ←? r fs stdin msg; ret (ok, u, None) in
if list_eqb cmd (chars "reload") then load loadMappingFile
else if list_eqb cmd (chars "dnc_reload") then load loadDNCMappingFile
else if list_eqb cmd (chars "tollfree_reload") then load loadTollFreeMappingFile
else if list_eqb cmd (chars "dno_npa_reload") then load (loadDnoMappingFile "dno_npa")
else if list_eqb cmd (chars "dno_reload") then load (loadDnoMappingFile "dno")
else if list_eqb cmd (chars "dno_npa_nxx_reload") then load (loadDnoMappingFile "dno_npa_nxx")
else if list_eqb cmd (chars "dno_npa_nxx_x_reload") then load (loadDnoMappingFile "dno_npa_nxx_x")
else if list_eqb cmd (chars "lerg_reload") then load loadLergMappingFile
else if list_eqb cmd (chars "youmail_reload") then load loadYoumailMappingFile
else if list_eqb cmd (chars "geo_reload") then load loadGeoMappingFile
else if list_eqb cmd (chars "ftc_reload") then load loadFtcMappingFile
else if list_eqb cmd (chars "404_reload") then load load404MappingFile
else if list_eqb cmd (chars "606_reload") then load load606MappingFile
else if list_eqb cmd (chars "verify") then
  '(ok, u) ←? verifyMappingFile g fs stdin msg; ret (ok, u, None)
else if list_eqb cmd (chars "dump") then
  '(ok, out) ←? dumpMappingFile g fs stdout msg; ret (ok, NoCommit, out)
else if list_eqb cmd (chars "acl") then
  '(ok, u) ←? loadACLFile fs stdin; ret (ok, u, None)
else if list_eqb cmd (chars "meta") then ret (true, NoCommit, None)
else ret (false, NoCommit, None).

Definition erase_args (msg : dynamic) : dynamic :=
foldl dynamic_erase msg (map chars ["stdin"; "stdout"; "stderr"; "cmd"]%string).

Definition try_dispatch (g : globals) (fs : files) (msg : dynamic) (argfd : list Z) : throws outcome :=
cmd ←? or_throw (at_asString msg (chars "cmd"));
stdin ←? (i ←? or_throw (getDefault_asInt msg (chars "stdin") (-1)); mapfd argfd i);
stdout ←? (i ←? or_throw (getDefault_asInt msg (chars "stdout") (-1)); mapfd argfd i);
stderr ←? (i ←? or_throw (getDefault_asInt msg (chars "stderr") (-1)); mapfd argfd i);
'(ok, u, out) ←? run_command g fs cmd stdin stdout (erase_args msg);
ret (MkOutcome (Some (if ok : bool then ch "S" else ch "F")) u out argfd).

(** [dispatch]: the handler of the whole body catches [std::exception]. *)
Definition dispatch (g : globals) (fs : files) (msg : dynamic) (argfd : list Z) : res outcome :=
match try_dispatch g fs msg argfd with
| Ok (inr o) => Ok o
| Ok (inl e) => Ok (MkOutcome None NoCommit None [])
| Fault p => Fault p
| OutOfFuel => OutOfFuel
end.

(** ** The thread of the socket *)

(** What [recvmsg] returns: the packet, whether it has a reply address, and the
  descriptors of [SCM_RIGHTS], if it carries any. *)
Inductive packet :=
| RecvError
| Packet (namelen : Z) (body : list Z) (rights : option (list Z)).

Definition PKTBUF : nat := Z.to_nat 1500.

(** [argfd_] is a member of the thread. *)
Definition awaitMessage (argfd_ : list Z) (p : packet) : list Z * option (list Z) :=
match p with
| RecvError => (argfd_, None)
| Packet namelen body rights =>
    if namelen <=? 0 then (argfd_, None) else
    (match rights with Some fds => fds | None => argfd_ end, Some (take PKTBUF body))
end.

(** One round of [operator()]: the message and the descriptors that a thread is
  started with. *)
Definition control_round (argfd_ : list Z) (p : packet) : list Z * option (dynamic * list Z) :=
let (argfd_, body) := awaitMessage argfd_ p in
(argfd_, body ≫= λ body, msg ← parseJson body; Some (msg, argfd_)).

(** A command between its start and the point where it has read the mappings, or
  between this point and its exchange. *)
Inductive job :=
| Started (msg : dynamic) (argfd : list Z)
| Computed (o : outcome).

Record server := MkServer { vars : globals; argfd_ : list Z; jobs : list job }.

Definition initial_server : server := MkServer no_globals [] [].

(** What can be seen of a step: a packet that arrives and the command that it
  starts, a command that reads the files [fs] as they are then, with what is left
  of it, and the exchange of a command that has read. *)
Inductive event :=
| Receive (p : packet) (started : option (dynamic * list Z))
| Read (fs : files) (msg : dynamic) (argfd : list Z) (o : outcome)
| Publish (o : outcome).

(** The steps of the server; the files may change at any time, and the commands
  interleave. *)
Inductive server_event : event → server → server → Prop :=
| step_receive s p argfd started :
  control_round (argfd_ s) p = (argfd, started) →
  server_event (Receive p started) s (MkServer (vars s) argfd
    (jobs s ++ match started with Some (msg, fds) => [Started msg fds] | None => [] end))
| step_read s fs msg fds before after o :
  jobs s = before ++ Started msg fds :: after →
  dispatch (vars s) fs msg fds = Ok o →
  server_event (Read fs msg fds o) s (MkServer (vars s) (argfd_ s) (before ++ Computed o :: after))
| step_publish s before after o :
  jobs s = before ++ Computed o :: after →
  server_event (Publish o) s (MkServer (commit (exchange o) (vars s)) (argfd_ s) (before ++ after)).

Definition server_step (s s' : server) : Prop := ∃ e, server_event e s s'.

(** The runs of the server, with the trace of their events. *)
Inductive server_run : list event → server → Prop :=
| run_start : server_run [] initial_server
| run_event tr e s s' : server_run tr s → server_event e s s' → server_run (tr ++ [e]) s'.

Definition reachable : server → Prop := rtc server_step initial_server.

(** A state can be reached when a run ends in it. *)
Lemma reachable_run s : reachable s ↔ ∃ tr, server_run tr s.
Proof.
unfold reachable. split.
- revert s. apply rtc_ind_r; [exists []; constructor|].
  intros s1 s2 _ [e He] [tr IH]. exists (tr ++ [e]). by econstructor.
- intros [tr Hr]. induction Hr as [|tr e s1 s2 _ IH He]; [done|].
  eapply rtc_r; [exact IH|]. by exists e.
Qed.
End Control.
