(* ===== verification/Published.v ===== *)
(** * What the loaders publish

    A loader publishes the data of the whole file of its command, or nothing; in
    every run of the server, what is published comes from a command that was
    received, then read its file, and then made the exchange. *)

From stdpp Require Import strings gmap relations.
From S2P Require Export Control.

(** ** What a published mapping is *)

Section published.
Context `{FollyOk, Flags, Clock}.

(** The file of a command: the contents behind the descriptor that the member
  "stdin" of the message selects, as they are when the command reads. *)
Definition input_fd (msg : dynamic) (argfd : list Z) : option Z :=
i ← getDefault_asInt msg (chars "stdin") (-1);
match mapfd argfd i with Ok (inr fd) => Some fd | _ => None end.

Definition input_file (fs : files) (msg : dynamic) (argfd : list Z) : option (list Z) :=
fd ← input_fd msg argfd; if fd <? 0 then None else read_fd fs fd.

(** The data built from a whole file: the loop reads it without an error, and the
  builder was given the metadata and every line of the file, in their order. *)
Definition built {D} (new : D) (setMetadata : D → dynamic → D) (row : D → list Z → throws D)
    (build : D → res D) (meta : dynamic) (contents : list Z) (d : D) : Prop :=
  let lines := getlines LF contents in
  ∃ b, csv_file row CHUNK (setMetadata new meta) contents = ret (b, Z.of_nat (length lines)) ∧
    rows_in_turn row (setMetadata new meta) lines = ret b ∧ build b = Ok d.

(** A line of a file of phone numbers. *)
Definition phone_row (l : list Z) (r : row) : Prop := split_u64 (ch ",") l = Some [r.1; r.2].

Definition phone_file (meta : dynamic) (contents : list Z) (d : PhoneMapping.Data) : Prop :=
built new_data setMetadata csv_line build meta contents d ∧
∃ rows, Forall2 phone_row (getlines LF contents) rows ∧ represents d rows.

Definition acl_line (s : ACL.Data * Rule) (l : list Z) : throws (ACL.Data * Rule) :=
acl_row s (pieces (ch ",") l).

Definition acl_file (contents : list Z) (d : ACL.Data) : Prop :=
(∃ n, ACL.fromCSV contents = ret (d, n)) ∧
∃ rule, rows_in_turn acl_line ([], new_rule) (getlines LF contents) = ret (d, rule).

(** What a command exchanges, by its name, the rest of its message and its file. *)
Definition command_file (cmd : list Z) (meta : dynamic) (contents : list Z) (u : update) : Prop :=
match u with
| NoCommit => False
| CommitUS d => cmd = chars "reload" ∧ phone_file meta contents d ∧
    ∃ country, getDefault_asString meta (chars "country") (chars "US") = Some country ∧ country ≠ chars "CA"
| CommitCA d => cmd = chars "reload" ∧ phone_file meta contents d ∧
    getDefault_asString meta (chars "country") (chars "US") = Some (chars "CA")
| CommitDNC d => cmd = chars "dnc_reload" ∧
    built DncMapping.new_data DncMapping.setMetadata DncMapping.csv_line DncMapping.build meta contents d
| CommitDNO d => ∃ dnotype, dnotype ∈ ["dno"; "dno_npa"; "dno_npa_nxx"; "dno_npa_nxx_x"]%string ∧
    cmd = chars (dnotype ++ "_reload") ∧
    built DnoMapping.new_data DnoMapping.setMetadata (DnoMapping.csv_line dnotype) DnoMapping.build meta contents d
| CommitTollFree d => cmd = chars "tollfree_reload" ∧
    built TollFreeMapping.new_data TollFreeMapping.setMetadata TollFreeMapping.csv_line TollFreeMapping.build
      meta contents d
| CommitACL d => cmd = chars "acl" ∧ acl_file contents d
| CommitLerg d => cmd = chars "lerg_reload" ∧
    built LergMapping.new_data LergMapping.setMetadata LergMapping.csv_line LergMapping.build meta contents d
| CommitYoumail d => cmd = chars "youmail_reload" ∧
    built YoumailMapping.new_data YoumailMapping.setMetadata YoumailMapping.csv_line YoumailMapping.build
      meta contents d
| CommitGeo d => cmd = chars "geo_reload" ∧
    built GeoMapping.new_data GeoMapping.setMetadata GeoMapping.csv_line GeoMapping.build meta contents d
| CommitFtc d => cmd = chars "ftc_reload" ∧
    built FtcMapping.new_data FtcMapping.setMetadata FtcMapping.csv_line FtcMapping.build meta contents d
| Commit404 d => cmd = chars "404_reload" ∧
    built F404Mapping.new_data F404Mapping.setMetadata F404Mapping.csv_line F404Mapping.build meta contents d
| Commit606 d => cmd = chars "606_reload" ∧
    built F606Mapping.new_data F606Mapping.setMetadata F606Mapping.csv_line F606Mapping.build meta contents d
end.

(** What the message [msg] with the descriptors [argfd] exchanges when the files
  are [fs]. *)
Definition whole (fs : files) (msg : dynamic) (argfd : list Z) (u : update) : Prop :=
∃ cmd contents, at_asString msg (chars "cmd") = Some cmd ∧ input_file fs msg argfd = Some contents ∧
  command_file cmd (erase_args msg) contents u.

(** The exchanges that the published mappings come from. *)
Definition publications (g : globals) : list update :=
omap id [CommitUS <$> mappingUS g; CommitCA <$> mappingCA g; CommitDNC <$> mappingDNC g;
  CommitDNO <$> mappingDNO g; CommitTollFree <$> mappingTollFree g; CommitACL <$> currentACL g;
  CommitLerg <$> mappingLerg g; CommitYoumail <$> mappingYoumail g; CommitGeo <$> mappingGeo g;
  CommitFtc <$> mappingFtc g; Commit404 <$> mapping404 g; Commit606 <$> mapping606 g].

Lemma elem_of_some {A} (x : A) (l : list (option A)) : x ∈ omap id l ↔ Some x ∈ l.
Proof.
rewrite list_elem_of_omap. split; [by intros (o & Ho & Eo); cbn in Eo; subst|]. intros Hx. by exists (Some x).
Qed.

Lemma commit_none g : commit NoCommit g = g.
Proof. by destruct g. Qed.

(** An exchange replaces one mapping and leaves the others. *)
Lemma publications_commit u v g : v ∈ publications (commit u g) → v = u ∨ v ∈ publications g.
Proof.
destruct g. unfold publications. rewrite !elem_of_some.
destruct u; cbn; rewrite !elem_of_cons; rewrite ?(inj_iff Some); tauto.
Qed.

(** ** Loaders *)
Lemma phone_line_builds b rows l b' : builds b rows → csv_line b l = ret b' →
∃ r, phone_row l r ∧ builds b' (rows ++ [r]).
Proof.
intros Hb. unfold csv_line. destruct (split_u64 _ _) as [[|pn [|rn [|]]]|] eqn:E; try done.
rewrite (addRow_builds b rows) by done. repeat case_bool_decide; try done.
intros [= <-]. exists (pn, rn). split; [exact E|]. by apply builds_snoc.
Qed.

Lemma phone_lines_build b rows lines b' : builds b rows → rows_in_turn csv_line b lines = ret b' →
∃ rows', Forall2 phone_row lines rows' ∧ builds b' (rows ++ rows').
Proof.
revert b rows. induction lines as [|l lines IH]; intros b rows Hb; cbn [rows_in_turn].
{ intros [= <-]. exists []. by rewrite app_nil_r. }
intros (b1 & E & Hk)%tbind_ret. destruct (phone_line_builds b rows l b1 Hb E) as (r & Hr & Hb1).
destruct (IH b1 _ Hb1 Hk) as (rows' & Hrows & Hb'). exists (r :: rows'). rewrite <- app_assoc in Hb'.
split; [by constructor|done].
Qed.

Lemma built_phone meta contents d : built new_data setMetadata csv_line build meta contents d →
phone_file meta contents d.
Proof.
intros (b & Ef & Er & Eb). split; [by exists b|].
assert (Hb : builds (setMetadata new_data meta) []) by (destruct builds_new; by split).
destruct (phone_lines_build _ [] _ b Hb Er) as (rows & Hrows & Hb').
destruct (build_represents_aux b rows Hb') as (d' & Ed & Hd). rewrite Eb in Ed. injection Ed as ->.
by exists rows.
Qed.

Lemma acl_file_lines contents d n : ACL.fromCSV contents = ret (d, n) → acl_file contents d.
Proof.
intros E. split; [by exists n|]. revert E. unfold ACL.fromCSV, open_stream.
destruct (text_lines contents) as (lines & last & -> & Hl & Hlast & ->).
generalize (S (length (line_text lines ++ last))) (@nil (IPAddress * Rule), new_rule) 0. intros fuel s line.
revert fuel s line. induction Hl as [|l lines Hl _ IH]; intros [|fuel] s line; try done; cbn [acl_rows].
- cbn [line_text map concat app]. unfold peek, getline. cbn [in_eof in_rest].
  destruct last as [|c last]; cbn [tbind ret]; [intros [= <- _]; exists s.2; by destruct s|].
  cbn [in_eof in_rest]. rewrite until_end by done. cbn [tbind ret].
  intros (s' & _ & Hk)%tbind_ret. by destruct fuel.
- unfold line_text. cbn [map concat]. rewrite <- !app_assoc. unfold peek, getline. cbn [in_eof in_rest app].
  fold (line_text lines).
  assert (Hne : ∃ c k, l ++ LF :: line_text lines ++ last = c :: k) by (destruct l; cbn; eauto).
  destruct Hne as (c & k & Hne). rewrite Hne. cbn [tbind ret in_eof in_rest]. rewrite <- Hne, until_app by done.
  cbn [tbind ret rows_in_turn]. intros (s' & Es & Hk)%tbind_ret. unfold acl_line at 1. rewrite Es. by apply IH in Hk.
Qed.

(** What a loader needs of its descriptor to read it. *)
Definition readable (fs : files) (fd : Z) (contents : list Z) : Prop :=
(fd <? 0) = false ∧ read_fd fs fd = Some contents.

Lemma open_in_ret fs fd contents : open_in fs fd = ret contents → readable fs fd contents.
Proof.
unfold open_in, readable. destruct (fd <? 0); [done|]. by destruct (read_fd fs fd); [intros [= ->]|].
Qed.

Lemma load_built {D} new set row (build : D → res D) fs fd estimate meta d :
load new set row build fs fd estimate meta = ret (Some d) →
∃ contents, readable fs fd contents ∧ built new set row build meta contents d.
Proof.
unfold load. intros (o & Eo & Hk)%tbind_ret. destruct o as [b|]; [|done].
apply tbind_ret in Hk as (d' & Ed & [= ->]).
unfold catch_runtime in Eo. destruct (read_rows _ _ _ _ _ _ _) as [[e|b']|p|] eqn:Er; try done.
{ by destruct (is_runtime_error e). }
injection Eo as ->. unfold read_rows in Er. apply tbind_ret in Er as (contents & Ec & Er).
apply tbind_ret in Er as ([] & _ & Er). apply tbind_ret in Er as ([b' n] & Er & [= ->]).
exists contents. split; [by apply open_in_ret|].
destruct (csv_file_getlines _ CHUNK _ _ _ _ ltac:(unfold CHUNK; lia) Er) as [Hr ->].
exists b. split_and!; [done..|]. by destruct (build b); try done; injection Ed as ->.
Qed.

(** What a loader exchanges, and that it replies S when it does. *)
Definition loaded (fs : files) (fd : Z) (cmd : list Z) (meta : dynamic) (ok : bool) (u : update) : Prop :=
(ok = false ∧ u = NoCommit) ∨
(ok = true ∧ ∃ contents, readable fs fd contents ∧ command_file cmd meta contents u).

Lemma load_mapping_loaded {D} new set row (build : D → res D) publish fs fd cmd meta ok u :
(∀ contents d, built new set row build meta contents d → command_file cmd meta contents (publish d)) →
load_mapping new set row build publish fs fd meta = ret (ok, u) → loaded fs fd cmd meta ok u.
Proof.
intros Hp. unfold load_mapping. intros (e & _ & Hk)%tbind_ret.
apply tbind_ret in Hk as (name & _ & Hk). apply tbind_ret in Hk as (o & Eo & Hk).
destruct o as [d|]; injection Hk as <- <-; [right|by left]. apply load_built in Eo as (contents & Hc & Hb). eauto.
Qed.

Lemma loadMappingFile_loaded fs fd meta ok u : loadMappingFile fs fd meta = ret (ok, u) →
loaded fs fd (chars "reload") meta ok u.
Proof.
unfold loadMappingFile. intros (e & _ & Hk)%tbind_ret. apply tbind_ret in Hk as (name & _ & Hk).
apply tbind_ret in Hk as (country & Ec & Hk). apply tbind_ret in Hk as (o & Eo & Hk).
assert (Hc : getDefault_asString meta (chars "country") (chars "US") = Some country).
{ unfold or_throw in Ec. by destruct (getDefault_asString _ _ _); [injection Ec as ->|]. }
destruct o as [d|]; [right|left; by injection Hk as <- <-].
apply load_built in Eo as (contents & Hr & Hb%built_phone).
destruct (list_eqb country (chars "CA")) eqn:Eca; injection Hk as <- <-; (split; [done|]); exists contents; (split; [done|]).
- apply list_eqb_spec in Eca as ->. done.
- split_and!; [done..|]. exists country. split; [done|]. intros ->. by rewrite (proj2 (list_eqb_spec _ _) eq_refl) in Eca.
Qed.

Lemma loadACLFile_loaded fs fd meta ok u : loadACLFile fs fd = ret (ok, u) →
loaded fs fd (chars "acl") meta ok u.
Proof.
unfold loadACLFile. destruct (open_in fs fd) as [[e|contents]|p|] eqn:Eo; cbn [tbind]; try done;
  [intros [= <- <-]; by left|].
destruct (ACL.fromCSV contents) as [[e|[data line]]|p|] eqn:E; try done; intros [= <- <-]; [by left|right].
split; [done|]. exists contents. split; [by apply open_in_ret|]. split; [done|by eapply acl_file_lines].
Qed.

Lemma verifyMappingFile_whole g fs fd meta ok u : verifyMappingFile g fs fd meta = ret (ok, u) → u = NoCommit.
Proof.
unfold verifyMappingFile. intros (db & _ & Hk)%tbind_ret. apply tbind_ret in Hk as (r & _ & Hk).
destruct r as [[n|]|]; [|by injection Hk..]. apply tbind_ret in Hk as (d & _ & Hk). by injection Hk.
Qed.

(** A command exchanges nothing, or what it loaded; then it replies S. *)
Lemma run_command_loaded g fs cmd stdin stdout msg ok u out :
run_command g fs cmd stdin stdout msg = ret (ok, u, out) →
u = NoCommit ∨ (ok = true ∧ ∃ contents, readable fs stdin contents ∧ command_file cmd msg contents u).
Proof.
assert (Hload : ∀ r : throws (bool * update), (∀ ok u, r = ret (ok, u) → loaded fs stdin cmd msg ok u) →
  ('(ok, u) ←? r; ret (ok, u, @None (list Z))) = ret (ok, u, out) →
  u = NoCommit ∨ (ok = true ∧ ∃ contents, readable fs stdin contents ∧ command_file cmd msg contents u)).
{ intros r Hr ([ok1 u1] & E & Hk)%tbind_ret. injection Hk as -> -> _.
  destruct (Hr _ _ E) as [[_ ->]|]; auto. }
assert (Hmap : ∀ D (new : D) set row build publish,
  (∀ contents d, built new set row build msg contents d → command_file cmd msg contents (publish d)) →
  ('(ok, u) ←? load_mapping new set row build publish fs stdin msg; ret (ok, u, @None (list Z)))
  = ret (ok, u, out) →
  u = NoCommit ∨ (ok = true ∧ ∃ contents, readable fs stdin contents ∧ command_file cmd msg contents u)).
{ intros D new set row build publish Hp. apply Hload. intros ok1 u1. by apply load_mapping_loaded. }
assert (Hdno : ∀ t, t ∈ ["dno"; "dno_npa"; "dno_npa_nxx"; "dno_npa_nxx_x"]%string → cmd = chars (t ++ "_reload") →
  ('(ok, u) ←? loadDnoMappingFile t fs stdin msg; ret (ok, u, @None (list Z))) = ret (ok, u, out) →
  u = NoCommit ∨ (ok = true ∧ ∃ contents, readable fs stdin contents ∧ command_file cmd msg contents u)).
{ intros t Ht E. apply Hmap. intros contents d Hb. by exists t. }
unfold run_command. cbv zeta.
repeat match goal with |- (if list_eqb cmd ?k then _ else _) = _ → _ =>
  let E := fresh "E" in destruct (list_eqb cmd k) eqn:E; [apply list_eqb_spec in E|] end;
  try (apply Hmap; intros contents d Hb; cbn [command_file]; by repeat (split || exists _ || done)).
- subst cmd. apply Hload, loadMappingFile_loaded.
- by apply Hdno; [set_solver|].
- by apply Hdno; [set_solver|].
- by apply Hdno; [set_solver|].
- by apply Hdno; [set_solver|].
- intros ([ok1 u1] & ->%verifyMappingFile_whole & Hk)%tbind_ret. left. by injection Hk as _ <- _.
- intros ([ok1 o1] & _ & Hk)%tbind_ret. left. by injection Hk as _ <- _.
- subst cmd. apply Hload, loadACLFile_loaded.
- intros [= _ <- _]. by left.
- intros [= _ <- _]. by left.
Qed.
End published.

(** ** Commands *)
Section server.
Context `{FollyOk, Flags, Clock}.

Lemma or_throw_ret {A} (o : option A) a : or_throw o = ret a → o = Some a.
Proof. by destruct o as [x|]; [intros [= ->]|]. Qed.

Lemma dispatch_whole g fs msg argfd o : dispatch g fs msg argfd = Ok o →
(exchange o = NoCommit ∨ whole fs msg argfd (exchange o)) ∧
((status o = Some (ch "S") ∧ closed o = argfd) ∨
 (status o = Some (ch "F") ∧ exchange o = NoCommit ∧ closed o = argfd) ∨
 (status o = None ∧ exchange o = NoCommit ∧ dumped o = None ∧ closed o = [])).
Proof.
unfold dispatch. destruct (try_dispatch g fs msg argfd) as [[e|o']|p|] eqn:E; try done.
{ intros [= <-]. split; [by left|]. by right; right. }
intros [= ->]. unfold try_dispatch in E. apply tbind_ret in E as (cmd & Ec%or_throw_ret & E).
apply tbind_ret in E as (stdin & Ei & E). apply tbind_ret in Ei as (i & Ei%or_throw_ret & Em).
do 2 (apply tbind_ret in E as (? & _ & E)). apply tbind_ret in E as ([[ok u] out] & Er & E).
apply run_command_loaded in Er as Hu. injection E as <-. cbn. destruct Hu as [->|(-> & contents & [Hfd Hr] & Hf)].
- split; [by left|]. destruct ok; [by left|by right; left].
- split; [right|by left]. exists cmd, contents. split_and!; [done| |done].
  unfold input_file, input_fd. rewrite Ei. cbn. rewrite Em. cbn. by rewrite Hfd.
Qed.

(** ** Runs of the server *)

(** The commands that were started, and what is left of those that have read. *)
Definition received (tr : list event) : list (dynamic * list Z) :=
omap (λ e, match e with Receive _ started => started | _ => None end) tr.
Definition readers (tr : list event) : list (dynamic * list Z) :=
omap (λ e, match e with Read _ msg argfd _ => Some (msg, argfd) | _ => None end) tr.
Definition outcomes (tr : list event) : list outcome :=
omap (λ e, match e with Read _ _ _ o => Some o | _ => None end) tr.
Definition exchanges (tr : list event) : list outcome :=
omap (λ e, match e with Publish o => Some o | _ => None end) tr.
Definition waiting (js : list job) : list (dynamic * list Z) :=
omap (λ j, match j with Started msg argfd => Some (msg, argfd) | _ => None end) js.
Definition pending (js : list job) : list outcome :=
omap (λ j, match j with Computed o => Some o | _ => None end) js.

(** Every command reads once and exchanges once, at most. *)
Lemma run_counts tr s : server_run tr s →
received tr ≡ₚ readers tr ++ waiting (jobs s) ∧ outcomes tr ≡ₚ exchanges tr ++ pending (jobs s).
Proof.
induction 1 as [|tr e s s' _ [IHr IHo] He]; [done|].
unfold received, readers, outcomes, exchanges, waiting, pending in *. rewrite !omap_app.
destruct He as [s p argfd started _|s fs msg fds before after o Hj _|s before after o Hj]; cbn -[app];
  rewrite ?Hj in *; rewrite ?omap_app in *; cbn in *; rewrite ?app_nil_r.
- destruct started as [[msg fds]|]; cbn; rewrite ?app_nil_r; [|done].
  split; [rewrite IHr; by rewrite app_assoc|done].
- split; [rewrite IHr|rewrite IHo]; solve_Permutation.
- split; [done|]. rewrite IHo. solve_Permutation.
Qed.

(** The published mappings are the exchanges of the run, in turn. *)
Lemma run_vars tr s : server_run tr s →
vars s = foldl (λ g o, commit (exchange o) g) no_globals (exchanges tr).
Proof.
induction 1 as [|tr e s s' _ IH He]; [done|]. unfold exchanges in *. rewrite omap_app, foldl_app, <- IH.
by destruct He.
Qed.

(** A command of the run was received, and read the files [fs]. *)
Definition read_in (tr : list event) (o : outcome) : Prop :=
∃ t0 p t1 fs msg argfd t2,
  tr = t0 ++ Receive p (Some (msg, argfd)) :: t1 ++ Read fs msg argfd o :: t2 ∧
  (exchange o = NoCommit ∨ whole fs msg argfd (exchange o)).

(** A command of the run was received, read its whole file, and exchanged the data
  that it built from it. *)
Definition published_by (tr : list event) (u : update) : Prop :=
∃ t0 p t1 fs msg argfd o t2 t3,
  tr = t0 ++ Receive p (Some (msg, argfd)) :: t1 ++ Read fs msg argfd o :: t2 ++ Publish o :: t3 ∧
  exchange o = u ∧ whole fs msg argfd u.

Lemma read_in_snoc tr e o : read_in tr o → read_in (tr ++ [e]) o.
Proof.
intros (t0 & p & t1 & fs & msg & fds & t2 & -> & Hw). exists t0, p, t1, fs, msg, fds, (t2 ++ [e]).
split; [|done]. by rewrite <- !app_assoc; cbn; rewrite <- !app_assoc.
Qed.

Lemma published_by_snoc tr e u : published_by tr u → published_by (tr ++ [e]) u.
Proof.
intros (t0 & p & t1 & fs & msg & fds & o & t2 & t3 & -> & Hu). exists t0, p, t1, fs, msg, fds, o, t2, (t3 ++ [e]).
split; [|done]. by rewrite <- !app_assoc; cbn; rewrite <- !app_assoc; cbn; rewrite <- !app_assoc.
Qed.

(** The invariant of the runs: where the commands that run, and what is published,
  come from. *)
Definition job_ok (tr : list event) (j : job) : Prop :=
match j with
| Started msg argfd => ∃ t0 p t1, tr = t0 ++ Receive p (Some (msg, argfd)) :: t1
| Computed o => read_in tr o
end.

Lemma job_ok_snoc tr e j : job_ok tr j → job_ok (tr ++ [e]) j.
Proof.
destruct j as [msg fds|o]; cbn; [|apply read_in_snoc].
intros (t0 & p & t1 & ->). exists t0, p, (t1 ++ [e]). by rewrite <- app_assoc.
Qed.

Lemma run_ok tr s : server_run tr s →
Forall (job_ok tr) (jobs s) ∧ ∀ u, u ∈ publications (vars s) → published_by tr u.
Proof.
induction 1 as [|tr e s s' _ [IHj IHv] He]; [split; [constructor|set_solver]|].
assert (Hsnoc : ∀ js, Forall (job_ok tr) js → Forall (job_ok (tr ++ [e])) js).
{ intros js Hjs. eapply Forall_impl; [exact Hjs|]. apply job_ok_snoc. }
destruct He as [s p argfd started _|s fs msg fds before after o Hj Hd|s before after o Hj]; cbn -[publications].
- split; [|eauto using published_by_snoc]. apply Forall_app. split; [by apply Hsnoc|].
  destruct started as [[msg fds]|]; repeat constructor. by exists tr, p, [].
- split; [|eauto using published_by_snoc]. rewrite Hj, Forall_app, Forall_cons in IHj.
  destruct IHj as (Hb & (t0 & p & t1 & ->) & Ha). apply Forall_app. split; [by apply Hsnoc|].
  constructor; [|by apply Hsnoc]. exists t0, p, t1, fs, msg, fds, []. split; [by rewrite <- app_assoc|].
  by apply dispatch_whole in Hd as [? _].
- rewrite Hj, Forall_app, Forall_cons in IHj. destruct IHj as (Hb & Ho & Ha).
  split; [by apply Forall_app; split; apply Hsnoc|]. intros u Hu.
  destruct (publications_commit _ _ _ Hu) as [->|?]; [|auto using published_by_snoc].
  destruct Ho as (t0 & p & t1 & fs & msg & fds & t2 & -> & Hw).
  destruct Hw as [Hn|Hw]; [rewrite Hn, commit_none in Hu; rewrite Hn; auto using published_by_snoc|].
  exists t0, p, t1, fs, msg, fds, o, t2, []. split; [|done].
  by rewrite <- !app_assoc; cbn; rewrite <- !app_assoc.
Qed.

Lemma isAvailable_commit u g : isAvailable g = true → isAvailable (commit u g) = true.
Proof. destruct g as [[|] [|]]; by destruct u. Qed.

Lemma isAvailable_rtc s s' : rtc server_step s s' → isAvailable (vars s) = true → isAvailable (vars s') = true.
Proof.
induction 1 as [|s1 s2 s3 [e Hs] _ IH]; [done|]. intros Ha. apply IH.
destruct Hs; cbn; auto using isAvailable_commit.
Qed.
End server.
