(* ===== verification/Commands.v ===== *)
(** * What the commands do *)

From stdpp Require Import strings gmap.
From stdpp Require Import strings gmap relations.
From S2P Require Export Published.

(** ** Files of rows

    The text of a table of numbers, one row a line, and what the loaders of phone
    numbers and the verification make of it. *)

(** The line of a row; [eol] is the white space behind it, such as a carriage
    return. *)
Definition row_text (eol : list Z) (r : row) : list Z := dec r.1 ++ chars "," ++ dec r.2 ++ eol.
Definition rows_text (eol : list Z) (rows : list row) : list Z := line_text (map (row_text eol) rows).

Definition eol_ok (eol : list Z) : Prop := Forall (λ c, isspace c = true ∧ c ≠ LF) eol.
Definition wide (r : row) : Prop := 0 ≤ r.1 < 2 ^ 64 ∧ 0 ≤ r.2 < 2 ^ 64.

Lemma narrow_wide r : narrow r → wide r.
Proof. unfold narrow, wide. lia. Qed.

Lemma eol_spaces eol : eol_ok eol → Forall (λ c, isspace c = true) eol.
Proof. intros He. eapply Forall_impl; [exact He|]. cbn. tauto. Qed.

Lemma digits_not ds c : digits ds → ¬ 48 ≤ c ≤ 57 → Forall (λ d, (d =? c) = false) ds.
Proof. intros Hds Hc. eapply Forall_impl; [exact Hds|]. cbn. intros d Hd. apply Z.eqb_neq. lia. Qed.

Lemma pieces_none d l : Forall (λ c, (c =? d) = false) l → pieces d l = [l].
Proof. induction 1 as [|c l Hc _ IH]; [done|]. cbn. by rewrite Hc, IH. Qed.

Lemma pieces_app d l k : Forall (λ c, (c =? d) = false) l → pieces d (l ++ d :: k) = l :: pieces d k.
Proof.
  induction 1 as [|c l Hc _ IH]; cbn; [by rewrite Z.eqb_refl|]. by rewrite Hc, IH.
Qed.

Section text.
Context `{FollyOk, Flags, Clock}.

Lemma split_row eol r : eol_ok eol → wide r → split_u64 (ch ",") (row_text eol r) = Some [r.1; r.2].
Proof.
intros He [Hpn Hrn]. rewrite split_pieces. unfold row_text. cbn [chars app].
destruct (dec_spec r.1 Hpn) as (Hd1 & Hn1 & E1), (dec_spec r.2 Hrn) as (Hd2 & Hn2 & E2).
change (ch ",") with 44. rewrite pieces_app by (apply digits_not; [done|lia]).
rewrite pieces_none.
2: { apply Forall_app. split; [apply digits_not; [done|lia]|]. eapply Forall_impl; [exact He|].
     cbn. intros c [Hc _]. apply Z.eqb_neq. intros ->. done. }
cbn [mapM mbind option_bind]. rewrite <- (app_nil_r (dec r.1)).
rewrite !tryTo_digits; try done; rewrite ?E1, ?E2; try lia; [done|by apply eol_spaces].
Qed.

Lemma csv_line_row eol b r : eol_ok eol → wide r → csv_line b (row_text eol r) = addRow b r.1 r.2.
Proof. intros He Hr. unfold csv_line. by rewrite split_row. Qed.

Lemma a_line_row eol r : eol_ok eol → wide r → a_line (row_text eol r).
Proof.
intros He [Hpn Hrn]. destruct (dec_spec r.1 Hpn) as (Hd1 & _), (dec_spec r.2 Hrn) as (Hd2 & _).
unfold a_line, row_text, LF. repeat (apply Forall_app; split); try (apply digits_not; [done|lia]).
- by repeat constructor.
- eapply Forall_impl; [exact He|]. cbn. intros c [_ Hc]. by apply Z.eqb_neq.
Qed.

Lemma a_lines eol rows : eol_ok eol → Forall wide rows → Forall a_line (map (row_text eol) rows).
Proof. intros He Hr. apply Forall_map. eapply Forall_impl; [exact Hr|]. intros r. by apply a_line_row. Qed.

(** The rows of the text, taken in turn. *)
Lemma rows_in_turn_rows eol b rows : eol_ok eol → Forall wide rows →
rows_in_turn csv_line b (map (row_text eol) rows) = add_rows b rows.
Proof.
intros He Hr. revert b. induction Hr as [|r rows Hr _ IH]; intros b; [done|].
cbn [map rows_in_turn add_rows]. rewrite csv_line_row by done.
destruct (addRow b r.1 r.2) as [[e|b']|p|]; cbn [tbind]; try done; apply IH.
Qed.

(** A builder rejects a phone number that comes again. *)
Lemma add_rows_dup b rows more : builds b rows → ¬ NoDup (map fst (rows ++ more)) →
∃ what, add_rows b more = throw (runtime_error what).
Proof.
revert b rows. induction more as [|[pn rn] more IH]; intros b rows Hb Hd.
{ rewrite app_nil_r in Hd. destruct Hd. by apply (builds_keys b). }
cbn [add_rows fst snd]. rewrite (addRow_builds b rows) by done.
case_bool_decide; [by eexists|]. case_bool_decide; [by eexists|]. cbn [tbind].
apply (IH _ (rows ++ [(pn, rn)])); [by apply builds_snoc|]. by rewrite <- app_assoc.
Qed.

Lemma CHUNK_pos : (0 < CHUNK)%nat.
Proof. unfold CHUNK. lia. Qed.
End text.

Section commands.
Context `{FollyOk, FlagsOk, Clock}.

(** A message that can be decoded: the command, and the descriptors of its input
  and its output. *)
Record a_command (msg : dynamic) (argfd cmd : list Z) (stdin stdout : Z) : Prop := {
cmd_name : at_asString msg (chars "cmd") = Some cmd;
cmd_in : ∃ i, getDefault_asInt msg (chars "stdin") (-1) = Some i ∧ mapfd argfd i = ret stdin;
cmd_out : ∃ i, getDefault_asInt msg (chars "stdout") (-1) = Some i ∧ mapfd argfd i = ret stdout;
cmd_err : ∃ i fd, getDefault_asInt msg (chars "stderr") (-1) = Some i ∧ mapfd argfd i = ret fd;
}.

(** The rest of the message: a name, an estimate of the rows for which there is
  memory, and the country. *)
Record metadata (msg : dynamic) (country : list Z) : Prop := {
meta_rows : ∃ n, getDefault_asInt (erase_args msg) (chars "row_estimate") 0 = Some n ∧
                 reserve (u64 (n + Z.quot n 20)) = true;
meta_name : is_Some (getDefault_asString (erase_args msg) (chars "file_name") []);
meta_country : getDefault_asString (erase_args msg) (chars "country") (chars "US") = Some country;
}.

(** The reply of a command that does not throw. *)
Definition replied (argfd : list Z) (r : throws (bool * update * option (list Z))) : throws outcome :=
'(ok, u, out) ←? r; ret (MkOutcome (Some (if ok : bool then ch "S" else ch "F")) u out argfd).

Definition answered (argfd : list Z) (ok : bool) (u : update) (out : option (list Z)) : outcome :=
MkOutcome (Some (if ok then ch "S" else ch "F")) u out argfd.

Definition no_reply : outcome := MkOutcome None NoCommit None [].

Definition country_update (country : list Z) (d : PhoneMapping.Data) : update :=
if list_eqb country (chars "CA") then CommitCA d else CommitUS d.

Definition country_data (g : globals) (country : list Z) : option PhoneMapping.Data :=
if list_eqb country (chars "CA") then mappingCA g else mappingUS g.

Lemma dispatch_command g fs msg argfd cmd stdin stdout : a_command msg argfd cmd stdin stdout →
dispatch g fs msg argfd =
match run_command g fs cmd stdin stdout (erase_args msg) with
| Ok (inr (ok, u, out)) => Ok (answered argfd ok u out)
| Ok (inl _) => Ok no_reply
| Fault p => Fault p
| OutOfFuel => OutOfFuel
end.
Proof.
intros [Hc (i & Ei & Mi) (j & Ej & Mj) (k & f & Ek & Mk)]. unfold dispatch, try_dispatch.
rewrite Hc, Ei, Ej, Ek. cbn [or_throw tbind ret]. rewrite Mi, Mj, Mk. cbn [tbind ret].
by destruct (run_command _ _ _ _ _ _) as [[e|[[ok u] out]]|p|].
Qed.

Lemma open_in_ok fs fd contents : 0 ≤ fd → read_fd fs fd = Some contents → open_in fs fd = ret contents.
Proof. intros Hfd Hr. unfold open_in. destruct (Z.ltb_spec fd 0); [lia|]. by rewrite Hr. Qed.

(** ** Loading *)
Lemma load_lines {D} new set row (build : D → res D) fs fd est meta lines :
0 ≤ fd → read_fd fs fd = Some (line_text lines) → Forall a_line lines →
reserve (u64 (est + Z.quot est 20)) = true →
load new set row build fs fd est meta =
match rows_in_turn row (set new meta) lines with
| Ok (inr b) => d ←? lift (build b); ret (Some d)
| Ok (inl e) => if is_runtime_error e then ret None else throw e
| Fault p => Fault p
| OutOfFuel => OutOfFuel
end.
Proof.
intros Hfd Hr Hl Hres. unfold load, read_rows. rewrite (open_in_ok fs fd (line_text lines)) by done.
cbn [tbind ret]. unfold sizeHint. rewrite Hres. cbn [tbind ret].
rewrite csv_file_lines by (done || apply CHUNK_pos).
destruct (rows_in_turn _ _ _) as [[e|b]|p|]; cbn [tbind ret catch_runtime throw]; try done.
by destruct (is_runtime_error e).
Qed.

(** C20: reload publishes the table of the file.  For a file whose lines are
  rows, with any white space before the line feeds, the command replies F and
  publishes nothing if a phone number comes twice; otherwise it replies S and
  publishes, for the country that the message names, a mapping that represents
  exactly these rows; it closes its descriptors. *)
Theorem reload_publishes g fs msg argfd fd out country eol rows :
a_command msg argfd (chars "reload") fd out → metadata msg country →
0 ≤ fd → read_fd fs fd = Some (rows_text eol rows) → eol_ok eol → Forall wide rows →
Z.of_nat (length rows) ≤ MAXROWS →
(¬ NoDup (map fst rows) ∧ dispatch g fs msg argfd = Ok (answered argfd false NoCommit None)) ∨
(NoDup (map fst rows) ∧ ∃ d, represents d rows ∧
   dispatch g fs msg argfd = Ok (answered argfd true (country_update country d) None)).
Proof.
intros Hcmd [(n & En & Hres) [name Hname] Hcountry] Hfd Hfile He Hw Hmax.
rewrite (dispatch_command _ _ _ _ _ _ _ Hcmd).
change (run_command g fs (chars "reload") fd out (erase_args msg))
  with ('(ok, u) ←? loadMappingFile fs fd (erase_args msg); ret (ok, u, @None (list Z))).
unfold loadMappingFile. rewrite En, Hname, Hcountry. cbn [or_throw tbind ret].
rewrite (load_lines _ _ _ _ _ _ _ _ (map (row_text eol) rows)) by (done || by apply a_lines).
rewrite rows_in_turn_rows by done. set (b0 := setMetadata new_data (erase_args msg)).
assert (Hb0 : builds b0 []) by (destruct builds_new; by split).
destruct (decide (NoDup (map fst rows))) as [Hnd|Hd]; [right|left]; (split; [done|]).
- destruct (add_rows_ok b0 [] rows Hb0 Hnd Hmax) as (b & -> & Hb).
  destruct (build_represents_aux b rows Hb) as (d & Ed & Hd). exists d. split; [done|].
  cbn [tbind ret]. rewrite Ed. reflexivity.
- destruct (add_rows_dup b0 [] rows Hb0 Hd) as (what & ->). reflexivity.
Qed.

(** ** Dumping *)
Lemma row_line_text : row_line = row_text [CR].
Proof. done. Qed.

Lemma CR_ok : eol_ok [CR].
Proof. by repeat constructor. Qed.

Lemma rows_of_visit d rows : represents d rows → Forall narrow rows →
(m ← visitRows (MkPhoneMapping d None); rows_of m) = Ok rows.
Proof.
intros Hd Hn. destruct (visitRows_ok (MkPhoneMapping d None) rows Hd Hn) as (m & -> & Hdata & Hat).
cbn [mbind res_bind]. apply (rows_of_ok rows); [by rewrite Hdata|done|].
rewrite Hdata. cbn [data_]. by rewrite (rep_length d rows).
Qed.

Lemma dump_rows g fs msg argfd stdin fd country d rows :
a_command msg argfd (chars "dump") stdin fd → metadata msg country →
0 ≤ fd → write_fd fs fd = true →
country_data g country = Some d → represents d rows → Forall narrow rows →
dispatch g fs msg argfd = Ok (answered argfd true NoCommit (Some (rows_text [CR] rows))).
Proof.
intros Hcmd [_ _ Hcountry] Hfd Hw Hg Hd Hn. rewrite (dispatch_command _ _ _ _ _ _ _ Hcmd).
change (run_command g fs (chars "dump") stdin fd (erase_args msg))
  with ('(ok, out) ←? dumpMappingFile g fs fd (erase_args msg); ret (ok, NoCommit, out)).
unfold dumpMappingFile, country_db. rewrite Hcountry. cbn [or_throw tbind ret].
change (if list_eqb country (chars "CA") then mappingCA g else mappingUS g) with (country_data g country).
rewrite Hg. unfold open_out. rewrite Hw. destruct (Z.ltb_spec fd 0); [lia|]. cbn [andb negb tbind ret deref].
rewrite (rows_of_visit d rows) by done. reflexivity.
Qed.

(** C21: a dump can be loaded again.  For a published mapping that represents rows
  whose numbers are below 2^34, dump replies S, and loading what it wrote
  replies S and publishes a mapping that represents the same rows in the same
  order, whatever is published at that time. *)
Theorem dump_reload g fs msg argfd stdin fd country d rows :
a_command msg argfd (chars "dump") stdin fd → metadata msg country →
0 ≤ fd → write_fd fs fd = true →
country_data g country = Some d → represents d rows → Forall narrow rows →
∃ text, dispatch g fs msg argfd = Ok (answered argfd true NoCommit (Some text)) ∧
∀ g' fs' msg' argfd' fd' out' country',
  a_command msg' argfd' (chars "reload") fd' out' → metadata msg' country' →
  0 ≤ fd' → read_fd fs' fd' = Some text →
  ∃ d', dispatch g' fs' msg' argfd' = Ok (answered argfd' true (country_update country' d') None) ∧
        represents d' rows.
Proof.
intros Hcmd Hmeta Hfd Hw Hg Hd Hn. exists (rows_text [CR] rows).
split; [by eapply dump_rows|]. intros g' fs' msg' argfd' fd' out' country' Hcmd' Hmeta' Hfd' Hfile.
destruct (reload_publishes g' fs' msg' argfd' fd' out' country' [CR] rows) as [[Hdup _]|(_ & d' & Hd' & E)];
  try done; [apply CR_ok| |by apply (rep_max d)|..].
- eapply Forall_impl; [exact Hn|]. intros r. apply narrow_wide.
- destruct Hdup. by apply (rep_keys d).
- by exists d'.
Qed.

(** ** Verification *)

(** The lines of a file whose number is not routed as the file says. *)
Definition differs (d : PhoneMapping.Data) (r : row) : bool :=
negb (default NONE (f14_lookup (dict d) r.1) =? r.2).
Definition diffs (d : PhoneMapping.Data) (rows : list row) : Z :=
Z.of_nat (length (List.filter (differs d) rows)).

Lemma getRN_dict d pn : getRN d pn = Ok (default NONE (f14_lookup (dict d) pn)).
Proof.
unfold getRN, getRNs. rewrite batch_ok; [|apply f14map_pos|done]. done.
Qed.

Lemma verify_line_row d nrows maxdiff eol r : eol_ok eol → wide r →
verify_line (Some d) nrows maxdiff (row_text eol r) =
ret (if differs d r then if maxdiff =? 1 then None else Some (nrows + 1, maxdiff - 1)
     else Some (nrows + 1, maxdiff)).
Proof.
intros He Hr. unfold verify_line. rewrite split_row by done. cbn [or_throw tbind ret deref].
change (vget [r.1; r.2] 0) with (Ok r.1). change (vget [r.1; r.2] 1) with (Ok r.2).
cbn [lift tbind ret]. rewrite getRN_dict. cbn [lift tbind ret]. unfold differs.
destruct (_ =? r.2); cbn [negb]; [done|]. f_equal.
destruct (Z.eqb_spec maxdiff 1), (Z.eqb_spec (maxdiff - 1) 0); done || lia.
Qed.

Lemma diffs_cons d r rows : diffs d (r :: rows) = (if differs d r then 1 else 0) + diffs d rows.
Proof. unfold diffs. cbn [List.filter]. destruct (differs d r); cbn [length]; lia. Qed.

Lemma diffs_pos d rows : 0 ≤ diffs d rows.
Proof. unfold diffs. lia. Qed.

Lemma verify_rows_lines d n eol rows rest nrows maxdiff :
eol_ok eol → Forall wide rows → (length rows ≤ n)%nat → 0 < maxdiff →
verify_rows (Some d) n (IStream (rows_text eol rows ++ rest) false) nrows maxdiff =
if diffs d rows <? maxdiff then
  verify_rows (Some d) (n - length rows) (IStream rest false) (nrows + Z.of_nat (length rows))
    (maxdiff - diffs d rows)
else ret None.
Proof.
intros He Hr. revert n nrows maxdiff. induction Hr as [|r rows Hr _ IH]; intros n nrows maxdiff Hn Hm.
{ change (diffs d []) with 0. cbn [length rows_text line_text map concat app].
  destruct (Z.ltb_spec 0 maxdiff); [|lia]. by rewrite Nat.sub_0_r, Z.add_0_r, Z.sub_0_r. }
destruct n as [|n]; [cbn in Hn; lia|]. cbn [length] in *. rewrite diffs_cons.
unfold rows_text, line_text. cbn [map concat]. rewrite <- !app_assoc. cbn [app].
fold (line_text (map (row_text eol) rows)). fold (rows_text eol rows).
set (l := row_text eol r). set (k := rows_text eol rows ++ rest).
assert (Hl : a_line l) by by apply a_line_row.
cbn [verify_rows]. unfold peek. cbn [in_eof in_rest].
assert (E : ∃ c k', l ++ LF :: k = c :: k') by (destruct l; cbn; eauto). destruct E as (c & k' & E).
rewrite E. cbn [tbind ret]. rewrite <- E. unfold getline. cbn [in_eof in_rest].
rewrite E. cbn [tbind ret]. rewrite <- E. rewrite until_app by done. cbn [tbind ret].
unfold l, k. rewrite verify_line_row by done. cbn [tbind ret]. pose proof (diffs_pos d rows).
destruct (differs d r); [destruct (Z.eqb_spec maxdiff 1) as [->|]|].
- by destruct (Z.ltb_spec (1 + diffs d rows) 1); [lia|].
- rewrite IH by lia. cbn [Nat.sub].
  destruct (Z.ltb_spec (diffs d rows) (maxdiff - 1)), (Z.ltb_spec (1 + diffs d rows) maxdiff);
    try lia; [|done]. f_equal; lia.
- rewrite IH by lia. cbn [Nat.sub]. rewrite Z.add_0_l.
  destruct (Z.ltb_spec (diffs d rows) maxdiff); [|done]. f_equal; lia.
Qed.

Lemma diffs_app d l k : diffs d (l ++ k) = diffs d l + diffs d k.
Proof. unfold diffs. rewrite List.filter_app, length_app. lia. Qed.

Lemma rows_text_app eol l k : rows_text eol (l ++ k) = rows_text eol l ++ rows_text eol k.
Proof. unfold rows_text. by rewrite map_app, line_text_app. Qed.

Lemma verify_chunks_lines d fuel eol rows nrows maxdiff :
eol_ok eol → Forall wide rows → (S (length rows) < fuel)%nat → 0 < maxdiff →
verify_chunks fuel (Some d) (IStream (rows_text eol rows) false) nrows maxdiff =
ret (if diffs d rows <? maxdiff then Some (nrows + Z.of_nat (length rows)) else None).
Proof.
intros He. pose proof CHUNK_pos as Hc. revert rows nrows maxdiff.
induction fuel as [fuel IH] using lt_wf_ind. intros rows nrows maxdiff Hr Hf Hm.
destruct fuel as [|fuel]; [lia|]. cbn [verify_chunks good in_eof negb].
destruct (decide (length rows < CHUNK)%nat) as [Hlt|Hge].
- rewrite <- (app_nil_r (rows_text eol rows)), verify_rows_lines by (done || lia).
  destruct (diffs d rows <? maxdiff); [|done].
  destruct (CHUNK - length rows)%nat as [|n] eqn:E; [lia|]. cbn.
  destruct fuel; [lia|]. done.
- rewrite <- (take_drop CHUNK rows), rows_text_app, verify_rows_lines, diffs_app by
    (done || (by apply Forall_take) || (rewrite length_take; lia)).
  pose proof (diffs_pos d (drop CHUNK rows)).
  destruct (Z.ltb_spec (diffs d (take CHUNK rows)) maxdiff).
  2: by destruct (Z.ltb_spec (diffs d (take CHUNK rows) + diffs d (drop CHUNK rows)) maxdiff); [lia|].
  rewrite length_take. replace (CHUNK - Nat.min CHUNK (length rows))%nat with O by lia.
  cbn [verify_rows tbind ret].
  rewrite IH; [|lia|by apply Forall_drop|rewrite length_drop; lia|lia].
  rewrite length_app, length_take, length_drop.
  destruct (Z.ltb_spec (diffs d (drop CHUNK rows)) (maxdiff - diffs d (take CHUNK rows))),
    (Z.ltb_spec (diffs d (take CHUNK rows) + diffs d (drop CHUNK rows)) maxdiff); try lia; [|done].
  apply (f_equal (λ n, ret (Some n))). lia.
Qed.

(** C25: what verify checks.  On a file of rows, with any white space before the
  line feeds, verify replies S exactly if the published mapping has as many rows
  as the file and routes fewer than a hundred of its numbers differently; it
  publishes nothing. *)
Theorem verify_counts g fs msg argfd fd out country d eol rows :
a_command msg argfd (chars "verify") fd out → metadata msg country →
0 ≤ fd → read_fd fs fd = Some (rows_text eol rows) → eol_ok eol → Forall wide rows →
country_data g country = Some d →
dispatch g fs msg argfd =
Ok (answered argfd ((diffs d rows <? 100) && (Z.of_nat (length rows) =? PhoneMapping.size d)) NoCommit None).
Proof.
intros Hcmd [_ _ Hcountry] Hfd Hfile He Hw Hg. rewrite (dispatch_command _ _ _ _ _ _ _ Hcmd).
change (run_command g fs (chars "verify") fd out (erase_args msg))
  with ('(ok, u) ←? verifyMappingFile g fs fd (erase_args msg); ret (ok, u, @None (list Z))).
unfold verifyMappingFile, country_db. rewrite Hcountry. cbn [or_throw tbind ret].
change (if list_eqb country (chars "CA") then mappingCA g else mappingUS g) with (country_data g country).
rewrite Hg, (open_in_ok fs fd (rows_text eol rows)) by done. cbn [tbind ret]. unfold open_stream.
rewrite verify_chunks_lines; [|done|done| |lia].
2: { unfold rows_text. pose proof (line_text_length (map (row_text eol) rows)) as Hlen.
     rewrite length_map in Hlen. lia. }
destruct (diffs d rows <? 100); reflexivity.
Qed.

(** ** Commands that fail *)

(** The loaders other than those of the phone numbers. *)
Record loader := Loader {
l_data : Type;
l_new : l_data;
l_set : l_data → dynamic → l_data;
l_row : l_data → list Z → throws l_data;
l_build : l_data → res l_data;
l_publish : l_data → update;
}.

Definition dno_loader (dnotype : string) : loader :=
Loader _ DnoMapping.new_data DnoMapping.setMetadata (DnoMapping.csv_line dnotype) DnoMapping.build CommitDNO.

Definition loaders : list (string * loader) := [
("dnc_reload", Loader _ DncMapping.new_data DncMapping.setMetadata DncMapping.csv_line DncMapping.build CommitDNC);
("tollfree_reload", Loader _ TollFreeMapping.new_data TollFreeMapping.setMetadata TollFreeMapping.csv_line
                      TollFreeMapping.build CommitTollFree);
("dno_npa_reload", dno_loader "dno_npa");
("dno_reload", dno_loader "dno");
("dno_npa_nxx_reload", dno_loader "dno_npa_nxx");
("dno_npa_nxx_x_reload", dno_loader "dno_npa_nxx_x");
("lerg_reload", Loader _ LergMapping.new_data LergMapping.setMetadata LergMapping.csv_line LergMapping.build CommitLerg);
("youmail_reload", Loader _ YoumailMapping.new_data YoumailMapping.setMetadata YoumailMapping.csv_line
                     YoumailMapping.build CommitYoumail);
("geo_reload", Loader _ GeoMapping.new_data GeoMapping.setMetadata GeoMapping.csv_line GeoMapping.build CommitGeo);
("ftc_reload", Loader _ FtcMapping.new_data FtcMapping.setMetadata FtcMapping.csv_line FtcMapping.build CommitFtc);
("404_reload", Loader _ F404Mapping.new_data F404Mapping.setMetadata F404Mapping.csv_line F404Mapping.build Commit404);
("606_reload", Loader _ F606Mapping.new_data F606Mapping.setMetadata F606Mapping.csv_line F606Mapping.build Commit606)
]%string.

Lemma run_loader g fs cmd L stdin stdout msg : In (cmd, L) loaders →
run_command g fs (chars cmd) stdin stdout msg =
('(ok, u) ←? load_mapping (l_new L) (l_set L) (l_row L) (l_build L) (l_publish L) fs stdin msg;
 ret (ok, u, @None (list Z))).
Proof.
intros Hin. unfold loaders in Hin.
repeat (destruct Hin as [[= <- <-]|Hin]; [reflexivity|]). destruct Hin.
Qed.

(** C28: a line that cannot be used.  If the rows of a file stop at a line with an
  exception, the command publishes nothing; it replies F for a runtime error,
  but for the logic errors of [std::stoll] (no number, or one that does not fit)
  there is no reply at all, and the descriptors stay open. *)
Theorem bad_line_reply g fs msg argfd fd out country cmd L lines e :
In (cmd, L) loaders → a_command msg argfd (chars cmd) fd out → metadata msg country →
0 ≤ fd → read_fd fs fd = Some (line_text lines) → Forall a_line lines →
rows_in_turn (l_row L) (l_set L (l_new L) (erase_args msg)) lines = throw e →
dispatch g fs msg argfd = Ok (if is_runtime_error e then answered argfd false NoCommit None else no_reply).
Proof.
intros HL Hcmd [(n & En & Hres) [name Hname] _] Hfd Hfile Hl Hrows.
rewrite (dispatch_command _ _ _ _ _ _ _ Hcmd), (run_loader _ _ _ _ _ _ _ HL). unfold load_mapping.
rewrite En, Hname. cbn [or_throw tbind ret].
rewrite (load_lines _ _ _ _ _ _ _ _ lines), Hrows by done. cbn [throw].
by destruct (is_runtime_error e).
Qed.

(** A file whose last line does not end with a line feed is rejected, although
  all of its rows were read, unless the number of its lines is a multiple of
  10000. *)
Lemma reload_unterminated g fs msg argfd fd out country eol rows last :
a_command msg argfd (chars "reload") fd out → metadata msg country →
0 ≤ fd → read_fd fs fd = Some (rows_text eol rows ++ row_text eol last) → eol_ok eol →
Forall wide (rows ++ [last]) → NoDup (map fst (rows ++ [last])) → Z.of_nat (length (rows ++ [last])) ≤ MAXROWS →
if Z.of_nat (length (rows ++ [last])) mod 10000 =? 0
then ∃ d, represents d (rows ++ [last]) ∧
       dispatch g fs msg argfd = Ok (answered argfd true (country_update country d) None)
else dispatch g fs msg argfd = Ok (answered argfd false NoCommit None).
Proof.
intros Hcmd [(n & En & Hres) [name Hname] Hcountry] Hfd Hfile He Hw Hnd Hmax.
assert (Hd : dispatch g fs msg argfd = match load new_data setMetadata csv_line build fs fd n (erase_args msg) with
  | Ok (inr (Some d)) => Ok (answered argfd true (country_update country d) None)
  | Ok (inr None) => Ok (answered argfd false NoCommit None)
  | Ok (inl _) => Ok no_reply | Fault p => Fault p | OutOfFuel => OutOfFuel end).
{ rewrite (dispatch_command _ _ _ _ _ _ _ Hcmd).
  change (run_command g fs (chars "reload") fd out (erase_args msg))
    with ('(ok, u) ←? loadMappingFile fs fd (erase_args msg); ret (ok, u, @None (list Z))).
  unfold loadMappingFile. rewrite En, Hname, Hcountry. cbn [or_throw tbind ret].
  by destruct (load _ _ _ _ _ _ _ _) as [[|[|]]|?|]. }
rewrite Hd. clear Hd. unfold load, read_rows. rewrite (open_in_ok _ _ _ Hfd Hfile). cbn [tbind ret].
unfold sizeHint. rewrite Hres. cbn [tbind ret].
pose proof Hw as [Hw1 Hw2]%Forall_app. apply Forall_inv in Hw2. unfold rows_text.
rewrite csv_file_unterminated; [|apply CHUNK_pos|by apply a_lines|by apply a_line_row|].
2: { unfold row_text. destruct (dec_spec last.1) as (_ & Hne & _); [apply Hw2|]. by destruct (dec last.1). }
change (map (row_text eol) rows ++ [row_text eol last]) with (map (row_text eol) rows ++ map (row_text eol) [last]).
rewrite <- map_app, rows_in_turn_rows by done.
destruct (add_rows_ok (setMetadata new_data (erase_args msg)) [] (rows ++ [last])) as (b & -> & Hb);
  [destruct builds_new; by split|done..|]. cbn [tbind ret].
replace (S (length (map (row_text eol) rows))) with (length (rows ++ [last])) by (rewrite length_map, length_app; cbn; lia).
replace ((length (rows ++ [last]) mod CHUNK =? 0)%nat) with (Z.of_nat (length (rows ++ [last])) mod 10000 =? 0).
2: { apply eq_true_iff_eq. rewrite Z.eqb_eq, Nat.eqb_eq. unfold CHUNK.
     rewrite <- (Nat2Z.inj_iff _ 0), Nat2Z.inj_mod, Z2Nat.id by lia. done. }
destruct (_ =? 0); [|reflexivity]. destruct (build_represents_aux b _ Hb) as (d & Ed & Hd).
exists d. split; [done|]. cbn. by rewrite Ed.
Qed.

(** ** The lists of numbers that must not originate calls *)
Definition dno_dict (d : DnoMapping.Data) (dnotype : string) : F14ValueMap Z :=
if String.eqb dnotype "dno" then DnoMapping.dict d
else if String.eqb dnotype "dno_npa" then DnoMapping.dict_npa d
else if String.eqb dnotype "dno_npa_nxx" then DnoMapping.dict_npa_nxx d
else DnoMapping.dict_npa_nxx_x d.

Definition dno_types : list string := ["dno"; "dno_npa"; "dno_npa_nxx"; "dno_npa_nxx_x"]%string.

Lemma dno_line_other t t' d l d' : t ∈ dno_types → t' ∈ dno_types → t' ≠ t →
DnoMapping.csv_line t d l = ret d' → dno_dict d' t' = dno_dict d t'.
Proof.
intros Ht Ht' Hne. unfold DnoMapping.csv_line. destruct (negb _); [by intros [= ->]|].
destruct (getlines _ _) as [|? [|? [|? [|]]]]; try done. intros (pn & _ & Hk)%tbind_ret.
destruct d as [m d1 d2 d3 d4]. unfold dno_types in *. rewrite !elem_of_cons in *.
destruct Ht as [->|[->|[->|[->|Ht]]]]; [..|by apply elem_of_nil in Ht];
  destruct Ht' as [->|[->|[->|[->|Ht']]]]; try (by apply elem_of_nil in Ht'); try done;
  unfold DnoMapping.addRow, DnoMapping.add_to in Hk; cbn in Hk; destruct (f14_count _ _); try done;
  by injection Hk as <-.
Qed.

(** Loading one of the four lists of numbers that must not originate calls
  empties the other three, whatever was published before. *)
Lemma dno_reload_forgets g fs msg argfd fd out t o d :
t ∈ dno_types → a_command msg argfd (chars (t ++ "_reload")) fd out →
dispatch g fs msg argfd = Ok o → exchange o = CommitDNO d →
∀ t' k, t' ∈ dno_types → t' ≠ t → f14_lookup (dno_dict d t') k = None.
Proof.
intros Ht Hcmd. rewrite (dispatch_command _ _ _ _ _ _ _ Hcmd).
rewrite (run_loader _ _ (t ++ "_reload") (dno_loader t)).
2: { unfold dno_types in Ht. rewrite !elem_of_cons in Ht.
     destruct Ht as [->|[->|[->|[->|Ht]]]]; [unfold loaders; cbn; tauto..|by apply elem_of_nil in Ht]. }
destruct (load_mapping _ _ _ _ _ _ _ _) as [[e|[ok u]]|p|] eqn:El; cbn [tbind ret]; try done;
  intros [= <-] Hx t' k Ht' Hne; [done|]. cbn in Hx. subst u.
unfold load_mapping in El. apply tbind_ret in El as (n & _ & El). apply tbind_ret in El as (nm & _ & El).
apply tbind_ret in El as ([d'|] & El & Hk); [|done]. cbn in Hk. injection Hk as _ ->.
apply load_built in El as (contents & _ & b & Ef & _ & Eb). cbn in Ef, Eb. injection Eb as ->.
apply (csv_file_keeps _ (λ d, f14_lookup (dno_dict d t') k = None)) in Ef; [done| |].
- intros d1 l d2 Hd1 Hrow. by rewrite (dno_line_other t t' d1 l d2).
- unfold dno_dict. cbn. repeat match goal with |- context [if ?b then _ else _] => destruct b end;
    apply f14_lookup_empty.
Qed.
End commands.

(** ** Instances *)
Definition a_message (cmd country : string) : dynamic :=
  [(chars "cmd", inl (chars cmd)); (chars "stdin", inr 0); (chars "stdout", inr 0); (chars "country", inl (chars country))].
Definition one_file (contents : list Z) : files := MkFiles (λ _, Some contents) (λ _, true).

Lemma a_message_command cmd country fd : a_command (a_message cmd country) [fd] (chars cmd) fd fd.
Proof. split; try done; [by exists 0..|by exists (-1), (-1)]. Qed.

Lemma a_message_metadata cmd country : metadata (a_message cmd country) (chars country).
Proof. split; [by exists 0|by eexists|done]. Qed.

Lemma narrow_rows : Forall narrow some_rows.
Proof. unfold some_rows, narrow. repeat (apply Forall_cons; split; [cbn; lia|]). apply Forall_nil_2. Qed.

Lemma wide_rows : Forall wide some_rows.
Proof. eapply Forall_impl; [apply narrow_rows|]. intros r. apply narrow_wide. Qed.

Lemma some_data : ∃ d, represents d some_rows.
Proof.
  destruct (add_rows_ok new_data [] some_rows builds_new) as (b & _ & Hb); [|done|].
  - refine (bool_decide_unpack _ _). by vm_compute.
  - destruct (build_represents_aux b some_rows Hb) as (d & _ & Hd). by exists d.
Qed.

Lemma reload_publishes_witness :
  let o := dispatch no_globals (one_file (rows_text [] some_rows)) (a_message "reload" "CA") [7] in
  (¬ NoDup (map fst some_rows) ∧ o = Ok (answered [7] false NoCommit None)) ∨
  (NoDup (map fst some_rows) ∧ ∃ d, represents d some_rows ∧
     o = Ok (answered [7] true (country_update (chars "CA") d) None)).
Proof.
  apply (reload_publishes no_globals _ _ _ 7 7 (chars "CA") []); try done;
    [apply a_message_command|apply a_message_metadata|constructor|apply wide_rows].
Defined.

Lemma dump_reload_witness : ∃ d, represents d some_rows ∧
  let g := commit (CommitUS d) no_globals in
  ∃ text, dispatch g (one_file []) (a_message "dump" "US") [7] = Ok (answered [7] true NoCommit (Some text)) ∧
  ∀ g' fs' msg' argfd' fd' out' country',
    a_command msg' argfd' (chars "reload") fd' out' → metadata msg' country' →
    0 ≤ fd' → read_fd fs' fd' = Some text →
    ∃ d', dispatch g' fs' msg' argfd' = Ok (answered argfd' true (country_update country' d') None) ∧
          represents d' some_rows.
Proof.
  destruct some_data as [d Hd]. exists d. split; [done|].
  apply (dump_reload (commit (CommitUS d) no_globals) _ _ _ 7 7 (chars "US") d); try done;
    [apply a_message_command|apply a_message_metadata|apply narrow_rows].
Defined.

Lemma verify_counts_witness : ∃ d,
  dispatch (commit (CommitUS d) no_globals) (one_file (rows_text [CR] some_rows)) (a_message "verify" "US") [7] =
  Ok (answered [7] ((diffs d some_rows <? 100) && (Z.of_nat (length some_rows) =? PhoneMapping.size d)) NoCommit None).
Proof.
  destruct some_data as [d _]. exists d.
  apply (verify_counts (commit (CommitUS d) no_globals) _ _ _ 7 7 (chars "US") d [CR]); try done;
    [apply a_message_command|apply a_message_metadata|apply CR_ok|apply wide_rows].
Defined.

Lemma bad_line_reply_witness :
  dispatch no_globals (one_file (line_text [chars "+1 unknown,1,2,3,4"])) (a_message "youmail_reload" "US") [7] =
  Ok no_reply.
Proof.
  change no_reply with (if is_runtime_error invalid_argument then answered [7] false NoCommit None else no_reply).
  refine (bad_line_reply no_globals (one_file (line_text [chars "+1 unknown,1,2,3,4"]))
    (a_message "youmail_reload" "US") [7] 7 7 (chars "US") "youmail_reload"
    (Loader _ YoumailMapping.new_data YoumailMapping.setMetadata YoumailMapping.csv_line YoumailMapping.build CommitYoumail)
    [chars "+1 unknown,1,2,3,4"] invalid_argument _ _ _ _ _ _ _).
  - do 7 right; left; reflexivity.
  - apply a_message_command.
  - apply a_message_metadata.
  - done.
  - reflexivity.
  - apply Forall_singleton. by repeat constructor.
  - reflexivity.
Defined.

Lemma reload_unterminated_witness :
  dispatch no_globals (one_file (rows_text [] some_rows ++ row_text [] (1, 2))) (a_message "reload" "US") [7] =
  Ok (answered [7] false NoCommit None).
Proof.
  apply (reload_unterminated no_globals _ (a_message "reload" "US") [7] 7 7 (chars "US") [] some_rows (1, 2)); try done;
    [apply a_message_command|apply a_message_metadata|constructor| |].
  - apply Forall_app. split; [apply wide_rows|]. by apply Forall_singleton.
  - refine (bool_decide_unpack _ _). by vm_compute.
Defined.

Lemma dno_reload_forgets_witness : ∃ o d,
  dispatch no_globals (one_file (line_text [chars "201,x,y"])) (a_message "dno_npa_reload" "US") [7] = Ok o ∧
  exchange o = CommitDNO d ∧ f14_lookup (dno_dict d "dno_npa") 201 = Some 1 ∧
  f14_lookup (dno_dict d "dno") 2012000001 = None.
Proof.
  eexists _, _. split; [reflexivity|]. split; [done|]. split; [reflexivity|].
  eapply (dno_reload_forgets no_globals (one_file (line_text [chars "201,x,y"])) (a_message "dno_npa_reload" "US") [7] 7 7 "dno_npa");
    [right; left|apply a_message_command|reflexivity|done|left|done].
Defined.
