(* ===== verification/Server.v ===== *)
(** * The server behind the control socket: what holds of every run *)

From stdpp Require Import strings gmap relations.
From S2P Require Export Commands.

Section server.
Context `{FollyOk, FlagsOk, Clock}.

(** C23: a command that does not reply S publishes nothing, and what a command
  publishes is the data built from every line of the file behind the descriptor
  that its message names as "stdin", by the loader and for the country of the
  message.  A command that replies closes all of its descriptors, and a command
  that does not reply closes none. *)
Theorem command_all_or_nothing g fs msg argfd o : dispatch g fs msg argfd = Ok o →
(exchange o = NoCommit ∨ whole fs msg argfd (exchange o)) ∧
((status o = Some (ch "S") ∧ closed o = argfd) ∨
 (status o = Some (ch "F") ∧ exchange o = NoCommit ∧ closed o = argfd) ∨
 (status o = None ∧ exchange o = NoCommit ∧ dumped o = None ∧ closed o = [])).
Proof. apply dispatch_whole. Qed.

(** C16: in every run of the server, whatever messages arrive, however the files
  change and the commands interleave, the published mappings are the result of the
  exchanges of the run, in turn; every command that was started reads once and
  exchanges once, at most; and every published mapping comes from a command that
  the run received, that then read a file, and that then made the exchange: the
  mapping is the data that the loader of this command built from every line of
  the file that its descriptor held when it read, for the country of its message.
  A mapping of phone numbers represents the rows of these lines. *)
Theorem server_publishes_files tr s : server_run tr s →
vars s = foldl (λ g o, commit (exchange o) g) no_globals (exchanges tr) ∧
received tr ≡ₚ readers tr ++ waiting (jobs s) ∧ outcomes tr ≡ₚ exchanges tr ++ pending (jobs s) ∧
∀ u, u ∈ publications (vars s) → published_by tr u.
Proof.
intros Hr. destruct (run_counts tr s Hr) as [Hc Ho].
split_and!; [by apply run_vars|done|done|]. by apply run_ok.
Qed.

Lemma available_both g : isAvailable g = true → ∃ us ca, mappingUS g = Some us ∧ mappingCA g = Some ca.
Proof.
unfold isAvailable. destruct (mappingUS g) as [us|], (mappingCA g) as [ca|]; try done. by exists us, ca.
Qed.

Lemma published_rows tr g : (∀ u, u ∈ publications g → published_by tr u) → isAvailable g = true →
∃ us ca rows_us rows_ca, mappingUS g = Some us ∧ represents us rows_us ∧
  mappingCA g = Some ca ∧ represents ca rows_ca.
Proof.
intros Hw (us & ca & Eu & Ec)%available_both. unfold publications in Hw. rewrite Eu, Ec in Hw.
destruct (Hw (CommitUS us)) as (? & ? & ? & ? & ? & ? & ? & ? & ? & _ & _ & ? & ? & _ & _ & _ & (_ & r1 & _ & H1') & _);
  [apply elem_of_some; left|].
destruct (Hw (CommitCA ca)) as (? & ? & ? & ? & ? & ? & ? & ? & ? & _ & _ & ? & ? & _ & _ & _ & (_ & r2 & _ & H2') & _);
  [apply elem_of_some; right; left|].
by exists us, ca, r1, r2.
Qed.

(** C22: once the mappings of both countries were published they stay available:
  in every later state of the server both are there, and both represent a table
  of rows. *)
Theorem server_stays_available s s' : reachable s → isAvailable (vars s) = true → rtc server_step s s' →
∃ us ca rows_us rows_ca, mappingUS (vars s') = Some us ∧ represents us rows_us ∧
  mappingCA (vars s') = Some ca ∧ represents ca rows_ca.
Proof.
intros Hs Ha Hr. assert (Hs' : reachable s') by (by eapply rtc_trans; [exact Hs|exact Hr]).
apply reachable_run in Hs' as [tr Htr]. apply (published_rows tr); [by apply run_ok|by apply (isAvailable_rtc s)].
Qed.

(** A message that carries no descriptors is started with those of the
  message before it, and closes them a second time if it replies. *)
Lemma stale_descriptors old n1 n2 body1 body2 fds msg1 msg2 :
0 < n1 → 0 < n2 → parseJson (take PKTBUF body1) = Some msg1 → parseJson (take PKTBUF body2) = Some msg2 →
let (kept, started1) := control_round old (Packet n1 body1 (Some fds)) in
let (_, started2) := control_round kept (Packet n2 body2 None) in
started1 = Some (msg1, fds) ∧ started2 = Some (msg2, fds) ∧
∀ g g' fs fs' o1 o2, dispatch g fs msg1 fds = Ok o1 → dispatch g' fs' msg2 fds = Ok o2 →
  is_Some (status o1) → is_Some (status o2) → closed o1 = fds ∧ closed o2 = fds.
Proof.
intros Hn1 Hn2 E1 E2. unfold control_round, awaitMessage.
destruct (Z.leb_spec n1 0), (Z.leb_spec n2 0); try lia. cbn. rewrite E1, E2. split_and!; [done..|].
assert (Hclosed : ∀ g fs m o, dispatch g fs m fds = Ok o → is_Some (status o) → closed o = fds).
{ intros g fs m o Hd [c Hc]. apply dispatch_whole in Hd as (_ & [[_ ?]|[(_ & _ & ?)|(Hs & _)]]); [done..|congruence]. }
eauto.
Qed.

(** A command that runs alone. *)
Lemma run_alone tr s p fs argfd msg fds o : server_run tr s → jobs s = [] →
control_round (argfd_ s) p = (argfd, Some (msg, fds)) → dispatch (vars s) fs msg fds = Ok o →
server_run (tr ++ [Receive p (Some (msg, fds)); Read fs msg fds o; Publish o])
  (MkServer (commit (exchange o) (vars s)) argfd []).
Proof.
intros Hs Hj Hp Hd. destruct s as [g a j]. cbn in *. subst j.
apply (run_event _ (Receive p (Some (msg, fds))) _ (MkServer g argfd [Started msg fds])) in Hs; [|by apply (step_receive (MkServer g a []) p argfd (Some (msg, fds)))].
apply (run_event _ (Read fs msg fds o) _ (MkServer g argfd [Computed o])) in Hs;
  [|by apply (step_read (MkServer g argfd [Started msg fds]) fs msg fds [] [] o)].
apply (run_event _ (Publish o) _ (MkServer (commit (exchange o) g) argfd [])) in Hs;
  [|by apply (step_publish (MkServer g argfd [Computed o]) [] [] o)].
by rewrite <- !app_assoc in Hs.
Qed.
End server.

(** ** A run: both countries are loaded *)
Definition reload_packet (country : string) : packet := Packet 1 (chars ("reload," ++ country)) (Some [7]).

(** The command, run alone, and its trace. *)
Definition after_command (r : list event * server) (country : string) : list event * server :=
  let (tr, s) := r in
  let fs := one_file (rows_text [] some_rows) in
  let msg := a_message "reload" country in
  match dispatch (vars s) fs msg [7] with
  | Ok o => (tr ++ [Receive (reload_packet country) (Some (msg, [7])); Read fs msg [7] o; Publish o],
             MkServer (commit (exchange o) (vars s)) [7] [])
  | _ => r
  end.

Definition loaded_run : list event * server := after_command (after_command ([], initial_server) "US") "CA".
Definition loaded_server : server := loaded_run.2.

Lemma after_command_run r country : country = "US"%string ∨ country = "CA"%string →
  server_run r.1 r.2 → jobs r.2 = [] →
  let r' := after_command r country in server_run r'.1 r'.2 ∧ jobs r'.2 = [].
Proof.
  intros Hc Hs Hj. destruct r as [tr s]. cbn in Hs, Hj. unfold after_command.
  assert (Hp : control_round (argfd_ s) (reload_packet country) = ([7], Some (a_message "reload" country, [7])))
    by (destruct Hc; subst country; reflexivity).
  destruct (dispatch _ _ _ _) as [o|p|] eqn:Ed; [|by split..].
  split; [|reflexivity]. exact (run_alone tr s _ _ _ _ _ o Hs Hj Hp Ed).
Qed.

Lemma loaded_runs : server_run loaded_run.1 loaded_run.2.
Proof.
  unfold loaded_run.
  destruct (after_command_run ([], initial_server) "US") as [Hs Hj]; [by left|constructor|reflexivity|].
  destruct (after_command_run (after_command ([], initial_server) "US") "CA") as [Hr _];
    [by right|exact Hs|exact Hj|exact Hr].
Qed.

Lemma loaded_reachable : reachable loaded_server.
Proof. apply reachable_run. exists loaded_run.1. exact loaded_runs. Qed.

Lemma loaded_available : isAvailable (vars loaded_server) = true.
Proof. reflexivity. Qed.

Lemma command_all_or_nothing_witness :
  let o := MkOutcome (Some (ch "F")) NoCommit None [7] in
  (exchange o = NoCommit ∨
   whole (one_file (chars "12,13")) (a_message "reload" "US") [7] (exchange o)) ∧
  ((status o = Some (ch "S") ∧ closed o = [7]) ∨
   (status o = Some (ch "F") ∧ exchange o = NoCommit ∧ closed o = [7]) ∨
   (status o = None ∧ exchange o = NoCommit ∧ dumped o = None ∧ closed o = [])).
Proof.
  apply (command_all_or_nothing no_globals (one_file (chars "12,13")) (a_message "reload" "US") [7]). reflexivity.
Defined.

Lemma server_publishes_files_witness :
  let tr := loaded_run.1 in
  length (exchanges tr) = 2%nat ∧ length (publications (vars loaded_server)) = 2%nat ∧
  vars loaded_server = foldl (λ g o, commit (exchange o) g) no_globals (exchanges tr) ∧
  received tr ≡ₚ readers tr ++ waiting (jobs loaded_server) ∧
  outcomes tr ≡ₚ exchanges tr ++ pending (jobs loaded_server) ∧
  ∀ u, u ∈ publications (vars loaded_server) → published_by tr u.
Proof.
  split; [vm_compute; reflexivity|]. split; [vm_compute; reflexivity|].
  apply (server_publishes_files loaded_run.1 loaded_server), loaded_runs.
Defined.

Lemma server_stays_available_witness :
  ∃ us ca rows_us rows_ca, mappingUS (vars loaded_server) = Some us ∧ represents us rows_us ∧
    mappingCA (vars loaded_server) = Some ca ∧ represents ca rows_ca.
Proof.
  apply (server_stays_available loaded_server loaded_server);
    [apply loaded_reachable|apply loaded_available|apply rtc_refl].
Defined.

Lemma stale_descriptors_witness :
  let (kept, started1) := control_round [] (Packet 1 (chars "verify,US") (Some [7])) in
  let (_, started2) := control_round kept (Packet 1 (chars "meta,US") None) in
  started1 = Some (a_message "verify" "US", [7]) ∧ started2 = Some (a_message "meta" "US", [7]) ∧
  ∀ g g' fs fs' o1 o2, dispatch g fs (a_message "verify" "US") [7] = Ok o1 →
    dispatch g' fs' (a_message "meta" "US") [7] = Ok o2 →
    is_Some (status o1) → is_Some (status o2) → closed o1 = [7] ∧ closed o2 = [7].
Proof.
  apply (stale_descriptors [] 1 1 (chars "verify,US") (chars "meta,US") [7]
    (a_message "verify" "US") (a_message "meta" "US")); reflexivity.
Defined.
