(* ===== verification/ApiHandler.v ===== *)
(** * The HTTP API (ApiHandler.cpp)

    The handlers of [/target] and [/reverse].  The HTTP library (proxygen) calls
    [onRequest], then [onBody] for every piece of the body, then [onEOM]; what a
    handler sends to it is collected in [downstream_].  An exception in a function
    that is [noexcept], a null pointer that is dereferenced and an element out of
    range all end the process: they are [Fault]s. *)

From stdpp Require Import strings.
From S2P Require Export Control BatchMapping.

#[export] Existing Instances DncMapping.dnc_batch DnoMapping.dno_batch TollFreeMapping.tollfree_batch
  LergMapping.lerg_batch YoumailMapping.youmail_batch GeoMapping.geo_batch FtcMapping.ftc_batch
  F404Mapping.f404_batch F606Mapping.f606_batch.

Inductive HTTPMethod := GET | POST | OTHER_METHOD.
Inductive HTTPHeaderCode :=
| HTTP_HEADER_CONTENT_LENGTH | HTTP_HEADER_CONTENT_TYPE | HTTP_HEADER_ACCEPT | HTTP_HEADER_OTHER.
#[export] Instance header_code_dec : EqDecision HTTPHeaderCode.
Proof. solve_decision. Defined.

(** What the handlers use of proxygen. *)
Class Proxygen := {
  (** [HTTPMessage::splitNameValuePieces(query, '&', '=', ...)]: the pairs that
      the callback is called with. *)
  splitNameValuePieces : list Z → list (list Z * list Z);
  (** [RFC2616::parseQvalues]: the tokens, by their quality. *)
  parseQvalues : list Z → list (list Z);
  (** [HTTPHeaders::getSingleOrEmpty]. *)
  getSingleOrEmpty : list (HTTPHeaderCode * list Z) → HTTPHeaderCode → list Z;
}.

Record HTTPMessage := MkHTTPMessage {
  getMethod : HTTPMethod;
  getPath : list Z;
  getQueryString : list Z;
  getHeaders : list (HTTPHeaderCode * list Z);
}.

(** What is sent: a status with the content type of the headers, a piece of the
    body, the end of the message. *)
Inductive reply :=
| Status (code : Z) (content_type : option (list Z))
| SendBody (text : list Z)
| SendEOM.

Definition quote_char (a : ascii) : ascii := if Ascii.eqb a "'" then "034"%char else a.

(** The texts of JSON are written with single quotes here. *)
Fixpoint quoted (s : string) : string :=
  match s with EmptyString => EmptyString | String a s => String (quote_char a) (quoted s) end.

(** A library for evaluating the model: pairs without a name are dropped, and the
    qualities are taken to be in descending order. *)
Definition name_value (p : list Z) : option (list Z * list Z) :=
  match until (ch "=") p with
  | (name, Some value) => Some (name, value)
  | (_, None) => None
  end.

#[export] Instance proxygen_model : Proxygen := {
  splitNameValuePieces query := omap name_value (pieces (ch "&") query);
  parseQvalues accept := pieces (ch ",") accept;
  getSingleOrEmpty headers code :=
    match List.filter (λ e, bool_decide (e.1 = code)) headers with [(_, v)] => v | _ => [] end;
}.

Section ApiHandler.
Context `{Folly, Flags, !FlagsOk, Clock, Proxygen}.

Definition isJsonRequested (accept : list Z) : bool :=
match parseQvalues accept with t :: _ => list_eqb t (chars "application/json") | [] => false end.

Definition bad_request : list reply := [Status 400 None; SendEOM].
Definition content_type (json : bool) : list Z :=
if json then chars "application/json" else chars "text/plain".

(** ** The records *)

(** What is known of a number: [None] where the mapping is not loaded. *)
Record facts := MkFacts {
pn : Z;
us_rn : Z;
ca_rn : Z;
us_dnc : option Z;
us_dno : option Z;
us_tollfree : option Z;
us_lerg : option LergMapping.LergData;
us_youmail : option YoumailMapping.YoumailData;
us_geo : option GeoMapping.GeoData;
us_ftc : option FtcMapping.FtcData;
us_f404 : option F404Mapping.F404Data;
us_f606 : option F606Mapping.F606Data;
}.

(** [if (rn == PhoneNumber::NONE) rn = ca_rn_[i];] *)
Definition either_rn (us ca : Z) : Z := if us =? NONE then ca else us.

Definition lrn_str (json : bool) (pn rn : Z) : list Z :=
if json then
  if negb (rn =? NONE) then format (quoted "'pn': '{}', 'rn': '{}'") [dec pn; dec rn]
  else format (quoted "'pn': '{}', 'rn': null") [dec pn]
else
  if negb (rn =? NONE) then format "pn={},lrn={}" [dec pn; dec rn]
  else format "pn={},lrn=null" [dec pn].

Definition flag_str (json : bool) (name : string) (flag : option Z) : list Z :=
let value := match flag with None | Some 0 => "no"%string | Some _ => "yes"%string end in
chars (if json then quoted ("'" ++ name ++ "': '" ++ value ++ "'") else name ++ "=" ++ value).

Definition no_lerg_str (json : bool) : list Z :=
chars (if json then quoted "'ocn':: null, 'operator': null, 'ocn_type': null, 'lata': null, 'rate_center': null, 'country': null"
       else "ocn=null, operator=null, ocn_type=null, lata=null, rate_center=null, country=null ").

Definition lerg_str (json : bool) (lerg : option LergMapping.LergData) : list Z :=
match lerg with
| Some (LergMapping.MkLergData lerg_key _ company ocn rate_center ocn_type lata country) =>
    if lerg_key =? 0 then no_lerg_str json else
    format (if json then quoted "'ocn': '{}', 'operator': '{}', 'ocn_type': '{}', 'lata': '{}', 'rate_center': '{}', 'country': '{}'"
            else "ocn={}, operator={}, ocn_type={}, lata={}, rate_center={}, country={}")
      [ocn; company; ocn_type; lata; rate_center; country]
| None => no_lerg_str json
end.

Definition no_youmail_str (json : bool) : list Z :=
chars (if json then quoted "'youmail_SpamScore': null, 'youmail_FraudProbability': null, 'youmail_Unlawful': null, ' youmail_TCPAFraudProbability': null"
       else "youmail_SpamScore=null, youmail_FraudProbability=null, youmail_Unlawful=null, youmail_TCPAFraudProbability=null").

Definition youmail_str (json : bool) (youmail : option YoumailMapping.YoumailData) : list Z :=
match youmail with
| Some (YoumailMapping.MkYoumailData key sapmscore fraudprobability unlawful tcpafraud) =>
    if key =? 0 then no_youmail_str json else
    format (if json then quoted "'youmail_SpamScore': '{}', 'youmail_FraudProbability': '{}', 'youmail_Unlawful': '{}', 'youmail_TCPAFraudProbability': '{}'"
            else "youmail_SpamScore={}, youmail_FraudProbability={}, youmail_Unlawful={}, youmail_TCPAFraudProbability={}")
      [sapmscore; fraudprobability; unlawful; tcpafraud]
| None => no_youmail_str json
end.

Definition no_geo_str (json : bool) : list Z :=
chars (if json then quoted "'zipcode': null, 'county': null, 'city': null, ' latitude': null, ' longitude': null, ' timezone': null"
       else "zipcode=null, county=null, city=null, latitude=null, longitude=null, timezone=null").

Definition geo_str (json : bool) (geo : option GeoMapping.GeoData) : list Z :=
match geo with
| Some (GeoMapping.MkGeoData npanxx zipcode county city latitude longitude timezone) =>
    if npanxx =? 0 then no_geo_str json else
    format (if json then quoted "'zipcode': '{}', 'county': '{}', 'city': '{}', 'latitude': '{}', 'longitude': '{}', 'timezone': '{}'"
            else "zipcode={}, county={}, city={}, latitude={}, longitude={}, timezone={}")
      [zipcode; county; city; latitude; longitude; timezone]
| None => no_geo_str json
end.

Definition no_ftc_str (json : bool) : list Z :=
chars (if json then quoted "'is_ftc': 'no', 'last_ftc_on': null, 'first_ftc_on': null, 'ftc_count': null"
       else "is_ftc=no, last_ftc_on=null, first_ftc_on=null, ftc_count=null").

Definition ftc_str (json : bool) (ftc : option FtcMapping.FtcData) : list Z :=
match ftc with
| Some (FtcMapping.MkFtcData key last_ftc_on first_ftc_on ftc_count) =>
    if key =? 0 then no_ftc_str json else
    format (if json then quoted "'is_ftc': 'yes', 'last_ftc_on': '{}', 'first_ftc_on': '{}', ' ftc_count': '{}'"
            else "is_ftc=yes, last_ftc_on={}, first_ftc_on={}, ftc_count={}")
      [last_ftc_on; first_ftc_on; ftc_count]
| None => no_ftc_str json
end.

Definition no_f404_str (json : bool) : list Z :=
chars (if json then quoted "'first_404_on': null, 'last_404_on': null" else "first_404_on=null, last_404_on=null").

Definition f404_str (json : bool) (f404 : option F404Mapping.F404Data) : list Z :=
match f404 with
| Some (F404Mapping.MkF404Data key last_on first_on) =>
    if key =? 0 then no_f404_str json else
    format (if json then quoted "'first_404_on': '{}', 'last_404_on': '{}'" else "first_404_on={}, last_404_on={}")
      [first_on; last_on]
| None => no_f404_str json
end.

Definition no_f606_str (json : bool) : list Z :=
chars (if json then quoted "'first_6xx_on': null, 'last_6xx_on': null" else "first_6xx_on=null, last_6xx_on=null").

Definition f606_str (json : bool) (f606 : option F606Mapping.F606Data) : list Z :=
match f606 with
| Some (F606Mapping.MkF606Data key last_on first_on) =>
    if key =? 0 then no_f606_str json else
    format (if json then quoted "'first_6xx_on': '{}', 'last_6xx_on': '{}'" else "first_6xx_on={}, last_6xx_on={}")
      [first_on; last_on]
| None => no_f606_str json
end.

(** What the loop over the numbers appends for one of them. *)
Definition record_of (json : bool) (a : facts) : list Z :=
format "  {{{}, {}, {}, {}, {}, {}, {}, {}, {}, {}}},"
  [lrn_str json (pn a) (either_rn (us_rn a) (ca_rn a)); flag_str json "is_dno" (us_dno a);
   flag_str json "is_dnc" (us_dnc a); flag_str json "is_tollfree" (us_tollfree a);
   lerg_str json (us_lerg a); youmail_str json (us_youmail a); geo_str json (us_geo a);
   ftc_str json (us_ftc a); f404_str json (us_f404 a); f606_str json (us_f606 a)] ++ [LF].

(** ** The batch queries *)

(** [resize(N)] and the lookup of the batch, when the mapping is loaded. *)
Definition query {D A} `{BatchMapping D A} (p : option D) (init : A) (keys : list Z) : res (option (list A)) :=
match p with
| None => mret None
| Some d => v ← getMany d keys (replicate (length keys) init); mret (Some v)
end.

(** [us_dnc_[i]], behind the test of [dncAvailable]. *)
Definition element {A} (v : option (list A)) (i : Z) : res (option A) :=
match v with None => mret None | Some v => a ← vget v i; mret (Some a) end.

Definition phone_rns (p : option PhoneMapping.Data) (pns : list Z) : res (list Z) :=
match p with None => Fault 0 | Some d => PhoneMapping.getRNs d pns end.

(** The keys for the LERG: the routing number, or the number itself. *)
Definition lerg_key_of (pn us ca : Z) : Z :=
let rn := either_rn us ca in if negb (rn =? NONE) then rn else pn.

Fixpoint lerg_keys (pns us ca : list Z) : list Z :=
match pns, us, ca with
| pn :: pns, u :: us, c :: ca => lerg_key_of pn u c :: lerg_keys pns us ca
| _, _, _ => []
end.

(** The records of all the numbers. *)
Definition target_records (g : globals) (json : bool) (pns : list Z) : res (list (list Z)) :=
us ← phone_rns (mappingUS g) pns;
ca ← phone_rns (mappingCA g) pns;
dnc ← query (mappingDNC g) 0 pns;
dno ← query (mappingDNO g) 0 pns;
tollfree ← query (mappingTollFree g) 0 pns;
lerg ← query (mappingLerg g) LergMapping.no_lerg (lerg_keys pns us ca);
youmail ← query (mappingYoumail g) YoumailMapping.no_youmail pns;
geo ← query (mappingGeo g) GeoMapping.no_geo pns;
ftc ← query (mappingFtc g) FtcMapping.no_ftc pns;
f404 ← query (mapping404 g) F404Mapping.no_f404 pns;
f606 ← query (mapping606 g) F606Mapping.no_f606 pns;
mapM (λ i,
  let i := Z.of_nat i in
  pn ← vget pns i; u ← vget us i; c ← vget ca i;
  nc ← element dnc i; no ← element dno i; tf ← element tollfree i; l ← element lerg i;
  y ← element youmail i; ge ← element geo i; ft ← element ftc i; f4 ← element f404 i; f6 ← element f606 i;
  mret (record_of json (MkFacts pn u c nc no tf l y ge ft f4 f6))) (seq 0 (length pns)).

(** ** TargetHandler *)
Record TargetHandler := MkTarget {
needBody_ : bool;
json_ : bool;
body_ : option (list Z);
pn_ : list Z;
downstream_ : list reply;
}.

Definition new_target : TargetHandler := MkTarget true false None [] [].

Definition set_need (h : TargetHandler) (b : bool) : TargetHandler :=
MkTarget b (json_ h) (body_ h) (pn_ h) (downstream_ h).
Definition send (h : TargetHandler) (l : list reply) : TargetHandler :=
MkTarget (needBody_ h) (json_ h) (body_ h) (pn_ h) (downstream_ h ++ l).

(** [folly::to<size_t>] throws where [tryTo] fails. *)
Definition sanitizeHeader (h : TargetHandler) (header : HTTPHeaderCode * list Z) : res TargetHandler :=
let (code, value) := header in
match code with
| HTTP_HEADER_CONTENT_LENGTH =>
    match tryTo_u64 value with
    | None => Fault 0
    | Some n => mret (if FLAGS_max_query_length <? n then set_need h false else h)
    end
| HTTP_HEADER_CONTENT_TYPE =>
    mret (if negb (list_eqb value (chars "application/x-www-form-urlencoded")) then set_need h false else h)
| HTTP_HEADER_ACCEPT =>
    mret (MkTarget (needBody_ h) (isJsonRequested value) (body_ h) (pn_ h) (downstream_ h))
| HTTP_HEADER_OTHER => mret h
end.

Fixpoint sanitizeHeaders (h : TargetHandler) (headers : list (HTTPHeaderCode * list Z)) : res TargetHandler :=
match headers with
| [] => mret h
| x :: headers => h ← sanitizeHeader h x; sanitizeHeaders h headers
end.

Definition onQueryParam (h : TargetHandler) (param : list Z * list Z) : TargetHandler :=
let (name, value) := param in
if list_eqb name (chars "phone%5B%5D") || list_eqb name (chars "phone[]") then
  let pn := fromString value in
  if negb (pn =? NONE) then MkTarget (needBody_ h) (json_ h) (body_ h) (pn_ h ++ [pn]) (downstream_ h) else h
else h.

Definition onQueryString (h : TargetHandler) (query : list Z) : TargetHandler :=
foldl onQueryParam h (splitNameValuePieces query).

Definition onQueryComplete (g : globals) (h : TargetHandler) : res TargetHandler :=
records ← target_records g (json_ h) (pn_ h);
let h := send h [Status 200 (Some (content_type (json_ h)))] in
let record := (if json_ h then chars "[" ++ [LF] else []) ++ concat records ++
              (if json_ h then chars "]" ++ [LF] else []) in
mret (send h ((if list_eqb record [] then [] else [SendBody record]) ++ [SendEOM])).

Definition onRequest (g : globals) (h : TargetHandler) (req : HTTPMessage) : res TargetHandler :=
h ← sanitizeHeaders h (getHeaders req);
match getMethod req with
| GET =>
    let h := set_need h false in
    onQueryComplete g (onQueryString h (getQueryString req))
| POST => if needBody_ h then mret h else mret (set_need (send h bad_request) false)
| OTHER_METHOD => mret (set_need (send h bad_request) false)
end.

Definition onBody (h : TargetHandler) (body : list Z) : TargetHandler :=
if negb (needBody_ h) then h else
let chain := match body_ h with Some b => b ++ body | None => body end in
if FLAGS_max_query_length <? vsize chain
then send (MkTarget false (json_ h) None (pn_ h) (downstream_ h)) bad_request
else MkTarget (needBody_ h) (json_ h) (Some chain) (pn_ h) (downstream_ h).

Definition onEOM (g : globals) (h : TargetHandler) : res TargetHandler :=
if needBody_ h then
  onQueryComplete g (onQueryString h (match body_ h with Some b => b | None => [] end))
else mret h.

(** A request, in the order in which the library calls the handler; [g] and [g']
  are what is published at its beginning and at its end. *)
Definition serve_target (g g' : globals) (req : HTTPMessage) (bodies : list (list Z)) : res (list reply) :=
h ← onRequest g new_target req;
h ← onEOM g' (foldl onBody h bodies);
mret (downstream_ h).

(** ** ReverseHandler *)

Fixpoint shift10 (n : nat) (from to : Z) : Z * Z :=
match n with
| O => (from, to)
| S n => shift10 n (u64 (from * 10)) (u64 (to * 10))
end.

Definition reverse_onQueryParam (query : list (Z * Z)) (param : list Z * list Z) : list (Z * Z) :=
let (name, value) := param in
if list_eqb name (chars "prefix%5B%5D") || list_eqb name (chars "prefix[]") then
  if 10 <? vsize value then query else
  match tryTo_u64 value with
  | None => query
  | Some from => query ++ [shift10 (10 - length value) from (u64 (from + 1))]
  end
else query.

(** [record_] and what was sent. *)
Record output := MkOutput { record_ : list Z; sent : list reply }.

Definition format_row (json : bool) (pn rn : Z) : list Z :=
(if json then format (quoted "  {{'pn': '{}', 'rn': '{}'}},") [dec pn; dec rn]
 else format "{},{}" [dec pn; dec rn]) ++ [LF].

Definition append (out : output) (text : list Z) : output := MkOutput (record_ out ++ text) (sent out).

Definition flush (out : output) : output :=
if 1000 <? vsize (record_ out) then MkOutput [] (sent out ++ [SendBody (record_ out)]) else out.

(** One round of [for (; db.hasRow(); db.advance())]. *)
Definition sendBody_step (json : bool) (s : PhoneMapping * output) : res (PhoneMapping * output + PhoneMapping * output) :=
let (db, out) := s in
if hasRow db then
  pn ← currentPN db;
  rn ← currentRN db;
  let out := flush (append out (format_row json pn rn)) in
  db ← advance db;
  mret (inl (db, out))
else mret (inr (db, out)).

Definition sendBody (json : bool) (db : PhoneMapping) (out : output) : res (PhoneMapping * output) :=
loop (sendBody_step json) (S (length (pnColumn (data_ db)))) (db, out).

Fixpoint send_ranges (json : bool) (query : list (Z * Z)) (us ca : PhoneMapping) (out : output) : res output :=
match query with
| [] => mret out
| (from, to) :: query =>
    us ← inverseRNs us from to;
    '(us, out) ← sendBody json us out;
    ca ← inverseRNs ca from to;
    '(ca, out) ← sendBody json ca out;
    send_ranges json query us ca out
end.

(** The whole of a request: the handler answers in [onRequest]. *)
Definition serve_reverse (g : globals) (req : HTTPMessage) : res (list reply) :=
match getMethod req with
| GET =>
    let query := foldl reverse_onQueryParam [] (splitNameValuePieces (getQueryString req)) in
    let json := isJsonRequested (getSingleOrEmpty (getHeaders req) HTTP_HEADER_ACCEPT) in
    let out := MkOutput (if json then chars "[" ++ [LF] else []) [Status 200 (Some (content_type json))] in
    us ← match mappingUS g with Some d => mret (MkPhoneMapping d None) | None => Fault 0 end;
    ca ← match mappingCA g with Some d => mret (MkPhoneMapping d None) | None => Fault 0 end;
    out ← send_ranges json query us ca out;
    let out := append out (if json then chars "]" ++ [LF] else []) in
    mret (sent out ++ (if list_eqb (record_ out) [] then [] else [SendBody (record_ out)]) ++ [SendEOM])
| _ => mret bad_request
end.

(** ** The factory *)
Inductive handler := HTarget | HReverse | HDirect (code : Z).

Definition makeHandler (g : globals) (h : handler) : handler :=
if isAvailable g then h else HDirect 503.

Definition factory_onRequest (g : globals) (path : list Z) : handler :=
if list_eqb path (chars "/target") then makeHandler g HTarget
else if list_eqb path (chars "/reverse") then makeHandler g HReverse
else HDirect 404.
End ApiHandler.
