(* ===== verification/ApiTarget.v ===== *)
(** * What [/target] answers *)

From stdpp Require Import strings gmap relations.
From S2P Require Export Server ApiHandler.

Lemma res_mret_bind {A B} (a : A) (f : A → res B) : mret a ≫= f = f a.
Proof. done. Qed.

(** A loop over the indexes of a vector. *)
Lemma mapM_seq {A B} (f : nat → res B) (g : A → B) (l : list A) k :
  (∀ i x, l !! i = Some x → f (k + i)%nat = Ok (g x)) → mapM f (seq k (length l)) = Ok (map g l).
Proof.
  revert k. induction l as [|x l IH]; intros k Hf; [done|]. cbn [length seq mapM map].
  pose proof (Hf O x eq_refl) as H0. rewrite Nat.add_0_r in H0. rewrite H0. cbn [mbind res_bind].
  rewrite (IH (S k)); [done|]. intros i y Hi. rewrite <- (Hf (S i) y Hi). f_equal. lia.
Qed.

(** ** One number *)
Section target.
Context `{FollyOk, Flags, !FlagsOk, Clock, Proxygen}.

Definition ask {D A} `{BatchMapping D A} (p : option D) (init : A) (key : Z) : option A :=
(λ d, answer d key init) <$> p.

(** What is known of a number, from the mappings one by one. *)
Definition facts_of (g : globals) (us ca : PhoneMapping.Data) (n : Z) : facts :=
let u := default NONE (f14_lookup (dict us) n) in
let c := default NONE (f14_lookup (dict ca) n) in
MkFacts n u c (ask (mappingDNC g) 0 n) (ask (mappingDNO g) 0 n) (ask (mappingTollFree g) 0 n)
  (ask (mappingLerg g) LergMapping.no_lerg (lerg_key_of n u c))
  (ask (mappingYoumail g) YoumailMapping.no_youmail n) (ask (mappingGeo g) GeoMapping.no_geo n)
  (ask (mappingFtc g) FtcMapping.no_ftc n) (ask (mapping404 g) F404Mapping.no_f404 n)
  (ask (mapping606 g) F606Mapping.no_f606 n).

Lemma query_ok {D A} `{BatchMapping D A} (p : option D) (init : A) keys :
query p init keys = Ok ((λ d, map (λ k, answer d k init) keys) <$> p).
Proof.
destruct p as [d|]; [|done]. cbn. rewrite getMany_answer by apply length_replicate.
cbn. by rewrite zip_with_replicate_r.
Qed.

Lemma element_ok {D A} `{BatchMapping D A} (p : option D) (init : A) keys i k : keys !! i = Some k →
element ((λ d, map (λ k, answer d k init) keys) <$> p) (Z.of_nat i) = Ok (ask p init k).
Proof.
intros Hk. destruct p as [d|]; [|done]. cbn. rewrite (vget_nat _ i (answer d k init)); [done|].
by rewrite list_lookup_fmap, Hk.
Qed.

Lemma phone_rns_ok d pns : phone_rns (Some d) pns = Ok (map (λ n, default NONE (f14_lookup (dict d) n)) pns).
Proof.
unfold phone_rns, PhoneMapping.getRNs. rewrite batch_ok; [|apply f14map_pos|by rewrite length_replicate].
by rewrite zip_with_replicate_r.
Qed.

Lemma lerg_keys_ok f g pns : lerg_keys pns (map f pns) (map g pns) = map (λ n, lerg_key_of n (f n) (g n)) pns.
Proof. induction pns as [|n pns IH]; [done|]. cbn. by rewrite IH. Qed.

Lemma target_records_ok g json us ca pns : mappingUS g = Some us → mappingCA g = Some ca →
target_records g json pns = Ok (map (λ n, record_of json (facts_of g us ca n)) pns).
Proof.
intros Hus Hca. unfold target_records. rewrite Hus, Hca, !phone_rns_ok. cbn [mbind res_bind].
rewrite lerg_keys_ok, !query_ok. cbn [mbind res_bind]. apply mapM_seq. intros i n Hn. rewrite Nat.add_0_l.
rewrite (vget_nat pns i n), !(vget_nat (map _ pns) i _ (list_lookup_fmap_Some_2 _ _ _ _ Hn)) by done.
cbn [mbind res_bind].
erewrite !element_ok by (exact Hn || (rewrite list_lookup_fmap, Hn; reflexivity)). done.
Qed.

(** ** Requests *)

(** A Content-Length that [folly::to<size_t>] does not understand makes it throw
  in [sanitizeHeader], which is [noexcept]: the process ends. *)
Definition numeric (h : HTTPHeaderCode * list Z) : bool :=
match h with
| (HTTP_HEADER_CONTENT_LENGTH, v) => match tryTo_u64 v with Some _ => true | None => false end
| _ => true
end.
Definition numeric_lengths (headers : list (HTTPHeaderCode * list Z)) : bool := forallb numeric headers.

(** Whether the headers allow a body. *)
Definition acceptable (h : HTTPHeaderCode * list Z) : bool :=
match h with
| (HTTP_HEADER_CONTENT_LENGTH, v) => default 0 (tryTo_u64 v) <=? FLAGS_max_query_length
| (HTTP_HEADER_CONTENT_TYPE, v) => list_eqb v (chars "application/x-www-form-urlencoded")
| _ => true
end.

(** The last Accept header decides. *)
Definition json_step (json : bool) (h : HTTPHeaderCode * list Z) : bool :=
match h with (HTTP_HEADER_ACCEPT, v) => isJsonRequested v | _ => json end.
Definition wants_json (headers : list (HTTPHeaderCode * list Z)) : bool := foldl json_step false headers.

(** The numbers that a query asks for. *)
Definition phone_param (name : list Z) : bool :=
list_eqb name (chars "phone%5B%5D") || list_eqb name (chars "phone[]").
Definition numbers (query : list Z) : list Z :=
List.filter (λ n, negb (n =? NONE))
  (map (λ p, fromString p.2) (List.filter (λ p, phone_param p.1) (splitNameValuePieces query))).

(** The answer to a list of numbers: one record for each, in their order. *)
Definition answer_text (g : globals) (us ca : PhoneMapping.Data) (json : bool) (pns : list Z) : list Z :=
(if json then chars "[" ++ [LF] else []) ++
concat (map (λ n, record_of json (facts_of g us ca n)) pns) ++
(if json then chars "]" ++ [LF] else []).

Definition the_answer (g : globals) (us ca : PhoneMapping.Data) (json : bool) (pns : list Z) : list reply :=
Status 200 (Some (content_type json)) ::
(if list_eqb (answer_text g us ca json pns) [] then [] else [SendBody (answer_text g us ca json pns)]) ++
[SendEOM].

Lemma sanitizeHeaders_ok h headers :
sanitizeHeaders h headers =
if numeric_lengths headers
then Ok (MkTarget (needBody_ h && forallb acceptable headers) (foldl json_step (json_ h) headers)
      (body_ h) (pn_ h) (downstream_ h))
else Fault 0.
Proof.
revert h. induction headers as [|[code v] headers IH]; intros h.
{ cbn. rewrite andb_true_r. by destruct h. }
unfold numeric_lengths in *. cbn [sanitizeHeaders sanitizeHeader forallb].
destruct code; cbn [numeric andb mbind res_bind mret res_ret]; [|by rewrite IH; cbn [acceptable]; destruct (list_eqb _ _);
  cbn; rewrite ?andb_false_r|by rewrite IH..].
destruct (tryTo_u64 v) as [n|] eqn:Hn; [|done]. cbn [andb mbind res_bind mret res_ret]. rewrite IH.
destruct (forallb numeric headers); [|done]. cbn [acceptable foldl json_step]. rewrite Hn. cbn [default].
change (id n) with n.
destruct (Z.ltb_spec FLAGS_max_query_length n), (Z.leb_spec n FLAGS_max_query_length); try lia; cbn;
  by rewrite ?andb_false_r.
Qed.

(** Such a request ends the process whatever is published: nothing catches what
  [folly::to] throws. *)
Lemma bad_length_ends g g' req bodies : numeric_lengths (getHeaders req) = false →
serve_target g g' req bodies = Fault 0.
Proof. intros Hn. unfold serve_target, onRequest. by rewrite sanitizeHeaders_ok, Hn. Qed.

Lemma onQueryString_ok h query :
onQueryString h query = MkTarget (needBody_ h) (json_ h) (body_ h) (pn_ h ++ numbers query) (downstream_ h).
Proof.
unfold onQueryString, numbers. generalize (splitNameValuePieces query). intros l. revert h.
induction l as [|[name v] l IH]; intros h.
{ cbn. rewrite app_nil_r. by destruct h. }
cbn [foldl List.filter fst]. rewrite IH. unfold onQueryParam. fold (phone_param name).
destruct (phone_param name); cbn [map List.filter snd]; [|done].
destruct (negb (fromString v =? NONE)); [|done]. cbn. by rewrite <- app_assoc.
Qed.

Lemma onQueryComplete_ok g us ca h : mappingUS g = Some us → mappingCA g = Some ca →
onQueryComplete g h =
Ok (send h (the_answer g us ca (json_ h) (pn_ h))).
Proof.
intros Hus Hca. unfold onQueryComplete. rewrite (target_records_ok g (json_ h) us ca) by done.
cbn [mbind res_bind mret res_ret]. unfold send, the_answer. cbn [needBody_ json_ body_ pn_ downstream_].
by rewrite <- app_assoc.
Qed.

(** The pieces of a body: what was answered while they came, or the whole body. *)
Lemma onBodies_done h bodies : needBody_ h = false → foldl onBody h bodies = h.
Proof.
intros Hn. revert h Hn. induction bodies as [|b bodies IH]; intros h Hn; [done|]. cbn.
replace (onBody h b) with h; [by apply IH|]. unfold onBody. by rewrite Hn.
Qed.

Definition body_text (h : TargetHandler) : list Z := match body_ h with Some b => b | None => [] end.

Lemma onBody_need h b : needBody_ h = true →
onBody h b =
if FLAGS_max_query_length <? vsize (body_text h ++ b)
then send (MkTarget false (json_ h) None (pn_ h) (downstream_ h)) bad_request
else MkTarget (needBody_ h) (json_ h) (Some (body_text h ++ b)) (pn_ h) (downstream_ h).
Proof. intros Hn. unfold onBody, body_text. rewrite Hn. by destruct (body_ h). Qed.

Lemma onBodies_ok h bodies : needBody_ h = true → vsize (body_text h) ≤ FLAGS_max_query_length →
let total := body_text h ++ concat bodies in
let h' := foldl onBody h bodies in
if vsize total <=? FLAGS_max_query_length
then needBody_ h' = true ∧ body_text h' = total ∧ json_ h' = json_ h ∧ pn_ h' = pn_ h ∧ downstream_ h' = downstream_ h
else needBody_ h' = false ∧ downstream_ h' = downstream_ h ++ bad_request.
Proof.
revert h. induction bodies as [|b bodies IH]; intros h Hn Hb.
{ cbn. rewrite app_nil_r. destruct (Z.leb_spec (vsize (body_text h)) FLAGS_max_query_length); [done|lia]. }
cbn [foldl concat]. cbv zeta in *.
rewrite onBody_need by done.
destruct (Z.ltb_spec FLAGS_max_query_length (vsize (body_text h ++ b))) as [Hgt|Hle].
- rewrite onBodies_done by done.
  destruct (Z.leb_spec (vsize (body_text h ++ b ++ concat bodies)) FLAGS_max_query_length) as [Hle|]; [|done].
  exfalso. unfold vsize in *. rewrite !length_app in *. lia.
- set (h1 := MkTarget _ _ (Some _) _ _). specialize (IH h1 Hn Hle).
  change (body_text h1) with (body_text h ++ b) in IH. rewrite <- app_assoc in IH. exact IH.
Qed.

Lemma serve_target_ok g g' us ca us' ca' req bodies :
mappingUS g = Some us → mappingCA g = Some ca → mappingUS g' = Some us' → mappingCA g' = Some ca' →
0 ≤ FLAGS_max_query_length →
let json := wants_json (getHeaders req) in
serve_target g g' req bodies =
if numeric_lengths (getHeaders req) then Ok
  match getMethod req with
  | GET => the_answer g us ca json (numbers (getQueryString req))
  | POST =>
      if forallb acceptable (getHeaders req) && (vsize (concat bodies) <=? FLAGS_max_query_length)
      then the_answer g' us' ca' json (numbers (concat bodies))
      else bad_request
  | OTHER_METHOD => bad_request
  end
else Fault 0.
Proof.
intros Hus Hca Hus' Hca' Hmax. cbv zeta. unfold serve_target, onRequest.
rewrite sanitizeHeaders_ok. destruct (numeric_lengths (getHeaders req)); [|done]. cbn [mbind res_bind new_target needBody_ json_ body_ pn_ downstream_ andb].
fold (wants_json (getHeaders req)). destruct (getMethod req).
- rewrite onQueryString_ok, (onQueryComplete_ok g us ca) by done. cbn [mbind res_bind].
  rewrite onBodies_done by done. done.
- destruct (forallb acceptable (getHeaders req)) eqn:Ea; cbn [needBody_ andb mbind res_bind].
  + set (h := MkTarget true _ _ _ _). rewrite res_mret_bind.
    pose proof (onBodies_ok h bodies eq_refl Hmax) as Hb. cbv zeta in Hb. cbn [body_text h body_ app json_ pn_ downstream_] in Hb.
    destruct (vsize (concat bodies) <=? FLAGS_max_query_length).
    * destruct Hb as (E1 & E2 & E3 & E4 & E5). unfold onEOM. rewrite E1. fold (body_text (foldl onBody h bodies)).
      rewrite E2, onQueryString_ok, (onQueryComplete_ok g' us' ca') by done.
      cbn [mbind res_bind send downstream_ json_ pn_]. by rewrite E3, E4, E5.
    * destruct Hb as [E1 E2]. unfold onEOM. rewrite E1. cbn. by rewrite E2.
  + rewrite res_mret_bind, onBodies_done by done. done.
- rewrite res_mret_bind, onBodies_done by done. done.
Qed.

(** An answer of the library's protocol: one status, at most one body, the end. *)
Definition one_answer (l : list reply) : Prop :=
∃ code ct body, l = Status code ct :: body ++ [SendEOM] ∧ (code = 200 ∨ code = 400) ∧
  (body = [] ∨ ∃ text, body = [SendBody text]).

Lemma the_answer_one g us ca json pns : one_answer (the_answer g us ca json pns).
Proof.
unfold the_answer. eexists 200, _, _. split; [reflexivity|]. split; [by left|].
destruct (list_eqb _ _); [by left|right; by eexists].
Qed.

Lemma bad_request_one : one_answer bad_request.
Proof. exists 400, None, []. split; [done|]. split; [by right|by left]. Qed.

(** C17: what [/target] answers.  A request with a Content-Length that is not a
  number is not answered: it ends the process.  To every other request, whatever
  the pieces of the body, the handler sends one answer: for a GET the records of
  the numbers of the query string; for a POST those of the whole body, if the
  headers allow it and it is not longer than the limit; otherwise 400.  The record
  of a number depends on this number and the mappings alone, not on the other
  numbers or the batches. *)
Theorem target_serves g g' us ca us' ca' req bodies :
mappingUS g = Some us → mappingCA g = Some ca → mappingUS g' = Some us' → mappingCA g' = Some ca' →
0 ≤ FLAGS_max_query_length →
let json := wants_json (getHeaders req) in
serve_target g g' req bodies =
if numeric_lengths (getHeaders req) then Ok
  match getMethod req with
  | GET => the_answer g us ca json (numbers (getQueryString req))
  | POST =>
      if forallb acceptable (getHeaders req) && (vsize (concat bodies) <=? FLAGS_max_query_length)
      then the_answer g' us' ca' json (numbers (concat bodies))
      else bad_request
  | OTHER_METHOD => bad_request
  end
else Fault 0.
Proof. apply serve_target_ok. Qed.

(** C18: a request that the factory gives to the [/target] handler is answered
  exactly once, whatever mappings are replaced while it is processed, if each of
  its Content-Length headers is a number: once both countries were published the
  handler never meets a null pointer.  A request with another Content-Length is
  not answered: it ends the process, whatever is published. *)
Theorem target_answers_once s s1 s2 path req bodies :
reachable s → factory_onRequest (vars s) path = HTarget → rtc server_step s s1 → rtc server_step s1 s2 →
0 ≤ FLAGS_max_query_length →
if numeric_lengths (getHeaders req)
then ∃ replies, serve_target (vars s1) (vars s2) req bodies = Ok replies ∧ one_answer replies
else serve_target (vars s1) (vars s2) req bodies = Fault 0.
Proof.
intros Hs Hf H01 H12 Hmax.
assert (Ha : isAvailable (vars s) = true).
{ unfold factory_onRequest, makeHandler in Hf. destruct (isAvailable (vars s)); [done|].
  by destruct (list_eqb path (chars "/target")), (list_eqb path (chars "/reverse")). }
assert (Hat : ∀ s', rtc server_step s s' → ∃ us ca, mappingUS (vars s') = Some us ∧ mappingCA (vars s') = Some ca).
{ intros s' Hr. by apply available_both, (isAvailable_rtc s s'). }
destruct (Hat s1) as (us & ca & Hus & Hca); [done|].
destruct (Hat s2) as (us' & ca' & Hus' & Hca'); [by eapply rtc_trans|].
rewrite (serve_target_ok _ _ us ca us' ca') by done.
destruct (numeric_lengths (getHeaders req)); [|done]. eexists. split; [done|].
destruct (getMethod req); [apply the_answer_one| |apply bad_request_one].
destruct (_ && _); [apply the_answer_one|apply bad_request_one].
Qed.
End target.

(** ** Instances *)
Definition a_post (length : string) : HTTPMessage :=
  MkHTTPMessage POST (chars "/target") []
    [(HTTP_HEADER_CONTENT_LENGTH, chars length);
     (HTTP_HEADER_CONTENT_TYPE, chars "application/x-www-form-urlencoded")].

Lemma a_post_numeric : numeric_lengths (getHeaders (a_post "35")) = true.
Proof.
  unfold numeric_lengths. cbn [getHeaders a_post forallb numeric andb].
  assert (E : tryTo_u64 (chars "35") = Some 35) by (apply (tryTo_digits (chars "35") []); try done; by repeat constructor).
  by rewrite E.
Qed.

Lemma target_serves_witness : ∃ us ca,
  serve_target (vars loaded_server) (vars loaded_server) (a_post "35") [chars "phone[]=9899999992&"; chars "phone[]=12"] =
  Ok (the_answer (vars loaded_server) us ca false (numbers (chars "phone[]=9899999992&phone[]=12"))).
Proof.
  destruct (available_both _ loaded_available) as (us & ca & Eu & Ec). exists us, ca.
  revert Eu Ec. generalize (vars loaded_server) as g. intros g Eu Ec.
  pose proof (target_serves g g us ca us ca (a_post "35") [chars "phone[]=9899999992&"; chars "phone[]=12"]
    Eu Ec Eu Ec (Z.lt_le_incl 0 32768 eq_refl)) as Hs.
  cbv zeta in Hs. rewrite a_post_numeric in Hs. exact Hs.
Defined.

Lemma a_post_not_numeric : numeric_lengths (getHeaders (a_post "many")) = false.
Proof.
  unfold numeric_lengths. cbn [getHeaders a_post forallb numeric].
  rewrite (tryTo_bad (chars "many") (ch "m")); try done. by left.
Qed.

Lemma target_answers_once_witness :
  (∃ replies,
    serve_target (vars loaded_server) (vars loaded_server) (a_post "35") [chars "phone[]=9899999992"] = Ok replies ∧
    one_answer replies) ∧
  serve_target (vars loaded_server) (vars loaded_server) (a_post "many") [chars "phone[]=9899999992"] = Fault 0.
Proof.
  assert (Hs := λ length, target_answers_once loaded_server loaded_server loaded_server (chars "/target") (a_post length)
    [chars "phone[]=9899999992"] loaded_reachable eq_refl (rtc_refl _ _) (rtc_refl _ _) (Z.lt_le_incl 0 32768 eq_refl)).
  split; [specialize (Hs "35"%string); rewrite a_post_numeric in Hs; exact Hs|].
  specialize (Hs "many"%string). rewrite a_post_not_numeric in Hs. exact Hs.
Defined.
