(* ===== verification/ApiReverse.v ===== *)
(** * What [/reverse] answers *)

From stdpp Require Import strings gmap relations.
From S2P Require Export ApiTarget.

Section reverse.
Context `{FollyOk, Flags, !FlagsOk, Clock, Proxygen}.

(** ** Prefixes *)

(** The text of the rows, one a line. *)
Definition format_rows (json : bool) (rows : list row) : list Z :=
concat (map (λ r, format_row json r.1 r.2) rows).

Lemma shift10_ok k from to : 0 ≤ from → 0 ≤ to → from * 10 ^ Z.of_nat k < 2 ^ 64 → to * 10 ^ Z.of_nat k < 2 ^ 64 →
shift10 k from to = (from * 10 ^ Z.of_nat k, to * 10 ^ Z.of_nat k).
Proof.
revert from to. induction k as [|k IH]; intros from to Hf Ht Hfm Htm; cbn [shift10].
{ change (10 ^ Z.of_nat 0) with 1. by rewrite !Z.mul_1_r. }
rewrite Nat2Z.inj_succ, Z.pow_succ_r in * by lia.
assert (Hp : 1 ≤ 10 ^ Z.of_nat k) by (apply Z.lt_pred_le, Z.pow_pos_nonneg; lia).
rewrite !u64_small by nia. rewrite IH by nia. f_equal; lia.
Qed.

(** The rows whose routing number begins, as a number of ten digits, with the
  [len] digits of [n]: by routing number, and then in the order of the file. *)
Definition with_prefix (rows : list row) (len : nat) (n : Z) : list row :=
stable_sort rn_lt (List.filter (λ r, r.2 / 10 ^ (10 - Z.of_nat len) =? n) rows).

Lemma prefix_range rows len n : Forall narrow rows → (len ≤ 10)%nat →
let p := 10 ^ (10 - Z.of_nat len) in
inverse_rows rows (n * p) ((n + 1) * p) = with_prefix rows len n.
Proof.
intros Hn Hlen p. unfold inverse_rows, with_prefix. f_equal.
assert (Hp : 0 < p) by (apply Z.pow_pos_nonneg; lia).
induction Hn as [|r rows [_ Hr] _ IH]; [done|]. cbn [List.filter]. rewrite IH.
replace (rn_between (n * p) ((n + 1) * p) r) with (r.2 / p =? n); [done|].
unfold rn_between. pose proof (Z.div_mod r.2 p ltac:(lia)). pose proof (Z.mod_pos_bound r.2 p Hp).
destruct (Z.eqb_spec (r.2 / p) n), (Z.leb_spec (n * p) r.2), (Z.ltb_spec r.2 ((n + 1) * p)); cbn; try done; nia.
Qed.

(** The prefixes that a query asks for, with their lengths. *)
Definition prefix_param (name : list Z) : bool :=
list_eqb name (chars "prefix%5B%5D") || list_eqb name (chars "prefix[]").

Definition prefix_of (param : list Z * list Z) : option (nat * Z) :=
if prefix_param param.1 && (vsize param.2 <=? 10)
then n ← tryTo_u64 param.2; Some (length param.2, n) else None.

Definition prefixes (query : list Z) : list (nat * Z) := omap prefix_of (splitNameValuePieces query).

Definition prefix_bounds (x : nat * Z) : Z * Z :=
let p := 10 ^ (10 - Z.of_nat x.1) in (x.2 * p, (x.2 + 1) * p).

Definition a_prefix (x : nat * Z) : Prop := (x.1 ≤ 10)%nat ∧ 0 ≤ x.2 < 10 ^ Z.of_nat x.1.

Lemma prefix_of_ok param x : prefix_of param = Some x → a_prefix x.
Proof.
unfold prefix_of. destruct (prefix_param param.1 && _) eqn:E; [|done]. apply andb_true_iff in E as [_ E].
destruct (tryTo_u64 param.2) as [n|] eqn:En; [|done]. cbn. intros [= <-].
apply Z.leb_le in E. unfold vsize in E. split; [cbn; lia|].
split; [by apply tryTo_range in En as [? _]|by apply tryTo_length in En].
Qed.

Lemma prefixes_ok query : Forall a_prefix (prefixes query).
Proof. apply Forall_forall. intros x (p & _ & Hp)%list_elem_of_omap. by apply prefix_of_ok in Hp. Qed.

Lemma pow10_split x : a_prefix x → 10 ^ Z.of_nat x.1 * 10 ^ (10 - Z.of_nat x.1) = 10000000000.
Proof. intros [Hx _]. rewrite <- Z.pow_add_r by lia. by replace (Z.of_nat x.1 + (10 - Z.of_nat x.1)) with 10 by lia. Qed.

Lemma prefix_bounds_ok x : a_prefix x →
0 ≤ (prefix_bounds x).1 ∧ (prefix_bounds x).1 < 2 ^ 34 ∧ 0 ≤ (prefix_bounds x).2 < 2 ^ 34.
Proof.
intros Hx. pose proof (pow10_split x Hx) as Hs. destruct Hx as [Hl Hx]. unfold prefix_bounds. cbn [fst snd].
assert (0 < 10 ^ (10 - Z.of_nat x.1)) by (apply Z.pow_pos_nonneg; lia). nia.
Qed.

Lemma reverse_onQueryParam_ok query param :
reverse_onQueryParam query param =
query ++ match prefix_of param with Some x => [prefix_bounds x] | None => [] end.
Proof.
destruct (prefix_of param) as [x|] eqn:Ex; unfold prefix_of, reverse_onQueryParam in *; destruct param as [name v]; cbn [fst snd] in *;
  fold (prefix_param name); destruct (prefix_param name); cbn [andb] in *; rewrite ?app_nil_r; try done.
- destruct (Z.leb_spec (vsize v) 10), (Z.ltb_spec 10 (vsize v)); try lia; try done.
  destruct (tryTo_u64 v) as [n|] eqn:En; [|done]. cbn in Ex. injection Ex as <-.
  assert (Hx : a_prefix (length v, n)).
  { split; [unfold vsize in *; cbn; lia|]. cbn. split; [by apply tryTo_range in En as [? _]|by apply tryTo_length in En]. }
  pose proof (pow10_split _ Hx) as Hs. destruct Hx as [Hl Hx]. cbn [fst snd] in *.
  assert (Hk : 10 - Z.of_nat (length v) = Z.of_nat (10 - length v)) by lia.
  assert (0 < 10 ^ Z.of_nat (10 - length v)) by (apply Z.pow_pos_nonneg; lia).
  rewrite Hk in Hs. unfold prefix_bounds. cbn [fst snd]. rewrite Hk.
  assert (Hn1 : n + 1 < 2 ^ 64) by nia. rewrite (u64_small (n + 1)) by lia. rewrite shift10_ok by nia. done.
- destruct (Z.leb_spec (vsize v) 10), (Z.ltb_spec 10 (vsize v)); try lia; try done.
  by destruct (tryTo_u64 v).
Qed.

Lemma reverse_query_ok query :
foldl reverse_onQueryParam [] (splitNameValuePieces query) = map prefix_bounds (prefixes query).
Proof.
unfold prefixes. generalize (splitNameValuePieces query). intros l.
cut (∀ acc, foldl reverse_onQueryParam acc l = acc ++ map prefix_bounds (omap prefix_of l)); [intros Hc; apply Hc|].
induction l as [|p l IH]; intros acc; [by rewrite app_nil_r|].
cbn [foldl]. rewrite IH, reverse_onQueryParam_ok, <- app_assoc. f_equal.
cbn [omap list_omap]. by destruct (prefix_of p).
Qed.

(** ** The pieces of the body *)

(** What was sent and what is still to be sent: pieces of more than a thousand
  characters behind [before], and then the record. *)
Definition holds_text (before : list reply) (out : output) (text : list Z) : Prop :=
∃ pieces, sent out = before ++ map SendBody pieces ∧ Forall (λ p, 1000 < vsize p) pieces ∧
  concat pieces ++ record_ out = text.

Lemma holds_append before out text more : holds_text before out text → holds_text before (append out more) (text ++ more).
Proof.
intros (ps & Hs & Hp & Ht). exists ps. split; [done|]. split; [done|].
cbn. by rewrite app_assoc, Ht.
Qed.

Lemma holds_flush before out text : holds_text before out text → holds_text before (flush out) text.
Proof.
intros (ps & Hs & Hp & Ht). unfold flush. destruct (Z.ltb_spec 1000 (vsize (record_ out))); [|by exists ps].
exists (ps ++ [record_ out]). cbn [sent record_]. split_and!.
- by rewrite Hs, map_app, app_assoc.
- apply Forall_app. split; [done|by apply Forall_singleton].
- by rewrite concat_app, app_nil_r; cbn; rewrite app_nil_r.
Qed.

Lemma sendBody_ok json rows m l before out text :
represents (data_ m) rows → handle_at rows m l → (length l ≤ length (pnColumn (data_ m)))%nat →
holds_text before out text →
∃ m' out', sendBody json m out = Ok (m', out') ∧ data_ m' = data_ m ∧
  holds_text before out' (text ++ format_rows json l).
Proof.
unfold sendBody. intros Hd Hm Hlen Hout. apply le_n_S in Hlen. revert Hlen.
generalize (S (length (pnColumn (data_ m)))) as fuel. intros fuel Hlen. revert m l out text Hd Hm Hout Hlen.
induction fuel as [|fuel IH]; intros m l out text Hd Hm Hout Hlen; [lia|].
destruct l as [|r l].
- exists m, out. split; [|split; [done|by rewrite app_nil_r]].
  apply loop_inr. unfold sendBody_step. by rewrite (handle_hasRow rows m []).
- destruct (handle_step rows m r l Hd Hm) as (Hpn & Hrn & m' & E & Hdata & Hm').
  set (out1 := flush (append out (format_row json r.1 r.2))).
  destruct (IH m' l out1 (text ++ format_row json r.1 r.2)) as (m2 & out2 & E2 & Hd2 & Ho2).
  + by rewrite Hdata.
  + done.
  + by apply holds_flush, holds_append.
  + cbn in Hlen. lia.
  + exists m2, out2. rewrite (loop_inl _ _ _ (m', out1)).
    * split; [done|]. split; [by rewrite Hd2|]. by rewrite <- app_assoc in Ho2.
    * unfold sendBody_step. rewrite (handle_hasRow rows m (r :: l)), Hpn, Hrn, E by done. done.
Qed.

(** The rows of both countries for the prefixes, in turn. *)
Definition prefix_text (json : bool) (rows_us rows_ca : list row) (x : nat * Z) : list Z :=
format_rows json (with_prefix rows_us x.1 x.2) ++ format_rows json (with_prefix rows_ca x.1 x.2).

Lemma ranged rows m x : a_prefix x → represents (data_ m) rows → Forall narrow rows →
∃ m', inverseRNs m (prefix_bounds x).1 (prefix_bounds x).2 = Ok m' ∧ data_ m' = data_ m ∧
  handle_at rows m' (with_prefix rows x.1 x.2) ∧
  (length (with_prefix rows x.1 x.2) ≤ length (pnColumn (data_ m')))%nat.
Proof.
intros Hx Hd Hn. destruct (prefix_bounds_ok x Hx) as (H1' & H2' & H3').
destruct (inverseRNs_ok m rows _ _ Hd Hn (conj H1' H2') H3') as (m' & E & Hdata & Hat).
assert (Hw : inverse_rows rows (prefix_bounds x).1 (prefix_bounds x).2 = with_prefix rows x.1 x.2)
  by apply (prefix_range rows x.1 x.2 Hn (proj1 Hx)).
rewrite Hw in Hat. exists m'. split_and!; [done|done|done|].
rewrite Hdata, (rep_length _ rows), <- Hw by done. apply inverse_rows_length.
Qed.

Lemma send_ranges_ok json rows_us rows_ca xs us ca before out text :
Forall a_prefix xs → Forall narrow rows_us → Forall narrow rows_ca →
represents (data_ us) rows_us → represents (data_ ca) rows_ca → holds_text before out text →
∃ out', send_ranges json (map prefix_bounds xs) us ca out = Ok out' ∧
  holds_text before out' (text ++ concat (map (prefix_text json rows_us rows_ca) xs)).
Proof.
intros Hxs Hnu Hnc. revert us ca out text. induction Hxs as [|x xs Hx _ IH]; intros us ca out text Hus Hca Hout.
{ exists out. split; [done|]. by rewrite app_nil_r. }
cbn [map send_ranges]. rewrite (surjective_pairing (prefix_bounds x)).
destruct (ranged rows_us us x Hx Hus Hnu) as (us1 & -> & Hdu1 & Hat1 & Hl1). cbn [mbind res_bind].
destruct (sendBody_ok json rows_us us1 _ before out text ltac:(by rewrite Hdu1) Hat1 Hl1 Hout)
  as (us2 & out1 & -> & Hdu2 & Hout1). cbn [mbind res_bind].
destruct (ranged rows_ca ca x Hx Hca Hnc) as (ca1 & -> & Hdc1 & Hat2 & Hl2). cbn [mbind res_bind].
destruct (sendBody_ok json rows_ca ca1 _ before out1 _ ltac:(by rewrite Hdc1) Hat2 Hl2 Hout1)
  as (ca2 & out2 & -> & Hdc2 & Hout2). cbn [mbind res_bind].
destruct (IH us2 ca2 out2 _ ltac:(by rewrite Hdu2, Hdu1) ltac:(by rewrite Hdc2, Hdc1) Hout2) as (out3 & E & Hout3).
exists out3. split; [exact E|]. cbn [map concat]. unfold prefix_text at 1. by rewrite <- !app_assoc in *.
Qed.

(** C19: what [/reverse] answers.  For published mappings that represent rows with
  numbers below 2^34, a GET is answered with status 200 and the rows of the US
  and then of Canada for every prefix of the query in turn: exactly those whose
  routing number begins with the prefix, by routing number; the body is sent in
  pieces, all of which but the last are longer than 1000 characters.  Another
  method is answered with 400. *)
Theorem reverse_serves g us ca rows_us rows_ca req :
mappingUS g = Some us → mappingCA g = Some ca →
represents us rows_us → represents ca rows_ca → Forall narrow rows_us → Forall narrow rows_ca →
let json := isJsonRequested (getSingleOrEmpty (getHeaders req) HTTP_HEADER_ACCEPT) in
match getMethod req with
| GET =>
    ∃ pieces last,
      serve_reverse g req = Ok (Status 200 (Some (content_type json)) :: map SendBody pieces ++
                                (if list_eqb last [] then [] else [SendBody last]) ++ [SendEOM]) ∧
      Forall (λ p, 1000 < vsize p) pieces ∧
      concat pieces ++ last =
        (if json then chars "[" ++ [LF] else []) ++
        concat (map (prefix_text json rows_us rows_ca) (prefixes (getQueryString req))) ++
        (if json then chars "]" ++ [LF] else [])
| _ => serve_reverse g req = Ok bad_request
end.
Proof.
intros Hus Hca Hru Hrc Hnu Hnc json. unfold serve_reverse. destruct (getMethod req); [|done..].
rewrite Hus, Hca, reverse_query_ok, !res_mret_bind. fold json.
set (start := if json then chars "[" ++ [LF] else []).
set (before := [Status 200 (Some (content_type json))]).
destruct (send_ranges_ok json rows_us rows_ca (prefixes (getQueryString req)) (MkPhoneMapping us None)
  (MkPhoneMapping ca None) before (MkOutput start before) start) as (out & -> & Hout); try done;
  [apply prefixes_ok|by exists []|]. cbn [mbind res_bind].
apply (holds_append _ _ _ (if json then chars "]" ++ [LF] else [])) in Hout as (ps & Hs & Hp & Ht).
exists ps, (record_ (append out (if json then chars "]" ++ [LF] else []))).
rewrite Hs, <- app_assoc in *. done.
Qed.
End reverse.

Definition a_reverse : HTTPMessage := MkHTTPMessage GET (chars "/reverse") (chars "prefix[]=9895&prefix[]=201") [].

Lemma reverse_serves_witness : ∃ d, represents d some_rows ∧ ∃ pieces last,
  serve_reverse (commit (CommitCA d) (commit (CommitUS d) no_globals)) a_reverse =
    Ok (Status 200 (Some (chars "text/plain")) :: map SendBody pieces ++
        (if list_eqb last [] then [] else [SendBody last]) ++ [SendEOM]) ∧
  Forall (λ p, 1000 < vsize p) pieces ∧
  concat pieces ++ last = [] ++ concat (map (prefix_text false some_rows some_rows) (prefixes (getQueryString a_reverse))) ++ [].
Proof.
  destruct some_data as [d Hd]. exists d. split; [exact Hd|].
  exact (reverse_serves (commit (CommitCA d) (commit (CommitUS d) no_globals)) d d some_rows some_rows a_reverse
    eq_refl eq_refl Hd Hd narrow_rows narrow_rows).
Defined.
