(* ===== verification/SipHandler.v ===== *)
(** * The SIP redirect server (SipHandler.cpp)

    A datagram is parsed in place in the receive buffer, and answered with one
    datagram: the reply is built from the headers of the message, the URI of its
    first line and the tables of routing numbers.  Reading outside of the receive
    buffer and dereferencing a null pointer are [Fault]s. *)

From stdpp Require Import strings.
From S2P Require Import Control.
From S2P Require AccessLog.
From S2P Require Import ParserF Methods.
From S2P Require UriData.
From S2P Require FirstLine.
From S2P Require Export Msg.
Import Msg.

Section SipHandler.
Context `{Folly, Flags, !AccessLog.Sockets}.

(** ** Text in memory *)
Fixpoint read_n (m : mem) (p : Z) (n : nat) : res (list Z) :=
match n with
| O => mret []
| S n => c ← rd m p; l ← read_n m (p + 1) n; mret (c :: l)
end.

(** [SP(s)], when its characters are read; a negative length is a huge [size_t],
  so that the reading runs out of the block. *)
Definition SP (m : mem) (s : str) : res (list Z) :=
read_n m (str_s s) (if str_len s <? 0 then S (length (mdata m)) else Z.to_nat (str_len s)).

(** ** The handler *)

(** What outlives a datagram: [fmtbuf_] is cleared before it is used. *)
Record SIPHandler := MkSip {
log_ : AccessLog.AccessLogFormatter;
recvbuf_ : mem;
recvtime_ : Z;
peer_ : AccessLog.SocketAddress;
reply_ : list Z;
status_ : Z;
msg_ : sip_msg;
}.

(** The constructor, with the block that [std::vector<char>] allocates at [base];
  [msg_] is not initialised. *)
Definition new_handler (base : Z) (msg : sip_msg) : SIPHandler :=
MkSip AccessLog.new_formatter (Mem base (replicate (Z.to_nat FLAGS_sip_max_length) 0)) 0 AccessLog.no_address [] 0 msg.

Definition set_msg (g : sip_msg) (h : SIPHandler) : SIPHandler :=
MkSip (log_ h) (recvbuf_ h) (recvtime_ h) (peer_ h) (reply_ h) (status_ h) g.
Definition set_log (f : AccessLog.AccessLogFormatter) (h : SIPHandler) : SIPHandler :=
MkSip f (recvbuf_ h) (recvtime_ h) (peer_ h) (reply_ h) (status_ h) (msg_ h).
Definition set_reply (l : list Z) (h : SIPHandler) : SIPHandler :=
MkSip (log_ h) (recvbuf_ h) (recvtime_ h) (peer_ h) l (status_ h) (msg_ h).
Definition set_status (n : Z) (h : SIPHandler) : SIPHandler :=
MkSip (log_ h) (recvbuf_ h) (recvtime_ h) (peer_ h) (reply_ h) n (msg_ h).
Definition set_request (t : Z) (client : AccessLog.SocketAddress) (h : SIPHandler) : SIPHandler :=
MkSip (log_ h) (recvbuf_ h) t client (reply_ h) (status_ h) (msg_ h).

(** [getReadBuffer]: the pointer and the size. *)
Definition getReadBuffer (h : SIPHandler) : Z * Z :=
(mbase (recvbuf_ h), Z.of_nat (length (mdata (recvbuf_ h)))).

(** ** Output *)
Definition nl : string := String "013" (String "010" EmptyString).

Definition output (fmt : string) (args : list (list Z)) (h : SIPHandler) : SIPHandler :=
set_reply (reply_ h ++ format fmt args) h.

Definition outputHeader (hdr : option nat) (h : SIPHandler) : res SIPHandler :=
match hdr with
| None => mret h
| Some i =>
    match m_fields (msg_ h) !! i with
    | None => Fault 0
    | Some f =>
        name ← SP (recvbuf_ h) (hdr_name f);
        body ← SP (recvbuf_ h) (hdr_body f);
        mret (output ("{}: {}" +:+ nl) [name; rtrimWhitespace body] h)
    end
end.

Definition reply (status : Z) (message : string) (h : SIPHandler) : res SIPHandler :=
let h := set_status status h in
let h := output ("SIP/2.0 {} {}" +:+ nl) [dec status; chars message] h in
h ← outputHeader (m_hook (msg_ h) HDR_VIA_T) h;
h ← outputHeader (m_hook (msg_ h) HDR_FROM_T) h;
h ← outputHeader (m_hook (msg_ h) HDR_TO_T) h;
h ← outputHeader (m_hook (msg_ h) HDR_CALLID_T) h;
outputHeader (m_hook (msg_ h) HDR_CSEQ_T) h.

(** ** Requests *)

(** Returns 0, or -1 for a message that is not answered. *)
Definition parseMessage (A : allocs) (len : Z) (truncated : bool) (h : SIPHandler) : res (Z * SIPHandler) :=
if (len =? 0) || truncated then mret (-1, h) else
let buf := mbase (recvbuf_ h) in
'(r, g) ← parse_msg A (recvbuf_ h) buf len (new_msg buf len);
let h := set_msg g h in
if negb (r =? 0) then mret (-1, h) else
if negb (FirstLine.fl_type (m_first_line g) =? FirstLine.SIP_REQUEST) then mret (-1, h) else
'(r, g) ← parse_sip_msg_uri (recvbuf_ h) g;
let h := set_msg g h in
mret (if negb (r =? 0) then -1 else 0, h).

(** [PhoneMapping::getUS()] and [getCA()], of which a number is looked up. *)
Definition find_rn (d : option PhoneMapping.Data) (pn : Z) : res Z :=
match d with None => Fault 0 | Some d => PhoneMapping.getRN d pn end.

(** The rules with the token that was taken. *)
Definition set_acl (a : option ACL.Data) (g : globals) : globals :=
MkGlobals (mappingUS g) (mappingCA g) (mappingDNC g) (mappingDNO g) (mappingTollFree g) a (mappingLerg g)
  (mappingYoumail g) (mappingGeo g) (mappingFtc g) (mapping404 g) (mapping606 g).

Definition contact (user host port : list Z) (pn rn : Z) (h : SIPHandler) : SIPHandler :=
if negb (rn =? PhoneMapping.NONE) then
  output ("Contact: <sip:+1{};rn=+1{};ndpi@{}:{}>" +:+ nl) [dec pn; dec rn; host; port] h
else if FLAGS_rfc4694 then
  output ("Contact: <sip:{};ndpi@{}:{}>" +:+ nl) [user; host; port] h
else
  output ("Contact: <sip:{};rn={};ndpi@{}:{}>" +:+ nl) [user; user; host; port] h.

(** At the time [now]. *)
Definition handleInvite (v : globals) (now : Z) (h : SIPHandler) : res (globals * SIPHandler) :=
let '(code, acl) := ACL.isCallAllowed (currentACL v) now (AccessLog.getIPAddress (peer_ h)) in
let v := set_acl acl v in
if code =? 429 then h ← reply 429 "Too Many Requests" h; mret (v, h)
else if code =? 401 then h ← reply 401 "Unauthorized" h; mret (v, h)
else
  let uri := m_parsed_uri (msg_ h) in
  user ← SP (recvbuf_ h) (UriData.u_str uri UriData.F_user);
  let pn := PhoneMapping.fromString user in
  rn ← (if negb (pn =? PhoneMapping.NONE) then find_rn (mappingUS v) pn else mret PhoneMapping.NONE);
  rn ← (if rn =? PhoneMapping.NONE then find_rn (mappingCA v) pn else mret rn);
  h ← reply 302 "Moved Temporarily" h;
  host ← SP (recvbuf_ h) (UriData.u_str uri UriData.F_host);
  port ← SP (recvbuf_ h) (UriData.u_str uri UriData.F_port);
  mret (v, output ("Location-Info: N" +:+ nl) [] (contact user host port pn rn h)).

(** What a call changes besides the handler: the tables, the lines of the access
  log, and the datagrams sent; [w_log]: [accessLog] is not null. *)
Record world := World {
w_vars : globals;
w_log : bool;
w_written : list (list Z);
w_sent : list (AccessLog.SocketAddress * list Z);
}.

(** The reply that follows the tests; [finish:] is in [onDataAvailable]. *)
Definition respond (v : globals) (now : Z) (h : SIPHandler) : res (globals * SIPHandler) :=
if negb (isAvailable v) then h ← reply 503 "Service Unavailable" h; mret (v, h)
else
  let meth := FirstLine.u_value (m_first_line (msg_ h)) in
  if meth =? METHOD_OPTIONS then h ← reply 200 "OK" h; mret (v, h)
  else if meth =? METHOD_INVITE then handleInvite v now h
  else h ← reply 405 "Method Not Allowed" h; mret (v, h).

(** A datagram of [len] characters is in [recvbuf_]; [start] and [now] are the
  times of [recvtime_] and of [isCallAllowed]. *)
Definition onDataAvailable (A : allocs) (client : AccessLog.SocketAddress) (len : Z) (truncated : bool)
  (start now : Z) (w : world) (h : SIPHandler) : res (world * SIPHandler) :=
let h := set_reply [] (set_request start client (set_status 0 h)) in
'(r, h) ← parseMessage A len truncated h;
if negb (r =? 0) then mret (w, h) else
let fl := m_first_line (msg_ h) in
method ← SP (recvbuf_ h) (FirstLine.u_first fl);
uri ← SP (recvbuf_ h) (FirstLine.u_second fl);
let h := set_log (AccessLog.onRequest (log_ h) (peer_ h) method uri (recvtime_ h)) h in
'(v, h) ← respond (w_vars w) now h;
let h := output ("Content-Length: 0" +:+ nl +:+ nl) [] h in
let sent := w_sent w ++ [(peer_ h, reply_ h)] in
(* [reply_.move()] *)
let h := set_reply [] h in
let '(f, written) := AccessLog.onResponse (log_ h) (w_log w) (status_ h) 0 in
mret (World v (w_log w) (w_written w ++ written) sent, set_log f h).

(** [onReadError] and [onReadClosed] change nothing. *)
Definition onReadError (h : SIPHandler) : SIPHandler := h.
Definition onReadClosed (h : SIPHandler) : SIPHandler := h.
End SipHandler.
