(* ===== verification/SipSafety.v ===== *)
(** * The SIP server answers any datagram at most once, and never faults *)

From stdpp Require Import strings.
From S2P Require Import Commands.
From S2P Require AccessLog.
From S2P Require Import ParserF Methods.
From S2P Require UriData.
From S2P Require UriSafety.
From S2P Require FirstLine.
From S2P Require Import MsgHeaders.
From S2P Require Export SipHandler.
Import Msg.

(** ** Reading *)
Lemma read_n_wp m p n : mbase m ≤ p → p + Z.of_nat n ≤ mlim m → wp (read_n m p n) (λ _, True).
Proof.
  revert p. induction n as [|n IH]; intros p Hb Hl; cbn [read_n]; [by apply wp_ret|].
  destruct (rd_valid m p) as [c ->]; [lia|]. cbn [mbind res_bind]. wp_step.
  eapply wp_mono; [apply IH; lia|]. intros l _. by apply wp_ret.
Qed.

Lemma SP_wp m s : within (mbase m) (mlim m) s → wp (SP m s) (λ _, True).
Proof.
  intros (Hs & Hn & He). unfold SP. destruct (Z.ltb_spec (str_len s) 0); [lia|]. apply read_n_wp; lia.
Qed.

Lemma SP_empty m s : str_len s = 0 → wp (SP m s) (λ _, True).
Proof. intros E. unfold SP. rewrite E. by apply wp_ret. Qed.

(** ** The state that the reply is built from *)
Section safety.
Context `{FollyOk, Flags, !FlagsOk, !AccessLog.Sockets}.

Definition all_hooks : list hdr_types_t := [HDR_VIA_T; HDR_FROM_T; HDR_TO_T; HDR_CALLID_T; HDR_CSEQ_T].

(** Membership in a list that is given. *)
Ltac hook_in := repeat (apply list_elem_of_here || apply list_elem_of_further).

(** The headers and the parts of the URI are in the receive buffer. *)
Record reply_ready (m : mem) (g : sip_msg) : Prop := {
  rr_hooks : ∀ t i, t ∈ all_hooks → m_hook g t = Some i → (i < length (m_fields g))%nat;
  rr_fields : Forall (field_within (mbase m) (mlim m)) (m_fields g);
  rr_uri : ∀ f, within (mbase m) (mlim m) (UriData.u_str (m_parsed_uri g) f) ∨
    str_len (UriData.u_str (m_parsed_uri g) f) = 0;
}.

Lemma uri_SP m g f : reply_ready m g → wp (SP m (UriData.u_str (m_parsed_uri g) f)) (λ _, True).
Proof. intros Hr. destruct (rr_uri m g Hr f); [by apply SP_wp|by apply SP_empty]. Qed.

(** [h'] is [h] with more text in the reply. *)
Definition replied (h h' : SIPHandler) : Prop :=
recvbuf_ h' = recvbuf_ h ∧ msg_ h' = msg_ h ∧ peer_ h' = peer_ h ∧ status_ h' = status_ h ∧ log_ h' = log_ h ∧
∃ l, reply_ h' = reply_ h ++ l.

#[local] Instance replied_preorder : PreOrder replied.
Proof.
  split; [intros h; split_and!; try done; exists []; by rewrite app_nil_r|].
  intros a b c (E1 & E2 & E3 & E4 & E5 & l & E6) (F1 & F2 & F3 & F4 & F5 & k & F6).
  split_and!; [congruence..|]. exists (l ++ k). rewrite F6, E6. by rewrite app_assoc.
Qed.

Lemma output_replied fmt args h : replied h (output fmt args h).
Proof. split_and!; try done. by exists (format fmt args). Qed.

Lemma outputHeader_wp m g h t : t ∈ all_hooks → recvbuf_ h = m → msg_ h = g → reply_ready m g →
  wp (outputHeader (m_hook (msg_ h) t) h) (replied h).
Proof.
  intros Ht Em Eg Hr. unfold outputHeader. rewrite Eg. destruct (m_hook g t) as [i|] eqn:Ei; [|by apply wp_ret].
  destruct (lookup_lt_is_Some_2 (m_fields g) i) as [f Hf]; [by eapply (rr_hooks m g Hr)|]. rewrite Hf, Em.
  pose proof (Forall_lookup_1 _ _ _ _ (rr_fields m g Hr) Hf) as (H1' & H2' & H3' & Hb).
  wp_step. eapply wp_mono; [by apply SP_wp|]. intros name _. wp_step.
  eapply wp_mono; [by apply SP_wp|]. intros body _. apply wp_ret, output_replied.
Qed.

Lemma reply_wp m g code msg h : recvbuf_ h = m → msg_ h = g → reply_ready m g →
  wp (reply code msg h) (λ h', replied (output ("SIP/2.0 {} {}" +:+ nl) [dec code; chars msg] (set_status code h)) h').
Proof.
  intros Em Eg Hr. unfold reply. set (h1 := output _ _ _).
  assert (E1 : recvbuf_ h1 = m ∧ msg_ h1 = g) by done. clearbody h1. clear Em Eg.
  assert (Hnext : ∀ t h2, t ∈ all_hooks → replied h1 h2 → wp (outputHeader (m_hook (msg_ h2) t) h2) (replied h1)).
  { intros t h2 Ht Hh. pose proof Hh as (Eb & Eg & _). eapply wp_mono.
    - apply (outputHeader_wp m g); [done|by rewrite Eb; apply E1|by rewrite Eg; apply E1|done].
    - intros h3 Hh3. by etrans. }
  wp_step. eapply wp_mono; [apply Hnext; [hook_in|done]|]. intros h2 Hh2.
  wp_step. eapply wp_mono; [apply Hnext; [hook_in|exact Hh2]|]. intros h3 Hh3.
  wp_step. eapply wp_mono; [apply Hnext; [hook_in|exact Hh3]|]. intros h4 Hh4.
  wp_step. eapply wp_mono; [apply Hnext; [hook_in|exact Hh4]|]. intros h5 Hh5.
  apply Hnext; [hook_in|exact Hh5].
Qed.

(** ** The whole datagram *)
Definition codes : list Z := [503; 200; 405; 429; 401; 302].

(** The handler after a reply with a status of [codes]. *)
Definition answered (h h' : SIPHandler) : Prop :=
∃ code msg, code ∈ codes ∧
  replied (output ("SIP/2.0 {} {}" +:+ nl) [dec code; chars msg] (set_status code h)) h'.

Lemma reply_answered m g code msg h : code ∈ codes → recvbuf_ h = m → msg_ h = g → reply_ready m g →
  wp (reply code msg h) (answered h).
Proof. intros Hc Em Eg Hr. eapply wp_mono; [by apply (reply_wp m g)|]. intros h' Hh. by exists code, msg. Qed.

Lemma find_rn_wp d pn : is_Some d → wp (find_rn d pn) (λ _, True).
Proof. intros [x ->]. unfold find_rn. by rewrite getRN_dict. Qed.

Lemma handleInvite_wp m g v now h : isAvailable v = true → recvbuf_ h = m → msg_ h = g → reply_ready m g →
  wp (handleInvite v now h) (λ x, answered h x.2).
Proof.
  intros Hav Em Eg Hr. unfold handleInvite. destruct (ACL.isCallAllowed _ _ _) as [code acl].
  assert (Hus : is_Some (mappingUS v) ∧ is_Some (mappingCA v)).
  { unfold isAvailable in Hav. by destruct (mappingUS v), (mappingCA v). }
  destruct Hus as [Hus Hca].
  assert (Hreply : ∀ code msg, code ∈ codes → wp (h ← reply code msg h; mret (set_acl acl v, h)) (λ x, answered h x.2)).
  { intros n msg Hn. wp_step. eapply wp_mono; [by apply (reply_answered m g)|]. intros h' Hh. by apply wp_ret. }
  destruct (code =? 429); [apply Hreply; hook_in|]. destruct (code =? 401); [apply Hreply; hook_in|]. clear Hreply.
  rewrite Em, Eg. wp_step. eapply wp_mono; [by apply (uri_SP m g)|]. intros user _.
  set (pn := PhoneMapping.fromString user).
  wp_step. apply (wp_mono _ (λ _, True)).
  { destruct (negb _); [by apply find_rn_wp|by apply wp_ret]. }
  intros rn _. wp_step. apply (wp_mono _ (λ _, True)).
  { destruct (_ =? _); [by apply find_rn_wp|by apply wp_ret]. }
  intros rn' _. wp_step. eapply wp_mono; [apply (reply_answered m g); [hook_in|done..]|]. intros h1 (n & msg & Hn & Hh1).
  assert (E1 : recvbuf_ h1 = m) by (rewrite <- Em; by destruct Hh1 as (-> & _)). rewrite E1.
  wp_step. eapply wp_mono; [by apply (uri_SP m g)|]. intros host _.
  wp_step. eapply wp_mono; [by apply (uri_SP m g)|]. intros port _. apply wp_ret. exists n, msg. split; [done|].
  cbn [snd]. etrans; [exact Hh1|]. etrans; [|apply output_replied]. unfold contact.
  destruct (negb _); [|destruct FLAGS_rfc4694]; apply output_replied.
Qed.

Lemma respond_wp m g v now h : recvbuf_ h = m → msg_ h = g → reply_ready m g →
  wp (respond v now h) (λ x, answered h x.2).
Proof.
  intros Em Eg Hr. unfold respond.
  assert (Hreply : ∀ code msg, code ∈ codes → wp (h ← reply code msg h; mret (v, h)) (λ x, answered h x.2)).
  { intros n msg Hn. wp_step. eapply wp_mono; [by apply (reply_answered m g)|]. intros h' Hh. by apply wp_ret. }
  destruct (isAvailable v) eqn:Hav; cbn [negb]; [|apply Hreply; hook_in].
  destruct (_ =? METHOD_OPTIONS); [apply Hreply; hook_in|].
  destruct (_ =? METHOD_INVITE); [by apply (handleInvite_wp m g)|apply Hreply; hook_in].
Qed.

(** *** The message *)
Lemma hooks_in g t i : msg_wf g → t ∈ all_hooks → m_hook g t = Some i → (i < length (m_fields g))%nat.
Proof.
  intros Hwf Ht. rewrite (hook_first g t Hwf).
  2: { unfold all_hooks in Ht. rewrite !elem_of_cons in Ht.
       destruct Ht as [->|[->|[->|[->|[->|Hx]]]]]; [by left|by right..|by apply elem_of_nil in Hx]. }
  intros Hi. assert (Hin : i ∈ positions t (m_fields g)).
  { destruct (positions t (m_fields g)); [done|]. injection Hi as ->. apply list_elem_of_here. }
  apply positions_from_in in Hin as [_ (f & Hf & _)]. rewrite Nat.sub_0_r in Hf. by eapply lookup_lt_Some.
Qed.

(** The first line is in the datagram. *)
Definition line_in (m : mem) (g : sip_msg) : Prop :=
within (mbase m) (mlim m) (FirstLine.u_first (m_first_line g)) ∧
within (mbase m) (mlim m) (FirstLine.u_second (m_first_line g)).

Definition parsed_in (h : SIPHandler) (x : Z * SIPHandler) : Prop :=
let '(r, h') := x in
recvbuf_ h' = recvbuf_ h ∧ log_ h' = log_ h ∧ reply_ h' = reply_ h ∧ peer_ h' = peer_ h ∧
(r = -1 ∨ r = 0 ∧ reply_ready (recvbuf_ h) (msg_ h') ∧ line_in (recvbuf_ h) (msg_ h')).

Lemma parse_sip_msg_uri_wp m g b nl e : mem_ok m → msg_wf g → m_new_uri g = None → m_parsed_uri_ok g = false →
  Forall (field_within (mbase m) (mlim m)) (m_fields g) →
  mbase m ≤ b → FirstLine.fl_layout b e nl (m_first_line g) → e + 20 ≤ mlim m →
  wp (parse_sip_msg_uri m g) (λ '(r, g'), m_first_line g' = m_first_line g ∧
    (r = -1 ∨ r = 0 ∧ reply_ready m g')).
Proof.
  intros Hm Hwf Hnew Hok Hfs Hb [[L1 L2] [L3 L4] [L5 [L6 L7]] [L8 L9]] He. unfold parse_sip_msg_uri. rewrite Hok, Hnew.
  cbn zeta. set (uri := FirstLine.u_second (m_first_line g)) in *. wp_step. eapply wp_mono.
  { apply (UriSafety.parse_uri_wp m (str_s uri) (str_len uri)); [done|split; lia|lia]. }
  intros [r u] [[-> _]|(-> & _ & Hu & _)]; cbn zeta iota; [by apply wp_ret; split; [|left]|].
  apply wp_ret. split; [done|]. right. split; [done|]. split.
  - intros t i Ht. by apply (hooks_in g t i).
  - done.
  - intros f. cbn. destruct (Hu f) as [[->|Hin]|[_ ->]]; [by right|left|by right].
    unfold within in *. lia.
Qed.

Lemma parseMessage_wp A z len truncated h : mem_ok (recvbuf_ h) → rd (recvbuf_ h) z = Ok NUL → 0 ≤ len →
  mbase (recvbuf_ h) + len + 20 ≤ mlim (recvbuf_ h) → mbase (recvbuf_ h) + len ≤ z →
  wp (parseMessage A len truncated h) (parsed_in h).
Proof.
  intros Hm Hz Hl Hlim Hzl. unfold parseMessage. set (m := recvbuf_ h) in *.
  destruct (_ || _); [by apply wp_ret; split_and!; try done; left|].
  wp_step. eapply wp_mono; [by apply (parse_msg_wp A m (mbase m) len z Hm Hz)|].
  intros [r g] (Hwf & _ & _ & Hfs & [Hnew Hok] & Hr).
  destruct (Z.eqb_spec r 0) as [->|]; [|by apply wp_ret; split_and!; try done; left].
  cbn [negb]. destruct (_ =? _); [|by apply wp_ret; split_and!; try done; left]. cbn [negb].
  destruct Hr as [|(_ & _ & (b & nl & Hb & Hlay) & _)]; [done|].
  assert (Hfs' : Forall (field_within (mbase m) (mlim m)) (m_fields g)).
  { eapply Forall_impl; [exact Hfs|]. intros f Hf. eapply field_within_mono; [| |exact Hf]; [lia|].
    apply rd_Ok in Hz. unfold far. lia. }
  wp_step. eapply wp_mono; [by apply (parse_sip_msg_uri_wp m g b nl (mbase m + len))|].
  intros [r g'] [Hline Hr]. apply wp_ret. split_and!; [done..|]. destruct Hr as [->|[-> Hr]]; [by left|right].
  split; [done|]. split; [done|]. unfold line_in. cbn [msg_ set_msg]. rewrite Hline.
  destruct Hlay as [[L1 L2] [L3 L4] [L5 [L6 L7]] [L8 L9]]. unfold within. fold m. lia.
Qed.

(** *** The answer *)
Definition ends_reply (l : list Z) : Prop :=
∃ pre code msg k, pre = chars "SIP/2.0 " ++ dec code ++ chars " " ++ chars msg ++ [CR; LF] ∧ code ∈ codes ∧
  l = pre ++ k ++ chars "Content-Length: 0" ++ [CR; LF; CR; LF].

Definition answered_once (client : AccessLog.SocketAddress) (w : world) (h : SIPHandler) (x : world * SIPHandler) : Prop :=
let '(w', h') := x in
recvbuf_ h' = recvbuf_ h ∧
((w' = w ∧ log_ h' = log_ h) ∨
 ∃ text line, w_sent w' = w_sent w ++ [(client, text)] ∧ ends_reply text ∧ w_log w' = w_log w ∧
   w_written w' = w_written w ++ (if w_log w then [line] else []) ∧ AccessLog.message_ (log_ h') = line).

Lemma onDataAvailable_wp A z client len truncated start now w h :
  mem_ok (recvbuf_ h) → rd (recvbuf_ h) z = Ok NUL → 0 ≤ len →
  mbase (recvbuf_ h) + len + 20 ≤ mlim (recvbuf_ h) → mbase (recvbuf_ h) + len ≤ z →
  wp (onDataAvailable A client len truncated start now w h) (answered_once client w h).
Proof.
  intros Hm Hz Hl Hlim Hzl. unfold onDataAvailable. set (h0 := set_reply [] _).
  wp_step. eapply wp_mono; [by apply (parseMessage_wp A z len truncated h0)|].
  intros [r h1] (E1 & E2 & E3 & E4 & Hr). change (recvbuf_ h0) with (recvbuf_ h) in *.
  change (log_ h0) with (log_ h) in *. change (peer_ h0) with client in *. change (reply_ h0) with (@nil Z) in *.
  destruct (Z.eqb_spec r 0) as [->|]; [|by apply wp_ret; split; [|left]]. cbn [negb].
  destruct Hr as [|(_ & Hr & [Hu1 Hu2])]; [done|]. rewrite E1.
  wp_step. eapply wp_mono; [by apply SP_wp|]. intros method _.
  wp_step. eapply wp_mono; [by apply SP_wp|]. intros uri _.
  set (h2 := set_log _ h1). wp_step.
  eapply wp_mono; [by apply (respond_wp (recvbuf_ h) (msg_ h1) (w_vars w) now h2)|].
  intros [v h3] (code & msg & Hcode & F1 & F2 & F3 & F4 & F5 & k & F6). cbn [snd] in *.
  destruct (AccessLog.onResponse _ _ _ _) as [f written] eqn:Elog.
  unfold AccessLog.onResponse in Elog. injection Elog as <- <-. apply wp_ret. split.
  - cbn. rewrite F1. done.
  - right. eexists _, _. split_and!; [|..|done|done|done].
    + cbn. rewrite F3. cbn. rewrite E4. done.
    + unfold ends_reply. eexists _, code, msg, k. split; [done|]. split; [done|].
      cbn [output set_reply reply_]. rewrite F6. cbn [output set_reply reply_ set_status h2 set_log]. rewrite E3.
      rewrite !format_placeholders. cbn [app]. set (pre := placeholders _ _). rewrite <- app_assoc. done.
Qed.

(** ** Properties *)

(** C2: whatever a datagram holds, if it ends 20 characters before the end of the
    receive buffer and a NUL is in the buffer at its end or behind it, the handler terminates without
    reading outside of the buffer or dereferencing a null pointer, whatever the
    tables, the rules and the previous datagrams are; it sends nothing and logs
    nothing, or it sends one datagram, to the sender, that begins with a status line of
    one of the six codes and ends with an empty body, and logs one message.  The receive buffer
    is not changed. *)
Theorem sip_safe A z client len truncated start now w h :
  mem_ok (recvbuf_ h) → rd (recvbuf_ h) z = Ok NUL → 0 ≤ len →
  mbase (recvbuf_ h) + len + 20 ≤ mlim (recvbuf_ h) → mbase (recvbuf_ h) + len ≤ z →
  wp (onDataAvailable A client len truncated start now w h) (answered_once client w h).
Proof. apply onDataAvailable_wp. Qed.
End safety.

(** ** Instances *)
#[local] Existing Instance AccessLog.sockets_model.

(** A handler whose receive buffer begins with the datagram [l], before [stale]. *)
Definition handler_on (l stale : list Z) : SIPHandler :=
  MkSip AccessLog.new_formatter (Mem 4096 (l ++ stale)) 0 [] [] 0 (new_msg 0 0).

Definition empty_world : world := World no_globals true [] [].

Definition open_via : list Z := chars ("OPTIONS sip:a SIP/2.0" +:+ nl +:+ "Via: SIP/2.0/UDP a;branch=").

Lemma sip_safe_witness :
  wp (onDataAvailable all_allocs (chars "p") (Z.of_nat (length open_via)) false 7 8 empty_world
      (handler_on open_via (replicate 24 0)))
    (answered_once (chars "p") empty_world (handler_on open_via (replicate 24 0))).
Proof.
  apply (sip_safe all_allocs (4096 + Z.of_nat (length open_via))); [by apply mem_okb_ok|by vm_compute..].
Defined.

(** The end of a Via header that is not complete is taken from what previous
    datagrams left in the buffer, and sent to the peer. *)
Lemma stale_text_is_sent :
  (λ x, map snd (w_sent x.1)) <$>
    onDataAvailable all_allocs (chars "p") (Z.of_nat (length open_via)) false 7 8 empty_world
      (handler_on open_via (chars ("SECRET" +:+ nl +:+ nl) ++ replicate 30 0)) =
  Ok [chars ("SIP/2.0 503 Service Unavailable" +:+ nl +:+ "Via: SIP/2.0/UDP a;branch=SECRET" +:+ nl +:+
    "Content-Length: 0" +:+ nl +:+ nl)].
Proof. by vm_compute. Qed.

(** A datagram that fills the buffer is not followed by a NUL: the character behind
    the buffer is read. *)
Definition fault_at {A} (r : res A) : option Z := match r with Fault p => Some p | _ => None end.

Lemma full_datagram_overruns :
  fault_at (onDataAvailable all_allocs (chars "p") (Z.of_nat (length open_via)) false 7 8 empty_world (handler_on open_via [])) =
  Some (4096 + Z.of_nat (length open_via)).
Proof. by vm_compute. Qed.
