(* ===== verification/SipReply.v ===== *)
(** * What the SIP server replies to well-formed requests

    The reply is described on the texts: the request, the URI and the tables. *)

From stdpp Require Import strings.
From S2P Require Import Commands.
From S2P Require AccessLog.
From S2P Require Import ParserF Methods.
From S2P Require UriData.
From S2P Require UriParamRun.
From S2P Require UriParamRun.
From S2P Require UriGrammar.
From S2P Require FirstLine.
From S2P Require Import HNameTree HNameTheorems.
From S2P Require Import MsgRun.
From S2P Require Export SipHandler.
Import Msg.

(** ** The parts of the texts *)
Definition uri_user (t : UriGrammar.uri_text) : list Z :=
  match UriGrammar.a_user (UriGrammar.t_authority t) with Some (n, _) => n | None => [] end.
Definition uri_host (t : UriGrammar.uri_text) : list Z :=
  UriGrammar.host_chars (UriGrammar.a_host (UriGrammar.t_authority t)).
Definition uri_port (t : UriGrammar.uri_text) : list Z :=
  default [] (UriGrammar.a_port (UriGrammar.t_authority t)).

(** The first header of a type. *)
Definition first_of (t : hdr_types_t) (hs : list header_text) : option header_text :=
  find (λ h, bool_decide (hname_type (ht_name h) = t)) hs.

(** Without white space at the end. *)
Definition strip (l : list Z) : list Z := rev (skip_trim (rev l)).

Definition header_line (h : header_text) : list Z :=
  ht_name h ++ chars ": " ++ strip (rtrim (body_chars (ht_body h))) ++ [CR; LF].

Definition echo (hs : list header_text) (t : hdr_types_t) : list Z :=
  match first_of t hs with Some h => header_line h | None => [] end.

(** The headers that every reply repeats, in this order. *)
Definition echoed (hs : list header_text) : list Z :=
  flat_map (echo hs) [HDR_VIA_T; HDR_FROM_T; HDR_TO_T; HDR_CALLID_T; HDR_CSEQ_T].

Definition status_line (code : Z) : list Z :=
  let reason := if code =? 503 then "Service Unavailable" else if code =? 200 then "OK"
    else if code =? 405 then "Method Not Allowed" else if code =? 429 then "Too Many Requests"
    else if code =? 401 then "Unauthorized" else "Moved Temporarily" in
  chars "SIP/2.0 " ++ dec code ++ chars " " ++ chars reason ++ [CR; LF].

Section SipReply.
Context `{Folly, Flags, !AccessLog.Sockets}.

Definition table_rn (d : option PhoneMapping.Data) (pn : Z) : Z :=
default PhoneMapping.NONE (d ≫= λ d, f14_lookup (PhoneMapping.dict d) pn).

(** The routing number of a user: that of the first table, or of the second one.  A
  user that is no number is looked up in the second table, as [NONE]. *)
Definition routing (v : globals) (user : list Z) : Z :=
let pn := PhoneMapping.fromString user in
let rn := if pn =? PhoneMapping.NONE then PhoneMapping.NONE else table_rn (mappingUS v) pn in
if rn =? PhoneMapping.NONE then table_rn (mappingCA v) pn else rn.

Definition contact_line (v : globals) (t : UriGrammar.uri_text) : list Z :=
let user := uri_user t in
let rn := routing v user in
let address :=
  if negb (rn =? PhoneMapping.NONE) then
    chars "+1" ++ dec (PhoneMapping.fromString user) ++ chars ";rn=+1" ++ dec rn
  else if FLAGS_rfc4694 then user
  else user ++ chars ";rn=" ++ user in
chars "Contact: <sip:" ++ address ++ chars ";ndpi@" ++ uri_host t ++ chars ":" ++ uri_port t ++ chars ">" ++ [CR; LF].

(** The status, and the rules after the request. *)
Definition decide_call (v : globals) (now : Z) (peer : IPAddress) (meth : list Z) : Z * globals :=
if negb (isAvailable v) then (503, v)
else if method_id meth =? METHOD_OPTIONS then (200, v)
else if method_id meth =? METHOD_INVITE then
  let '(code, acl) := ACL.isCallAllowed (currentACL v) now peer in
  (if (code =? 429) || (code =? 401) then code else 302, set_acl acl v)
else (405, v).

Definition reply_text (v : globals) (code : Z) (r : request_text) (t : UriGrammar.uri_text) : list Z :=
status_line code ++ echoed (rt_headers r) ++
(if code =? 302 then contact_line v t ++ chars "Location-Info: N" ++ [CR; LF] else []) ++
chars "Content-Length: 0" ++ [CR; LF; CR; LF].
End SipReply.

(** ** Reading *)
Lemma read_n_at m p l : bytes_at m p l → read_n m p (length l) = Ok l.
Proof.
  revert p. induction l as [|c l IH]; intros p; [done|]. intros [Hc Hl].
  cbn [read_n length]. rewrite Hc. cbn [mbind res_bind]. by rewrite (IH _ Hl).
Qed.

Lemma SP_at m p l : bytes_at m p l → SP m (Str p (len l)) = Ok l.
Proof.
  intros Hl. unfold SP. cbn [str_len str_s]. pose proof (len_nonneg l).
  destruct (Z.ltb_spec (len l) 0); [lia|]. unfold len. rewrite Nat2Z.id. by apply read_n_at.
Qed.

Lemma rtrim_prefix l : ∃ k, l = rtrim l ++ k.
Proof.
  induction l as [|c l (k & E)]; [by exists []|]. cbn [rtrim].
  destruct (rtrim l) as [|d l'].
  - destruct (_ || _); [by exists (c :: l)|]. exists l. done.
  - exists k. cbn. by rewrite E at 1.
Qed.

Lemma strip_spec l : ∃ b, l = strip l ++ b ∧ Forall (λ c, is_trim c = true) b ∧
  head_is (λ c, negb (is_trim c)) (rev (strip l)).
Proof.
  unfold strip. rewrite rev_involutive.
  assert (Hs : ∀ k, ∃ a, k = a ++ skip_trim k ∧ Forall (λ c, is_trim c = true) a ∧
    head_is (λ c, negb (is_trim c)) (skip_trim k)).
  { induction k as [|c k (a & E & Ha & Hh)]; [by exists []|]. cbn. destruct (is_trim c) eqn:Hc.
    - exists (c :: a). split; [cbn; by rewrite <- E|]. split; [by constructor|done].
    - exists []. split; [done|]. split; [done|]. cbn. by rewrite Hc. }
  destruct (Hs (rev l)) as (a & E & Ha & Hh). exists (rev a). split; [|split; [by apply Forall_rev|done]].
  rewrite <- rev_app_distr, <- E. by rewrite rev_involutive.
Qed.

(** The first header of each type in the list of headers. *)
Lemma first_field m p hs fs rest t n : fields_parsed p hs fs → bytes_at m p (headers_chars hs ++ rest) →
  match first_of t hs with
  | None => positions_from n t fs = []
  | Some h => ∃ i f, head (positions_from n t fs) = Some (n + i)%nat ∧ fs !! i = Some f ∧
      SP m (hdr_name f) = Ok (ht_name h) ∧ SP m (hdr_body f) = Ok (rtrim (body_chars (ht_body h)))
  end.
Proof.
  revert p fs n. induction hs as [|h hs IH]; intros p fs n Hp Hat; destruct fs as [|f fs]; try done.
  destruct Hp as [[Ht Hn Hb _ _] Hp]. cbn [first_of find positions_from].
  change (headers_chars (h :: hs)) with (header_chars h ++ headers_chars hs) in Hat. rewrite <- app_assoc in Hat.
  pose proof (bytes_at_from _ _ _ _ Hat) as Hrest. apply bytes_at_app in Hat as [Hat _].
  rewrite Ht. case_bool_decide as Hx; [rewrite decide_True by done|rewrite decide_False by done].
  - exists 0%nat, f. rewrite Nat.add_0_r. split_and!; [done|done| |].
    + rewrite Hn. apply SP_at. unfold header_chars in Hat. by apply bytes_at_app in Hat as [? _].
    + rewrite Hb. apply SP_at. unfold header_chars, body_pos in *. apply bytes_at_from, bytes_at_from in Hat.
      destruct Hat as [_ Hat]. apply bytes_at_from in Hat. destruct (rtrim_prefix (body_chars (ht_body h))) as (k & E).
      rewrite E in Hat. by apply bytes_at_app in Hat as [? _].
  - specialize (IH _ fs (S n) Hp Hrest). unfold first_of in IH. destruct (find _ hs) as [h'|]; [|done].
    destruct IH as (i & f' & Hi & Hf & Hs). exists (S i), f'. split; [rewrite Hi; f_equal; lia|done].
Qed.

(** ** The URI *)
#[local] Existing Instance UriParamRun.sip_uri_equiv.

(** The three parts that the reply quotes. *)
Lemma uri_parts_at m s t ty u : u ≡ UriGrammar.text_put s t (UriData.set_uri_type ty UriData.uri_zero) →
  bytes_at m s (UriGrammar.text_chars t) →
  SP m (UriData.u_str u UriData.F_user) = Ok (uri_user t) ∧
  SP m (UriData.u_str u UriData.F_host) = Ok (uri_host t) ∧
  SP m (UriData.u_str u UriData.F_port) = Ok (uri_port t).
Proof.
  intros (E & _) Hat. rewrite !E, !UriGrammar.text_put_authority by done. clear E.
  unfold UriGrammar.text_chars, UriGrammar.authority_chars in Hat.
  rewrite <- !app_assoc in Hat. unfold uri_user, uri_host, uri_port. destruct t as [[user host port] ps h].
  cbn [UriGrammar.t_authority UriGrammar.a_user UriGrammar.a_host UriGrammar.a_port] in *.
  pose proof (bytes_at_from _ _ _ _ Hat) as Hhost. pose proof (bytes_at_from _ _ _ _ Hhost) as Hport.
  apply bytes_at_app in Hat as [Huser _]. apply bytes_at_app in Hhost as [Hhost _]. apply bytes_at_app in Hport as [Hport _].
  unfold UriGrammar.authority_put. cbn [UriGrammar.a_user UriGrammar.a_host UriGrammar.a_port].
  split_and!.
  - destruct user as [[n [pw|]]|]; destruct port; cbn -[SP len]; try done; apply SP_at;
      cbn [UriGrammar.user_chars] in Huser; by apply bytes_at_app in Huser as [? _].
  - destruct port; cbn -[SP len UriGrammar.host_chars]; by apply SP_at.
  - destruct port as [ds|]; cbn -[SP len].
    + apply SP_at. by destruct Hport as [_ ?].
    + by destruct user as [[n [pw|]]|].
Qed.

(** ** Replying *)
Section sip.
Context `{FollyOk, Flags, !FlagsOk, !AccessLog.Sockets}.

Definition add_reply (l : list Z) (h : SIPHandler) : SIPHandler := set_reply (reply_ h ++ l) h.

Lemma add_reply_add k l h : add_reply k (add_reply l h) = add_reply (l ++ k) h.
Proof. unfold add_reply, set_reply. cbn. by rewrite app_assoc. Qed.

Lemma output_add fmt args h : output fmt args h = add_reply (placeholders fmt args) h.
Proof. unfold output. by rewrite format_placeholders. Qed.

Lemma rtrim_strip l : rtrimWhitespace l = strip l.
Proof. destruct (strip_spec l) as (b & E & Hb & Hs). rewrite E at 1. by apply rtrim_spec. Qed.

(** The handler [h] holds the parsed message. *)
Section reply.
Context (m : mem) (q : Z) (hs : list header_text) (rest : list Z) (g : sip_msg).
Hypothesis Hwf : msg_wf g.
Hypothesis Hfields : fields_parsed q hs (m_fields g).
Hypothesis Hat : bytes_at m q (headers_chars hs ++ rest).

Definition holds (h : SIPHandler) : Prop := recvbuf_ h = m ∧ msg_ h = g.

Lemma outputHeader_at h t : holds h → t = HDR_VIA_T ∨ link_of t = Some LFirst →
  outputHeader (m_hook (msg_ h) t) h = Ok (add_reply (echo hs t) h).
Proof.
  intros [Em Eg] Ht. rewrite Eg, (hook_first _ _ Hwf Ht).
  pose proof (first_field m q hs _ rest t 0 Hfields Hat) as Hf. unfold echo, positions.
  destruct (first_of t hs) as [x|].
  - destruct Hf as (i & f & -> & Hi & Hn & Hb). unfold outputHeader. rewrite Nat.add_0_l, Eg, Hi, Em, Hn.
    cbn [mbind res_bind]. rewrite Hb. cbn [mbind res_bind]. rewrite output_add, rtrim_strip.
    done.
  - rewrite Hf. cbn. unfold add_reply. rewrite app_nil_r. by destruct h.
Qed.

Lemma reply_at code msg h : holds h →
  reply code msg h = Ok (add_reply
    ((chars "SIP/2.0 " ++ dec code ++ chars " " ++ chars msg ++ [CR; LF]) ++ echoed hs) (set_status code h)).
Proof.
  intros Hh. unfold reply, echoed. rewrite output_add.
  change (placeholders _ _) with (chars "SIP/2.0 " ++ dec code ++ chars " " ++ chars msg ++ [CR; LF]).
  set (s := chars _ ++ _). set (h0 := set_status code h). rewrite <- add_reply_add.
  set (h1 := add_reply s h0). assert (Hh1 : holds h1) by exact Hh. clearbody h1.
  rewrite outputHeader_at by (done || by left). cbn [mbind res_bind].
  do 3 (rewrite outputHeader_at by (done || by right); cbn [mbind res_bind]).
  rewrite outputHeader_at by (done || by right). rewrite !add_reply_add. cbn [flat_map].
  by rewrite app_nil_r.
Qed.
End reply.

(** ** Whole requests *)

(** A request of the grammar whose URI is a SIP URI of the grammar. *)
Definition sip_request (r : request_text) (t : UriGrammar.uri_text) : Prop :=
  request_text_ok r ∧ ∃ sch ty, UriGrammar.scheme_ok sch ty ∧ UriGrammar.text_ok t ∧
    rt_uri r = sch ++ UriGrammar.text_chars t.

(** The message that is parsed from it. *)
Record received (m : mem) (p : Z) (r : request_text) (t : UriGrammar.uri_text) (g : sip_msg) : Prop := {
  rv_wf : msg_wf g;
  rv_fields : fields_parsed (headers_pos p r) (rt_headers r) (m_fields g);
  rv_line : m_first_line g = request_start p r;
  rv_user : SP m (UriData.u_str (m_parsed_uri g) UriData.F_user) = Ok (uri_user t);
  rv_host : SP m (UriData.u_str (m_parsed_uri g) UriData.F_host) = Ok (uri_host t);
  rv_port : SP m (UriData.u_str (m_parsed_uri g) UriData.F_port) = Ok (uri_port t);
}.

Lemma request_chars_pos r : request_text_ok r → 0 < len (request_chars r).
Proof.
  intros [_ [[Hne _] _ _ _ _ _ _] _]. unfold request_chars, line_chars, FirstLine.request_line. rewrite !len_app.
  destruct (rt_meth r) as [|c l]; [done|]. rewrite len_cons. pose proof (len_nonneg (rt_lead r)). pose proof (len_nonneg l).
  rewrite len_cons, !len_app. repeat match goal with |- context [len ?x] => lazymatch goal with H : 0 ≤ len x |- _ => fail | _ => pose proof (len_nonneg x) end end.
  lia.
Qed.

Lemma request_line_at m p r : bytes_at m p (request_chars r) → bytes_at m (line_pos p r) (line_chars r).
Proof. unfold request_chars. apply bytes_at_from. Qed.

Lemma parseMessage_at h r t : mem_ok (recvbuf_ h) → sip_request r t →
  bytes_at (recvbuf_ h) (mbase (recvbuf_ h)) (request_chars r) →
  ∃ g, parseMessage all_allocs (len (request_chars r)) false h = Ok (0, set_msg g h) ∧
    received (recvbuf_ h) (mbase (recvbuf_ h)) r t g.
Proof.
  intros Hm (Hr & sch & ty & Hsch & Ht & Eu) Hat. set (m := recvbuf_ h) in *. set (p := mbase m) in *.
  pose proof (request_chars_pos r Hr) as Hpos.
  destruct (parse_msg_at m p r Hm Hr Hat) as (g & Hg & [Hwf Hline Hfs _ _ [Hnew Hok]]).
  pose proof (line_parts m p r (request_line_at m p r Hat)) as (_ & Huri & _).
  assert (Hp : 0 < line_pos p r + len (rt_meth r) + 1).
  { destruct Hm as [Hb0 _ _]. unfold line_pos. pose proof (len_nonneg (rt_lead r)). pose proof (len_nonneg (rt_meth r)). subst p. lia. }
  assert (Hlen : len (rt_uri r) < 2 ^ 31).
  { destruct Hr as [_ [_ _ _ _ _ _ Hsize] _]. fold (len (FirstLine.request_line (rt_meth r) (rt_uri r) (rt_sp r) (rt_ver r) (rt_sp2 r) (after_line_chars r))) in Hsize.
    unfold FirstLine.request_line in Hsize. rewrite len_app, len_cons, len_app in Hsize.
    match type of Hsize with _ + (1 + (_ + len ?x)) < _ => pose proof (len_nonneg x) end. pose proof (len_nonneg (rt_meth r)). lia. }
  rewrite Eu in Huri, Hlen.
  destruct (UriGrammar.parse_uri_at m _ sch ty t Hsch Ht Hp Huri Hlen) as (u & Hu & Ht').
  exists (set_parsed_uri true u g). split.
  - unfold parseMessage. destruct (Z.eqb_spec (len (request_chars r)) 0); [lia|]. cbn [orb]. fold m p. rewrite Hg.
    cbn [mbind res_bind]. rewrite Hline. cbn beta iota. change (FirstLine.fl_type (request_start p r)) with FirstLine.SIP_REQUEST.
    change (negb (0 =? 0)) with false. cbv iota. rewrite Z.eqb_refl. cbn [negb].
    unfold parse_sip_msg_uri. rewrite Hok, Hnew, Hline.
    change (FirstLine.u_second (request_start p r)) with (Str (line_pos p r + len (rt_meth r) + 1) (len (rt_uri r))).
    change (recvbuf_ (set_msg g h)) with m. cbn zeta. rewrite Eu. cbn [str_s str_len]. by rewrite Hu.
  - apply bytes_at_app in Huri as [_ Huri].
    destruct (uri_parts_at m _ t ty u Ht' Huri) as (H1' & H2' & H3').
    split; [by apply set_parsed_uri_wf|done..].
Qed.

Lemma find_rn_table d pn : is_Some d → find_rn d pn = Ok (table_rn d pn).
Proof. intros [x ->]. unfold find_rn. by rewrite getRN_dict. Qed.

Lemma contact_add (v : globals) t h :
  contact (uri_user t) (uri_host t) (uri_port t) (PhoneMapping.fromString (uri_user t)) (routing v (uri_user t)) h =
  add_reply (contact_line v t) h.
Proof.
  unfold contact, contact_line. set (user := uri_user t). set (host := uri_host t). set (port := uri_port t).
  destruct (negb _); [|destruct FLAGS_rfc4694]; rewrite output_add; f_equal; cbn; by rewrite <- ?app_assoc.
Qed.

Lemma routing_rules a v user : routing (set_acl a v) user = routing v user.
Proof. done. Qed.

(** What is added to the reply, before the end. *)
Definition reply_body (v : globals) (code : Z) (r : request_text) (t : UriGrammar.uri_text) : list Z :=
status_line code ++ echoed (rt_headers r) ++
(if code =? 302 then contact_line v t ++ chars "Location-Info: N" ++ [CR; LF] else []).

Section respond.
Context (m : mem) (p : Z) (r : request_text) (t : UriGrammar.uri_text) (g : sip_msg).
Hypothesis Hrec : received m p r t g.
Hypothesis Hat : bytes_at m p (request_chars r).

Lemma headers_at : bytes_at m (headers_pos p r) (headers_chars (rt_headers r) ++ (eol (rt_eoh r) ++ rt_body r)).
Proof. exact (proj2 (proj2 (line_parts m p r (request_line_at m p r Hat)))). Qed.

Lemma reply_code_at code msg h : holds m g h →
  status_line code = chars "SIP/2.0 " ++ dec code ++ chars " " ++ chars msg ++ [CR; LF] → code ≠ 302 →
  ∀ v, reply code msg h = Ok (add_reply (reply_body v code r t) (set_status code h)).
Proof.
  intros Hh E Hc v. rewrite (reply_at m (headers_pos p r) (rt_headers r) _ g (rv_wf _ _ _ _ _ Hrec) (rv_fields _ _ _ _ _ Hrec) headers_at)
    by done.
  unfold reply_body. rewrite E. destruct (Z.eqb_spec code 302); [done|]. by rewrite app_nil_r.
Qed.

Lemma redirect_at v now h : holds m g h → isAvailable v = true →
  (ACL.isCallAllowed (currentACL v) now (AccessLog.getIPAddress (peer_ h))).1 ≠ 429 →
  (ACL.isCallAllowed (currentACL v) now (AccessLog.getIPAddress (peer_ h))).1 ≠ 401 →
  handleInvite v now h =
  Ok (set_acl (ACL.isCallAllowed (currentACL v) now (AccessLog.getIPAddress (peer_ h))).2 v,
      add_reply (reply_body v 302 r t) (set_status 302 h)).
Proof.
  intros Hh Hav Hc1 Hc2. unfold handleInvite.
  destruct (ACL.isCallAllowed _ _ _) as [code acl]. cbn [fst snd] in *.
  destruct (Z.eqb_spec code 429); [done|]. destruct (Z.eqb_spec code 401); [done|].
  destruct Hh as [Em Eg]. rewrite Em, Eg, (rv_user _ _ _ _ _ Hrec). cbn [mbind res_bind].
  assert (Hus : is_Some (mappingUS v) ∧ is_Some (mappingCA v)).
  { unfold isAvailable in Hav. by destruct (mappingUS v), (mappingCA v). }
  destruct Hus as [Hus Hca]. set (pn := PhoneMapping.fromString (uri_user t)).
  change (mappingUS (set_acl acl v)) with (mappingUS v). change (mappingCA (set_acl acl v)) with (mappingCA v).
  rewrite !find_rn_table by done.
  assert (E : (if negb (pn =? PhoneMapping.NONE) then Ok (table_rn (mappingUS v) pn) else mret PhoneMapping.NONE) =
    Ok (if pn =? PhoneMapping.NONE then PhoneMapping.NONE else table_rn (mappingUS v) pn)) by by destruct (pn =? _).
  rewrite E. cbn [mbind res_bind]. clear E.
  set (rn := if pn =? _ then _ else _).
  assert (E : (if rn =? PhoneMapping.NONE then Ok (table_rn (mappingCA v) pn) else mret rn) = Ok (routing v (uri_user t))).
  { unfold routing. fold pn. fold rn. by destruct (rn =? _). }
  rewrite E. cbn [mbind res_bind]. clear E.
  rewrite (reply_at m (headers_pos p r) (rt_headers r) _ g (rv_wf _ _ _ _ _ Hrec) (rv_fields _ _ _ _ _ Hrec) headers_at)
    by done. cbn [mbind res_bind]. set (h1 := add_reply _ _).
  change (recvbuf_ h1) with (recvbuf_ h). rewrite Em, (rv_host _ _ _ _ _ Hrec). cbn [mbind res_bind].
  rewrite (rv_port _ _ _ _ _ Hrec). cbn [mbind res_bind]. subst pn. rewrite contact_add. subst h1.
  rewrite output_add, !add_reply_add. unfold reply_body. cbn [Z.eqb Pos.eqb]. rewrite <- !app_assoc. done.
Qed.

Lemma respond_at v now h : holds m g h →
  let '(code, v') := decide_call v now (AccessLog.getIPAddress (peer_ h)) (rt_meth r) in
  respond v now h = Ok (v', add_reply (reply_body v code r t) (set_status code h)).
Proof.
  intros Hh. unfold decide_call, respond. destruct (isAvailable v) eqn:Hav; cbn [negb].
  2: { by rewrite (reply_code_at 503 _ h Hh eq_refl ltac:(done) v). }
  replace (FirstLine.u_value (m_first_line (msg_ h))) with (method_id (rt_meth r))
    by (rewrite (proj2 Hh), (rv_line _ _ _ _ _ Hrec); done).
  destruct (_ =? METHOD_OPTIONS); [by rewrite (reply_code_at 200 _ h Hh eq_refl ltac:(done) v)|].
  destruct (_ =? METHOD_INVITE); [|by rewrite (reply_code_at 405 _ h Hh eq_refl ltac:(done) v)].
  pose proof (redirect_at v now h Hh Hav) as Hr. unfold handleInvite in *.
  destruct (ACL.isCallAllowed _ _ _) as [code acl]. cbn [fst snd] in Hr.
  destruct (Z.eqb_spec code 429) as [->|N1]; [by rewrite (reply_code_at 429 _ h Hh eq_refl ltac:(done) v)|].
  destruct (Z.eqb_spec code 401) as [->|N2]; [by rewrite (reply_code_at 401 _ h Hh eq_refl ltac:(done) v)|].
  by apply Hr.
Qed.
End respond.

(** The line of the access log, behind the text that the formatter still has. *)
Definition log_line (h : SIPHandler) (client : AccessLog.SocketAddress) (r : request_text) (start code : Z) : list Z :=
AccessLog.message_ (log_ h) ++
AccessLog.request_part client (rt_meth r) (rt_uri r) start ++ AccessLog.response_part code 0.

Lemma onDataAvailable_at h w client start now r t :
  mem_ok (recvbuf_ h) → sip_request r t →
  bytes_at (recvbuf_ h) (mbase (recvbuf_ h)) (request_chars r) →
  let '(code, v) := decide_call (w_vars w) now (AccessLog.getIPAddress client) (rt_meth r) in
  ∃ h', onDataAvailable all_allocs client (len (request_chars r)) false start now w h =
    Ok (World v (w_log w)
          (w_written w ++ if w_log w then [log_line h client r start code] else [])
          (w_sent w ++ [(client, reply_text (w_vars w) code r t)]), h') ∧
    recvbuf_ h' = recvbuf_ h ∧ AccessLog.message_ (log_ h') = log_line h client r start code.
Proof.
  intros Hm Hr Hat. set (h0 := set_reply [] (set_request start client (set_status 0 h))).
  destruct (parseMessage_at h0 r t Hm Hr Hat) as (g & Hg & Hrec).
  set (h1 := set_log (AccessLog.onRequest (log_ h) client (rt_meth r) (rt_uri r) start) (set_msg g h0)).
  pose proof (respond_at _ _ r t g Hrec Hat (w_vars w) now h1 (conj eq_refl eq_refl)) as Hresp.
  change (AccessLog.getIPAddress (peer_ h1)) with (AccessLog.getIPAddress client) in Hresp.
  destruct (decide_call _ _ _ _) as [code v]. eexists. split; [|split].
  - unfold onDataAvailable. fold h0. rewrite Hg. cbn [mbind res_bind]. change (negb (0 =? 0)) with false. cbv iota.
    destruct (line_parts _ _ r (request_line_at _ _ r Hat)) as (Hmeth & Huri & _).
    change (msg_ (set_msg g h0)) with g. change (recvbuf_ (set_msg g h0)) with (recvbuf_ h).
    rewrite (rv_line _ _ _ _ _ Hrec).
    change (FirstLine.u_first (request_start (mbase (recvbuf_ h0)) r)) with (Str (line_pos (mbase (recvbuf_ h)) r) (len (rt_meth r))).
    change (FirstLine.u_second (request_start (mbase (recvbuf_ h0)) r)) with
      (Str (line_pos (mbase (recvbuf_ h)) r + len (rt_meth r) + 1) (len (rt_uri r))).
    rewrite (SP_at _ _ _ Hmeth). cbn [mbind res_bind]. rewrite (SP_at _ _ _ Huri). cbn [mbind res_bind].
    change (set_log _ (set_msg g h0)) with h1. rewrite Hresp. cbn [mbind res_bind].
    rewrite output_add, add_reply_add. unfold AccessLog.onResponse.
    set (body := _ ++ placeholders _ _).
    assert (E : body = reply_text (w_vars w) code r t).
    { subst body. unfold reply_text, reply_body. rewrite <- !app_assoc. by destruct (code =? 302); rewrite <- ?app_assoc. }
    rewrite E. cbn [add_reply set_reply set_status set_log log_ reply_ peer_ status_ h1 h0 set_msg set_request AccessLog.message_
      AccessLog.onRequest app]. rewrite <- !app_assoc. done.
  - done.
  - done.
Qed.

(** ** Properties *)

End sip.

(** ** An instance *)
#[local] Existing Instance AccessLog.sockets_model.

Definition sample_uri : UriGrammar.uri_text :=
  UriGrammar.UriText (UriGrammar.Authority (Some (chars "12025550123", None)) (UriGrammar.HName (chars "10.0.0.1")) None) [] None.

Definition sample_table (rows : list row) : option PhoneMapping.Data :=
  match add_rows PhoneMapping.new_data rows with
  | Ok (inr b) => match PhoneMapping.build b with Ok d => Some d | _ => None end
  | _ => None
  end.

(** Two tables, and a rule for the peer [p]. *)
Definition sample_vars : globals :=
  MkGlobals (sample_table [(2025550000, 2025550001)]) (sample_table [(2025550123, 4165550002)]) None None None
    (Some [(chars "p", ACL.new_rule)]) None None None None None None.

Definition sample_handler : SIPHandler :=
  MkSip AccessLog.new_formatter (Mem 4096 (request_chars request_sample ++ replicate 40 0)) 0 [] [] 0 (new_msg 0 0).

Definition sample_world : world := World sample_vars true [] [].

Definition sample_answer (request : SIPHandler) (len : Z) (peer : string) : option (list (list Z * list Z)) :=
  match onDataAvailable all_allocs (chars peer) len false 7 8 sample_world request with
  | Ok (w, _) => Some (w_sent w) | _ => None end.

Lemma sample_redirected : sample_answer sample_handler (len (request_chars request_sample)) "p" =
  Some [(chars "p",
    chars ("SIP/2.0 302 Moved Temporarily" +:+ nl +:+ "v: SIP/2.0/UDP 10.0.0.2:5060;branch=z9hG4bK1" +:+ nl +:+
      "To: Bob B. <sip:b@c;x=y>;tag=1x;n" +:+ nl +:+ "Call-ID: a b" +:+ nl +:+ "	c" +:+ nl +:+ "CSeq: 1 INVITE" +:+ nl +:+
      "Contact: <sip:+12025550123;rn=+14165550002;ndpi@10.0.0.1:>" +:+ nl +:+ "Location-Info: N" +:+ nl +:+
      "Content-Length: 0" +:+ nl +:+ nl))].
Proof. by vm_compute. Qed.

Lemma sample_request : sip_request request_sample sample_uri.
Proof.
  split; [apply request_sample_ok|]. exists (chars "sip:"), UriData.SIP_URI_T. split; [by left|]. split; [|done].
  split; [|by constructor|done]. split; [|split; [done|plain_ok]|done]. split; [done|]. split; [plain_ok|done].
Qed.

